(* ===== verification/_CoqProject ===== *)
-Q . S2P
Prelude.v
GoStr.v
GoTrim.v
GoPath.v
LiveQueue.v
RunState.v
MemoryBackend.v
MemoryDecisionOutput.v
MemoryLiveQueue.v
QueueInvariants.v
QueueProtocol.v
QueueCorrect.v
BackendCorrect.v
Prune.v
ToolOutput.v
ModelRetry.v
Approval.v
ToolPath.v
ApplyPatch.v
PatchPlan.v
PatchApproval.v
LoopGuard.v
ContextFrag.v
ContextUnits.v
ContextSelect.v
ContextCorrect.v
Admission.v
Timeline.v
TimelineRender.v
TimelineCache.v
TimelineCompose.v
EditTool.v
FoldRetain.v
FoldRead.v
FoldPlan.v
FoldRun.v
Background.v
BackgroundCorrect.v
Subagent.v
SubagentCorrect.v
SpawnAdapter.v
CommandSyntax.v
CommandSyntaxCorrect.v
Slash.v
CommandCallback.v
CallbackCorrect.v
BotAccess.v
BotAccessCorrect.v
ManagersCorrect.v
CommandGate.v
GateCorrect.v
