(* ===== verification/Prelude.v ===== *)
(** * Memoh: a verification development of the agent platform's core logic

    Memoh is a server that runs agents for people and groups: chat channels
    feed sessions, a session runs an agent turn against a model with tools,
    and steers and follow-ups reach a turn while it runs.  This development
    models the parts of its Go code ([src/internal]) that decide: which
    message of a queue is applied, which run may start, what a tool may touch,
    how much of a history or of a tool's output reaches a model, when a
    looping agent is stopped, what a chat looks like to it.  The definitions
    follow the Go functions one by one and keep their names; every file opens
    with the Go files it models.

    ** The parts and how they interact

    - Foundations.  [Prelude] has the results of fallible functions, generic
      lemmas and tactics; [GoStr] has Go strings, runes, UTF-8 and what the code
      calls of [strings], [strconv] and [time]; [GoTrim] facts about trimming;
      [GoPath] the package [path].
    - The session runtime, [agent/runtime/session].  [LiveQueue] is
      [live_queue.go] and [live_queue_transitions.go], the two documents of a
      session's queue; [RunState] the run views of [types.go] and [state.go];
      [MemoryBackend], [MemoryDecisionOutput] and [MemoryLiveQueue] the three
      [memory*.go] files, the backend that keeps them for one process and
      guards every queue operation.  [QueueProtocol] lists the operations of
      the backend as one step relation and shows that it refines two small
      transition systems on documents; [QueueInvariants], [QueueCorrect] and
      [BackendCorrect] prove what every reachable backend satisfies.
    - Tool calls.  [Approval] is the policy that lets a call through, asks or
      denies it ([agent/decision/approval]); [ToolPath] places a path in the
      workspace ([agent/tool/container.go]); [ApplyPatch] and [PatchPlan] are
      the two halves of [agent/tool/apply_patch.go], with the file system
      behind the bridge as the class [PatchFS]; [PatchApproval] relates the
      policy's reading of a patch with the parser's.
    - What a tool returns.  [Prune] is [prune/text.go]; [ToolOutput] limits a
      structured value ([agent/context/limit], [textutil]) with it.
    - Calls of the model.  [ModelRetry] is [models/modelretry]; [LoopGuard] the
      detectors of repeated text and repeated calls of [agent/runtime/native].
    - The prompt.  [ContextFrag] is the intermediate representation of
      [agent/context/fragment]; [ContextUnits] and [ContextSelect] the
      selection of [contextview]; [ContextCorrect] its guarantees;
      [Admission] the decision of [agent/turn/admission.go] which entries of a
      history are materialised.
    - The chat timeline, [chat/timeline].  [Timeline] reduces the events of a
      session to a list of nodes, [TimelineRender] renders a node to the text
      a model reads.
      [TimelineCache] is [pipeline.go], the bounded cache that keeps both for
      the sessions in memory and renders only what an event changed.
      [TimelineCompose] merges the renderings with the bot's answers, under the
      session's checkpoint and a budget ([context.go], [context_source.go],
      [cursor.go]), which calls [Admission].

      [EditTool] is the edit tool ([internal/agent/tool/fsops.go]) and the
      texts it shows a change with ([edit_diff.go]).

      Context compaction ([internal/agent/context/compaction]) is in four
      files.  [FoldRetain] has its data, prices and budgets and what an event
      keeps verbatim; [FoldRead] what a pass sends the summarizer
      ([fold_read.go]), cutting groups with [ToolOutput]; [FoldPlan] the plan of
      a pass and its instruction ([fold_plan.go], [fold_instruction.go]);
      [FoldRun] the passes of an event ([fold.go]) and the checkpoint a pass
      commits ([internal/chat/checkpoint/commit.go]).

      Background tasks ([internal/agent/background]) are in two files.
      [Background] has the tasks, the manager and what happens to them, commands,
      in-process jobs, subagents and videos alike, with waits, stops and the
      stall watchdog; [BackgroundCorrect] lists the operations as one step
      relation and proves what every reachable manager satisfies.
      [Subagent] is their client in [internal/agent/tool/subagent.go]: the
      coordinator that gives an agent one run at a time, and the attempts within
      a run; [SubagentCorrect] proves the coordinator over the tasks of
      [Background], against any other operation on them.  [SpawnAdapter] is the
      native runtime of an attempt
      ([internal/agent/runtime/native/spawn_adapter.go]) with the observer it
      publishes to: the callbacks of the provider it calls, in their order, and
      what the session sees; it proves when a run is tried again.

      Slash commands are in five files.  [CommandSyntax] reads them
      ([internal/commandsyntax]): tokens, flags, and the message of a channel
      with its mentions; [CommandSyntaxCorrect] proves it.  [Slash] classifies a
      message as command, skill or text ([internal/slash]).  [CommandCallback]
      has the payloads of buttons and the command of a tap
      ([internal/command/callback.go], [fallback.go]), and [CallbackCorrect]
      their round trips.

      Access to a bot is [BotAccess], over the rows of its tables: the grants
      of users ([internal/bots/grants.go]), the chat rules and presets
      ([internal/acl]), link codes, manage overrides and the list of managers
      ([internal/channelaccess]).  [BotAccessCorrect] proves the permissions,
      the rules and the codes, and an invariant of every order of the
      operations; [ManagersCorrect] that the list of managers and the check of
      one identity agree.
      [CommandGate] is the handler of commands ([internal/command/handler.go],
      [registry.go], [link.go]): its gate, its dispatch and its table of
      commands, against the interface of the chat rules ([AccessEvaluator] and
      its laws), of which [GateCorrect] shows [BotAccess] an instance before it
      proves who may run what.

    ** State and operations

    A Go struct is a record, a tagged union an inductive type, a map whose
    order is not observed a [gmap], a slice a list.  A method that changes its
    receiver returns the new one; an error is [Err] of [Prelude.result], and
    where the code leaves its receiver changed on an error the new state is
    returned with it.  A mutex makes an operation one step.  Clock readings,
    fresh identifiers and random jitter are arguments.  Go's [int] and [int64]
    are [Z]; wrap-around and saturation are written out where a caller's
    number can reach them ([GoStr.wrap64], [GoStr.time_sub]), and sums of
    lengths, token estimates and counters, which stay far below 2^63, are
    unbounded.  Loops recurse over the list they consume; the few that do not
    have fuel computed from their input, and a theorem says that it suffices.

    ** What the theorems show

    - Queues: a steer is applied at most once and only in the run and segment
      it was claimed for, every item follows one life cycle, both documents
      keep their invariants under every sequence of operations, history resets
      exclude each other and runs, decision logs are gap-free and idempotent.
    - Tools: what an approval policy lets through is what its rules say, a
      patch writes what its chunks describe, in order and apart unless a chunk
      is marked as the end of the file, and all or nothing of its plan; its
      paths are reviewed and stay inside the workspace.
    - Output: a pruned text and a limited value are within their limits.
    - Calls: a retry loop returns; a repeated call is warned about and then
      stopped; the detector equals its reference definition.
    - Prompt: a selection fits the window it was planned for (its fixed part
      alone when the run is armed to fold its own history, which is then not
      trimmed), keeps what must stay, records what it drops and splits no tool
      exchange; an admission
      fits its budget or fails because it must.
    - Timeline: nodes are never lost, replays and redeliveries agree, no text
      of a message forges a tag, except the type of an attachment, which is
      quoted and not escaped.
      The cache refines a store of event logs that may forget a session but
      never a part of one; it keeps its limits and expires by age exactly.
      A composition holds what is pinned, fits its budget and loses no unread
      input in silence: an unread message is composed, or listed as omitted, or
      it is folded and the summaries that stand for it are composed; a consumed
      position covers what was answered and nothing later.
      An edit replaces one occurrence or says why not, and leaves the rest of a
      file byte for byte.
      A compaction event ends, because every pass shrinks the request; it
      loses no row of the history, asks for no more than the window holds, and
      reads as much as leaves the summarizer room to answer.
      A background task settles once, for a reason, and tells of it; a wait for
      it ends; no session has more than three batches of subagents.
      A subagent never has two runs at once, no request to it is forgotten, its
      queue drains, and a run is retried only after silence with nothing saved
      and no end shown to those who watch it.
      A command whose name is followed by a blank, a tab or nothing is read as
      what it says, and quoting and tokenizing are inverse; a mention is removed with nothing but white space around it.  In
      a group only what addresses the bot is acted on.  A button decodes to what
      it was made for, and its tap runs that when its arguments can be quoted.
      A user holds a permission exactly when ownership or a grant gives it; a
      chat rule acts only against the default of its bot, in whatever order; a
      link code binds one identity, once, to the user who asked for it; the
      managers listed are those the commands obey.
      A sender whom the rules refuse and who does not operate the bot reaches
      no command but [/link], and nobody else is refused; a writing
      command cannot matter to a sender who does not operate the bot, and the
      check the channel makes is the gate of the handler.

    ** Parameters

    [Unicode] and [Printable] are Go's tables above ASCII; [Externals] is what
    the model SDK, [encoding/json] and [crypto/sha256] compute of a fragment;
    [PatchFS] is the file system of a workspace; [Encoder] the
    JSON of a timeline's nodes, whose length the cache counts; [DiffLib] a diff
    library; [SDK] and [SDKValues] the values of the model SDK that compaction
    builds and reads; [Env] and [CommitDB] the queries and the summarizer of a
    pass; [UUIDs] is [uuid.Parse], and the laws of [UUIDLaws] are that its text
    is canonical; [AccessEvaluator] is what the command handler asks of the chat
    rules, and the handlers of the commands other than [/link] are functions
    on any world.  Each has a concrete instance
    that the witnesses use.

    ** Not modelled

    Generated code ([db/*/sqlc], the protocol packages of
    [agent/runtime/external], OpenAPI clients), SQL and Redis stores (their
    transactions are scripts and queries, modelled only for the tables of
    [BotAccess]), HTTP and channel adapters (they
    translate third-party APIs), container, browser and media tools (they call
    services), providers of models and voices, the web and desktop apps.  The
    manager of session runtimes, whose goroutines drive the backend modelled
    here, the collectors that gather fragments and the message service over
    the database are the largest parts with logic of their own that remain. *)

From Stdlib Require Export Ascii String ZArith Lia Permutation Sorted.
From stdpp Require Export base tactics list gmap sets strings.

#[local] Open Scope Z_scope.
Set Default Proof Using "Type".

(** ** Results of fallible Go functions

    A Go function that returns [(value, error)] is a value of [result]. *)
Inductive result (E A : Type) : Type :=
  | Ok (a : A)
  | Err (e : E).
Arguments Ok {E A} a.
Arguments Err {E A} e.

Definition rbind {E A B : Type} (r : result E A) (k : A -> result E B) : result E B :=
  match r with Ok a => k a | Err e => Err e end.

(** [fmt.Errorf] around an error *)
Definition map_err {E F A} (f : E -> F) (r : result E A) : result F A :=
  match r with Ok a => Ok a | Err e => Err (f e) end.

Definition is_ok {E A : Type} (r : result E A) : bool :=
  match r with Ok _ => true | Err _ => false end.

Declare Scope go_scope.
Delimit Scope go_scope with go.
Notation "x <-? e ;; k" := (rbind e (fun x => k))
  (at level 100, e at next level, right associativity) : go_scope.
#[global] Open Scope go_scope.

(** ** Searching and sorting slices *)
Section slices.
Context {A : Type}.

(** The first element of a slice that satisfies [p], with its index: the
    pattern [for i := range s { if p(s[i]) { ...; return } }]. *)
Fixpoint find_idx (p : A -> bool) (l : list A) : option (nat * A) :=
  match l with
  | [] => None
  | x :: r => if p x then Some (0%nat, x)
              else match find_idx p r with
                   | Some (i, y) => Some (S i, y)
                   | None => None
                   end
  end.

(** The last one: a loop without [break] that records the index. *)
Definition find_last (p : A -> bool) (l : list A) : option nat :=
  match find_idx p (rev l) with
  | Some (i, _) => Some (length l - 1 - i)%nat
  | None => None
  end.

(** [best := -1; for i := range s { if ok(s[i]) && (best < 0 || key(s[i]) <
    key(s[best])) { best = i } }]. *)
Fixpoint best_from (ok : A -> bool) (key : A -> Z) (i : nat) (l : list A)
    (best : option (nat * A)) : option (nat * A) :=
  match l with
  | [] => best
  | x :: r =>
      best_from ok key (S i) r
        (if ok x && match best with None => true | Some (_, b) => key x <? key b end
         then Some (i, x) else best)
  end.
Definition best_index (ok : A -> bool) (key : A -> Z) (l : list A) : option (nat * A) :=
  best_from ok key 0 l None.

Definition countb (p : A -> bool) (l : list A) : nat := length (List.filter p l).

(** [sort.SliceStable] and [slices.SortStableFunc]: [lt] is the strict order
    of the Go call, equal elements keep their order. *)
Fixpoint insert_stable (lt : A -> A -> bool) (x : A) (l : list A) : list A :=
  match l with
  | [] => [x]
  | y :: r => if lt y x then y :: insert_stable lt x r else x :: l
  end.
Fixpoint stable_sort (lt : A -> A -> bool) (l : list A) : list A :=
  match l with
  | [] => []
  | x :: r => insert_stable lt x (stable_sort lt r)
  end.
End slices.

(** ** Automation *)
Ltac invc H := inversion H; subst; clear H.
Ltac case_if :=
  match goal with
  | |- context [if ?b then _ else _] => destruct b eqn:?
  | H : context [if ?b then _ else _] |- _ => destruct b eqn:?
  end.
Ltac bool_hyps :=
  repeat match goal with
  | H : _ && _ = true |- _ => apply andb_true_iff in H as [? ?]
  | H : _ || _ = false |- _ => apply orb_false_iff in H as [? ?]
  | H : negb _ = true |- _ => apply negb_true_iff in H
  | H : negb _ = false |- _ => apply negb_false_iff in H
  | H : bool_decide _ = true |- _ => apply bool_decide_eq_true in H
  | H : bool_decide _ = false |- _ => apply bool_decide_eq_false in H
  | H : (_ <? _) = true |- _ => apply Z.ltb_lt in H
  | H : (_ <? _) = false |- _ => apply Z.ltb_ge in H
  | H : (_ <=? _) = true |- _ => apply Z.leb_le in H
  | H : (_ <=? _) = false |- _ => apply Z.leb_gt in H
  | H : (_ =? _) = true |- _ => apply Z.eqb_eq in H
  | H : (_ =? _) = false |- _ => apply Z.eqb_neq in H
  end.
(** The rewriting base of the development's unfolding equations, and the
    resolution base of its list facts. *)
Create HintDb go discriminated.
Create Rewrite HintDb goeq.

(** ** Lemmas on the slice operations *)
Lemma find_idx_Some {A} (p : A -> bool) l i x :
  find_idx p l = Some (i, x) -> l !! i = Some x /\ p x = true.
Proof.
  revert i; induction l as [|y l IH]; intros i H; simpl in H; [done|].
  destruct (p y) eqn:Hp; [by simplify_eq|].
  destruct (find_idx p l) as [[j z]|] eqn:E; simplify_eq. by apply IH.
Qed.

Lemma find_idx_first {A} (p : A -> bool) l i x j y :
  find_idx p l = Some (i, x) -> (j < i)%nat -> l !! j = Some y -> p y = false.
Proof.
  revert i j; induction l as [|z l IH]; intros i j H Hj Hy; simpl in H; [done|].
  destruct (p z) eqn:Hp; simplify_eq; [lia|].
  destruct (find_idx p l) as [[k w]|] eqn:E; simplify_eq.
  destruct j; simplify_eq/=; [done|]. eapply IH; eauto; lia.
Qed.

Lemma find_idx_None {A} (p : A -> bool) l :
  find_idx p l = None <-> Forall (fun x => p x = false) l.
Proof.
  induction l as [|y l IH]; simpl; [by split|].
  destruct (p y) eqn:Hp; [split; [done|]; inversion 1; congruence|].
  destruct (find_idx p l) as [[j z]|]; [split; [done|]|].
  - inversion 1; subst. by apply IH in H3.
  - split; [|done]. constructor; [done|]. by apply IH.
Qed.

Lemma find_idx_is_Some {A} (p : A -> bool) l x :
  x ∈ l -> p x = true -> exists i y, find_idx p l = Some (i, y).
Proof.
  intros Hx Hp. destruct (find_idx p l) as [[i y]|] eqn:E; [eauto|].
  apply find_idx_None in E. rewrite Forall_forall in E.
  apply E in Hx. congruence.
Qed.

Lemma best_from_spec {A} (ok : A -> bool) key i (l : list A) best :
  match best_from ok key i l best with
  | Some (j, x) =>
      (best = Some (j, x) \/ (exists k, j = (i + k)%nat /\ l !! k = Some x /\ ok x = true)) /\
      Forall (fun y => ok y = true -> key x <= key y) l /\
      (forall k y, best = Some (k, y) -> key x <= key y)
  | None => best = None /\ Forall (fun y => ok y = false) l
  end.
Proof.
  revert i best; induction l as [|z l IH]; intros i best; simpl.
  - destruct best as [[j x]|]; [|done]. split; [by left|]. split; [done|].
    intros k y [= -> ->]; lia.
  - set (b' := if ok z && _ then Some (i, z) else best).
    specialize (IH (S i) b'). destruct (best_from ok key (S i) l b') as [[j x]|].
    + destruct IH as (Hin & Hall & Hb).
      assert (Hz : ok z = true -> key x <= key z).
      { intros Hok. subst b'. rewrite Hok in Hb. simpl in Hb.
        destruct best as [[kb yb]|]; simpl in Hb.
        - destruct (key z <? key yb) eqn:E; bool_hyps; [by eapply Hb|].
          specialize (Hb kb yb eq_refl). lia.
        - by eapply Hb. }
      split; [|split; [by constructor|]].
      * destruct Hin as [Hb'|(k & -> & Hk & Hok)].
        -- subst b'. case_if; [|by left]. simplify_eq. right. exists 0%nat.
           bool_hyps. split; [lia|done].
        -- right. exists (S k). split; [lia|done].
      * intros k y ->. subst b'. simpl in *. destruct (ok z && (key z <? key y)) eqn:E.
        -- bool_hyps. specialize (Hz ltac:(done)). lia.
        -- by eapply Hb.
    + destruct IH as [Hb Hall]. subst b'. case_if; [done|]. subst.
      rewrite andb_true_r in Heqb. by split; [|constructor].
Qed.

Lemma best_index_Some {A} (ok : A -> bool) key (l : list A) i x :
  best_index ok key l = Some (i, x) ->
  l !! i = Some x /\ ok x = true /\ Forall (fun y => ok y = true -> key x <= key y) l.
Proof.
  intros H. pose proof (best_from_spec ok key 0 l None) as S.
  unfold best_index in H. rewrite H in S.
  destruct S as ([?|(k & -> & Hk & Hok)] & Hall & _); [done|]. by split.
Qed.

Lemma best_index_None {A} (ok : A -> bool) key (l : list A) :
  best_index ok key l = None -> Forall (fun y => ok y = false) l.
Proof.
  intros H. pose proof (best_from_spec ok key 0 l None) as S.
  unfold best_index in H. by rewrite H in S; destruct S.
Qed.

Lemma insert_stable_perm {A} lt (x : A) l : insert_stable lt x l ≡ₚ x :: l.
Proof.
  induction l as [|y l IH]; simpl; [done|]. case_if; [|done].
  rewrite IH. apply Permutation_swap.
Qed.
Lemma stable_sort_perm {A} lt (l : list A) : stable_sort lt l ≡ₚ l.
Proof.
  induction l as [|x l IH]; simpl; [done|]. by rewrite insert_stable_perm, IH.
Qed.
Lemma stable_sort_length {A} lt (l : list A) : length (stable_sort lt l) = length l.
Proof. by rewrite stable_sort_perm. Qed.

Lemma countb_app {A} (p : A -> bool) l1 l2 :
  countb p (l1 ++ l2) = (countb p l1 + countb p l2)%nat.
Proof. unfold countb. by rewrite List.filter_app, length_app. Qed.
Lemma countb_cons {A} (p : A -> bool) x l :
  countb p (x :: l) = ((if p x then 1 else 0) + countb p l)%nat.
Proof. unfold countb; simpl. by case_if. Qed.
Lemma countb_le {A} (p : A -> bool) l : (countb p l <= length l)%nat.
Proof. induction l as [|x l IH]; [done|]. rewrite countb_cons; simpl. case_if; lia. Qed.
Lemma countb_insert {A} (p : A -> bool) l i x y :
  l !! i = Some x ->
  (countb p (<[i:=y]> l) + (if p x then 1 else 0) = countb p l + (if p y then 1 else 0))%nat.
Proof.
  revert i; induction l as [|z l IH]; intros [|i] Hi; simplify_eq/=.
  - rewrite !countb_cons. lia.
  - rewrite !countb_cons. specialize (IH i Hi). lia.
Qed.
#[export] Hint Rewrite @countb_app @countb_cons : goeq.

(** ** Sublists, sorted lists *)
Lemma countb_sublist {A} (p : A -> bool) l1 l2 :
  l1 `sublist_of` l2 -> (countb p l1 <= countb p l2)%nat.
Proof. induction 1; rewrite ?countb_cons; [done| |]; case_if; lia. Qed.
Lemma countb_forall {A} (p : A -> bool) l :
  Forall (fun x => p x = false) l -> countb p l = 0%nat.
Proof. induction 1 as [|x l Hx _ IH]; [done|]. by rewrite countb_cons, Hx, IH. Qed.
Lemma countb_pos {A} (p : A -> bool) l :
  (0 < countb p l)%nat -> exists x, x ∈ l /\ p x = true.
Proof.
  intros H. destruct (find_idx p l) as [[i x]|] eqn:E.
  - apply find_idx_Some in E as [Hi Hp]. exists x. split; [|done].
    by eapply list_elem_of_lookup_2.
  - apply find_idx_None, countb_forall in E. lia.
Qed.
Lemma countb_ext {A} (p q : A -> bool) l :
  Forall (fun x => p x = q x) l -> countb p l = countb q l.
Proof. induction 1 as [|x l Hx _ IH]; [done|]. by rewrite !countb_cons, Hx, IH. Qed.
Lemma sublist_forall {A} (P : A -> Prop) l1 l2 :
  l1 `sublist_of` l2 -> Forall P l2 -> Forall P l1.
Proof.
  induction 1 as [|x l1 l2 _ IH|x l1 l2 _ IH]; intros H; [done| |];
    apply Forall_cons in H as [? ?]; [constructor|]; auto.
Qed.
Lemma sublist_fmap {A B} (f : A -> B) l1 l2 :
  l1 `sublist_of` l2 -> (f <$> l1) `sublist_of` (f <$> l2).
Proof. induction 1; simpl; by constructor. Qed.
Lemma filter_nil_forall {A} (p : A -> bool) l :
  Forall (fun x => p x = false) l -> List.filter p l = [].
Proof. induction 1 as [|x l Hx _ IH]; simpl; [done|]. by rewrite Hx. Qed.
Lemma filter_id_forall {A} (p : A -> bool) l :
  Forall (fun x => p x = true) l -> List.filter p l = l.
Proof. induction 1 as [|x l Hx _ IH]; simpl; [done|]. by rewrite Hx, IH. Qed.
Lemma filter_comm {A} (p q : A -> bool) l :
  List.filter p (List.filter q l) = List.filter q (List.filter p l).
Proof.
  induction l as [|x l IH]; simpl; [done|].
  destruct (q x) eqn:Hq, (p x) eqn:Hp; simpl; rewrite ?Hq, ?Hp; by rewrite ?IH.
Qed.
#[export] Instance filter_perm_proper {A} (p : A -> bool) :
  Proper ((≡ₚ) ==> (≡ₚ)) (List.filter p).
Proof.
  induction 1; simpl; repeat case_if; try done; auto using perm_swap, perm_skip.
  by etrans.
Qed.
Lemma countb_perm {A} (p : A -> bool) l l' : l ≡ₚ l' -> countb p l = countb p l'.
Proof. intros H. unfold countb. by rewrite (filter_perm_proper p _ _ H). Qed.

Section sorted.
Context {A : Type} (lt : A -> A -> bool).
Definition le_of (a b : A) : Prop := lt b a = false.
Context (lt_asym : forall a b, lt a b = true -> lt b a = false).
Context (le_trans : forall a b c, le_of a b -> le_of b c -> le_of a c).

Lemma insert_stable_sorted x l :
  StronglySorted le_of l -> StronglySorted le_of (insert_stable lt x l).
Proof using lt_asym le_trans.
  induction 1 as [|y l Hs IH Hy]; simpl; [by repeat constructor|].
  destruct (lt y x) eqn:E.
  - constructor; [done|]. rewrite insert_stable_perm.
    constructor; [by apply lt_asym|done].
  - constructor; [by constructor|]. constructor; [done|].
    eapply Forall_impl; [exact Hy|]. intros z Hz. by eapply le_trans.
Qed.
Lemma stable_sort_sorted l : StronglySorted le_of (stable_sort lt l).
Proof using lt_asym le_trans.
  induction l as [|x l IH]; simpl; [constructor|]. by apply insert_stable_sorted.
Qed.
(** An already sorted list is left alone. *)
Lemma insert_stable_head x l : Forall (le_of x) l -> insert_stable lt x l = x :: l.
Proof using Type. destruct 1 as [|y l Hy _]; simpl; [done|]. by rewrite Hy. Qed.
Lemma stable_sort_id l : StronglySorted le_of l -> stable_sort lt l = l.
Proof using Type.
  induction 1 as [|x l Hs IH Hx]; simpl; [done|]. rewrite IH. by apply insert_stable_head.
Qed.
(** Strictly sorted rearrangements of one list agree. *)
Lemma strict_sorted_unique l1 l2 :
  StronglySorted (fun a b => lt a b = true) l1 -> StronglySorted (fun a b => lt a b = true) l2 ->
  l1 ≡ₚ l2 -> l1 = l2.
Proof using lt_asym.
  intros H1; revert l2; induction H1 as [|x l1 Hs IH Hx]; intros l2 H2 Hp.
  - by apply Permutation_nil_l in Hp.
  - destruct H2 as [|y l2 Hs2 Hy]; [by apply Permutation_nil_r in Hp|].
    assert (x = y) as ->.
    { assert (x ∈ y :: l2) as Hxin by (rewrite <- Hp; left).
      assert (y ∈ x :: l1) as Hyin by (rewrite Hp; left).
      apply elem_of_cons in Hxin as [?|Hxin]; [done|].
      apply elem_of_cons in Hyin as [?|Hyin]; [done|].
      rewrite Forall_forall in Hx, Hy. apply Hx in Hyin. apply Hy in Hxin.
      apply lt_asym in Hyin. congruence. }
    f_equal. apply IH; [done|]. by eapply Permutation_cons_inv.
Qed.
End sorted.

Lemma filter_partition {A} (p : A -> bool) l :
  l ≡ₚ List.filter p l ++ List.filter (fun x => negb (p x)) l.
Proof.
  induction l as [|x l IH]; simpl; [done|]. rewrite IH at 1.
  case_if; simpl; [done|]. by rewrite Permutation_middle.
Qed.
Lemma StronglySorted_app_cross {A} (R : A -> A -> Prop) l1 l2 x y :
  StronglySorted R (l1 ++ l2) -> x ∈ l1 -> y ∈ l2 -> R x y.
Proof.
  induction l1 as [|z l1 IH]; simpl; intros H Hx Hy; [set_solver|].
  apply StronglySorted_inv in H as [Hs Hz]. apply elem_of_cons in Hx as [->|Hx].
  - rewrite Forall_forall in Hz. apply Hz, elem_of_app. by right.
  - by apply IH.
Qed.
Lemma elem_of_filter_bool {A} (p : A -> bool) l x : x ∈ List.filter p l <-> x ∈ l /\ p x = true.
Proof. rewrite !list_elem_of_In. apply filter_In. Qed.
Lemma find_last_Some {A} (p : A -> bool) l i :
  find_last p l = Some i -> exists x, l !! i = Some x /\ p x = true.
Proof.
  unfold find_last. rewrite rev_alt. change (rev_append l []) with (reverse l).
  destruct (find_idx p (reverse l)) as [[j x]|] eqn:E; [|done].
  intros [= <-]. apply find_idx_Some in E as [[Hj ?]%reverse_lookup_Some Hp].
  exists x. split; [|done]. by replace (length l - 1 - j)%nat with (length l - S j)%nat by lia.
Qed.
Lemma find_last_None {A} (p : A -> bool) l :
  find_last p l = None -> Forall (fun x => p x = false) l.
Proof.
  unfold find_last. rewrite rev_alt. change (rev_append l []) with (reverse l).
  destruct (find_idx p (reverse l)) as [[j x]|] eqn:E; [done|]. intros _.
  apply find_idx_None in E. rewrite <- (reverse_involutive l). by apply Forall_reverse.
Qed.

(** Sorting by an integer key: when the keys are distinct, the sorted list is
    the rearrangement with increasing keys. *)
Section key_sort.
Context {A : Type} (key : A -> Z).
Definition key_lt (a b : A) : bool := key a <? key b.
Lemma key_lt_asym a b : key_lt a b = true -> key_lt b a = false.
Proof using Type. unfold key_lt. lia. Qed.
Lemma key_le_trans a b c : le_of key_lt a b -> le_of key_lt b c -> le_of key_lt a c.
Proof using Type. unfold le_of, key_lt. lia. Qed.
Lemma sorted_key_strict l :
  StronglySorted (le_of key_lt) l -> NoDup (key <$> l) ->
  StronglySorted (fun a b => key_lt a b = true) l.
Proof using Type.
  induction 1 as [|x l Hs IH Hx]; csimpl; [constructor|].
  intros [Hn Hnd]%NoDup_cons. constructor; [by apply IH|].
  apply Forall_forall. intros y Hy. rewrite Forall_forall in Hx. specialize (Hx y Hy).
  assert (key x <> key y) by (intros Heq; apply Hn; rewrite Heq; by apply list_elem_of_fmap_2).
  unfold le_of, key_lt in *. lia.
Qed.
Lemma key_sort_unique l l' :
  l ≡ₚ l' -> StronglySorted (fun a b => key_lt a b = true) l' -> stable_sort key_lt l = l'.
Proof using Type.
  intros Hp Hs. apply (strict_sorted_unique key_lt key_lt_asym); [|done|by rewrite stable_sort_perm].
  apply sorted_key_strict; [apply stable_sort_sorted; [apply key_lt_asym|apply key_le_trans]|].
  rewrite stable_sort_perm, Hp. clear Hp. induction Hs as [|x l'' Hs IH Hx]; csimpl; [constructor|].
  constructor; [|done]. intros (y & Heq & Hy)%list_elem_of_fmap.
  rewrite Forall_forall in Hx. specialize (Hx y Hy). unfold key_lt in Hx. lia.
Qed.
(** A list numbered upwards has increasing keys. *)
Lemma numbered_sorted l n :
  (forall k x, l !! k = Some x -> key x = n + Z.of_nat k) ->
  StronglySorted (fun a b => key_lt a b = true) l.
Proof using Type.
  revert n; induction l as [|x l IH]; intros n H; [constructor|]. constructor.
  - apply (IH (n + 1)). intros k y Hy. rewrite (H (S k) y Hy). lia.
  - apply Forall_forall. intros y [k Hk]%list_elem_of_lookup.
    pose proof (H 0%nat x eq_refl). pose proof (H (S k) y Hk). unfold key_lt. lia.
Qed.
End key_sort.

(** ** Lists that agree position by position *)
Lemma Forall2_fmap_eq {A B} (f : A -> B) l l' :
  Forall2 (fun x y => f y = f x) l l' -> f <$> l' = f <$> l.
Proof. induction 1 as [|x y l l' H _ IH]; csimpl; [done|]. by rewrite H, IH. Qed.
Lemma Forall2_countb {A} (p : A -> bool) l l' :
  Forall2 (fun x y => p y = p x) l l' -> countb p l' = countb p l.
Proof. induction 1 as [|x y l l' H _ IH]; [done|]. by rewrite !countb_cons, H, IH. Qed.
Lemma Forall2_transfer {A} (P Q : A -> Prop) (R : A -> A -> Prop) l l' :
  (forall x y, R x y -> P x -> Q y) -> Forall2 R l l' -> Forall P l -> Forall Q l'.
Proof.
  intros HR. induction 1 as [|x y l l' H _ IH]; intros HF; [constructor|].
  apply Forall_cons in HF as [? ?]. constructor; eauto.
Qed.
(** Two members that satisfy [p], when at most one position does, are equal. *)
Lemma countb_at_most_one {A} (p : A -> bool) l x y :
  (countb p l <= 1)%nat -> x ∈ l -> y ∈ l -> p x = true -> p y = true -> x = y.
Proof.
  induction l as [|z l IH]; intros Hc Hx Hy Hpx Hpy; [by apply not_elem_of_nil in Hx|].
  rewrite countb_cons in Hc.
  assert (Hnone : p z = true -> forall w, w ∈ l -> p w = true -> False).
  { intros Hz w Hw Hpw. rewrite Hz in Hc. destruct (find_idx_is_Some p l w Hw Hpw) as (n & v & Hv).
    apply find_idx_Some in Hv as [Hv Hpv]. apply take_drop_middle in Hv. rewrite <- Hv in Hc.
    rewrite countb_app, countb_cons, Hpv in Hc. lia. }
  apply elem_of_cons in Hx as [-> | Hx], Hy as [-> | Hy]; try done; [by destruct (Hnone Hpx y)|
    by destruct (Hnone Hpy x)|]. apply IH; try done. lia.
Qed.
