(* ===== verification/GoStr.v ===== *)
(** * Go strings, runes, integers and times

    What the modelled packages use of Go's [strings], [unicode/utf8],
    [strconv] and [time] packages.  A Go string is its list of bytes
    ([list ascii]); indices and lengths are [Z] where the code computes with
    them.  Unicode tables above U+007F are a parameter ([Unicode]): the ASCII
    part, the UTF-8 decoder and the white-space set are written out. *)

From S2P Require Import Prelude.
From stdpp Require Import pretty.

#[local] Open Scope Z_scope.

Abbreviation str := (list ascii).
Definition lit (s : string) : str := list_ascii_of_string s.
Arguments lit s%_string.

Definition byte_val (c : ascii) : Z := Z.of_N (N_of_ascii c).
Definition byte_of (z : Z) : ascii := ascii_of_N (Z.to_N z).
Definition slen (s : str) : Z := Z.of_nat (length s).
Definition str_eqb (a b : str) : bool := bool_decide (a = b).
Definition is_empty (s : str) : bool := match s with [] => true | _ => false end.

(** ** Byte-level operations of package [strings] *)
Fixpoint has_prefix (s p : str) : bool :=
  match p, s with
  | [], _ => true
  | a :: p', b :: s' => Ascii.eqb a b && has_prefix s' p'
  | _ :: _, [] => false
  end.
Definition has_suffix (s p : str) : bool := has_prefix (rev s) (rev p).
(** [strings.CutPrefix] *)
Definition cut_prefix (s p : str) : option str :=
  if has_prefix s p then Some (drop (length p) s) else None.
Definition trim_prefix (s p : str) : str := default s (cut_prefix s p).
Definition trim_suffix (s p : str) : str :=
  if has_suffix s p then take (length s - length p) s else s.

(** [strings.Index]: the offset of the first occurrence of [p]. *)
Fixpoint index_from (p : str) (i : Z) (s : str) : option Z :=
  if has_prefix s p then Some i
  else match s with [] => None | _ :: s' => index_from p (i + 1) s' end.
Definition index (s p : str) : option Z := index_from p 0 s.
Definition contains (s p : str) : bool := bool_decide (is_Some (index s p)).
Definition index_byte (s : str) (c : ascii) : option Z := index s [c].
Definition contains_any (s chars : str) : bool :=
  existsb (fun c => bool_decide (c ∈ chars)) s.

(** [strings.Split(s, sep)] for a one-byte separator. *)
Fixpoint split_byte (sep : ascii) (s : str) : list str :=
  match s with
  | [] => [[]]
  | c :: s' =>
      if Ascii.eqb c sep then [] :: split_byte sep s'
      else match split_byte sep s' with
           | [] => [[c]]
           | h :: t => (c :: h) :: t
           end
  end.
Fixpoint join (sep : str) (l : list str) : str :=
  match l with
  | [] => []
  | [x] => x
  | x :: r => x ++ sep ++ join sep r
  end.
Fixpoint count_byte (c : ascii) (s : str) : nat :=
  match s with [] => O | x :: r => ((if Ascii.eqb x c then 1 else 0) + count_byte c r)%nat end.

Fixpoint drop_while {A} (p : A -> bool) (l : list A) : list A :=
  match l with [] => [] | x :: r => if p x then drop_while p r else l end.
Definition drop_while_end {A} (p : A -> bool) (l : list A) : list A :=
  rev (drop_while p (rev l)).

(** [strings.TrimLeft], [TrimRight] and [Trim] with a cutset of ASCII bytes. *)
Definition in_cutset (cut : str) (c : ascii) : bool := bool_decide (c ∈ cut).
Definition trim_left (s cut : str) : str := drop_while (in_cutset cut) s.
Definition trim_right (s cut : str) : str := drop_while_end (in_cutset cut) s.
Definition trim (s cut : str) : str := trim_right (trim_left s cut) cut.

Definition nl : ascii := "010"%char.
Definition cr : ascii := "013"%char.
Definition tab : ascii := "009"%char.
Definition dquote : ascii := "034"%char.

(** ** UTF-8 *)
Definition RuneError : Z := 65533.
(** [utf8.RuneStart] *)
Definition rune_start (c : ascii) : bool := negb (Z.land (byte_val c) 192 =? 128).
Definition in_range (lo hi x : Z) : bool := (lo <=? x) && (x <=? hi).
Definition cont (x : Z) : bool := in_range 128 191 x.
Definition cbits (x : Z) : Z := Z.land x 63.

Definition ok2 (x0 x1 : Z) : bool := in_range 194 223 x0 && cont x1.
Definition ok3 (x0 x1 x2 : Z) : bool :=
  cont x2 &&
  ((x0 =? 224) && in_range 160 191 x1 || in_range 225 236 x0 && cont x1 ||
   (x0 =? 237) && in_range 128 159 x1 || in_range 238 239 x0 && cont x1).
Definition ok4 (x0 x1 x2 x3 : Z) : bool :=
  cont x2 && cont x3 &&
  ((x0 =? 240) && in_range 144 191 x1 || in_range 241 243 x0 && cont x1 ||
   (x0 =? 244) && in_range 128 143 x1).

(** [for _, r := range s]: every rune with the bytes it was decoded from; an
    invalid byte is U+FFFD of width one. *)
Fixpoint decode (s : str) : list (Z * str) :=
  match s with
  | [] => []
  | b0 :: r0 =>
      let x0 := byte_val b0 in
      if x0 <? 128 then (x0, [b0]) :: decode r0
      else match r0 with
      | [] => [(RuneError, [b0])]
      | b1 :: r1 =>
          let x1 := byte_val b1 in
          if ok2 x0 x1 then (Z.lor (Z.shiftl (Z.land x0 31) 6) (cbits x1), [b0; b1]) :: decode r1
          else match r1 with
          | [] => (RuneError, [b0]) :: decode r0
          | b2 :: r2 =>
              let x2 := byte_val b2 in
              if ok3 x0 x1 x2 then
                (Z.lor (Z.shiftl (Z.land x0 15) 12) (Z.lor (Z.shiftl (cbits x1) 6) (cbits x2)),
                 [b0; b1; b2]) :: decode r2
              else match r2 with
              | [] => (RuneError, [b0]) :: decode r0
              | b3 :: r3 =>
                  let x3 := byte_val b3 in
                  if ok4 x0 x1 x2 x3 then
                    (Z.lor (Z.shiftl (Z.land x0 7) 18)
                       (Z.lor (Z.shiftl (cbits x1) 12)
                          (Z.lor (Z.shiftl (cbits x2) 6) (cbits x3))),
                     [b0; b1; b2; b3]) :: decode r3
                  else (RuneError, [b0]) :: decode r0
              end
          end
      end
  end.
(** [[]rune(s)] and [utf8.RuneCountInString] *)
Definition runes (s : str) : list Z := (decode s).*1.
Definition rune_count (s : str) : Z := Z.of_nat (length (decode s)).
Definition undecode (l : list (Z * str)) : str := List.concat l.*2.

(** [string(r)] and [strings.Builder.WriteRune] *)
Definition encode_rune (r0 : Z) : str :=
  let r := if (r0 <? 0) || (1114111 <? r0) || in_range 55296 57343 r0 then RuneError else r0 in
  if r <? 128 then [byte_of r]
  else if r <? 2048 then [byte_of (Z.lor 192 (Z.shiftr r 6)); byte_of (Z.lor 128 (cbits r))]
  else if r <? 65536 then
    [byte_of (Z.lor 224 (Z.shiftr r 12)); byte_of (Z.lor 128 (cbits (Z.shiftr r 6)));
     byte_of (Z.lor 128 (cbits r))]
  else
    [byte_of (Z.lor 240 (Z.shiftr r 18)); byte_of (Z.lor 128 (cbits (Z.shiftr r 12)));
     byte_of (Z.lor 128 (cbits (Z.shiftr r 6))); byte_of (Z.lor 128 (cbits r))].
Definition encode (l : list Z) : str := flat_map encode_rune l.

(** [unicode.IsSpace] *)
Definition is_space (r : Z) : bool :=
  in_range 9 13 r || (r =? 32) || (r =? 133) || (r =? 160) || (r =? 5760) ||
  in_range 8192 8202 r || (r =? 8232) || (r =? 8233) || (r =? 8239) || (r =? 8287) || (r =? 12288).
Definition trim_runes_left (p : Z -> bool) (s : str) : str :=
  undecode (drop_while (fun q => p q.1) (decode s)).
(** [strings.TrimRightFunc] *)
Definition trim_runes_right (p : Z -> bool) (s : str) : str :=
  undecode (drop_while_end (fun q => p q.1) (decode s)).
(** [strings.TrimSpace] *)
Definition trim_space (s : str) : str :=
  undecode (drop_while_end (fun q => is_space q.1) (drop_while (fun q => is_space q.1) (decode s))).
Definition blank (s : str) : bool := is_empty (trim_space s).
(** [strings.Fields] *)
Fixpoint fields_from (cur : str) (l : list (Z * str)) : list str :=
  match l with
  | [] => if is_empty cur then [] else [cur]
  | (r, b) :: l' =>
      if is_space r then (if is_empty cur then fields_from [] l' else cur :: fields_from [] l')
      else fields_from (cur ++ b) l'
  end.
Definition fields (s : str) : list str := fields_from [] (decode s).

(** ** Unicode tables above ASCII *)
Class Unicode : Type := {
  uni_lower : Z -> Z;        (** [unicode.ToLower] of a rune above U+007F *)
  uni_fold : Z -> Z;         (** a representative of its simple-folding orbit *)
  uni_letter : Z -> bool;    (** [unicode.IsLetter] *)
  uni_digit : Z -> bool;     (** [unicode.IsDigit] *)
}.
Section unicode.
Context {U : Unicode}.
Definition ascii_upper (r : Z) : bool := in_range 65 90 r.
Definition to_lower_rune (r : Z) : Z :=
  if r <? 128 then (if ascii_upper r then r + 32 else r) else uni_lower r.
(** [strings.ToLower], which is [strings.Map(unicode.ToLower, s)]. *)
Definition to_lower (s : str) : str := encode (to_lower_rune <$> runes s).
(** U+017F and U+212A fold to [s] and [k]. *)
Definition fold_rune (r : Z) : Z :=
  if r <? 128 then (if ascii_upper r then r + 32 else r)
  else if r =? 383 then 115 else if r =? 8490 then 107 else uni_fold r.
(** [strings.EqualFold] *)
Definition equal_fold (a b : str) : bool :=
  bool_decide (fold_rune <$> runes a = fold_rune <$> runes b).
Definition is_letter (r : Z) : bool :=
  if r <? 128 then in_range 65 90 r || in_range 97 122 r else uni_letter r.
Definition is_digit (r : Z) : bool :=
  if r <? 128 then in_range 48 57 r else uni_digit r.
End unicode.
(** A table that knows no letter above ASCII; used by examples only. *)
Definition ascii_unicode : Unicode :=
  {| uni_lower := id; uni_fold := id; uni_letter := fun _ => false; uni_digit := fun _ => false |}.

(** [a < b] on strings: the order of their bytes. *)
Fixpoint str_ltb (a b : str) : bool :=
  match a, b with
  | _, [] => false
  | [], _ :: _ => true
  | x :: a, y :: b => (byte_val x <? byte_val y) || ((byte_val x =? byte_val y) && str_ltb a b)
  end.

(** ** Integers and times *)
Definition wrap64 (z : Z) : Z := (z + 2 ^ 63) mod 2 ^ 64 - 2 ^ 63.
Definition max_int64 : Z := 2 ^ 63 - 1.
Definition min_int64 : Z := - 2 ^ 63.
(** [strconv.Itoa] *)
Definition itoa (z : Z) : str := lit (pretty z).
(** [strconv.Atoi] *)
Fixpoint digits (n : Z) (s : str) : option Z :=
  match s with
  | [] => Some n
  | c :: s => if in_range 48 57 (byte_val c) then digits (n * 10 + (byte_val c - 48)) s else None
  end.
Definition Atoi (s : str) : option Z :=
  let '(sign, ds) := match s with
                     | c :: r => if Ascii.eqb c "-"%char then (-1, r) else if Ascii.eqb c "+"%char then (1, r) else (1, s)
                     | [] => (1, s)
                     end in
  if is_empty ds then None
  else n ← digits 0 ds; if in_range min_int64 max_int64 (sign * n) then Some (sign * n) else None.
(** Instants are nanoseconds after the zero [time.Time]; [t.Sub(u)] saturates. *)
Definition time_sub (t u : Z) : Z := Z.max min_int64 (Z.min max_int64 (t - u)).
Definition time_is_zero (t : Z) : bool := t =? 0.

(** ** Facts *)
Lemma str_eqb_true (a b : str) : str_eqb a b = true <-> a = b.
Proof. apply bool_decide_eq_true. Qed.
Lemma str_eqb_false (a b : str) : str_eqb a b = false <-> a <> b.
Proof. apply bool_decide_eq_false. Qed.
Lemma str_eqb_refl (a : str) : str_eqb a a = true.
Proof. by apply str_eqb_true. Qed.
Lemma is_empty_true (a : str) : is_empty a = true <-> a = [].
Proof. by destruct a. Qed.
Lemma is_empty_false (a : str) : is_empty a = false <-> a <> [].
Proof. by destruct a. Qed.
(** [bool_hyps] with the string tests. *)
Ltac str_hyps :=
  repeat (bool_hyps;
          match goal with
          | H : str_eqb _ _ = true |- _ => apply str_eqb_true in H
          | H : str_eqb _ _ = false |- _ => apply str_eqb_false in H
          | H : is_empty _ = true |- _ => apply is_empty_true in H
          | H : is_empty _ = false |- _ => apply is_empty_false in H
          | H : Nat.ltb _ _ = true |- _ => apply Nat.ltb_lt in H
          | H : Nat.ltb _ _ = false |- _ => apply Nat.ltb_ge in H
          | H : Nat.leb _ _ = true |- _ => apply Nat.leb_le in H
          | H : Nat.leb _ _ = false |- _ => apply Nat.leb_gt in H
          end); bool_hyps.

(** ** Prefixes *)
Lemma has_prefix_spec (s p : str) : has_prefix s p = true <-> exists r, s = p ++ r.
Proof.
  revert s; induction p as [|a p IH]; intros s; simpl; [split; [intros _; by exists s|intros _; by destruct s]|].
  destruct s as [|b s]; [split; [done|by intros [r [=]]]|].
  simpl. rewrite andb_true_iff, IH. split.
  - intros [->%Ascii.eqb_eq [r ->]]. by exists r.
  - intros [r [= -> ->]]. split; [by apply Ascii.eqb_refl|by exists r].
Qed.
Lemma has_prefix_app s t : has_prefix (s ++ t) s = true.
Proof. apply has_prefix_spec. by exists t. Qed.
Lemma cut_prefix_Some s p r : cut_prefix s p = Some r <-> s = p ++ r.
Proof.
  unfold cut_prefix. destruct (has_prefix s p) eqn:E.
  - apply has_prefix_spec in E as [t ->]. rewrite drop_app_length. split; [by intros [= ->]|].
    intros H. by apply app_inv_head in H as ->.
  - split; [done|]. intros ->. by rewrite has_prefix_app in E.
Qed.

(** ** Splitting and joining *)
Lemma split_byte_nonempty sep s : split_byte sep s <> [].
Proof. destruct s as [|c s]; simpl; [done|]. case_if; [done|]. by destruct (split_byte sep s). Qed.
Lemma join_cons sep x l : l <> [] -> join sep (x :: l) = x ++ sep ++ join sep l.
Proof. by destruct l. Qed.
Lemma join_split c s : join [c] (split_byte c s) = s.
Proof.
  induction s as [|d s IH]; simpl; [done|]. pose proof (split_byte_nonempty c s) as Hne.
  destruct (Ascii.eqb_spec d c) as [-> | Hdc].
  - rewrite join_cons by done. simpl. by rewrite IH.
  - destruct (split_byte c s) as [|h t] eqn:E; [done|]. destruct t as [|h' t]; simpl in *; by rewrite <- IH.
Qed.
Lemma join_app sep l1 l2 : l1 <> [] -> l2 <> [] -> join sep (l1 ++ l2) = join sep l1 ++ sep ++ join sep l2.
Proof.
  intros H1 H2. induction l1 as [|x l1 IH]; [done|]. destruct l1 as [|y l1].
  - simpl. by destruct l2.
  - change ((x :: y :: l1) ++ l2) with (x :: (y :: l1) ++ l2). rewrite (join_cons sep x ((y :: l1) ++ l2)) by done.
    rewrite (join_cons sep x (y :: l1)) by done. rewrite IH by done. by rewrite <- !app_assoc.
Qed.
Lemma count_byte_app c s t : count_byte c (s ++ t) = (count_byte c s + count_byte c t)%nat.
Proof. induction s as [|d s IH]; simpl; [done|]. rewrite IH. lia. Qed.
Lemma split_byte_length c s : length (split_byte c s) = S (count_byte c s).
Proof.
  induction s as [|d s IH]; simpl; [done|]. case_if; simpl; [by rewrite IH|].
  destruct (split_byte c s); simpl in *; lia.
Qed.
Lemma split_byte_no c s : Forall (fun l => count_byte c l = 0%nat) (split_byte c s).
Proof.
  induction s as [|d s IH]; simpl; [by repeat constructor|]. destruct (Ascii.eqb d c) eqn:E; [by constructor|].
  destruct IH as [|h t Hh Ht]; repeat constructor; simpl; rewrite ?E; done.
Qed.
Lemma count_byte_join c l : l <> [] -> Forall (fun l => count_byte c l = 0%nat) l ->
  S (count_byte c (join [c] l)) = length l.
Proof.
  intros Hne Hf. induction Hf as [|x l Hx Hf IH]; [done|]. destruct l as [|y l]; [simpl; by rewrite Hx|].
  rewrite join_cons by done. rewrite !count_byte_app, Hx. simpl. rewrite Ascii.eqb_refl.
  specialize (IH ltac:(done)). simpl in IH |- *. lia.
Qed.
Lemma slen_app s t : slen (s ++ t) = slen s + slen t.
Proof. unfold slen. rewrite length_app. lia. Qed.
Lemma slen_nonneg s : 0 <= slen s.
Proof. unfold slen. lia. Qed.
Lemma slen_zero s : slen s = 0 <-> s = [].
Proof. unfold slen. destruct s; simpl; [done|]. split; [lia|done]. Qed.
Lemma drop_while_suffix {A} (p : A -> bool) l : exists k, l = k ++ drop_while p l.
Proof.
  induction l as [|x l [k IH]]; simpl; [by exists []|]. destruct (p x); [|by exists []].
  exists (x :: k). by rewrite IH at 1.
Qed.

(** ** Decoding *)
(** A unit of a decoded string: a character, found again wherever its bytes
    stand, or one invalid byte. *)
Definition invalid_unit (q : Z * str) : Prop := q.1 = RuneError /\ length q.2 = 1%nat.
Definition valid_unit (q : Z * str) : Prop :=
  (forall t, decode (q.2 ++ t) = q :: decode t) /\ ~ invalid_unit q.

Lemma decode_cons b0 r0 :
  decode (b0 :: r0) =
  if byte_val b0 <? 128 then (byte_val b0, [b0]) :: decode r0
  else match r0 with
  | [] => [(RuneError, [b0])]
  | b1 :: r1 =>
      if ok2 (byte_val b0) (byte_val b1)
      then (Z.lor (Z.shiftl (Z.land (byte_val b0) 31) 6) (cbits (byte_val b1)), [b0; b1]) :: decode r1
      else match r1 with
      | [] => (RuneError, [b0]) :: decode r0
      | b2 :: r2 =>
          if ok3 (byte_val b0) (byte_val b1) (byte_val b2)
          then (Z.lor (Z.shiftl (Z.land (byte_val b0) 15) 12)
                  (Z.lor (Z.shiftl (cbits (byte_val b1)) 6) (cbits (byte_val b2))), [b0; b1; b2]) :: decode r2
          else match r2 with
          | [] => (RuneError, [b0]) :: decode r0
          | b3 :: r3 =>
              if ok4 (byte_val b0) (byte_val b1) (byte_val b2) (byte_val b3)
              then (Z.lor (Z.shiftl (Z.land (byte_val b0) 7) 18)
                      (Z.lor (Z.shiftl (cbits (byte_val b1)) 12)
                         (Z.lor (Z.shiftl (cbits (byte_val b2)) 6) (cbits (byte_val b3)))),
                    [b0; b1; b2; b3]) :: decode r3
              else (RuneError, [b0]) :: decode r0
          end
      end
  end.
Proof. reflexivity. Qed.
(** One step of the decoder. *)
Lemma decode_step b0 r0 :
  (exists q r, b0 :: r0 = q.2 ++ r /\ decode (b0 :: r0) = q :: decode r /\ valid_unit q /\ q.2 <> []) \/
  decode (b0 :: r0) = (RuneError, [b0]) :: decode r0.
Proof.
  rewrite decode_cons. destruct (byte_val b0 <? 128) eqn:E0.
  { left. eexists (_, [b0]), r0. split_and!; [done|done| |done]. split.
    - intros t. simpl app. by rewrite decode_cons, E0.
    - intros [Hr _]. simpl in Hr. unfold RuneError in Hr. bool_hyps. lia. }
  destruct r0 as [|b1 r1]; [by right|]. destruct (ok2 _ _) eqn:E2.
  { left. eexists (_, [b0; b1]), r1. split_and!; [done|done| |done]. split; [|by intros [_ ?]].
    intros t. simpl app. by rewrite decode_cons, E0, E2. }
  destruct r1 as [|b2 r2]; [by right|]. destruct (ok3 _ _ _) eqn:E3.
  { left. eexists (_, [b0; b1; b2]), r2. split_and!; [done|done| |done]. split; [|by intros [_ ?]].
    intros t. simpl app. by rewrite decode_cons, E0, E2, E3. }
  destruct r2 as [|b3 r3]; [by right|]. destruct (ok4 _ _ _ _) eqn:E4; [|by right].
  left. eexists (_, [b0; b1; b2; b3]), r3. split_and!; [done|done| |done]. split; [|by intros [_ ?]].
  intros t. simpl app. by rewrite decode_cons, E0, E2, E3, E4.
Qed.
(** Induction along the decoder. *)
Lemma decode_ind (P : str -> Prop) :
  P [] ->
  (forall q r, valid_unit q -> q.2 <> [] -> P r -> P (q.2 ++ r)) ->
  (forall c r, decode (c :: r) = (RuneError, [c]) :: decode r -> P r -> P (c :: r)) ->
  forall s, P s.
Proof.
  intros H0 Hv Hi s. induction s as [s IH] using (induction_ltof1 _ (@length ascii)). unfold ltof in IH.
  destruct s as [|b0 r0]; [exact H0|].
  destruct (decode_step b0 r0) as [(q & r & Hs & Hd & Hq & Hne)|Hd].
  - rewrite Hs. apply Hv; [done|done|]. apply IH. rewrite Hs, length_app. destruct (q.2); simpl; [done|lia].
  - apply Hi; [done|]. apply IH. simpl. lia.
Qed.
Lemma undecode_decode s : undecode (decode s) = s.
Proof.
  induction s as [|q r Hq _ IH|c r Hd IH] using decode_ind; [done| |].
  - rewrite (proj1 Hq). unfold undecode. csimpl. by rewrite <- IH at 2.
  - rewrite Hd. unfold undecode. csimpl. by rewrite <- IH at 2.
Qed.
Lemma decode_units s : Forall (fun q => valid_unit q \/ invalid_unit q) (decode s).
Proof.
  induction s as [|q r Hq _ IH|c r Hd IH] using decode_ind; [constructor| |].
  - rewrite (proj1 Hq). constructor; [by left|done].
  - rewrite Hd. constructor; [by right|done].
Qed.
Lemma decode_valid_app l t : Forall valid_unit l -> decode (undecode l ++ t) = l ++ decode t.
Proof.
  induction 1 as [|q l Hq _ IH]; [done|]. unfold undecode in *. csimpl.
  rewrite <- app_assoc, (proj1 Hq). by rewrite IH.
Qed.
(** [utf8.ValidString] *)
Definition valid_utf8 (s : str) : Prop := Forall valid_unit (decode s).
Lemma valid_utf8_app s t : valid_utf8 s -> valid_utf8 t -> valid_utf8 (s ++ t).
Proof.
  intros Hs Ht. unfold valid_utf8. rewrite <- (undecode_decode s), decode_valid_app by done.
  by apply Forall_app.
Qed.
(** The bytes of a character: one ASCII byte, or none. *)
Lemma valid_unit_bytes q : valid_unit q -> q.2 <> [] ->
  (exists c, q = (byte_val c, [c]) /\ byte_val c < 128) \/ Forall (fun c => 128 <= byte_val c) q.2.
Proof.
  intros [Hq Hn] Hne. specialize (Hq []). rewrite app_nil_r in Hq. change (decode []) with (@nil (Z * str)) in Hq.
  destruct q as [r bs]. simpl in *. destruct bs as [|b0 r0]; [done|].
  rewrite decode_cons in Hq. destruct (byte_val b0 <? 128) eqn:E0.
  { left. bool_hyps. injection Hq as <- <- _. by exists b0. }
  right. bool_hyps.
  assert (Hbad : forall d, (RuneError, [b0]) :: d = [(r, b0 :: r0)] -> False).
  { intros d [= <- <- _]. by apply Hn. }
  destruct r0 as [|b1 r1]; [by apply Hbad in Hq|]. destruct (ok2 _ _) eqn:E2.
  { injection Hq as _ <- _. unfold ok2, cont, in_range in E2. bool_hyps. repeat constructor; lia. }
  destruct r1 as [|b2 r2]; [by apply Hbad in Hq|]. destruct (ok3 _ _ _) eqn:E3.
  { injection Hq as _ <- _. unfold ok3, cont, in_range in E3. repeat constructor; lia. }
  destruct r2 as [|b3 r3]; [by apply Hbad in Hq|]. destruct (ok4 _ _ _ _) eqn:E4; [|by apply Hbad in Hq].
  injection Hq as _ <- _. unfold ok4, cont, in_range in E4. repeat constructor; lia.
Qed.
Lemma ascii_unit c : byte_val c < 128 -> valid_unit (byte_val c, [c]).
Proof.
  intros Hc. split.
  - intros t. simpl app. by rewrite decode_cons, (proj2 (Z.ltb_lt _ _) Hc).
  - intros [Hr _]. simpl in Hr. unfold RuneError in Hr. lia.
Qed.
Lemma ascii_valid s : Forall (fun c => byte_val c < 128) s -> valid_utf8 s.
Proof.
  induction 1 as [|c s Hc _ IH]; [constructor|]. unfold valid_utf8.
  rewrite decode_cons, (proj2 (Z.ltb_lt _ _) Hc). constructor; [by apply ascii_unit|done].
Qed.
Lemma valid_unit_utf8 q : valid_unit q -> valid_utf8 q.2.
Proof.
  intros Hq. unfold valid_utf8. rewrite <- (app_nil_r q.2), (proj1 Hq). constructor; [done|constructor].
Qed.
