(* ===== verification/GoTrim.v ===== *)
(** * Facts on decoding and trimming

    The decoder on parts of a decoded string and on a string with ASCII text
    after it, and what follows for [strings.TrimSpace]: it is idempotent, does
    not see ASCII white space at the end, and keeps a leading ASCII text. *)

From S2P Require Import Prelude GoStr.
#[local] Open Scope Z_scope.

Definition ascii_start (t : str) : Prop := match t with [] => True | c :: _ => byte_val c < 128 end.
Definition invalid_at (c : ascii) (r : str) : Prop := decode (c :: r) = (RuneError, [c]) :: decode r.

(** ** The decoder on parts and extensions *)
(** Whether a byte is invalid shows in at most three bytes after it; fewer
    bytes, or bytes that are not continuations, leave it invalid. *)
Lemma invalid_high c r : invalid_at c r -> (byte_val c <? 128) = false.
Proof.
  unfold invalid_at. rewrite decode_cons. destruct (byte_val c <? 128) eqn:E; [|done].
  intros [= Hr]. unfold RuneError in Hr. bool_hyps. lia.
Qed.
(** The test of one length on the bytes at hand: it failed. *)
Ltac probe_unit ok H :=
  cbn [app] in H |- *;
  match type of H with
  | context [if ok ?a ?b then _ else _] => destruct (ok a b) eqn:?
  | context [if ok ?a ?b ?c then _ else _] => destruct (ok a b c) eqn:?
  | context [if ok ?a ?b ?c ?d then _ else _] => destruct (ok a b c d) eqn:?
  end; [discriminate H|].
Lemma invalid_prefix c r1 r2 : invalid_at c (r1 ++ r2) -> invalid_at c r1.
Proof.
  intros H. pose proof (invalid_high _ _ H) as E0. unfold invalid_at in *.
  rewrite decode_cons, E0 in H |- *.
  destruct r1 as [|b1 r1]; [done|]. probe_unit ok2 H.
  destruct r1 as [|b2 r1]; [done|]. probe_unit ok3 H.
  destruct r1 as [|b3 r1]; [done|]. probe_unit ok4 H. done.
Qed.
Lemma ascii_not_cont b : byte_val b < 128 -> cont (byte_val b) = false.
Proof. unfold cont, in_range. intros H. destruct (128 <=? byte_val b) eqn:E; [bool_hyps; lia|done]. Qed.
Lemma invalid_extend c r t : ascii_start t -> invalid_at c r -> invalid_at c (r ++ t).
Proof.
  intros Ht H. pose proof (invalid_high _ _ H) as E0. unfold invalid_at in *.
  rewrite decode_cons, E0 in H |- *.
  assert (Hc : forall d t', t = d :: t' -> cont (byte_val d) = false).
  { intros d t' ->. by apply ascii_not_cont. }
  destruct r as [|b1 r].
  { destruct t as [|d1 t]; [done|]. specialize (Hc _ _ eq_refl). unfold cont, in_range in Hc. cbn [app].
    assert (ok2 (byte_val c) (byte_val d1) = false) as -> by (unfold ok2, cont, in_range; by rewrite Hc, andb_false_r).
    assert (byte_val d1 < 128) by done.
    assert (forall x2, ok3 (byte_val c) (byte_val d1) x2 = false) as H3.
    { intros x2. unfold ok3, cont, in_range. rewrite Hc, !andb_false_r.
      assert (160 <=? byte_val d1 = false) as -> by lia. assert (128 <=? byte_val d1 = false) as -> by lia.
      cbn [andb]. by rewrite !andb_false_r. }
    assert (forall x2 x3, ok4 (byte_val c) (byte_val d1) x2 x3 = false) as H4.
    { intros x2 x3. unfold ok4, cont, in_range. rewrite Hc, !andb_false_r.
      assert (144 <=? byte_val d1 = false) as -> by lia. assert (128 <=? byte_val d1 = false) as -> by lia.
      cbn [andb]. by rewrite !andb_false_r. }
    destruct t as [|d2 t]; [done|]. rewrite H3. destruct t as [|d3 t]; [done|]. by rewrite H4. }
  probe_unit ok2 H.
  destruct r as [|b2 r].
  { destruct t as [|d2 t]; [done|]. specialize (Hc _ _ eq_refl). cbn [app].
    assert (forall x0 x1, ok3 x0 x1 (byte_val d2) = false) as -> by (intros; unfold ok3; by rewrite Hc).
    destruct t as [|d3 t]; [done|].
    by assert (forall x0 x1 x3, ok4 x0 x1 (byte_val d2) x3 = false) as -> by (intros; unfold ok4; by rewrite Hc). }
  probe_unit ok3 H.
  destruct r as [|b3 r].
  { destruct t as [|d3 t]; [done|]. specialize (Hc _ _ eq_refl). cbn [app].
    by assert (forall x0 x1 x2, ok4 x0 x1 x2 (byte_val d3) = false) as ->
      by (intros; unfold ok4; by rewrite Hc, andb_false_r). }
  probe_unit ok4 H. done.
Qed.

Lemma decode_app_ascii s t : ascii_start t -> decode (s ++ t) = decode s ++ decode t.
Proof.
  intros Ht. induction s as [|q r Hq _ IH|c r Hd IH] using decode_ind; [done| |].
  - by rewrite <- app_assoc, !(proj1 Hq), IH.
  - cbn [app]. rewrite (invalid_extend c r t Ht Hd), IH. by rewrite Hd.
Qed.
Lemma decode_ascii s : Forall (fun c => byte_val c < 128) s -> decode s = (fun c => (byte_val c, [c])) <$> s.
Proof.
  induction 1 as [|c s Hc _ IH]; [done|]. rewrite decode_cons, (proj2 (Z.ltb_lt _ _) Hc), IH. done.
Qed.
Lemma undecode_app l1 l2 : undecode (l1 ++ l2) = undecode l1 ++ undecode l2.
Proof. unfold undecode. by rewrite fmap_app, concat_app. Qed.
(** A part of a decoded string decodes to itself. *)
Lemma decode_suffix s l1 l2 : decode s = l1 ++ l2 -> decode (undecode l2) = l2.
Proof.
  revert l1. induction s as [|q r Hq _ IH|c r Hd IH] using decode_ind; intros l1 H.
  - symmetry in H. apply app_eq_nil in H as [_ ->]. done.
  - destruct l1 as [|p l1]; [change ([] ++ l2) with l2 in H; by rewrite <- H, undecode_decode|].
    rewrite (proj1 Hq) in H. injection H as _ H. by eapply IH.
  - destruct l1 as [|p l1]; [change ([] ++ l2) with l2 in H; by rewrite <- H, undecode_decode|].
    rewrite Hd in H. injection H as _ H. by eapply IH.
Qed.
Lemma decode_prefix s l1 l2 : decode s = l1 ++ l2 -> decode (undecode l1) = l1.
Proof.
  revert l1. induction s as [|q r Hq _ IH|c r Hd IH] using decode_ind; intros l1 H.
  - symmetry in H. apply app_eq_nil in H as [-> _]. done.
  - rewrite (proj1 Hq) in H. destruct l1 as [|p l1]; [done|]. injection H as <- H.
    change (undecode (q :: l1)) with (q.2 ++ undecode l1). rewrite (proj1 Hq). f_equal. by eapply IH.
  - rewrite Hd in H. destruct l1 as [|p l1]; [done|]. injection H as <- H.
    change (undecode ((RuneError, [c]) :: l1)) with (c :: undecode l1).
    assert (invalid_at c (undecode l1)) as ->; [|f_equal; by eapply IH].
    apply (invalid_prefix _ _ (undecode l2)). by rewrite <- undecode_app, <- H, undecode_decode.
Qed.
Lemma decode_segment s l1 l2 l3 : decode s = l1 ++ l2 ++ l3 -> decode (undecode l2) = l2.
Proof. intros H. apply decode_suffix in H. by apply decode_prefix in H. Qed.

(** ** Trimming white space *)
Definition space_unit (q : Z * str) : bool := is_space q.1.
Definition trim_units (l : list (Z * str)) : list (Z * str) := drop_while_end space_unit (drop_while space_unit l).
Lemma trim_space_units s : trim_space s = undecode (trim_units (decode s)).
Proof. reflexivity. Qed.

Section drop_while.
Context {A : Type} (p : A -> bool).
Lemma drop_while_all l : Forall (fun x => p x = true) l -> drop_while p l = [].
Proof using Type. induction 1 as [|x l Hx _ IH]; simpl; [done|]. by rewrite Hx. Qed.
Lemma drop_while_app_all l1 l2 : Forall (fun x => p x = true) l1 -> drop_while p (l1 ++ l2) = drop_while p l2.
Proof using Type. induction 1 as [|x l Hx _ IH]; simpl; [done|]. by rewrite Hx. Qed.
(** What is dropped all satisfies [p], and what is left does not begin so. *)
Lemma drop_while_split l : exists k, l = k ++ drop_while p l /\ Forall (fun x => p x = true) k /\
  match drop_while p l with x :: _ => p x = false | [] => True end.
Proof using Type.
  induction l as [|x l (k & Hk & Hp & Hh)]; simpl; [by exists []|].
  destruct (p x) eqn:E; [exists (x :: k)|by exists []]. split_and!; [by rewrite Hk at 1|by constructor|done].
Qed.
Lemma drop_while_end_split l : exists k, l = drop_while_end p l ++ k /\ Forall (fun x => p x = true) k /\
  match last (drop_while_end p l) with Some x => p x = false | None => True end.
Proof using Type.
  unfold drop_while_end. destruct (drop_while_split (rev l)) as (k & Hk & Hp & Hh). exists (rev k). split_and!.
  - by rewrite <- rev_app_distr, <- Hk, rev_involutive.
  - rewrite Forall_forall in *. intros x Hx. apply Hp. rewrite list_elem_of_In in *. by apply in_rev.
  - destruct (drop_while p (rev l)) as [|x r]; simpl; [done|]. by rewrite last_snoc.
Qed.
Lemma drop_while_id l : match l with x :: _ => p x = false | [] => True end -> drop_while p l = l.
Proof using Type. destruct l as [|x l]; simpl; [done|]. by intros ->. Qed.
Lemma drop_while_end_app_all l k : Forall (fun x => p x = true) k -> drop_while_end p (l ++ k) = drop_while_end p l.
Proof using Type.
  intros Hk. unfold drop_while_end. rewrite rev_app_distr, drop_while_app_all; [done|].
  rewrite Forall_forall in *. intros x Hx. apply Hk. rewrite list_elem_of_In in *. by apply in_rev.
Qed.
Lemma drop_while_end_id l : match last l with Some x => p x = false | None => True end -> drop_while_end p l = l.
Proof using Type.
  intros H. unfold drop_while_end. rewrite drop_while_id; [apply rev_involutive|].
  destruct l as [|x l _] using rev_ind; [done|]. rewrite rev_app_distr. simpl. by rewrite last_snoc in H.
Qed.
(** A list that keeps an element keeps everything before it. *)
Lemma drop_while_end_app l k : drop_while_end p k <> [] -> drop_while_end p (l ++ k) = l ++ drop_while_end p k.
Proof using Type.
  intros H. destruct (drop_while_end_split k) as (k' & Hk & Hp & Hl). rewrite Hk at 1.
  rewrite app_assoc, drop_while_end_app_all by done. apply drop_while_end_id.
  destruct (drop_while_end p k) as [|x r] using rev_ind; [done|]. rewrite app_assoc, last_snoc. by rewrite last_snoc in Hl.
Qed.
Lemma drop_while_end_none l : drop_while_end p l = [] -> Forall (fun x => p x = true) l.
Proof using Type. intros H. destruct (drop_while_end_split l) as (k & Hk & Hp & _). rewrite H in Hk. by subst. Qed.
Lemma trim_both_idem l :
  let t l := drop_while_end p (drop_while p l) in t (t l) = t l.
Proof using Type.
  simpl. set (m := drop_while p l). assert (drop_while p (drop_while_end p m) = drop_while_end p m) as ->.
  { apply drop_while_id. destruct (drop_while_end_split m) as (k & Hk & _ & _).
    destruct (drop_while_end p m) as [|x r]; [done|]. destruct (drop_while_split l) as (_ & _ & _ & Hh). fold m in Hh.
    by rewrite Hk in Hh. }
  apply drop_while_end_id. by destruct (drop_while_end_split m) as (_ & _ & _ & Hl).
Qed.
End drop_while.

Lemma decode_trim_space s : decode (trim_space s) = trim_units (decode s).
Proof.
  rewrite trim_space_units. unfold trim_units.
  destruct (drop_while_split space_unit (decode s)) as (k & Hk & _).
  destruct (drop_while_end_split space_unit (drop_while space_unit (decode s))) as (k' & Hk' & _).
  rewrite Hk' in Hk. by apply decode_segment in Hk.
Qed.
Lemma trim_space_idem s : trim_space (trim_space s) = trim_space s.
Proof. rewrite trim_space_units, decode_trim_space. unfold trim_units. by rewrite trim_both_idem. Qed.
(** ASCII white space at the end is not seen. *)
Definition ascii_space (c : ascii) : Prop := byte_val c < 128 /\ is_space (byte_val c) = true.
Lemma drop_while_app_some {A} (p : A -> bool) l k : drop_while p l <> [] -> drop_while p (l ++ k) = drop_while p l ++ k.
Proof. induction l as [|x l IH]; simpl; [done|]. by case_if. Qed.
Lemma drop_while_nil {A} (p : A -> bool) l : drop_while p l = [] -> Forall (fun x => p x = true) l.
Proof. induction l as [|x l IH]; simpl; [constructor|]. destruct (p x) eqn:E; [|done]. constructor; auto. Qed.
Lemma trim_space_app_spaces s w : Forall ascii_space w -> trim_space (s ++ w) = trim_space s.
Proof.
  intros Hw. rewrite !trim_space_units. f_equal.
  assert (Ha : Forall (fun c => byte_val c < 128) w) by (eapply Forall_impl; [done|]; by intros ? []).
  rewrite decode_app_ascii by (by destruct Ha as [|? ? Hx _]). rewrite (decode_ascii w Ha).
  assert (Hk : Forall (fun q => space_unit q = true) ((fun c => (byte_val c, [c])) <$> w)).
  { apply Forall_fmap. eapply Forall_impl; [exact Hw|]. intros c [_ Hc]. exact Hc. }
  unfold trim_units. destruct (drop_while space_unit (decode s)) as [|x r] eqn:E.
  - rewrite drop_while_app_all by (by apply drop_while_nil). by rewrite drop_while_all.
  - rewrite drop_while_app_some by (by rewrite E). by rewrite E, drop_while_end_app_all.
Qed.
(** The white space at the end only. *)
Definition trim_space_right (s : str) : str := undecode (drop_while_end space_unit (decode s)).
(** A leading ASCII text that does not begin with white space stays, when
    something is left after it. *)
Lemma trim_space_app_lead m c s : Forall (fun c => byte_val c < 128) (c :: m) -> is_space (byte_val c) = false ->
  trim_space s <> [] ->
  trim_space (c :: m ++ s) = c :: m ++ trim_space_right s /\ trim_space (trim_space_right s) = trim_space s.
Proof.
  intros Hm Hc Hs. pose proof (ascii_valid _ Hm) as Hv.
  assert (Hd : decode (c :: m ++ s) = ((fun c => (byte_val c, [c])) <$> c :: m) ++ decode s).
  { rewrite <- (decode_ascii _ Hm). change (c :: m ++ s) with ((c :: m) ++ s).
    rewrite <- (undecode_decode (c :: m)) at 1. by rewrite decode_valid_app. }
  assert (Hu : undecode ((fun c => (byte_val c, [c])) <$> c :: m) = c :: m).
  { rewrite <- (decode_ascii _ Hm). apply undecode_decode. }
  set (lead := (fun c => (byte_val c, [c])) <$> c :: m) in *.
  assert (Hne : drop_while_end space_unit (decode s) <> []).
  { intros E. apply drop_while_end_none in E. apply Hs. rewrite trim_space_units. unfold trim_units.
    by rewrite (drop_while_all _ _ E). }
  unfold trim_space_right. split.
  - rewrite trim_space_units. unfold trim_units. rewrite Hd. rewrite drop_while_id by done.
    rewrite drop_while_end_app by done. by rewrite undecode_app, Hu.
  - destruct (drop_while_end_split space_unit (decode s)) as (k & Hk & Hp & Hl).
    rewrite !trim_space_units. f_equal. rewrite (decode_prefix _ _ _ Hk). unfold trim_units.
    rewrite Hk at 2. destruct (drop_while space_unit (drop_while_end space_unit (decode s))) as [|x r] eqn:E.
    + rewrite drop_while_app_all by (by apply drop_while_nil). by rewrite drop_while_all.
    + rewrite drop_while_app_some by (by rewrite E). by rewrite E, drop_while_end_app_all.
Qed.
Lemma trim_space_lead_blank m c s : Forall (fun c => byte_val c < 128) (c :: m) -> is_space (byte_val c) = false ->
  trim_space s = [] -> trim_space (c :: m ++ s) = trim_space (c :: m).
Proof.
  intros Hm Hc Hs. pose proof (ascii_valid _ Hm) as Hv.
  change (c :: m ++ s) with ((c :: m) ++ s). rewrite !trim_space_units. f_equal. unfold trim_units.
  rewrite <- (undecode_decode (c :: m)) at 1. rewrite decode_valid_app by done.
  assert (Hb : Forall (fun q => space_unit q = true) (decode s)).
  { apply (f_equal decode) in Hs. rewrite decode_trim_space in Hs. change (decode []) with (@nil (Z * str)) in Hs.
    unfold trim_units in Hs. apply drop_while_end_none in Hs.
    destruct (drop_while_split space_unit (decode s)) as (k & Hk & Hp & _). rewrite Hk. by apply Forall_app. }
  rewrite (decode_ascii _ Hm). rewrite !drop_while_id by done. by rewrite drop_while_end_app_all.
Qed.
Lemma trim_space_right_id s : trim_space s = s -> trim_space_right s = s.
Proof.
  intros H. unfold trim_space_right. apply (f_equal decode) in H as Hd. rewrite decode_trim_space in Hd.
  rewrite <- Hd. unfold trim_units. rewrite drop_while_end_id; [|by destruct (drop_while_end_split space_unit
    (drop_while space_unit (decode s))) as (_ & _ & _ & ?)].
  exact H.
Qed.
(** A text of ASCII that begins with no white space is seen in front of any other. *)
Lemma trim_space_head c s : byte_val c < 128 -> is_space (byte_val c) = false -> exists t, trim_space (c :: s) = c :: t.
Proof.
  intros Hc Hs. assert (Ha : Forall (fun c => byte_val c < 128) [c]) by (by constructor).
  destruct (decide (trim_space s = [])) as [E|E].
  - exists []. change (c :: s) with (c :: [] ++ s). rewrite trim_space_lead_blank by done.
    rewrite trim_space_units, (decode_ascii _ Ha). unfold trim_units.
    change ((fun c => (byte_val c, [c])) <$> [c]) with [(byte_val c, [c])].
    rewrite drop_while_id by done. by rewrite drop_while_end_id.
  - change (c :: s) with (c :: [] ++ s). destruct (trim_space_app_lead [] c s Ha Hs E) as [-> _]. by eexists.
Qed.
Lemma trim_space_ends c s d : byte_val c < 128 -> is_space (byte_val c) = false ->
  byte_val d < 128 -> is_space (byte_val d) = false -> trim_space (c :: s ++ [d]) = c :: s ++ [d].
Proof.
  intros Hc Hcs Hd Hds. rewrite trim_space_units. unfold trim_units.
  assert (decode (c :: s ++ [d]) = (byte_val c, [c]) :: decode s ++ [(byte_val d, [d])]) as E.
  { rewrite decode_cons, (proj2 (Z.ltb_lt _ _) Hc), decode_app_ascii by done. f_equal. f_equal.
    by rewrite (decode_ascii [d]) by (by constructor). }
  rewrite E, drop_while_id by done. rewrite drop_while_end_id.
  - by rewrite <- E, undecode_decode.
  - by rewrite app_comm_cons, last_snoc.
Qed.

(** ** Splitting what was joined *)
Lemma split_join c l : l <> [] -> Forall (fun e => count_byte c e = 0%nat) l -> split_byte c (join [c] l) = l.
Proof.
  intros Hne Hl. induction Hl as [|e l He Hl IH]; [done|].
  assert (Hone : forall e t, count_byte c e = 0%nat -> split_byte c (e ++ c :: t) = e :: split_byte c t).
  { clear. induction e as [|d e IH]; intros t He; simpl in *.
    - by rewrite Ascii.eqb_refl.
    - destruct (Ascii.eqb d c); [done|]. by rewrite IH. }
  assert (Hlast : forall e, count_byte c e = 0%nat -> split_byte c e = [e]).
  { clear. induction e as [|d e IH]; intros He; simpl in *; [done|]. destruct (Ascii.eqb d c); [done|]. by rewrite IH. }
  destruct l as [|e' l]; [by apply Hlast|]. rewrite join_cons by done. cbn [app]. rewrite Hone by done.
  by rewrite IH.
Qed.
Lemma count_join b sep l : Ascii.eqb sep b = false -> Forall (fun e => count_byte b e = 0%nat) l ->
  count_byte b (join [sep] l) = 0%nat.
Proof.
  intros Hs Hl. induction Hl as [|e l He Hl IH]; [done|]. destruct l as [|e' l]; [done|].
  rewrite join_cons by done. rewrite !count_byte_app, He, IH. simpl. by rewrite Hs.
Qed.
