(* ===== verification/GoPath.v ===== *)
(** * Package [path] of Go

    The lexical operations on slash-separated paths the program calls:
    [path.Clean], [path.Base] and the shell matcher [path.Match] with its
    character classes.  They are the language's, written out here so that the
    code that calls them can be evaluated. *)

From S2P Require Import Prelude GoStr.
#[local] Open Scope Z_scope.

Definition slash : ascii := "/"%char.
Definition rooted (p : str) : bool := match p with c :: _ => Ascii.eqb c slash | [] => false end.

(** ** [path.Clean] *)
(** The elements kept so far, last first: a ".." takes back an element that is
    not itself a "..", or stays when the path is relative. *)
Definition clean_step (isRooted : bool) (kept : list str) (e : str) : list str :=
  if is_empty e || str_eqb e (lit ".") then kept
  else if str_eqb e (lit "..") then
    match kept with
    | [] => if isRooted then [] else [e]
    | k :: r => if str_eqb k (lit "..") then e :: kept else r
    end
  else e :: kept.
Definition clean_elements (isRooted : bool) (p : str) : list str :=
  rev (fold_left (clean_step isRooted) (split_byte slash p) []).
Definition path_clean (p : str) : str :=
  let r := rooted p in
  let body := join [slash] (clean_elements r p) in
  if r then slash :: body else if is_empty body then lit "." else body.

(** ** [path.Base] *)
Definition path_base (p : str) : str :=
  if is_empty p then lit "."
  else
    let p := drop_while_end (fun c => Ascii.eqb c slash) p in
    let base := rev (match find_idx (fun c => Ascii.eqb c slash) (rev p) with
                     | Some (i, _) => take i (rev p)
                     | None => rev p
                     end) in
    if is_empty base then [slash] else base.

(** ** [path.Match] *)
(** [utf8.DecodeRuneInString]: the first rune and the rest; of an empty string,
    [RuneError] and nothing. *)
Definition decode_rune (s : str) : Z * nat * str :=
  match decode s with
  | [] => (RuneError, 0%nat, [])
  | (r, b) :: _ => (r, length b, drop (length b) s)
  end.
(** [getEsc]; [None] is [ErrBadPattern]. *)
Definition getEsc (chunk : str) : option (Z * str) :=
  let start := match chunk with
               | [] => None
               | c :: r => if Ascii.eqb c "-" || Ascii.eqb c "]" then None
                           else if Ascii.eqb c "\" then (if is_empty r then None else Some r)
                           else Some chunk
               end in
  match start with
  | None => None
  | Some chunk =>
      let '(r, n, rest) := decode_rune chunk in
      if ((r =? RuneError) && bool_decide (n = 1%nat)) || is_empty rest then None else Some (r, rest)
  end.
(** The ranges of a class after its "[" and "^": whether [r] is in one, and what
    follows the "]". *)
Fixpoint matchRanges (fuel : nat) (r : Z) (chunk : str) (matched : bool) (nrange : nat) : option (bool * str) :=
  match fuel with
  | O => None
  | S fuel =>
      match chunk with
      | "]"%char :: rest =>
          if (0 <? nrange)%nat then Some (matched, rest) else None
      | _ =>
          match getEsc chunk with
          | None => None
          | Some (lo, chunk) =>
              match (match chunk with
                     | "-"%char :: rest => getEsc rest
                     | _ => Some (lo, chunk)
                     end) with
              | None => None
              | Some (hi, chunk) => matchRanges fuel r chunk (matched || in_range lo hi r) (S nrange)
              end
          end
      end
  end.
(** [matchChunk]: [None] is a bad pattern, [Some None] a failed match, [Some
    (Some rest)] what is left of [s]; [failed] keeps checking the syntax. *)
Fixpoint matchChunk (fuel : nat) (chunk s : str) (failed : bool) : option (option str) :=
  match fuel with
  | O => None
  | S fuel =>
      match chunk with
      | [] => Some (if failed then None else Some s)
      | c :: chunk' =>
          let failed := failed || is_empty s in
          if Ascii.eqb c "[" then
            let '(r, s') := if failed then (0, s) else let '(r, _, s') := decode_rune s in (r, s') in
            let '(negated, ranges) := match chunk' with
                                      | "^"%char :: rest => (true, rest)
                                      | _ => (false, chunk')
                                      end in
            match matchRanges (S (length ranges)) r ranges false 0 with
            | None => None
            | Some (matched, rest) => matchChunk fuel rest s' (failed || Bool.eqb matched negated)
            end
          else if Ascii.eqb c "?" then
            matchChunk fuel chunk' (if failed then s else let '(_, _, s') := decode_rune s in s')
              (failed || match s with d :: _ => Ascii.eqb d slash | [] => true end)
          else
            match (if Ascii.eqb c "\" then chunk' else chunk) with
            | [] => None
            | d :: chunk'' =>
                matchChunk fuel chunk'' (if failed then s else drop 1 s)
                  (failed || match s with e :: _ => negb (Ascii.eqb d e) | [] => true end)
            end
      end
  end.
(** [scanChunk]: the chunk up to the next star outside a class. *)
Fixpoint scanTo (inrange : bool) (pattern : str) : str * str :=
  match pattern with
  | [] => ([], [])
  | c :: r =>
      if Ascii.eqb c "\" then
        match r with
        | [] => ([c], [])
        | d :: r' => let '(chunk, rest) := scanTo inrange r' in (c :: d :: chunk, rest)
        end
      else if Ascii.eqb c "*" && negb inrange then ([], pattern)
      else
        let '(chunk, rest) := scanTo (if Ascii.eqb c "[" then true else if Ascii.eqb c "]" then false else inrange) r in
        (c :: chunk, rest)
  end.
Definition scanChunk (pattern : str) : bool * str * str :=
  let body := drop_while (fun c => Ascii.eqb c "*") pattern in
  let '(chunk, rest) := scanTo false body in
  (match pattern with c :: _ => Ascii.eqb c "*" | [] => false end, chunk, rest).
Definition match_chunk (chunk s : str) : option (option str) := matchChunk (S (length chunk)) chunk s false.
(** Skipping bytes under a star, none of them a slash. *)
Fixpoint skipMatch (chunk name : str) (last : bool) : option (option str) :=
  match name with
  | [] => Some None
  | c :: name' =>
      if Ascii.eqb c slash then Some None
      else match match_chunk chunk name' with
      | None => None
      | Some (Some t) => if last && negb (is_empty t) then skipMatch chunk name' last else Some (Some t)
      | Some None => skipMatch chunk name' last
      end
  end.
(** The matched result; a bad pattern matches nothing for the callers, which
    drop the error. *)
Fixpoint matchLoop (fuel : nat) (pattern name : str) : bool :=
  match fuel with
  | O => false
  | S fuel =>
      if is_empty pattern then is_empty name
      else
        let '(star, chunk, rest) := scanChunk pattern in
        if star && is_empty chunk then negb (existsb (fun c => Ascii.eqb c slash) name)
        else match match_chunk chunk name with
        | None => false
        | Some r =>
            match (match r with
                   | Some t => if is_empty t || negb (is_empty rest) then Some t else None
                   | None => None
                   end) with
            | Some t => matchLoop fuel rest t
            | None =>
                if star then match skipMatch chunk name (is_empty rest) with
                             | Some (Some t) => matchLoop fuel rest t
                             | _ => false
                             end
                else false
            end
        end
  end.
(** [path.Match]: a chunk takes at least one byte of the pattern. *)
Definition path_match (pattern name : str) : bool := matchLoop (S (length pattern)) pattern name.

(** ** Examples from the package's documentation *)
Example clean_examples :
  path_clean (lit "a//b/./c/..") = lit "a/b" /\ path_clean (lit "/../a") = lit "/a" /\
  path_clean (lit "../x/../..") = lit "../.." /\ path_clean [] = lit ".".
Proof. by repeat split. Qed.
Example match_examples :
  path_match (lit "/data/*.go") (lit "/data/x.go") = true /\ path_match (lit "*") (lit "a/b") = false /\
  path_match (lit "a[^b-d]?") (lit "aex") = true /\ path_match (lit "a[^b-d]?") (lit "acx") = false /\
  path_match (lit "\*x*y") (lit "*xzzy") = true /\ path_match (lit "a*b*c") (lit "axbxbyc") = true.
Proof. by repeat split. Qed.
