(* ===== verification/LiveQueue.v ===== *)
(** * The live queue: steers and follow-ups of one session

    Models [internal/agent/runtime/session/live_queue.go] and
    [live_queue_transitions.go]: the two queue documents of a session, their
    transitions (enqueue, claim, apply, release, reject, edit, cancel,
    promote, close, reorder, compaction) and the helpers they share.  A Go
    method that mutates its receiver returns the new state; one that fails
    returns [Err] and, as in the code, leaves the receiver as it was.  Fresh
    identifiers ([uuid.NewString()]) and the clock are arguments. *)

From S2P Require Import Prelude GoStr.
#[local] Open Scope Z_scope.

(** ** Data *)
Inductive QueueStatus : Type :=
  | QueueAccepted | QueueClaimed | QueueApplied | QueueRejected | QueueExpired | QueueCanceled.
#[export] Instance QueueStatus_eq_dec : EqDecision QueueStatus.
Proof. solve_decision. Defined.

Inductive QueueError : Type :=
  | ErrQueueSteerUnsupported | ErrQueueNoActiveRun | ErrQueueInvalidReference
  | ErrQueueNotPending | ErrQueueInvocationConflict | ErrQueueCapacityExceeded
  | ErrLiveQueueUnavailable | ErrRunOwnershipLost | ErrContextDone.

Definition QueueErrorTargetRunNotActive : str := lit "queue_target_run_not_active".
Definition MaxPendingQueueItems : nat := 64.
Definition queueTerminalRetention : nat := 64.
Definition terminalClaimRetention : nat := 4 * queueTerminalRetention.

Record Key : Type := mkKey { kBotID : str; kSessionID : str }.
(** [Key.String] *)
Definition key_string (k : Key) : str :=
  trim_space (kBotID k) ++ lit ":" ++ trim_space (kSessionID k).

Record RunHandle : Type := mkRunHandle {
  hBotID : str; hSessionID : str; hRunID : str; hOwnerID : str; hTurnID : str;
  hGeneration : str; hFencingToken : Z }.

Record SteerClaimRef : Type := mkSteerClaimRef {
  scItemID : str; scRunID : str; scOwnerID : str; scGeneration : str;
  scFencingToken : Z; scClaimToken : str }.
#[export] Instance SteerClaimRef_eq_dec : EqDecision SteerClaimRef.
Proof. solve_decision. Defined.

Record FollowUpClaimRef : Type := mkFollowUpClaimRef {
  fcItemID : str; fcTriggerRunID : str; fcClaimToken : str }.
#[export] Instance FollowUpClaimRef_eq_dec : EqDecision FollowUpClaimRef.
Proof. solve_decision. Defined.

Record SteerItem : Type := mkSteerItem {
  sID : str; sBotID : str; sSessionID : str; sTargetRunID : str; sInvocationID : str;
  sPayload : str; sStatus : QueueStatus; sPosition : Z; sClaim : option SteerClaimRef;
  sErrorCode : str; sCreatedAt : Z }.

Record FollowUpItem : Type := mkFollowUpItem {
  fID : str; fBotID : str; fSessionID : str; fEnqueuedDuringRunID : str; fInvocationID : str;
  fPayload : str; fStatus : QueueStatus; fPosition : Z; fClaim : option FollowUpClaimRef;
  fErrorCode : str; fCreatedAt : Z }.

Record steerQueueState : Type := mkSteerQueue {
  sItems : list SteerItem;
  PromotedFollowUpItems : gmap str str;
  ClosedRunID : str;
  sUpdatedAt : Z }.

Record followUpQueueState : Type := mkFollowUpQueue {
  fItems : list FollowUpItem;
  TerminalClaims : gmap str str;
  fUpdatedAt : Z }.

(** The zero value of the two documents, what a missing map entry reads as. *)
Definition zeroSteerQueue : steerQueueState := mkSteerQueue [] ∅ [] 0.
Definition zeroFollowUpQueue : followUpQueueState := mkFollowUpQueue [] ∅ 0.

(** Field updates. *)
Definition sSet (st : QueueStatus) (c : option SteerClaimRef) (i : SteerItem) : SteerItem :=
  mkSteerItem (sID i) (sBotID i) (sSessionID i) (sTargetRunID i) (sInvocationID i)
    (sPayload i) st (sPosition i) c (sErrorCode i) (sCreatedAt i).
Definition sSetError (e : str) (i : SteerItem) : SteerItem :=
  mkSteerItem (sID i) (sBotID i) (sSessionID i) (sTargetRunID i) (sInvocationID i)
    (sPayload i) (sStatus i) (sPosition i) (sClaim i) e (sCreatedAt i).
Definition sSetPayload (p : str) (i : SteerItem) : SteerItem :=
  mkSteerItem (sID i) (sBotID i) (sSessionID i) (sTargetRunID i) (sInvocationID i)
    p (sStatus i) (sPosition i) (sClaim i) (sErrorCode i) (sCreatedAt i).
Definition sSetPosition (i : SteerItem) (pos : Z) : SteerItem :=
  mkSteerItem (sID i) (sBotID i) (sSessionID i) (sTargetRunID i) (sInvocationID i)
    (sPayload i) (sStatus i) pos (sClaim i) (sErrorCode i) (sCreatedAt i).
Definition fSet (st : QueueStatus) (c : option FollowUpClaimRef) (i : FollowUpItem) : FollowUpItem :=
  mkFollowUpItem (fID i) (fBotID i) (fSessionID i) (fEnqueuedDuringRunID i) (fInvocationID i)
    (fPayload i) st (fPosition i) c (fErrorCode i) (fCreatedAt i).
Definition fSetError (e : str) (i : FollowUpItem) : FollowUpItem :=
  mkFollowUpItem (fID i) (fBotID i) (fSessionID i) (fEnqueuedDuringRunID i) (fInvocationID i)
    (fPayload i) (fStatus i) (fPosition i) (fClaim i) e (fCreatedAt i).
Definition fSetPayload (p : str) (i : FollowUpItem) : FollowUpItem :=
  mkFollowUpItem (fID i) (fBotID i) (fSessionID i) (fEnqueuedDuringRunID i) (fInvocationID i)
    p (fStatus i) (fPosition i) (fClaim i) (fErrorCode i) (fCreatedAt i).
Definition fSetPosition (i : FollowUpItem) (pos : Z) : FollowUpItem :=
  mkFollowUpItem (fID i) (fBotID i) (fSessionID i) (fEnqueuedDuringRunID i) (fInvocationID i)
    (fPayload i) (fStatus i) pos (fClaim i) (fErrorCode i) (fCreatedAt i).
Definition sWith (s : steerQueueState) (items : list SteerItem) (now : Z) : steerQueueState :=
  mkSteerQueue items (PromotedFollowUpItems s) (ClosedRunID s) now.
Definition fWith (s : followUpQueueState) (items : list FollowUpItem) (now : Z) : followUpQueueState :=
  mkFollowUpQueue items (TerminalClaims s) now.

(** ** Validation *)
Definition validateQueueKey (k : Key) : bool :=
  negb (blank (kBotID k)) && negb (blank (kSessionID k)).
Definition validatePayload (p : str) : bool := negb (is_empty p).

Definition validateSteerClaim (k : Key) (ref : SteerClaimRef) : bool :=
  validateQueueKey k &&
  negb (is_empty (scItemID ref) || blank (scRunID ref) || blank (scOwnerID ref) ||
        blank (scGeneration ref) || (scFencingToken ref <=? 0) || blank (scClaimToken ref)).

Definition validateFollowUpClaim (k : Key) (ref : FollowUpClaimRef) : bool :=
  validateQueueKey k &&
  negb (is_empty (fcItemID ref) || blank (fcTriggerRunID ref) || blank (fcClaimToken ref)).

(** ** Status, capacity, positions *)
Definition terminal (s : QueueStatus) : bool :=
  match s with
  | QueueApplied | QueueRejected | QueueExpired | QueueCanceled => true
  | _ => false
  end.
Definition is_status (st s : QueueStatus) : bool := bool_decide (s = st).
Definition sAccepted (i : SteerItem) : bool := is_status QueueAccepted (sStatus i).
Definition sClaimed (i : SteerItem) : bool := is_status QueueClaimed (sStatus i).
Definition fAccepted (i : FollowUpItem) : bool := is_status QueueAccepted (fStatus i).
Definition fClaimed (i : FollowUpItem) : bool := is_status QueueClaimed (fStatus i).

Definition countPendingSteers (s : steerQueueState) : nat := countb sAccepted (sItems s).
Definition countPendingFollowUps (s : followUpQueueState) : nat := countb fAccepted (fItems s).

Definition limit_list {A} (limit : Z) (l : list A) : list A :=
  if (0 <? limit) && (limit <? Z.of_nat (length l)) then take (Z.to_nat limit) l else l.
Definition pendingSteers (s : steerQueueState) (limit : Z) : list SteerItem :=
  limit_list limit
    (stable_sort (fun a b => sPosition a <? sPosition b) (List.filter sAccepted (sItems s))).
Definition pendingFollowUps (s : followUpQueueState) (limit : Z) : list FollowUpItem :=
  limit_list limit
    (stable_sort (fun a b => fPosition a <? fPosition b) (List.filter fAccepted (fItems s))).

Definition max_position {A} (pos : A -> Z) (l : list A) : Z :=
  fold_left (fun p i => if p <? pos i then pos i else p) l 0.
Definition nextSteerPosition (s : steerQueueState) : Z := max_position sPosition (sItems s) + 1.
Definition nextFollowUpPosition (s : followUpQueueState) : Z := max_position fPosition (fItems s) + 1.

(** ** Compaction *)
Section compaction.
Context {T : Type} (describe : T -> QueueStatus * Z * Z).
Definition dTerminal (x : T) : bool := terminal (describe x).1.1.
(** Creation time, then position. *)
Definition older (a b : nat * T) : bool :=
  let '(_, ca, pa) := describe a.2 in
  let '(_, cb, pb) := describe b.2 in
  if ca =? cb then pa <? pb else ca <? cb.
Definition compactQueueItems (items : list T) : list T :=
  let terminals := countb dTerminal items in
  if (terminals <=? queueTerminalRetention)%nat then items
  else
    let candidates := List.filter (fun p => dTerminal p.2) (imap pair items) in
    let dropped := (take (terminals - queueTerminalRetention) (stable_sort older candidates)).*1 in
    (List.filter (fun p => bool_decide (p.1 ∉ dropped)) (imap pair items)).*2.
End compaction.

Definition describeSteer (i : SteerItem) : QueueStatus * Z * Z := (sStatus i, sCreatedAt i, sPosition i).
Definition describeFollowUp (i : FollowUpItem) : QueueStatus * Z * Z := (fStatus i, fCreatedAt i, fPosition i).

(** [compact] of the steer document. *)
Definition steer_compact (s : steerQueueState) : steerQueueState :=
  let items := compactQueueItems describeSteer (sItems s) in
  let present := sID <$> items in
  mkSteerQueue items
    (filter (fun kv => kv.2 ∈ present) (PromotedFollowUpItems s)) (ClosedRunID s) (sUpdatedAt s).
(** [compact] of the follow-up document. *)
Definition followUp_compact (s : followUpQueueState) : followUpQueueState :=
  let items := compactQueueItems describeFollowUp (fItems s) in
  let present := fID <$> items in
  mkFollowUpQueue items
    (if (size (TerminalClaims s) <=? terminalClaimRetention)%nat then TerminalClaims s
     else filter (fun kv => kv.2 ∈ present) (TerminalClaims s)) (fUpdatedAt s).

(** ** Invocation replay *)
Definition replaySteer (s : steerQueueState) (invocationID payload : str)
    : option (result QueueError SteerItem) :=
  match find_idx (fun i => str_eqb (sInvocationID i) invocationID) (sItems s) with
  | None => None
  | Some (_, i) =>
      if str_eqb (sPayload i) payload then Some (Ok i) else Some (Err ErrQueueInvocationConflict)
  end.
Definition replayFollowUp (s : followUpQueueState) (invocationID payload : str)
    : option (result QueueError FollowUpItem) :=
  match find_idx (fun i => str_eqb (fInvocationID i) invocationID) (fItems s) with
  | None => None
  | Some (_, i) =>
      if str_eqb (fPayload i) payload then Some (Ok i) else Some (Err ErrQueueInvocationConflict)
  end.

(** ** Enqueue *)
Definition steer_enqueue (s : steerQueueState) (k : Key) (itemID invocationID runID payload : str)
    (now : Z) : result QueueError (steerQueueState * SteerItem) :=
  if (MaxPendingQueueItems <=? countPendingSteers s)%nat then Err ErrQueueCapacityExceeded
  else
    let item := mkSteerItem itemID (kBotID k) (kSessionID k) runID invocationID payload
                  QueueAccepted (nextSteerPosition s) None [] now in
    Ok (mkSteerQueue (sItems s ++ [item]) (PromotedFollowUpItems s)
          (if negb (is_empty (ClosedRunID s)) && negb (str_eqb (ClosedRunID s) runID)
           then [] else ClosedRunID s) now, item).
Definition followUp_enqueue (s : followUpQueueState) (k : Key)
    (itemID invocationID runID payload : str) (now : Z)
    : result QueueError (followUpQueueState * FollowUpItem) :=
  if (MaxPendingQueueItems <=? countPendingFollowUps s)%nat then Err ErrQueueCapacityExceeded
  else
    let item := mkFollowUpItem itemID (kBotID k) (kSessionID k) runID invocationID payload
                  QueueAccepted (nextFollowUpPosition s) None [] now in
    Ok (fWith s (fItems s ++ [item]) now, item).

(** ** Claims *)
Definition claimOf (i : SteerItem) (h : RunHandle) (token : str) : SteerClaimRef :=
  mkSteerClaimRef (sID i) (hRunID h) (hOwnerID h) (hGeneration h) (hFencingToken h) token.

Definition advanceSteerClaim (i : SteerItem) (h : RunHandle) : SteerItem * bool :=
  match sClaim i with
  | Some c =>
      if negb (sClaimed i) || negb (str_eqb (scRunID c) (hRunID h)) then (i, false)
      else if str_eqb (scOwnerID c) (hOwnerID h) && str_eqb (scGeneration c) (hGeneration h) &&
              (scFencingToken c =? hFencingToken h) then (i, false)
      else (sSet (sStatus i)
              (Some (mkSteerClaimRef (scItemID c) (scRunID c) (hOwnerID h) (hGeneration h)
                       (hFencingToken h) (scClaimToken c))) i, true)
  | None => (i, false)
  end.

Definition claimedBy (runID : str) (i : SteerItem) : bool :=
  sClaimed i && match sClaim i with Some c => str_eqb (scRunID c) runID | None => false end.
Definition claimable (runID : str) (i : SteerItem) : bool :=
  sAccepted i && str_eqb (sTargetRunID i) runID.

Definition steer_claimNext (s : steerQueueState) (h : RunHandle) (sealIfEmpty : bool) (now : Z)
    (token : str) : steerQueueState * option (SteerItem * SteerClaimRef) :=
  match find_idx (claimedBy (hRunID h)) (sItems s) with
  | Some (n, i) =>
      let '(i', advanced) := advanceSteerClaim i h in
      (sWith s (<[n := i']> (sItems s)) (if advanced then now else sUpdatedAt s),
       match sClaim i' with Some c => Some (i', c) | None => None end)
  | None =>
      match best_index (claimable (hRunID h)) sPosition (sItems s) with
      | None =>
          (if sealIfEmpty then mkSteerQueue (sItems s) (PromotedFollowUpItems s) (hRunID h) now else s,
           None)
      | Some (n, i) =>
          let claim := claimOf i h token in
          let i' := sSet QueueClaimed (Some claim) i in
          (sWith s (<[n := i']> (sItems s)) now, Some (i', claim))
      end
  end.

Definition followUp_claimNext (s : followUpQueueState) (triggerRunID : str) (now : Z) (token : str)
    : followUpQueueState * option (FollowUpItem * FollowUpClaimRef) :=
  let itemID := default [] (TerminalClaims s !! triggerRunID) in
  if negb (is_empty itemID) then
    match find_idx (fun i => str_eqb (fID i) itemID && fClaimed i && bool_decide (is_Some (fClaim i)))
            (fItems s) with
    | Some (_, i) => (s, match fClaim i with Some c => Some (i, c) | None => None end)
    | None => (s, None)
    end
  else
    match best_index fAccepted fPosition (fItems s) with
    | None => (s, None)
    | Some (n, i) =>
        let claim := mkFollowUpClaimRef (fID i) triggerRunID token in
        let i' := fSet QueueClaimed (Some claim) i in
        (mkFollowUpQueue (<[n := i']> (fItems s)) (<[triggerRunID := fID i]> (TerminalClaims s)) now,
         Some (i', claim))
    end.

(** ** Apply, release, reject: transitions of the holder of a claim *)
Definition steer_holds (ref : SteerClaimRef) (i : SteerItem) : bool :=
  str_eqb (sID i) (scItemID ref) && sClaimed i && bool_decide (sClaim i = Some ref).
Definition followUp_holds (ref : FollowUpClaimRef) (i : FollowUpItem) : bool :=
  str_eqb (fID i) (fcItemID ref) && fClaimed i && bool_decide (fClaim i = Some ref).

Definition steer_apply (s : steerQueueState) (ref : SteerClaimRef) (now : Z)
    : result QueueError steerQueueState :=
  match find_idx (steer_holds ref) (sItems s) with
  | Some (n, i) => Ok (steer_compact (sWith s (<[n := sSet QueueApplied (sClaim i) i]> (sItems s)) now))
  | None => Err ErrQueueInvalidReference
  end.
Definition steer_release (s : steerQueueState) (ref : SteerClaimRef) (now : Z)
    : result QueueError steerQueueState :=
  match find_idx (steer_holds ref) (sItems s) with
  | Some (n, i) => Ok (sWith s (<[n := sSet QueueAccepted None i]> (sItems s)) now)
  | None => Err ErrQueueInvalidReference
  end.
Definition followUp_apply (s : followUpQueueState) (ref : FollowUpClaimRef) (now : Z)
    : result QueueError followUpQueueState :=
  match find_idx (followUp_holds ref) (fItems s) with
  | Some (n, i) =>
      Ok (followUp_compact (fWith s (<[n := fSet QueueApplied (fClaim i) i]> (fItems s)) now))
  | None => Err ErrQueueInvalidReference
  end.
Definition followUp_release (s : followUpQueueState) (ref : FollowUpClaimRef) (now : Z)
    : result QueueError followUpQueueState :=
  match find_idx (followUp_holds ref) (fItems s) with
  | Some (n, i) =>
      Ok (mkFollowUpQueue (<[n := fSet QueueAccepted None i]> (fItems s))
            (delete (fcTriggerRunID ref) (TerminalClaims s)) now)
  | None => Err ErrQueueInvalidReference
  end.
Definition followUp_reject (s : followUpQueueState) (ref : FollowUpClaimRef) (errorCode : str) (now : Z)
    : result QueueError followUpQueueState :=
  match find_idx (followUp_holds ref) (fItems s) with
  | Some (n, i) =>
      Ok (followUp_compact
            (mkFollowUpQueue (<[n := fSetError errorCode (fSet QueueRejected None i)]> (fItems s))
               (delete (fcTriggerRunID ref) (TerminalClaims s)) now))
  | None => Err ErrQueueInvalidReference
  end.

(** ** Edit and cancel: only accepted items *)
Definition steer_pending (itemID : str) (i : SteerItem) : bool := str_eqb (sID i) itemID && sAccepted i.
Definition followUp_pending (itemID : str) (i : FollowUpItem) : bool := str_eqb (fID i) itemID && fAccepted i.

Definition steer_edit (s : steerQueueState) (itemID payload : str) (now : Z)
    : result QueueError (steerQueueState * SteerItem) :=
  match find_idx (steer_pending itemID) (sItems s) with
  | Some (n, i) => let i' := sSetPayload payload i in Ok (sWith s (<[n := i']> (sItems s)) now, i')
  | None => Err ErrQueueNotPending
  end.
Definition steer_cancel (s : steerQueueState) (itemID : str) (now : Z)
    : result QueueError steerQueueState :=
  match find_idx (steer_pending itemID) (sItems s) with
  | Some (n, i) => Ok (steer_compact (sWith s (<[n := sSet QueueCanceled (sClaim i) i]> (sItems s)) now))
  | None => Err ErrQueueNotPending
  end.
Definition followUp_edit (s : followUpQueueState) (itemID payload : str) (now : Z)
    : result QueueError (followUpQueueState * FollowUpItem) :=
  match find_idx (followUp_pending itemID) (fItems s) with
  | Some (n, i) => let i' := fSetPayload payload i in Ok (fWith s (<[n := i']> (fItems s)) now, i')
  | None => Err ErrQueueNotPending
  end.
Definition followUp_cancel (s : followUpQueueState) (itemID : str) (now : Z)
    : result QueueError followUpQueueState :=
  match find_idx (followUp_pending itemID) (fItems s) with
  | Some (n, i) =>
      Ok (followUp_compact (fWith s (<[n := fSet QueueCanceled (fClaim i) i]> (fItems s)) now))
  | None => Err ErrQueueNotPending
  end.

(** ** Promotion of a follow-up to a steer of the active run *)
Definition promote (steers : steerQueueState) (follows : followUpQueueState) (k : Key)
    (runID followUpID : str) (now : Z) (newID : str)
    : result QueueError (steerQueueState * followUpQueueState * SteerItem) :=
  let steerID := default [] (PromotedFollowUpItems steers !! followUpID) in
  if negb (is_empty steerID) then
    match find_idx (fun i => str_eqb (sID i) steerID) (sItems steers) with
    | Some (_, existing) => Ok (steers, follows, existing)
    | None => Err ErrQueueInvalidReference
    end
  else
    match find_idx (followUp_pending followUpID) (fItems follows) with
    | None => Err ErrQueueNotPending
    | Some (n, f) =>
        if (MaxPendingQueueItems <=? countPendingSteers steers)%nat then Err ErrQueueCapacityExceeded
        else
          let steer := mkSteerItem newID (kBotID k) (kSessionID k) runID
                         (lit "promote:" ++ followUpID) (fPayload f) QueueAccepted
                         (nextSteerPosition steers) None [] now in
          Ok (mkSteerQueue (sItems steers ++ [steer])
                (<[followUpID := newID]> (PromotedFollowUpItems steers)) (ClosedRunID steers) now,
              followUp_compact (fWith follows (<[n := fSet QueueCanceled (fClaim f) f]> (fItems follows)) now),
              steer)
    end.

(** ** Closing a run *)
Definition closes (runID : str) (i : SteerItem) : bool :=
  str_eqb (sTargetRunID i) runID && (sAccepted i || sClaimed i).
Definition closeItem (runID : str) (i : SteerItem) : SteerItem :=
  if closes runID i then sSetError QueueErrorTargetRunNotActive (sSet QueueRejected None i) else i.
Definition closeSteerRun (s : steerQueueState) (runID : str) (now : Z) : steerQueueState * bool :=
  let changed := existsb (closes runID) (sItems s) || negb (str_eqb (ClosedRunID s) runID) in
  (mkSteerQueue (closeItem runID <$> sItems s) (PromotedFollowUpItems s) runID
     (if changed then now else sUpdatedAt s), changed).

(** ** Reordering the pending items *)
Section reorder.
Context {T : Type} (describe : T -> str * QueueStatus * Z) (setPosition : T -> Z -> T).
Definition rID (p : nat * T) : str := (describe p.2).1.1.
Definition rPos (p : nat * T) : Z := (describe p.2).2.
Definition rAccepted (x : T) : bool := is_status QueueAccepted (describe x).1.2.
Definition pendingRefs (items : list T) : list (nat * T) :=
  stable_sort (fun a b => rPos a <? rPos b) (List.filter (fun p => rAccepted p.2) (imap pair items)).

(** [pending[itemIndex]] taken out and put back at [beforeIndex], an index of
    the list it was taken from, or at the end. *)
Definition move {B : Type} (l : list B) (itemIndex : nat) (beforeIndex : option nat) : list B :=
  match l !! itemIndex with
  | None => l
  | Some moving =>
      let rest := take itemIndex l ++ drop (S itemIndex) l in
      let at_ := match beforeIndex with
                 | None => length rest
                 | Some b => if (itemIndex <? b)%nat then (b - 1)%nat else b
                 end in
      take at_ rest ++ moving :: drop at_ rest
  end.
(** [for i, ref := range pending { *ref.position = int64(i + 1) }]: [n] is the
    position of the first reference. *)
Fixpoint renumber (items : list T) (refs : list (nat * T)) (n : Z) : list T :=
  match refs with
  | [] => items
  | (i, x) :: r => renumber (<[i := setPosition x n]> items) r (n + 1)
  end.
Definition reorderQueuePositions (items : list T) (item before : str) : result QueueError (list T) :=
  if is_empty item || str_eqb item before then Err ErrQueueInvalidReference
  else
    let pending := pendingRefs items in
    let beforeIndex := find_last (fun p => str_eqb (rID p) before) pending in
    match find_last (fun p => str_eqb (rID p) item) pending with
    | None => Err ErrQueueNotPending
    | Some itemIndex =>
        if is_empty before then Ok (renumber items (move pending itemIndex None) 1)
        else match beforeIndex with
             | None => Err ErrQueueNotPending
             | Some b => Ok (renumber items (move pending itemIndex (Some b)) 1)
             end
    end.
End reorder.

Definition refSteer (i : SteerItem) : str * QueueStatus * Z := (sID i, sStatus i, sPosition i).
Definition refFollowUp (i : FollowUpItem) : str * QueueStatus * Z := (fID i, fStatus i, fPosition i).

Definition reorderSteerState (s : steerQueueState) (item before : str)
    : result QueueError (steerQueueState * list SteerItem) :=
  items <-? reorderQueuePositions refSteer sSetPosition (sItems s) item before ;;
  let s' := sWith s items (sUpdatedAt s) in Ok (s', pendingSteers s' 0).
Definition reorderFollowUpState (s : followUpQueueState) (item before : str)
    : result QueueError (followUpQueueState * list FollowUpItem) :=
  items <-? reorderQueuePositions refFollowUp fSetPosition (fItems s) item before ;;
  let s' := fWith s items (fUpdatedAt s) in Ok (s', pendingFollowUps s' 0).

(** ** Compaction: facts *)
Section compaction_facts.
Context {T : Type} (describe : T -> QueueStatus * Z * Z).

Lemma older_asym (a b : nat * T) : older describe a b = true -> older describe b a = false.
Proof.
  unfold older. destruct (describe a.2) as [[? ca] pa], (describe b.2) as [[? cb] pb].
  intros H. destruct (Z.eqb_spec ca cb), (Z.eqb_spec cb ca); lia.
Qed.
Lemma older_trans (a b c : nat * T) :
  le_of (older describe) a b -> le_of (older describe) b c -> le_of (older describe) a c.
Proof.
  unfold le_of, older.
  destruct (describe a.2) as [[? ca] pa], (describe b.2) as [[? cb] pb], (describe c.2) as [[? cc] pc].
  destruct (Z.eqb_spec cb ca), (Z.eqb_spec cc cb), (Z.eqb_spec cc ca); lia.
Qed.

(** The rows of a slice that survive the removal of the indices [D]. *)
Definition without (D : list nat) (l : list (nat * T)) : list (nat * T) :=
  List.filter (fun p => bool_decide (p.1 ∉ D)) l.

Lemma imap_fst_seq k (l : list T) : (imap (fun i x => ((k + i)%nat, x)) l).*1 = seq k (length l).
Proof.
  revert k; induction l as [|x l IH]; intros k; simpl; [done|]. f_equal; [lia|].
  rewrite <- IH. f_equal. apply imap_ext. intros; simpl. f_equal; lia.
Qed.
Lemma imap_pair_fst (l : list T) : (imap pair l).*1 = seq 0 (length l).
Proof. apply (imap_fst_seq 0). Qed.
Lemma imap_pair_snd (l : list T) : (imap pair l).*2 = l.
Proof. rewrite fmap_imap. rewrite <- (list_fmap_id l) at 2. by rewrite <- imap_const. Qed.

Lemma filter_sublist_bool {B} (p : B -> bool) l : List.filter p l `sublist_of` l.
Proof. induction l as [|x l IH]; simpl; [done|]. case_if; by constructor. Qed.
Lemma without_sublist D (l : list T) : (without D (imap pair l)).*2 `sublist_of` l.
Proof.
  rewrite <- (imap_pair_snd l) at 2. apply sublist_fmap, filter_sublist_bool.
Qed.
Lemma filter_snd (p : T -> bool) (l : list (nat * T)) :
  List.filter p l.*2 = (List.filter (fun q => p q.2) l).*2.
Proof. induction l as [|[i x] l IH]; csimpl; [done|]. case_if; csimpl; by rewrite IH. Qed.

(** Removing the indices of the first half of a list of distinct rows leaves
    the second half. *)
Lemma without_split (l1 l2 : list (nat * T)) :
  NoDup (l1 ++ l2).*1 -> without l1.*1 (l1 ++ l2) = l2.
Proof.
  rewrite fmap_app. intros (H1 & Hd & H2)%NoDup_app. unfold without.
  rewrite List.filter_app, filter_nil_forall, filter_id_forall; [done| |];
    apply Forall_forall; intros p Hp; [apply bool_decide_eq_true|apply bool_decide_eq_false].
  - intros Hin. apply (Hd _ Hin). by apply list_elem_of_fmap_2.
  - intros Hn. by apply Hn, list_elem_of_fmap_2.
Qed.

Definition dropCount (items : list T) : nat := countb (dTerminal describe) items - queueTerminalRetention.
Definition oldestFirst (items : list T) : list (nat * T) :=
  stable_sort (older describe) (List.filter (fun p => dTerminal describe p.2) (imap pair items)).
Definition droppedRows (items : list T) : list (nat * T) := take (dropCount items) (oldestFirst items).
Definition retainedRows (items : list T) : list (nat * T) := drop (dropCount items) (oldestFirst items).

Lemma compact_eq items : compactQueueItems describe items = (without (droppedRows items).*1 (imap pair items)).*2.
Proof.
  unfold compactQueueItems, droppedRows, dropCount. case_if; [|done].
  apply Nat.leb_le in Heqb. replace (_ - _)%nat with 0%nat by lia. simpl.
  unfold without. rewrite filter_id_forall; [by rewrite imap_pair_snd|].
  apply Forall_forall. intros p _. apply bool_decide_eq_true. set_solver.
Qed.
Lemma compact_sublist items : compactQueueItems describe items `sublist_of` items.
Proof. rewrite compact_eq. apply without_sublist. Qed.

Lemma oldestFirst_perm items :
  oldestFirst items ≡ₚ List.filter (fun p => dTerminal describe p.2) (imap pair items).
Proof. apply stable_sort_perm. Qed.
Lemma oldestFirst_NoDup items : NoDup (oldestFirst items).*1.
Proof.
  rewrite oldestFirst_perm.
  eapply (sublist_NoDup _ ((imap pair items).*1)).
  - rewrite imap_pair_fst. apply NoDup_seq.
  - apply sublist_fmap, filter_sublist_bool.
Qed.
Lemma oldestFirst_length items : length (oldestFirst items) = countb (dTerminal describe) items.
Proof.
  unfold countb. rewrite <- (imap_pair_snd items) at 2.
  rewrite filter_snd, length_fmap. unfold oldestFirst. by rewrite stable_sort_length.
Qed.

(** What compaction keeps: every live item in place, and the newest terminal
    items. *)
Lemma compact_terminal_perm items :
  List.filter (dTerminal describe) (compactQueueItems describe items) ≡ₚ (retainedRows items).*2.
Proof.
  rewrite compact_eq, filter_snd. unfold without. rewrite filter_comm.
  rewrite <- oldestFirst_perm.
  fold (without (droppedRows items).*1 (oldestFirst items)).
  rewrite <- (take_drop (dropCount items) (oldestFirst items)) at 1.
  unfold droppedRows. rewrite without_split; [done|].
  rewrite take_drop. apply oldestFirst_NoDup.
Qed.
Lemma compact_terminal_count items :
  countb (dTerminal describe) (compactQueueItems describe items) =
  Nat.min queueTerminalRetention (countb (dTerminal describe) items).
Proof.
  unfold countb at 1. rewrite compact_terminal_perm, length_fmap. unfold retainedRows, dropCount.
  rewrite length_drop, oldestFirst_length. lia.
Qed.
Lemma compact_live items :
  List.filter (fun x => negb (dTerminal describe x)) (compactQueueItems describe items) =
  List.filter (fun x => negb (dTerminal describe x)) items.
Proof.
  assert (List.filter (fun x => negb (dTerminal describe x)) items =
          (List.filter (fun q => negb (dTerminal describe q.2)) (imap pair items)).*2) as ->.
  { rewrite <- (imap_pair_snd items) at 1. apply filter_snd. }
  rewrite compact_eq, filter_snd. f_equal. unfold without. rewrite filter_comm. apply filter_id_forall, Forall_forall.
  intros p [Hp Hin]%list_elem_of_In%filter_In.
  apply bool_decide_eq_true. intros (q & Heq & Hq)%list_elem_of_fmap.
  assert (q ∈ oldestFirst items) as Hq'.
  { rewrite <- (take_drop (dropCount items) (oldestFirst items)). apply elem_of_app. by left. }
  rewrite oldestFirst_perm in Hq'.
  apply list_elem_of_In, filter_In in Hq' as [Hqi Hqt].
  apply list_elem_of_In in Hp, Hqi.
  destruct p as [i x], q as [j y]; simpl in *; subst.
  apply elem_of_lookup_imap in Hp as (i & x' & ? & Hx), Hqi as (j' & y' & ? & Hy).
  simplify_eq. by rewrite Hqt in Hin.
Qed.
End compaction_facts.

Section compaction_newest.
Context {T : Type} (describe : T -> QueueStatus * Z * Z).
Lemma compact_dropped items :
  items ≡ₚ compactQueueItems describe items ++ (droppedRows describe items).*2.
Proof.
  rewrite (filter_partition (dTerminal describe) (compactQueueItems describe items)).
  rewrite compact_live, compact_terminal_perm.
  rewrite (filter_partition (dTerminal describe) items) at 1.
  rewrite <- (imap_pair_snd items) at 1. rewrite filter_snd, <- oldestFirst_perm.
  rewrite <- (take_drop (dropCount describe items) (oldestFirst describe items)) at 1.
  rewrite fmap_app. unfold droppedRows, retainedRows. solve_Permutation.
Qed.
Lemma dropped_older items d r :
  d ∈ droppedRows describe items -> r ∈ retainedRows describe items -> older describe r d = false.
Proof.
  intros Hd Hr. eapply (StronglySorted_app_cross (le_of (older describe))); [|exact Hd|exact Hr].
  unfold droppedRows, retainedRows. rewrite take_drop.
  apply stable_sort_sorted; [apply older_asym|apply older_trans].
Qed.
Lemma dropped_terminal items d : d ∈ droppedRows describe items -> dTerminal describe d.2 = true.
Proof.
  intros Hd. assert (d ∈ oldestFirst describe items) as Hi.
  { rewrite <- (take_drop (dropCount describe items)). apply elem_of_app. by left. }
  rewrite oldestFirst_perm in Hi. by apply elem_of_filter_bool in Hi as [_ ?].
Qed.
End compaction_newest.

(** ** Reordering: facts *)
(** What [move] does to the order: [x] is taken out and put back just before
    [before], or last. *)
Definition moved {B : Type} (l l' : list B) (x : B) (before : option B) : Prop :=
  exists l1 l2, l = l1 ++ x :: l2 /\
    match before with
    | None => l' = (l1 ++ l2) ++ [x]
    | Some b => exists m1 m2, l1 ++ l2 = m1 ++ b :: m2 /\ l' = m1 ++ x :: b :: m2
    end.
Lemma move_moved {B} (l : list B) i x :
  l !! i = Some x -> moved l (move l i None) x None.
Proof.
  intros Hi. exists (take i l), (drop (S i) l). split; [by rewrite take_drop_middle|].
  unfold move. by rewrite Hi, firstn_all, drop_all.
Qed.
Lemma rest_lookup {B} (l : list B) i b y :
  (i < length l)%nat -> i <> b -> l !! b = Some y ->
  (take i l ++ drop (S i) l) !! (if (i <? b)%nat then b - 1 else b)%nat = Some y.
Proof.
  intros Hi Hb Hy. destruct (Nat.ltb_spec i b).
  - rewrite lookup_app_r by (rewrite length_take; lia).
    rewrite length_take, lookup_drop. rewrite <- Hy. f_equal. lia.
  - rewrite lookup_app_l by (rewrite length_take; lia).
    rewrite lookup_take. case_decide; [done|lia].
Qed.
Lemma move_before_moved {B} (l : list B) i x b y :
  l !! i = Some x -> l !! b = Some y -> i <> b -> moved l (move l i (Some b)) x (Some y).
Proof.
  intros Hi Hb Hn. pose proof (lookup_lt_Some _ _ _ Hi) as Hlt.
  exists (take i l), (drop (S i) l). split; [by rewrite take_drop_middle|].
  pose proof (rest_lookup l i b y Hlt Hn Hb) as Hr. unfold move. rewrite Hi.
  set (at_ := (if (i <? b)%nat then (b - 1)%nat else b)) in *.
  exists (take at_ (take i l ++ drop (S i) l)), (drop (S at_) (take i l ++ drop (S i) l)).
  split; [by rewrite take_drop_middle|]. f_equal. f_equal. by apply drop_S.
Qed.
Lemma moved_perm {B} (l l' : list B) x before : moved l l' x before -> l' ≡ₚ l.
Proof.
  intros (l1 & l2 & -> & H). destruct before as [b|].
  - destruct H as (m1 & m2 & Hm & ->). rewrite <- Permutation_middle, <- Hm. by rewrite Permutation_middle.
  - rewrite H, <- app_assoc. solve_Permutation.
Qed.
Lemma moved_fmap {B C} (f : B -> C) l l' x before :
  moved l l' x before -> moved (f <$> l) (f <$> l') (f x) (f <$> before).
Proof.
  intros (l1 & l2 & -> & H). exists (f <$> l1), (f <$> l2). split; [by rewrite fmap_app|].
  destruct before as [b|]; simpl.
  - destruct H as (m1 & m2 & Hm & ->). exists (f <$> m1), (f <$> m2).
    by rewrite <- fmap_app, Hm, !fmap_app.
  - by rewrite H, !fmap_app.
Qed.

Section reorder_facts.
Context {T : Type} (describe : T -> str * QueueStatus * Z) (setPosition : T -> Z -> T).
Context (describe_set : forall x n, describe (setPosition x n) = ((describe x).1, n)).

Definition renumbered (refs : list (nat * T)) (n : Z) : list (nat * T) :=
  imap (fun k p => (p.1, setPosition p.2 (n + Z.of_nat k))) refs.
Lemma renumbered_cons p refs n :
  renumbered (p :: refs) n = (p.1, setPosition p.2 n) :: renumbered refs (n + 1).
Proof using Type.
  unfold renumbered; simpl. f_equal; [f_equal; f_equal; lia|].
  apply imap_ext. intros; simpl. f_equal. f_equal. lia.
Qed.
Lemma renumbered_fst refs n : (renumbered refs n).*1 = refs.*1.
Proof using Type.
  revert n; induction refs as [|p refs IH]; intros n; [done|].
  rewrite renumbered_cons; csimpl. by rewrite IH.
Qed.
Lemma renumber_other items refs n i :
  i ∉ refs.*1 -> renumber setPosition items refs n !! i = items !! i.
Proof using Type.
  revert items n; induction refs as [|[j x] refs IH]; intros items n; csimpl; [done|].
  intros [? ?]%not_elem_of_cons. rewrite IH by done. by rewrite list_lookup_insert_ne.
Qed.
Lemma renumber_length items refs n : length (renumber setPosition items refs n) = length items.
Proof using Type.
  revert items n; induction refs as [|[j x] refs IH]; intros items n; simpl; [done|].
  by rewrite IH, length_insert.
Qed.
Lemma renumber_in items refs n i y :
  NoDup refs.*1 -> Forall (fun p => (p.1 < length items)%nat) refs ->
  (i, y) ∈ renumbered refs n -> renumber setPosition items refs n !! i = Some y.
Proof using Type.
  revert items n; induction refs as [|[j x] refs IH]; intros items n; csimpl.
  - intros _ _ Hin. by apply not_elem_of_nil in Hin.
  - intros [Hj Hnd]%NoDup_cons [Hlt Hall]%Forall_cons. rewrite renumbered_cons; simpl.
    intros [Heq|Hin]%elem_of_cons.
    + simplify_eq. rewrite renumber_other by done. by rewrite list_lookup_insert_eq.
    + apply IH; [done| |done]. by setoid_rewrite length_insert.
Qed.

(** The accepted rows of a slice whose accepted rows were renumbered are the
    renumbered rows. *)
Lemma accepted_set x n : rAccepted describe (setPosition x n) = rAccepted describe x.
Proof using describe_set. unfold rAccepted. by rewrite describe_set. Qed.
Lemma elem_of_rows (l : list T) i y : (i, y) ∈ imap pair l <-> l !! i = Some y.
Proof using Type.
  rewrite elem_of_lookup_imap. split.
  - intros (? & ? & ? & ?). by simplify_eq.
  - eauto.
Qed.
Definition acceptedRows (items : list T) : list (nat * T) :=
  List.filter (fun p => rAccepted describe p.2) (imap pair items).
Lemma acceptedRows_NoDup items : NoDup (acceptedRows items).*1.
Proof using Type.
  eapply (sublist_NoDup _ ((imap pair items).*1)).
  - rewrite imap_pair_fst. apply NoDup_seq.
  - apply sublist_fmap, filter_sublist_bool.
Qed.
Lemma elem_of_acceptedRows items i y :
  (i, y) ∈ acceptedRows items <-> items !! i = Some y /\ rAccepted describe y = true.
Proof using Type. unfold acceptedRows. by rewrite elem_of_filter_bool, elem_of_rows. Qed.

Lemma elem_of_renumbered refs n i y :
  (i, y) ∈ renumbered refs n -> exists x k, (i, x) ∈ refs /\ y = setPosition x (n + Z.of_nat k).
Proof using Type.
  unfold renumbered. rewrite elem_of_lookup_imap.
  intros (k & [j x] & Heq & Hx). simplify_eq/=. exists x, k. split; [|done].
  by eapply list_elem_of_lookup_2.
Qed.
Lemma acceptedRows_renumber items refs n :
  refs ≡ₚ acceptedRows items ->
  acceptedRows (renumber setPosition items refs n) ≡ₚ renumbered refs n.
Proof using describe_set.
  intros Hp.
  assert (Hnd : NoDup refs.*1) by (rewrite Hp; apply acceptedRows_NoDup).
  assert (Hlt : Forall (fun p => (p.1 < length items)%nat) refs).
  { apply Forall_forall. intros [i x] Hin. rewrite Hp in Hin.
    apply elem_of_acceptedRows in Hin as [Hi _]. by apply lookup_lt_Some in Hi. }
  apply NoDup_Permutation.
  { eapply NoDup_fmap_1, acceptedRows_NoDup. }
  { apply (NoDup_fmap_1 fst). by rewrite renumbered_fst. }
  intros [i y]. rewrite elem_of_acceptedRows. split.
  - intros [Hi Ha]. destruct (decide (i ∈ refs.*1)) as [Hin|Hout].
    + rewrite <- (renumbered_fst refs n) in Hin.
      apply list_elem_of_fmap in Hin as ([i' y'] & Heq & Hin); simpl in Heq; subst i'.
      pose proof (renumber_in _ _ _ _ _ Hnd Hlt Hin) as Hi'. congruence.
    + rewrite renumber_other in Hi by done. destruct Hout.
      apply list_elem_of_fmap. exists (i, y). split; [done|]. rewrite Hp.
      by apply elem_of_acceptedRows.
  - intros Hin. split; [by apply renumber_in|].
    apply elem_of_renumbered in Hin as (x & k & Hin & ->). rewrite accepted_set.
    rewrite Hp in Hin. by apply elem_of_acceptedRows in Hin as [_ ?].
Qed.
Lemma renumbered_lookup refs n k p :
  renumbered refs n !! k = Some p ->
  exists q, refs !! k = Some q /\ p.1 = q.1 /\ p.2 = setPosition q.2 (n + Z.of_nat k).
Proof using Type.
  unfold renumbered. rewrite list_lookup_imap_Some. intros (q & Hq & ->). by exists q.
Qed.

(** The pending rows of a renumbered slice, in the order of [refs]. *)
Lemma pendingRefs_renumber items refs n :
  refs ≡ₚ acceptedRows items ->
  pendingRefs describe (renumber setPosition items refs n) = renumbered refs n.
Proof using describe_set.
  intros Hp. unfold pendingRefs. apply (key_sort_unique (rPos describe)).
  - by apply acceptedRows_renumber.
  - apply (numbered_sorted _ _ n). intros k p Hk.
    apply renumbered_lookup in Hk as (q & Hq & _ & Heq).
    unfold rPos. rewrite Heq, describe_set. simpl. done.
Qed.
Lemma pendingRefs_perm items : pendingRefs describe items ≡ₚ acceptedRows items.
Proof using Type. apply stable_sort_perm. Qed.
Lemma renumbered_rID refs n : rID describe <$> renumbered refs n = rID describe <$> refs.
Proof using describe_set.
  revert n; induction refs as [|p refs IH]; intros n; [done|].
  rewrite renumbered_cons; csimpl. rewrite IH. unfold rID; simpl. by rewrite describe_set.
Qed.

(** The identifiers of the pending items, in order. *)
Definition pendingOrder (items : list T) : list str := rID describe <$> pendingRefs describe items.

(** What a reorder that succeeds does. *)
Lemma reorder_Ok items item before items' :
  reorderQueuePositions describe setPosition items item before = Ok items' ->
  moved (pendingOrder items) (pendingOrder items') item (if is_empty before then None else Some before) /\
 (forall k p, pendingRefs describe items' !! k = Some p -> rPos describe p = 1 + Z.of_nat k) /\
 length items' = length items /\
 (forall i x, items !! i = Some x ->
     if rAccepted describe x then exists n, items' !! i = Some (setPosition x n) else items' !! i = Some x).
Proof using describe_set.
  unfold reorderQueuePositions. case_if; [done|]. str_hyps.
  destruct (find_last _ (pendingRefs describe items)) as [i|] eqn:Ei; [|done].
  apply find_last_Some in Ei as (p & Hp & Hid). str_hyps.
  intros Hok.
  assert (exists refs bp, items' = renumber setPosition items refs 1 /\
           moved (pendingRefs describe items) refs p bp /\
           rID describe <$> bp = (if is_empty before then None else Some before)) as (refs & bp & -> & Hm & Hbp).
  { destruct (is_empty before).
    - invc Hok. eexists _, None. split; [done|]. split; [|done]. by apply move_moved.
    - destruct (find_last (fun p0 => str_eqb (rID describe p0) before) _) as [b|] eqn:Eb; [|done].
      apply find_last_Some in Eb as (q & Hq & Hqid). str_hyps. invc Hok.
      eexists _, (Some q). split; [done|]. split; [|done].
      apply move_before_moved; [done|done|]. intros ->. simplify_eq. }
  assert (Hperm : refs ≡ₚ acceptedRows items) by (by rewrite (moved_perm _ _ _ _ Hm), pendingRefs_perm).
  split_and!.
  - unfold pendingOrder. rewrite (pendingRefs_renumber items refs 1 Hperm), renumbered_rID.
    rewrite <- Hbp, <- Hid. by apply moved_fmap.
  - intros k p'. rewrite (pendingRefs_renumber items refs 1 Hperm). intros Hk.
    apply renumbered_lookup in Hk as (q & _ & _ & Heq). unfold rPos. by rewrite Heq, describe_set.
  - apply renumber_length.
  - intros j x Hj. case_if.
    + assert (Hin : (j, x) ∈ refs) by (rewrite Hperm; by apply elem_of_acceptedRows).
      apply list_elem_of_lookup in Hin as [k Hk].
      exists (1 + Z.of_nat k). apply renumber_in.
      * rewrite Hperm. apply acceptedRows_NoDup.
      * apply Forall_forall. intros [i' x'] Hin. rewrite Hperm in Hin.
        apply elem_of_acceptedRows in Hin as [Hi' _]. by apply lookup_lt_Some in Hi'.
      * unfold renumbered. apply elem_of_lookup_imap. by exists k, (j, x).
    + rewrite renumber_other; [done|].
      intros ([i' x'] & Heq & Hin)%list_elem_of_fmap; simpl in Heq; subst i'.
      rewrite Hperm in Hin. apply elem_of_acceptedRows in Hin as [Hi' Ha]. congruence.
Qed.
(** An item of the reordered slice is an item of the old one, renumbered when
    it was pending. *)
Lemma reorder_items items item before items' y :
  reorderQueuePositions describe setPosition items item before = Ok items' -> y ∈ items' ->
  exists x, x ∈ items /\ (y = x \/ (rAccepted describe x = true /\ exists n, y = setPosition x n)).
Proof using describe_set.
  intros H [i Hi]%list_elem_of_lookup. destruct (reorder_Ok _ _ _ _ H) as (_ & _ & Hlen & Hitems).
  destruct (lookup_lt_is_Some_2 items i) as [x Hx]; [rewrite <- Hlen; by eapply lookup_lt_Some|].
  specialize (Hitems i x Hx). exists x. split; [by eapply list_elem_of_lookup_2|].
  destruct (rAccepted describe x); [|left; congruence].
  destruct Hitems as [n Hn]. right. split; [done|]. exists n. congruence.
Qed.
End reorder_facts.
