(* ===== verification/RunState.v ===== *)
(** * Run views, snapshots and reset scopes of the session runtime

    Models the part of [internal/agent/runtime/session/types.go] and
    [state.go] that the live backends compute with: run statuses, the run
    view (the fields the backend reads; messages, turns and the retry view
    are carried by the code without being inspected), handles, ownership
    tests, lease expiry and the precedence rule of history-reset leases. *)

From S2P Require Import Prelude GoStr LiveQueue.
#[local] Open Scope Z_scope.

Definition RunStatusRunning : str := lit "running".
Definition RunStatusAdmitting : str := lit "admitting".
Definition RunStatusWaitingDecision : str := lit "waiting_decision".
Definition RunStatusAborting : str := lit "aborting".
Definition RunStatusFinishing : str := lit "finishing".
Definition RunStatusCompleted : str := lit "completed".
Definition RunStatusAborted : str := lit "aborted".
Definition RunStatusErrored : str := lit "errored".
Definition RunStatusLost : str := lit "lost".
Definition runErrorOwnerLeaseExpired : str := lit "runtime_owner_lease_expired".

Record RunRetryView : Type := mkRunRetryView {
  rtAttempt : Z; rtMaxAttempt : Z; rtDelayMs : Z; rtReason : str; rtRetryAt : Z }.

Record CurrentRunView : Type := mkCurrentRunView {
  rvRunID : str; rvTurnID : str; rvGeneration : str; rvStatus : str; rvOwnerID : str;
  rvOwnerLeaseExpiresAt : option Z; rvStartedAt : Z; rvUpdatedAt : Z;
  rvSteerSupported : bool; rvFencingToken : Z; rvErrorCode : str;
  rvRetry : option RunRetryView }.

Record Snapshot : Type := mkSnapshot {
  snBotID : str; snSessionID : str; snEpoch : str; snSeq : Z;
  snCurrentRunView : option CurrentRunView; snUpdatedAt : Z }.
Definition zeroSnapshot : Snapshot := mkSnapshot [] [] [] 0 None 0.

(** ** Handles *)
(** [RunHandle.normalized] *)
Definition handle_normalized (h : RunHandle) : RunHandle :=
  mkRunHandle (trim_space (hBotID h)) (trim_space (hSessionID h)) (trim_space (hRunID h))
    (trim_space (hOwnerID h)) (trim_space (hTurnID h)) (trim_space (hGeneration h)) (hFencingToken h).
(** [RunHandle.valid] *)
Definition handle_valid (h : RunHandle) : bool :=
  let h := handle_normalized h in
  negb (is_empty (hBotID h)) && negb (is_empty (hSessionID h)) &&
  negb (is_empty (hRunID h)) && negb (is_empty (hGeneration h)).
(** [RunHandle.key] *)
Definition handle_key (h : RunHandle) : Key :=
  let h := handle_normalized h in mkKey (hBotID h) (hSessionID h).

Definition runMatchesHandle (run : option CurrentRunView) (h : RunHandle) : bool :=
  let h := handle_normalized h in
  match run with
  | Some r => str_eqb (rvRunID r) (hRunID h) && str_eqb (rvGeneration r) (hGeneration h)
  | None => false
  end.
Definition runViewOwnedBy (run : option CurrentRunView) (ownerID : str) : bool :=
  match run with
  | Some r => let viewOwner := trim_space (rvOwnerID r) in
              is_empty viewOwner || str_eqb viewOwner (trim_space ownerID)
  | None => false
  end.
Definition SteerRunAvailable (run : option CurrentRunView) : bool :=
  match run with
  | Some r => rvSteerSupported r &&
              (str_eqb (rvStatus r) RunStatusRunning || str_eqb (rvStatus r) RunStatusWaitingDecision)
  | None => false
  end.

(** ** Status classes *)
Section status.
Context {U : Unicode}.
Definition isActiveRunStatus (status : str) : bool :=
  equal_fold status RunStatusAdmitting || equal_fold status RunStatusRunning ||
  equal_fold status RunStatusWaitingDecision || equal_fold status RunStatusAborting ||
  equal_fold status RunStatusFinishing.
Definition isEventAcceptingRunStatus (status : str) : bool :=
  equal_fold status RunStatusRunning || equal_fold status RunStatusWaitingDecision ||
  equal_fold status RunStatusAborting.
Definition isAbortableRunStatus (status : str) : bool :=
  equal_fold status RunStatusAdmitting || isEventAcceptingRunStatus status.

(** [activeRun]: the run a snapshot shows as active. *)
Definition activeRun (snapshot : option Snapshot) : option CurrentRunView :=
  match snapshot with
  | Some s => match snCurrentRunView s with
              | Some r => if isActiveRunStatus (rvStatus r) then Some r else None
              | None => None
              end
  | None => None
  end.
Definition runMatchesSteerClaim (run : option CurrentRunView) (ref : SteerClaimRef) : bool :=
  match run with
  | Some r => str_eqb (rvRunID r) (scRunID ref) && runViewOwnedBy run (scOwnerID ref) &&
              str_eqb (rvGeneration r) (scGeneration ref) && isActiveRunStatus (rvStatus r)
  | None => false
  end.

(** ** Lease expiry *)
Definition leaseExpired (run : option CurrentRunView) (now : Z) : bool :=
  match run with
  | Some r => isActiveRunStatus (rvStatus r) &&
              match rvOwnerLeaseExpiresAt r with Some e => negb (now <? e) | None => false end
  | None => false
  end.
Definition markLostIfExpired (snapshot : Snapshot) (now : Z) : Snapshot * bool :=
  if negb (leaseExpired (snCurrentRunView snapshot) now) then (snapshot, false)
  else match snCurrentRunView snapshot with
  | Some r =>
      let r' := mkCurrentRunView (rvRunID r) (rvTurnID r) (rvGeneration r) RunStatusLost (rvOwnerID r)
                  None (rvStartedAt r) now (rvSteerSupported r) (rvFencingToken r)
                  (if is_empty (rvErrorCode r) then runErrorOwnerLeaseExpired else rvErrorCode r) None in
      (mkSnapshot (snBotID snapshot) (snSessionID snapshot) (snEpoch snapshot)
         (wrap64 (snSeq snapshot + 1)) (Some r') now, true)
  | None => (snapshot, false)
  end.
End status.

Definition leaseRenewInterval (ttl : Z) : Z :=
  let interval := Z.quot ttl 3 in
  if interval <=? 0 then 100000000 else if interval <? 10000000 then 10000000 else interval.
Definition runtimeReconcileInterval (ownerLeaseTTL : Z) : Z :=
  let interval := Z.quot ownerLeaseTTL 3 in
  if interval <? 50000000 then 50000000
  else if 2000000000 <? interval then 2000000000 else interval.

(** ** History-reset scopes and leases *)
Record ResetScope : Type := mkResetScope { rsBotID : str; rsSessionID : str }.
Record ResetLease : Type := mkResetLease { rlScope : ResetScope; rlToken : str; rlExpiresAt : Z }.
Definition scope_normalized (s : ResetScope) : ResetScope :=
  mkResetScope (trim_space (rsBotID s)) (trim_space (rsSessionID s)).
Definition scope_valid (s : ResetScope) : bool := negb (is_empty (rsBotID (scope_normalized s))).
Definition lease_valid (l : ResetLease) : bool :=
  scope_valid (rlScope l) && negb (blank (rlToken l)) && negb (time_is_zero (rlExpiresAt l)).

Definition effectiveResetLease (scope : ResetScope) (bot : option ResetLease)
    (sessions : list ResetLease) : option ResetLease :=
  match bot with
  | Some l => Some l
  | None =>
      let scope := scope_normalized scope in
      if is_empty (rsSessionID scope) then head sessions
      else snd <$> find_idx (fun l => str_eqb (trim_space (rsSessionID (rlScope l))) (rsSessionID scope))
                     sessions
  end.
