(* ===== verification/MemoryBackend.v ===== *)
(** * The in-process live backend of session runtimes

    Models [internal/agent/runtime/session/memory.go],
    [memory_live_queue.go] and [memory_decision_output.go]: the state one
    process keeps per session (snapshots with their expiry, the history-reset
    leases, the decision-output logs, the two queues), and every operation on
    it with its guards in the code's order.  The mutex makes an operation one
    step.  Every operation takes the outcome of [contextError(ctx)] as
    [ctxDone], the clock readings it makes, and returns the new state with
    what the caller sees.  Subscriber channels are not modelled. *)

From S2P Require Import Prelude GoStr LiveQueue RunState.
#[local] Open Scope Z_scope.

(** ** State *)
Record memoryDecisionOutput : Type := mkDecisionOutput {
  doEvents : list str; doBytes : Z; doDone : bool; doFailed : bool; doClaimed : bool }.
Definition emptyDecisionOutput : memoryDecisionOutput := mkDecisionOutput [] 0 false false false.

Record MemoryBackend : Type := mkMemoryBackend {
  stateTTL : Z;
  nextCleanup : Z;
  snapshots : gmap str Snapshot;
  snapshotExpiresAt : gmap str Z;
  decisionOutputs : gmap str memoryDecisionOutput;
  decisionOutputExpiresAt : gmap str Z;
  historyResets : gmap str ResetLease;
  steerQueues : gmap str steerQueueState;
  followUpQueues : gmap str followUpQueueState;
  closed : bool }.

Inductive BackendError : Type :=
  | ErrContext | ErrArguments | ErrHistoryResetInProgress | ErrDecisionOutputSequenceGap
  | ErrUpdate.

(** [NewMemoryBackendWithTTL] *)
Definition newMemoryBackend (ttl : Z) : MemoryBackend :=
  mkMemoryBackend (if ttl <=? 0 then 24 * 3600 * 1000000000 else ttl) 0 ∅ ∅ ∅ ∅ ∅ ∅ ∅ false.

Definition setSnapshots (b : MemoryBackend) sn ex nc : MemoryBackend :=
  mkMemoryBackend (stateTTL b) nc sn ex (decisionOutputs b) (decisionOutputExpiresAt b)
    (historyResets b) (steerQueues b) (followUpQueues b) (closed b).
Definition setDecisionOutputs (b : MemoryBackend) d ex nc : MemoryBackend :=
  mkMemoryBackend (stateTTL b) nc (snapshots b) (snapshotExpiresAt b) d ex
    (historyResets b) (steerQueues b) (followUpQueues b) (closed b).
Definition setHistoryResets (b : MemoryBackend) r : MemoryBackend :=
  mkMemoryBackend (stateTTL b) (nextCleanup b) (snapshots b) (snapshotExpiresAt b)
    (decisionOutputs b) (decisionOutputExpiresAt b) r (steerQueues b) (followUpQueues b) (closed b).
Definition setQueues (b : MemoryBackend) s f : MemoryBackend :=
  mkMemoryBackend (stateTTL b) (nextCleanup b) (snapshots b) (snapshotExpiresAt b)
    (decisionOutputs b) (decisionOutputExpiresAt b) (historyResets b) s f (closed b).
Definition steerQueue (b : MemoryBackend) (k : Key) : steerQueueState :=
  default zeroSteerQueue (steerQueues b !! key_string k).
Definition followUpQueue (b : MemoryBackend) (k : Key) : followUpQueueState :=
  default zeroFollowUpQueue (followUpQueues b !! key_string k).
Definition putSteer (b : MemoryBackend) (k : Key) (s : steerQueueState) : MemoryBackend :=
  setQueues b (<[key_string k := s]> (steerQueues b)) (followUpQueues b).
Definition putFollowUp (b : MemoryBackend) (k : Key) (s : followUpQueueState) : MemoryBackend :=
  setQueues b (steerQueues b) (<[key_string k := s]> (followUpQueues b)).

(** ** Expiry *)
Definition expired (now e : Z) : bool := negb (now <? e).
(** [if nextCleanup.IsZero() || expiresAt.Before(nextCleanup) { nextCleanup = expiresAt }] *)
Definition sooner (acc e : Z) : Z := if time_is_zero acc || (e <? acc) then e else acc.
Definition soonest (now acc : Z) (m : gmap str Z) : Z :=
  map_fold (fun _ e acc => if expired now e then acc else sooner acc e) acc m.

Section with_unicode.
Context {U : Unicode}.

Definition snapshotActive (s : Snapshot) : bool :=
  match snCurrentRunView s with Some r => isActiveRunStatus (rvStatus r) | None => false end.

(** [purgeExpiredLocked]: an expired entry goes, except that the snapshot of an
    active run stays without an expiry. *)
Definition expiredKey (now : Z) (m : gmap str Z) (k : str) : bool :=
  match m !! k with Some e => expired now e | None => false end.
Definition purgeExpired (b : MemoryBackend) (now : Z) : MemoryBackend :=
  if negb (time_is_zero (nextCleanup b)) && (now <? nextCleanup b) then b
  else
    mkMemoryBackend (stateTTL b)
      (soonest now (soonest now 0 (decisionOutputExpiresAt b)) (snapshotExpiresAt b))
      (filter (fun kv => ~ (expiredKey now (snapshotExpiresAt b) kv.1 = true /\ snapshotActive kv.2 = false))
         (snapshots b))
      (filter (fun kv => expired now kv.2 = false) (snapshotExpiresAt b))
      (filter (fun kv => expiredKey now (decisionOutputExpiresAt b) kv.1 = false) (decisionOutputs b))
      (filter (fun kv => expired now kv.2 = false) (decisionOutputExpiresAt b))
      (historyResets b) (steerQueues b) (followUpQueues b) (closed b).
Definition scheduleCleanup (nc expiresAt : Z) : Z :=
  if time_is_zero expiresAt then nc else sooner nc expiresAt.

Definition stale (b : MemoryBackend) (now updatedAt : Z) : bool :=
  negb (time_is_zero updatedAt) && (stateTTL b <=? time_sub now updatedAt).
Definition purgeLiveQueues (b : MemoryBackend) (now : Z) : MemoryBackend :=
  setQueues b (filter (fun kv => stale b now (sUpdatedAt kv.2) = false) (steerQueues b))
    (filter (fun kv => stale b now (fUpdatedAt kv.2) = false) (followUpQueues b)).
Definition liveSnapshot (b : MemoryBackend) (k : Key) (now : Z) : MemoryBackend * option Snapshot :=
  let b := purgeExpired b now in (b, snapshots b !! key_string k).

(** ** Snapshots *)
Definition SnapshotUpdate : Type := Snapshot -> bool -> result unit (Snapshot * bool).

Definition Load (b : MemoryBackend) (ctxDone : bool) (k : Key) (now : Z)
    : MemoryBackend * result BackendError (option Snapshot) :=
  if ctxDone then (b, Err ErrContext)
  else let '(b, s) := liveSnapshot b k now in (b, Ok s).

Definition store (b : MemoryBackend) (k : Key) (s : Snapshot) (now : Z) : MemoryBackend :=
  let e := now + stateTTL b in
  setSnapshots b (<[key_string k := s]> (snapshots b)) (<[key_string k := e]> (snapshotExpiresAt b))
    (scheduleCleanup (nextCleanup b) e).
Definition runUpdate (b : MemoryBackend) (k : Key) (update : SnapshotUpdate) (exists_ : bool) (now : Z)
    : MemoryBackend * result BackendError (Snapshot * bool) :=
  match update (default zeroSnapshot (snapshots b !! key_string k)) exists_ with
  | Err _ => (b, Err ErrUpdate)
  | Ok (next, false) => (b, Ok (next, false))
  | Ok (next, true) => (store b k next now, Ok (next, true))
  end.
Definition Update (b : MemoryBackend) (ctxDone : bool) (k : Key) (update : option SnapshotUpdate) (now : Z)
    : MemoryBackend * result BackendError (Snapshot * bool) :=
  match update with
  | None => (b, Err ErrArguments)
  | Some update =>
      if ctxDone then (b, Err ErrContext)
      else
        let b := purgeExpired b now in
        runUpdate b k update (bool_decide (is_Some (snapshots b !! key_string k))) now
  end.

(** ** History-reset leases *)
Definition historyResetKey (scope : ResetScope) : str :=
  let scope := scope_normalized scope in
  if is_empty (rsSessionID scope) then lit "bot:" ++ rsBotID scope
  else lit "session:" ++ rsBotID scope ++ lit ":" ++ rsSessionID scope.
Definition sessionPrefix (botID : str) : str := lit "session:" ++ botID ++ lit ":".
Definition purgeHistoryResets (b : MemoryBackend) (now : Z) : MemoryBackend :=
  setHistoryResets b (filter (fun kv => expired now (rlExpiresAt kv.2) = false) (historyResets b)).
(** The session leases of a bot, in some order: the code ranges over a map. *)
Definition sessionLeases (m : gmap str ResetLease) (botID : str) : list ResetLease :=
  (List.filter (fun kv => has_prefix kv.1 (sessionPrefix botID)) (map_to_list m)).*2.
Definition effectiveHistoryReset (m : gmap str ResetLease) (scope : ResetScope) : option ResetLease :=
  let scope := scope_normalized scope in
  effectiveResetLease scope (m !! historyResetKey (mkResetScope (rsBotID scope) []))
    (sessionLeases m (rsBotID scope)).
Definition oppositeHistoryReset (m : gmap str ResetLease) (scope : ResetScope) : option ResetLease :=
  let scope := scope_normalized scope in
  if negb (is_empty (rsSessionID scope)) then m !! historyResetKey (mkResetScope (rsBotID scope) [])
  else head (sessionLeases m (rsBotID scope)).

Definition AcquireHistoryReset (b : MemoryBackend) (ctxDone : bool) (scope : ResetScope) (token : str)
    (ttl now : Z) : MemoryBackend * result BackendError (option ResetLease) :=
  if ctxDone then (b, Err ErrContext)
  else
    let scope := scope_normalized scope in
    let token := trim_space token in
    if negb (scope_valid scope) || is_empty token || (ttl <=? 0) then (b, Err ErrArguments)
    else
      let b := purgeHistoryResets b now in
      match effectiveHistoryReset (historyResets b) scope with
      | Some _ => (b, Ok None)
      | None =>
          let lease := mkResetLease scope token (now + ttl) in
          (setHistoryResets b (<[historyResetKey scope := lease]> (historyResets b)), Ok (Some lease))
      end.
Definition RenewHistoryReset (b : MemoryBackend) (ctxDone : bool) (lease : ResetLease) (ttl now : Z)
    : MemoryBackend * result BackendError (option ResetLease) :=
  if ctxDone then (b, Err ErrContext)
  else if negb (lease_valid lease) || (ttl <=? 0) then (b, Err ErrArguments)
  else
    let b := purgeHistoryResets b now in
    let key := historyResetKey (rlScope lease) in
    match historyResets b !! key with
    | None => (b, Ok None)
    | Some current =>
        if negb (str_eqb (rlToken current) (trim_space (rlToken lease))) then (b, Ok None)
        else match oppositeHistoryReset (historyResets b) (rlScope lease) with
        | Some _ => (b, Ok None)
        | None =>
            let current := mkResetLease (rlScope current) (rlToken current) (now + ttl) in
            (setHistoryResets b (<[key := current]> (historyResets b)), Ok (Some current))
        end
    end.
Definition ReleaseHistoryReset (b : MemoryBackend) (ctxDone : bool) (lease : ResetLease)
    : MemoryBackend * result BackendError bool :=
  if ctxDone then (b, Err ErrContext)
  else if negb (scope_valid (rlScope lease)) || blank (rlToken lease) then (b, Ok false)
  else
    let key := historyResetKey (rlScope lease) in
    match historyResets b !! key with
    | None => (b, Ok false)
    | Some current =>
        if negb (str_eqb (rlToken current) (trim_space (rlToken lease))) then (b, Ok false)
        else (setHistoryResets b (delete key (historyResets b)), Ok true)
    end.
Definition EffectiveHistoryReset (b : MemoryBackend) (ctxDone : bool) (scope : ResetScope) (now : Z)
    : MemoryBackend * result BackendError (option ResetLease) :=
  if ctxDone then (b, Err ErrContext)
  else
    let scope := scope_normalized scope in
    if negb (scope_valid scope) then (b, Ok None)
    else let b := purgeHistoryResets b now in (b, Ok (effectiveHistoryReset (historyResets b) scope)).

(** [StartRunIfNoHistoryReset]: a run starts only while no lease covers its
    session. *)
Definition StartRunIfNoHistoryReset (b : MemoryBackend) (ctxDone : bool) (k : Key)
    (update : option SnapshotUpdate) (now : Z) : MemoryBackend * result BackendError (Snapshot * bool) :=
  match update with
  | None => (b, Err ErrArguments)
  | Some update =>
      if ctxDone then (b, Err ErrContext)
      else
        let b := purgeHistoryResets b now in
        match effectiveHistoryReset (historyResets b) (mkResetScope (kBotID k) (kSessionID k)) with
        | Some _ => (b, Err ErrHistoryResetInProgress)
        | None =>
            let b := purgeExpired b now in
            let current := default zeroSnapshot (snapshots b !! key_string k) in
            runUpdate b k update (negb (is_empty (snSessionID current))) now
        end
  end.
End with_unicode.
