(* ===== verification/MemoryDecisionOutput.v ===== *)
(** * Decision-output logs of the in-process backend

    Models [internal/agent/runtime/session/memory_decision_output.go]: one
    append-only log per accepted decision command, idempotent by sequence
    number, bounded by limits, claimed by one reader. *)

From S2P Require Import Prelude GoStr LiveQueue RunState MemoryBackend.
#[local] Open Scope Z_scope.

Record DecisionOutputLimits : Type := mkLimits { MaxBytes : Z; MaxEvents : Z }.
Record DecisionOutputState : Type := mkDecisionOutputState {
  dsExists : bool; dsLength : Z; dsBytes : Z; dsDone : bool; dsFailed : bool; dsClaimed : bool;
  dsApplied : bool; dsExceeded : bool }.
Definition zeroDecisionOutputState : DecisionOutputState :=
  mkDecisionOutputState false 0 0 false false false false false.

(** [memoryDecisionOutput.state], with the [Applied] and [Exceeded] marks an
    append adds. *)
Definition logState (l : memoryDecisionOutput) (applied exceeded : bool) : DecisionOutputState :=
  mkDecisionOutputState true (Z.of_nat (length (doEvents l))) (doBytes l) (doDone l) (doFailed l)
    (doClaimed l) applied exceeded.

Definition exceedsDecisionOutputLimits (bytes events next : Z) (limits : DecisionOutputLimits) : bool :=
  ((0 <? MaxBytes limits) && (MaxBytes limits <? bytes + next)) ||
  ((0 <? MaxEvents limits) && (MaxEvents limits <=? events)).

(** The switch of [AppendDecisionOutput] on one log; [None] is the nil payload
    that closes it. *)
Definition appendLog (l : memoryDecisionOutput) (seq : Z) (payload : option str)
    (limits : DecisionOutputLimits) : memoryDecisionOutput * result BackendError DecisionOutputState :=
  let len := Z.of_nat (length (doEvents l)) in
  if doDone l || doFailed l then (l, Ok (logState l false false))
  else if seq <=? len then (l, Ok (logState l false false))
  else if negb (seq =? len + 1) then (l, Err ErrDecisionOutputSequenceGap)
  else match payload with
  | None =>
      let l := mkDecisionOutput (doEvents l) (doBytes l) true (doFailed l) (doClaimed l) in
      (l, Ok (logState l true false))
  | Some p =>
      if exceedsDecisionOutputLimits (doBytes l) len (slen p) limits then
        let l := mkDecisionOutput (doEvents l) (doBytes l) (doDone l) true (doClaimed l) in
        (l, Ok (logState l true true))
      else
        let l := mkDecisionOutput (doEvents l ++ [p]) (doBytes l + slen p) (doDone l) (doFailed l) (doClaimed l) in
        (l, Ok (logState l true false))
  end.

Section with_unicode.
Context {U : Unicode}.

(** [decisionOutputLocked]: the log of [ref], created when missing, with its
    expiry pushed back. *)
Definition touchDecisionOutput (b : MemoryBackend) (ref : str) (now : Z)
    : MemoryBackend * memoryDecisionOutput :=
  let l := default emptyDecisionOutput (decisionOutputs b !! ref) in
  let e := now + stateTTL b in
  (setDecisionOutputs b (<[ref := l]> (decisionOutputs b)) (<[ref := e]> (decisionOutputExpiresAt b))
     (scheduleCleanup (nextCleanup b) e), l).
Definition putDecisionOutput (b : MemoryBackend) (ref : str) (l : memoryDecisionOutput) : MemoryBackend :=
  setDecisionOutputs b (<[ref := l]> (decisionOutputs b)) (decisionOutputExpiresAt b) (nextCleanup b).

Definition AppendDecisionOutput (b : MemoryBackend) (ctxDone : bool) (ref : str) (seq : Z)
    (payload : option str) (limits : DecisionOutputLimits) (now : Z)
    : MemoryBackend * result BackendError DecisionOutputState :=
  if ctxDone then (b, Err ErrContext)
  else
    let '(b, l) := touchDecisionOutput (purgeExpired b now) ref now in
    let '(l, r) := appendLog l seq payload limits in
    (putDecisionOutput b ref l, r).
(** The page [(state, events)] from the cursor [from]. *)
Definition ReadDecisionOutput (b : MemoryBackend) (ctxDone : bool) (ref : str) (from now : Z)
    : MemoryBackend * result BackendError (DecisionOutputState * list str) :=
  if ctxDone then (b, Err ErrContext)
  else
    let b := purgeExpired b now in
    match decisionOutputs b !! ref with
    | None => (b, Ok (zeroDecisionOutputState, []))
    | Some l =>
        let from := if from <? 0 then 0 else from in
        (b, Ok (logState l false false,
                drop (Z.to_nat (Z.min from (Z.of_nat (length (doEvents l))))) (doEvents l)))
    end.
Definition ClaimDecisionOutput (b : MemoryBackend) (ctxDone : bool) (ref : str) (now : Z)
    : MemoryBackend * result BackendError bool :=
  if ctxDone then (b, Err ErrContext)
  else
    let '(b, l) := touchDecisionOutput (purgeExpired b now) ref now in
    if doClaimed l then (b, Ok false)
    else (putDecisionOutput b ref
            (mkDecisionOutput (doEvents l) (doBytes l) (doDone l) (doFailed l) true), Ok true).
Definition ReleaseDecisionOutput (b : MemoryBackend) (ctxDone : bool) (ref : str)
    : MemoryBackend * result BackendError unit :=
  if ctxDone then (b, Err ErrContext)
  else match decisionOutputs b !! ref with
  | Some l => (putDecisionOutput b ref
                 (mkDecisionOutput [] 0 (doDone l) (doFailed l) (doClaimed l)), Ok tt)
  | None => (b, Ok tt)
  end.
End with_unicode.
