(* ===== verification/MemoryLiveQueue.v ===== *)
(** * Queue operations of the in-process backend

    Models [internal/agent/runtime/session/memory_live_queue.go]: the guards
    every queue operation of [MemoryBackend] makes (context, validation,
    closed backend, expiry, live run) around the transitions of [LiveQueue].
    A failed operation keeps the expiry it already did and nothing else. *)

From S2P Require Import Prelude GoStr LiveQueue RunState MemoryBackend.
#[local] Open Scope Z_scope.

Section with_unicode.
Context {U : Unicode}.
Implicit Types b : MemoryBackend.

Definition EnqueueSteer b (ctxDone : bool) (k : Key) (itemID invocationID payload : str) (now : Z)
    : MemoryBackend * result QueueError SteerItem :=
  if ctxDone then (b, Err ErrContextDone)
  else if negb (validateQueueKey k) || blank itemID || blank invocationID || is_empty payload
  then (b, Err ErrQueueInvalidReference)
  else if closed b then (b, Err ErrLiveQueueUnavailable)
  else
    let b := purgeLiveQueues b now in
    let state := steerQueue b k in
    match replaySteer state invocationID payload with
    | Some r => (b, r)
    | None =>
        let '(b, snapshot) := liveSnapshot b k now in
        match activeRun snapshot with
        | None => (b, Err ErrQueueNoActiveRun)
        | Some run =>
            if str_eqb (ClosedRunID state) (rvRunID run) then (b, Err ErrQueueNoActiveRun)
            else if negb (SteerRunAvailable (Some run)) then (b, Err ErrQueueSteerUnsupported)
            else match steer_enqueue state k itemID invocationID (rvRunID run) payload now with
            | Ok (state, item) => (putSteer b k state, Ok item)
            | Err e => (b, Err e)
            end
        end
    end.

Definition EnqueueFollowUp b (ctxDone : bool) (k : Key) (itemID invocationID payload : str) (now : Z)
    : MemoryBackend * result QueueError FollowUpItem :=
  if ctxDone then (b, Err ErrContextDone)
  else if negb (validateQueueKey k) || blank itemID || blank invocationID || negb (validatePayload payload)
  then (b, Err ErrQueueInvalidReference)
  else if closed b then (b, Err ErrLiveQueueUnavailable)
  else
    let b := purgeLiveQueues b now in
    let state := followUpQueue b k in
    match replayFollowUp state invocationID payload with
    | Some r => (b, r)
    | None =>
        let '(b, snapshot) := liveSnapshot b k now in
        match activeRun snapshot with
        | None => (b, Err ErrQueueNoActiveRun)
        | Some run =>
            match followUp_enqueue state k itemID invocationID (rvRunID run) payload now with
            | Ok (state, item) => (putFollowUp b k state, Ok item)
            | Err e => (b, Err e)
            end
        end
    end.

Definition PendingQueues b (ctxDone : bool) (k : Key) (limit now : Z)
    : MemoryBackend * result QueueError (list SteerItem * list FollowUpItem) :=
  if ctxDone then (b, Err ErrContextDone)
  else if negb (validateQueueKey k) then (b, Err ErrQueueInvalidReference)
  else if closed b then (b, Err ErrLiveQueueUnavailable)
  else
    let b := purgeLiveQueues b now in
    (b, Ok (pendingSteers (steerQueue b k) limit, pendingFollowUps (followUpQueue b k) limit)).

Definition ReorderSteer b (ctxDone : bool) (k : Key) (item before : str) (now : Z)
    : MemoryBackend * result QueueError (list SteerItem) :=
  if ctxDone then (b, Err ErrContextDone)
  else if closed b then (b, Err ErrLiveQueueUnavailable)
  else
    let b := purgeLiveQueues b now in
    if negb (validateQueueKey k) then (b, Err ErrQueueInvalidReference)
    else match reorderSteerState (steerQueue b k) item before with
    | Err e => (b, Err e)
    | Ok (state, items) => (putSteer b k (sWith state (sItems state) now), Ok items)
    end.
Definition ReorderFollowUp b (ctxDone : bool) (k : Key) (item before : str) (now : Z)
    : MemoryBackend * result QueueError (list FollowUpItem) :=
  if ctxDone then (b, Err ErrContextDone)
  else if closed b then (b, Err ErrLiveQueueUnavailable)
  else
    let b := purgeLiveQueues b now in
    if negb (validateQueueKey k) then (b, Err ErrQueueInvalidReference)
    else match reorderFollowUpState (followUpQueue b k) item before with
    | Err e => (b, Err e)
    | Ok (state, items) => (putFollowUp b k (fWith state (fItems state) now), Ok items)
    end.

Definition UpdateSteer b (ctxDone : bool) (k : Key) (itemID payload : str) (now : Z)
    : MemoryBackend * result QueueError SteerItem :=
  if ctxDone then (b, Err ErrContextDone)
  else if closed b then (b, Err ErrLiveQueueUnavailable)
  else if negb (validateQueueKey k) || is_empty itemID || negb (validatePayload payload)
  then (b, Err ErrQueueInvalidReference)
  else match steer_edit (steerQueue b k) itemID payload now with
  | Ok (state, item) => (putSteer b k state, Ok item)
  | Err e => (b, Err e)
  end.
Definition UpdateFollowUp b (ctxDone : bool) (k : Key) (itemID payload : str) (now : Z)
    : MemoryBackend * result QueueError FollowUpItem :=
  if ctxDone then (b, Err ErrContextDone)
  else if closed b then (b, Err ErrLiveQueueUnavailable)
  else if negb (validateQueueKey k) || is_empty itemID || negb (validatePayload payload)
  then (b, Err ErrQueueInvalidReference)
  else match followUp_edit (followUpQueue b k) itemID payload now with
  | Ok (state, item) => (putFollowUp b k state, Ok item)
  | Err e => (b, Err e)
  end.

Definition CancelSteer b (ctxDone : bool) (k : Key) (itemID : str) (now : Z)
    : MemoryBackend * result QueueError unit :=
  if ctxDone then (b, Err ErrContextDone)
  else if closed b then (b, Err ErrLiveQueueUnavailable)
  else if negb (validateQueueKey k) || is_empty itemID then (b, Err ErrQueueInvalidReference)
  else match steer_cancel (steerQueue b k) itemID now with
  | Ok state => (putSteer b k state, Ok tt)
  | Err e => (b, Err e)
  end.
Definition CancelFollowUp b (ctxDone : bool) (k : Key) (itemID : str) (now : Z)
    : MemoryBackend * result QueueError unit :=
  if ctxDone then (b, Err ErrContextDone)
  else if closed b then (b, Err ErrLiveQueueUnavailable)
  else if negb (validateQueueKey k) || is_empty itemID then (b, Err ErrQueueInvalidReference)
  else match followUp_cancel (followUpQueue b k) itemID now with
  | Ok state => (putFollowUp b k state, Ok tt)
  | Err e => (b, Err e)
  end.

Definition CloseSteerRun b (ctxDone : bool) (k : Key) (runID : str) (now : Z)
    : MemoryBackend * result QueueError unit :=
  if ctxDone then (b, Err ErrContextDone)
  else
    let runID := trim_space runID in
    if negb (validateQueueKey k) || is_empty runID then (b, Err ErrQueueInvalidReference)
    else if closed b then (b, Err ErrLiveQueueUnavailable)
    else match steerQueues b !! key_string k with
    | None => (b, Ok tt)
    | Some state =>
        let '(state, changed) := closeSteerRun state runID now in
        if changed then (putSteer b k (steer_compact state), Ok tt) else (b, Ok tt)
    end.

(** The promoted follow-up and the steer it became. *)
Definition PromoteFollowUpToSteer b (ctxDone : bool) (k : Key) (followUpID newID : str) (now : Z)
    : MemoryBackend * result QueueError (str * SteerItem) :=
  if ctxDone then (b, Err ErrContextDone)
  else if closed b then (b, Err ErrLiveQueueUnavailable)
  else if negb (validateQueueKey k) || is_empty followUpID then (b, Err ErrQueueInvalidReference)
  else
    let '(b, snapshot) := liveSnapshot b k now in
    let steers := steerQueue b k in
    match activeRun snapshot with
    | None => (b, Err ErrQueueNoActiveRun)
    | Some run =>
        if str_eqb (ClosedRunID steers) (rvRunID run) then (b, Err ErrQueueNoActiveRun)
        else if negb (SteerRunAvailable (Some run)) then (b, Err ErrQueueSteerUnsupported)
        else match promote steers (followUpQueue b k) k (rvRunID run) followUpID now newID with
        | Ok (steers, follows, item) => (putFollowUp (putSteer b k steers) k follows, Ok (followUpID, item))
        | Err e => (b, Err e)
        end
    end.

Definition ClaimNextSteer b (ctxDone : bool) (handle : RunHandle) (sealIfEmpty : bool) (now : Z) (token : str)
    : MemoryBackend * result QueueError (option (SteerItem * SteerClaimRef)) :=
  if ctxDone then (b, Err ErrContextDone)
  else
    let handle := handle_normalized handle in
    if negb (handle_valid handle) || is_empty (hOwnerID handle) || (hFencingToken handle <=? 0)
    then (b, Err ErrQueueInvalidReference)
    else if closed b then (b, Err ErrLiveQueueUnavailable)
    else
      let '(b, snapshot) := liveSnapshot b (handle_key handle) now in
      match snapshot with
      | None => (b, Err ErrRunOwnershipLost)
      | Some snapshot =>
          let run := snCurrentRunView snapshot in
          if negb (runMatchesHandle run handle) || negb (runViewOwnedBy run (hOwnerID handle)) ||
             negb (snapshotActive snapshot)
          then (b, Err ErrRunOwnershipLost)
          else if negb (SteerRunAvailable run) then (b, Err ErrQueueSteerUnsupported)
          else
            let '(state, claimed) :=
              steer_claimNext (steerQueue b (handle_key handle)) handle sealIfEmpty now token in
            (putSteer b (handle_key handle) state, Ok claimed)
      end.

(** The live run still matches the claim: the guard of [ApplySteer] and
    [ReleaseSteer], followed by the transition [f]. *)
Definition withSteerClaim b (ctxDone : bool) (k : Key) (ref : SteerClaimRef) (now : Z)
    (f : steerQueueState -> result QueueError steerQueueState) : MemoryBackend * result QueueError unit :=
  if ctxDone then (b, Err ErrContextDone)
  else if closed b then (b, Err ErrLiveQueueUnavailable)
  else if negb (validateSteerClaim k ref) then (b, Err ErrQueueInvalidReference)
  else
    let '(b, snapshot) := liveSnapshot b k now in
    match snapshot with
    | None => (b, Err ErrRunOwnershipLost)
    | Some snapshot =>
        if negb (runMatchesSteerClaim (snCurrentRunView snapshot) ref) then (b, Err ErrRunOwnershipLost)
        else match f (steerQueue b k) with
        | Ok state => (putSteer b k state, Ok tt)
        | Err e => (b, Err e)
        end
    end.
Definition ApplySteer b (ctxDone : bool) (k : Key) (ref : SteerClaimRef) (now1 now2 : Z) :=
  withSteerClaim b ctxDone k ref now1 (fun state => steer_apply state ref now2).
Definition ReleaseSteer b (ctxDone : bool) (k : Key) (ref : SteerClaimRef) (now1 now2 : Z) :=
  withSteerClaim b ctxDone k ref now1 (fun state => steer_release state ref now2).

Definition ClaimNextFollowUp b (ctxDone : bool) (k : Key) (triggerRunID : str) (now : Z) (token : str)
    : MemoryBackend * result QueueError (option (FollowUpItem * FollowUpClaimRef)) :=
  if ctxDone then (b, Err ErrContextDone)
  else
    let triggerRunID := trim_space triggerRunID in
    if is_empty triggerRunID then (b, Err ErrQueueInvalidReference)
    else if closed b then (b, Err ErrLiveQueueUnavailable)
    else if negb (validateQueueKey k) then (b, Err ErrQueueInvalidReference)
    else
      let '(state, claimed) := followUp_claimNext (followUpQueue b k) triggerRunID now token in
      (putFollowUp b k state, Ok claimed).

Definition withFollowUpClaim b (ctxDone : bool) (k : Key) (ref : FollowUpClaimRef)
    (f : followUpQueueState -> result QueueError followUpQueueState)
    : MemoryBackend * result QueueError unit :=
  if ctxDone then (b, Err ErrContextDone)
  else if closed b then (b, Err ErrLiveQueueUnavailable)
  else if negb (validateFollowUpClaim k ref) then (b, Err ErrQueueInvalidReference)
  else match f (followUpQueue b k) with
  | Ok state => (putFollowUp b k state, Ok tt)
  | Err e => (b, Err e)
  end.
Definition ApplyFollowUp b (ctxDone : bool) (k : Key) (ref : FollowUpClaimRef) (now : Z) :=
  withFollowUpClaim b ctxDone k ref (fun state => followUp_apply state ref now).
Definition ReleaseFollowUp b (ctxDone : bool) (k : Key) (ref : FollowUpClaimRef) (now : Z) :=
  withFollowUpClaim b ctxDone k ref (fun state => followUp_release state ref now).
Definition RejectFollowUp b (ctxDone : bool) (k : Key) (ref : FollowUpClaimRef) (errorCode : str) (now : Z) :=
  withFollowUpClaim b ctxDone k ref
    (fun state => if blank errorCode then Err ErrQueueInvalidReference
                  else followUp_reject state ref errorCode now).
End with_unicode.
