(* ===== verification/QueueInvariants.v ===== *)
(** * Invariants of the two queue documents

    What every steer document and every follow-up document a backend can
    reach satisfies, and that each transition of [LiveQueue] preserves it. *)

From S2P Require Import Prelude GoStr LiveQueue.
#[local] Open Scope Z_scope.

(** ** The steer document *)
Definition steerLive (i : SteerItem) : bool := sAccepted i || sClaimed i.
Definition steerTerminal (i : SteerItem) : bool := terminal (sStatus i).

(** One item: accepted items have no claim, a claimed one is claimed for the
    run it targets, under its own identifier. *)
Definition steer_item_wf (i : SteerItem) : Prop :=
  match sStatus i with
  | QueueAccepted => sClaim i = None
  | QueueClaimed => exists c, sClaim i = Some c /\ scItemID c = sID i /\ scRunID c = sTargetRunID i
  | _ => True
  end.

Record steer_core (s : steerQueueState) : Prop := mkSteerCore {
  swf_ids : NoDup (sID <$> sItems s);
  swf_items : Forall steer_item_wf (sItems s);
  swf_claims : forall runID, (countb (claimedBy runID) (sItems s) <= 1)%nat;
  swf_closed : ClosedRunID s <> [] ->
    Forall (fun i => steerLive i = true -> sTargetRunID i <> ClosedRunID s) (sItems s);
  swf_promoted : forall f id, PromotedFollowUpItems s !! f = Some id -> id ∈ sID <$> sItems s }.

(** The invariant adds the bound on terminal items, which holds again once the
    document is compacted. *)
Definition steer_wf (s : steerQueueState) : Prop :=
  steer_core s /\ (countb steerTerminal (sItems s) <= queueTerminalRetention)%nat.

Lemma zero_steer_wf : steer_wf zeroSteerQueue.
Proof.
  split; [|unfold countb; simpl; lia].
  split; simpl; [constructor|constructor|intros; unfold countb; simpl; lia|constructor|].
  intros f id H. by rewrite lookup_empty in H.
Qed.

(** ** Replacing one item *)
Lemma fmap_insert_same {A B} (f : A -> B) (l : list A) n x y :
  l !! n = Some x -> f y = f x -> f <$> <[n := y]> l = f <$> l.
Proof.
  intros Hn Hf. rewrite list_fmap_insert. apply list_insert_id. rewrite list_lookup_fmap, Hn; simpl. by rewrite Hf.
Qed.
Lemma is_status_true st s : is_status st s = true <-> s = st.
Proof. unfold is_status. apply bool_decide_eq_true. Qed.
Lemma sAccepted_true i : sAccepted i = true <-> sStatus i = QueueAccepted.
Proof. apply is_status_true. Qed.
Lemma sClaimed_true i : sClaimed i = true <-> sStatus i = QueueClaimed.
Proof. apply is_status_true. Qed.
Lemma fAccepted_true i : fAccepted i = true <-> fStatus i = QueueAccepted.
Proof. apply is_status_true. Qed.
Lemma fClaimed_true i : fClaimed i = true <-> fStatus i = QueueClaimed.
Proof. apply is_status_true. Qed.
Ltac status_hyps :=
  str_hyps;
  repeat match goal with
  | H : sAccepted _ = true |- _ => apply sAccepted_true in H
  | H : sClaimed _ = true |- _ => apply sClaimed_true in H
  | H : fAccepted _ = true |- _ => apply fAccepted_true in H
  | H : fClaimed _ = true |- _ => apply fClaimed_true in H
  end.

Lemma claimedBy_true r i :
  claimedBy r i = true <-> sStatus i = QueueClaimed /\ exists c, sClaim i = Some c /\ scRunID c = r.
Proof.
  unfold claimedBy. rewrite andb_true_iff, sClaimed_true.
  destruct (sClaim i) as [c|].
  - rewrite str_eqb_true. split; [intros [? ?]; eauto|intros (? & ? & [= <-] & ?); done].
  - split; [by intros []|by intros (? & ? & ? & ?)].
Qed.
Lemma steerLive_true i : steerLive i = true <-> sStatus i = QueueAccepted \/ sStatus i = QueueClaimed.
Proof. unfold steerLive. by rewrite orb_true_iff, sAccepted_true, sClaimed_true. Qed.

(** The transition of one item a document update makes: the identity and the
    target stay, a terminal item stays as it is, and a claim is only new when
    the run holds no other claim. *)
Lemma steer_core_replace s n x y now :
  steer_core s -> sItems s !! n = Some x ->
  sID y = sID x -> sTargetRunID y = sTargetRunID x -> steer_item_wf y ->
  (steerLive y = true -> steerLive x = true) ->
  (forall r, claimedBy r y = true -> claimedBy r x = true \/ countb (claimedBy r) (sItems s) = 0%nat) ->
  steer_core (sWith s (<[n := y]> (sItems s)) now).
Proof.
  intros [H1 H2 H3 H4 H6] Hn Hid Htgt Hwf Hlive Hcl. split; simpl.
  - by rewrite (fmap_insert_same _ _ _ x).
  - by apply Forall_insert.
  - intros r. pose proof (countb_insert (claimedBy r) _ _ _ y Hn) as Hc.
    specialize (H3 r). specialize (Hcl r).
    destruct (claimedBy r y) eqn:Hy, (claimedBy r x) eqn:Hx; try lia.
  - intros Hne. apply Forall_insert; [by apply H4|]. intros Hy. rewrite Htgt.
    specialize (H4 Hne). rewrite Forall_forall in H4.
    apply H4; [by eapply list_elem_of_lookup_2|by apply Hlive].
  - intros f id Hf. rewrite (fmap_insert_same _ _ _ x) by done. by eapply H6.
Qed.
(** When the item stays in its terminal class the whole invariant is kept. *)
Lemma steer_terminals_replace s n x y now :
  sItems s !! n = Some x -> steerTerminal y = steerTerminal x ->
  countb steerTerminal (sItems (sWith s (<[n := y]> (sItems s)) now)) = countb steerTerminal (sItems s).
Proof.
  intros Hn Ht. simpl. pose proof (countb_insert steerTerminal _ _ _ y Hn) as Hc. rewrite Ht in Hc. lia.
Qed.

Lemma dTerminal_steer : dTerminal describeSteer = steerTerminal.
Proof. done. Qed.
Lemma steerLive_not_terminal i : steerLive i = negb (steerTerminal i).
Proof. unfold steerLive, steerTerminal, sAccepted, sClaimed, is_status. by destruct (sStatus i). Qed.

(** Compaction restores the bound and keeps the rest. *)
Lemma steer_compact_wf s : steer_core s -> steer_wf (steer_compact s).
Proof.
  intros [H1 H2 H3 H4 H6].
  pose proof (compact_sublist describeSteer (sItems s)) as Hsub.
  split; [split|]; simpl.
  - eapply sublist_NoDup; [exact H1|]. by apply sublist_fmap.
  - by eapply sublist_forall.
  - intros r. etrans; [by apply countb_sublist|done].
  - intros Hne. eapply sublist_forall; [done|by apply H4].
  - intros f id Hf. by apply map_lookup_filter_Some in Hf as [_ ?].
  - rewrite <- dTerminal_steer, compact_terminal_count. lia.
Qed.

(** ** Each transition of the steer document *)
Lemma countb_app_one {A} (p : A -> bool) l x :
  countb p (l ++ [x]) = (countb p l + (if p x then 1 else 0))%nat.
Proof. rewrite countb_app, countb_cons. unfold countb; simpl. lia. Qed.

(** A new accepted item at the end. *)
Lemma steer_append_wf s item promoted closed now :
  steer_wf s -> sID item ∉ sID <$> sItems s -> sStatus item = QueueAccepted -> sClaim item = None ->
  (closed = [] \/ closed = ClosedRunID s) -> (closed <> [] -> sTargetRunID item <> closed) ->
  (forall f id, promoted !! f = Some id -> PromotedFollowUpItems s !! f = Some id \/ id = sID item) ->
  steer_wf (mkSteerQueue (sItems s ++ [item]) promoted closed now).
Proof.
  intros [[H1 H2 H3 H4 H6] H5] Hid Hst Hcl Hclosed Htgt Hpr. split; [split|]; simpl.
  - rewrite fmap_app; csimpl. apply NoDup_app. split; [done|]. split; [|apply NoDup_singleton].
    intros id Hin ->%list_elem_of_singleton. done.
  - apply Forall_app. split; [done|]. constructor; [|constructor]. unfold steer_item_wf. by rewrite Hst.
  - intros r. rewrite countb_app_one. unfold claimedBy at 2, sClaimed, is_status.
    rewrite Hst, bool_decide_false by done. simpl. specialize (H3 r). lia.
  - intros Hne. apply Forall_app. split; [|constructor; [|constructor]; intros _; by apply Htgt].
    destruct Hclosed as [-> | ->]; [done|by apply H4].
  - intros f id Hf. rewrite fmap_app; csimpl. apply elem_of_app.
    destruct (Hpr f id Hf) as [?| ->]; [left; by eapply H6|right; by apply list_elem_of_singleton].
  - rewrite countb_app_one. unfold steerTerminal at 2. rewrite Hst; simpl. lia.
Qed.

Lemma steer_enqueue_wf s k itemID invocationID runID payload now s' item :
  steer_wf s -> itemID ∉ sID <$> sItems s -> ClosedRunID s <> runID ->
  steer_enqueue s k itemID invocationID runID payload now = Ok (s', item) -> steer_wf s'.
Proof.
  unfold steer_enqueue. intros Hwf Hid Hrun. case_if; [done|]. intros [= <- <-].
  apply steer_append_wf; try done; simpl.
  - case_if; auto.
  - destruct (ClosedRunID s) as [|c r] eqn:E; simpl; [done|].
    destruct (str_eqb (c :: r) runID) eqn:Er; str_hyps; [done|simpl; done].
  - auto.
Qed.

Lemma best_index_accepted {A} (ok : A -> bool) key (l : list A) n i :
  best_index ok key l = Some (n, i) -> l !! n = Some i /\ ok i = true.
Proof. intros H. by apply best_index_Some in H as (? & ? & _). Qed.

Lemma holds_true ref i :
  steer_holds ref i = true <-> sID i = scItemID ref /\ sStatus i = QueueClaimed /\ sClaim i = Some ref.
Proof.
  unfold steer_holds. rewrite !andb_true_iff, str_eqb_true, sClaimed_true, bool_decide_eq_true. tauto.
Qed.
Lemma followUp_holds_true ref i :
  followUp_holds ref i = true <-> fID i = fcItemID ref /\ fStatus i = QueueClaimed /\ fClaim i = Some ref.
Proof.
  unfold followUp_holds. rewrite !andb_true_iff, str_eqb_true, fClaimed_true, bool_decide_eq_true. tauto.
Qed.

Lemma steer_item_of s n x : steer_core s -> sItems s !! n = Some x -> steer_item_wf x.
Proof.
  intros [_ H _ _ _] Hn. rewrite Forall_forall in H. apply H. by eapply list_elem_of_lookup_2.
Qed.

(** A claim that is advanced to a new owner keeps its item and run. *)
Lemma advance_claim_spec i h i' adv :
  steer_item_wf i -> claimedBy (hRunID h) i = true -> advanceSteerClaim i h = (i', adv) ->
  sID i' = sID i /\ sTargetRunID i' = sTargetRunID i /\ sStatus i' = QueueClaimed /\
  exists c, sClaim i' = Some c /\ scItemID c = sID i /\ scRunID c = sTargetRunID i /\
    scRunID c = hRunID h /\ scOwnerID c = hOwnerID h /\ scGeneration c = hGeneration h /\
    scFencingToken c = hFencingToken h.
Proof.
  unfold steer_item_wf. intros Hwf [Hst (c & Hc & Hr)]%claimedBy_true. rewrite Hst in Hwf.
  destruct Hwf as (c' & Hc' & Hid & Ht). rewrite Hc in Hc'. invc Hc'.
  unfold advanceSteerClaim. rewrite Hc. unfold sClaimed, is_status.
  rewrite Hst, bool_decide_true, Hr, str_eqb_refl by done. simpl.
  destruct (_ && _ && _) eqn:E; intros [= <- <-]; simpl.
  - str_hyps. split_and!; try done. exists c'. split_and!; try done; lia.
  - split_and!; try done. eexists. split; [done|]. split_and!; simpl; congruence.
Qed.

Lemma claim_claims_run r i : sStatus i = QueueClaimed ->
  claimedBy r i = true <-> exists c, sClaim i = Some c /\ scRunID c = r.
Proof. intros H. rewrite claimedBy_true. tauto. Qed.

Lemma claimable_true r i :
  claimable r i = true <-> sStatus i = QueueAccepted /\ sTargetRunID i = r.
Proof. unfold claimable. by rewrite andb_true_iff, sAccepted_true, str_eqb_true. Qed.

Lemma steerTerminal_live i : steerLive i = true -> steerTerminal i = false.
Proof. rewrite steerLive_not_terminal. by intros ?%negb_true_iff. Qed.
Lemma steer_live_status i : sStatus i = QueueAccepted \/ sStatus i = QueueClaimed -> steerTerminal i = false.
Proof. intros H. by apply steerTerminal_live, steerLive_true. Qed.

(** A live item replaced by a live item keeps the invariant. *)
Lemma steer_wf_replace_live s n x y now :
  steer_wf s -> sItems s !! n = Some x -> steerLive x = true -> steerLive y = true ->
  sID y = sID x -> sTargetRunID y = sTargetRunID x -> steer_item_wf y ->
  (forall r, claimedBy r y = true -> claimedBy r x = true \/ countb (claimedBy r) (sItems s) = 0%nat) ->
  steer_wf (sWith s (<[n := y]> (sItems s)) now).
Proof.
  intros [Hc Ht] Hn Hx Hy Hid Htgt Hwf Hcl. split; [by eapply steer_core_replace|].
  rewrite (steer_terminals_replace s n x y now); [done|done|].
  by rewrite !steerTerminal_live.
Qed.

Lemma steer_claimNext_wf s h seal now token s' r :
  steer_wf s -> hRunID h <> [] -> steer_claimNext s h seal now token = (s', r) -> steer_wf s'.
Proof.
  intros Hwf Hrun. unfold steer_claimNext.
  destruct (find_idx (claimedBy (hRunID h)) (sItems s)) as [[n i]|] eqn:E.
  - apply find_idx_Some in E as [Hn Hcl].
    destruct (advanceSteerClaim i h) as [i' adv] eqn:Ea. intros [= <- <-].
    pose proof (steer_item_of _ _ _ (proj1 Hwf) Hn) as Hi.
    destruct (advance_claim_spec _ _ _ _ Hi Hcl Ea) as (Hid & Ht & Hst & c & Hc & Hcid & Hcr & Hch & _).
    pose proof Hcl as [Hsi _]%claimedBy_true.
    eapply steer_wf_replace_live; try done.
    + apply steerLive_true; auto.
    + apply steerLive_true; auto.
    + unfold steer_item_wf. rewrite Hst. exists c. by rewrite Hid, Ht.
    + intros r' (c' & Hc' & Hr')%claim_claims_run; [|done]. left.
      rewrite Hc in Hc'. invc Hc'. congruence.
  - apply find_idx_None in E.
    destruct (best_index (claimable (hRunID h)) sPosition (sItems s)) as [[n i]|] eqn:Eb.
    + apply best_index_accepted in Eb as [Hn [Hst Ht]%claimable_true]. intros [= <- <-].
      eapply steer_wf_replace_live; try done.
      * apply steerLive_true; auto.
      * by eexists.
      * intros r' (c' & [= <-] & Hr')%claim_claims_run; [|done]. right.
        apply countb_forall. by rewrite <- Hr'.
    + apply best_index_None in Eb. intros [= <- <-]. case_if; [|done].
      destruct Hwf as [Hcore Hterm]. pose proof Hcore as [H1 H2 H3 H4 H6].
      split; [split|]; simpl; try done. intros _.
      apply Forall_forall. intros i Hi Hlive Ht.
      rewrite Forall_forall in E, Eb, H2. specialize (E i Hi). specialize (Eb i Hi). specialize (H2 i Hi).
      apply steerLive_true in Hlive as [Hst|Hst].
      * assert (claimable (hRunID h) i = true) by (by apply claimable_true). congruence.
      * unfold steer_item_wf in H2. rewrite Hst in H2. destruct H2 as (c & Hc & _ & Hr).
        assert (claimedBy (hRunID h) i = true); [|congruence].
        apply claimedBy_true. split; [done|]. exists c. split; congruence.
Qed.

(** A claimed item that turns terminal, an accepted one that is canceled: the
    steps that end in a compaction. *)
Lemma steer_core_terminate s n x y now :
  steer_core s -> sItems s !! n = Some x -> sID y = sID x -> sTargetRunID y = sTargetRunID x ->
  steerTerminal y = true -> steer_core (sWith s (<[n := y]> (sItems s)) now).
Proof.
  intros Hc Hn Hid Ht Hy. eapply steer_core_replace; try done.
  - unfold steer_item_wf. unfold steerTerminal in Hy. by destruct (sStatus y).
  - rewrite steerLive_not_terminal, Hy. done.
  - intros r [Hst _]%claimedBy_true. unfold steerTerminal in Hy. by rewrite Hst in Hy.
Qed.
Lemma steer_apply_wf s ref now s' : steer_core s -> steer_apply s ref now = Ok s' -> steer_wf s'.
Proof.
  unfold steer_apply. intros Hc. destruct (find_idx _ _) as [[n i]|] eqn:E; [|done].
  apply find_idx_Some in E as [Hn _]. intros [= <-].
  apply steer_compact_wf. by eapply steer_core_terminate.
Qed.
Lemma steer_cancel_wf s id now s' : steer_core s -> steer_cancel s id now = Ok s' -> steer_wf s'.
Proof.
  unfold steer_cancel. intros Hc. destruct (find_idx _ _) as [[n i]|] eqn:E; [|done].
  apply find_idx_Some in E as [Hn _]. intros [= <-].
  apply steer_compact_wf. by eapply steer_core_terminate.
Qed.
Lemma steer_release_wf s ref now s' : steer_wf s -> steer_release s ref now = Ok s' -> steer_wf s'.
Proof.
  unfold steer_release. intros Hwf. destruct (find_idx _ _) as [[n i]|] eqn:E; [|done].
  apply find_idx_Some in E as [Hn (_ & Hst & _)%holds_true]. intros [= <-].
  eapply steer_wf_replace_live; try done.
  - apply steerLive_true; auto.
Qed.
Lemma steer_pending_true id i : steer_pending id i = true <-> sID i = id /\ sStatus i = QueueAccepted.
Proof. unfold steer_pending. by rewrite andb_true_iff, str_eqb_true, sAccepted_true. Qed.
Lemma followUp_pending_true id i : followUp_pending id i = true <-> fID i = id /\ fStatus i = QueueAccepted.
Proof. unfold followUp_pending. by rewrite andb_true_iff, str_eqb_true, fAccepted_true. Qed.
Lemma steer_edit_wf s id p now s' i : steer_wf s -> steer_edit s id p now = Ok (s', i) -> steer_wf s'.
Proof.
  unfold steer_edit. intros Hwf. destruct (find_idx _ _) as [[n x]|] eqn:E; [|done].
  apply find_idx_Some in E as [Hn [_ Hst]%steer_pending_true]. intros [= <- <-].
  eapply steer_wf_replace_live; try done.
  - apply steerLive_true; auto.
  - apply steerLive_true; auto.
  - exact (steer_item_of _ _ _ (proj1 Hwf) Hn).
  - intros r [? _]%claimedBy_true. simpl in *. congruence.
Qed.

(** Updates that leave the place of every item in the protocol alone. *)
Definition same_place (x y : SteerItem) : Prop :=
  sID y = sID x /\ sTargetRunID y = sTargetRunID x /\ sStatus y = sStatus x /\ sClaim y = sClaim x.
Lemma steer_core_same_place s items now :
  steer_core s -> Forall2 same_place (sItems s) items -> steer_core (sWith s items now).
Proof.
  intros [H1 H2 H3 H4 H6] HF.
  assert (Hids : sID <$> items = sID <$> sItems s).
  { apply Forall2_fmap_eq. eapply Forall2_impl; [exact HF|]. by intros x y (? & _). }
  split; simpl.
  - by rewrite Hids.
  - eapply Forall2_transfer; [|exact HF|exact H2]. unfold steer_item_wf.
    intros x y (-> & -> & -> & ->). done.
  - intros r. rewrite (Forall2_countb _ (sItems s)); [done|].
    eapply Forall2_impl; [exact HF|]. intros x y (_ & _ & Hst & Hc).
    unfold claimedBy, sClaimed. by rewrite Hst, Hc.
  - intros Hne. eapply Forall2_transfer; [|exact HF|exact (H4 Hne)].
    intros x y (_ & -> & Hst & _). unfold steerLive, sAccepted, sClaimed. by rewrite Hst.
  - intros f id Hf. rewrite Hids. by eapply H6.
Qed.
Lemma steer_terminals_same_place s items :
  Forall2 same_place s items -> countb steerTerminal items = countb steerTerminal s.
Proof.
  intros HF. apply Forall2_countb. eapply Forall2_impl; [exact HF|].
  intros x y (_ & _ & Hst & _). unfold steerTerminal. by rewrite Hst.
Qed.
Lemma refSteer_set x n : refSteer (sSetPosition x n) = ((refSteer x).1, n).
Proof. done. Qed.
Lemma refFollowUp_set x n : refFollowUp (fSetPosition x n) = ((refFollowUp x).1, n).
Proof. done. Qed.
Lemma steer_reorder_wf s item before s' l now :
  steer_wf s -> reorderSteerState s item before = Ok (s', l) -> steer_wf (sWith s' (sItems s') now).
Proof.
  unfold reorderSteerState. intros [Hc Ht].
  destruct (reorderQueuePositions _ _ _ _ _) as [items|] eqn:E; [|done]. intros [= <- <-]; simpl.
  destruct (reorder_Ok refSteer sSetPosition refSteer_set _ _ _ _ E) as (_ & _ & Hlen & Hitems).
  assert (HF : Forall2 same_place (sItems s) items).
  { apply Forall2_same_length_lookup_2; [done|]. intros i x y Hx Hy. specialize (Hitems i x Hx).
    case_if; [destruct Hitems as [n Hn]|]; simplify_eq; by split_and!. }
  split; [exact (steer_core_same_place s items now Hc HF)|]. simpl.
  by rewrite (steer_terminals_same_place _ _ HF).
Qed.

Lemma closes_true r i : closes r i = true <-> sTargetRunID i = r /\ steerLive i = true.
Proof. unfold closes, steerLive. by rewrite andb_true_iff, str_eqb_true. Qed.
Lemma closeItem_cases r i :
  (closes r i = true /\ sID (closeItem r i) = sID i /\ sTargetRunID (closeItem r i) = sTargetRunID i /\
   sStatus (closeItem r i) = QueueRejected) \/ (closes r i = false /\ closeItem r i = i).
Proof. unfold closeItem. destruct (closes r i); [left|right]; done. Qed.
Lemma steer_close_wf s runID now s' ch :
  steer_wf s -> closeSteerRun s runID now = (s', ch) -> steer_wf (steer_compact s').
Proof.
  unfold closeSteerRun. intros [[H1 H2 H3 H4 H6] _] [= <- <-]. apply steer_compact_wf.
  assert (Hids : sID <$> (closeItem runID <$> sItems s) = sID <$> sItems s).
  { rewrite <- list_fmap_compose. apply list_fmap_ext. intros _ i _; simpl.
    by destruct (closeItem_cases runID i) as [(_ & ? & _)|[_ ->]]. }
  split; simpl.
  - by rewrite Hids.
  - apply Forall_fmap. eapply Forall_impl; [exact H2|]. intros i Hi. simpl.
    destruct (closeItem_cases runID i) as [(_ & _ & _ & Hst)|[_ ->]]; [|done].
    unfold steer_item_wf. by rewrite Hst.
  - intros r. etrans; [|exact (H3 r)]. clear. induction (sItems s) as [|i l IH]; csimpl; [done|].
    rewrite !countb_cons. destruct (closeItem_cases runID i) as [(_ & _ & _ & Hst)|[_ ->]]; [|lia].
    destruct (claimedBy r (closeItem runID i)) eqn:Hc; [|lia].
    apply claimedBy_true in Hc as [? _]. congruence.
  - intros _. apply Forall_fmap, Forall_forall. intros i _. simpl.
    destruct (closeItem_cases runID i) as [(_ & _ & _ & Hst)|[Hc ->]].
    + intros [?|?]%steerLive_true; congruence.
    + intros Hlive Ht. apply not_true_iff_false in Hc. by apply Hc, closes_true.
  - intros f id Hf. rewrite Hids. by eapply H6.
Qed.

Lemma steer_promote_wf s f k runID fid now newID s' f' i :
  steer_wf s -> newID ∉ sID <$> sItems s -> ClosedRunID s <> runID ->
  promote s f k runID fid now newID = Ok (s', f', i) -> steer_wf s'.
Proof.
  intros Hwf Hid Hrun. unfold promote. case_if.
  - destruct (find_idx _ _) as [[n x]|]; [|done]. by intros [= <- <- <-].
  - destruct (find_idx (followUp_pending fid) _) as [[n x]|]; [|done]. case_if; [done|].
    intros [= <- <- <-]. apply steer_append_wf; try done; simpl; auto.
    intros g id [[-> <-]|[_ ?]]%lookup_insert_Some; auto.
Qed.

(** ** The follow-up document *)
Definition followUpTerminal (i : FollowUpItem) : bool := terminal (fStatus i).

(** A claimed follow-up is the one its trigger run is recorded for. *)
Definition followUp_item_wf (claims : gmap str str) (i : FollowUpItem) : Prop :=
  fID i <> [] /\
  match fStatus i with
  | QueueAccepted => fClaim i = None
  | QueueClaimed => exists c, fClaim i = Some c /\ fcItemID c = fID i /\
                              claims !! fcTriggerRunID c = Some (fID i)
  | _ => True
  end.
Record followUp_core (s : followUpQueueState) : Prop := mkFollowUpCore {
  fwf_ids : NoDup (fID <$> fItems s);
  fwf_items : Forall (followUp_item_wf (TerminalClaims s)) (fItems s) }.
Definition followUp_wf (s : followUpQueueState) : Prop :=
  followUp_core s /\ (countb followUpTerminal (fItems s) <= queueTerminalRetention)%nat.

Lemma zero_followUp_wf : followUp_wf zeroFollowUpQueue.
Proof. split; [split; constructor|unfold countb; simpl; lia]. Qed.

Lemma NoDup_fmap_lookup {A B} (f : A -> B) l i j x y :
  NoDup (f <$> l) -> l !! i = Some x -> l !! j = Some y -> f x = f y -> i = j.
Proof.
  intros Hnd Hi Hj Hf. eapply (NoDup_lookup (f <$> l)); [done| |];
    rewrite list_lookup_fmap; [by rewrite Hi|]. rewrite Hj; simpl. by rewrite Hf.
Qed.

(** Replacing one item, when the claims the other claimed items rely on are
    kept. *)
Lemma followUp_core_replace s n x y claims now :
  followUp_core s -> fItems s !! n = Some x -> fID y = fID x -> followUp_item_wf claims y ->
  (forall t id, TerminalClaims s !! t = Some id -> id <> fID x -> id ∈ fID <$> fItems s ->
     claims !! t = Some id) ->
  followUp_core (mkFollowUpQueue (<[n := y]> (fItems s)) claims now).
Proof.
  intros [H1 H2] Hn Hid Hwf Hcl. split; simpl; [by rewrite (fmap_insert_same _ _ _ x)|].
  apply Forall_lookup. intros j z. destruct (decide (n = j)) as [<-|Hne].
  - rewrite list_lookup_insert_eq by (by eapply lookup_lt_Some). by intros [= <-].
  - rewrite list_lookup_insert_ne by done. intros Hz.
    rewrite Forall_lookup in H2. specialize (H2 j z Hz). unfold followUp_item_wf in *.
    destruct H2 as [Hz0 Hz1]. split; [done|]. destruct (fStatus z); try done.
    destruct Hz1 as (c & Hc & Hci & Ht). exists c. split_and!; try done.
    apply Hcl; [done| |by eapply list_elem_of_fmap_2, list_elem_of_lookup_2].
    intros Heq. apply Hne. by eapply (NoDup_fmap_lookup fID).
Qed.
Lemma followUp_terminals_replace s n x y claims now :
  fItems s !! n = Some x -> followUpTerminal y = followUpTerminal x ->
  countb followUpTerminal (fItems (mkFollowUpQueue (<[n := y]> (fItems s)) claims now)) =
  countb followUpTerminal (fItems s).
Proof.
  intros Hn Ht. simpl. pose proof (countb_insert followUpTerminal _ _ _ y Hn) as Hc. rewrite Ht in Hc. lia.
Qed.
Lemma followUp_compact_wf s : followUp_core s -> followUp_wf (followUp_compact s).
Proof.
  intros [H1 H2]. pose proof (compact_sublist describeFollowUp (fItems s)) as Hsub.
  split; [split|]; simpl.
  - eapply sublist_NoDup; [exact H1|]. by apply sublist_fmap.
  - assert (HF : Forall (followUp_item_wf (TerminalClaims s)) (compactQueueItems describeFollowUp (fItems s)))
      by (by eapply sublist_forall).
    case_if; [done|]. rewrite !Forall_forall in *. intros i Hi. specialize (HF i Hi).
    unfold followUp_item_wf in *. destruct HF as [? HF]. split; [done|].
    destruct (fStatus i); try done. destruct HF as (c & ? & ? & ?). exists c. split_and!; try done.
    apply map_lookup_filter_Some. split; [done|]. simpl. by apply list_elem_of_fmap_2.
  - change (countb followUpTerminal) with (countb (dTerminal describeFollowUp)).
    rewrite compact_terminal_count. lia.
Qed.
Lemma followUp_item_of s n x : followUp_core s -> fItems s !! n = Some x -> followUp_item_wf (TerminalClaims s) x.
Proof. intros [_ H] Hn. rewrite Forall_lookup in H. by eapply H. Qed.

Lemma followUp_enqueue_wf s k itemID invocationID runID payload now s' item :
  followUp_wf s -> itemID ∉ fID <$> fItems s -> itemID <> [] ->
  followUp_enqueue s k itemID invocationID runID payload now = Ok (s', item) -> followUp_wf s'.
Proof.
  unfold followUp_enqueue. intros [[H1 H2] Ht] Hid Hne. case_if; [done|]. intros [= <- <-].
  split; [split|]; simpl.
  - rewrite fmap_app; csimpl. apply NoDup_app. split; [done|]. split; [|apply NoDup_singleton].
    intros id Hin ->%list_elem_of_singleton. done.
  - apply Forall_app. split; [done|]. by constructor.
  - rewrite countb_app_one. simpl. lia.
Qed.
Lemma followUp_claimNext_wf s t now token s' r :
  followUp_wf s -> followUp_claimNext s t now token = (s', r) -> followUp_wf s'.
Proof.
  unfold followUp_claimNext. intros [Hc Ht]. case_if.
  - destruct (find_idx _ _) as [[n i]|]; by intros [= <- <-].
  - str_hyps. destruct (best_index _ _ _) as [[n i]|] eqn:E; [|by intros [= <- <-]].
    apply best_index_accepted in E as [Hn Hst%fAccepted_true]. intros [= <- <-].
    pose proof (followUp_item_of _ _ _ Hc Hn) as [Hne _].
    split; [eapply (followUp_core_replace s n i); try done|].
    + split; [done|]. simpl. eexists. split_and!; try done; simpl. apply lookup_insert_eq.
    + intros t' id Hid Hx Hin. rewrite lookup_insert_ne; [done|]. intros <-.
      rewrite Hid in Heqb. simpl in Heqb. subst id.
      apply list_elem_of_fmap in Hin as (z & Hz & [j Hj]%list_elem_of_lookup).
      by destruct (followUp_item_of _ _ _ Hc Hj) as [[] _].
    + rewrite (followUp_terminals_replace s n i); try done. unfold followUpTerminal. by rewrite Hst.
Qed.
(** The holder of a claim gives it back or ends it. *)
Lemma followUp_holds_trigger s n i ref :
  followUp_core s -> fItems s !! n = Some i -> followUp_holds ref i = true ->
  TerminalClaims s !! fcTriggerRunID ref = Some (fID i).
Proof.
  intros Hc Hn (_ & Hst & Hcl)%followUp_holds_true. destruct (followUp_item_of _ _ _ Hc Hn) as [_ Hi].
  rewrite Hst in Hi. destruct Hi as (c & Hc' & _ & Ht). rewrite Hcl in Hc'. by simplify_eq.
Qed.
Lemma followUp_delete_claims s n i ref t id :
  followUp_core s -> fItems s !! n = Some i -> followUp_holds ref i = true ->
  TerminalClaims s !! t = Some id -> id <> fID i ->
  delete (fcTriggerRunID ref) (TerminalClaims s) !! t = Some id.
Proof.
  intros Hc Hn Hh Ht Hne. rewrite lookup_delete_ne; [done|]. intros <-.
  rewrite (followUp_holds_trigger _ _ _ _ Hc Hn Hh) in Ht. congruence.
Qed.
Lemma followUp_apply_wf s ref now s' : followUp_core s -> followUp_apply s ref now = Ok s' -> followUp_wf s'.
Proof.
  unfold followUp_apply. intros Hc. destruct (find_idx _ _) as [[n i]|] eqn:E; [|done].
  apply find_idx_Some in E as [Hn _]. intros [= <-].
  apply followUp_compact_wf. eapply (followUp_core_replace s n i); try done.
  split; [|done]. by destruct (followUp_item_of _ _ _ Hc Hn).
Qed.
Lemma followUp_cancel_wf s id now s' : followUp_core s -> followUp_cancel s id now = Ok s' -> followUp_wf s'.
Proof.
  unfold followUp_cancel. intros Hc. destruct (find_idx _ _) as [[n i]|] eqn:E; [|done].
  apply find_idx_Some in E as [Hn _]. intros [= <-].
  apply followUp_compact_wf. eapply (followUp_core_replace s n i); try done.
  split; [|done]. by destruct (followUp_item_of _ _ _ Hc Hn).
Qed.
Lemma followUp_reject_wf s ref e now s' : followUp_core s -> followUp_reject s ref e now = Ok s' -> followUp_wf s'.
Proof.
  unfold followUp_reject. intros Hc. destruct (find_idx _ _) as [[n i]|] eqn:E; [|done].
  apply find_idx_Some in E as [Hn Hh]. intros [= <-].
  apply followUp_compact_wf. eapply (followUp_core_replace s n i); try done.
  - split; [|done]. by destruct (followUp_item_of _ _ _ Hc Hn).
  - intros t id Ht Hne _. by eapply followUp_delete_claims.
Qed.
Lemma followUp_release_wf s ref now s' : followUp_wf s -> followUp_release s ref now = Ok s' -> followUp_wf s'.
Proof.
  unfold followUp_release. intros [Hc Ht]. destruct (find_idx _ _) as [[n i]|] eqn:E; [|done].
  apply find_idx_Some in E as [Hn Hh]. intros [= <-].
  split; [eapply (followUp_core_replace s n i); try done|].
  - split; [|done]. by destruct (followUp_item_of _ _ _ Hc Hn).
  - intros t id Hid Hne _. by eapply followUp_delete_claims.
  - apply followUp_holds_true in Hh as (_ & Hst & _).
    rewrite (followUp_terminals_replace s n i); try done. unfold followUpTerminal. by rewrite Hst.
Qed.
Lemma followUp_edit_wf s id p now s' i : followUp_wf s -> followUp_edit s id p now = Ok (s', i) -> followUp_wf s'.
Proof.
  unfold followUp_edit. intros [Hc Ht]. destruct (find_idx _ _) as [[n x]|] eqn:E; [|done].
  apply find_idx_Some in E as [Hn _]. intros [= <- <-].
  split; [eapply (followUp_core_replace s n x); try done|].
  - exact (followUp_item_of _ _ _ Hc Hn).
  - unfold fWith. by rewrite (followUp_terminals_replace s n x).
Qed.
Lemma followUp_promote_wf s f k runID fid now newID s' f' i :
  followUp_wf f -> promote s f k runID fid now newID = Ok (s', f', i) -> followUp_wf f'.
Proof.
  intros [Hc Ht]. unfold promote. case_if.
  - destruct (find_idx _ _) as [[n x]|]; [|done]. by intros [= <- <- <-].
  - destruct (find_idx (followUp_pending fid) _) as [[n x]|] eqn:E; [|done]. case_if; [done|].
    apply find_idx_Some in E as [Hn _].
    intros [= <- <- <-]. apply followUp_compact_wf. eapply (followUp_core_replace f n x); try done.
    split; [|done]. by destruct (followUp_item_of _ _ _ Hc Hn).
Qed.
Definition same_followUp_place (x y : FollowUpItem) : Prop :=
  fID y = fID x /\ fStatus y = fStatus x /\ fClaim y = fClaim x.
Lemma followUp_reorder_wf s item before s' l now :
  followUp_wf s -> reorderFollowUpState s item before = Ok (s', l) -> followUp_wf (fWith s' (fItems s') now).
Proof.
  unfold reorderFollowUpState. intros [[H1 H2] Ht].
  destruct (reorderQueuePositions _ _ _ _ _) as [items|] eqn:E; [|done]. intros [= <- <-]; simpl.
  destruct (reorder_Ok refFollowUp fSetPosition refFollowUp_set _ _ _ _ E) as (_ & _ & Hlen & Hitems).
  assert (HF : Forall2 same_followUp_place (fItems s) items).
  { apply Forall2_same_length_lookup_2; [done|]. intros i x y Hx Hy. specialize (Hitems i x Hx).
    case_if; [destruct Hitems as [n Hn]|]; simplify_eq; by split_and!. }
  split; [split|]; simpl.
  - rewrite (Forall2_fmap_eq fID (fItems s)); [done|]. eapply Forall2_impl; [exact HF|]. by intros x y (? & _).
  - eapply Forall2_transfer; [|exact HF|exact H2]. unfold followUp_item_wf. by intros x y (-> & -> & ->).
  - rewrite (Forall2_countb _ (fItems s)); [done|]. eapply Forall2_impl; [exact HF|].
    intros x y (_ & Hst & _). unfold followUpTerminal. by rewrite Hst.
Qed.
