(* ===== verification/QueueProtocol.v ===== *)
(** * The queue protocol: any sequence of backend operations

    [op] lists every operation of the in-process backend with its arguments,
    [run_op] runs one, [step] adds what the callers guarantee (identifiers of
    new items come from [uuid.NewString], so none is used twice), and
    [reachable] is any sequence of steps from a new backend.  The backend is
    shown to refine two small transition systems on documents, [steer_trans]
    and [followUp_trans]; the invariants and the exactly-once theorems follow
    by rule induction on those. *)

From S2P Require Import Prelude GoStr LiveQueue RunState MemoryBackend MemoryDecisionOutput MemoryLiveQueue QueueInvariants.
From stdpp Require Import relations.
#[local] Open Scope Z_scope.

(** [MemoryBackend.Close] *)
Definition Close (b : MemoryBackend) : MemoryBackend :=
  mkMemoryBackend (stateTTL b) (nextCleanup b) (snapshots b) (snapshotExpiresAt b)
    (decisionOutputs b) (decisionOutputExpiresAt b) (historyResets b)
    (steerQueues b) (followUpQueues b) true.

Inductive op : Type :=
  | OpEnqueueSteer (ctxDone : bool) (k : Key) (itemID invocationID payload : str) (now : Z)
  | OpEnqueueFollowUp (ctxDone : bool) (k : Key) (itemID invocationID payload : str) (now : Z)
  | OpPendingQueues (ctxDone : bool) (k : Key) (limit now : Z)
  | OpReorderSteer (ctxDone : bool) (k : Key) (item before : str) (now : Z)
  | OpReorderFollowUp (ctxDone : bool) (k : Key) (item before : str) (now : Z)
  | OpUpdateSteer (ctxDone : bool) (k : Key) (itemID payload : str) (now : Z)
  | OpUpdateFollowUp (ctxDone : bool) (k : Key) (itemID payload : str) (now : Z)
  | OpCancelSteer (ctxDone : bool) (k : Key) (itemID : str) (now : Z)
  | OpCancelFollowUp (ctxDone : bool) (k : Key) (itemID : str) (now : Z)
  | OpCloseSteerRun (ctxDone : bool) (k : Key) (runID : str) (now : Z)
  | OpPromote (ctxDone : bool) (k : Key) (followUpID newID : str) (now : Z)
  | OpClaimNextSteer (ctxDone : bool) (h : RunHandle) (sealIfEmpty : bool) (now : Z) (token : str)
  | OpApplySteer (ctxDone : bool) (k : Key) (ref : SteerClaimRef) (now1 now2 : Z)
  | OpReleaseSteer (ctxDone : bool) (k : Key) (ref : SteerClaimRef) (now1 now2 : Z)
  | OpClaimNextFollowUp (ctxDone : bool) (k : Key) (triggerRunID : str) (now : Z) (token : str)
  | OpApplyFollowUp (ctxDone : bool) (k : Key) (ref : FollowUpClaimRef) (now : Z)
  | OpReleaseFollowUp (ctxDone : bool) (k : Key) (ref : FollowUpClaimRef) (now : Z)
  | OpRejectFollowUp (ctxDone : bool) (k : Key) (ref : FollowUpClaimRef) (errorCode : str) (now : Z)
  | OpLoad (ctxDone : bool) (k : Key) (now : Z)
  | OpUpdate (ctxDone : bool) (k : Key) (update : option SnapshotUpdate) (now : Z)
  | OpStartRun (ctxDone : bool) (k : Key) (update : option SnapshotUpdate) (now : Z)
  | OpAcquireHistoryReset (ctxDone : bool) (scope : ResetScope) (token : str) (ttl now : Z)
  | OpRenewHistoryReset (ctxDone : bool) (lease : ResetLease) (ttl now : Z)
  | OpReleaseHistoryReset (ctxDone : bool) (lease : ResetLease)
  | OpEffectiveHistoryReset (ctxDone : bool) (scope : ResetScope) (now : Z)
  | OpAppendDecisionOutput (ctxDone : bool) (ref : str) (seq : Z) (payload : option str)
      (limits : DecisionOutputLimits) (now : Z)
  | OpReadDecisionOutput (ctxDone : bool) (ref : str) (from now : Z)
  | OpClaimDecisionOutput (ctxDone : bool) (ref : str) (now : Z)
  | OpReleaseDecisionOutput (ctxDone : bool) (ref : str)
  | OpClose.

Section with_unicode.
Context {U : Unicode}.

Definition run_op (b : MemoryBackend) (o : op) : MemoryBackend :=
  match o with
  | OpEnqueueSteer c k i inv p now => (EnqueueSteer b c k i inv p now).1
  | OpEnqueueFollowUp c k i inv p now => (EnqueueFollowUp b c k i inv p now).1
  | OpPendingQueues c k limit now => (PendingQueues b c k limit now).1
  | OpReorderSteer c k i before now => (ReorderSteer b c k i before now).1
  | OpReorderFollowUp c k i before now => (ReorderFollowUp b c k i before now).1
  | OpUpdateSteer c k i p now => (UpdateSteer b c k i p now).1
  | OpUpdateFollowUp c k i p now => (UpdateFollowUp b c k i p now).1
  | OpCancelSteer c k i now => (CancelSteer b c k i now).1
  | OpCancelFollowUp c k i now => (CancelFollowUp b c k i now).1
  | OpCloseSteerRun c k r now => (CloseSteerRun b c k r now).1
  | OpPromote c k f i now => (PromoteFollowUpToSteer b c k f i now).1
  | OpClaimNextSteer c h seal now t => (ClaimNextSteer b c h seal now t).1
  | OpApplySteer c k ref n1 n2 => (ApplySteer b c k ref n1 n2).1
  | OpReleaseSteer c k ref n1 n2 => (ReleaseSteer b c k ref n1 n2).1
  | OpClaimNextFollowUp c k t now tok => (ClaimNextFollowUp b c k t now tok).1
  | OpApplyFollowUp c k ref now => (ApplyFollowUp b c k ref now).1
  | OpReleaseFollowUp c k ref now => (ReleaseFollowUp b c k ref now).1
  | OpRejectFollowUp c k ref e now => (RejectFollowUp b c k ref e now).1
  | OpLoad c k now => (Load b c k now).1
  | OpUpdate c k u now => (Update b c k u now).1
  | OpStartRun c k u now => (StartRunIfNoHistoryReset b c k u now).1
  | OpAcquireHistoryReset c s t ttl now => (AcquireHistoryReset b c s t ttl now).1
  | OpRenewHistoryReset c l ttl now => (RenewHistoryReset b c l ttl now).1
  | OpReleaseHistoryReset c l => (ReleaseHistoryReset b c l).1
  | OpEffectiveHistoryReset c s now => (EffectiveHistoryReset b c s now).1
  | OpAppendDecisionOutput c r s p l now => (AppendDecisionOutput b c r s p l now).1
  | OpReadDecisionOutput c r f now => (ReadDecisionOutput b c r f now).1
  | OpClaimDecisionOutput c r now => (ClaimDecisionOutput b c r now).1
  | OpReleaseDecisionOutput c r => (ReleaseDecisionOutput b c r).1
  | OpClose => Close b
  end.

(** The identifier an operation brings in for a new item. *)
Definition newItem (o : op) : option str :=
  match o with
  | OpEnqueueSteer _ _ i _ _ _ | OpEnqueueFollowUp _ _ i _ _ _ | OpPromote _ _ _ i _ => Some i
  | _ => None
  end.

(** A backend with the identifiers used so far. *)
Record config : Type := mkConfig { cBackend : MemoryBackend; cUsed : gset str }.
Definition initial (ttl : Z) : config := mkConfig (newMemoryBackend ttl) ∅.
Definition admissible (c : config) (o : op) : Prop :=
  match newItem o with Some i => i <> [] /\ i ∉ cUsed c | None => True end.
Definition next (c : config) (o : op) : config :=
  mkConfig (run_op (cBackend c) o) (match newItem o with Some i => {[i]} ∪ cUsed c | None => cUsed c end).
Inductive step (c : config) : config -> Prop :=
  | do_step o : admissible c o -> step c (next c o).
Definition reachable (c : config) : Prop := exists ttl, rtc step (initial ttl) c.

(** ** The documents as transition systems *)
Inductive steer_trans (new : option str) (s : steerQueueState) : steerQueueState -> Prop :=
  | st_enqueue k itemID invocationID runID payload now s' item :
      new = Some itemID -> ClosedRunID s <> runID ->
      steer_enqueue s k itemID invocationID runID payload now = Ok (s', item) -> steer_trans new s s'
  | st_claim h sealIfEmpty now token s' r :
      hRunID h <> [] -> steer_claimNext s h sealIfEmpty now token = (s', r) -> steer_trans new s s'
  | st_apply ref now s' : steer_apply s ref now = Ok s' -> steer_trans new s s'
  | st_release ref now s' : steer_release s ref now = Ok s' -> steer_trans new s s'
  | st_edit itemID payload now s' i : steer_edit s itemID payload now = Ok (s', i) -> steer_trans new s s'
  | st_cancel itemID now s' : steer_cancel s itemID now = Ok s' -> steer_trans new s s'
  | st_close runID now s' ch : closeSteerRun s runID now = (s', ch) -> steer_trans new s (steer_compact s')
  | st_promote f k runID followUpID now newID s' f' i :
      new = Some newID -> ClosedRunID s <> runID ->
      promote s f k runID followUpID now newID = Ok (s', f', i) -> steer_trans new s s'
  | st_reorder item before s' l now :
      reorderSteerState s item before = Ok (s', l) -> steer_trans new s (sWith s' (sItems s') now).

Inductive followUp_trans (new : option str) (s : followUpQueueState) : followUpQueueState -> Prop :=
  | ft_enqueue k itemID invocationID runID payload now s' item :
      new = Some itemID ->
      followUp_enqueue s k itemID invocationID runID payload now = Ok (s', item) -> followUp_trans new s s'
  | ft_claim t now token s' r : followUp_claimNext s t now token = (s', r) -> followUp_trans new s s'
  | ft_apply ref now s' : followUp_apply s ref now = Ok s' -> followUp_trans new s s'
  | ft_release ref now s' : followUp_release s ref now = Ok s' -> followUp_trans new s s'
  | ft_reject ref e now s' : followUp_reject s ref e now = Ok s' -> followUp_trans new s s'
  | ft_edit itemID payload now s' i : followUp_edit s itemID payload now = Ok (s', i) -> followUp_trans new s s'
  | ft_cancel itemID now s' : followUp_cancel s itemID now = Ok s' -> followUp_trans new s s'
  | ft_promote st k runID followUpID now newID st' s' i :
      promote st s k runID followUpID now newID = Ok (st', s', i) -> followUp_trans new s s'
  | ft_reorder item before s' l now :
      reorderFollowUpState s item before = Ok (s', l) -> followUp_trans new s (fWith s' (fItems s') now).

(** The documents of one map key. *)
Definition steerDoc (b : MemoryBackend) (key : str) : steerQueueState :=
  default zeroSteerQueue (steerQueues b !! key).
Definition followUpDoc (b : MemoryBackend) (key : str) : followUpQueueState :=
  default zeroFollowUpQueue (followUpQueues b !! key).
(** Expiry drops a document; an operation may expire documents and then makes
    at most one transition on each. *)
Definition expires (b b' : MemoryBackend) : Prop :=
  forall key, (steerDoc b' key = steerDoc b key \/ steerDoc b' key = zeroSteerQueue) /\
              (followUpDoc b' key = followUpDoc b key \/ followUpDoc b' key = zeroFollowUpQueue).
Definition refines (new : option str) (b b' : MemoryBackend) : Prop :=
  exists b0, expires b b0 /\
    forall key, (steerDoc b' key = steerDoc b0 key \/ steer_trans new (steerDoc b0 key) (steerDoc b' key)) /\
                (followUpDoc b' key = followUpDoc b0 key \/
                 followUp_trans new (followUpDoc b0 key) (followUpDoc b' key)).

(** ** The backend refines the documents' transitions *)
#[local] Instance expires_refl : Reflexive expires.
Proof using Type. intros b key. split; by left. Qed.
#[local] Instance expires_trans : Transitive expires.
Proof using Type.
  intros a b c H1 H2 key. destruct (H1 key) as [[E1|E1] [F1|F1]], (H2 key) as [[E2|E2] [F2|F2]];
    rewrite E2, F2, ?E1, ?F1; auto.
Qed.
Lemma expires_same b b' :
  steerQueues b' = steerQueues b -> followUpQueues b' = followUpQueues b -> expires b b'.
Proof using Type. intros Hs Hf key. unfold steerDoc, followUpDoc. rewrite Hs, Hf. split; by left. Qed.
Lemma refines_expires new b b' : expires b b' -> refines new b b'.
Proof using Type. intros H. exists b'. split; [done|]. intros key. split; by left. Qed.
Lemma refines_refl new b : refines new b b.
Proof using Type. by apply refines_expires. Qed.
Lemma refines_same new b b' :
  steerQueues b' = steerQueues b -> followUpQueues b' = followUpQueues b -> refines new b b'.
Proof using Type. intros. by apply refines_expires, expires_same. Qed.
Lemma refines_after new b b0 b' : expires b b0 -> refines new b0 b' -> refines new b b'.
Proof using Type. intros H (b1 & H1 & H2). exists b1. split; [by etrans|done]. Qed.

Lemma purgeExpired_queues b now :
  steerQueues (purgeExpired b now) = steerQueues b /\ followUpQueues (purgeExpired b now) = followUpQueues b.
Proof using Type. unfold purgeExpired. by case_if. Qed.
Lemma expires_purgeExpired b now : expires b (purgeExpired b now).
Proof using Type. by apply expires_same; apply purgeExpired_queues. Qed.
Lemma expires_purgeLiveQueues b now : expires b (purgeLiveQueues b now).
Proof using Type.
  intros key. unfold steerDoc, followUpDoc, purgeLiveQueues; simpl. split.
  - destruct (filter _ (steerQueues b) !! key) eqn:E; simpl; [|by right].
    apply map_lookup_filter_Some in E as [-> _]. by left.
  - destruct (filter _ (followUpQueues b) !! key) eqn:E; simpl; [|by right].
    apply map_lookup_filter_Some in E as [-> _]. by left.
Qed.
Lemma expires_purges b now1 now2 : expires b (purgeExpired (purgeLiveQueues b now1) now2).
Proof using Type. etrans; [apply expires_purgeLiveQueues|apply expires_purgeExpired]. Qed.

Lemma steerDoc_put b k s key :
  steerDoc (putSteer b k s) key = if decide (key_string k = key) then s else steerDoc b key.
Proof using Type.
  unfold steerDoc, putSteer; simpl. case_decide; [subst; by rewrite lookup_insert_eq|by rewrite lookup_insert_ne].
Qed.
Lemma followUpDoc_put b k s key :
  followUpDoc (putFollowUp b k s) key = if decide (key_string k = key) then s else followUpDoc b key.
Proof using Type.
  unfold followUpDoc, putFollowUp; simpl.
  case_decide; [subst; by rewrite lookup_insert_eq|by rewrite lookup_insert_ne].
Qed.
Lemma refines_putSteer new b k s :
  steer_trans new (steerQueue b k) s -> refines new b (putSteer b k s).
Proof using Type.
  intros Hs. exists b. split; [done|]. intros key. split; [|by left].
  rewrite steerDoc_put. case_decide as Hk; [right; by rewrite <- Hk|by left].
Qed.
Lemma refines_putFollowUp new b k s :
  followUp_trans new (followUpQueue b k) s -> refines new b (putFollowUp b k s).
Proof using Type.
  intros Hs. exists b. split; [done|]. intros key. split; [by left|].
  rewrite followUpDoc_put. case_decide as Hk; [right; by rewrite <- Hk|by left].
Qed.
Lemma refines_putBoth new b k s f :
  steer_trans new (steerQueue b k) s -> followUp_trans new (followUpQueue b k) f ->
  refines new b (putFollowUp (putSteer b k s) k f).
Proof using Type.
  intros Hs Hf. exists b. split; [done|]. intros key. rewrite followUpDoc_put.
  change (steerDoc (putFollowUp (putSteer b k s) k f) key) with (steerDoc (putSteer b k s) key).
  rewrite steerDoc_put. case_decide as Hk; [rewrite <- Hk; split; by right|split; by left].
Qed.

Lemma steerQueue_purgeExpired b now k : steerQueue (purgeExpired b now) k = steerQueue b k.
Proof using Type. unfold steerQueue. by rewrite (proj1 (purgeExpired_queues b now)). Qed.
Lemma followUpQueue_purgeExpired b now k : followUpQueue (purgeExpired b now) k = followUpQueue b k.
Proof using Type. unfold followUpQueue. by rewrite (proj2 (purgeExpired_queues b now)). Qed.

(** Guards that fail leave the queues alone. *)
Ltac guards :=
  repeat (case_if; [solve [apply refines_refl]|]).
Ltac purged :=
  apply refines_expires;
  first [ apply expires_purges | apply expires_purgeLiveQueues | apply expires_purgeExpired ].

Lemma EnqueueSteer_refines b c k i inv p now :
  refines (Some i) b (EnqueueSteer b c k i inv p now).1.
Proof using Type.
  unfold EnqueueSteer, liveSnapshot. guards.
  destruct (replaySteer _ _ _); [purged|].
  destruct (activeRun _) as [run|]; [|purged].
  destruct (str_eqb (ClosedRunID _) _) eqn:Hclosed; [purged|]. str_hyps.
  case_if; [purged|].
  destruct (steer_enqueue _ _ _ _ _ _ _) as [[s' item]|] eqn:E; [|purged]. simpl.
  eapply refines_after; [apply expires_purges|].
  apply refines_putSteer. rewrite steerQueue_purgeExpired. by eapply st_enqueue.
Qed.
Lemma EnqueueFollowUp_refines b c k i inv p now :
  refines (Some i) b (EnqueueFollowUp b c k i inv p now).1.
Proof using Type.
  unfold EnqueueFollowUp, liveSnapshot. guards.
  destruct (replayFollowUp _ _ _); [purged|].
  destruct (activeRun _) as [run|]; [|purged].
  destruct (followUp_enqueue _ _ _ _ _ _ _) as [[s' item]|] eqn:E; [|purged]. simpl.
  eapply refines_after; [apply expires_purges|].
  apply refines_putFollowUp. rewrite followUpQueue_purgeExpired. by eapply ft_enqueue.
Qed.
Lemma ReorderSteer_refines new b c k i before now : refines new b (ReorderSteer b c k i before now).1.
Proof using Type.
  unfold ReorderSteer. guards. case_if; [purged|].
  destruct (reorderSteerState _ _ _) as [[s' l]|] eqn:E; [|purged]. simpl.
  eapply refines_after; [apply expires_purgeLiveQueues|]. apply refines_putSteer. by eapply st_reorder.
Qed.
Lemma ReorderFollowUp_refines new b c k i before now : refines new b (ReorderFollowUp b c k i before now).1.
Proof using Type.
  unfold ReorderFollowUp. guards. case_if; [purged|].
  destruct (reorderFollowUpState _ _ _) as [[s' l]|] eqn:E; [|purged]. simpl.
  eapply refines_after; [apply expires_purgeLiveQueues|]. apply refines_putFollowUp. by eapply ft_reorder.
Qed.
Lemma UpdateSteer_refines new b c k i p now : refines new b (UpdateSteer b c k i p now).1.
Proof using Type.
  unfold UpdateSteer. guards. destruct (steer_edit _ _ _ _) as [[s' x]|] eqn:E; [|apply refines_refl].
  apply refines_putSteer. by eapply st_edit.
Qed.
Lemma UpdateFollowUp_refines new b c k i p now : refines new b (UpdateFollowUp b c k i p now).1.
Proof using Type.
  unfold UpdateFollowUp. guards. destruct (followUp_edit _ _ _ _) as [[s' x]|] eqn:E; [|apply refines_refl].
  apply refines_putFollowUp. by eapply ft_edit.
Qed.
Lemma CancelSteer_refines new b c k i now : refines new b (CancelSteer b c k i now).1.
Proof using Type.
  unfold CancelSteer. guards. destruct (steer_cancel _ _ _) as [s'|] eqn:E; [|apply refines_refl].
  apply refines_putSteer. by eapply st_cancel.
Qed.
Lemma CancelFollowUp_refines new b c k i now : refines new b (CancelFollowUp b c k i now).1.
Proof using Type.
  unfold CancelFollowUp. guards. destruct (followUp_cancel _ _ _) as [s'|] eqn:E; [|apply refines_refl].
  apply refines_putFollowUp. by eapply ft_cancel.
Qed.
Lemma CloseSteerRun_refines new b c k r now : refines new b (CloseSteerRun b c k r now).1.
Proof using Type.
  unfold CloseSteerRun. guards. destruct (steerQueues b !! key_string k) as [s|] eqn:E; [|apply refines_refl].
  destruct (closeSteerRun s _ now) as [s' ch] eqn:Ec. case_if; [|apply refines_refl].
  apply refines_putSteer. unfold steerQueue. rewrite E. by eapply st_close.
Qed.
Lemma Promote_refines b c k f i now : refines (Some i) b (PromoteFollowUpToSteer b c k f i now).1.
Proof using Type.
  unfold PromoteFollowUpToSteer, liveSnapshot. guards.
  destruct (activeRun _) as [run|]; [|purged].
  destruct (str_eqb (ClosedRunID _) _) eqn:Hclosed; [purged|]. str_hyps.
  case_if; [purged|].
  destruct (promote _ _ _ _ _ _ _) as [[[s' f'] item]|] eqn:E; [|purged]. simpl.
  eapply refines_after; [apply expires_purgeExpired|].
  apply refines_putBoth; [by eapply st_promote|by eapply ft_promote].
Qed.
Lemma handle_valid_run h : handle_valid h = true -> hRunID h <> [].
Proof using Type.
  unfold handle_valid. intros H Hr. simpl in H. rewrite Hr in H. str_hyps. done.
Qed.
Lemma ClaimNextSteer_refines new b c h seal now t : refines new b (ClaimNextSteer b c h seal now t).1.
Proof using Type.
  unfold ClaimNextSteer, liveSnapshot. case_if; [apply refines_refl|].
  destruct (handle_valid (handle_normalized h)) eqn:Hv; cbn [negb orb]; [|apply refines_refl]. guards.
  destruct (snapshots _ !! _) as [sn|]; [|purged]. case_if; [purged|]. case_if; [purged|].
  destruct (steer_claimNext _ _ _ _ _) as [s' r] eqn:E. simpl.
  eapply refines_after; [apply expires_purgeExpired|].
  apply refines_putSteer. eapply st_claim; [|done]. by apply handle_valid_run.
Qed.
Lemma withSteerClaim_refines new b c k ref now f :
  (forall s s', f s = Ok s' -> steer_trans new s s') -> refines new b (withSteerClaim b c k ref now f).1.
Proof using Type.
  intros Hf. unfold withSteerClaim, liveSnapshot. guards.
  destruct (snapshots _ !! _) as [sn|]; [|purged]. case_if; [purged|].
  destruct (f _) as [s'|] eqn:E; [|purged].
  eapply refines_after; [apply expires_purgeExpired|]. apply refines_putSteer. by apply Hf.
Qed.
Lemma ClaimNextFollowUp_refines new b c k t now tok : refines new b (ClaimNextFollowUp b c k t now tok).1.
Proof using Type.
  unfold ClaimNextFollowUp. guards. destruct (followUp_claimNext _ _ _ _) as [s' r] eqn:E.
  apply refines_putFollowUp. by eapply ft_claim.
Qed.
Lemma withFollowUpClaim_refines new b c k ref f :
  (forall s s', f s = Ok s' -> followUp_trans new s s') -> refines new b (withFollowUpClaim b c k ref f).1.
Proof using Type.
  intros Hf. unfold withFollowUpClaim. guards.
  destruct (f _) as [s'|] eqn:E; [|apply refines_refl]. apply refines_putFollowUp. by apply Hf.
Qed.

(** The operations on snapshots, leases and logs leave the queues alone. *)
Lemma runUpdate_queues b k u e now :
  steerQueues (runUpdate b k u e now).1 = steerQueues b /\
  followUpQueues (runUpdate b k u e now).1 = followUpQueues b.
Proof using Type. unfold runUpdate. by destruct (u _ _) as [[? []]|]. Qed.
Ltac same_queues :=
  repeat match goal with
  | |- refines _ _ (match ?x with _ => _ end).1 => destruct x; try apply refines_refl
  | |- refines _ _ (if ?x then _ else _).1 => destruct x; try apply refines_refl
  end; try by apply refines_same.
Lemma run_op_refines b o : refines (newItem o) b (run_op b o).
Proof using Type.
  destruct o; simpl.
  - apply EnqueueSteer_refines.
  - apply EnqueueFollowUp_refines.
  - unfold PendingQueues. guards. purged.
  - apply ReorderSteer_refines.
  - apply ReorderFollowUp_refines.
  - apply UpdateSteer_refines.
  - apply UpdateFollowUp_refines.
  - apply CancelSteer_refines.
  - apply CancelFollowUp_refines.
  - apply CloseSteerRun_refines.
  - apply Promote_refines.
  - apply ClaimNextSteer_refines.
  - apply withSteerClaim_refines. intros; by eapply st_apply.
  - apply withSteerClaim_refines. intros; by eapply st_release.
  - apply ClaimNextFollowUp_refines.
  - apply withFollowUpClaim_refines. intros; by eapply ft_apply.
  - apply withFollowUpClaim_refines. intros; by eapply ft_release.
  - apply withFollowUpClaim_refines. intros s s' Hs. case_if; [done|]. by eapply ft_reject.
  - unfold Load, liveSnapshot. guards. purged.
  - unfold Update. destruct update; [|apply refines_refl]. guards.
    eapply refines_after; [apply expires_purgeExpired|]. apply refines_same; apply runUpdate_queues.
  - unfold StartRunIfNoHistoryReset. destruct update; [|apply refines_refl]. guards.
    destruct (effectiveHistoryReset _ _); [by apply refines_same|].
    eapply refines_after; [|apply refines_same; apply runUpdate_queues].
    etrans; [|apply expires_purgeExpired]. by apply expires_same.
  - unfold AcquireHistoryReset. same_queues.
  - unfold RenewHistoryReset. same_queues.
  - unfold ReleaseHistoryReset. same_queues.
  - unfold EffectiveHistoryReset. same_queues.
  - unfold AppendDecisionOutput. guards.
    destruct (touchDecisionOutput _ _ _) as [b' l] eqn:E, (appendLog _ _ _ _) as [l' r].
    invc E. eapply refines_after; [apply expires_purgeExpired|by apply refines_same].
  - unfold ReadDecisionOutput. guards. destruct (decisionOutputs _ !! _); purged.
  - unfold ClaimDecisionOutput. guards. destruct (touchDecisionOutput _ _ _) as [b' l] eqn:E.
    invc E. eapply refines_after; [apply expires_purgeExpired|case_if; by apply refines_same].
  - unfold ReleaseDecisionOutput. same_queues.
  - by apply refines_same.
Qed.

(** ** Invariants of reachable states *)
Definition fresh_in (new : option str) (ids : list str) : Prop :=
  match new with Some id => id <> [] /\ id ∉ ids | None => True end.

Lemma steer_trans_wf new s s' :
  steer_trans new s s' -> fresh_in new (sID <$> sItems s) -> steer_wf s -> steer_wf s'.
Proof using Type.
  intros Ht Hf Hwf. destruct Ht; subst; simpl in Hf.
  - destruct Hf. by eapply steer_enqueue_wf.
  - by eapply steer_claimNext_wf.
  - eapply steer_apply_wf; [apply Hwf|done].
  - by eapply steer_release_wf.
  - by eapply steer_edit_wf.
  - eapply steer_cancel_wf; [apply Hwf|done].
  - by eapply steer_close_wf.
  - destruct Hf. by eapply steer_promote_wf.
  - by eapply steer_reorder_wf.
Qed.
Lemma followUp_trans_wf new s s' :
  followUp_trans new s s' -> fresh_in new (fID <$> fItems s) -> followUp_wf s -> followUp_wf s'.
Proof using Type.
  intros Ht Hf Hwf. destruct Ht; subst; simpl in Hf.
  - destruct Hf. by eapply followUp_enqueue_wf.
  - by eapply followUp_claimNext_wf.
  - eapply followUp_apply_wf; [apply Hwf|done].
  - by eapply followUp_release_wf.
  - eapply followUp_reject_wf; [apply Hwf|done].
  - by eapply followUp_edit_wf.
  - eapply followUp_cancel_wf; [apply Hwf|done].
  - by eapply followUp_promote_wf.
  - by eapply followUp_reorder_wf.
Qed.

(** ** The life of one item *)
(** The status machine of a steer and of a follow-up. *)
Definition steer_next (a b : QueueStatus) : bool :=
  match a, b with
  | QueueAccepted, (QueueAccepted | QueueClaimed | QueueCanceled | QueueRejected) => true
  | QueueClaimed, (QueueClaimed | QueueApplied | QueueAccepted | QueueRejected) => true
  | _, _ => false
  end.
Definition followUp_next (a b : QueueStatus) : bool :=
  match a, b with
  | QueueAccepted, (QueueAccepted | QueueClaimed | QueueCanceled) => true
  | QueueClaimed, (QueueClaimed | QueueApplied | QueueAccepted | QueueRejected) => true
  | _, _ => false
  end.
(** What a transition may do to one item: nothing, or a step of the status
    machine that keeps what the item is.  A terminal item never changes, and
    only an accepted one has its payload edited. *)
Definition steer_evolves (x y : SteerItem) : Prop :=
  y = x \/
  (sID y = sID x /\ sBotID y = sBotID x /\ sSessionID y = sSessionID x /\
   sTargetRunID y = sTargetRunID x /\ sInvocationID y = sInvocationID x /\ sCreatedAt y = sCreatedAt x /\
   steer_next (sStatus x) (sStatus y) = true /\
   (sPayload y = sPayload x \/ (sStatus x = QueueAccepted /\ sStatus y = QueueAccepted))).
Definition followUp_evolves (x y : FollowUpItem) : Prop :=
  y = x \/
  (fID y = fID x /\ fBotID y = fBotID x /\ fSessionID y = fSessionID x /\
   fEnqueuedDuringRunID y = fEnqueuedDuringRunID x /\ fInvocationID y = fInvocationID x /\
   fCreatedAt y = fCreatedAt x /\ followUp_next (fStatus x) (fStatus y) = true /\
   (fPayload y = fPayload x \/ (fStatus x = QueueAccepted /\ fStatus y = QueueAccepted))).
Definition steer_from (new : option str) (l : list SteerItem) (y : SteerItem) : Prop :=
  (exists x, x ∈ l /\ steer_evolves x y) \/ (new = Some (sID y) /\ sStatus y = QueueAccepted).
Definition followUp_from (new : option str) (l : list FollowUpItem) (y : FollowUpItem) : Prop :=
  (exists x, x ∈ l /\ followUp_evolves x y) \/ (new = Some (fID y) /\ fStatus y = QueueAccepted).

Lemma elem_of_insert_cases {A} (l : list A) n x y : y ∈ <[n := x]> l -> y = x \/ y ∈ l.
Proof using Type.
  intros [i Hi]%list_elem_of_lookup. destruct (decide (n = i)) as [<-|Hne].
  - destruct (decide (n < length l)%nat) as [Hlt|Hge].
    + rewrite list_lookup_insert_eq in Hi by done. left. by simplify_eq.
    + rewrite list_insert_ge in Hi by lia. right. by eapply list_elem_of_lookup_2.
  - rewrite list_lookup_insert_ne in Hi by done. right. by eapply list_elem_of_lookup_2.
Qed.
Lemma steer_from_insert new l n x z y :
  l !! n = Some x -> steer_evolves x z -> y ∈ <[n := z]> l -> steer_from new l y.
Proof using Type.
  intros Hn He [-> | Hy]%elem_of_insert_cases; left; [exists x|exists y]; split; try done.
  - by eapply list_elem_of_lookup_2.
  - by left.
Qed.
Lemma followUp_from_insert new l n x z y :
  l !! n = Some x -> followUp_evolves x z -> y ∈ <[n := z]> l -> followUp_from new l y.
Proof using Type.
  intros Hn He [-> | Hy]%elem_of_insert_cases; left; [exists x|exists y]; split; try done.
  - by eapply list_elem_of_lookup_2.
  - by left.
Qed.
Lemma steer_from_same new l y : y ∈ l -> steer_from new l y.
Proof using Type. intros H. left. exists y. split; [done|by left]. Qed.
Lemma followUp_from_same new l y : y ∈ l -> followUp_from new l y.
Proof using Type. intros H. left. exists y. split; [done|by left]. Qed.
Lemma elem_of_sublist {A} (l1 l2 : list A) x : l1 `sublist_of` l2 -> x ∈ l1 -> x ∈ l2.
Proof using Type. intros Hs Hx. eapply elem_of_submseteq; [done|by apply sublist_submseteq]. Qed.
Lemma steer_compact_items s y : y ∈ sItems (steer_compact s) -> y ∈ sItems s.
Proof using Type. apply elem_of_sublist, compact_sublist. Qed.
Lemma followUp_compact_items s y : y ∈ fItems (followUp_compact s) -> y ∈ fItems s.
Proof using Type. apply elem_of_sublist, compact_sublist. Qed.

Lemma steer_append_items new l (item y : SteerItem) :
  new = Some (sID item) -> sStatus item = QueueAccepted -> y ∈ l ++ [item] -> steer_from new l y.
Proof using Type.
  intros Hid Hst [Hy| ->%list_elem_of_singleton]%elem_of_app; [by apply steer_from_same|by right].
Qed.
Ltac evolve from Hn Hy Hst :=
  eapply from; [exact Hn| |exact Hy]; right; simpl; rewrite Hst; split_and!; auto.
Lemma steer_trans_items new s s' y :
  steer_trans new s s' -> y ∈ sItems s' -> steer_from new (sItems s) y.
Proof using Type.
  destruct 1 as [k id inv r p now s' item Hnew Hrun H|h seal now t s' r Hh H|ref now s' H|ref now s' H
    |id p now s' i H|id now s' H|r now s' ch H|f k r fid now id s' f' i Hnew Hrun H|item before s' l now H];
    intros Hy.
  - unfold steer_enqueue in H. case_if; [done|]. invc H. simpl in Hy. eapply steer_append_items; [| |exact Hy]; done.
  - unfold steer_claimNext in H. destruct (find_idx _ _) as [[n i]|] eqn:E.
    + apply find_idx_Some in E as [Hn [Hst _]%claimedBy_true].
      destruct (advanceSteerClaim i h) as [i' adv] eqn:Ea. invc H. simpl in Hy.
      eapply steer_from_insert; [exact Hn| |exact Hy].
      unfold advanceSteerClaim in Ea. destruct (sClaim i) as [c|]; [|invc Ea; by left].
      case_if; [invc Ea; by left|]. case_if; invc Ea; [by left|]. right. simpl. rewrite Hst.
      split_and!; auto.
    + destruct (best_index _ _ _) as [[n i]|] eqn:Eb.
      * apply best_index_accepted in Eb as [Hn [Hst _]%claimable_true]. invc H. simpl in Hy.
        evolve steer_from_insert Hn Hy Hst.
      * invc H. destruct seal; by apply steer_from_same.
  - unfold steer_apply in H. destruct (find_idx _ _) as [[n i]|] eqn:E; [|done].
    apply find_idx_Some in E as [Hn (_ & Hst & _)%holds_true]. invc H. apply steer_compact_items in Hy.
    evolve steer_from_insert Hn Hy Hst.
  - unfold steer_release in H. destruct (find_idx _ _) as [[n i]|] eqn:E; [|done].
    apply find_idx_Some in E as [Hn (_ & Hst & _)%holds_true]. invc H.
    evolve steer_from_insert Hn Hy Hst.
  - unfold steer_edit in H. destruct (find_idx _ _) as [[n x]|] eqn:E; [|done].
    apply find_idx_Some in E as [Hn [_ Hst]%steer_pending_true]. invc H.
    evolve steer_from_insert Hn Hy Hst.
  - unfold steer_cancel in H. destruct (find_idx _ _) as [[n i]|] eqn:E; [|done].
    apply find_idx_Some in E as [Hn [_ Hst]%steer_pending_true]. invc H. apply steer_compact_items in Hy.
    evolve steer_from_insert Hn Hy Hst.
  - apply steer_compact_items in Hy. invc H. simpl in Hy.
    apply list_elem_of_fmap in Hy as (x & -> & Hx). left. exists x. split; [done|].
    unfold closeItem. case_if; [|by left]. right. apply closes_true in Heqb as [_ Hl%steerLive_true].
    simpl. destruct Hl as [-> | ->]; split_and!; auto.
  - unfold promote in H. case_if.
    + destruct (find_idx _ _) as [[n x]|]; [|done]. invc H. by apply steer_from_same.
    + destruct (find_idx (followUp_pending fid) _) as [[n x]|]; [|done]. case_if; [done|]. invc H.
      simpl in Hy. eapply steer_append_items; [| |exact Hy]; done.
  - unfold reorderSteerState in H. destruct (reorderQueuePositions _ _ _ _ _) as [items|] eqn:E; [|done].
    invc H. simpl in Hy.
    destruct (reorder_items refSteer sSetPosition refSteer_set _ _ _ _ _ E Hy)
      as (x & Hx & [-> | [Ha%sAccepted_true [n ->]]]); [by apply steer_from_same|].
    left. exists x. split; [done|]. right. simpl. rewrite Ha. split_and!; auto.
Qed.
Lemma followUp_append_items new l (item y : FollowUpItem) :
  new = Some (fID item) -> fStatus item = QueueAccepted -> y ∈ l ++ [item] -> followUp_from new l y.
Proof using Type.
  intros Hid Hst [Hy| ->%list_elem_of_singleton]%elem_of_app; [by apply followUp_from_same|by right].
Qed.
Lemma followUp_trans_items new s s' y :
  followUp_trans new s s' -> y ∈ fItems s' -> followUp_from new (fItems s) y.
Proof using Type.
  destruct 1 as [k id inv r p now s' item Hnew H|t now tok s' r H|ref now s' H|ref now s' H|ref e now s' H
    |id p now s' i H|id now s' H|st k r fid now id st' s' i H|item before s' l now H]; intros Hy.
  - unfold followUp_enqueue in H. case_if; [done|]. invc H. simpl in Hy.
    eapply followUp_append_items; [| |exact Hy]; done.
  - unfold followUp_claimNext in H. case_if.
    { destruct (find_idx _ _) as [[n i]|]; invc H; by apply followUp_from_same. }
    destruct (best_index _ _ _) as [[n i]|] eqn:Eb; [|invc H; by apply followUp_from_same].
    apply best_index_accepted in Eb as [Hn Hst%fAccepted_true]. invc H. simpl in Hy.
    evolve followUp_from_insert Hn Hy Hst.
  - unfold followUp_apply in H. destruct (find_idx _ _) as [[n i]|] eqn:E; [|done].
    apply find_idx_Some in E as [Hn (_ & Hst & _)%followUp_holds_true]. invc H.
    apply followUp_compact_items in Hy. evolve followUp_from_insert Hn Hy Hst.
  - unfold followUp_release in H. destruct (find_idx _ _) as [[n i]|] eqn:E; [|done].
    apply find_idx_Some in E as [Hn (_ & Hst & _)%followUp_holds_true]. invc H.
    evolve followUp_from_insert Hn Hy Hst.
  - unfold followUp_reject in H. destruct (find_idx _ _) as [[n i]|] eqn:E; [|done].
    apply find_idx_Some in E as [Hn (_ & Hst & _)%followUp_holds_true]. invc H.
    apply followUp_compact_items in Hy. evolve followUp_from_insert Hn Hy Hst.
  - unfold followUp_edit in H. destruct (find_idx _ _) as [[n x]|] eqn:E; [|done].
    apply find_idx_Some in E as [Hn [_ Hst]%followUp_pending_true]. invc H.
    evolve followUp_from_insert Hn Hy Hst.
  - unfold followUp_cancel in H. destruct (find_idx _ _) as [[n i]|] eqn:E; [|done].
    apply find_idx_Some in E as [Hn [_ Hst]%followUp_pending_true]. invc H.
    apply followUp_compact_items in Hy. evolve followUp_from_insert Hn Hy Hst.
  - unfold promote in H. case_if.
    { destruct (find_idx _ _) as [[n x]|]; [|done]. invc H. by apply followUp_from_same. }
    destruct (find_idx (followUp_pending fid) _) as [[n x]|] eqn:E; [|done]. case_if; [done|]. invc H.
    apply find_idx_Some in E as [Hn [_ Hst]%followUp_pending_true].
    apply followUp_compact_items in Hy. evolve followUp_from_insert Hn Hy Hst.
  - unfold reorderFollowUpState in H. destruct (reorderQueuePositions _ _ _ _ _) as [items|] eqn:E; [|done].
    invc H. simpl in Hy.
    destruct (reorder_items refFollowUp fSetPosition refFollowUp_set _ _ _ _ _ E Hy)
      as (x & Hx & [-> | [Ha%fAccepted_true [n ->]]]); [by apply followUp_from_same|].
    left. exists x. split; [done|]. right. simpl. rewrite Ha. split_and!; auto.
Qed.

(** ** Reachable configurations *)
Record config_wf (c : config) : Prop := mkConfigWf {
  cwf_steer : forall key, steer_wf (steerDoc (cBackend c) key);
  cwf_followUp : forall key, followUp_wf (followUpDoc (cBackend c) key);
  cwf_sUsed : forall key y, y ∈ sItems (steerDoc (cBackend c) key) -> sID y ∈ cUsed c;
  cwf_fUsed : forall key y, y ∈ fItems (followUpDoc (cBackend c) key) -> fID y ∈ cUsed c }.

Lemma steerDoc_new ttl key : steerDoc (newMemoryBackend ttl) key = zeroSteerQueue.
Proof using Type. unfold steerDoc; simpl. by rewrite lookup_empty. Qed.
Lemma followUpDoc_new ttl key : followUpDoc (newMemoryBackend ttl) key = zeroFollowUpQueue.
Proof using Type. unfold followUpDoc; simpl. by rewrite lookup_empty. Qed.
Lemma initial_wf ttl : config_wf (initial ttl).
Proof using Type.
  split; intros key; simpl; rewrite ?steerDoc_new, ?followUpDoc_new; simpl.
  - apply zero_steer_wf.
  - apply zero_followUp_wf.
  - by intros y ?%not_elem_of_nil.
  - by intros y ?%not_elem_of_nil.
Qed.
Lemma steer_from_used (new : option str) (l : list SteerItem) (y : SteerItem) (used : gset str) :
  steer_from new l y -> (forall x, x ∈ l -> sID x ∈ used) ->
  sID y ∈ (match new with Some i => {[i]} ∪ used | None => used end).
Proof using Type.
  intros [(x & Hx & He)|[-> _]] Hl; [|set_solver].
  assert (sID y ∈ used); [|destruct new; set_solver].
  destruct He as [-> | (-> & _)]; by apply Hl.
Qed.
Lemma followUp_from_used (new : option str) (l : list FollowUpItem) (y : FollowUpItem) (used : gset str) :
  followUp_from new l y -> (forall x, x ∈ l -> fID x ∈ used) ->
  fID y ∈ (match new with Some i => {[i]} ∪ used | None => used end).
Proof using Type.
  intros [(x & Hx & He)|[-> _]] Hl; [|set_solver].
  assert (fID y ∈ used); [|destruct new; set_solver].
  destruct He as [-> | (-> & _)]; by apply Hl.
Qed.

(** One operation on one document: expiry, then at most one transition. *)
Lemma next_steerDoc c o key :
  exists s0, (s0 = steerDoc (cBackend c) key \/ s0 = zeroSteerQueue) /\
    (steerDoc (cBackend (next c o)) key = s0 \/ steer_trans (newItem o) s0 (steerDoc (cBackend (next c o)) key)).
Proof using Type.
  destruct (run_op_refines (cBackend c) o) as (b0 & He & Ht).
  exists (steerDoc b0 key). split; [apply He|apply Ht].
Qed.
Lemma next_followUpDoc c o key :
  exists s0, (s0 = followUpDoc (cBackend c) key \/ s0 = zeroFollowUpQueue) /\
    (followUpDoc (cBackend (next c o)) key = s0 \/
     followUp_trans (newItem o) s0 (followUpDoc (cBackend (next c o)) key)).
Proof using Type.
  destruct (run_op_refines (cBackend c) o) as (b0 & He & Ht).
  exists (followUpDoc b0 key). split; [apply He|apply Ht].
Qed.
Lemma next_steer_items c o key y :
  y ∈ sItems (steerDoc (cBackend (next c o)) key) ->
  steer_from (newItem o) (sItems (steerDoc (cBackend c) key)) y.
Proof using Type.
  intros Hy. destruct (next_steerDoc c o key) as (s0 & Hs0 & Hs).
  assert (steer_from (newItem o) (sItems s0) y) as H.
  { destruct Hs as [Heq|Ht]; [apply steer_from_same; by rewrite <- Heq|by eapply steer_trans_items]. }
  destruct Hs0 as [-> | ->]; [done|]. destruct H as [(x & Hx & _)|H]; [|by right].
  by apply not_elem_of_nil in Hx.
Qed.
Lemma next_followUp_items c o key y :
  y ∈ fItems (followUpDoc (cBackend (next c o)) key) ->
  followUp_from (newItem o) (fItems (followUpDoc (cBackend c) key)) y.
Proof using Type.
  intros Hy. destruct (next_followUpDoc c o key) as (s0 & Hs0 & Hs).
  assert (followUp_from (newItem o) (fItems s0) y) as H.
  { destruct Hs as [Heq|Ht]; [apply followUp_from_same; by rewrite <- Heq|by eapply followUp_trans_items]. }
  destruct Hs0 as [-> | ->]; [done|]. destruct H as [(x & Hx & _)|H]; [|by right].
  by apply not_elem_of_nil in Hx.
Qed.
Lemma admissible_fresh c o (ids : list str) :
  admissible c o -> (forall id, id ∈ ids -> id ∈ cUsed c) -> fresh_in (newItem o) ids.
Proof using Type.
  unfold admissible, fresh_in. destruct (newItem o) as [id|]; [|done]. intros [Hne Hu] Hids. split; [done|].
  intros Hin. by apply Hu, Hids.
Qed.
Lemma fresh_nil new c o : newItem o = new -> admissible c o -> fresh_in new [].
Proof using Type. intros <- H. eapply admissible_fresh; [done|]. intros id Hin. by apply not_elem_of_nil in Hin. Qed.

Lemma next_wf c o : config_wf c -> admissible c o -> config_wf (next c o).
Proof using Type.
  intros [H1 H2 H3 H4] Ha. split; intros key.
  - destruct (next_steerDoc c o key) as (s0 & Hs0 & Hs).
    assert (steer_wf s0) as Hwf by (destruct Hs0 as [-> | ->]; [apply H1|apply zero_steer_wf]).
    destruct Hs as [-> | Ht]; [done|]. eapply steer_trans_wf; [exact Ht| |done].
    destruct Hs0 as [-> | ->]; [|by eapply fresh_nil]. eapply admissible_fresh; [done|].
    intros id (y & -> & Hy)%list_elem_of_fmap. by eapply H3.
  - destruct (next_followUpDoc c o key) as (s0 & Hs0 & Hs).
    assert (followUp_wf s0) as Hwf by (destruct Hs0 as [-> | ->]; [apply H2|apply zero_followUp_wf]).
    destruct Hs as [-> | Ht]; [done|]. eapply followUp_trans_wf; [exact Ht| |done].
    destruct Hs0 as [-> | ->]; [|by eapply fresh_nil]. eapply admissible_fresh; [done|].
    intros id (y & -> & Hy)%list_elem_of_fmap. by eapply H4.
  - intros y Hy%next_steer_items. eapply steer_from_used; [exact Hy|apply H3].
  - intros y Hy%next_followUp_items. eapply followUp_from_used; [exact Hy|apply H4].
Qed.
Lemma reachable_wf c : reachable c -> config_wf c.
Proof using Type.
  intros [ttl H]. pose proof (initial_wf ttl) as Hwf. revert Hwf.
  induction H as [|c c' c'' [o Ho] _ IH]; [done|]. intros Hwf. by apply IH, next_wf.
Qed.

(** ** Settled items: applied, rejected, canceled or compacted away *)
Definition steerSettled (c : config) (key id : str) : Prop :=
  id ∈ cUsed c /\ Forall (fun y => sID y = id -> steerTerminal y = true) (sItems (steerDoc (cBackend c) key)).
Definition followUpSettled (c : config) (key id : str) : Prop :=
  id ∈ cUsed c /\
  Forall (fun y => fID y = id -> followUpTerminal y = true) (fItems (followUpDoc (cBackend c) key)).

Lemma used_next c o id : id ∈ cUsed c -> id ∈ cUsed (next c o).
Proof using Type. simpl. destruct (newItem o); set_solver. Qed.
Lemma new_not_used c o id : admissible c o -> newItem o = Some id -> id ∉ cUsed c.
Proof using Type. unfold admissible. intros H Hn. rewrite Hn in H. apply H. Qed.
Lemma steerSettled_step c c' key id : step c c' -> steerSettled c key id -> steerSettled c' key id.
Proof using Type.
  intros [o Ho] [Hu Hd]. split; [by apply used_next|]. apply Forall_forall. intros y Hy Hid.
  rewrite Forall_forall in Hd.
  apply next_steer_items in Hy as [(x & Hx & [-> | (Hxy & _ & _ & _ & _ & _ & Hst & _)])|[Hn _]].
  - by apply Hd.
  - specialize (Hd x Hx ltac:(congruence)). unfold steerTerminal in *. by destruct (sStatus x).
  - apply (new_not_used _ _ _ Ho) in Hn. congruence.
Qed.
Lemma followUpSettled_step c c' key id : step c c' -> followUpSettled c key id -> followUpSettled c' key id.
Proof using Type.
  intros [o Ho] [Hu Hd]. split; [by apply used_next|]. apply Forall_forall. intros y Hy Hid.
  rewrite Forall_forall in Hd.
  apply next_followUp_items in Hy as [(x & Hx & [-> | (Hxy & _ & _ & _ & _ & _ & Hst & _)])|[Hn _]].
  - by apply Hd.
  - specialize (Hd x Hx ltac:(congruence)). unfold followUpTerminal in *. by destruct (fStatus x).
  - apply (new_not_used _ _ _ Ho) in Hn. congruence.
Qed.
Lemma steerSettled_steps c c' key id : rtc step c c' -> steerSettled c key id -> steerSettled c' key id.
Proof using Type. induction 1; [done|]. intros. by apply IHrtc, (steerSettled_step x). Qed.
Lemma followUpSettled_steps c c' key id : rtc step c c' -> followUpSettled c key id -> followUpSettled c' key id.
Proof using Type. induction 1; [done|]. intros. by apply IHrtc, (followUpSettled_step x). Qed.
End with_unicode.
