(* ===== verification/QueueCorrect.v ===== *)
(** * Correctness of the live queue

    The properties of the queue protocol, for every sequence of backend
    operations, with concrete runs of the backend that exhibit them. *)

From S2P Require Import Prelude GoStr LiveQueue RunState MemoryBackend MemoryDecisionOutput MemoryLiveQueue QueueInvariants QueueProtocol.
From stdpp Require Import relations.
#[local] Open Scope Z_scope.

(** ** Concrete runs *)
Definition admissibleb (c : config) (o : op) : bool :=
  match newItem o with Some i => negb (is_empty i) && bool_decide (i ∉ cUsed c) | None => true end.
Fixpoint run {U : Unicode} (c : config) (ops : list op) : option config :=
  match ops with
  | [] => Some c
  | o :: r => if admissibleb c o then run (next c o) r else None
  end.
Lemma admissibleb_spec c o : admissibleb c o = true -> admissible c o.
Proof.
  unfold admissibleb, admissible. destruct (newItem o); [|done].
  intros H. str_hyps. done.
Qed.
Lemma run_steps {U : Unicode} c ops c' : run c ops = Some c' -> rtc step c c'.
Proof.
  revert c; induction ops as [|o ops IH]; intros c; simpl; [by intros [= ->]|].
  destruct (admissibleb c o) eqn:H; [|done]. intros Hr.
  eapply rtc_l; [|by apply IH]. constructor. by apply admissibleb_spec.
Qed.

Section theorems.
Context {U : Unicode}.

(** ** Settled items stay settled *)
Lemma steer_find_live s ref id :
  Forall (fun y => sID y = id -> steerTerminal y = true) (sItems s) -> scItemID ref = id ->
  find_idx (steer_holds ref) (sItems s) = None.
Proof using Type.
  intros Hd Hid. apply find_idx_None. eapply Forall_impl; [exact Hd|]. intros y Hy. simpl in Hy.
  apply not_true_iff_false. intros (Hyi & Hst & _)%holds_true.
  specialize (Hy ltac:(congruence)). unfold steerTerminal in Hy. by rewrite Hst in Hy.
Qed.
Lemma followUp_find_live s ref id :
  Forall (fun y => fID y = id -> followUpTerminal y = true) (fItems s) -> fcItemID ref = id ->
  find_idx (followUp_holds ref) (fItems s) = None.
Proof using Type.
  intros Hd Hid. apply find_idx_None. eapply Forall_impl; [exact Hd|]. intros y Hy. simpl in Hy.
  apply not_true_iff_false. intros (Hyi & Hst & _)%followUp_holds_true.
  specialize (Hy ltac:(congruence)). unfold followUpTerminal in Hy. by rewrite Hst in Hy.
Qed.
Lemma steerQueue_doc b k : steerQueue b k = steerDoc b (key_string k).
Proof using Type. done. Qed.
Lemma followUpQueue_doc b k : followUpQueue b k = followUpDoc b (key_string k).
Proof using Type. done. Qed.

(** The end of an item: one with a distinct identifier is replaced by a
    terminal one. *)
Lemma steer_terminate_settled l n (x y : SteerItem) :
  NoDup (sID <$> l) -> l !! n = Some x -> sID y = sID x -> steerTerminal y = true ->
  Forall (fun z => sID z = sID x -> steerTerminal z = true) (<[n := y]> l).
Proof using Type.
  intros Hnd Hn Hid Hy. apply Forall_lookup. intros j z. destruct (decide (n = j)) as [<- | Hne].
  - rewrite list_lookup_insert_eq by (by eapply lookup_lt_Some). by intros [= <-].
  - rewrite list_lookup_insert_ne by done. intros Hz Heq. exfalso. apply Hne.
    by eapply (NoDup_fmap_lookup sID).
Qed.
Lemma followUp_terminate_settled l n (x y : FollowUpItem) :
  NoDup (fID <$> l) -> l !! n = Some x -> fID y = fID x -> followUpTerminal y = true ->
  Forall (fun z => fID z = fID x -> followUpTerminal z = true) (<[n := y]> l).
Proof using Type.
  intros Hnd Hn Hid Hy. apply Forall_lookup. intros j z. destruct (decide (n = j)) as [<- | Hne].
  - rewrite list_lookup_insert_eq by (by eapply lookup_lt_Some). by intros [= <-].
  - rewrite list_lookup_insert_ne by done. intros Hz Heq. exfalso. apply Hne.
    by eapply (NoDup_fmap_lookup fID).
Qed.
Lemma steer_apply_settles s ref now s' :
  steer_wf s -> steer_apply s ref now = Ok s' ->
  (exists x, x ∈ sItems s /\ sID x = scItemID ref) /\
  Forall (fun z => sID z = scItemID ref -> steerTerminal z = true) (sItems s').
Proof using Type.
  intros [Hc _]. unfold steer_apply. destruct (find_idx _ _) as [[n x]|] eqn:E; [|done].
  apply find_idx_Some in E as [Hn (Hid & _)%holds_true]. intros [= <-]. split.
  - exists x. split; [by eapply list_elem_of_lookup_2|done].
  - eapply sublist_forall; [apply (compact_sublist describeSteer)|]. simpl. rewrite <- Hid.
    eapply steer_terminate_settled; [apply Hc|done|done|done].
Qed.
Lemma followUp_end_settles s s' ref now :
  followUp_wf s -> (followUp_apply s ref now = Ok s' \/ exists e, followUp_reject s ref e now = Ok s') ->
  (exists x, x ∈ fItems s /\ fID x = fcItemID ref) /\
  Forall (fun z => fID z = fcItemID ref -> followUpTerminal z = true) (fItems s').
Proof using Type.
  intros [Hc _]. unfold followUp_apply, followUp_reject.
  destruct (find_idx _ _) as [[n x]|] eqn:E; [|intros [?|[? ?]]; done].
  apply find_idx_Some in E as [Hn (Hid & _)%followUp_holds_true].
  intros [[= <-]|[e [= <-]]]; (split; [exists x; split; [by eapply list_elem_of_lookup_2|done]|]);
    (eapply sublist_forall; [apply (compact_sublist describeFollowUp)|]); simpl; rewrite <- Hid;
    (eapply followUp_terminate_settled; [apply Hc|done|done|done]).
Qed.

Lemma withSteerClaim_Ok b ctx k ref now f :
  is_ok (withSteerClaim b ctx k ref now f).2 = true ->
  exists s', f (steerQueue b k) = Ok s' /\
    withSteerClaim b ctx k ref now f = (putSteer (purgeExpired b now) k s', Ok tt).
Proof using Type.
  unfold withSteerClaim, liveSnapshot. repeat (case_if; [done|]).
  destruct (snapshots _ !! _) as [sn|]; [|done]. case_if; [done|]. rewrite steerQueue_purgeExpired.
  destruct (f _) as [s'|]; [|done]. eauto.
Qed.
Lemma withFollowUpClaim_Ok b ctx k ref f :
  is_ok (withFollowUpClaim b ctx k ref f).2 = true ->
  exists s', f (followUpQueue b k) = Ok s' /\ withFollowUpClaim b ctx k ref f = (putFollowUp b k s', Ok tt).
Proof using Type.
  unfold withFollowUpClaim. repeat (case_if; [done|]). destruct (f _) as [s'|]; [|done]. eauto.
Qed.
Lemma ApplySteer_settles c ctx k ref n1 n2 :
  config_wf c -> is_ok (ApplySteer (cBackend c) ctx k ref n1 n2).2 = true ->
  steerSettled (next c (OpApplySteer ctx k ref n1 n2)) (key_string k) (scItemID ref).
Proof using Type.
  intros Hwf (s' & Hs & Heq)%withSteerClaim_Ok. unfold next, run_op, ApplySteer. rewrite Heq.
  apply steer_apply_settles in Hs as [(x & Hx & Hid) Hd]; [|apply (cwf_steer _ Hwf (key_string k))].
  split; simpl.
  - rewrite <- Hid. by eapply (cwf_sUsed _ Hwf (key_string k)).
  - rewrite steerDoc_put. by case_decide.
Qed.
Lemma ApplyFollowUp_settles c ctx k ref now :
  config_wf c -> is_ok (ApplyFollowUp (cBackend c) ctx k ref now).2 = true ->
  followUpSettled (next c (OpApplyFollowUp ctx k ref now)) (key_string k) (fcItemID ref).
Proof using Type.
  intros Hwf (s' & Hs & Heq)%withFollowUpClaim_Ok. unfold next, run_op, ApplyFollowUp. rewrite Heq.
  destruct (followUp_end_settles _ s' ref now (cwf_followUp _ Hwf (key_string k)) (or_introl Hs))
    as [(x & Hx & Hid) Hd].
  split; simpl.
  - rewrite <- Hid. by eapply (cwf_fUsed _ Hwf (key_string k)).
  - rewrite followUpDoc_put. by case_decide.
Qed.
Lemma steer_settled_refused c ctx k ref n1 n2 :
  steerSettled c (key_string k) (scItemID ref) ->
  is_ok (ApplySteer (cBackend c) ctx k ref n1 n2).2 = false /\
  is_ok (ReleaseSteer (cBackend c) ctx k ref n1 n2).2 = false.
Proof using Type.
  intros [_ Hd]. rewrite <- steerQueue_doc in Hd. split; apply not_true_iff_false; intros (s' & Hs & _)%withSteerClaim_Ok; revert Hs;
    unfold steer_apply, steer_release; rewrite (steer_find_live _ ref _ Hd eq_refl); done.
Qed.
Lemma followUp_settled_refused c ctx k ref e now :
  followUpSettled c (key_string k) (fcItemID ref) ->
  is_ok (ApplyFollowUp (cBackend c) ctx k ref now).2 = false /\
  is_ok (ReleaseFollowUp (cBackend c) ctx k ref now).2 = false /\
  is_ok (RejectFollowUp (cBackend c) ctx k ref e now).2 = false.
Proof using Type.
  intros [_ Hd]. rewrite <- followUpQueue_doc in Hd. split_and!; apply not_true_iff_false; intros (s' & Hs & _)%withFollowUpClaim_Ok; revert Hs;
    unfold followUp_apply, followUp_release, followUp_reject; try case_if; try done;
    rewrite (followUp_find_live _ ref _ Hd eq_refl); done.
Qed.

(** ** Properties *)

(** C1: a steer whose application succeeded is never applied or released again,
    by any claim on it and after any sequence of operations; the same for a
    follow-up, which is also never rejected. *)
Theorem applied_at_most_once (c c1 c2 : config) (k : Key) (sref : SteerClaimRef) (fref : FollowUpClaimRef)
    (ctx : bool) (n1 n2 : Z) :
  reachable c ->
  rtc step (next c (OpApplySteer ctx k sref n1 n2)) c1 ->
  rtc step (next c (OpApplyFollowUp ctx k fref n1)) c2 ->
  (is_ok (ApplySteer (cBackend c) ctx k sref n1 n2).2 = true ->
   forall ctx' ref m1 m2, scItemID ref = scItemID sref ->
     is_ok (ApplySteer (cBackend c1) ctx' k ref m1 m2).2 = false /\
     is_ok (ReleaseSteer (cBackend c1) ctx' k ref m1 m2).2 = false) /\
  (is_ok (ApplyFollowUp (cBackend c) ctx k fref n1).2 = true ->
   forall ctx' ref e m, fcItemID ref = fcItemID fref ->
     is_ok (ApplyFollowUp (cBackend c2) ctx' k ref m).2 = false /\
     is_ok (ReleaseFollowUp (cBackend c2) ctx' k ref m).2 = false /\
     is_ok (RejectFollowUp (cBackend c2) ctx' k ref e m).2 = false).
Proof using Type.
  intros Hr%reachable_wf H1 H2. split; intros Hok.
  - intros ctx' ref m1 m2 Hid. apply steer_settled_refused. rewrite Hid.
    eapply steerSettled_steps; [exact H1|]. by apply ApplySteer_settles.
  - intros ctx' ref e m Hid. apply followUp_settled_refused. rewrite Hid.
    eapply followUpSettled_steps; [exact H2|]. by apply ApplyFollowUp_settles.
Qed.

(** C3: in every reachable state, every queue document is well formed: item
    identifiers are distinct, an accepted item carries no claim, a claimed
    steer is claimed under its own identifier for the run it targets and a
    run holds at most one claimed steer, no live steer targets the sealed
    run, a claimed follow-up is the one recorded for its trigger run, and at
    most 64 terminal items are kept. *)
Theorem reachable_documents (c : config) (k : Key) :
  reachable c ->
  let s := steerQueue (cBackend c) k in
  let f := followUpQueue (cBackend c) k in
  NoDup (sID <$> sItems s) /\ NoDup (fID <$> fItems f) /\
  (forall i, i ∈ sItems s -> sStatus i = QueueAccepted -> sClaim i = None) /\
  (forall i, i ∈ sItems s -> sStatus i = QueueClaimed ->
     exists ref, sClaim i = Some ref /\ scItemID ref = sID i /\ scRunID ref = sTargetRunID i) /\
  (forall r i j, i ∈ sItems s -> j ∈ sItems s -> sStatus i = QueueClaimed -> sStatus j = QueueClaimed ->
     sTargetRunID i = r -> sTargetRunID j = r -> i = j) /\
  (forall i, i ∈ sItems s -> ClosedRunID s <> [] -> sTargetRunID i = ClosedRunID s ->
     sStatus i <> QueueAccepted /\ sStatus i <> QueueClaimed) /\
  (forall i, i ∈ fItems f -> fStatus i = QueueClaimed ->
     exists ref, fClaim i = Some ref /\ TerminalClaims f !! fcTriggerRunID ref = Some (fID i)) /\
  (countb (fun i => terminal (sStatus i)) (sItems s) <= 64)%nat /\
  (countb (fun i => terminal (fStatus i)) (fItems f) <= 64)%nat.
Proof using Type.
  intros Hr%reachable_wf. simpl.
  destruct (cwf_steer _ Hr (key_string k)) as [[H1 H2 H3 H4 H5] Ht].
  destruct (cwf_followUp _ Hr (key_string k)) as [[F1 F2] Ft].
  rewrite steerQueue_doc, followUpQueue_doc. rewrite Forall_forall in H2. rewrite Forall_forall in F2.
  assert (Hclaim : forall i, i ∈ sItems (steerDoc (cBackend c) (key_string k)) -> sStatus i = QueueClaimed ->
     exists ref, sClaim i = Some ref /\ scItemID ref = sID i /\ scRunID ref = sTargetRunID i).
  { intros i Hi Hst. specialize (H2 i Hi). unfold steer_item_wf in H2. by rewrite Hst in H2. }
  split_and!; try done.
  - intros i Hi Hst. specialize (H2 i Hi). unfold steer_item_wf in H2. by rewrite Hst in H2.
  - intros r i j Hi Hj Hsi Hsj Hti Htj. eapply (countb_at_most_one (claimedBy r)); try done.
    + apply claimedBy_true. split; [done|]. destruct (Hclaim i Hi Hsi) as (ref & ? & _ & ?).
      exists ref. split; congruence.
    + apply claimedBy_true. split; [done|]. destruct (Hclaim j Hj Hsj) as (ref & ? & _ & ?).
      exists ref. split; congruence.
  - intros i Hi Hne Htgt. specialize (H4 Hne). rewrite Forall_forall in H4. specialize (H4 i Hi).
    split; intros Hst; apply H4; try done; apply steerLive_true; auto.
  - intros i Hi Hst. destruct (F2 i Hi) as [_ HF]. rewrite Hst in HF. destruct HF as (ref & ? & _ & ?). eauto.
Qed.

(** an operation takes each item through the status machine only: an item
    of the next state is a new accepted one under the operation's fresh
    identifier, or the same item, or a step of the machine from it that keeps
    its identity, owner, target and invocation; terminal items never change. *)
Theorem item_lifecycle (c : config) (o : op) (k : Key) :
  (forall y, y ∈ sItems (steerQueue (run_op (cBackend c) o) k) ->
     (newItem o = Some (sID y) /\ sStatus y = QueueAccepted) \/
     exists x, x ∈ sItems (steerQueue (cBackend c) k) /\ steer_evolves x y /\
               (terminal (sStatus x) = true -> y = x)) /\
  (forall y, y ∈ fItems (followUpQueue (run_op (cBackend c) o) k) ->
     (newItem o = Some (fID y) /\ fStatus y = QueueAccepted) \/
     exists x, x ∈ fItems (followUpQueue (cBackend c) k) /\ followUp_evolves x y /\
               (terminal (fStatus x) = true -> y = x)).
Proof using Type.
  split; intros y Hy.
  - destruct (next_steer_items c o (key_string k) y Hy) as [(x & Hx & He)|?]; [|by left].
    right. exists x. split_and!; [done|done|]. destruct He as [?|(_ & _ & _ & _ & _ & _ & Hst & _)]; [done|].
    by destruct (sStatus x).
  - destruct (next_followUp_items c o (key_string k) y Hy) as [(x & Hx & He)|?]; [|by left].
    right. exists x. split_and!; [done|done|]. destruct He as [?|(_ & _ & _ & _ & _ & _ & Hst & _)]; [done|].
    by destruct (fStatus x).
Qed.

(** What a successful claim is about. *)
Lemma ClaimNextSteer_Ok b ctx h seal now token b' r :
  ClaimNextSteer b ctx h seal now token = (b', Ok r) ->
  exists s', steer_claimNext (steerQueue b (handle_key (handle_normalized h))) (handle_normalized h) seal now token
             = (s', r) /\
    b' = putSteer (purgeExpired b now) (handle_key (handle_normalized h)) s' /\
    hRunID (handle_normalized h) <> [].
Proof using Type.
  unfold ClaimNextSteer, liveSnapshot. case_if; [done|].
  destruct (handle_valid (handle_normalized h)) eqn:Hv; cbn [negb orb]; [|done].
  repeat (case_if; [done|]). destruct (snapshots _ !! _) as [sn|]; [|done].
  repeat (case_if; [done|]). rewrite steerQueue_purgeExpired.
  destruct (steer_claimNext _ _ _ _ _) as [s' r'] eqn:E. intros [= <- <-].
  exists s'. split_and!; [done|done|]. by apply handle_valid_run.
Qed.
Lemma claimNext_None s h now token s' :
  steer_claimNext s h true now token = (s', None) ->
  ClosedRunID s' = hRunID h /\ sItems s' = sItems s /\ sUpdatedAt s' = now.
Proof using Type.
  unfold steer_claimNext. destruct (find_idx _ _) as [[n i]|] eqn:E.
  - apply find_idx_Some in E as [_ [Hst (c & Hc & _)]%claimedBy_true].
    unfold advanceSteerClaim. rewrite Hc. repeat case_if; simpl; rewrite ?Hc; intros [=].
  - destruct (best_index _ _ _) as [[n i]|]; [intros [=]|]. by intros [= <-].
Qed.
Lemma steerQueue_put b k s : steerQueue (putSteer b k s) k = s.
Proof using Type. rewrite steerQueue_doc, steerDoc_put. by case_decide. Qed.
Lemma purgeLiveQueues_fresh b now k :
  stale b now (sUpdatedAt (steerQueue b k)) = false ->
  steerQueue (purgeLiveQueues b now) k = steerQueue b k.
Proof using Type.
  unfold steerQueue, purgeLiveQueues; simpl. destruct (steerQueues b !! key_string k) as [s|] eqn:E; simpl; intros Hs.
  - rewrite (map_lookup_filter_Some_2 _ _ _ s); done.
  - rewrite map_lookup_filter_None_2; [done|by left].
Qed.

(** a claim that finds nothing and seals the run leaves no live steer
    targeting it, and while the queue document has not expired and the run is
    still the active one, no new steer and no promoted follow-up gets in: a
    steer accepted for a run is always seen by it. *)
Theorem sealed_run_refuses (c : config) (ctx : bool) (h : RunHandle) (now : Z) (token : str) (b' : MemoryBackend) :
  reachable c ->
  ClaimNextSteer (cBackend c) ctx h true now token = (b', Ok None) ->
  let k := handle_key (handle_normalized h) in
  let runID := hRunID (handle_normalized h) in
  (forall i, i ∈ sItems (steerQueue b' k) -> sTargetRunID i = runID ->
     sStatus i <> QueueAccepted /\ sStatus i <> QueueClaimed) /\
  (forall ctx' itemID inv payload now' run,
     stale b' now' now = false ->
     replaySteer (steerQueue b' k) inv payload = None ->
     activeRun (liveSnapshot (purgeLiveQueues b' now') k now').2 = Some run -> rvRunID run = runID ->
     is_ok (EnqueueSteer b' ctx' k itemID inv payload now').2 = false) /\
  (forall ctx' followUpID newID now' run,
     activeRun (liveSnapshot b' k now').2 = Some run -> rvRunID run = runID ->
     is_ok (PromoteFollowUpToSteer b' ctx' k followUpID newID now').2 = false).
Proof using Type.
  intros Hr%reachable_wf Hc k runID.
  destruct (ClaimNextSteer_Ok _ _ _ _ _ _ _ _ Hc) as (s' & Hs & -> & Hne).
  fold k in Hs |- *. fold runID in Hne.
  pose proof (steer_claimNext_wf _ _ _ _ _ _ _ (cwf_steer _ Hr (key_string k)) Hne Hs) as [Hwf _].
  destruct (claimNext_None _ _ _ _ _ Hs) as (Hcl & _ & Hup).
  split_and!.
  - rewrite steerQueue_put. intros i Hi Ht. pose proof (swf_closed _ Hwf) as H4. rewrite Hcl in H4.
    specialize (H4 Hne). rewrite Forall_forall in H4. specialize (H4 i Hi).
    split; intros Hst; apply H4; try done; apply steerLive_true; auto.
  - intros ctx' itemID inv payload now' run Hst Hrep Hact Hrun. unfold EnqueueSteer. repeat (case_if; [done|]).
    rewrite steerQueue_put in Hrep.
    rewrite purgeLiveQueues_fresh by (rewrite steerQueue_put; by rewrite Hup).
    rewrite steerQueue_put, Hrep. unfold liveSnapshot in *. cbn [snd] in Hact. rewrite Hact.
    by rewrite Hrun, Hcl, str_eqb_refl.
  - intros ctx' followUpID newID now' run Hact Hrun. unfold PromoteFollowUpToSteer. repeat (case_if; [done|]).
    unfold liveSnapshot in *. cbn [snd] in Hact. rewrite Hact. rewrite steerQueue_purgeExpired, steerQueue_put.
    by rewrite Hrun, Hcl, str_eqb_refl.
Qed.

(** ** Claims *)
Lemma find_idx_insert {A} (p : A -> bool) l n x y :
  find_idx p l = Some (n, x) -> p y = true -> find_idx p (<[n := y]> l) = Some (n, y).
Proof using Type.
  revert n; induction l as [|z l IH]; intros n; simpl; [done|].
  destruct (p z) eqn:Hz; [intros [= <- <-] Hy; simpl; by rewrite Hy|].
  destruct (find_idx p l) as [[m w]|] eqn:E; [|done]. intros [= <- <-] Hy; simpl.
  by rewrite Hz, (IH m eq_refl Hy).
Qed.
Lemma find_idx_insert_new {A} (p : A -> bool) l n x y :
  Forall (fun z => p z = false) l -> l !! n = Some x -> p y = true -> find_idx p (<[n := y]> l) = Some (n, y).
Proof using Type.
  intros Hf. revert n; induction Hf as [|z l Hz _ IH]; intros [|n] Hn Hy; simplify_eq/=; [by rewrite Hy|].
  by rewrite Hz, (IH n Hn Hy).
Qed.
Lemma advance_idem i h :
  claimedBy (hRunID h) i = true ->
  advanceSteerClaim (advanceSteerClaim i h).1 h = ((advanceSteerClaim i h).1, false) /\
  claimedBy (hRunID h) (advanceSteerClaim i h).1 = true.
Proof using Type.
  intros Hcb. pose proof Hcb as [Hst (c & Hc & Hrun)]%claimedBy_true.
  unfold advanceSteerClaim at 2 3 4. rewrite Hc. unfold sClaimed, is_status.
  rewrite Hst, bool_decide_true, Hrun, str_eqb_refl by done. simpl.
  destruct (_ && _ && _) eqn:E; simpl.
  - split; [|done]. unfold advanceSteerClaim. rewrite Hc. unfold sClaimed, is_status.
    by rewrite Hst, bool_decide_true, Hrun, str_eqb_refl, E by done.
  - unfold advanceSteerClaim, claimedBy, sClaimed, is_status. simpl.
    by rewrite !str_eqb_refl, Z.eqb_refl.
Qed.

Lemma sWith_id s : sWith s (sItems s) (sUpdatedAt s) = s.
Proof using Type. by destruct s. Qed.
(** A claim just handed out is the one found first, and stays as it is. *)
Lemma claimNext_again s h n i c seal now token :
  find_idx (claimedBy (hRunID h)) (sItems s) = Some (n, i) -> advanceSteerClaim i h = (i, false) ->
  sClaim i = Some c -> steer_claimNext s h seal now token = (s, Some (i, c)).
Proof using Type.
  intros Hf Ha Hc. unfold steer_claimNext. rewrite Hf, Ha, Hc.
  apply find_idx_Some in Hf as [Hn _]. by rewrite list_insert_id, sWith_id by done.
Qed.
Lemma claimOf_own i h token :
  advanceSteerClaim (sSet QueueClaimed (Some (claimOf i h token)) i) h =
  (sSet QueueClaimed (Some (claimOf i h token)) i, false).
Proof using Type.
  unfold advanceSteerClaim, claimOf; simpl. by rewrite !str_eqb_refl, Z.eqb_refl.
Qed.
Lemma claimOf_claimedBy i h token :
  claimedBy (hRunID h) (sSet QueueClaimed (Some (claimOf i h token)) i) = true.
Proof using Type. apply claimedBy_true. split; [done|]. by eexists. Qed.

(** The steer a claim hands out: the one the run already holds, or the oldest
    accepted one; asking again changes nothing. *)
Lemma steer_claimNext_Some s h seal now token s' i ref :
  steer_core s -> steer_claimNext s h seal now token = (s', Some (i, ref)) ->
  (exists x, x ∈ sItems s /\ sID x = sID i /\ sPayload x = sPayload i /\
     (claimedBy (hRunID h) x = true \/
      (countb (claimedBy (hRunID h)) (sItems s) = 0%nat /\ claimable (hRunID h) x = true /\
       Forall (fun y => claimable (hRunID h) y = true -> sPosition x <= sPosition y) (sItems s)))) /\
  sStatus i = QueueClaimed /\ sTargetRunID i = hRunID h /\ sClaim i = Some ref /\
  (scItemID ref = sID i /\ scRunID ref = hRunID h /\ scOwnerID ref = hOwnerID h /\
   scGeneration ref = hGeneration h /\ scFencingToken ref = hFencingToken h) /\
  i ∈ sItems s' /\
  (forall seal' now' token', steer_claimNext s' h seal' now' token' = (s', Some (i, ref))).
Proof using Type.
  intros Hcore. unfold steer_claimNext at 1. destruct (find_idx _ _) as [[n x]|] eqn:E.
  - pose proof (find_idx_Some _ _ _ _ E) as [Hn Hcb].
    destruct (advanceSteerClaim x h) as [x' adv] eqn:Ea. intros [= <- Hx].
    pose proof (advance_claim_spec _ _ _ _ (steer_item_of _ _ _ Hcore Hn) Hcb Ea)
      as (Hid & Ht & Hst & c & Hc & Hci & Hct & Hcr & Ho & Hg & Hf).
    rewrite Hc in Hx. injection Hx as <- <-. destruct (advance_idem x h Hcb) as [Hidem Hcb'].
    rewrite Ea in Hidem, Hcb'. simpl in Hidem, Hcb'. split_and!; try done; try congruence.
    + exists x. split_and!; try done; [by eapply list_elem_of_lookup_2| |by left].
      unfold advanceSteerClaim in Ea. destruct (sClaim x); [|by simplify_eq]. repeat case_if; by simplify_eq.
    + simpl. eapply list_elem_of_lookup_2, list_lookup_insert_eq, lookup_lt_Some, Hn.
    + intros. eapply claimNext_again; [|done|done]. simpl. by eapply find_idx_insert.
  - apply find_idx_None in E.
    destruct (best_index _ _ _) as [[n x]|] eqn:Eb; [|intros [=]]. intros [= <- <- <-].
    apply best_index_Some in Eb as (Hn & Hok & Hmin). pose proof Hok as [_ Ht]%claimable_true.
    split_and!; try done.
    + exists x. split_and!; try done; [by eapply list_elem_of_lookup_2|]. right.
      split_and!; [by apply countb_forall|done|done].
    + simpl. eapply list_elem_of_lookup_2, list_lookup_insert_eq, lookup_lt_Some, Hn.
    + intros. eapply claimNext_again; [|apply claimOf_own|done]. simpl.
      eapply find_idx_insert_new; [done|done|apply claimOf_claimedBy].
Qed.

(** a claim hands out the steer its run already holds, with the claim moved
    to the present owner, and otherwise the accepted steer of the run with the
    smallest position; the claim names the item, the run and the owner, and
    claiming again before it is applied or released gives the same answer and
    changes nothing, so a retry after a crash does not skip a steer. *)
Theorem steer_claim_order (c : config) (ctx : bool) (h : RunHandle) (seal : bool) (now : Z) (token : str)
    (b' : MemoryBackend) (i : SteerItem) (ref : SteerClaimRef) :
  reachable c ->
  ClaimNextSteer (cBackend c) ctx h seal now token = (b', Ok (Some (i, ref))) ->
  let h' := handle_normalized h in
  let old := sItems (steerQueue (cBackend c) (handle_key h')) in
  let doc := steerQueue b' (handle_key h') in
  (exists x, x ∈ old /\ sID x = sID i /\ sPayload x = sPayload i /\
     (claimedBy (hRunID h') x = true \/
      (countb (claimedBy (hRunID h')) old = 0%nat /\ claimable (hRunID h') x = true /\
       Forall (fun y => claimable (hRunID h') y = true -> sPosition x <= sPosition y) old))) /\
  i ∈ sItems doc /\ sStatus i = QueueClaimed /\ sTargetRunID i = hRunID h' /\ sClaim i = Some ref /\
  scItemID ref = sID i /\ scRunID ref = hRunID h' /\ scOwnerID ref = hOwnerID h' /\
  scGeneration ref = hGeneration h' /\ scFencingToken ref = hFencingToken h' /\
  (forall seal' now' token', steer_claimNext doc h' seal' now' token' = (doc, Some (i, ref))).
Proof using Type.
  intros Hr%reachable_wf Hc h' old doc.
  destruct (ClaimNextSteer_Ok _ _ _ _ _ _ _ _ Hc) as (s' & Hs & -> & _).
  fold h' in Hs. subst doc. rewrite steerQueue_put.
  destruct (steer_claimNext_Some _ _ _ _ _ _ _ _ (proj1 (cwf_steer _ Hr _)) Hs)
    as (? & ? & ? & ? & (? & ? & ? & ? & ?) & ? & ?).
  by split_and!.
Qed.

(** only the claim an item holds settles it: once the claim has moved to
    another owner, generation, fencing token or claim token, a reference kept
    from before neither applies nor releases the item. *)
Theorem stale_steer_claim_refused (c : config) (ctx : bool) (k : Key) (i : SteerItem) (ref : SteerClaimRef)
    (n1 n2 : Z) :
  reachable c -> i ∈ sItems (steerQueue (cBackend c) k) -> scItemID ref = sID i -> sClaim i <> Some ref ->
  is_ok (ApplySteer (cBackend c) ctx k ref n1 n2).2 = false /\
  is_ok (ReleaseSteer (cBackend c) ctx k ref n1 n2).2 = false.
Proof using Type.
  intros Hr%reachable_wf [j Hj]%list_elem_of_lookup Hid Hne.
  destruct (cwf_steer _ Hr (key_string k)) as [[Hnd _ _ _ _] _].
  assert (find_idx (steer_holds ref) (sItems (steerQueue (cBackend c) k)) = None) as Hf.
  { destruct (find_idx _ _) as [[n x]|] eqn:E; [|done].
    apply find_idx_Some in E as [Hn (Hxi & _ & Hcl)%holds_true]. exfalso. apply Hne.
    assert (n = j) as -> by (eapply (NoDup_fmap_lookup sID); [exact Hnd|exact Hn|exact Hj|congruence]).
    congruence. }
  split; apply not_true_iff_false; intros (s' & Hs & _)%withSteerClaim_Ok; revert Hs;
    unfold steer_apply, steer_release; by rewrite Hf.
Qed.

(** ** Follow-ups *)
Lemma followUpQueue_put b k s : followUpQueue (putFollowUp b k s) k = s.
Proof using Type. rewrite followUpQueue_doc, followUpDoc_put. by case_decide. Qed.
Lemma ClaimNextFollowUp_Ok b ctx k t now token b' r :
  ClaimNextFollowUp b ctx k t now token = (b', Ok r) ->
  exists s', followUp_claimNext (followUpQueue b k) (trim_space t) now token = (s', r) /\
    b' = putFollowUp b k s' /\ trim_space t <> [].
Proof using Type.
  unfold ClaimNextFollowUp. case_if; [done|]. destruct (is_empty (trim_space t)) eqn:Ht; [done|].
  repeat (case_if; [done|]). destruct (followUp_claimNext _ _ _ _) as [s' r'] eqn:E.
  intros [= <- <-]. exists s'. split_and!; [done|done|]. by apply is_empty_false.
Qed.
(** The follow-up a run is recorded for, found again. *)
Lemma followUp_claim_recorded s t id :
  followUp_core s -> TerminalClaims s !! t = Some id -> id <> [] -> forall now token,
  (followUp_claimNext s t now token).1 = s /\
  forall i ref, (followUp_claimNext s t now token).2 = Some (i, ref) ->
    fID i = id /\ i ∈ fItems s /\ fStatus i = QueueClaimed /\ fClaim i = Some ref.
Proof using Type.
  intros Hc Ht Hne now token. unfold followUp_claimNext. rewrite Ht.
  change (default [] (Some id)) with id. rewrite (proj2 (is_empty_false id) Hne). cbn [negb].
  destruct (find_idx _ _) as [[n x]|] eqn:E; [|by split]. split; [done|]. intros i ref Hx.
  apply find_idx_Some in E as [Hn Hp]. rewrite !andb_true_iff, str_eqb_true, fClaimed_true in Hp.
  destruct Hp as [[Hid Hst] _]. simpl in Hx. destruct (fClaim x) as [c'|] eqn:Hcl; [|done].
  injection Hx as <- <-. split_and!; try done. by eapply list_elem_of_lookup_2.
Qed.
Lemma followUp_claimNext_Some s t now token s' i ref :
  followUp_wf s -> followUp_claimNext s t now token = (s', Some (i, ref)) ->
  TerminalClaims s' !! t = Some (fID i) /\ fID i <> [] /\ i ∈ fItems s' /\ fStatus i = QueueClaimed /\
  fClaim i = Some ref /\ fcItemID ref = fID i /\
  (default [] (TerminalClaims s !! t) = [] ->
   exists x, x ∈ fItems s /\ fID x = fID i /\ fStatus x = QueueAccepted /\ fcTriggerRunID ref = t /\
     Forall (fun y => fAccepted y = true -> fPosition x <= fPosition y) (fItems s)).
Proof using Type.
  intros [Hc _] H. destruct (TerminalClaims s !! t) as [[|a id]|] eqn:Ht.
  2: { pose proof (followUp_claim_recorded s t (a :: id) Hc Ht ltac:(done) now token) as [H1 H2].
       rewrite H in H1, H2. simpl in H1, H2. subst s'. destruct (H2 i ref eq_refl) as (Hid & Hin & Hst & Hcl).
       pose proof Hin as [n Hn]%list_elem_of_lookup. destruct (followUp_item_of _ _ _ Hc Hn) as [_ Hi].
       rewrite Hst in Hi. destruct Hi as (c' & Hc' & Hci & _).
       split_and!; try done; congruence. }
  all: unfold followUp_claimNext in H; rewrite Ht in H; cbn [from_option is_empty negb] in H;
    destruct (best_index _ _ _) as [[n x]|] eqn:Eb; [|done]; apply best_index_Some in Eb as (Hn & Hst & Hmin);
    destruct (followUp_item_of _ _ _ Hc Hn) as [Hne _]; invc H; simpl; status_hyps;
    (split_and!; try done; [apply lookup_insert_eq|
       eapply list_elem_of_lookup_2, list_lookup_insert_eq, lookup_lt_Some, Hn|intros _; exists x;
       split_and!; try done; by eapply list_elem_of_lookup_2]).
Qed.
Lemma followUp_apply_claims s ref now s' t id :
  followUp_apply s ref now = Ok s' -> TerminalClaims s !! t = Some id ->
  (size (TerminalClaims s) <= terminalClaimRetention)%nat -> TerminalClaims s' !! t = Some id.
Proof using Type.
  unfold followUp_apply. destruct (find_idx _ _) as [[n x]|]; [|done]. intros [= <-] Ht Hs. simpl.
  by rewrite (proj2 (Nat.leb_le _ _) Hs).
Qed.

(** one trigger run gets one follow-up.  What a claim hands out is the
    accepted follow-up with the smallest position, when the run has none yet;
    claiming again for the same run changes nothing and can only give the
    same item; and once that item is applied the run gets none, as long as at
    most 256 runs are recorded. *)
Theorem followUp_once_per_trigger (c : config) (ctx : bool) (k : Key) (t : str) (now : Z) (token : str)
    (b' : MemoryBackend) (i : FollowUpItem) (ref : FollowUpClaimRef) :
  reachable c ->
  ClaimNextFollowUp (cBackend c) ctx k t now token = (b', Ok (Some (i, ref))) ->
  let old := followUpQueue (cBackend c) k in
  (default [] (TerminalClaims old !! trim_space t) = [] ->
   exists x, x ∈ fItems old /\ fID x = fID i /\ fStatus x = QueueAccepted /\
     Forall (fun y => fAccepted y = true -> fPosition x <= fPosition y) (fItems old)) /\
  (forall now' token' b'' r, ClaimNextFollowUp b' false k t now' token' = (b'', Ok r) ->
     followUpQueue b'' k = followUpQueue b' k /\
     forall i' ref', r = Some (i', ref') -> fID i' = fID i) /\
  (forall ctx' now1 b1 now2 token2 b2 r,
     (size (TerminalClaims (followUpQueue b' k)) <= terminalClaimRetention)%nat ->
     ApplyFollowUp b' ctx' k ref now1 = (b1, Ok tt) ->
     ClaimNextFollowUp b1 false k t now2 token2 = (b2, Ok r) -> r = None).
Proof using Type.
  intros Hr%reachable_wf Hc old. destruct (ClaimNextFollowUp_Ok _ _ _ _ _ _ _ _ Hc) as (s' & Hs & -> & Hne).
  pose proof (followUp_claimNext_wf _ _ _ _ _ _ (cwf_followUp _ Hr (key_string k)) Hs) as Hwf'.
  pose proof (followUp_claimNext_Some _ _ _ _ _ _ _ (cwf_followUp _ Hr (key_string k)) Hs)
    as (Ht & Hid & Hin & Hst & Hcl & Hci & Hold).
  split_and!.
  - intros H0. destruct (Hold H0) as (x & ? & ? & ? & _ & ?). by exists x.
  - intros now' token' b'' r H. destruct (ClaimNextFollowUp_Ok _ _ _ _ _ _ _ _ H) as (s'' & Hs'' & -> & _).
    rewrite followUpQueue_put in Hs''. rewrite !followUpQueue_put.
    destruct (followUp_claim_recorded s' _ _ (proj1 Hwf') Ht Hid now' token') as [H1 H2].
    rewrite Hs'' in H1, H2. split; [done|]. intros i' ref' ->. by apply (H2 i' ref').
  - intros ctx' now1 b1 now2 token2 b2 r Hsize Ha H.
    destruct (withFollowUpClaim_Ok (putFollowUp (cBackend c) k s') ctx' k ref
                (fun st => followUp_apply st ref now1)) as (s1 & Hs1 & Heq).
    { unfold ApplyFollowUp in Ha. by rewrite Ha. }
    unfold ApplyFollowUp in Ha. rewrite Heq in Ha. injection Ha as <-.
    rewrite followUpQueue_put in Hs1, Hsize.
    destruct (ClaimNextFollowUp_Ok _ _ _ _ _ _ _ _ H) as (s2 & Hs2 & -> & _). rewrite followUpQueue_put in Hs2.
    pose proof (followUp_apply_wf _ _ _ _ (proj1 Hwf') Hs1) as [Hc1 _].
    pose proof (followUp_apply_claims _ _ _ _ _ _ Hs1 Ht Hsize) as Ht1.
    destruct (followUp_claim_recorded s1 _ _ Hc1 Ht1 Hid now2 token2) as [_ H2].
    rewrite Hs2 in H2. destruct r as [[i' ref']|]; [|done]. exfalso.
    destruct (H2 i' ref' eq_refl) as (Hi' & Hin' & Hst' & _).
    destruct (followUp_end_settles _ _ _ _ Hwf' (or_introl Hs1)) as [_ Hd]. rewrite Forall_forall in Hd.
    specialize (Hd i' Hin' ltac:(congruence)). unfold followUpTerminal in Hd. by rewrite Hst' in Hd.
Qed.

(** ** Replays *)
Lemma replay_found s inv payload n i :
  find_idx (fun i => str_eqb (sInvocationID i) inv) (sItems s) = Some (n, i) ->
  replaySteer s inv payload =
    Some (if str_eqb (sPayload i) payload then Ok i else Err ErrQueueInvocationConflict).
Proof using Type. unfold replaySteer. intros ->. by case_if. Qed.
Lemma find_idx_app_last {A} (p : A -> bool) l x :
  find_idx p l = None -> p x = true -> find_idx p (l ++ [x]) = Some (length l, x).
Proof using Type.
  induction l as [|y l IH]; simpl; [by intros _ ->|]. destruct (p y); [done|].
  destruct (find_idx p l) as [[? ?]|]; [done|]. intros _ Hx. by rewrite IH.
Qed.
Lemma steer_enqueue_item s k id inv r p now s' item :
  steer_enqueue s k id inv r p now = Ok (s', item) ->
  sItems s' = sItems s ++ [item] /\ sID item = id /\ sInvocationID item = inv /\ sPayload item = p /\
  sTargetRunID item = r /\ sStatus item = QueueAccepted /\
  Forall (fun y => sPosition y < sPosition item) (sItems s) /\ (countPendingSteers s < 64)%nat.
Proof using Type.
  unfold steer_enqueue. case_if; [done|]. intros [= <- <-]. simpl. str_hyps. split_and!; try done.
  apply Forall_forall. intros y Hy. unfold nextSteerPosition, max_position.
  assert (forall l p0, p0 <= fold_left (fun p i => if p <? sPosition i then sPosition i else p) l p0 /\
            Forall (fun y => sPosition y <= fold_left (fun p i => if p <? sPosition i then sPosition i else p) l p0) l)
    as Hmax.
  { clear. induction l as [|x l IH]; intros p0; simpl; [split; [lia|constructor]|].
    destruct (IH (if p0 <? sPosition x then sPosition x else p0)) as [H1 H2].
    split; [|constructor; [|done]]; destruct (Z.ltb_spec p0 (sPosition x)); lia. }
  destruct (Hmax (sItems s) 0) as [_ H]. rewrite Forall_forall in H. specialize (H y Hy). simpl in H. lia.
Qed.

(** an accepted steer goes behind every other one, and enqueueing under the
    same invocation again, as a retried request does, returns the same item
    and leaves the document as it is whatever has become of the run; with
    another payload it is a conflict. *)
Theorem enqueue_steer_idempotent (b b' : MemoryBackend) (ctx : bool) (k : Key) (id inv payload : str) (now : Z)
    (item : SteerItem) :
  EnqueueSteer b ctx k id inv payload now = (b', Ok item) ->
  sInvocationID item = inv /\ sPayload item = payload /\ item ∈ sItems (steerQueue b' k) /\
  (replaySteer (steerQueue (purgeLiveQueues b now) k) inv payload = None ->
     sItems (steerQueue b' k) = sItems (steerQueue (purgeLiveQueues b now) k) ++ [item] /\
     Forall (fun y => sPosition y < sPosition item) (sItems (steerQueue (purgeLiveQueues b now) k))) /\
  (forall id' payload' now', stale b' now' (sUpdatedAt (steerQueue b' k)) = false ->
     blank id' = false -> is_empty payload' = false ->
     let '(b'', r) := EnqueueSteer b' false k id' inv payload' now' in
     steerQueue b'' k = steerQueue b' k /\
     r = if str_eqb payload payload' then Ok item else Err ErrQueueInvocationConflict).
Proof using Type.
  intros H.
  assert (exists n, find_idx (fun i => str_eqb (sInvocationID i) inv) (sItems (steerQueue b' k)) = Some (n, item) /\
            sPayload item = payload /\ validateQueueKey k = true /\ blank inv = false /\ closed b' = false /\
            (replaySteer (steerQueue (purgeLiveQueues b now) k) inv payload = None ->
               sItems (steerQueue b' k) = sItems (steerQueue (purgeLiveQueues b now) k) ++ [item] /\
               Forall (fun y => sPosition y < sPosition item) (sItems (steerQueue (purgeLiveQueues b now) k))))
    as (n & Hf & Hp & Hk & Hinv & Hcl & Hnew).
  { unfold EnqueueSteer, liveSnapshot in H. case_if; [done|]. case_if; [done|]. str_hyps. case_if; [done|].
    unfold replaySteer in H at 1. unfold replaySteer.
    destruct (find_idx _ (sItems (steerQueue (purgeLiveQueues b now) k))) as [[n x]|] eqn:E.
    - case_if; [|done]. injection H as <- <-. str_hyps. exists n. by split_and!.
    - destruct (activeRun _) as [run|]; [|done]. repeat (case_if; [done|]).
      destruct (steer_enqueue _ _ _ _ _ _ _) as [[s' item']|] eqn:Ee; [|done]. injection H as <- <-.
      destruct (steer_enqueue_item _ _ _ _ _ _ _ _ _ Ee) as (Hi & _ & Hii & Hip & _ & _ & Hpos & _).
      rewrite steerQueue_put, Hi. eexists. split_and!; try done.
      + apply find_idx_app_last; [done|]. by apply str_eqb_true.
      + unfold purgeExpired. by case_if. }
  pose proof (find_idx_Some _ _ _ _ Hf) as [Hn Hi%str_eqb_true].
  split_and!; try done; [by eapply list_elem_of_lookup_2|].
  intros id' payload' now' Hst Hid' Hp'. unfold EnqueueSteer.
  rewrite Hk, Hid', Hinv, Hp', Hcl. cbn [negb orb].
  rewrite purgeLiveQueues_fresh, (replay_found _ _ _ _ _ Hf), Hp by done.
  by rewrite purgeLiveQueues_fresh.
Qed.

(** a promotion moves the payload of an accepted follow-up into a new
    steer of the active run, behind the others, and cancels the follow-up in
    the same step; promoting it again returns the same steer and changes
    neither queue while that steer is still kept. *)
Theorem promote_once (c : config) (ctx : bool) (k : Key) (followUpID newID : str) (now : Z) (b' : MemoryBackend)
    (i : SteerItem) :
  reachable c -> newID <> [] -> newID ∉ cUsed c ->
  PromoteFollowUpToSteer (cBackend c) ctx k followUpID newID now = (b', Ok (followUpID, i)) ->
  let olds := steerQueue (cBackend c) k in
  let oldf := followUpQueue (cBackend c) k in
  i ∈ sItems (steerQueue b' k) /\
  (default [] (PromotedFollowUpItems olds !! followUpID) = [] ->
     (exists x, x ∈ fItems oldf /\ fID x = followUpID /\ fStatus x = QueueAccepted /\ sPayload i = fPayload x) /\
     sID i = newID /\ sStatus i = QueueAccepted /\ sItems (steerQueue b' k) = sItems olds ++ [i] /\
     Forall (fun y => fID y = followUpID -> terminal (fStatus y) = true) (fItems (followUpQueue b' k)) /\
     forall runID now' newID', promote (steerQueue b' k) (followUpQueue b' k) k runID followUpID now' newID' =
       Ok (steerQueue b' k, followUpQueue b' k, i)) /\
  (default [] (PromotedFollowUpItems olds !! followUpID) <> [] ->
     steerQueue b' k = olds /\ followUpQueue b' k = oldf).
Proof using Type.
  intros Hr%reachable_wf Hnew Hfresh H olds oldf.
  pose proof (cwf_steer _ Hr (key_string k)) as [Hs _]. pose proof (cwf_followUp _ Hr (key_string k)) as [Hf _].
  unfold PromoteFollowUpToSteer, liveSnapshot in H. repeat (case_if; [done|]).
  destruct (activeRun _) as [run|]; [|done]. repeat (case_if; [done|]).
  rewrite steerQueue_purgeExpired, followUpQueue_purgeExpired in H.
  destruct (promote _ _ _ _ _ _ _) as [[[s' f'] i']|] eqn:E; [|done]. injection H as <- <-.
  rewrite followUpQueue_put. change (steerQueue (putFollowUp ?x k f') k) with (steerQueue x k).
  rewrite steerQueue_put. fold olds oldf in E. unfold promote in E.
  destruct (is_empty (default [] (PromotedFollowUpItems olds !! followUpID))) eqn:Hp; cbn [negb] in E.
  - str_hyps. destruct (find_idx (followUp_pending followUpID) _) as [[n x]|] eqn:Ef; [|done].
    apply find_idx_Some in Ef as [Hn [Hid Hst]%followUp_pending_true]. case_if; [done|].
    injection E as <- <- <-. simpl. split_and!; [apply elem_of_app; right; by apply list_elem_of_singleton| |done].
    intros _. split_and!; try done.
    + exists x. split_and!; try done. by eapply list_elem_of_lookup_2.
    + eapply sublist_forall; [apply (compact_sublist describeFollowUp)|]. simpl. rewrite <- Hid.
      eapply followUp_terminate_settled; [apply Hf|done|done|done].
    + intros runID now' newID'. unfold promote. cbn [PromotedFollowUpItems sItems]. rewrite lookup_insert_eq.
      change (default [] (Some newID)) with newID. rewrite (proj2 (is_empty_false _) Hnew). cbn [negb].
      rewrite (find_idx_app_last _ (sItems olds)); [done| |by apply str_eqb_true].
      apply find_idx_None, Forall_forall. intros y Hy. apply str_eqb_false. intros <-.
      apply Hfresh. by eapply (cwf_sUsed _ Hr (key_string k)).
  - str_hyps. destruct (find_idx _ (sItems olds)) as [[n x]|] eqn:Ef; [|done]. injection E as <- <- <-.
    split_and!; try done. apply find_idx_Some in Ef as [Hn _]. by eapply list_elem_of_lookup_2.
Qed.
End theorems.

Lemma insert_stable_fmap {A B} (f : A -> B) (lt : B -> B -> bool) x l :
  f <$> insert_stable (fun a b => lt (f a) (f b)) x l = insert_stable lt (f x) (f <$> l).
Proof. induction l as [|y l IH]; csimpl; [done|]. case_if; csimpl; [by rewrite IH|done]. Qed.
Lemma stable_sort_fmap {A B} (f : A -> B) (lt : B -> B -> bool) l :
  f <$> stable_sort (fun a b => lt (f a) (f b)) l = stable_sort lt (f <$> l).
Proof. induction l as [|x l IH]; csimpl; [done|]. by rewrite insert_stable_fmap, IH. Qed.
(** The pending steers are the rows the reorder works on. *)
Lemma pendingSteers_rows s : pendingSteers s 0 = (pendingRefs refSteer (sItems s)).*2.
Proof.
  unfold pendingSteers, limit_list, pendingRefs. simpl.
  rewrite <- (imap_pair_snd (sItems s)) at 1. rewrite filter_snd.
  symmetry. apply (stable_sort_fmap snd (fun a b => sPosition a <? sPosition b)).
Qed.

(** compaction keeps every accepted and claimed item, in order, and of the
    terminal ones exactly the [min(64, n)] newest: what it drops is terminal
    and no kept terminal item is older than a dropped one. *)
Theorem compaction_keeps_newest {T : Type} (describe : T -> QueueStatus * Z * Z) (items : list T) :
  let out := compactQueueItems describe items in
  let is_terminal x := terminal (describe x).1.1 in
  out `sublist_of` items /\
  List.filter (fun x => negb (is_terminal x)) out = List.filter (fun x => negb (is_terminal x)) items /\
  countb is_terminal out = Nat.min 64 (countb is_terminal items) /\
  exists dropped, items ≡ₚ out ++ dropped /\
    Forall (fun d => is_terminal d = true /\
       Forall (fun r => is_terminal r = true ->
                 let '(_, cr, pr) := describe r in let '(_, cd, pd) := describe d in
                 cd < cr \/ (cd = cr /\ pd <= pr)) out) dropped.
Proof.
  intros out is_terminal. split_and!.
  - apply compact_sublist.
  - apply compact_live.
  - apply compact_terminal_count.
  - exists (droppedRows describe items).*2. split; [apply compact_dropped|].
    apply Forall_fmap, Forall_forall. intros d Hd. simpl.
    split; [by apply (dropped_terminal describe items d)|].
    apply Forall_forall. intros r Hr Hrt.
    assert (Hk : r ∈ (retainedRows describe items).*2).
    { rewrite <- compact_terminal_perm. by apply elem_of_filter_bool. }
    apply list_elem_of_fmap in Hk as (r' & -> & Hr').
    pose proof (dropped_older describe items d r' Hd Hr') as Ho. unfold older in Ho.
    destruct (describe r'.2) as [[? cr] pr], (describe d.2) as [[? cd] pd].
    destruct (Z.eqb_spec cr cd); lia.
Qed.

(** reordering the pending steers of a session takes the named item out of
    the pending order and puts it right before the other one (last, when none
    is named), numbers the pending items 1, 2, ... in the new order, and leaves
    every other field and item alone. *)
Theorem reorder_steers_moves (b b' : MemoryBackend) (ctx : bool) (k : Key) (item before : str) (now : Z)
    (pending : list SteerItem) :
  ReorderSteer b ctx k item before now = (b', Ok pending) ->
  let old := steerQueue (purgeLiveQueues b now) k in
  let new := steerQueue b' k in
  moved (sID <$> pendingSteers old 0) (sID <$> pendingSteers new 0) item
    (if is_empty before then None else Some before) /\
  pending = pendingSteers new 0 /\
  (forall n x, pending !! n = Some x -> sPosition x = 1 + Z.of_nat n) /\
  length (sItems new) = length (sItems old) /\
  (forall j x, sItems old !! j = Some x ->
     if sAccepted x then exists n, sItems new !! j = Some (sSetPosition x n)
     else sItems new !! j = Some x).
Proof.
  intros H old new. unfold ReorderSteer in H. destruct ctx, (closed b); try done. fold old in H.
  destruct (validateQueueKey k); [|done]. cbn [negb] in H.
  unfold reorderSteerState in H. destruct (reorderQueuePositions _ _ _ _ _) as [items|] eqn:E; [|done].
  simpl in H. injection H as <- <-. subst new. rewrite steerQueue_put. simpl.
  destruct (reorder_Ok refSteer sSetPosition refSteer_set _ _ _ _ E) as (Hm & Hpos & Hlen & Hitems).
  rewrite !pendingSteers_rows. split_and!; try done.
  - by rewrite <- !list_fmap_compose.
  - intros n x Hx. rewrite list_lookup_fmap in Hx. simpl in Hx.
    destruct (pendingRefs refSteer items !! n) as [p|] eqn:Ep; [|done]. simpl in Hx.
    injection Hx as <-. by apply (Hpos n p).
Qed.

(** ** A concrete session *)
#[local] Existing Instance ascii_unicode.
Definition demo (ops : list op) : config := default (initial 0) (run (initial 0) ops).
Lemma demo_reachable ops : bool_decide (is_Some (run (initial 0) ops)) = true -> reachable (demo ops).
Proof.
  unfold demo. intros H%bool_decide_eq_true. destruct H as [c Hc]. rewrite Hc. exists 0. by eapply run_steps.
Qed.
Definition demoKey : Key := mkKey (lit "bot") (lit "s1").
Definition demoRunView (runID : str) : CurrentRunView :=
  mkCurrentRunView runID (lit "t") (lit "g1") RunStatusRunning (lit "owner") None 1 1 true 7 [] None.
Definition demoUpdate (runID : str) : SnapshotUpdate := fun s _ =>
  Ok (mkSnapshot (lit "bot") (lit "s1") (snEpoch s) (snSeq s + 1) (Some (demoRunView runID)) 1, true).
Definition demoHandle (owner : str) (fence : Z) : RunHandle :=
  mkRunHandle (lit "bot") (lit "s1") (lit "r1") owner (lit "t") (lit "g1") fence.
Definition demoStart : list op :=
  [OpUpdate false demoKey (Some (demoUpdate (lit "r1"))) 10;
   OpEnqueueSteer false demoKey (lit "st1") (lit "inv1") (lit "first") 11;
   OpEnqueueSteer false demoKey (lit "st2") (lit "inv2") (lit "second") 12;
   OpEnqueueFollowUp false demoKey (lit "f1") (lit "inv3") (lit "after") 13].
Definition demoClaim : list op := demoStart ++
  [OpClaimNextSteer false (demoHandle (lit "owner") 7) true 14 (lit "tok1");
   OpClaimNextFollowUp false demoKey (lit "r1") 15 (lit "tok2")].
Definition demoSteerRef : SteerClaimRef :=
  mkSteerClaimRef (lit "st1") (lit "r1") (lit "owner") (lit "g1") 7 (lit "tok1").
Definition demoFollowUpRef : FollowUpClaimRef := mkFollowUpClaimRef (lit "f1") (lit "r1") (lit "tok2").

Lemma applied_at_most_once_witness :
  let c := demo demoClaim in
  let c1 := next c (OpApplySteer false demoKey demoSteerRef 16 17) in
  let c2 := next c (OpApplyFollowUp false demoKey demoFollowUpRef 16) in
  reachable c /\
  is_ok (ApplySteer (cBackend c) false demoKey demoSteerRef 16 17).2 = true /\
  is_ok (ApplyFollowUp (cBackend c) false demoKey demoFollowUpRef 16).2 = true /\
  is_ok (ApplySteer (cBackend c1) false demoKey demoSteerRef 18 19).2 = false /\
  is_ok (RejectFollowUp (cBackend c2) false demoKey demoFollowUpRef (lit "e") 18).2 = false.
Proof.
  intros c c1 c2.
  assert (Hr : reachable c) by (apply demo_reachable; vm_compute; reflexivity).
  assert (H1 : is_ok (ApplySteer (cBackend c) false demoKey demoSteerRef 16 17).2 = true)
    by (vm_compute; reflexivity).
  assert (H2 : is_ok (ApplyFollowUp (cBackend c) false demoKey demoFollowUpRef 16).2 = true)
    by (vm_compute; reflexivity).
  pose proof (applied_at_most_once c c1 c2 demoKey demoSteerRef demoFollowUpRef false 16 17 Hr
                (rtc_refl _ _) (rtc_refl _ _)) as [A B].
  split; [exact Hr|]. split; [exact H1|]. split; [exact H2|]. split.
  - exact (proj1 (A H1 false demoSteerRef 18 19 eq_refl)).
  - exact (proj2 (proj2 (B H2 false demoFollowUpRef (lit "e") 18 eq_refl))).
Defined.

Ltac by_run := vm_compute; reflexivity.
Lemma reachable_documents_witness :
  let c := demo demoClaim in
  reachable c /\ length (sItems (steerQueue (cBackend c) demoKey)) = 2%nat /\
  NoDup (sID <$> sItems (steerQueue (cBackend c) demoKey)).
Proof.
  intros c. assert (Hr : reachable c) by (apply demo_reachable; by_run).
  split; [exact Hr|]. split; [by_run|]. exact (proj1 (reachable_documents c demoKey Hr)).
Defined.

(** The run applies both steers, then seals itself. *)
Definition demoDrained : list op := demoClaim ++
  [OpApplySteer false demoKey demoSteerRef 16 17; OpCancelSteer false demoKey (lit "st2") 18].
Definition demoSeal : MemoryBackend * result QueueError (option (SteerItem * SteerClaimRef)) :=
  ClaimNextSteer (cBackend (demo demoDrained)) false (demoHandle (lit "owner") 7) true 20 (lit "tok3").
Lemma sealed_run_refuses_witness :
  demoSeal.2 = Ok None /\
  is_ok (EnqueueSteer demoSeal.1 false demoKey (lit "st3") (lit "inv9") (lit "late") 21).2 = false.
Proof.
  assert (Hr : reachable (demo demoDrained)) by (apply demo_reachable; by_run).
  assert (Hk : handle_key (handle_normalized (demoHandle (lit "owner") 7)) = demoKey) by by_run.
  assert (Hs : demoSeal = (demoSeal.1, Ok None)) by by_run.
  split; [by_run|].
  pose proof (sealed_run_refuses (demo demoDrained) false (demoHandle (lit "owner") 7) 20 (lit "tok3")
                demoSeal.1 Hr Hs) as (_ & H & _).
  rewrite Hk in H.
  eapply (H false (lit "st3") (lit "inv9") (lit "late") 21 (demoRunView (lit "r1"))); by_run.
Defined.

Lemma steer_claim_order_witness :
  exists b' i, ClaimNextSteer (cBackend (demo demoStart)) false (demoHandle (lit "owner") 7) true 14 (lit "tok1")
    = (b', Ok (Some (i, demoSteerRef))) /\ sPayload i = lit "first" /\ sTargetRunID i = lit "r1".
Proof.
  assert (Hr : reachable (demo demoStart)) by (apply demo_reachable; by_run).
  destruct (ClaimNextSteer (cBackend (demo demoStart)) false (demoHandle (lit "owner") 7) true 14 (lit "tok1"))
    as [b' r] eqn:E.
  assert (Hr2 : r = Ok (Some (sSet QueueClaimed (Some demoSteerRef)
     (mkSteerItem (lit "st1") (lit "bot") (lit "s1") (lit "r1") (lit "inv1") (lit "first") QueueAccepted 1 None [] 11),
      demoSteerRef))) by (apply (f_equal snd) in E; cbn [snd] in E; rewrite <- E; by_run).
  subst r. eexists _, _. split; [reflexivity|]. split; [reflexivity|].
  pose proof (steer_claim_order _ _ _ _ _ _ _ _ _ Hr E) as (_ & _ & _ & Ht & _). exact Ht.
Defined.

(** The claim moves to a second owner; the first one's reference is dead. *)
Definition demoTakeover : list op := demoClaim ++
  [OpUpdate false demoKey (Some (fun s _ => Ok (mkSnapshot (lit "bot") (lit "s1") [] 2
      (Some (mkCurrentRunView (lit "r1") (lit "t") (lit "g1") RunStatusRunning (lit "owner2") None 1 1 true 8 [] None)) 1,
      true))) 16;
   OpClaimNextSteer false (demoHandle (lit "owner2") 8) true 17 (lit "tok4")].
Definition demoTakenItem : SteerItem :=
  sSet QueueClaimed (Some (mkSteerClaimRef (lit "st1") (lit "r1") (lit "owner2") (lit "g1") 8 (lit "tok1")))
    (mkSteerItem (lit "st1") (lit "bot") (lit "s1") (lit "r1") (lit "inv1") (lit "first") QueueAccepted 1 None [] 11).
Lemma stale_steer_claim_refused_witness :
  let c := demo demoTakeover in
  demoTakenItem ∈ sItems (steerQueue (cBackend c) demoKey) /\
  is_ok (ApplySteer (cBackend c) false demoKey demoSteerRef 18 19).2 = false.
Proof.
  intros c. assert (Hr : reachable c) by (apply demo_reachable; by_run).
  assert (Hin : demoTakenItem ∈ sItems (steerQueue (cBackend c) demoKey))
    by (apply (list_elem_of_lookup_2 _ 0); by_run).
  split; [exact Hin|].
  refine (proj1 (stale_steer_claim_refused c false demoKey demoTakenItem demoSteerRef 18 19 Hr Hin _ _));
    [by_run|discriminate].
Defined.

Lemma followUp_once_per_trigger_witness :
  exists b' i, ClaimNextFollowUp (cBackend (demo demoStart)) false demoKey (lit "r1") 15 (lit "tok2")
    = (b', Ok (Some (i, demoFollowUpRef))) /\
    forall now token b'' i' ref', ClaimNextFollowUp b' false demoKey (lit "r1") now token = (b'', Ok (Some (i', ref'))) ->
      fID i' = fID i.
Proof.
  assert (Hr : reachable (demo demoStart)) by (apply demo_reachable; by_run).
  destruct (ClaimNextFollowUp (cBackend (demo demoStart)) false demoKey (lit "r1") 15 (lit "tok2"))
    as [b' r] eqn:E.
  assert (Hr2 : r = Ok (Some (fSet QueueClaimed (Some demoFollowUpRef)
     (mkFollowUpItem (lit "f1") (lit "bot") (lit "s1") (lit "r1") (lit "inv3") (lit "after") QueueAccepted 1 None [] 13),
      demoFollowUpRef))) by (apply (f_equal snd) in E; cbn [snd] in E; rewrite <- E; by_run).
  subst r. eexists _, _. split; [reflexivity|]. intros now token b'' i' ref' H.
  pose proof (followUp_once_per_trigger _ _ _ _ _ _ _ _ _ Hr E) as (_ & Hagain & _).
  exact (proj2 (Hagain now token b'' _ H) i' ref' eq_refl).
Defined.

Lemma enqueue_steer_idempotent_witness :
  let b := cBackend (demo demoStart) in
  exists b' item, EnqueueSteer b false demoKey (lit "st4") (lit "inv4") (lit "more") 30 = (b', Ok item) /\
    item ∈ sItems (steerQueue b' demoKey).
Proof.
  intros b. destruct (EnqueueSteer b false demoKey (lit "st4") (lit "inv4") (lit "more") 30) as [b' r] eqn:E.
  assert (Hr : r = Ok (mkSteerItem (lit "st4") (lit "bot") (lit "s1") (lit "r1") (lit "inv4") (lit "more")
                         QueueAccepted 3 None [] 30))
    by (apply (f_equal snd) in E; cbn [snd] in E; rewrite <- E; by_run).
  subst r. eexists _, _. split; [reflexivity|].
  exact (proj1 (proj2 (proj2 (enqueue_steer_idempotent _ _ _ _ _ _ _ _ _ E)))).
Defined.

Lemma promote_once_witness :
  exists b' i, PromoteFollowUpToSteer (cBackend (demo demoStart)) false demoKey (lit "f1") (lit "p1") 16
    = (b', Ok (lit "f1", i)) /\ sPayload i = lit "after" /\ i ∈ sItems (steerQueue b' demoKey).
Proof.
  assert (Hr : reachable (demo demoStart)) by (apply demo_reachable; by_run).
  destruct (PromoteFollowUpToSteer (cBackend (demo demoStart)) false demoKey (lit "f1") (lit "p1") 16)
    as [b' r] eqn:E.
  assert (Hr2 : r = Ok (lit "f1", mkSteerItem (lit "p1") (lit "bot") (lit "s1") (lit "r1") (lit "promote:f1")
                          (lit "after") QueueAccepted 3 None [] 16))
    by (apply (f_equal snd) in E; cbn [snd] in E; rewrite <- E; by_run).
  subst r. eexists _, _. split; [reflexivity|]. split; [reflexivity|].
  refine (proj1 (promote_once _ _ _ _ _ _ _ _ Hr _ _ E)); [discriminate|].
  apply (bool_decide_unpack _). by_run.
Defined.

Lemma reorder_steers_moves_witness :
  exists b' l, ReorderSteer (cBackend (demo demoStart)) false demoKey (lit "st2") (lit "st1") 16 = (b', Ok l) /\
    (sID <$> l) = [lit "st2"; lit "st1"] /\
    moved [lit "st1"; lit "st2"] [lit "st2"; lit "st1"] (lit "st2") (Some (lit "st1")).
Proof.
  destruct (ReorderSteer (cBackend (demo demoStart)) false demoKey (lit "st2") (lit "st1") 16) as [b' r] eqn:E.
  assert (Hr : r = Ok
    [mkSteerItem (lit "st2") (lit "bot") (lit "s1") (lit "r1") (lit "inv2") (lit "second") QueueAccepted 1 None [] 12;
     mkSteerItem (lit "st1") (lit "bot") (lit "s1") (lit "r1") (lit "inv1") (lit "first") QueueAccepted 2 None [] 11])
    by (apply (f_equal snd) in E; cbn [snd] in E; rewrite <- E; by_run).
  subst r. eexists _, _. split; [reflexivity|]. split; [reflexivity|].
  destruct (reorder_steers_moves _ _ _ _ _ _ _ _ E) as (Hm & Hl & _). rewrite <- Hl in Hm. exact Hm.
Defined.

(** A full queue and a claimed steer given back to it. *)
Definition demoFill : list op :=
  OpClaimNextSteer false (demoHandle (lit "owner") 7) true 14 (lit "tok1") ::
  ((fun n => OpEnqueueSteer false demoKey (lit "x" ++ itoa (Z.of_nat n)) (lit "y" ++ itoa (Z.of_nat n)) (lit "p") 20)
     <$> seq 0 63) ++
  [OpReleaseSteer false demoKey demoSteerRef 30 31].
(** the bound on pending items is checked at enqueue and promotion only: a
    claimed steer does not count, and releasing it can bring the accepted items
    to 65. *)
Example pending_steers_can_exceed_capacity :
  exists c, reachable c /\ countPendingSteers (steerQueue (cBackend c) demoKey) = S MaxPendingQueueItems.
Proof.
  exists (demo (demoStart ++ demoFill)). split; [apply demo_reachable; by_run|by_run].
Qed.
