(* ===== verification/BackendCorrect.v ===== *)
(** * Correctness of the backend around the queues

    History-reset leases exclude each other and block new runs, expiry never
    drops the snapshot of an active run, and the decision-output logs are
    gap-free, idempotent and bounded. *)

From S2P Require Import Prelude GoStr LiveQueue RunState MemoryBackend MemoryDecisionOutput MemoryLiveQueue QueueProtocol.
From stdpp Require Import relations.
#[local] Open Scope Z_scope.

(** ** Keys of reset scopes *)
(** Identifiers as the callers build them: trimmed, and the bot's has no
    colon. *)
Definition clean_scope (s : ResetScope) : Prop :=
  trim_space (rsBotID s) = rsBotID s /\ trim_space (rsSessionID s) = rsSessionID s /\
  (":"%char ∉ rsBotID s) /\ rsBotID s <> [].
Lemma clean_normalized s : clean_scope s -> scope_normalized s = s.
Proof. intros (Hb & Hs & _). unfold scope_normalized. rewrite Hb, Hs. by destruct s. Qed.
Lemma clean_bot s : clean_scope s -> clean_scope (mkResetScope (rsBotID s) []).
Proof. intros (Hb & _ & Hc & Hne). by repeat split. Qed.

Lemma colon_split (a b x y : str) :
  ":"%char ∉ a -> ":"%char ∉ b -> a ++ ":"%char :: x = b ++ ":"%char :: y -> a = b /\ x = y.
Proof.
  revert b; induction a as [|c a IH]; intros [|d b] Ha Hb H; simplify_eq/=; try done.
  - destruct Hb. by left.
  - destruct Ha. by left.
  - apply not_elem_of_cons in Ha as [_ ?], Hb as [_ ?]. destruct (IH b) as [-> ->]; done.
Qed.
Lemma key_bot s : clean_scope s -> rsSessionID s = [] -> historyResetKey s = lit "bot:" ++ rsBotID s.
Proof. intros Hc Hs. unfold historyResetKey. by rewrite clean_normalized, Hs. Qed.
Lemma key_session s : clean_scope s -> rsSessionID s <> [] ->
  historyResetKey s = lit "session:" ++ rsBotID s ++ ":"%char :: rsSessionID s.
Proof.
  intros Hc Hs. unfold historyResetKey. rewrite clean_normalized by done.
  by rewrite (proj2 (is_empty_false _) Hs).
Qed.
Lemma key_inj s t : clean_scope s -> clean_scope t -> historyResetKey s = historyResetKey t ->
  rsBotID s = rsBotID t /\ rsSessionID s = rsSessionID t.
Proof.
  intros Hs Ht. destruct (decide (rsSessionID s = [])) as [Es|Es], (decide (rsSessionID t = [])) as [Et|Et];
    rewrite ?(key_bot s), ?(key_bot t), ?(key_session s), ?(key_session t) by done; intros H; simpl in H; simplify_eq.
  - by rewrite Es, Et.
  - apply colon_split in H as [-> ->]; [done|apply Hs|apply Ht].
Qed.
Lemma session_prefix_key s b : clean_scope s -> ":"%char ∉ b ->
  has_prefix (historyResetKey s) (sessionPrefix b) = true <-> rsSessionID s <> [] /\ rsBotID s = b.
Proof.
  intros Hs Hb. rewrite has_prefix_spec. unfold sessionPrefix.
  destruct (decide (rsSessionID s = [])) as [E|E].
  - rewrite key_bot by done. split; [intros [r H]; simpl in H; by simplify_eq|intros [? _]; done].
  - rewrite key_session by done. split.
    + intros [r H]. rewrite <- !app_assoc in H. simpl in H. simplify_eq.
      apply colon_split in H as [-> _]; [done|apply Hs|done].
    + intros [_ <-]. exists (rsSessionID s). by rewrite <- !app_assoc.
Qed.

(** ** Leases that exclude each other *)
(** A bot's lease covers every session of the bot. *)
Definition overlap (s t : ResetScope) : Prop :=
  rsBotID s = rsBotID t /\ (rsSessionID s = [] \/ rsSessionID t = [] \/ rsSessionID s = rsSessionID t).
Lemma overlap_sym s t : overlap s t -> overlap t s.
Proof. intros [Hb Hs]. split; [done|]. destruct Hs as [?|[?|?]]; auto. Qed.

Record resets_wf (m : gmap str ResetLease) : Prop := mkResetsWf {
  rwf_keys : forall key l, m !! key = Some l -> clean_scope (rlScope l) /\ key = historyResetKey (rlScope l);
  rwf_disjoint : forall k1 k2 l1 l2, m !! k1 = Some l1 -> m !! k2 = Some l2 ->
    overlap (rlScope l1) (rlScope l2) -> k1 = k2 }.

Lemma elem_of_sessionLeases m b l :
  l ∈ sessionLeases m b <-> exists key, m !! key = Some l /\ has_prefix key (sessionPrefix b) = true.
Proof.
  unfold sessionLeases. rewrite list_elem_of_fmap. split.
  - intros ([key l'] & -> & [Hin Hp]%elem_of_filter_bool). exists key.
    by apply elem_of_map_to_list in Hin.
  - intros (key & Hk & Hp). exists (key, l). split; [done|]. apply elem_of_filter_bool.
    split; [by apply elem_of_map_to_list|done].
Qed.
(** The effective lease of a scope is one that overlaps it, if there is any. *)
Lemma effective_None m s : resets_wf m -> clean_scope s -> effectiveHistoryReset m s = None ->
  forall key l, m !! key = Some l -> ~ overlap s (rlScope l).
Proof.
  intros [Hk _] Hs He key l Hl [Hb Hov]. destruct (Hk _ _ Hl) as [Hc ->].
  unfold effectiveHistoryReset in He. rewrite clean_normalized in He by done.
  destruct (decide (rsSessionID (rlScope l) = [])) as [El|El].
  - rewrite (key_bot (mkResetScope _ [])) in He; [|by apply clean_bot|done].
    rewrite (key_bot (rlScope l)), <- Hb in Hl by done. cbn [rsBotID] in He. by rewrite Hl in He.
  - assert (Hin : l ∈ sessionLeases m (rsBotID s)).
    { apply elem_of_sessionLeases. eexists. split; [exact Hl|]. apply session_prefix_key; [done|apply Hs|done]. }
    unfold effectiveResetLease in He. destruct (m !! _) as [?|]; [done|].
    rewrite clean_normalized in He by done. case_if.
    + destruct (sessionLeases m _); [by apply not_elem_of_nil in Hin|done].
    + str_hyps. destruct (find_idx _ _) as [[? ?]|] eqn:Ef; [done|].
      apply find_idx_None in Ef. rewrite Forall_forall in Ef. specialize (Ef l Hin). str_hyps.
      apply Ef. destruct Hc as (_ & -> & _). destruct Hov as [?|[?|?]]; congruence.
Qed.
Lemma effective_Some m s l : resets_wf m -> clean_scope s -> effectiveHistoryReset m s = Some l ->
  overlap s (rlScope l) /\ exists key, m !! key = Some l.
Proof.
  intros [Hk _] Hs. unfold effectiveHistoryReset, effectiveResetLease. rewrite !clean_normalized by done.
  assert (Hses : forall x, x ∈ sessionLeases m (rsBotID s) ->
            rsBotID (rlScope x) = rsBotID s /\ clean_scope (rlScope x) /\ exists key, m !! key = Some x).
  { intros x (key & Hx & Hp)%elem_of_sessionLeases. destruct (Hk _ _ Hx) as [Hc ->].
    apply session_prefix_key in Hp as [_ Hb]; [|done|apply Hs]. split_and!; eauto. }
  destruct (m !! _) as [l'|] eqn:E.
  - intros [= ->]. destruct (Hk _ _ E) as [Hc Heq]. symmetry in Heq.
    apply key_inj in Heq as [Hb He]; [|done|by apply clean_bot]. simpl in *.
    split; [split; auto|eauto].
  - case_if; str_hyps.
    + intros Hh. assert (Hin : l ∈ sessionLeases m (rsBotID s)).
      { destruct (sessionLeases m _); [done|]. simpl in Hh. simplify_eq. by left. }
      destruct (Hses l Hin) as (? & _ & ?). split; [split; auto|done].
    + destruct (find_idx _ _) as [[n x]|] eqn:Ef; [|done]. simpl. intros [= ->].
      apply find_idx_Some in Ef as [Hn Hx]. str_hyps.
      destruct (Hses l) as (? & Hc & ?); [by eapply list_elem_of_lookup_2|].
      destruct Hc as (_ & Hc & _). split; [split; [done|]|done]. right; right. congruence.
Qed.

Lemma resets_wf_subset m m' : m' ⊆ m -> resets_wf m -> resets_wf m'.
Proof.
  intros Hsub [H1 H2]. split.
  - intros key l Hl. eapply H1, lookup_weaken; done.
  - intros k1 k2 l1 l2 Hl1 Hl2. eapply H2; by eapply lookup_weaken.
Qed.
Lemma resets_wf_insert m s tok e :
  resets_wf m -> clean_scope s -> (forall key l, m !! key = Some l -> ~ overlap s (rlScope l)) ->
  resets_wf (<[historyResetKey s := mkResetLease s tok e]> m).
Proof.
  intros [H1 H2] Hs Hno. split.
  - intros key l [[<- <-]|[_ Hl]]%lookup_insert_Some; [done|by eapply H1].
  - intros k1 k2 l1 l2 [[<- <-]|[Hn1 Hl1]]%lookup_insert_Some [[<- <-]|[Hn2 Hl2]]%lookup_insert_Some Hov;
      simpl in *; [done| | |by eapply H2].
    + by destruct (Hno _ _ Hl2).
    + apply overlap_sym in Hov. by destruct (Hno _ _ Hl1).
Qed.
Lemma resets_wf_renew m key l tok e :
  resets_wf m -> m !! key = Some l -> resets_wf (<[key := mkResetLease (rlScope l) tok e]> m).
Proof.
  intros [H1 H2] Hkey. split.
  - intros k l' [[<- <-]|[_ Hl]]%lookup_insert_Some; [simpl; by apply H1|by eapply H1].
  - intros k1 k2 l1 l2 [[<- <-]|[Hn1 Hl1]]%lookup_insert_Some [[<- <-]|[Hn2 Hl2]]%lookup_insert_Some Hov;
      simpl in *; [done|by eapply H2|by eapply H2|by eapply H2].
Qed.

Section with_unicode.
Context {U : Unicode}.

(** Operations whose acquired scopes are clean. *)
Definition clean_op (o : op) : Prop :=
  match o with OpAcquireHistoryReset _ s _ _ _ => clean_scope s | _ => True end.
Inductive clean_step (b : MemoryBackend) : MemoryBackend -> Prop :=
  | do_clean_step o : clean_op o -> clean_step b (run_op b o).
Definition clean_reachable (b : MemoryBackend) : Prop := exists ttl, rtc clean_step (newMemoryBackend ttl) b.

Lemma resets_purgeExpired b now : historyResets (purgeExpired b now) = historyResets b.
Proof using Type. unfold purgeExpired. by case_if. Qed.
Lemma resets_runUpdate b k u e now : historyResets (runUpdate b k u e now).1 = historyResets b.
Proof using Type. unfold runUpdate. by destruct (u _ _) as [[? []]|]. Qed.
Lemma purged_resets_subset b now : historyResets (purgeHistoryResets b now) ⊆ historyResets b.
Proof using Type. apply map_filter_subseteq. Qed.
Ltac same_resets :=
  repeat match goal with
  | |- historyResets (match ?x with _ => _ end).1 = _ => destruct x; try reflexivity
  | |- historyResets (if ?x then _ else _).1 = _ => destruct x; try reflexivity
  end;
  unfold putSteer, putFollowUp, setQueues, putDecisionOutput, setDecisionOutputs;
  cbn [historyResets fst]; rewrite ?resets_purgeExpired; try reflexivity.
Lemma resets_touch b r now : historyResets (touchDecisionOutput b r now).1 = historyResets b.
Proof using Type. done. Qed.

(** Only the lease operations and the start of a run touch the leases. *)
Definition lease_op (o : op) : bool :=
  match o with
  | OpStartRun _ _ _ _ | OpAcquireHistoryReset _ _ _ _ _ | OpRenewHistoryReset _ _ _ _
  | OpReleaseHistoryReset _ _ | OpEffectiveHistoryReset _ _ _ => true
  | _ => false
  end.
Lemma run_op_resets b o : lease_op o = false -> historyResets (run_op b o) = historyResets b.
Proof using Type.
  destruct o; try done; intros _; unfold run_op.
  - unfold EnqueueSteer, liveSnapshot. same_resets.
  - unfold EnqueueFollowUp, liveSnapshot. same_resets.
  - unfold PendingQueues. same_resets.
  - unfold ReorderSteer. same_resets.
  - unfold ReorderFollowUp. same_resets.
  - unfold UpdateSteer. same_resets.
  - unfold UpdateFollowUp. same_resets.
  - unfold CancelSteer. same_resets.
  - unfold CancelFollowUp. same_resets.
  - unfold CloseSteerRun. same_resets.
  - unfold PromoteFollowUpToSteer, liveSnapshot. same_resets.
  - unfold ClaimNextSteer, liveSnapshot. same_resets.
  - unfold ApplySteer, withSteerClaim, liveSnapshot. same_resets.
  - unfold ReleaseSteer, withSteerClaim, liveSnapshot. same_resets.
  - unfold ClaimNextFollowUp. same_resets.
  - unfold ApplyFollowUp, withFollowUpClaim. same_resets.
  - unfold ReleaseFollowUp, withFollowUpClaim. same_resets.
  - unfold RejectFollowUp, withFollowUpClaim. same_resets.
  - unfold Load, liveSnapshot. same_resets.
  - unfold Update. destruct update; [|done]. destruct ctxDone; [done|].
    by rewrite resets_runUpdate, resets_purgeExpired.
  - unfold AppendDecisionOutput, touchDecisionOutput. destruct ctxDone; [done|].
    destruct (appendLog _ _ _ _). cbn [fst]. same_resets.
  - unfold ReadDecisionOutput. same_resets.
  - unfold ClaimDecisionOutput, touchDecisionOutput. same_resets.
  - unfold ReleaseDecisionOutput. same_resets.
Qed.

Lemma purged_wf b now : resets_wf (historyResets b) -> resets_wf (historyResets (purgeHistoryResets b now)).
Proof using Type. apply resets_wf_subset, purged_resets_subset. Qed.
Lemma Acquire_wf b c s t ttl now :
  clean_scope s -> resets_wf (historyResets b) ->
  resets_wf (historyResets (AcquireHistoryReset b c s t ttl now).1).
Proof using Type.
  intros Hs Hwf. unfold AcquireHistoryReset. rewrite !clean_normalized by done. case_if; [done|]. case_if; [done|].
  pose proof (purged_wf b now Hwf) as Hp. destruct (effectiveHistoryReset _ _) eqn:E; [done|].
  cbn [fst setHistoryResets historyResets].
  apply resets_wf_insert; [done|done|]. by eapply effective_None.
Qed.
Lemma Renew_wf b c l ttl now :
  resets_wf (historyResets b) -> resets_wf (historyResets (RenewHistoryReset b c l ttl now).1).
Proof using Type.
  intros Hwf. unfold RenewHistoryReset. case_if; [done|]. case_if; [done|].
  pose proof (purged_wf b now Hwf) as Hp. destruct (historyResets _ !! _) eqn:E; [|done].
  case_if; [done|]. destruct (oppositeHistoryReset _ _); [done|].
  cbn [fst setHistoryResets historyResets]. by apply resets_wf_renew.
Qed.
Lemma run_op_resets_wf b o : clean_op o -> resets_wf (historyResets b) -> resets_wf (historyResets (run_op b o)).
Proof using Type.
  intros Hc Hwf. destruct (lease_op o) eqn:Hl; [|by rewrite run_op_resets]. destruct o; try done; unfold run_op.
  - unfold StartRunIfNoHistoryReset. destruct update; [|done]. case_if; [done|].
    destruct (effectiveHistoryReset _ _); [by apply purged_wf|].
    rewrite resets_runUpdate, resets_purgeExpired. by apply purged_wf.
  - by apply Acquire_wf.
  - by apply Renew_wf.
  - unfold ReleaseHistoryReset. case_if; [done|]. case_if; [done|]. destruct (_ !! _); [|done]. case_if; [done|].
    cbn [fst setHistoryResets historyResets]. eapply resets_wf_subset; [|done]. apply delete_subseteq.
  - unfold EffectiveHistoryReset. case_if; [done|]. case_if; [done|]. by apply purged_wf.
Qed.
Lemma clean_reachable_wf b : clean_reachable b -> resets_wf (historyResets b).
Proof using Type.
  intros [ttl H].
  assert (Hwf : resets_wf (historyResets (newMemoryBackend ttl)))
    by (split; simpl; intros *; by rewrite lookup_empty).
  revert Hwf. induction H as [|b b' b'' [o Ho] _ IH]; [done|]. intros Hwf. by apply IH, run_op_resets_wf.
Qed.
Lemma purged_lookup b now key l :
  historyResets (purgeHistoryResets b now) !! key = Some l <->
  historyResets b !! key = Some l /\ expired now (rlExpiresAt l) = false.
Proof using Type. unfold purgeHistoryResets; simpl. by rewrite map_lookup_filter_Some. Qed.

(** ** Properties *)

(** history-reset leases exclude each other.  After any operations, no two
    recorded leases overlap, where a bot's lease covers all of its sessions; a
    lease is granted exactly when no unexpired one overlaps the scope, and the
    lease granted is for that scope and lasts for the time asked. *)
Theorem history_resets_exclusive (b : MemoryBackend) (s : ResetScope) (token : str) (ttl now : Z) :
  clean_reachable b -> clean_scope s -> trim_space token <> [] -> 0 < ttl ->
  (forall k1 k2 l1 l2, historyResets b !! k1 = Some l1 -> historyResets b !! k2 = Some l2 ->
     overlap (rlScope l1) (rlScope l2) -> k1 = k2) /\
  let r := (AcquireHistoryReset b false s token ttl now).2 in
  ((exists key l, historyResets b !! key = Some l /\ expired now (rlExpiresAt l) = false /\
                  overlap s (rlScope l)) /\ r = Ok None) \/
  ((forall key l, historyResets b !! key = Some l -> expired now (rlExpiresAt l) = false ->
                  ~ overlap s (rlScope l)) /\
   r = Ok (Some (mkResetLease s (trim_space token) (now + ttl)))).
Proof using Type.
  intros Hr%clean_reachable_wf Hs Htok Httl. split; [apply (rwf_disjoint _ Hr)|].
  unfold AcquireHistoryReset. rewrite !clean_normalized by done.
  assert (scope_valid s = true) as ->.
  { unfold scope_valid. rewrite clean_normalized by done. destruct Hs as (_ & _ & _ & Hne).
    by rewrite (proj2 (is_empty_false _) Hne). }
  rewrite (proj2 (is_empty_false _) Htok), (proj2 (Z.leb_gt _ _) Httl). cbn [negb orb].
  pose proof (purged_wf b now Hr) as Hp. destruct (effectiveHistoryReset _ _) as [l|] eqn:E; [left|right].
  - destruct (effective_Some _ _ _ Hp Hs E) as [Hov (key & [Hk He]%purged_lookup)]. eauto 6.
  - split; [|done]. intros key l Hk He. eapply effective_None; [exact Hp|done|done|].
    by apply purged_lookup.
Qed.

(** no run starts in a session while an unexpired lease covers it: the
    start fails and no snapshot changes; without such a lease the start
    applies the caller's update to the session's snapshot. *)
Theorem run_start_respects_resets (b : MemoryBackend) (k : Key) (update : SnapshotUpdate) (now : Z) :
  let scope := mkResetScope (kBotID k) (kSessionID k) in
  clean_reachable b -> clean_scope scope ->
  let '(b', r) := StartRunIfNoHistoryReset b false k (Some update) now in
  ((exists key l, historyResets b !! key = Some l /\ expired now (rlExpiresAt l) = false /\
                  overlap scope (rlScope l)) /\
   r = Err ErrHistoryResetInProgress /\ snapshots b' = snapshots b) \/
  ((forall key l, historyResets b !! key = Some l -> expired now (rlExpiresAt l) = false ->
                  ~ overlap scope (rlScope l)) /\
   let p := purgeExpired (purgeHistoryResets b now) now in
   let current := default zeroSnapshot (snapshots p !! key_string k) in
   (b', r) = match update current (negb (is_empty (snSessionID current))) with
             | Err _ => (p, Err ErrUpdate)
             | Ok (s, false) => (p, Ok (s, false))
             | Ok (s, true) => (store p k s now, Ok (s, true))
             end).
Proof using Type.
  intros scope Hr%clean_reachable_wf Hs. pose proof (purged_wf b now Hr) as Hp.
  unfold StartRunIfNoHistoryReset. fold scope.
  destruct (effectiveHistoryReset _ _) as [l|] eqn:E.
  - left. destruct (effective_Some _ _ _ Hp Hs E) as [Hov (key & [Hk He]%purged_lookup)].
    split; [eauto 6|done].
  - match goal with |- let '(_, _) := ?x in _ => destruct x as [b' r] eqn:Er end. right. split.
    + intros key l Hk He. eapply effective_None; [exact Hp|done|done|]. by apply purged_lookup.
    + rewrite <- Er. unfold runUpdate. done.
Qed.

(** expiry never takes the snapshot of an active run, whatever the clock
    says, and takes a snapshot or a decision log only once its expiry time has
    come; when the cleanup runs, exactly the expired entries go. *)
Theorem purge_keeps_active_runs (b : MemoryBackend) (now : Z) (key : str) :
  (forall s, snapshots b !! key = Some s -> snapshotActive s = true ->
     snapshots (purgeExpired b now) !! key = Some s) /\
  (forall s, snapshots b !! key = Some s -> snapshots (purgeExpired b now) !! key = None ->
     snapshotActive s = false /\ exists e, snapshotExpiresAt b !! key = Some e /\ e <= now) /\
  (forall l, decisionOutputs b !! key = Some l -> decisionOutputs (purgeExpired b now) !! key = None ->
     exists e, decisionOutputExpiresAt b !! key = Some e /\ e <= now) /\
  (nextCleanup b <= now ->
     (forall e, snapshotExpiresAt (purgeExpired b now) !! key = Some e <->
                snapshotExpiresAt b !! key = Some e /\ now < e) /\
     (forall l, decisionOutputs (purgeExpired b now) !! key = Some l <->
                decisionOutputs b !! key = Some l /\
                forall e, decisionOutputExpiresAt b !! key = Some e -> now < e)).
Proof using Type.
  unfold purgeExpired, expiredKey, expired.
  destruct (negb (time_is_zero (nextCleanup b)) && (now <? nextCleanup b)) eqn:Hskip; cbn [snapshots snapshotExpiresAt decisionOutputs].
  { split_and!; [done|by intros s ->|by intros l ->|]. intros Hle. str_hyps. lia. }
  clear Hskip. split_and!.
  - intros s Hs Ha. apply map_lookup_filter_Some. split; [done|]. simpl. intros [_ ?]. congruence.
  - intros s Hs Hn. apply map_lookup_filter_None in Hn as [?|Hn]; [congruence|].
    specialize (Hn s Hs). simpl in Hn. apply dec_stable in Hn as [He ?]. split; [done|].
    destruct (snapshotExpiresAt b !! key) as [e|]; [|done]. exists e. str_hyps. split; [done|lia].
  - intros l Hl Hn. apply map_lookup_filter_None in Hn as [?|Hn]; [congruence|].
    specialize (Hn l Hl). simpl in Hn. destruct (decisionOutputExpiresAt b !! key) as [e|]; [|done].
    exists e. split; [done|]. apply not_false_iff_true in Hn. str_hyps. lia.
  - intros _. split.
    + intros e. rewrite map_lookup_filter_Some. simpl. rewrite negb_false_iff, Z.ltb_lt. done.
    + intros l. rewrite map_lookup_filter_Some. simpl. split; intros [Hl He]; (split; [done|]).
      * intros e Hx. rewrite Hx in He. str_hyps. lia.
      * destruct (decisionOutputExpiresAt b !! key) as [e|]; [|done].
        specialize (He e eq_refl). apply negb_false_iff. lia.
Qed.
End with_unicode.

(** ** Decision-output logs *)
(** A producer's calls, in the order they arrive at one log. *)
Definition run_log (limits : DecisionOutputLimits) (calls : list (Z * option str))
    (l : memoryDecisionOutput) : memoryDecisionOutput :=
  fold_left (fun l c => (appendLog l c.1 c.2 limits).1) calls l.
Definition total_bytes (events : list str) : Z := fold_right (fun e n => slen e + n) 0 events.
Lemma total_bytes_app a b : total_bytes (a ++ b) = total_bytes a + total_bytes b.
Proof. induction a as [|e a IH]; simpl; [done|]. rewrite IH. lia. Qed.
Lemma total_bytes_nonneg a : 0 <= total_bytes a.
Proof. induction a as [|e a IH]; simpl; [done|]. unfold slen. lia. Qed.

Section producer.
Context (limits : DecisionOutputLimits) (ps : list str).
Abbreviation n := (Z.of_nat (length ps)).
Context (fits_bytes : 0 < MaxBytes limits -> total_bytes ps <= MaxBytes limits).
Context (fits_events : 0 < MaxEvents limits -> n <= MaxEvents limits).

(** Payload [i] under sequence number [i], then the closing call. *)
Definition consistent (c : Z * option str) : Prop :=
  (forall i, 1 <= c.1 <= n -> c.1 = Z.of_nat i + 1 -> c.2 = ps !! i) /\ (c.1 = n + 1 -> c.2 = None).
Definition all_calls (m : nat) : list (Z * option str) :=
  (imap (fun i p => (Z.of_nat (m + i) + 1, Some p)) (drop m ps)) ++ [(n + 1, None)].
(** The log holds the first [m] payloads; it is closed only when complete. *)
Record log_at (m : nat) (l : memoryDecisionOutput) : Prop := mkLogAt {
  la_le : (m <= length ps)%nat;
  la_events : doEvents l = take m ps;
  la_bytes : doBytes l = total_bytes (take m ps);
  la_failed : doFailed l = false;
  la_done : doDone l = true -> m = length ps }.

Lemma append_at m l c :
  log_at m l -> consistent c ->
  exists m', (m <= m')%nat /\ log_at m' (appendLog l c.1 c.2 limits).1 /\
    (doDone l = true -> doDone (appendLog l c.1 c.2 limits).1 = true) /\
    (c.1 = Z.of_nat m + 1 -> (m < length ps)%nat -> m' = S m) /\
    (c.1 = n + 1 -> m = length ps -> doDone (appendLog l c.1 c.2 limits).1 = true).
Proof using fits_bytes fits_events.
  intros Hl [Hp Hclose]. pose proof Hl as [Hle He Hb Hf Hd]. destruct c as [seq payload]; simpl in *.
  assert (Hlen : Z.of_nat (length (doEvents l)) = Z.of_nat m) by (rewrite He, length_take; lia).
  unfold appendLog. rewrite Hf, Hlen. destruct (doDone l) eqn:Edone; simpl.
  { exists m. split_and!; try done. intros _ Hlt. specialize (Hd eq_refl). lia. }
  destruct (Z.leb_spec seq (Z.of_nat m)); simpl; [exists m; split_and!; try done; lia|].
  destruct (Z.eqb_spec seq (Z.of_nat m + 1)) as [-> | Hne]; simpl; [|exists m; split_and!; try done; lia].
  destruct (decide (m = length ps)) as [-> | Hne].
  - rewrite (Hclose ltac:(lia)). simpl. exists (length ps). split_and!; try done; lia.
  - destruct (lookup_lt_is_Some_2 ps m) as [p Hm]; [lia|].
    rewrite (Hp m ltac:(lia) eq_refl), Hm.
    assert (Htake : take (S m) ps = take m ps ++ [p]) by (by apply take_S_r).
    assert (Htot : total_bytes (take (S m) ps) <= total_bytes ps).
    { rewrite <- (take_drop (S m) ps) at 2. rewrite total_bytes_app. pose proof (total_bytes_nonneg (drop (S m) ps)). lia. }
    rewrite Htake, total_bytes_app in Htot. simpl in Htot.
    assert (exceedsDecisionOutputLimits (doBytes l) (Z.of_nat m) (slen p) limits = false) as ->.
    { unfold exceedsDecisionOutputLimits. rewrite Hb. apply orb_false_iff; split; apply andb_false_iff.
      - destruct (Z.ltb_spec 0 (MaxBytes limits)); [right; specialize (fits_bytes ltac:(lia)); lia|by left].
      - destruct (Z.ltb_spec 0 (MaxEvents limits)); [right; specialize (fits_events ltac:(lia)); lia|by left]. }
    simpl. exists (S m). split_and!; try lia; try done.
    split; simpl; [lia|by rewrite Htake, He|rewrite Htake, total_bytes_app, Hb; simpl; lia|done|done].
Qed.
Lemma all_calls_step m : (m < length ps)%nat ->
  exists p, ps !! m = Some p /\ all_calls m = (Z.of_nat m + 1, Some p) :: all_calls (S m).
Proof using Type.
  intros Hm. destruct (lookup_lt_is_Some_2 ps m Hm) as [p Hp]. exists p. split; [done|].
  unfold all_calls. rewrite (drop_S _ _ _ Hp). simpl. f_equal; [f_equal; lia|]. f_equal.
  apply imap_ext. intros i x _. simpl. f_equal. lia.
Qed.
Lemma all_calls_suffix m m' : (m <= m' <= length ps)%nat -> all_calls m' `sublist_of` all_calls m.
Proof using Type.
  intros [H1 H2]. induction H1 as [|m' H1 IH]; [done|].
  etrans; [|apply IH; lia]. destruct (all_calls_step m') as (p & _ & ->); [lia|]. by constructor.
Qed.
Lemma run_log_at calls m l :
  log_at m l -> Forall consistent calls ->
  exists m', (m <= m')%nat /\ log_at m' (run_log limits calls l) /\
    (doDone l = true -> doDone (run_log limits calls l) = true) /\
    (all_calls m `sublist_of` calls -> doDone (run_log limits calls l) = true).
Proof using fits_bytes fits_events.
  revert m l. induction calls as [|c calls IH]; intros m l Hl Hc.
  - exists m. split_and!; try done. intros Hs%sublist_nil_r. unfold all_calls in Hs. by apply app_eq_nil in Hs as [_ ?].
  - apply Forall_cons in Hc as [Hc Hcs].
    destruct (append_at m l c Hl Hc) as (m1 & Hm1 & Hl1 & Hd1 & Hnext & Hclose).
    destruct (IH m1 _ Hl1 Hcs) as (m' & Hm' & Hl' & Hd' & Hall). exists m'. split_and!; [lia|done|by auto|].
    intros Hsub. destruct (decide (m = length ps)) as [Hend|Hmore].
    + assert (Hall0 : all_calls m = [(n + 1, None)]) by (unfold all_calls; by rewrite drop_ge by lia).
      rewrite Hall0 in Hsub. apply sublist_cons_r in Hsub as [Hsub|(k & Heq & Hsub)].
      * apply Hall. assert (m1 = m) as -> by (pose proof (la_le _ _ Hl1); lia). by rewrite Hall0.
      * injection Heq as <- _. apply Hd', Hclose; done.
    + destruct (all_calls_step m) as (p & Hp & Heq); [pose proof (la_le _ _ Hl); lia|].
      rewrite Heq in Hsub. apply sublist_cons_r in Hsub as [Hsub|(k & Hck & Hsub)].
      * apply Hall. etrans; [|exact Hsub]. rewrite <- Heq. apply all_calls_suffix.
        pose proof (la_le _ _ Hl1). lia.
      * injection Hck as <- <-. apply Hall. rewrite (Hnext eq_refl); [done|]. pose proof (la_le _ _ Hl). lia.
Qed.
End producer.

(** The log's own books: bytes counted, limits kept. *)
Lemma append_bounded limits l seq payload :
  doBytes l = total_bytes (doEvents l) ->
  (0 < MaxBytes limits -> doBytes l <= MaxBytes limits) ->
  (0 < MaxEvents limits -> Z.of_nat (length (doEvents l)) <= MaxEvents limits) ->
  let l' := (appendLog l seq payload limits).1 in
  doBytes l' = total_bytes (doEvents l') /\
  (0 < MaxBytes limits -> doBytes l' <= MaxBytes limits) /\
  (0 < MaxEvents limits -> Z.of_nat (length (doEvents l')) <= MaxEvents limits).
Proof.
  intros Hb H1 H2. unfold appendLog. do 3 (case_if; [done|]). destruct payload as [p|]; [|done].
  unfold exceedsDecisionOutputLimits. case_if; [done|]. simpl.
  apply orb_false_iff in Heqb2 as [E1 E2]. rewrite total_bytes_app, length_app. simpl.
  split_and!; [lia| |]; intros Hpos.
  - rewrite (proj2 (Z.ltb_lt _ _) Hpos) in E1. simpl in E1. lia.
  - rewrite (proj2 (Z.ltb_lt _ _) Hpos) in E2. simpl in E2. lia.
Qed.

(** C23: decision-output logs make at-least-once delivery exactly once.  A
    producer numbers its payloads 1, 2, ... and closes the log with the next
    number; whatever calls reach the log, in any order and with any
    repetition or stray number outside the range, its events are at every
    moment a prefix of the payloads in order; and once the numbered calls
    have been made in order among them, the log holds exactly the payloads
    and is closed, when they fit the limits.  Whoever calls, the byte count is
    the size of the events and neither limit is passed. *)
Theorem decision_log_exactly_once (limits : DecisionOutputLimits) (ps : list str)
    (calls : list (Z * option str)) :
  (0 < MaxBytes limits -> total_bytes ps <= MaxBytes limits) ->
  (0 < MaxEvents limits -> Z.of_nat (length ps) <= MaxEvents limits) ->
  Forall (consistent ps) calls ->
  let l := run_log limits calls emptyDecisionOutput in
  (exists m, (m <= length ps)%nat /\ doEvents l = take m ps) /\ doFailed l = false /\
  (all_calls ps 0 `sublist_of` calls -> doEvents l = ps /\ doDone l = true) /\
  (forall any, let l := run_log limits any emptyDecisionOutput in
     doBytes l = total_bytes (doEvents l) /\
     (0 < MaxBytes limits -> doBytes l <= MaxBytes limits) /\
     (0 < MaxEvents limits -> Z.of_nat (length (doEvents l)) <= MaxEvents limits)).
Proof.
  intros Hb He Hc l.
  destruct (run_log_at limits ps Hb He calls 0 emptyDecisionOutput) as (m & _ & Hl & _ & Hall); [|done|].
  { split; simpl; try done. lia. }
  fold l in Hl, Hall. destruct Hl as [Hle Hev _ Hf Hd]. split_and!; [by exists m|done| |].
  - intros Hs. split; [|by apply Hall]. rewrite Hev, (Hd (Hall Hs)). apply firstn_all.
  - intros any. unfold run_log.
    assert (forall l0, let P l := doBytes l = total_bytes (doEvents l) /\
        (0 < MaxBytes limits -> doBytes l <= MaxBytes limits) /\
        (0 < MaxEvents limits -> Z.of_nat (length (doEvents l)) <= MaxEvents limits) in
        P l0 -> P (fold_left (fun l c => (appendLog l c.1 c.2 limits).1) any l0)) as H.
    { induction any as [|c any IH]; intros l0 P Hl0; simpl; [done|].
      apply IH. destruct Hl0 as (? & ? & ?). by apply append_bounded. }
    apply (H emptyDecisionOutput). simpl. split_and!; [done|lia|lia].
Qed.

(** ** Concrete inputs *)
#[local] Existing Instance ascii_unicode.
Definition demoScope (session : str) : ResetScope := mkResetScope (lit "bot") session.
Definition demoResets : MemoryBackend :=
  run_op (newMemoryBackend 0) (OpAcquireHistoryReset false (demoScope (lit "s1")) (lit "tok") 100 5).
Lemma clean_demo s : trim_space s = s -> clean_scope (demoScope s).
Proof. intros Hs. repeat split; [exact Hs| |discriminate]. apply (bool_decide_unpack _). vm_compute. reflexivity. Qed.
Lemma demoResets_reachable : clean_reachable demoResets.
Proof. exists 0. apply rtc_once. constructor. apply clean_demo. vm_compute. reflexivity. Qed.

Lemma history_resets_exclusive_witness :
  (AcquireHistoryReset demoResets false (demoScope []) (lit "tok2") 100 6).2 = Ok None /\
  (AcquireHistoryReset demoResets false (demoScope (lit "s2")) (lit "tok2") 100 6).2 =
    Ok (Some (mkResetLease (demoScope (lit "s2")) (lit "tok2") 106)).
Proof.
  pose proof (history_resets_exclusive demoResets (demoScope (lit "s2")) (lit "tok2") 100 6 demoResets_reachable
                (clean_demo _ eq_refl)) as [_ H]; [vm_compute; discriminate|lia|].
  split; [vm_compute; reflexivity|]. destruct H as [[_ H]|[_ H]].
  - vm_compute in H. discriminate.
  - exact H.
Defined.

Definition demoStartUpdate : SnapshotUpdate := fun s _ => Ok (s, true).
Lemma run_start_respects_resets_witness :
  (StartRunIfNoHistoryReset demoResets false (mkKey (lit "bot") (lit "s1")) (Some demoStartUpdate) 6).2
    = Err ErrHistoryResetInProgress.
Proof.
  pose proof (run_start_respects_resets demoResets (mkKey (lit "bot") (lit "s1")) demoStartUpdate 6
                demoResets_reachable (clean_demo (lit "s1") eq_refl)) as H.
  destruct (StartRunIfNoHistoryReset demoResets false _ _ _) as [b' r] eqn:E.
  destruct H as [(_ & H & _)|[_ H]]; [exact H|].
  apply (f_equal snd) in E. apply (f_equal snd) in H. cbn [snd] in *. rewrite <- E. vm_compute. reflexivity.
Defined.

Lemma decision_log_exactly_once_witness :
  let ps := [lit "a"; lit "bc"] in
  let calls := [(1, Some (lit "a")); (3, None); (1, Some (lit "a")); (2, Some (lit "bc")); (9, None); (3, None)] in
  doEvents (run_log (mkLimits 3 2) calls emptyDecisionOutput) = ps.
Proof.
  intros ps calls.
  assert (Hc : Forall (consistent ps) calls).
  { repeat constructor; simpl; intros; try reflexivity; try lia; destruct i as [|[|]]; try reflexivity; lia. }
  pose proof (decision_log_exactly_once (mkLimits 3 2) ps calls) as H.
  destruct H as (_ & _ & H & _); [vm_compute; discriminate|vm_compute; discriminate|exact Hc|].
  apply H. unfold all_calls, calls. simpl. repeat constructor.
Defined.
