(* ===== verification/Prune.v ===== *)
(** * Pruning of long text

    Models [internal/prune/text.go]: a text over its byte or line limit is
    cut to a head and a tail under a header, at rune starts, and the pieces
    shrink until the whole fits.  Go's [int] sums and products of lengths are
    written over [Z]; the one sum of caller-given sizes wraps. *)

From S2P Require Import Prelude GoStr.
#[local] Open Scope Z_scope.

Definition DefaultMarker : str := lit "[memoh pruned]".
Definition DefaultMaxBytes : Z := 64 * 1024.
Definition DefaultMaxLines : Z := 2000.

Record Config : Type := mkConfig {
  MaxBytes : Z; MaxLines : Z; HeadBytes : Z; TailBytes : Z; HeadLines : Z; TailLines : Z; Marker : str }.

Definition CountLines (s : str) : Z := if is_empty s then 0 else Z.of_nat (count_byte nl s) + 1.
Definition Exceeds (s : str) (maxBytes maxLines : Z) : bool :=
  (maxBytes <? slen s) || (maxLines <? CountLines s).

Definition normalizeConfig (cfg : Config) : Config :=
  mkConfig (if MaxBytes cfg <=? 0 then DefaultMaxBytes else MaxBytes cfg)
    (if MaxLines cfg <=? 0 then DefaultMaxLines else MaxLines cfg)
    (Z.max 0 (HeadBytes cfg)) (Z.max 0 (TailBytes cfg))
    (Z.max 0 (HeadLines cfg)) (Z.max 0 (TailLines cfg))
    (if is_empty (Marker cfg) then DefaultMarker else Marker cfg).

(** ** Cutting at rune starts *)
(** The largest rune start at or below the cut; [rev_bytes] are the bytes before
    it, last first. *)
Fixpoint backOff (rev_bytes : str) (rest : str) : str :=
  match rest with
  | c :: _ => if rune_start c then rev rev_bytes
              else match rev_bytes with
                   | [] => []
                   | d :: r => backOff r (d :: rest)
                   end
  | [] => rev rev_bytes
  end.
Definition safeUTF8Prefix (s : str) (maxBytes : Z) : str :=
  if (maxBytes <=? 0) || is_empty s then []
  else if slen s <=? maxBytes then s
  else backOff (rev (take (Z.to_nat maxBytes) s)) (drop (Z.to_nat maxBytes) s).
Definition safeUTF8Suffix (s : str) (maxBytes : Z) : str :=
  if (maxBytes <=? 0) || is_empty s then []
  else if slen s <=? maxBytes then s
  else drop_while (fun c => negb (rune_start c)) (drop (length s - Z.to_nat maxBytes) s).

Definition limitLinesPrefix (s : str) (maxLines : Z) : str :=
  if (maxLines <=? 0) || is_empty s then []
  else
    let lines := split_byte nl s in
    if Z.of_nat (length lines) <=? maxLines then s else join [nl] (take (Z.to_nat maxLines) lines).
Definition limitLinesSuffix (s : str) (maxLines : Z) : str :=
  if (maxLines <=? 0) || is_empty s then []
  else
    let lines := split_byte nl s in
    if Z.of_nat (length lines) <=? maxLines then s
    else join [nl] (drop (length lines - Z.to_nat maxLines) lines).

Definition boundedPrefix (s : str) (maxBytes maxLines : Z) : str :=
  if is_empty s || (maxBytes <=? 0) || (maxLines <=? 0) then []
  else limitLinesPrefix (safeUTF8Prefix s (Z.min maxBytes (slen s))) maxLines.
Definition boundedSuffix (s : str) (maxBytes maxLines : Z) : str :=
  if is_empty s || (maxBytes <=? 0) || (maxLines <=? 0) then []
  else limitLinesSuffix (safeUTF8Suffix s (Z.min maxBytes (slen s))) maxLines.

(** ** Fitting a budget *)
Definition fitBudget (s : str) (cfg : Config) : str :=
  if negb (Exceeds s (MaxBytes cfg) (MaxLines cfg)) then s
  else
    let trimmed := boundedPrefix s (MaxBytes cfg) (MaxLines cfg) in
    if is_empty trimmed then Marker cfg else trimmed.

Definition reducePositive (n : Z) : Z :=
  if n <=? 1 then 0
  else let next := Z.quot (n * 3) 4 in if n <=? next then n - 1 else next.
Definition reduceLines (n : Z) : Z := if n <=? 1 then 1 else reducePositive n.
Definition shrinkPrefix (s : str) : str :=
  boundedPrefix s (reducePositive (slen s)) (reduceLines (CountLines s)).
Definition shrinkSuffix (s : str) : str :=
  boundedSuffix s (reducePositive (slen s)) (reduceLines (CountLines s)).
Definition shrinkHeadTail (head tail : str) : str * str :=
  if is_empty head && is_empty tail then (head, tail)
  else if (slen tail <=? slen head) && ((1 <? slen head) || (1 <? CountLines head))
  then (shrinkPrefix head, tail)
  else if (1 <? slen tail) || (1 <? CountLines tail) then (head, shrinkSuffix tail)
  else if negb (is_empty head) then ([], tail)
  else (head, []).

Definition fitBudgetPreserveSuffix (prefix suffix : str) (cfg : Config) : str :=
  if negb (Exceeds (prefix ++ suffix) (MaxBytes cfg) (MaxLines cfg)) then prefix ++ suffix
  else
    let prefixBudget := Z.quot (MaxBytes cfg) 2 in
    let prefixLines := let n := Z.quot (MaxLines cfg) 2 in if n <=? 0 then 1 else n in
    let trimmedPrefix := boundedPrefix prefix prefixBudget prefixLines in
    let remainingBytes := MaxBytes cfg - slen trimmedPrefix in
    if remainingBytes <=? 0 then fitBudget prefix cfg
    else
      let remainingLines := let n := MaxLines cfg - CountLines trimmedPrefix in if n <=? 0 then 1 else n in
      let trimmedSuffix := boundedSuffix suffix remainingBytes remainingLines in
      if is_empty trimmedSuffix then fitBudget prefix cfg
      else
        let candidate := trimmedPrefix ++ trimmedSuffix in
        if negb (Exceeds candidate (MaxBytes cfg) (MaxLines cfg)) then candidate else fitBudget candidate cfg.

Definition headTailSeparator : str := [nl; nl] ++ lit "[...snip...]" ++ [nl; nl].
(** The loop of [fitHeadTailBudget]; [None] is a loop cut short by the fuel. *)
Fixpoint fitHeadTailLoop (fuel : nat) (header head tail : str) (cfg : Config) : option str :=
  match fuel with
  | O => None
  | S fuel =>
      let candidate := header ++ head ++ headTailSeparator ++ tail in
      if negb (Exceeds candidate (MaxBytes cfg) (MaxLines cfg)) then Some candidate
      else
        let '(nextHead, nextTail) := shrinkHeadTail head tail in
        if str_eqb nextHead head && str_eqb nextTail tail
        then Some (fitBudgetPreserveSuffix (header ++ head ++ headTailSeparator) tail cfg)
        else fitHeadTailLoop fuel header nextHead nextTail cfg
  end.
(** A shrink takes at least a byte, so this much fuel is enough. *)
Definition headTailFuel (head tail : str) : nat := S (length head + length tail).
Definition fitHeadTailBudget (header head tail : str) (cfg : Config) : str :=
  if is_empty tail then fitBudget (header ++ head) cfg
  else default [] (fitHeadTailLoop (headTailFuel head tail) header head tail cfg).

Definition omittedText (cfg : Config) (label s : str) : str :=
  Marker cfg ++ lit " " ++ label ++ lit " omitted (bytes=" ++ itoa (slen s) ++ lit ", lines=" ++
  itoa (CountLines s) ++ lit ")".
Definition tooLongHeader (cfg : Config) (label s : str) : str :=
  Marker cfg ++ lit " " ++ label ++ lit " too long (bytes=" ++ itoa (slen s) ++ lit ", lines=" ++
  itoa (CountLines s) ++ lit "), showing head/tail" ++ [nl; nl].

Definition PruneWithEdges (s label : str) (cfg : Config) : str :=
  let cfg := normalizeConfig cfg in
  if is_empty s then s
  else if (wrap64 (HeadBytes cfg + TailBytes cfg) <=? 0) || (wrap64 (HeadLines cfg + TailLines cfg) <=? 0)
  then fitBudget (omittedText cfg label s) cfg
  else if negb (Exceeds s (MaxBytes cfg) (MaxLines cfg)) then s
  else
    let head := boundedPrefix s (Z.min (HeadBytes cfg) (slen s)) (HeadLines cfg) in
    let tail := if (0 <? TailBytes cfg) && (0 <? TailLines cfg)
                then boundedSuffix s (Z.min (TailBytes cfg) (slen s)) (TailLines cfg) else [] in
    fitHeadTailBudget (tooLongHeader cfg label s) head tail cfg.

(** ** Facts on the cuts *)
Lemma CountLines_split s : s <> [] -> CountLines s = Z.of_nat (length (split_byte nl s)).
Proof. intros H. unfold CountLines. rewrite (proj2 (is_empty_false s) H), split_byte_length. lia. Qed.
Lemma CountLines_nonneg s : 0 <= CountLines s.
Proof. unfold CountLines. case_if; lia. Qed.
Lemma CountLines_join l n :
  Forall (fun x => count_byte nl x = 0%nat) l -> (length l <= n)%nat -> CountLines (join [nl] l) <= Z.of_nat n.
Proof.
  intros Hf Hl. destruct l as [|x l]; [unfold CountLines; simpl; lia|].
  pose proof (count_byte_join nl (x :: l) ltac:(done) Hf) as Hc. unfold CountLines. case_if; lia.
Qed.
Lemma CountLines_app s t : s <> [] -> t <> [] -> CountLines (s ++ t) = CountLines s + CountLines t - 1.
Proof.
  intros Hs Ht. unfold CountLines. rewrite (proj2 (is_empty_false s) Hs), (proj2 (is_empty_false t) Ht).
  rewrite count_byte_app. destruct s; [done|]. simpl. lia.
Qed.
Lemma CountLines_prefix s t : CountLines s <= CountLines (s ++ t).
Proof.
  destruct s as [|c s]; [apply CountLines_nonneg|]. destruct t as [|d t]; [rewrite app_nil_r; lia|].
  rewrite CountLines_app by done. assert (0 < CountLines (d :: t)) by (unfold CountLines; simpl; lia). lia.
Qed.

(** [p] is a beginning of [s] that stops at its end, at a newline or at the
    start of a rune. *)
Definition cut_prefix_of (p s : str) : Prop :=
  exists r, s = p ++ r /\ match r with [] => True | c :: _ => rune_start c = true \/ p = [] end.
Definition cut_suffix_of (q s : str) : Prop :=
  exists r, s = r ++ q /\
    (match q with c :: _ => rune_start c = true | [] => True end \/ r = [] \/ last r = Some nl).

Lemma backOff_spec rb rest : exists k, rev rb ++ rest = backOff rb rest ++ k /\
  (length (backOff rb rest) <= length rb)%nat /\
  match k with [] => True | c :: _ => rune_start c = true \/ backOff rb rest = [] end.
Proof.
  revert rest. induction rb as [|d rb IH]; intros [|c rest]; simpl.
  - exists []. by split_and!.
  - destruct (rune_start c) eqn:E; exists (c :: rest); split_and!; auto.
  - exists []. rewrite app_nil_r. split_and!; [done|rewrite length_app, length_rev; simpl; lia|done].
  - destruct (rune_start c) eqn:E.
    + exists (c :: rest). split_and!; [done|rewrite length_app, length_rev; simpl; lia|by left].
    + destruct (IH (d :: c :: rest)) as (k & Hk & Hl & Hb). exists k. rewrite <- app_assoc. simpl.
      split_and!; [done|lia|done].
Qed.
Lemma cut_prefix_refl s : cut_prefix_of s s.
Proof. exists []. by rewrite app_nil_r. Qed.
Lemma cut_prefix_nil s : cut_prefix_of [] s.
Proof. exists s. split; [done|]. destruct s; auto. Qed.
Lemma cut_suffix_refl s : cut_suffix_of s s.
Proof. exists []. auto. Qed.
Lemma cut_suffix_nil s : cut_suffix_of [] s.
Proof. exists s. rewrite app_nil_r. auto. Qed.
Lemma safeUTF8Prefix_spec s n : 0 <= n ->
  cut_prefix_of (safeUTF8Prefix s n) s /\ slen (safeUTF8Prefix s n) <= n.
Proof.
  intros Hn. unfold safeUTF8Prefix. case_if; [split; [apply cut_prefix_nil|unfold slen; simpl; lia]|].
  case_if; str_hyps; [split; [apply cut_prefix_refl|lia]|].
  destruct (backOff_spec (rev (take (Z.to_nat n) s)) (drop (Z.to_nat n) s)) as (k & Hk & Hl & Hb).
  rewrite rev_involutive, take_drop in Hk. split; [by exists k|].
  rewrite length_rev, length_take in Hl. unfold slen. lia.
Qed.
Lemma safeUTF8Suffix_spec s n : 0 <= n ->
  cut_suffix_of (safeUTF8Suffix s n) s /\ slen (safeUTF8Suffix s n) <= n.
Proof.
  intros Hn. unfold safeUTF8Suffix. case_if; [split; [apply cut_suffix_nil|unfold slen; simpl; lia]|].
  case_if; str_hyps; [split; [apply cut_suffix_refl|lia]|].
  set (m := (length s - Z.to_nat n)%nat).
  destruct (drop_while_suffix (fun c => negb (rune_start c)) (drop m s)) as [k Hk]. split.
  - exists (take m s ++ k). split; [rewrite <- app_assoc, <- Hk; by rewrite take_drop|]. left.
    destruct (drop_while _ (drop m s)) as [|c q] eqn:E; [done|].
    clear -E. revert E. generalize (drop m s) as l. intros l. induction l as [|x l IH]; simpl; [done|].
    destruct (rune_start x) eqn:Hx; simpl; [|done]. by intros [= <- _].
  - assert (Hlen : length (drop m s) = (length k + length (drop_while (fun c => negb (rune_start c)) (drop m s)))%nat)
      by (rewrite Hk at 1; by rewrite length_app).
    rewrite length_drop in Hlen. unfold slen in *. lia.
Qed.
Lemma rune_start_nl : rune_start nl = true.
Proof. done. Qed.
(** The lines kept and the lines cut off. *)
Lemma split_lines_at s k : (0 < k < length (split_byte nl s))%nat ->
  s = join [nl] (take k (split_byte nl s)) ++ nl :: join [nl] (drop k (split_byte nl s)).
Proof.
  intros [H1 H2]. rewrite <- (join_split nl s) at 1. rewrite <- (take_drop k (split_byte nl s)) at 1.
  rewrite join_app; [done| |].
  - intros E. apply (f_equal length) in E. rewrite length_take in E. simpl in E. lia.
  - intros E. apply (f_equal length) in E. rewrite length_drop in E. simpl in E. lia.
Qed.
Lemma limitLinesPrefix_spec s n : 0 < n ->
  (exists r, s = limitLinesPrefix s n ++ r /\ match r with [] => True | c :: _ => c = nl end) /\
  CountLines (limitLinesPrefix s n) <= n.
Proof.
  intros Hn. unfold limitLinesPrefix. rewrite (proj2 (Z.leb_gt _ _) Hn). simpl.
  destruct (is_empty s) eqn:Es; str_hyps; [subst; split; [by exists []|unfold CountLines; simpl; lia]|].
  case_if; str_hyps.
  - split; [exists []; by rewrite app_nil_r|]. by rewrite CountLines_split.
  - split.
    + eexists. split; [apply (split_lines_at s (Z.to_nat n)); lia|done].
    + etrans; [apply (CountLines_join _ (Z.to_nat n))|lia]; [|rewrite length_take; lia].
      apply Forall_take, split_byte_no.
Qed.
Lemma limitLinesSuffix_spec s n : 0 < n ->
  (exists r, s = r ++ limitLinesSuffix s n /\ (limitLinesSuffix s n = s \/ last r = Some nl)) /\
  CountLines (limitLinesSuffix s n) <= n.
Proof.
  intros Hn. unfold limitLinesSuffix. rewrite (proj2 (Z.leb_gt _ _) Hn). simpl.
  destruct (is_empty s) eqn:Es; str_hyps; [subst; split; [exists []; auto|unfold CountLines; simpl; lia]|].
  case_if; str_hyps.
  - split; [exists []; auto|]. by rewrite CountLines_split.
  - set (k := (length (split_byte nl s) - Z.to_nat n)%nat). split.
    + exists (join [nl] (take k (split_byte nl s)) ++ [nl]). split; [|right; apply last_snoc].
      rewrite <- app_assoc. simpl. apply split_lines_at. lia.
    + etrans; [apply (CountLines_join _ (Z.to_nat n))|lia]; [|rewrite length_drop; lia].
      apply Forall_drop, split_byte_no.
Qed.
Lemma boundedPrefix_spec s b n : 0 <= b ->
  cut_prefix_of (boundedPrefix s b n) s /\ slen (boundedPrefix s b n) <= b /\
  CountLines (boundedPrefix s b n) <= Z.max 0 n.
Proof.
  intros Hb. unfold boundedPrefix.
  case_if; [split_and!; [apply cut_prefix_nil|unfold slen; simpl; lia|unfold CountLines; simpl; lia]|].
  str_hyps. destruct (safeUTF8Prefix_spec s (Z.min b (slen s))) as [(r & Hr & Hc) Hl]; [pose proof (slen_nonneg s); lia|].
  set (p := safeUTF8Prefix _ _) in *. clearbody p. destruct (limitLinesPrefix_spec p n ltac:(lia)) as [(q & Hq & Hc') Hn].
  pose proof (slen_app (limitLinesPrefix p n) q) as Hs. rewrite <- Hq in Hs. pose proof (slen_nonneg q).
  split_and!; [|lia|lia]. exists (q ++ r). rewrite app_assoc, <- Hq. split; [done|].
  destruct q as [|c q]; simpl; [|subst; by left]. rewrite app_nil_r in Hq. by rewrite <- Hq.
Qed.
Lemma boundedSuffix_spec s b n : 0 <= b ->
  cut_suffix_of (boundedSuffix s b n) s /\ slen (boundedSuffix s b n) <= b /\
  CountLines (boundedSuffix s b n) <= Z.max 0 n.
Proof.
  intros Hb. unfold boundedSuffix.
  case_if; [split_and!; [apply cut_suffix_nil|unfold slen; simpl; lia|unfold CountLines; simpl; lia]|].
  str_hyps. destruct (safeUTF8Suffix_spec s (Z.min b (slen s))) as [(r & Hr & Hc) Hl]; [pose proof (slen_nonneg s); lia|].
  set (p := safeUTF8Suffix _ _) in *. clearbody p. destruct (limitLinesSuffix_spec p n ltac:(lia)) as [(q & Hq & Hc') Hn].
  pose proof (slen_app q (limitLinesSuffix p n)) as Hs. rewrite <- Hq in Hs. pose proof (slen_nonneg q).
  split_and!; [|lia|lia]. exists (r ++ q). rewrite <- app_assoc, <- Hq. split; [done|].
  destruct Hc' as [Hall|Hnl].
  - assert (q = []) as ->; [|by rewrite Hall, app_nil_r].
    apply slen_zero. rewrite Hall in Hs. lia.
  - right. right. destruct q as [|c q]; [done|]. by rewrite last_app_cons.
Qed.

(** ** The result fits *)
Lemma Exceeds_false s b n : Exceeds s b n = false <-> slen s <= b /\ CountLines s <= n.
Proof. unfold Exceeds. rewrite orb_false_iff, !Z.ltb_ge. done. Qed.
Definition positive (cfg : Config) : Prop := 0 < MaxBytes cfg /\ 0 < MaxLines cfg.
(** The only text that may pass a limit is the bare marker. *)
Definition fits (cfg : Config) (out : str) : Prop :=
  Exceeds out (MaxBytes cfg) (MaxLines cfg) = false \/ out = Marker cfg.
Lemma fitBudget_fits s cfg : positive cfg -> fits cfg (fitBudget s cfg).
Proof.
  intros [Hb Hn]. unfold fitBudget, fits. destruct (Exceeds s _ _) eqn:E; simpl; [|by left].
  case_if; [by right|]. left. apply Exceeds_false.
  destruct (boundedPrefix_spec s (MaxBytes cfg) (MaxLines cfg)) as (_ & ? & ?); lia.
Qed.
Lemma fitBudgetPreserveSuffix_fits p q cfg : positive cfg -> fits cfg (fitBudgetPreserveSuffix p q cfg).
Proof.
  intros Hp. unfold fitBudgetPreserveSuffix.
  destruct (Exceeds (p ++ q) _ _) eqn:E; cbn [negb]; [|by left].
  case_if; [by apply fitBudget_fits|]. case_if; [by apply fitBudget_fits|].
  match goal with |- fits _ (if negb ?b then _ else _) => destruct b eqn:E2 end; cbn [negb];
    [by apply fitBudget_fits|by left].
Qed.

Lemma reducePositive_lt n : 0 < n -> 0 <= reducePositive n < n.
Proof.
  intros Hn. unfold reducePositive. destruct (Z.leb_spec n 1); [lia|].
  rewrite Z.quot_div_nonneg by lia. pose proof (Z.div_pos (n * 3) 4 ltac:(lia) ltac:(lia)).
  destruct (Z.leb_spec n (n * 3 / 4)); lia.
Qed.
Lemma boundedPrefix_length s b n : 0 <= b -> slen (boundedPrefix s b n) <= b.
Proof. intros H. by destruct (boundedPrefix_spec s b n H) as (_ & ? & _). Qed.
Lemma boundedSuffix_length s b n : 0 <= b -> slen (boundedSuffix s b n) <= b.
Proof. intros H. by destruct (boundedSuffix_spec s b n H) as (_ & ? & _). Qed.
Lemma CountLines_pos s : 0 < CountLines s -> 0 < slen s.
Proof. unfold CountLines, slen. destruct s; simpl; lia. Qed.
(** Every shrink takes at least a byte, until nothing is left. *)
Lemma shrinkHeadTail_less h t h' t' :
  shrinkHeadTail h t = (h', t') ->
  (h = [] /\ t = [] /\ h' = [] /\ t' = []) \/ slen h' + slen t' < slen h + slen t.
Proof.
  unfold shrinkHeadTail. destruct (is_empty h && is_empty t) eqn:E0.
  { intros [= <- <-]. str_hyps. by left. }
  intros H. right. pose proof (slen_nonneg h). pose proof (slen_nonneg t).
  assert (Hne : 0 < slen h + slen t).
  { apply andb_false_iff in E0 as [E|E]; str_hyps; [destruct h|destruct t]; unfold slen in *; simpl in *; try done; lia. }
  destruct ((slen t <=? slen h) && _) eqn:E1.
  - injection H as <- <-. str_hyps. unfold shrinkPrefix.
    pose proof (reducePositive_lt (slen h) ltac:(lia)).
    pose proof (boundedPrefix_length h (reducePositive (slen h)) (reduceLines (CountLines h)) ltac:(lia)). lia.
  - destruct ((1 <? slen t) || _) eqn:E2.
    + injection H as <- <-. assert (0 < slen t).
      { apply orb_true_iff in E2 as [E|E]; bool_hyps; [lia|]. apply CountLines_pos. lia. }
      unfold shrinkSuffix. pose proof (reducePositive_lt (slen t) ltac:(lia)).
      pose proof (boundedSuffix_length t (reducePositive (slen t)) (reduceLines (CountLines t)) ltac:(lia)). lia.
    + destruct (is_empty h) eqn:E3; injection H as <- <-; str_hyps.
      * subst. unfold slen in *; simpl in *. lia.
      * assert (slen h <> 0) by (rewrite slen_zero; done). unfold slen in *; simpl. lia.
Qed.
Lemma fitHeadTailLoop_fits fuel header h t cfg :
  positive cfg -> slen h + slen t < Z.of_nat fuel ->
  exists out, fitHeadTailLoop fuel header h t cfg = Some out /\ fits cfg out.
Proof.
  intros Hp. revert h t. induction fuel as [|fuel IH]; intros h t Hf.
  { pose proof (slen_nonneg h). pose proof (slen_nonneg t). lia. }
  simpl. destruct (Exceeds _ _ _) eqn:E; simpl; [|eexists; split; [done|by left]].
  destruct (shrinkHeadTail h t) as [h' t'] eqn:Es.
  case_if; [eexists; split; [done|by apply fitBudgetPreserveSuffix_fits]|].
  apply IH. destruct (shrinkHeadTail_less _ _ _ _ Es) as [(-> & -> & -> & ->)|Hlt]; [|lia].
  by rewrite str_eqb_refl in Heqb.
Qed.
Lemma headTailFuel_enough h t : slen h + slen t < Z.of_nat (headTailFuel h t).
Proof. unfold headTailFuel, slen. lia. Qed.
Lemma fitHeadTailBudget_fits header h t cfg : positive cfg -> fits cfg (fitHeadTailBudget header h t cfg).
Proof.
  intros Hp. unfold fitHeadTailBudget. case_if; [by apply fitBudget_fits|].
  destruct (fitHeadTailLoop_fits _ header h t cfg Hp (headTailFuel_enough h t)) as (out & -> & ?). done.
Qed.
Lemma normalize_positive cfg : positive (normalizeConfig cfg).
Proof. unfold positive, normalizeConfig, DefaultMaxBytes, DefaultMaxLines; simpl. split; case_if; lia. Qed.
Lemma PruneWithEdges_fits s label cfg : fits (normalizeConfig cfg) (PruneWithEdges s label cfg).
Proof.
  pose proof (normalize_positive cfg) as Hp. unfold PruneWithEdges.
  destruct (is_empty s) eqn:Es.
  { str_hyps. subst. left. destruct Hp. apply Exceeds_false. change (slen []) with 0. change (CountLines []) with 0. lia. }
  case_if; [by apply fitBudget_fits|]. destruct (Exceeds s _ _) eqn:E; simpl; [|by left].
  by apply fitHeadTailBudget_fits.
Qed.

(** pruning always ends and its result keeps the limits, whatever the text,
    the label and the configuration: it is within the byte and the line limit
    in force, or it is the bare marker, so it is within them whenever the
    marker is; and the shrinking loop never runs out of the steps it is given. *)
Theorem prune_fits (s label : str) (cfg : Config) :
  let cfg' := normalizeConfig cfg in
  let out := PruneWithEdges s label cfg in
  (Exceeds out (MaxBytes cfg') (MaxLines cfg') = false \/ out = Marker cfg') /\
  (slen (Marker cfg') <= MaxBytes cfg' -> CountLines (Marker cfg') <= MaxLines cfg' ->
     Exceeds out (MaxBytes cfg') (MaxLines cfg') = false) /\
  (forall header head tail, is_Some (fitHeadTailLoop (headTailFuel head tail) header head tail cfg')).
Proof.
  intros cfg' out. pose proof (PruneWithEdges_fits s label cfg) as Hf. fold out cfg' in Hf. split_and!.
  - exact Hf.
  - intros Hb Hl. destruct Hf as [?|Hm]; [done|]. rewrite Hm. by apply Exceeds_false.
  - intros header head tail.
    destruct (fitHeadTailLoop_fits _ header head tail cfg' (normalize_positive cfg) (headTailFuel_enough head tail))
      as (r & -> & _). done.
Qed.

(** every cut falls at the start of a rune or at a line break, so a UTF-8
    text is never cut inside a character: a bounded prefix is a beginning of
    the text within the given bytes and lines that stops at its end, at a line
    break or at a rune start, and a bounded suffix is an end of it that starts
    at one. *)
Theorem cuts_at_boundaries (s : str) (maxBytes maxLines : Z) :
  0 <= maxBytes -> 0 <= maxLines ->
  let p := boundedPrefix s maxBytes maxLines in
  let q := boundedSuffix s maxBytes maxLines in
  (slen p <= maxBytes /\ CountLines p <= maxLines /\
   exists r, s = p ++ r /\ match r with [] => True | c :: _ => rune_start c = true \/ p = [] end) /\
  (slen q <= maxBytes /\ CountLines q <= maxLines /\
   exists r, s = r ++ q /\
     (match q with c :: _ => rune_start c = true | [] => True end \/ r = [] \/ last r = Some nl)).
Proof.
  intros Hb Hn p q. destruct (boundedPrefix_spec s maxBytes maxLines Hb) as (H1 & H2 & H3).
  destruct (boundedSuffix_spec s maxBytes maxLines Hb) as (H4 & H5 & H6).
  rewrite Z.max_r in H3, H6 by done. done.
Qed.
Lemma cuts_at_boundaries_witness :
  let s := lit "ab" ++ encode [233; 233] in
  boundedPrefix s 5 3 = lit "ab" ++ encode [233] /\ boundedSuffix s 3 3 = encode [233] /\
  slen (boundedPrefix s 5 3) <= 5.
Proof.
  split; [vm_compute; reflexivity|]. split; [vm_compute; reflexivity|].
  refine (proj1 (proj1 (cuts_at_boundaries (lit "ab" ++ encode [233; 233]) 5 3 _ _))); lia.
Defined.
