(* ===== verification/ToolOutput.v ===== *)
(** * Limits on tool output

    Models [internal/agent/context/limit/output.go], [tier.go] and
    [internal/textutil] ([StorageText], the rune truncations): the value a
    tool returns is pruned string by string, then with tighter and tighter
    budgets, and at last replaced by a one-string summary, until its JSON
    encoding is within the limit.  [encoding/json] is modelled as far as the
    code relies on it: the encoding of strings, arrays and maps. *)

From S2P Require Import Prelude GoStr Prune.
#[local] Open Scope Z_scope.

(** ** Values *)
(** The dynamic types [limitToolOutputValue] distinguishes.  A map is listed by
    increasing keys, as [json.Marshal] writes it; [isNil] marks a nil slice or
    map, which is encoded as [null] but rebuilt empty.  [VOther] is any other
    value, given by its encoding. *)
Inductive value : Type :=
  | VString (s : str)
  | VStrings (isNil : bool) (l : list str)
  | VList (isNil : bool) (l : list value)
  | VMaps (isNil : bool) (l : list (bool * list (str * value)))
  | VMapStr (isNil : bool) (l : list (str * str))
  | VMap (isNil : bool) (l : list (str * value))
  | VBool (b : bool)
  | VOther (json : str).

(** ** [encoding/json] *)
Definition hex_digit (n : Z) : ascii := byte_of (if n <? 10 then 48 + n else 87 + n).
Definition json_unsafe (r : Z) : bool :=
  (r <? 32) || (r =? 34) || (r =? 92) || (r =? 60) || (r =? 62) || (r =? 38).
Definition json_escape (r : Z) : str :=
  if (r =? 92) || (r =? 34) then [byte_of 92; byte_of r]
  else if r =? 8 then lit "\b" else if r =? 12 then lit "\f" else if r =? 10 then lit "\n"
  else if r =? 13 then lit "\r" else if r =? 9 then lit "\t"
  else lit "\u00" ++ [hex_digit (Z.shiftr r 4); hex_digit (Z.land r 15)].
Definition json_rune (q : Z * str) : str :=
  let '(r, bytes) := q in
  if r <? 128 then (if json_unsafe r then json_escape r else bytes)
  else if (r =? RuneError) && bool_decide (length bytes = 1%nat) then lit "\ufffd"
  else if r =? 8232 then lit "\u2028" else if r =? 8233 then lit "\u2029"
  else bytes.
Definition json_string (s : str) : str := [dquote] ++ flat_map json_rune (decode s) ++ [dquote].
Definition comma : str := lit ",".
Definition json_list (isNil : bool) (l : list str) : str :=
  if isNil then lit "null" else lit "[" ++ join comma l ++ lit "]".
Definition json_map (isNil : bool) (l : list (str * str)) : str :=
  if isNil then lit "null"
  else lit "{" ++ join comma ((fun kv => json_string kv.1 ++ lit ":" ++ kv.2) <$> l) ++ lit "}".
(** [MarshalString] *)
Fixpoint MarshalString (v : value) : str :=
  match v with
  | VString s => json_string s
  | VStrings n l => json_list n (json_string <$> l)
  | VList n l => json_list n (map MarshalString l)
  | VMaps n l => json_list n (map (fun m => json_map m.1 (map (fun kv => (kv.1, MarshalString kv.2)) m.2)) l)
  | VMapStr n l => json_map n ((fun kv => (kv.1, json_string kv.2)) <$> l)
  | VMap n l => json_map n (map (fun kv => (kv.1, MarshalString kv.2)) l)
  | VBool b => if b then lit "true" else lit "false"
  | VOther json => json
  end.

(** ** Text for storage *)
(** [strings.ToValidUTF8]: a run of invalid bytes becomes one replacement. *)
Fixpoint to_valid (replacement : str) (inRun : bool) (l : list (Z * str)) : str :=
  match l with
  | [] => []
  | (r, b) :: l' =>
      if (r =? RuneError) && bool_decide (length b = 1%nat)
      then (if inRun then [] else replacement) ++ to_valid replacement true l'
      else b ++ to_valid replacement false l'
  end.
(** [strings.ReplaceAll(s, "\x00", r)] *)
Definition replace_nul (r s : str) : str := flat_map (fun c => if byte_val c =? 0 then r else [c]) s.
Definition StorageText (text : str) : str :=
  replace_nul (lit "\x00") (to_valid (encode_rune RuneError) false (decode text)).

(** ** Configurations *)
Record ToolOutputLimit : Type := mkLimit { loMaxBytes : Z; loMaxLines : Z }.
Definition minToolOutputMaxBytes : Z := 256.
Definition fitHeadTail (maxValue head tail : Z) : Z * Z :=
  if maxValue <=? 0 then (head, tail)
  else if head + tail <=? maxValue then (head, tail)
  else
    let head := Z.quot (wrap64 (maxValue * 3)) 4 in
    let tail := wrap64 (maxValue - head) in
    if head <=? 0 then (maxValue, 0) else (head, tail).
Definition toolOutputPruneConfig (limit : ToolOutputLimit) : Config :=
  let maxBytes := if loMaxBytes limit <=? 0 then DefaultMaxBytes
                  else if loMaxBytes limit <? minToolOutputMaxBytes then minToolOutputMaxBytes
                  else loMaxBytes limit in
  let maxLines := if loMaxLines limit <=? 0 then DefaultMaxLines else loMaxLines limit in
  let '(headBytes, tailBytes) := fitHeadTail maxBytes (32 * 1024) (8 * 1024) in
  let '(headLines, tailLines) := fitHeadTail maxLines 500 100 in
  mkConfig maxBytes maxLines headBytes tailBytes headLines tailLines DefaultMarker.

Definition LimitString (text label : str) (limit : ToolOutputLimit) : str :=
  PruneWithEdges (StorageText text) label (toolOutputPruneConfig limit).
Definition toolOutputExceeds (v : value) (cfg : Config) : bool :=
  Exceeds (MarshalString v) (MaxBytes cfg) (MaxLines cfg).
Definition EncodedExceeds (v : value) (limit : ToolOutputLimit) : bool :=
  toolOutputExceeds v (toolOutputPruneConfig limit).
Definition NormalizedLimit (limit : ToolOutputLimit) : ToolOutputLimit :=
  let cfg := toolOutputPruneConfig limit in mkLimit (MaxBytes cfg) (MaxLines cfg).

(** ** Pruning a value *)
Definition indexLabel (label : str) (i : nat) : str := label ++ lit "[" ++ itoa (Z.of_nat i) ++ lit "]".
Definition toolOutputChildLabel (label key : str) : str :=
  let key := trim_space key in if is_empty key then label else label ++ lit "." ++ key.
Definition pruneLeaf (label : str) (cfg : Config) (s : str) : str := PruneWithEdges (StorageText s) label cfg.

Fixpoint limitToolOutputValue (v : value) (label : str) (cfg : Config) : value :=
  let limitMap := map (fun kv : str * value =>
        (kv.1, limitToolOutputValue kv.2 (toolOutputChildLabel label kv.1) cfg)) in
  match v with
  | VString s => VString (pruneLeaf label cfg s)
  | VStrings _ l => VStrings false (imap (fun i s => pruneLeaf (indexLabel label i) cfg s) l)
  | VList _ l =>
      VList false ((fix go (i : nat) (l : list value) : list value :=
        match l with
        | [] => []
        | x :: r => limitToolOutputValue x (indexLabel label i) cfg :: go (S i) r
        end) 0%nat l)
  | VMaps _ l =>
      VMaps false ((fix go (i : nat) (l : list (bool * list (str * value))) : list (bool * list (str * value)) :=
        match l with
        | [] => []
        | (_, m) :: r =>
            (false, map (fun kv => (kv.1, limitToolOutputValue kv.2
                       (toolOutputChildLabel (indexLabel label i) kv.1) cfg)) m) :: go (S i) r
        end) 0%nat l)
  | VMapStr _ l => VMapStr false ((fun kv => (kv.1, pruneLeaf (toolOutputChildLabel label kv.1) cfg kv.2)) <$> l)
  | VMap _ l => VMap false (limitMap l)
  | VBool _ | VOther _ => v
  end.

Fixpoint countStringLeaves (v : value) : Z :=
  match v with
  | VString _ => 1
  | VStrings _ l => Z.of_nat (length l)
  | VList _ l => fold_right Z.add 0 (map countStringLeaves l)
  | VMaps _ l => fold_right Z.add 0 (map (fun m => fold_right Z.add 0 (map (fun kv => countStringLeaves kv.2) m.2)) l)
  | VMapStr _ l => Z.of_nat (length l)
  | VMap _ l => fold_right Z.add 0 (map (fun kv => countStringLeaves kv.2) l)
  | VBool _ | VOther _ => 0
  end.

(** The loop over the divisors: the first tighter budget that fits. *)
Fixpoint fitDivisors (v : value) (label : str) (cfg : Config) (divisors : list Z) : option value :=
  match divisors with
  | [] => None
  | d :: r =>
      if d <=? 0 then fitDivisors v label cfg r
      else
        let budget := Z.quot (MaxBytes cfg) d in
        if budget <? slen DefaultMarker then fitDivisors v label cfg r
        else
          let fitted := limitToolOutputValue v label (toolOutputPruneConfig (mkLimit budget (MaxLines cfg))) in
          if toolOutputExceeds fitted cfg then fitDivisors v label cfg r else Some fitted
  end.
Definition fitToolOutputValue (v : value) (label : str) (cfg : Config) : option value :=
  let n := countStringLeaves v in
  if n =? 0 then None else fitDivisors v label cfg [n + 1; n * 2 + 2; n * 4 + 4].

(** ** The last resort *)
Definition truncatedMap (content : str) : value :=
  VMap false [(lit "_memoh_truncated", VBool true); (lit "content", VString content)].
Definition errorMap (content : str) : value :=
  VMap false [(lit "content", VString content); (lit "isError", VBool true)].
Fixpoint fallbackContentLoop (fuel : nat) (contentBudget : Z) (raw label : str) (cfg : Config) : str :=
  match fuel with
  | O => DefaultMarker
  | S fuel =>
      if contentBudget <=? 0 then DefaultMarker
      else
        let content := PruneWithEdges raw label (toolOutputPruneConfig (mkLimit contentBudget (MaxLines cfg))) in
        if negb (toolOutputExceeds (truncatedMap content) cfg) then content
        else fallbackContentLoop fuel (Z.quot (wrap64 (contentBudget * 3)) 4) raw label cfg
  end.
Definition fallbackContentString (raw label : str) (cfg : Config) : str :=
  let contentBudget := MaxBytes cfg - slen (MarshalString (truncatedMap [])) in
  if contentBudget <=? 0 then DefaultMarker
  else fallbackContentLoop (Z.to_nat contentBudget) contentBudget raw label cfg.

Definition isErrorResultMap (v : value) : bool :=
  match v with
  | VMap _ l => match find_idx (fun kv => str_eqb kv.1 (lit "isError")) l with
                | Some (_, (_, VBool b)) => b
                | _ => false
                end
  | _ => false
  end.
Definition fallbackErrorToolOutput (v : value) (label : str) (cfg : Config) : value :=
  errorMap (fallbackContentString (MarshalString v) label cfg).
Definition fallbackToolOutput (v : value) (label : str) (cfg : Config) : value :=
  truncatedMap (fallbackContentString (MarshalString v) label cfg).

Definition LimitToolOutput (output : value) (label : str) (limit : ToolOutputLimit) : value :=
  let cfg := toolOutputPruneConfig limit in
  let limited := limitToolOutputValue output label cfg in
  if negb (toolOutputExceeds limited cfg) then limited
  else match fitToolOutputValue output label cfg with
  | Some fitted => fitted
  | None => if isErrorResultMap limited then fallbackErrorToolOutput limited label cfg
            else fallbackToolOutput limited label cfg
  end.

(** ** Tiers *)
Record Tier : Type := mkTier {
  tMaxBytes : Z; tMaxLines : Z; tHeadBytes : Z; tTailBytes : Z; tHeadLines : Z; tTailLines : Z; tMarker : str }.
Definition tier_LimitString (t : Tier) (s label : str) : str :=
  PruneWithEdges s label
    (mkConfig (tMaxBytes t) (tMaxLines t) (tHeadBytes t) (tTailBytes t) (tHeadLines t) (tTailLines t) (tMarker t)).
Definition GatewayResultTier : Tier :=
  mkTier DefaultMaxBytes DefaultMaxLines (6 * 1024) (2 * 1024) 180 50 DefaultMarker.
Definition GatewayArgsTier : Tier :=
  mkTier DefaultMaxBytes DefaultMaxLines (4 * 1024) (2 * 1024) 180 50 DefaultMarker.

(** ** Truncation to a number of runes *)
(** [byteIndexAfterRunes]: the bytes before the index, and whether there are
    more. *)
Definition byteIndexAfterRunes (s : str) (maxRunes : Z) : str * bool :=
  if (maxRunes <=? 0) || is_empty s then ([], negb (is_empty s))
  else if maxRunes <? rune_count s then (undecode (take (Z.to_nat maxRunes) (decode s)), true)
  else (s, false).
Definition TruncateRunes (s : str) (maxRunes : Z) : str :=
  if (maxRunes <=? 0) || is_empty s then []
  else let '(cut, truncated) := byteIndexAfterRunes s maxRunes in if negb truncated then s else cut.
Definition TruncateRunesWithSuffix (s : str) (maxRunes : Z) (suffix : str) : str :=
  if (maxRunes <=? 0) || is_empty s then []
  else if negb (byteIndexAfterRunes s maxRunes).2 then s
  else if is_empty suffix then TruncateRunes s maxRunes
  else
    let suffixRunes := rune_count suffix in
    if maxRunes <=? suffixRunes then TruncateRunes s maxRunes
    else let '(cut, truncated) := byteIndexAfterRunes s (maxRunes - suffixRunes) in
         if negb truncated then s else cut ++ suffix.

(** ** Facts *)
Lemma config_MaxBytes limit : minToolOutputMaxBytes <= MaxBytes (toolOutputPruneConfig limit).
Proof.
  unfold toolOutputPruneConfig. destruct (fitHeadTail _ _ _), (fitHeadTail _ _ _). simpl.
  unfold minToolOutputMaxBytes, DefaultMaxBytes. repeat case_if; bool_hyps; lia.
Qed.
Lemma config_MaxLines limit : 0 < MaxLines (toolOutputPruneConfig limit).
Proof.
  unfold toolOutputPruneConfig. destruct (fitHeadTail _ _ _), (fitHeadTail _ _ _). simpl.
  unfold DefaultMaxLines. case_if; bool_hyps; lia.
Qed.
(** The summary whose content is the bare marker fits every configuration. *)
Lemma marker_summary_fits cfg :
  minToolOutputMaxBytes <= MaxBytes cfg -> 0 < MaxLines cfg ->
  toolOutputExceeds (truncatedMap DefaultMarker) cfg = false.
Proof.
  intros Hb Hl. apply Exceeds_false. unfold minToolOutputMaxBytes in Hb.
  assert (slen (MarshalString (truncatedMap DefaultMarker)) = 52) as -> by (vm_compute; reflexivity).
  assert (CountLines (MarshalString (truncatedMap DefaultMarker)) = 1) as -> by (vm_compute; reflexivity). lia.
Qed.
Lemma fallbackContentLoop_fits fuel budget raw label cfg :
  minToolOutputMaxBytes <= MaxBytes cfg -> 0 < MaxLines cfg ->
  toolOutputExceeds (truncatedMap (fallbackContentLoop fuel budget raw label cfg)) cfg = false.
Proof.
  intros Hb Hl. revert budget. induction fuel as [|fuel IH]; intros budget; simpl; [by apply marker_summary_fits|].
  case_if; [by apply marker_summary_fits|].
  destruct (toolOutputExceeds (truncatedMap (PruneWithEdges _ _ _)) cfg) eqn:E; simpl; [apply IH|done].
Qed.
Lemma fallbackContentString_fits raw label cfg :
  minToolOutputMaxBytes <= MaxBytes cfg -> 0 < MaxLines cfg ->
  toolOutputExceeds (truncatedMap (fallbackContentString raw label cfg)) cfg = false.
Proof.
  intros Hb Hl. unfold fallbackContentString. case_if; [by apply marker_summary_fits|].
  by apply fallbackContentLoop_fits.
Qed.
(** The budget loop needs no more steps than the budget. *)
Lemma next_budget_lt b : 0 < b <= max_int64 -> Z.quot (wrap64 (b * 3)) 4 < b.
Proof.
  intros [H1 H2]. unfold max_int64 in H2. unfold wrap64.
  assert (Hw : - 2 ^ 63 <= (b * 3 + 2 ^ 63) mod 2 ^ 64 - 2 ^ 63 < 2 ^ 63)
    by (pose proof (Z.mod_pos_bound (b * 3 + 2 ^ 63) (2 ^ 64) ltac:(lia)); lia).
  set (w := (b * 3 + 2 ^ 63) mod 2 ^ 64 - 2 ^ 63) in *.
  destruct (Z.ltb_spec w 0) as [Hneg|Hpos].
  - assert (Z.quot w 4 <= 0); [|lia]. rewrite <- (Z.opp_involutive w), Z.quot_opp_l by lia.
    pose proof (Z.quot_pos (- w) 4 ltac:(lia) ltac:(lia)). lia.
  - rewrite Z.quot_div_nonneg by lia. apply Z.div_lt_upper_bound; [lia|].
    destruct (Z.ltb_spec (b * 3) (2 ^ 63)) as [Hs|Hb].
    + subst w. rewrite Z.mod_small by lia. lia.
    + lia.
Qed.
Lemma fallbackContentLoop_enough fuel extra budget raw label cfg :
  budget <= max_int64 -> (Z.to_nat budget <= fuel)%nat ->
  fallbackContentLoop (fuel + extra) budget raw label cfg = fallbackContentLoop fuel budget raw label cfg.
Proof.
  revert budget. induction fuel as [|fuel IH]; intros budget Hm Hf.
  - simpl. destruct extra as [|extra]; simpl; [done|]. by rewrite (proj2 (Z.leb_le budget 0)) by lia.
  - simpl. destruct (Z.leb_spec budget 0); [done|]. case_if; [done|].
    pose proof (next_budget_lt budget ltac:(lia)). apply IH; lia.
Qed.

Lemma json_map_two k1 v1 k2 v2 :
  MarshalString (VMap false [(k1, v1); (k2, v2)]) =
  lit "{" ++ (json_string k1 ++ lit ":" ++ MarshalString v1) ++ comma ++
    (json_string k2 ++ lit ":" ++ MarshalString v2) ++ lit "}".
Proof. cbn [MarshalString json_map map fmap list_fmap join fst snd]. by rewrite <- !app_assoc. Qed.
Lemma error_not_longer content :
  slen (MarshalString (errorMap content)) <= slen (MarshalString (truncatedMap content)) /\
  CountLines (MarshalString (errorMap content)) <= CountLines (MarshalString (truncatedMap content)).
Proof.
  unfold errorMap, truncatedMap. rewrite !json_map_two.
  set (c := MarshalString (VString content)). split.
  - rewrite !slen_app. generalize (slen c) as n. intros n.
    assert (slen (json_string (lit "content")) = 9) as -> by (vm_compute; reflexivity).
    assert (slen (json_string (lit "isError")) = 9) as -> by (vm_compute; reflexivity).
    assert (slen (json_string (lit "_memoh_truncated")) = 18) as -> by (vm_compute; reflexivity).
    unfold slen; simpl; lia.
  - unfold CountLines. rewrite (proj2 (is_empty_false _)) by done. rewrite (proj2 (is_empty_false _)) by done.
    rewrite !count_byte_app. generalize (count_byte nl c) as n. intros n.
    assert (count_byte nl (json_string (lit "content")) = 0%nat) as -> by (vm_compute; reflexivity).
    assert (count_byte nl (json_string (lit "isError")) = 0%nat) as -> by (vm_compute; reflexivity).
    assert (count_byte nl (json_string (lit "_memoh_truncated")) = 0%nat) as -> by (vm_compute; reflexivity).
    simpl. lia.
Qed.
Lemma fitDivisors_fits v label cfg ds out :
  fitDivisors v label cfg ds = Some out -> toolOutputExceeds out cfg = false.
Proof.
  induction ds as [|d ds IH]; simpl; [done|]. case_if; [done|]. case_if; [done|].
  destruct (toolOutputExceeds (limitToolOutputValue _ _ _) cfg) eqn:E; [done|]. by intros [= <-].
Qed.

(** whatever a tool returns and whatever limit is asked for, the JSON
    encoding of what the agent is given is within the byte and line limit in
    force (which is never below 256 bytes and one line), and the loop that
    shrinks the summary's budget ends within the steps it is given. *)
Theorem tool_output_fits (output : value) (label : str) (limit : ToolOutputLimit) :
  EncodedExceeds (LimitToolOutput output label limit) limit = false /\
  256 <= loMaxBytes (NormalizedLimit limit) /\ 1 <= loMaxLines (NormalizedLimit limit) /\
  (forall extra budget raw, budget <= max_int64 ->
     let cfg := toolOutputPruneConfig limit in
     fallbackContentLoop (Z.to_nat budget + extra) budget raw label cfg =
     fallbackContentLoop (Z.to_nat budget) budget raw label cfg).
Proof.
  pose proof (config_MaxBytes limit) as Hb. pose proof (config_MaxLines limit) as Hl. split_and!.
  - unfold EncodedExceeds, LimitToolOutput. set (cfg := toolOutputPruneConfig limit) in *.
    destruct (toolOutputExceeds (limitToolOutputValue output label cfg) cfg) eqn:E; cbn [negb]; [|done].
    destruct (fitToolOutputValue output label cfg) as [fitted|] eqn:Ef.
    + unfold fitToolOutputValue in Ef. case_if; [done|]. by eapply fitDivisors_fits.
    + pose proof (fallbackContentString_fits (MarshalString (limitToolOutputValue output label cfg)) label cfg Hb Hl) as Hfit.
      case_if; [|exact Hfit]. unfold fallbackErrorToolOutput. apply Exceeds_false. apply Exceeds_false in Hfit.
      pose proof (error_not_longer (fallbackContentString (MarshalString (limitToolOutputValue output label cfg)) label cfg)).
      lia.
  - exact Hb.
  - simpl. lia.
  - intros extra budget raw Hm cfg. by apply fallbackContentLoop_enough.
Qed.

(** ** Text for storage: facts *)
Lemma to_valid_valid rep b l :
  valid_utf8 rep -> Forall (fun q => valid_unit q \/ invalid_unit q) l -> valid_utf8 (to_valid rep b l).
Proof.
  intros Hr Hl. revert b. induction Hl as [|[r bs] l Hq _ IH]; intros b; simpl; [constructor|].
  destruct (_ && _) eqn:E.
  - destruct b; simpl; [apply IH|]. apply valid_utf8_app; [done|apply IH].
  - apply valid_utf8_app; [|apply IH]. destruct Hq as [Hq|[Hr' Hlen]]; [by apply valid_unit_utf8 in Hq|].
    simpl in *. subst. by rewrite bool_decide_true in E.
Qed.
Lemma to_valid_id rep b l : Forall valid_unit l -> to_valid rep b l = undecode l.
Proof.
  intros Hl. revert b. induction Hl as [|[r bs] l [_ Hn] _ IH]; intros b; simpl; [done|].
  destruct (_ && _) eqn:E; [|unfold undecode in *; csimpl; by rewrite IH].
  exfalso. apply Hn. bool_hyps. by split.
Qed.
Lemma replace_nul_app r s t : replace_nul r (s ++ t) = replace_nul r s ++ replace_nul r t.
Proof. apply flat_map_app. Qed.
Lemma replace_nul_id r s : Forall (fun c => byte_val c <> 0) s -> replace_nul r s = s.
Proof.
  induction 1 as [|c s Hc _ IH]; simpl; [done|]. rewrite (proj2 (Z.eqb_neq _ _) Hc). simpl. by rewrite IH.
Qed.
Lemma replace_nul_valid r s : valid_utf8 r -> valid_utf8 s -> valid_utf8 (replace_nul r s).
Proof.
  intros Hr. unfold valid_utf8 at 2. rewrite <- (undecode_decode s) at 2. induction 1 as [|q l Hq _ IH]; [constructor|].
  unfold undecode in *. csimpl. rewrite replace_nul_app. apply valid_utf8_app; [|done].
  destruct (decide (q.2 = [])) as [-> | Hne]; [constructor|].
  destruct (valid_unit_bytes q Hq Hne) as [(c & -> & Hc)|Hall].
  - simpl. case_if; rewrite app_nil_r; [done|]. apply ascii_valid. by repeat constructor.
  - rewrite replace_nul_id; [by apply valid_unit_utf8|]. eapply Forall_impl; [exact Hall|]. simpl. lia.
Qed.
Lemma replace_nul_none r s :
  Forall (fun c => byte_val c <> 0) r -> Forall (fun c => byte_val c <> 0) (replace_nul r s).
Proof.
  intros Hr. induction s as [|c s IH]; simpl; [constructor|]. apply Forall_app. split; [|done].
  case_if; [done|]. bool_hyps. by repeat constructor.
Qed.

(** [StorageText] always gives what a text column accepts: valid UTF-8
    without a NUL byte; a text that already is one is returned as it is, so
    storing it again changes nothing. *)
Theorem storage_text_safe (text : str) :
  valid_utf8 (StorageText text) /\ Forall (fun c => byte_val c <> 0) (StorageText text) /\
  (valid_utf8 text -> Forall (fun c => byte_val c <> 0) text -> StorageText text = text) /\
  StorageText (StorageText text) = StorageText text.
Proof.
  assert (Hv : valid_utf8 (StorageText text)).
  { apply replace_nul_valid; [apply ascii_valid; by repeat constructor|].
    apply to_valid_valid; [|apply decode_units].
    unfold valid_utf8. change (decode (encode_rune RuneError)) with [(RuneError, encode_rune RuneError)].
    repeat constructor. by intros [_ ?]. }
  assert (Hn : Forall (fun c => byte_val c <> 0) (StorageText text))
    by (apply replace_nul_none; by repeat constructor).
  assert (Hid : forall t, valid_utf8 t -> Forall (fun c => byte_val c <> 0) t -> StorageText t = t).
  { intros t Ht Hz. unfold StorageText. by rewrite to_valid_id, undecode_decode, replace_nul_id. }
  split_and!; [done|done|apply Hid|by apply Hid].
Qed.

Lemma valid_take k s : valid_utf8 s -> decode (undecode (take k (decode s))) = take k (decode s).
Proof.
  intros Hs. pose proof (decode_valid_app (take k (decode s)) [] ltac:(by apply Forall_take)) as H.
  by rewrite !app_nil_r in H.
Qed.
Lemma rune_count_app s t : valid_utf8 s -> rune_count (s ++ t) = rune_count s + rune_count t.
Proof.
  intros Hs. unfold rune_count. rewrite <- (undecode_decode s) at 1. rewrite decode_valid_app by done.
  rewrite length_app. lia.
Qed.
Lemma truncated_cut s n : valid_utf8 s -> 0 < n -> n < rune_count s ->
  byteIndexAfterRunes s n = (undecode (take (Z.to_nat n) (decode s)), true) /\
  valid_utf8 (undecode (take (Z.to_nat n) (decode s))) /\
  rune_count (undecode (take (Z.to_nat n) (decode s))) = n.
Proof.
  intros Hs Hn Hlt. split_and!.
  - unfold byteIndexAfterRunes. rewrite (proj2 (Z.leb_gt _ _) Hn), (proj2 (Z.ltb_lt _ _) Hlt).
    destruct (is_empty s) eqn:E; [|done]. str_hyps. subst. unfold rune_count in Hlt. simpl in Hlt. lia.
  - unfold valid_utf8. rewrite valid_take by done. by apply Forall_take.
  - unfold rune_count in *. rewrite valid_take by done. rewrite length_take. lia.
Qed.
Lemma TruncateRunes_spec s n : valid_utf8 s -> 0 < n ->
  valid_utf8 (TruncateRunes s n) /\ rune_count (TruncateRunes s n) = Z.min n (rune_count s) /\
  exists r, s = TruncateRunes s n ++ r.
Proof.
  intros Hs Hn. unfold TruncateRunes. rewrite (proj2 (Z.leb_gt _ _) Hn). cbn [orb].
  destruct (is_empty s) eqn:E; str_hyps; [subst; unfold rune_count; simpl; split_and!; [done|lia|by exists []]|].
  destruct (Z.ltb_spec n (rune_count s)) as [Hlt|Hge].
  - destruct (truncated_cut s n Hs Hn Hlt) as (-> & Hv & Hc). cbn [negb]. split_and!; [done|lia|].
    exists (undecode (drop (Z.to_nat n) (decode s))). unfold undecode. rewrite <- concat_app, <- fmap_app, take_drop.
    symmetry. apply undecode_decode.
  - unfold byteIndexAfterRunes. rewrite (proj2 (Z.leb_gt _ _) Hn), (proj2 (Z.ltb_ge _ _) Hge).
    rewrite (proj2 (is_empty_false s) E). cbn [orb negb]. split_and!; [done|lia|exists []; by rewrite app_nil_r].
Qed.

(** truncating a UTF-8 text to [maxRunes] code points, with or without a
    suffix, gives valid UTF-8 of at most that many code points; a text that
    is short enough comes back unchanged, and a longer one keeps exactly the
    allowed number, the suffix counted when it fits. *)
Theorem truncate_runes_bound (s suffix : str) (maxRunes : Z) :
  valid_utf8 s -> valid_utf8 suffix -> 0 < maxRunes ->
  let out := TruncateRunesWithSuffix s maxRunes suffix in
  valid_utf8 out /\ rune_count out <= maxRunes /\
  (rune_count s <= maxRunes -> out = s) /\
  (maxRunes < rune_count s -> rune_count out = maxRunes /\
     (suffix <> [] -> rune_count suffix < maxRunes -> exists p r, out = p ++ suffix /\ s = p ++ r)) /\
  (exists r, s = TruncateRunes s maxRunes ++ r) /\
  rune_count (TruncateRunes s maxRunes) = Z.min maxRunes (rune_count s).
Proof.
  intros Hs Hsuf Hn out. destruct (TruncateRunes_spec s maxRunes Hs Hn) as (Hv & Hc & Hpre).
  assert (Hmain : valid_utf8 out /\ (rune_count s <= maxRunes -> out = s) /\
    (maxRunes < rune_count s -> rune_count out = maxRunes /\
       (suffix <> [] -> rune_count suffix < maxRunes -> exists p r, out = p ++ suffix /\ s = p ++ r))).
  { subst out. unfold TruncateRunesWithSuffix. rewrite (proj2 (Z.leb_gt _ _) Hn). cbn [orb].
    destruct (is_empty s) eqn:E; str_hyps; [subst; unfold rune_count; simpl; split_and!; [done|done|lia]|].
    destruct (Z.ltb_spec maxRunes (rune_count s)) as [Hlt|Hge].
    - destruct (truncated_cut s maxRunes Hs Hn Hlt) as (-> & _ & _). cbn [snd negb].
      destruct (is_empty suffix) eqn:Esuf; str_hyps; [split_and!; [done|lia|intros _; split; [lia|done]]|].
      destruct (Z.leb_spec maxRunes (rune_count suffix)); [split_and!; [done|lia|intros _; split; [lia|intros; lia]]|].
      pose proof (Zle_0_nat (length (decode suffix))) as Hnn. fold (rune_count suffix) in Hnn.
      destruct (truncated_cut s (maxRunes - rune_count suffix) Hs ltac:(lia) ltac:(lia)) as (-> & Hv' & Hc').
      cbn [negb]. split_and!; [by apply valid_utf8_app|lia|]. intros _. split; [rewrite rune_count_app by done; lia|].
      intros _ _. eexists _, (undecode (drop (Z.to_nat (maxRunes - rune_count suffix)) (decode s))). split; [done|].
      unfold undecode. rewrite <- concat_app, <- fmap_app, take_drop. symmetry. apply undecode_decode.
    - unfold byteIndexAfterRunes. rewrite (proj2 (Z.leb_gt _ _) Hn), (proj2 (Z.ltb_ge _ _) Hge).
      rewrite (proj2 (is_empty_false s) E). cbn [orb negb snd]. split_and!; [done|done|lia]. }
  destruct Hmain as (H1 & H2 & H3). split_and!; try done.
  destruct (Z.ltb_spec maxRunes (rune_count s)) as [Hlt|Hge]; [by rewrite (proj1 (H3 Hlt))|by rewrite H2].
Qed.
Lemma truncate_runes_bound_witness :
  TruncateRunesWithSuffix (lit "abcdef") 4 (lit "..") = lit "ab.." /\
  rune_count (TruncateRunesWithSuffix (lit "abcdef") 4 (lit "..")) <= 4.
Proof.
  split; [vm_compute; reflexivity|].
  refine (proj1 (proj2 (truncate_runes_bound (lit "abcdef") (lit "..") 4 _ _ _)));
    [apply ascii_valid; repeat constructor|apply ascii_valid; repeat constructor|lia].
Defined.
