(* ===== verification/ModelRetry.v ===== *)
(** * Retries of model calls

    Models [internal/models/modelretry/modelretry.go]: the classification of a
    failure, the decision to call again and its delay, and the loop [Do].  An
    error is the list of the errors its chain wraps, in the order [errors.Is]
    and [errors.As] visit them; [sdk.APIError] is seen through its [Kind] and
    [RetryAfter].  The random jitter, the outcomes of the calls and the state
    of the context are arguments. *)

From S2P Require Import Prelude GoStr.
#[local] Open Scope Z_scope.

(** ** Errors *)
Inductive Kind : Type := KindRateLimited | KindServerError | KindOther (name : str).
Inductive cause : Type :=
  | Canceled | DeadlineExceeded
  | APIError (kind : Kind) (retryAfter : option Z)
  | ErrStreamIncomplete | ErrUnexpectedEOF
  | NetError | OtherError (text : str).
Definition goerror : Type := list cause.

Definition is_context (c : cause) : bool := match c with Canceled | DeadlineExceeded => true | _ => false end.
Definition is_cutoff (c : cause) : bool := match c with ErrStreamIncomplete | ErrUnexpectedEOF => true | _ => false end.
(** [context.DeadlineExceeded] satisfies [net.Error] too. *)
Definition is_net (c : cause) : bool := match c with NetError | DeadlineExceeded => true | _ => false end.
Fixpoint as_APIError (err : goerror) : option (Kind * option Z) :=
  match err with
  | [] => None
  | APIError k r :: _ => Some (k, r)
  | _ :: err => as_APIError err
  end.

(** ** Classification *)
Inductive Reason : Type := ReasonRateLimited | ReasonServerError | ReasonStreamIncomplete | ReasonNetwork.
Definition Classifier : Type := option goerror -> option Reason.

Definition Retryable (err : option goerror) : option Reason :=
  match err with
  | None => None
  | Some err =>
      if existsb is_context err then None
      else match as_APIError err with
      | Some (KindRateLimited, _) => Some ReasonRateLimited
      | Some (KindServerError, _) => Some ReasonServerError
      | Some (KindOther _, _) => None
      | None =>
          if existsb is_cutoff err then Some ReasonStreamIncomplete
          else if existsb is_net err then Some ReasonNetwork
          else None
      end
  end.
Definition RateLimited (err : option goerror) : option Reason :=
  match Retryable err with Some ReasonRateLimited => Some ReasonRateLimited | _ => None end.

(** ** The decision *)
Record Config : Type := mkConfig { MaxAttempts : Z; FastAttempts : Z; BaseDelay : Z; MaxDelay : Z }.
Definition second : Z := 1000000000.
Definition DefaultConfig : Config := mkConfig 5 1 (1 * second) (8 * second).
Definition MaxRetryAfter : Z := 60 * second.
Record Retry : Type := mkRetry { rAttempt : Z; rMaxAttempts : Z; rDelay : Z; rReason : Reason }.

Definition orDefault (c : Config) : Config := if MaxAttempts c <=? 0 then DefaultConfig else c.

(** The backoff of [delay]; [int64N] is [rand.Int64N], and [None] the panic of a
    shift by a negative count. *)
Definition backoff (int64N : Z -> Z) (c : Config) (attempt : Z) : option Z :=
  if attempt <? FastAttempts c then Some 0
  else
    let backoffIdx := Z.min (wrap64 (attempt - FastAttempts c)) 20 in
    if backoffIdx <? 0 then None
    else
      let delay := Z.min (wrap64 (BaseDelay c * Z.shiftl 1 backoffIdx)) (MaxDelay c) in
      let half := Z.quot delay 2 in
      if half <=? 0 then Some 0 else Some (half + int64N half).
(** [delay] *)
Definition delay (int64N : Z -> Z) (c : Config) (attempt : Z) (err : goerror) : option Z :=
  match as_APIError err with
  | Some (_, Some after) => if after <=? MaxRetryAfter then Some after else backoff int64N c attempt
  | _ => backoff int64N c attempt
  end.

(** [Next]: [None] is a panic, [Some None] no retry. *)
Definition Next (int64N : Z -> Z) (c : Config) (retries : Z) (err : goerror) (retryable : option Classifier)
    : option (option Retry) :=
  let c := orDefault c in
  let retryable := default Retryable retryable in
  match retryable (Some err) with
  | None => Some None
  | Some reason =>
      if MaxAttempts c <=? retries then Some None
      else match delay int64N c retries err with
           | None => None
           | Some d => Some (Some (mkRetry (retries + 1) (MaxAttempts c) d reason))
           end
  end.

(** ** The loop *)
Section loop.
Context {T : Type} (int64N : Z -> Z) (cfg : Config) (retryable : option Classifier).
(** The outcome of call [n], [ctx.Err()] after it, and what [Sleep] returns
    before the next one. *)
Context (call : nat -> result (T * goerror) T) (ctxErr : nat -> option goerror) (sleepErr : nat -> option goerror).
Context (zero : T).

(** What [Do] returns, with the retries it announced; the outer [None] is out of
    fuel, the inner one a panic. *)
Fixpoint DoLoop (fuel : nat) (retries : nat) : option (option (list Retry * result (T * goerror) T)) :=
  match fuel with
  | O => None
  | S fuel =>
      match call retries with
      | Ok v => Some (Some ([], Ok v))
      | Err (v, err) =>
          match Next int64N cfg (Z.of_nat retries) err retryable with
          | None => Some None
          | Some None => Some (Some ([], Err (v, err)))
          | Some (Some retry) =>
              match ctxErr retries with
              | Some _ => Some (Some ([], Err (v, err)))
              | None =>
                  match sleepErr retries with
                  | Some e => Some (Some ([retry], Err (zero, e)))
                  | None =>
                      match DoLoop fuel (S retries) with
                      | Some (Some (rs, r)) => Some (Some (retry :: rs, r))
                      | other => other
                      end
                  end
              end
          end
      end
  end.
(** [Next] refuses after [MaxAttempts] retries, so this many calls suffice. *)
Definition Do : option (option (list Retry * result (T * goerror) T)) :=
  DoLoop (S (Z.to_nat (MaxAttempts (orDefault cfg)))) 0.
End loop.

(** ** Facts *)
Lemma orDefault_positive c : 0 < MaxAttempts (orDefault c).
Proof. unfold orDefault. case_if; bool_hyps; [simpl; lia|done]. Qed.
Definition sound_random (int64N : Z -> Z) : Prop := forall n, 0 < n -> 0 <= int64N n < n.

Lemma Next_Some int64N c n err cl r :
  Next int64N c n err cl = Some (Some r) ->
  n < MaxAttempts (orDefault c) /\ default Retryable cl (Some err) = Some (rReason r) /\ rAttempt r = n + 1 /\
  rMaxAttempts r = MaxAttempts (orDefault c) /\ delay int64N (orDefault c) n err = Some (rDelay r).
Proof.
  unfold Next. destruct (default _ _ _) as [reason|]; [|done]. case_if; [done|]. bool_hyps.
  destruct (delay _ _ _ _) as [d|]; [|done]. intros [= <-]. simpl. done.
Qed.
Lemma int64_small n : -2 ^ 63 <= n < 2 ^ 63 -> wrap64 n = n.
Proof. intros H. unfold wrap64. rewrite Z.mod_small; lia. Qed.
Lemma backoff_spec int64N c n : sound_random int64N ->
  0 <= FastAttempts c <= max_int64 -> 0 <= n <= max_int64 ->
  exists d, backoff int64N c n = Some d /\ 0 <= d <= Z.max 0 (MaxDelay c) /\
    (n < FastAttempts c -> d = 0) /\
    (FastAttempts c <= n ->
     let ideal := BaseDelay c * 2 ^ Z.min (n - FastAttempts c) 20 in
     let D := Z.min ideal (MaxDelay c) in
     2 <= D -> ideal <= max_int64 -> D / 2 <= d < D).
Proof.
  unfold max_int64. intros Hr Hf Hn. unfold backoff.
  destruct (Z.ltb_spec n (FastAttempts c)); [exists 0; split_and!; [done|lia|lia|done|lia]|].
  rewrite (int64_small (n - FastAttempts c)) by lia.
  set (k := Z.min (n - FastAttempts c) 20). destruct (Z.ltb_spec k 0); [lia|].
  rewrite Z.shiftl_1_l. set (w := wrap64 _).
  assert (Hw : forall I, I = BaseDelay c * 2 ^ k -> 2 <= Z.min I (MaxDelay c) -> I <= 2 ^ 63 - 1 -> w = I).
  { intros I -> H1 H2. subst w. apply int64_small. lia. }
  destruct (Z.leb_spec (Z.quot (Z.min w (MaxDelay c)) 2) 0) as [Hh|Hh].
  - exists 0. split_and!; [done|lia|lia|done|]. intros _ HD HI. exfalso.
    rewrite (Hw _ eq_refl HD HI), Z.quot_div_nonneg in Hh by lia.
    pose proof (Z.div_le_mono 2 _ 2 ltac:(lia) HD) as Hd2. rewrite Z.div_same in Hd2; lia.
  - assert (0 <= Z.min w (MaxDelay c)).
    { destruct (Z.ltb_spec (Z.min w (MaxDelay c)) 0); [|lia].
      pose proof (Z.quot_opp_l (- Z.min w (MaxDelay c)) 2 ltac:(lia)). rewrite Z.opp_involutive in *.
      pose proof (Z.quot_pos (- Z.min w (MaxDelay c)) 2 ltac:(lia) ltac:(lia)). lia. }
    rewrite Z.quot_div_nonneg in * by lia. set (m := Z.min w (MaxDelay c)) in *.
    pose proof (Hr (m / 2) Hh). pose proof (Z.mul_div_le m 2 ltac:(lia)).
    eexists. split; [done|]. split_and!; [lia|lia|lia|].
    intros _ HD HI. rewrite <- (Hw _ eq_refl HD HI). fold m. lia.
Qed.

Lemma delay_total int64N c n err : sound_random int64N ->
  0 <= FastAttempts c <= max_int64 -> 0 <= n <= max_int64 -> is_Some (delay int64N c n err).
Proof.
  intros Hr Hf Hn. destruct (backoff_spec int64N c n Hr Hf Hn) as (d & Hd & _). unfold delay. rewrite Hd.
  destruct (as_APIError err) as [[k [after|]]|]; [case_if|..]; done.
Qed.

(** ** The loop *)
Section loop_facts.
Context {T : Type} (int64N : Z -> Z) (cfg : Config) (retryable : option Classifier).
Context (call : nat -> result (T * goerror) T) (ctxErr : nat -> option goerror) (sleepErr : nat -> option goerror).
Context (zero : T).
Context (random : sound_random int64N).
Context (fast : 0 <= FastAttempts (orDefault cfg) <= max_int64).
Context (maxed : MaxAttempts (orDefault cfg) <= max_int64).
Abbreviation classify := (default Retryable retryable).
Abbreviation limit := (MaxAttempts (orDefault cfg)).

(** The loop may stop at call [n] with its value, or with its failure. *)
Definition stops (n : nat) (r : result (T * goerror) T) : Prop :=
  (exists v, call n = Ok v /\ r = Ok v) \/
  (exists v e, call n = Err (v, e) /\ r = Err (v, e) /\
     (classify (Some e) = None \/ limit <= Z.of_nat n \/ ctxErr n <> None)).
(** Retry [i] follows a failed call [i] that is worth making again. *)
Definition retried (i : nat) (retry : Retry) : Prop :=
  rAttempt retry = Z.of_nat i + 1 /\ rMaxAttempts retry = limit /\ ctxErr i = None /\
  exists v e, call i = Err (v, e) /\ classify (Some e) = Some (rReason retry) /\
              delay int64N (orDefault cfg) (Z.of_nat i) e = Some (rDelay retry).
(** A run from call [k] on: the retries made, and how it ended. *)
Inductive run_from (k : nat) : list Retry -> result (T * goerror) T -> Prop :=
  | run_stop r : stops k r -> run_from k [] r
  | run_wait_ends retry e : retried k retry -> sleepErr k = Some e -> run_from k [retry] (Err (zero, e))
  | run_again retry rs r :
      retried k retry -> sleepErr k = None -> run_from (S k) rs r -> run_from k (retry :: rs) r.

Lemma DoLoop_run fuel k :
  Z.of_nat k <= limit -> limit < Z.of_nat k + Z.of_nat fuel ->
  exists rs r, DoLoop int64N cfg retryable call ctxErr sleepErr zero fuel k = Some (Some (rs, r)) /\
    run_from k rs r /\ Z.of_nat k + Z.of_nat (length rs) <= limit.
Proof using random fast maxed.
  revert k. induction fuel as [|fuel IH]; intros k Hk Hf; [lia|]. simpl.
  destruct (call k) as [v|[v err]] eqn:Ec.
  { exists [], (Ok v). split_and!; [done| |simpl; lia]. constructor. left. by exists v. }
  unfold Next. destruct (classify (Some err)) as [reason|] eqn:Ecl.
  2: { exists [], (Err (v, err)). split_and!; [done| |simpl; lia]. constructor. right. exists v, err. auto. }
  destruct (Z.leb_spec limit (Z.of_nat k)).
  { exists [], (Err (v, err)). split_and!; [done| |simpl; lia]. constructor. right. exists v, err. auto. }
  destruct (delay_total int64N (orDefault cfg) (Z.of_nat k) err random fast ltac:(lia)) as [d Hd]. rewrite Hd.
  destruct (ctxErr k) as [ce|] eqn:Ectx.
  { exists [], (Err (v, err)). split_and!; [done| |simpl; lia]. constructor. right. exists v, err.
    split_and!; [done|done|]. right; right. by rewrite Ectx. }
  set (retry := mkRetry _ _ _ _). assert (Hret : retried k retry) by (split_and!; [done|done|done|]; by exists v, err).
  destruct (sleepErr k) as [e|] eqn:Es.
  { exists [retry], (Err (zero, e)). split_and!; [done|by apply run_wait_ends|simpl; lia]. }
  destruct (IH (S k)) as (rs & r & -> & Hrun & Hlen); [lia|lia|].
  exists (retry :: rs), r. split_and!; [done|by apply run_again|simpl; lia].
Qed.
End loop_facts.

(** ** Properties *)

(** a failure that carries a cancellation or an expired deadline is never
    retried, however else it is classified; an answered failure is retried
    exactly when the provider's kind is a rate limit or a server error; and
    the strict classifier retries only rate limits, so never a call that may
    have produced something. *)
Theorem retry_classification (err : goerror) :
  (existsb is_context err = true -> Retryable (Some err) = None /\ RateLimited (Some err) = None) /\
  (forall k after, existsb is_context err = false -> as_APIError err = Some (k, after) ->
     Retryable (Some err) = match k with
                            | KindRateLimited => Some ReasonRateLimited
                            | KindServerError => Some ReasonServerError
                            | KindOther _ => None
                            end) /\
  (existsb is_context err = false -> as_APIError err = None ->
     (is_Some (Retryable (Some err)) <-> exists c, c ∈ err /\ (is_cutoff c = true \/ is_net c = true))) /\
  (forall reason, RateLimited (Some err) = Some reason ->
     reason = ReasonRateLimited /\ Retryable (Some err) = Some reason /\
     exists after, as_APIError err = Some (KindRateLimited, after)).
Proof.
  split_and!.
  - intros H. unfold RateLimited, Retryable. by rewrite H.
  - intros k after H Ha. unfold Retryable. rewrite H, Ha. by destruct k.
  - intros H Ha. unfold Retryable. rewrite H, Ha.
    destruct (existsb is_cutoff err) eqn:E1.
    + split; [|done]. intros _. apply existsb_exists in E1 as (c & Hc & Hx). exists c.
      split; [by apply list_elem_of_In|by left].
    + destruct (existsb is_net err) eqn:E2.
      * split; [|done]. intros _. apply existsb_exists in E2 as (c & Hc & Hx). exists c.
        split; [by apply list_elem_of_In|by right].
      * split; [by intros [? ?]|]. intros (c & Hc%list_elem_of_In & Hx). exfalso.
        destruct Hx as [Hx|Hx]; [rewrite <- not_true_iff_false in E1; apply E1|
          rewrite <- not_true_iff_false in E2; apply E2]; apply existsb_exists; eauto.
  - unfold RateLimited. intros reason. destruct (Retryable (Some err)) as [[]|] eqn:E; intros [= <-].
    split_and!; [done|done|]. unfold Retryable in E. case_if; [done|].
    destruct (as_APIError err) as [[[] after]|]; try done; [by exists after|].
    by repeat (case_if; [done|]).
Qed.

(** the wait before a retry.  A provider's Retry-After of at most a minute
    is taken as it is; otherwise the first [FastAttempts] retries wait
    nothing, and a later one waits at least half and less than the whole of
    [BaseDelay * 2^k] capped at [MaxDelay], for the k-th slow attempt (k capped
    at 20), as long as that product is a 64-bit duration; in every case the
    backoff is between zero and [MaxDelay] and the random draw cannot panic. *)
Theorem retry_delay_bounds (int64N : Z -> Z) (c : Config) (n : Z) (err : goerror) :
  sound_random int64N -> 0 <= FastAttempts c <= max_int64 -> 0 <= n <= max_int64 ->
  exists d, delay int64N c n err = Some d /\
    ((exists k, as_APIError err = Some (k, Some d) /\ d <= MaxRetryAfter) \/
     ((forall k after, as_APIError err = Some (k, Some after) -> MaxRetryAfter < after) /\
      0 <= d <= Z.max 0 (MaxDelay c) /\
      (n < FastAttempts c -> d = 0) /\
      (FastAttempts c <= n ->
       let ideal := BaseDelay c * 2 ^ Z.min (n - FastAttempts c) 20 in
       let D := Z.min ideal (MaxDelay c) in
       2 <= D -> ideal <= max_int64 -> D / 2 <= d < D))).
Proof.
  intros Hr Hf Hn. destruct (backoff_spec int64N c n Hr Hf Hn) as (d & Hd & H). unfold delay.
  destruct (as_APIError err) as [[k [after|]]|].
  - case_if; bool_hyps.
    + exists after. split; [done|]. left. by exists k.
    + exists d. split; [done|]. right. split; [by intros k' a [= _ <-]|done].
  - exists d. split; [done|]. right. split; [done|done].
  - exists d. split; [done|]. right. split; [done|done].
Qed.
Lemma retry_delay_bounds_witness :
  delay (fun n => n / 2) DefaultConfig 3 [APIError KindServerError (Some (120 * second))] = Some (3 * second) /\
  exists d, delay (fun n => n / 2) DefaultConfig 3 [NetError] = Some d.
Proof.
  split; [vm_compute; reflexivity|].
  destruct (retry_delay_bounds (fun n => n / 2) DefaultConfig 3 [NetError]) as (d & Hd & _).
  - intros n Hn. split; [apply Z.div_pos; lia|apply Z.div_lt; lia].
  - vm_compute. split; discriminate.
  - vm_compute. split; discriminate.
  - exists d. exact Hd.
Defined.


(** C25: [Do] always returns, without a panic, after at most [MaxAttempts]
    retries (5 when none is configured).  What it does is a run: call 0 first,
    and after a failed call only if the classifier accepts the failure, fewer
    than [MaxAttempts] retries were made and the context is alive, a wait of
    the computed delay and the next call; it returns the value of the first
    call that succeeds, the failure it gave up on, or the context's error when
    that ends a wait. *)
Theorem do_returns {T : Type} (int64N : Z -> Z) (cfg : Config) (retryable : option Classifier)
    (call : nat -> result (T * goerror) T) (ctxErr sleepErr : nat -> option goerror) (zero : T) :
  sound_random int64N -> 0 <= FastAttempts (orDefault cfg) <= max_int64 ->
  MaxAttempts (orDefault cfg) <= max_int64 ->
  exists retries r,
    Do int64N cfg retryable call ctxErr sleepErr zero = Some (Some (retries, r)) /\
    run_from int64N cfg retryable call ctxErr sleepErr zero 0 retries r /\
    Z.of_nat (length retries) <= MaxAttempts (orDefault cfg).
Proof.
  intros Hr Hf Hm. pose proof (orDefault_positive cfg).
  destruct (DoLoop_run int64N cfg retryable call ctxErr sleepErr zero Hr Hf Hm
              (S (Z.to_nat (MaxAttempts (orDefault cfg)))) 0) as (rs & r & Hd & Hrun & Hlen); [lia|lia|].
  exists rs, r. split_and!; [exact Hd|done|lia].
Qed.
Lemma do_returns_witness :
  let call := fun n => if (n <? 2)%nat then Err (0, [APIError KindRateLimited None]) else Ok 7 in
  exists retries, Do (fun n => n / 2) DefaultConfig None call (fun _ => None) (fun _ => None) 0
    = Some (Some (retries, Ok 7)) /\ length retries = 2%nat /\ Z.of_nat (length retries) <= 5.
Proof.
  intros call.
  destruct (do_returns (fun n => n / 2) DefaultConfig None call (fun _ => None) (fun _ => None) 0)
    as (rs & r & Hd & _ & Hlen).
  - intros n Hn. split; [apply Z.div_pos; lia|apply Z.div_lt; lia].
  - vm_compute. split; discriminate.
  - vm_compute. discriminate.
  - eexists. split; [vm_compute; reflexivity|]. split; [vm_compute; reflexivity|].
    assert (Hv : Do (fun n => n / 2) DefaultConfig None call (fun _ => None) (fun _ => None) 0
                 = Some (Some (rs, r))) by exact Hd.
    vm_compute in Hv. injection Hv as <- _. exact Hlen.
Defined.
