(* ===== verification/Approval.v ===== *)
(** * The tool-approval policy

    Models [internal/agent/decision/approval/policy.go] and
    [policy_config.go]: whether a tool call is let through, put to the user
    or denied, from the bot's policy and the call's arguments.  Arguments are
    the map [inputMap] produced; its JSON conversion of other inputs is not
    modelled. *)

From S2P Require Import Prelude GoStr GoPath.
#[local] Open Scope Z_scope.

(** ** Data *)
Inductive Decision : Type := DecisionBypass | DecisionNeedsApproval | DecisionDeny.
Inductive Operation : Type := OperationRead | OperationWrite | OperationExec | OperationPermission.
Inductive PolicyMode : Type := PolicyModeAllow | PolicyModeAsk | PolicyModeDeny | PolicyModeUnset.
#[export] Instance PolicyMode_eq_dec : EqDecision PolicyMode.
Proof. solve_decision. Defined.
Definition is_ask (m : PolicyMode) : bool := bool_decide (m = PolicyModeAsk).
Definition is_deny (m : PolicyMode) : bool := bool_decide (m = PolicyModeDeny).

(** A policy as configured: modes are text, and a nil list takes the default. *)
Record FilePolicy : Type := mkFilePolicy {
  fpMode : str; fpRequireApproval : bool; fpBypassGlobs : option (list str); fpForceReviewGlobs : option (list str) }.
Record ExecPolicy : Type := mkExecPolicy {
  epMode : str; epRequireApproval : bool; epBypassCommands : option (list str);
  epForceReviewCommands : option (list str) }.
Record PolicyConfig : Type := mkPolicyConfig {
  pcEnabled : bool; pcRead : FilePolicy; pcWrite : FilePolicy; pcExec : ExecPolicy }.

(** A policy in force, after [NormalizePolicyConfig]. *)
Record Policy : Type := mkPolicy {
  pMode : PolicyMode; pRequireApproval : bool; pBypass : list str; pForceReview : list str }.
Record Effective : Type := mkEffective { eEnabled : bool; eRead : Policy; eWrite : Policy; eExec : Policy }.

Inductive argument : Type :=
  | AString (s : str) | AStrings (l : list str) | AList (l : list argument) | AOther.
Definition arguments : Type := list (str * argument).
Definition lookup_arg (args : arguments) (key : str) : option argument :=
  snd <$> (snd <$> find_idx (fun kv => str_eqb kv.1 key) args).

Section with_unicode.
Context {U : Unicode}.

(** ** Normalisation *)
Definition normalizePolicyMode (mode : str) : PolicyMode :=
  let m := to_lower (trim_space mode) in
  if str_eqb m (lit "allow") then PolicyModeAllow
  else if str_eqb m (lit "ask") then PolicyModeAsk
  else if str_eqb m (lit "deny") then PolicyModeDeny
  else PolicyModeUnset.
Definition normalizeFilePolicy (p : FilePolicy) (bypass forceReview : list str) : Policy :=
  mkPolicy (normalizePolicyMode (fpMode p)) (fpRequireApproval p)
    (default bypass (fpBypassGlobs p)) (default forceReview (fpForceReviewGlobs p)).
Definition normalizeExecPolicy (p : ExecPolicy) : Policy :=
  mkPolicy (normalizePolicyMode (epMode p)) (epRequireApproval p)
    (default [] (epBypassCommands p)) (default [] (epForceReviewCommands p)).
Definition fileBypass : list str := [lit "/data/**"; lit "/tmp/**"].
Definition NormalizePolicyConfig (c : PolicyConfig) : Effective :=
  mkEffective (pcEnabled c) (normalizeFilePolicy (pcRead c) [] [])
    (normalizeFilePolicy (pcWrite c) fileBypass []) (normalizeExecPolicy (pcExec c)).

(** ** Arguments *)
Definition readString (args : arguments) (key : str) : str :=
  match lookup_arg args key with Some (AString s) => trim_space s | _ => [] end.
(** [seen] always holds what [out] does. *)
Definition addPath (out : list str) (s : str) : list str :=
  let p := trim_space s in
  if is_empty p then out else if bool_decide (p ∈ out) then out else out ++ [p].
Fixpoint addApprovalPath (out : list str) (v : argument) : list str :=
  match v with
  | AString s => addPath out s
  | AStrings l => fold_left addPath l out
  | AList l => fold_left addApprovalPath l out
  | AOther => out
  end.
Definition pathKeys : list str :=
  [lit "path"; lit "file_path"; lit "filePath"; lit "file"; lit "filename"; lit "old_path"; lit "new_path";
   lit "notebook_path"; lit "paths"; lit "files"].
Definition approvalPaths (args : arguments) : list str :=
  fold_left (fun out key => match lookup_arg args key with
                            | Some v => addApprovalPath out v
                            | None => out
                            end) pathKeys [].
Definition patchPrefixes : list str :=
  [lit "*** Add File: "; lit "*** Delete File: "; lit "*** Update File: "; lit "*** Move to: "].
(** The path a patch line names, under the first prefix it has. *)
Fixpoint patchLinePath (prefixes : list str) (line : str) : option str :=
  match prefixes with
  | [] => None
  | p :: r => match cut_prefix line p with Some path => Some path | None => patchLinePath r line end
  end.
Definition applyPatchPaths (patch : str) : list str :=
  fold_left (fun out line => match patchLinePath patchPrefixes line with
                             | Some path => addPath out path
                             | None => out
                             end) (split_byte nl patch) [].

(** ** Paths and globs *)
Definition normalizeContainerPath (raw : str) : str :=
  let p := trim_space raw in
  if str_eqb p (lit "/data") || str_eqb p (lit "/tmp") then p
  else
    let p := trim_prefix p (lit "./") in
    if is_empty p then lit "." else path_clean p.
(** One pattern, the target normalised. *)
Definition globMatches (target raw : str) : bool :=
  let pattern := normalizeContainerPath raw in
  if str_eqb pattern (lit ".") || is_empty pattern then false
  else if has_suffix pattern (lit "/**") then
    let prefix := trim_suffix pattern (lit "/**") in
    let relativePrefix := trim_left prefix [slash] in
    (str_eqb prefix (lit "/data") && negb (has_prefix target [slash])) ||
    str_eqb target prefix || has_prefix target (prefix ++ [slash]) ||
    str_eqb target relativePrefix || has_prefix target (relativePrefix ++ [slash])
  else
    path_match pattern target || (negb (contains pattern [slash]) && path_match pattern (path_base target)).
Definition matchesAnyGlob (target : str) (patterns : list str) : bool :=
  existsb (globMatches (normalizeContainerPath target)) patterns.
Definition matchesAnyPathGlob (targets patterns : list str) : bool :=
  existsb (fun t => matchesAnyGlob t patterns) targets.
Definition pathsBypass (targets patterns : list str) : bool :=
  negb (bool_decide (targets = [])) && forallb (fun t => matchesAnyGlob t patterns) targets.

(** ** Commands *)
(** The outer quotes are trimmed and a backquote is refused, so the
    [strconv.Unquote] that follows in the code always fails. *)
Definition simpleExecutable (command : str) : option str :=
  let cmd := trim_space command in
  if is_empty cmd then None
  else if contains cmd (lit "&&") || contains cmd (lit "||") || contains_any cmd (lit ";|`") ||
          contains cmd (lit "$(")
  then None
  else match fields cmd with
  | [] => None
  | f :: _ =>
      let exe := trim f [dquote; "'"%char] in
      if is_empty exe then None else Some (path_base exe)
  end.
Definition normalizeCommand (raw : str) : str := join (lit " ") (fields (trim_space raw)).
Definition isExecutablePattern (pattern : str) : bool :=
  negb (contains_any pattern (lit " " ++ [tab; cr; nl] ++ lit "*?")).

(** [wildcardMatch]: [p] and [v] are what is left of the pattern and the value,
    [star] what was left of both after the last star taken. *)
Fixpoint wildcardLoop (fuel : nat) (p v : str) (star : option (str * str)) : bool :=
  match fuel with
  | O => false
  | S fuel =>
      match v with
      | [] => forallb (fun c => Ascii.eqb c "*") p
      | d :: v' =>
          match p with
          | c :: p' =>
              if Ascii.eqb c "?" || Ascii.eqb c d then wildcardLoop fuel p' v' star
              else if Ascii.eqb c "*" then wildcardLoop fuel p' v (Some (p', v))
              else match star with
                   | Some (ps, _ :: vs) => wildcardLoop fuel ps vs (Some (ps, vs))
                   | _ => false
                   end
          | [] => match star with
                  | Some (ps, _ :: vs) => wildcardLoop fuel ps vs (Some (ps, vs))
                  | _ => false
                  end
          end
      end
  end.
(** A star moves forward in the pattern or the value each time it is taken or
    tried again, and an attempt from it takes at most a step per pattern byte. *)
Definition wildcardFuel (pattern value : str) : nat :=
  S (S (length pattern + length value) * S (length pattern) + length pattern)%nat.
Definition wildcardMatch (pattern value : str) : bool :=
  wildcardLoop (wildcardFuel pattern value) pattern value None.

Definition commandMatchesPattern (command pattern : str) : bool :=
  let command := to_lower command in
  let pattern := to_lower pattern in
  if negb (contains_any pattern (lit "*?")) then str_eqb command pattern else wildcardMatch pattern command.
Definition matchesCommandWithExecutable (command exe : str) (patterns : list str) : bool :=
  let command := normalizeCommand command in
  let exe := to_lower (trim_space exe) in
  existsb (fun raw =>
    let pattern := normalizeCommand raw in
    if is_empty pattern then false
    else if isExecutablePattern pattern then negb (is_empty exe) && str_eqb exe (to_lower pattern)
    else commandMatchesPattern command pattern) patterns.
Definition matchesCommand (command : str) (patterns : list str) : bool :=
  matchesCommandWithExecutable command (default [] (simpleExecutable command)) patterns.

(** ** Decisions *)
Definition OperationForTool (toolName : str) : option Operation :=
  let t := to_lower (trim_space toolName) in
  if bool_decide (t ∈ [lit "read"; lit "list"]) then Some OperationRead
  else if bool_decide (t ∈ [lit "write"; lit "edit"; lit "apply_patch"]) then Some OperationWrite
  else if str_eqb t (lit "exec") then Some OperationExec
  else if bool_decide (t ∈ [lit "permission"; lit "mcp_manage"; lit "app_manage"]) then Some OperationPermission
  else None.
Definition permissionKindMode (cfg : Effective) (kind : str) : option PolicyMode :=
  let k := to_lower (trim_space kind) in
  if str_eqb k (lit "execute") then Some (pMode (eExec cfg))
  else if str_eqb k (lit "read") then Some (pMode (eRead cfg))
  else if str_eqb k (lit "edit") then Some (pMode (eWrite cfg))
  else None.
(** The first part of each case: a mode of allow or deny decides. *)
Definition explicitModeDecision (mode : PolicyMode) : option Decision :=
  match mode with
  | PolicyModeAllow => Some DecisionBypass
  | PolicyModeAsk => Some DecisionNeedsApproval
  | PolicyModeDeny => Some DecisionDeny
  | PolicyModeUnset => None
  end.
Definition withMode (mode : PolicyMode) (k : Decision) : Decision :=
  match explicitModeDecision mode with
  | Some DecisionBypass => DecisionBypass
  | Some DecisionDeny => DecisionDeny
  | _ => k
  end.
Definition asks (p : Policy) : bool := is_ask (pMode p) || pRequireApproval p.
Definition reviewFiles (p : Policy) (targets : list str) (asked : bool) : Decision :=
  if matchesAnyPathGlob targets (pForceReview p) then DecisionNeedsApproval
  else if pathsBypass targets (pBypass p) then DecisionBypass
  else if asked then DecisionNeedsApproval else DecisionBypass.
Definition reviewCommand (p : Policy) (command : str) : Decision :=
  if matchesCommand command (pForceReview p) then DecisionNeedsApproval
  else match simpleExecutable command with
  | None => if asks p then DecisionNeedsApproval else DecisionBypass
  | Some exe =>
      if matchesCommandWithExecutable command exe (pBypass p) then DecisionBypass
      else if asks p then DecisionNeedsApproval else DecisionBypass
  end.

Definition policyDecision (cfg : PolicyConfig) (toolName : str) (args : arguments) : Decision :=
  let cfg := NormalizePolicyConfig cfg in
  if str_eqb toolName (lit "mcp_manage") || str_eqb toolName (lit "app_manage") then
    let action := readString args (lit "action") in
    if str_eqb action (lit "list") || str_eqb action (lit "get") then DecisionBypass
    else if eEnabled cfg && (is_deny (pMode (eWrite cfg)) || is_deny (pMode (eExec cfg))) then DecisionDeny
    else DecisionNeedsApproval
  else match OperationForTool toolName with
  | None => DecisionBypass
  | Some operation =>
      if negb (eEnabled cfg) then DecisionBypass
      else match operation with
      | OperationRead => withMode (pMode (eRead cfg)) (reviewFiles (eRead cfg) (approvalPaths args) (asks (eRead cfg)))
      | OperationWrite =>
          withMode (pMode (eWrite cfg))
            (if equal_fold (trim_space toolName) (lit "apply_patch")
             then reviewFiles (eWrite cfg) (applyPatchPaths (readString args (lit "patch")))
                    (asks (eWrite cfg) || negb (bool_decide (pForceReview (eWrite cfg) = [])))
             else reviewFiles (eWrite cfg) (approvalPaths args) (asks (eWrite cfg)))
      | OperationExec => withMode (pMode (eExec cfg)) (reviewCommand (eExec cfg) (readString args (lit "command")))
      | OperationPermission =>
          match permissionKindMode cfg (readString args (lit "policy_kind")) with
          | Some PolicyModeDeny => DecisionDeny
          | _ => DecisionNeedsApproval
          end
      end
  end.
End with_unicode.

(** ** The wildcard matcher against its specification *)
(** What a pattern means: a star is any text, a question mark any byte, another
    byte itself. *)
Inductive wild : str -> str -> Prop :=
  | wild_nil : wild [] []
  | wild_any p c v : wild p v -> wild ("?"%char :: p) (c :: v)
  | wild_byte p c v : c <> "*"%char -> wild p v -> wild (c :: p) (c :: v)
  | wild_star_none p v : wild p v -> wild ("*"%char :: p) v
  | wild_star_more p c v : wild ("*"%char :: p) v -> wild ("*"%char :: p) (c :: v).

Lemma wild_star_iff p v : wild ("*"%char :: p) v <-> exists x y, v = x ++ y /\ wild p y.
Proof.
  split.
  - intros H. remember ("*"%char :: p) as q eqn:Hq. induction H; simplify_eq.
    + by exists [], v.
    + destruct IHwild as (x & y & -> & Hy); [done|]. by exists (c :: x), y.
  - intros (x & y & -> & Hy). induction x as [|c x IH]; simpl; by constructor.
Qed.
Lemma wild_extend p v x : wild ("*"%char :: p) v -> wild ("*"%char :: p) (x ++ v).
Proof. intros H. induction x as [|c x IH]; simpl; [done|by constructor]. Qed.
Definition star_free (q : str) : Prop := Forall (fun c => c <> "*"%char) q.
(** A star-free beginning takes a byte for each of its own. *)
Lemma wild_free_app q p y : star_free q -> wild (q ++ p) y ->
  exists w v, y = w ++ v /\ length w = length q /\ wild p v.
Proof.
  intros Hq. revert y. induction Hq as [|c q Hc _ IH]; intros y H; [by exists [], y|].
  simpl in H. inversion H; subst; try done; destruct (IH _ ltac:(eassumption)) as (w & v' & -> & Hl & Hw);
    (eexists (_ :: w), v'; split; [reflexivity|]; simpl; by rewrite Hl).
Qed.
Lemma wild_head_inv c p d v : c <> "*"%char -> c <> "?"%char -> c <> d -> ~ wild (c :: p) (d :: v).
Proof. intros H1 H2 H3 H. inversion H; by subst. Qed.
Lemma wild_nil_r p : wild p [] <-> forallb (fun c => Ascii.eqb c "*") p = true.
Proof.
  induction p as [|c p IH]; simpl; [split; [done|constructor]|]. rewrite andb_true_iff, <- IH. split.
  - intros H. inversion H; subst. by split.
  - intros [->%Ascii.eqb_eq Hp]. by constructor.
Qed.

(** The loop's state as a statement: the rest matches, or it does from a later
    place of the last star. *)
Definition star_alternative (star : option (str * str)) : Prop :=
  match star with Some (ps, _ :: vs) => wild ("*"%char :: ps) vs | _ => False end.
(** What the loop keeps of its state: since the last star a star-free part of
    the pattern was matched byte for byte, and the work left fits the fuel. *)
Definition wild_state (k fuel : nat) (p v : str) (star : option (str * str)) : Prop :=
  match star with
  | Some (ps, vs) =>
      (exists q w, ps = q ++ p /\ vs = w ++ v /\ star_free q /\ length q = length w) /\
      (length ps <= k)%nat /\ ((length ps + length vs) * S k + length p < fuel)%nat
  | None => (length p <= k)%nat /\ ((length p + length v) * S k + length p < fuel)%nat
  end.
Lemma wild_state_fuel k fuel p v star : wild_state k fuel p v star -> exists f, fuel = S f.
Proof. destruct fuel; [|by exists fuel]. destruct star as [[ps vs]|]; simpl; lia. Qed.
Lemma wild_state_step k fuel c d p v star : c <> "*"%char ->
  wild_state k (S fuel) (c :: p) (d :: v) star -> wild_state k fuel p v star.
Proof.
  intros Hc. destruct star as [[ps vs]|]; simpl; [|lia].
  intros ((q & w & -> & -> & Hq & Hl) & Hk & Hf). repeat split; [|lia|lia].
  exists (q ++ [c]), (w ++ [d]). rewrite <- !app_assoc, !length_app, Hl. repeat split.
  apply Forall_app. by repeat constructor.
Qed.
Lemma wild_state_star k fuel c p v star :
  wild_state k (S fuel) (c :: p) v star -> wild_state k fuel p v (Some (p, v)).
Proof.
  intros H. simpl. split; [by exists [], []; repeat constructor|].
  destruct star as [[ps vs]|]; simpl in H.
  - destruct H as ((q & w & -> & -> & Hq & Hl) & Hk & Hf). rewrite !length_app in *. simpl in *. nia.
  - nia.
Qed.
Lemma wild_state_back k fuel p v ps e vs :
  wild_state k (S fuel) p v (Some (ps, e :: vs)) -> wild_state k fuel ps vs (Some (ps, vs)).
Proof. intros (_ & Hk & Hf). simpl in *. split; [by exists [], []; repeat constructor|]. nia. Qed.

Lemma star_alternative_split ps vs : wild ("*"%char :: ps) vs ->
  wild ps vs \/ star_alternative (Some (ps, vs)).
Proof. intros H. inversion H; subst; simpl; auto; done. Qed.
(** What is left of an older star's alternative, once a part of the pattern is
    matched: the text still to come has the rest of the pattern in it. *)
Lemma star_alternative_rest q w p v e vs : star_free q -> length q = length w -> w ++ v = e :: vs ->
  wild ("*"%char :: q ++ p) vs -> exists z v', v = z ++ v' /\ z <> [] /\ wild p v'.
Proof.
  intros Hq Hl Hv Hw. apply wild_star_iff in Hw as (x & y & -> & Hy).
  apply wild_free_app in Hy as (w' & v' & -> & Hl' & Hp); [|done].
  rewrite app_assoc in Hv. change (e :: (x ++ w') ++ v') with ((e :: x ++ w') ++ v') in Hv.
  apply app_eq_inv in Hv as [(z & -> & Hz)|(z & Hz & ->)].
  - apply (f_equal length) in Hz as Hz'. rewrite ?length_app in *. simpl in *. rewrite ?length_app in *. lia.
  - exists z, v'. repeat split; try done. intros ->. rewrite app_nil_r in Hz.
    apply (f_equal length) in Hz. simpl in Hz. rewrite !length_app in Hz. lia.
Qed.

Lemma wildcardLoop_sound fuel p v star :
  wildcardLoop fuel p v star = true -> wild p v \/ star_alternative star.
Proof.
  revert p v star. induction fuel as [|fuel IH]; intros p v star; simpl; [done|].
  destruct v as [|d v']; [intros H; left; by apply wild_nil_r|].
  assert (Hback : (match star with Some (ps, _ :: vs) => wildcardLoop fuel ps vs (Some (ps, vs)) | _ => false end) = true ->
            star_alternative star).
  { destruct star as [[ps [|e vs]]|]; try done. intros H. simpl.
    apply wild_star_iff. destruct (IH _ _ _ H) as [Hw|Hs]; [by exists [], vs|].
    destruct vs as [|e' vs]; [done|]. simpl in Hs. apply wild_star_iff in Hs as (x & y & -> & Hy).
    by exists (e' :: x), y. }
  destruct p as [|c p']; [intros H; right; by apply Hback|].
  destruct (Ascii.eqb_spec c "?") as [-> | Hq]; simpl.
  { intros H. destruct (IH _ _ _ H); [left; by constructor|by right]. }
  destruct (Ascii.eqb_spec c d) as [-> | Hd]; simpl.
  { intros H. destruct (IH _ _ _ H) as [Hw|]; [left|by right].
    destruct (decide (d = "*"%char)) as [-> | ]; [|by constructor].
    apply wild_star_more. by apply wild_star_none. }
  destruct (Ascii.eqb_spec c "*") as [-> | Hs]; [|intros H; right; by apply Hback].
  intros H. left. destruct (IH _ _ _ H) as [Hw|Hw]; [by apply wild_star_none|]. by apply wild_star_more.
Qed.

Lemma wildcardLoop_complete k fuel p v star : Forall (fun d => d <> "*"%char) v ->
  match star with Some (_, vs) => Forall (fun d => d <> "*"%char) vs | None => True end ->
  wild_state k fuel p v star -> wild p v \/ star_alternative star -> wildcardLoop fuel p v star = true.
Proof.
  revert fuel p v star. induction fuel as [|fuel IH]; intros p v star Hv Hs Hst Hw.
  { by apply wild_state_fuel in Hst as [? ?]. }
  simpl. destruct v as [|d v'].
  { apply wild_nil_r. destruct Hw as [Hw|Hw]; [done|]. destruct star as [[ps [|e vs]]|]; try done.
    destruct Hst as ((q & w & -> & Hvs & Hq & Hl) & _).
    by destruct (star_alternative_rest q w p [] e vs Hq Hl (eq_sym Hvs) Hw) as ([|? ?] & ? & [=] & ? & ?). }
  apply Forall_cons in Hv as Hv'. destruct Hv' as [Hd Hv'].
  assert (Hback : ~ wild p (d :: v') ->
    match star with Some (ps, _ :: vs) => wildcardLoop fuel ps vs (Some (ps, vs)) | _ => false end = true).
  { intros Hn. destruct Hw as [Hw|Hw]; [done|]. destruct star as [[ps [|e vs]]|]; try done.
    assert (Hs' : Forall (fun d => d <> "*"%char) vs) by (by apply Forall_cons in Hs as [_ Hs]).
    apply IH; [done|done|eapply wild_state_back; exact Hst|by apply star_alternative_split]. }
  destruct p as [|c p']; [apply Hback; intros H; inversion H|].
  destruct (Ascii.eqb_spec c "?") as [-> | Hq]; simpl.
  { apply IH; [done|done|by eapply wild_state_step; [|exact Hst]|]. destruct Hw as [Hw|Hw]; [left|by right]. by inversion Hw. }
  destruct (Ascii.eqb_spec c d) as [-> | Hcd]; simpl.
  { apply IH; [done|done|by eapply wild_state_step; [|exact Hst]|]. destruct Hw as [Hw|Hw]; [left|by right]. by inversion Hw. }
  destruct (Ascii.eqb_spec c "*") as [-> | Hst2]; [|apply Hback; by apply wild_head_inv].
  apply IH; [done|done|eapply wild_state_star; exact Hst|]. apply star_alternative_split.
  destruct Hw as [Hw|Hw]; [done|]. destruct star as [[ps [|e vs]]|]; try done.
  destruct Hst as ((q & w & -> & Hvs & Hq' & Hl) & _).
  destruct (star_alternative_rest q w ("*"%char :: p') (d :: v') e vs Hq' Hl (eq_sym Hvs) Hw) as (z & y & -> & _ & Hy).
  by apply wild_extend.
Qed.

Lemma wildcardMatch_sound p v : wildcardMatch p v = true -> wild p v.
Proof. intros H. by destruct (wildcardLoop_sound _ _ _ _ H). Qed.
Lemma wildcardMatch_complete p v : Forall (fun d => d <> "*"%char) v -> wild p v -> wildcardMatch p v = true.
Proof.
  intros Hv Hw. apply (wildcardLoop_complete (length p)); [done|done| |by left].
  simpl. unfold wildcardFuel. split; [lia|nia].
Qed.

(** ** What the paths of a call are *)
(** Every text in an argument, however deep. *)
Fixpoint arg_strings (v : argument) : list str :=
  match v with
  | AString s => [s]
  | AStrings l => l
  | AList l => flat_map arg_strings l
  | AOther => []
  end.
Definition call_strings (args : arguments) : list str :=
  flat_map (fun key => match lookup_arg args key with Some v => arg_strings v | None => [] end) pathKeys.

Section paths.
Context {U : Unicode}.

Lemma addApprovalPath_strings v out : addApprovalPath out v = fold_left addPath (arg_strings v) out.
Proof.
  revert v out. fix IH 1. intros [s|l|l|] out; simpl; [done|done| |done].
  revert out. induction l as [|w l IHl]; intros out; simpl; [done|].
  by rewrite IHl, fold_left_app, IH.
Qed.
Lemma approvalPaths_strings args : approvalPaths args = fold_left addPath (call_strings args) [].
Proof.
  unfold approvalPaths, call_strings.
  assert (H : forall keys out,
    fold_left (fun out key => match lookup_arg args key with Some v => addApprovalPath out v | None => out end) keys out =
    fold_left addPath (flat_map (fun key => match lookup_arg args key with Some v => arg_strings v | None => [] end) keys) out);
    [|apply H].
  induction keys as [|k l IH]; intros out; simpl; [done|].
  rewrite fold_left_app, <- IH. destruct (lookup_arg args k); simpl; [by rewrite addApprovalPath_strings|done].
Qed.
Lemma elem_of_addPath out s p : p ∈ addPath out s <-> p ∈ out \/ (p = trim_space s /\ p <> []).
Proof.
  unfold addPath. destruct (is_empty _) eqn:E; str_hyps.
  { split; [by left|]. intros [?|[-> ?]]; done. }
  destruct (bool_decide _) eqn:Ei; str_hyps.
  { split; [by left|]. intros [?|[-> ?]]; done. }
  rewrite elem_of_app, list_elem_of_singleton. split; [|intros [?|[-> ?]]; auto]. intros [?| ->]; auto.
Qed.
Lemma elem_of_addPaths l out p :
  p ∈ fold_left addPath l out <-> p ∈ out \/ exists s, s ∈ l /\ p = trim_space s /\ p <> [].
Proof.
  revert out. induction l as [|s l IH]; intros out; simpl; [set_solver|].
  rewrite IH, elem_of_addPath. set_solver.
Qed.
Lemma elem_of_approvalPaths args p :
  p ∈ approvalPaths args <-> exists s, s ∈ call_strings args /\ p = trim_space s /\ p <> [].
Proof. rewrite approvalPaths_strings, elem_of_addPaths. set_solver. Qed.
Lemma elem_of_applyPatchPaths patch p :
  p ∈ applyPatchPaths patch <->
  exists line path, line ∈ split_byte nl patch /\ patchLinePath patchPrefixes line = Some path /\
    p = trim_space path /\ p <> [].
Proof.
  unfold applyPatchPaths.
  assert (H : forall l out, p ∈ fold_left (fun out line => match patchLinePath patchPrefixes line with
      | Some path => addPath out path | None => out end) l out <->
    p ∈ out \/ exists line path, line ∈ l /\ patchLinePath patchPrefixes line = Some path /\
      p = trim_space path /\ p <> []).
  { induction l as [|line l IH]; intros out; [simpl; set_solver|]. cbn [fold_left]. rewrite IH.
    destruct (patchLinePath patchPrefixes line) as [path|] eqn:E.
    - rewrite elem_of_addPath. split.
      + intros [[?|[-> ?]]|(l' & p' & ? & ?)]; [by left| |]; right;
          [exists line, path|exists l', p']; split_and!; try done; set_solver.
      + intros [?|(l' & p' & [-> | ?]%elem_of_cons & Hp & -> & ?)]; [by left; left| |].
        * simplify_eq. left. by right.
        * right. by exists l', p'.
    - split; (intros [?|(l' & p' & Hl & Hp & ?)]; [by left|]; right; exists l', p').
      + split; [by right|done].
      + apply elem_of_cons in Hl as [-> | ?]; [congruence|done]. }
  rewrite H. set_solver.
Qed.

(** A file call let through by an asking policy. *)
Lemma reviewFiles_bypass p targets : reviewFiles p targets true = DecisionBypass ->
  targets <> [] /\
  forall t, t ∈ targets -> matchesAnyGlob t (pBypass p) = true /\ matchesAnyGlob t (pForceReview p) = false.
Proof.
  unfold reviewFiles. destruct (matchesAnyPathGlob _ _) eqn:Ef; [done|]. destruct (pathsBypass _ _) eqn:Eb; [|done].
  intros _. unfold pathsBypass in Eb. str_hyps. split; [done|]. intros t Ht. split.
  - rewrite forallb_forall in *. by apply H0, list_elem_of_In.
  - destruct (matchesAnyGlob t (pForceReview p)) eqn:E; [|done].
    assert (matchesAnyPathGlob targets (pForceReview p) = true); [|congruence].
    apply existsb_exists. exists t. split; [by apply list_elem_of_In|done].
Qed.
End paths.

(** ** The policy's guarantees *)
(** The mode that governs a call: its operation's, or for a generic permission
    request that of the kind the agent declared. *)
Definition governing {U : Unicode} (e : Effective) (tool : str) (args : arguments) : option PolicyMode :=
  match OperationForTool tool with
  | Some OperationRead => Some (pMode (eRead e))
  | Some OperationWrite => Some (pMode (eWrite e))
  | Some OperationExec => Some (pMode (eExec e))
  | Some OperationPermission => permissionKindMode e (readString args (lit "policy_kind"))
  | None => None
  end.
Definition is_manage (tool : str) : bool := str_eqb tool (lit "mcp_manage") || str_eqb tool (lit "app_manage").
(** The paths a call to a file tool acts on. *)
Definition names_path {U : Unicode} (tool : str) (op : Operation) (args : arguments) (p : str) : Prop :=
  (if match op with OperationWrite => equal_fold (trim_space tool) (lit "apply_patch") | _ => false end
   then exists line path, line ∈ split_byte nl (readString args (lit "patch")) /\
          patchLinePath patchPrefixes line = Some path /\ p = trim_space path
   else exists s, s ∈ call_strings args /\ p = trim_space s) /\ p <> [].

Section guarantees.
Context {U : Unicode}.

Lemma manage_operation tool : is_manage tool = true -> OperationForTool tool = Some OperationPermission.
Proof. unfold is_manage. intros [E|E]%orb_true_iff; str_hyps; subst; vm_compute; reflexivity. Qed.
Lemma reviewFiles_no_deny p ts b : reviewFiles p ts b <> DecisionDeny.
Proof. unfold reviewFiles. by repeat case_if. Qed.
Lemma reviewCommand_no_deny p c : reviewCommand p c <> DecisionDeny.
Proof. unfold reviewCommand. case_if; [done|]. destruct (simpleExecutable c); by repeat case_if. Qed.
Lemma withMode_deny m k : k <> DecisionDeny -> (withMode m k = DecisionDeny <-> m = PolicyModeDeny).
Proof. intros H. by destruct m. Qed.
Lemma withMode_ask_bypass k : withMode PolicyModeAsk k = k.
Proof. done. Qed.
Lemma asks_ask p : pMode p = PolicyModeAsk -> asks p = true.
Proof. intros H. unfold asks, is_ask. by rewrite H. Qed.
(** A command with a program of its own has none of the operators looked for. *)
Lemma simpleExecutable_plain command exe : simpleExecutable command = Some exe ->
  Forall (fun op => contains (trim_space command) op = false) [lit "&&"; lit "||"; lit "$("] /\
  contains_any (trim_space command) (lit ";|`") = false.
Proof.
  unfold simpleExecutable. destruct (is_empty (trim_space command)); [done|].
  destruct (contains _ (lit "&&")) eqn:E1; [done|]. destruct (contains _ (lit "||")) eqn:E2; [done|].
  destruct (contains_any _ _) eqn:E3; [done|]. destruct (contains _ (lit "$(")) eqn:E4; [done|].
  intros _. by repeat constructor.
Qed.
Lemma commandMatchesPattern_wild command pattern : commandMatchesPattern command pattern = true ->
  to_lower command = to_lower pattern \/ wild (to_lower pattern) (to_lower command).
Proof.
  unfold commandMatchesPattern. case_if; [intros E; str_hyps; by left|]. intros H. right. by apply wildcardMatch_sound.
Qed.
End guarantees.

(** the command matcher against the meaning of its patterns.  A match it
    reports is one; and for a command with no star in it, the greedy loop that
    goes back to the last star only finds every match, within its bound. *)
Theorem wildcard_match_correct (pattern value : str) :
  (wildcardMatch pattern value = true -> wild pattern value) /\
  ("*"%char ∉ value -> (wildcardMatch pattern value = true <-> wild pattern value)).
Proof.
  split; [apply wildcardMatch_sound|]. intros Hv. split; [apply wildcardMatch_sound|].
  apply wildcardMatch_complete, Forall_forall. intros d Hd ->. done.
Qed.

(** C4: a call is denied exactly when the policy is enabled and the mode that
    governs it is deny - the operation's mode for a classified tool, the
    declared kind's mode for a generic permission request, and for the two
    management tools the write or the exec mode, unless they only list or
    get.  No argument escapes a deny mode and nothing else denies. *)
Theorem deny_decides {U : Unicode} cfg tool args :
  policyDecision cfg tool args = DecisionDeny <->
  pcEnabled cfg = true /\
  (if is_manage tool
   then readString args (lit "action") <> lit "list" /\ readString args (lit "action") <> lit "get" /\
        (normalizePolicyMode (fpMode (pcWrite cfg)) = PolicyModeDeny \/
         normalizePolicyMode (epMode (pcExec cfg)) = PolicyModeDeny)
   else governing (NormalizePolicyConfig cfg) tool args = Some PolicyModeDeny).
Proof.
  unfold policyDecision. fold (is_manage tool).
  change (eEnabled (NormalizePolicyConfig cfg)) with (pcEnabled cfg). destruct (is_manage tool) eqn:Em.
  - change (pMode (eWrite (NormalizePolicyConfig cfg))) with (normalizePolicyMode (fpMode (pcWrite cfg))).
    change (pMode (eExec (NormalizePolicyConfig cfg))) with (normalizePolicyMode (epMode (pcExec cfg))).
    destruct (str_eqb _ (lit "list")) eqn:El; str_hyps; [split; [done|]; by intros (_ & ? & _)|].
    destruct (str_eqb _ (lit "get")) eqn:Eg; str_hyps; [split; [done|]; by intros (_ & _ & ? & _)|].
    cbn [orb]. unfold is_deny. destruct (pcEnabled cfg); cbn [andb]; [|split; [done|]; by intros [? _]].
    destruct (normalizePolicyMode (fpMode (pcWrite cfg))), (normalizePolicyMode (epMode (pcExec cfg))); cbn;
      (split; [intros H; split_and!; try done; auto|]); intros (_ & _ & _ & [?|?]); done.
  - unfold governing. destruct (OperationForTool tool) as [[]|]; [| | | |split; [done|by intros [_ ?]]];
      destruct (pcEnabled cfg); cbn [negb]; try (split; [done|by intros [? _]]).
    + rewrite withMode_deny by apply reviewFiles_no_deny. split; [intros E; by rewrite E|]. by intros [_ [= E]].
    + rewrite withMode_deny by (case_if; apply reviewFiles_no_deny). split; [intros E; by rewrite E|]. by intros [_ [= E]].
    + rewrite withMode_deny by apply reviewCommand_no_deny. split; [intros E; by rewrite E|]. by intros [_ [= E]].
    + destruct (permissionKindMode _ _) as [[]|]; split; (done || by intros [_ ?]).
Qed.

(** a file call that an asking policy lets through names at least one path,
    and every path it names - under any of the ten argument keys, however
    deeply nested, or on any file line of a patch - is under a bypass glob and
    under no force-review glob. *)
Theorem file_call_let_through {U : Unicode} cfg tool args op (P : Policy) :
  pcEnabled cfg = true -> OperationForTool tool = Some op ->
  (op = OperationRead /\ P = eRead (NormalizePolicyConfig cfg) \/
   op = OperationWrite /\ P = eWrite (NormalizePolicyConfig cfg)) ->
  pMode P = PolicyModeAsk -> policyDecision cfg tool args = DecisionBypass ->
  (exists p, names_path tool op args p) /\
  forall p, names_path tool op args p ->
    matchesAnyGlob p (pBypass P) = true /\ matchesAnyGlob p (pForceReview P) = false.
Proof.
  intros He Ho HP Hm. unfold policyDecision. fold (is_manage tool).
  destruct (is_manage tool) eqn:Em.
  { apply manage_operation in Em. rewrite Em in Ho. destruct HP as [[-> _]|[-> _]]; congruence. }
  rewrite Ho. change (eEnabled (NormalizePolicyConfig cfg)) with (pcEnabled cfg). rewrite He. cbn [negb].
  assert (Hfile : forall targets, (forall p, p ∈ targets <-> names_path tool op args p) ->
    reviewFiles P targets true = DecisionBypass ->
    (exists p, names_path tool op args p) /\
    forall p, names_path tool op args p ->
      matchesAnyGlob p (pBypass P) = true /\ matchesAnyGlob p (pForceReview P) = false).
  { intros targets Ht [Hne H]%reviewFiles_bypass. split; [|intros p Hp; by apply H, Ht].
    destruct targets as [|t ts]; [done|]. exists t. apply Ht. by left. }
  assert (Hargs : forall p, p ∈ approvalPaths args <->
    (exists s, s ∈ call_strings args /\ p = trim_space s) /\ p <> []).
  { intros p. rewrite elem_of_approvalPaths. naive_solver. }
  destruct HP as [[-> HP]|[-> HP]]; rewrite <- HP, Hm, withMode_ask_bypass, (asks_ask P Hm); [by apply Hfile|].
  unfold names_path in *. destruct (equal_fold _ _); [|by apply Hfile]. apply Hfile. intros p.
  rewrite elem_of_applyPatchPaths. naive_solver.
Qed.

(** a command that an asking policy lets through matches no force-review
    pattern, has none of the shell operators the policy looks for, and is
    covered by a bypass entry: its program is the entry's, or the whole
    command is a text the entry's wildcards stand for. *)
Theorem command_let_through {U : Unicode} cfg tool args (P : Policy) :
  pcEnabled cfg = true -> OperationForTool tool = Some OperationExec ->
  P = eExec (NormalizePolicyConfig cfg) -> pMode P = PolicyModeAsk ->
  policyDecision cfg tool args = DecisionBypass ->
  let command := readString args (lit "command") in
  matchesCommand command (pForceReview P) = false /\
  Forall (fun op => contains (trim_space command) op = false) [lit "&&"; lit "||"; lit "$("] /\
  contains_any (trim_space command) (lit ";|`") = false /\
  exists exe raw, simpleExecutable command = Some exe /\ raw ∈ pBypass P /\ normalizeCommand raw <> [] /\
    if isExecutablePattern (normalizeCommand raw)
    then to_lower (trim_space exe) = to_lower (normalizeCommand raw)
    else to_lower (normalizeCommand command) = to_lower (normalizeCommand raw) \/
         wild (to_lower (normalizeCommand raw)) (to_lower (normalizeCommand command)).
Proof.
  intros He Ho HP Hm. unfold policyDecision. fold (is_manage tool). destruct (is_manage tool) eqn:Em.
  { apply manage_operation in Em. congruence. }
  rewrite Ho. change (eEnabled (NormalizePolicyConfig cfg)) with (pcEnabled cfg). rewrite He. cbn [negb].
  rewrite <- HP, Hm, withMode_ask_bypass. unfold reviewCommand. rewrite (asks_ask P Hm).
  destruct (matchesCommand _ _) eqn:Ef; [done|]. destruct (simpleExecutable _) as [exe|] eqn:Es; [|done].
  destruct (matchesCommandWithExecutable _ _ _) eqn:Eb; [|done]. intros _.
  destruct (simpleExecutable_plain _ _ Es) as [Hops Hany].
  split_and!; [done|done|done|]. unfold matchesCommandWithExecutable in Eb.
  apply existsb_exists in Eb as (raw & Hraw%list_elem_of_In & Hmatch). exists exe, raw.
  destruct (is_empty (normalizeCommand raw)) eqn:Ee; [done|]. str_hyps. split_and!; [done|done|done|].
  destruct (isExecutablePattern _); str_hyps; [done|]. by apply commandMatchesPattern_wild.
Qed.

(** ** Concrete policies *)
Section examples.
#[local] Instance tables : Unicode := ascii_unicode.
Definition open_file : FilePolicy := mkFilePolicy (lit "allow") false None None.
Definition ask_write : PolicyConfig :=
  mkPolicyConfig true open_file
    (mkFilePolicy (lit "Ask ") false (Some [lit "/data/**"]) (Some [lit "/data/secret/**"]))
    (mkExecPolicy [] false None None).
Definition ask_exec : PolicyConfig :=
  mkPolicyConfig true open_file open_file (mkExecPolicy (lit "ask") true (Some [lit "ls"; lit "git log*"]) None).
Definition review_rm : PolicyConfig :=
  mkPolicyConfig true open_file open_file (mkExecPolicy [] false None (Some [lit "rm *"])).
Definition write_to (path : string) : arguments := [(lit "path", AString (lit path))].
Definition run_command (command : str) : arguments := [(lit "command", AString command)].

Lemma file_call_let_through_witness :
  matchesAnyGlob (lit "notes/a.md") (pBypass (eWrite (NormalizePolicyConfig ask_write))) = true.
Proof.
  assert (H : policyDecision ask_write (lit "write") (write_to "notes/a.md") = DecisionBypass) by (vm_compute; reflexivity).
  assert (Ho : OperationForTool (lit "write") = Some OperationWrite) by (vm_compute; reflexivity).
  destruct (file_call_let_through ask_write (lit "write") (write_to "notes/a.md") OperationWrite _
    eq_refl Ho (or_intror (conj eq_refl eq_refl)) eq_refl H) as [_ Hp].
  apply (Hp (lit "notes/a.md")). split; [|discriminate]. exists (lit "notes/a.md").
  split; [|vm_compute; reflexivity]. vm_compute. left.
Defined.
Lemma command_let_through_witness :
  exists exe, simpleExecutable (readString (run_command (lit "git log -3")) (lit "command")) = Some exe.
Proof.
  assert (H : policyDecision ask_exec (lit "exec") (run_command (lit "git log -3")) = DecisionBypass)
    by (vm_compute; reflexivity).
  assert (Ho : OperationForTool (lit "exec") = Some OperationExec) by (vm_compute; reflexivity).
  destruct (command_let_through ask_exec (lit "exec") (run_command (lit "git log -3")) _
    eq_refl Ho eq_refl eq_refl H) as (_ & _ & _ & exe & raw & He & _).
  exists exe. exact He.
Defined.

(** in the matcher's loop the test for an equal byte comes before the test
    for a star, so a star in the pattern that meets a star in the command is
    spent on it: the pattern "*" does not match "*a" although it stands for
    any text.  A force-review entry "rm *" therefore lets "rm *.txt" through
    unreviewed while it stops "rm a.txt". *)
Theorem star_in_command_evades_review :
  wild (lit "*") (lit "*a") /\ wildcardMatch (lit "*") (lit "*a") = false /\
  policyDecision review_rm (lit "exec") (run_command (lit "rm a.txt")) = DecisionNeedsApproval /\
  policyDecision review_rm (lit "exec") (run_command (lit "rm *.txt")) = DecisionBypass.
Proof.
  split_and!; [|vm_compute; reflexivity|vm_compute; reflexivity|vm_compute; reflexivity].
  apply wild_star_iff. exists (lit "*a"), []. split; [reflexivity|constructor].
Qed.

(** the single ampersand and the newline are not among the operators the
    policy looks for: with a bypass entry for "ls", a command line that goes
    on after them with another program is let through, while the same line
    with a semicolon is put to the user. *)
Theorem background_operator_bypasses :
  policyDecision ask_exec (lit "exec") (run_command (lit "ls & rm -rf /")) = DecisionBypass /\
  policyDecision ask_exec (lit "exec") (run_command (lit "ls" ++ [nl] ++ lit "rm -rf /")) = DecisionBypass /\
  policyDecision ask_exec (lit "exec") (run_command (lit "ls; rm -rf /")) = DecisionNeedsApproval.
Proof. split_and!; vm_compute; reflexivity. Qed.

(** the glob for the whole of /data takes every relative path, one that
    climbs out of the directory included, and a glob for a directory under
    /data does not take the relative spelling of a path in it: a call that
    says "secret/token" is let through where "/data/secret/token" is
    reviewed. *)
Theorem relative_path_evades_review :
  (forall target, has_prefix (normalizeContainerPath target) [slash] = false ->
     matchesAnyGlob target [lit "/data/**"] = true) /\
  policyDecision ask_write (lit "write") (write_to "/data/secret/token") = DecisionNeedsApproval /\
  policyDecision ask_write (lit "write") (write_to "secret/token") = DecisionBypass /\
  policyDecision ask_write (lit "write") (write_to "../etc/passwd") = DecisionBypass.
Proof.
  split_and!; [|vm_compute; reflexivity|vm_compute; reflexivity|vm_compute; reflexivity].
  intros target Ht. unfold matchesAnyGlob. cbn [existsb]. unfold globMatches at 1.
  rewrite Ht. vm_compute (normalizeContainerPath (lit "/data/**")). reflexivity.
Qed.
End examples.
