(* ===== verification/ToolPath.v ===== *)
(** * Paths of the file tools

    [toolWorkspace] of [internal/agent/tool/container.go] - how a tool's path
    argument is placed in the workspace - and the path check of
    [internal/agent/tool/apply_patch.go]. *)

From S2P Require Import Prelude GoStr GoPath GoTrim.
#[local] Open Scope Z_scope.

Definition backslash : ascii := "\"%char.
Definition colon : ascii := ":"%char.
(** The workspace's root, the session's working directory and its system. *)
Record toolWorkspace : Type := mkToolWorkspace { defaultWorkDir : str; workdirPath : str; windows : bool }.
Definition defaultContainerExecWorkDir : str := lit "/data".
Definition replace_byte (a b : ascii) (s : str) : str := (fun c => if Ascii.eqb c a then b else c) <$> s.
(** [path.Join] of two elements that are not empty *)
Definition path_join (a b : str) : str := path_clean (a ++ slash :: b).

Section with_unicode.
Context {U : Unicode}.

(** [toolWorkspace.isAbsToolPath] *)
Definition isAbsToolPath (w : toolWorkspace) (value : str) : bool :=
  if windows w then
    let normalized := replace_byte slash backslash value in
    has_prefix normalized [backslash; backslash] || has_prefix normalized [backslash] ||
    match normalized with _ :: c :: _ => Ascii.eqb c colon | _ => false end
  else has_prefix value [slash].
(** [toolWorkspace.normalizePath] *)
Definition normalizePath (w : toolWorkspace) (value : str) : str :=
  let value := trim_space value in
  if is_empty value then value
  else
    let prefix := trim_space (defaultWorkDir w) in
    let prefix := if is_empty prefix then defaultContainerExecWorkDir else prefix in
    if windows w then
      let valueForCompare := replace_byte backslash slash value in
      let prefixForCompare := trim_right (replace_byte backslash slash prefix) [slash] in
      let n := length prefixForCompare in
      if equal_fold valueForCompare prefixForCompare then lit "."
      else if (n <? length valueForCompare)%nat && equal_fold (take n valueForCompare) prefixForCompare &&
              match valueForCompare !! n with Some c => Ascii.eqb c slash | None => false end
      then trim_left (drop (S n) valueForCompare) [slash]
      else value
    else
      let prefix := trim_right prefix [slash] in
      if str_eqb value prefix then lit "."
      else if has_prefix value (prefix ++ [slash])
      then trim_left (trim_prefix value (prefix ++ [slash])) [slash]
      else value.
(** [toolWorkspace.resolveToolPath] *)
Definition resolveToolPath (w : toolWorkspace) (value : str) : str :=
  let value := trim_space value in
  if is_empty value || is_empty (workdirPath w) || isAbsToolPath w value then normalizePath w value
  else if windows w then
    normalizePath w (trim_right (workdirPath w) [backslash] ++ backslash :: replace_byte slash backslash value)
  else normalizePath w (path_join (workdirPath w) value).

(** ** The path of a patch *)
Inductive PathError : Type := PathRequired | PathNullByte | PathNotAFile | PathEscapes | PathDriveRelative.
(** [forward[1] == ':'] and the like *)
Definition byte_is (s : str) (i : nat) (c : ascii) : bool :=
  match s !! i with Some d => Ascii.eqb d c | None => false end.
Definition normalizeWindowsApplyPatchPath (value : str) : result PathError str :=
  let forward := replace_byte backslash slash value in
  if (2 <=? length forward)%nat && byte_is forward 1 colon &&
     (bool_decide (length forward = 2%nat) || negb (byte_is forward 2 slash))
  then Err PathDriveRelative
  else
    let unc := has_prefix forward [slash; slash] in
    let clean := path_clean forward in
    if str_eqb clean (lit ".") || str_eqb clean [slash] || (bool_decide (length clean = 2%nat) && byte_is clean 1 colon)
    then Err PathNotAFile
    else
      let isDriveAbsolute := (3 <=? length clean)%nat && byte_is clean 1 colon && byte_is clean 2 slash in
      let isRootAbsolute := has_prefix clean [slash] in
      if negb isDriveAbsolute && negb isRootAbsolute && (str_eqb clean (lit "..") || has_prefix clean (lit "../"))
      then Err PathEscapes
      else
        let clean := if unc && has_prefix clean [slash] then slash :: clean else clean in
        Ok (replace_byte slash backslash clean).
Definition normalizeApplyPatchPath (rawPath : str) (w : toolWorkspace) : result PathError str :=
  let value := trim_space rawPath in
  if is_empty value then Err PathRequired
  else if contains value ["000"%char] then Err PathNullByte
  else
    let value := resolveToolPath w value in
    if windows w then normalizeWindowsApplyPatchPath value
    else
      let clean := path_clean value in
      if str_eqb clean (lit ".") || str_eqb clean [slash] then Err PathNotAFile
      else if negb (has_prefix clean [slash]) && (str_eqb clean (lit "..") || has_prefix clean (lit "../"))
      then Err PathEscapes
      else Ok clean.
End with_unicode.

(** ** What [path.Clean] leaves *)
Definition element (e : str) : Prop := count_byte slash e = 0%nat /\ e <> [] /\ e <> lit ".".
(** The elements kept, last first: proper ones, then the climbs of a relative path. *)
Definition kept_ok (isRooted : bool) (kept : list str) : Prop :=
  exists proper n, kept = proper ++ replicate n (lit "..") /\
    Forall (fun e => element e /\ e <> lit "..") proper /\ (isRooted = true -> n = 0%nat).

Lemma clean_step_ok r kept e : count_byte slash e = 0%nat -> kept_ok r kept -> kept_ok r (clean_step r kept e).
Proof.
  intros He (proper & n & -> & Hp & Hn). unfold clean_step.
  destruct (is_empty e || str_eqb e (lit ".")) eqn:E1; [by exists proper, n|].
  apply orb_false_iff in E1 as [Ee Ed]. str_hyps.
  destruct (str_eqb e (lit "..")) eqn:E2; str_hyps.
  - subst. destruct proper as [|k proper]; cbn [app].
    + destruct n as [|n]; cbn [replicate].
      * destruct r; [by exists [], 0%nat|]. by exists [], 1%nat.
      * rewrite str_eqb_refl. exists [], (S (S n)). split_and!; [done|constructor|]. intros H. by apply Hn in H.
    + apply Forall_cons in Hp as [[_ Hk] Hp].
      destruct (str_eqb k (lit "..")) eqn:Ek; str_hyps; [done|]. by exists proper, n.
  - exists (e :: proper), n. split_and!; [done| |done]. by constructor.
Qed.
Lemma clean_elements_ok r p : kept_ok r (rev (clean_elements r p)).
Proof.
  unfold clean_elements. rewrite rev_involutive.
  assert (H : forall l kept, Forall (fun e => count_byte slash e = 0%nat) l -> kept_ok r kept ->
    kept_ok r (fold_left (clean_step r) l kept)).
  { induction l as [|e l IH]; intros kept Hl Hk; [done|]. apply Forall_cons in Hl as [He Hl].
    simpl. apply IH; [done|]. by apply clean_step_ok. }
  apply H; [apply split_byte_no|]. by exists [], 0%nat.
Qed.
Lemma count_split b sep s : count_byte b s = 0%nat -> Forall (fun e => count_byte b e = 0%nat) (split_byte sep s).
Proof.
  induction s as [|c s IH]; simpl; [by repeat constructor|]. intros H.
  destruct (Ascii.eqb c b) eqn:E; [done|]. specialize (IH ltac:(lia)).
  destruct (Ascii.eqb c sep); [by constructor|].
  destruct IH as [|h t Hh Ht]; repeat constructor; simpl; rewrite ?E; done.
Qed.
Lemma count_kept b r l kept : Forall (fun e => count_byte b e = 0%nat) l -> Forall (fun e => count_byte b e = 0%nat) kept ->
  Forall (fun e => count_byte b e = 0%nat) (fold_left (clean_step r) l kept).
Proof.
  revert kept. induction l as [|e l IH]; intros kept Hl Hk; [done|]. apply Forall_cons in Hl as [He Hl].
  simpl. apply IH; [done|]. unfold clean_step. destruct (is_empty e || str_eqb e (lit ".")); [done|].
  destruct (str_eqb e (lit "..")); [|by constructor]. destruct Hk as [|k kept Hk1 Hk].
  - destruct r; [constructor|by repeat constructor].
  - destruct (str_eqb k (lit "..")); [by repeat constructor|done].
Qed.
Lemma count_clean b p : Ascii.eqb slash b = false -> Ascii.eqb "." b = false -> count_byte b p = 0%nat ->
  count_byte b (path_clean p) = 0%nat.
Proof.
  intros Hs Hd Hp. unfold path_clean.
  assert (Hj : count_byte b (join [slash] (clean_elements (rooted p) p)) = 0%nat).
  { apply count_join; [done|]. unfold clean_elements. apply Forall_rev.
    apply count_kept; [by apply count_split|constructor]. }
  destruct (rooted p); [cbn [count_byte]; by rewrite Hs|]. case_if; [|done].
  unfold lit. cbn [list_ascii_of_string count_byte]. by rewrite Hd.
Qed.
(** A cleaned path that is absolute, or does not begin with a climb, has none. *)
Lemma clean_no_climb v : let clean := path_clean v in
  has_prefix clean [slash] || negb (str_eqb clean (lit "..") || has_prefix clean (lit "../")) = true ->
  lit ".." ∉ split_byte slash clean.
Proof.
  unfold path_clean. intros H.
  destruct (clean_elements_ok (rooted v) v) as (proper & n & Hk & Hp & Hn). rewrite <- (rev_involutive (clean_elements _ _)) in H |- *.
  rewrite Hk in H |- *. rewrite rev_app_distr in H |- *.
  assert (Hrev : rev (replicate n (lit "..")) = replicate n (lit "..")).
  { rewrite rev_alt. apply (reverse_replicate n (lit "..")). }
  rewrite Hrev in H |- *. set (es := rev proper) in *.
  assert (Hes : Forall (fun e => element e /\ e <> lit "..") es) by (by apply Forall_rev).
  assert (Hsp : es <> [] -> lit ".." ∉ split_byte slash (join [slash] es)).
  { intros Hne. rewrite split_join; [|done|]; [|eapply Forall_impl; [done|]; by intros ? [[? _] _]].
    intros Hin. rewrite Forall_forall in Hes. by apply Hes in Hin as [_ ?]. }
  destruct (rooted v).
  - rewrite Hn in * by done. cbn [replicate app] in *. cbn [split_byte]. change (Ascii.eqb slash slash) with true. cbv iota.
    intros [?|Hin]%elem_of_cons; [done|]. destruct es as [|e es]; [|by apply Hsp in Hin].
    apply elem_of_cons in Hin as [?|Hin]; [done|]. by apply not_elem_of_nil in Hin.
  - destruct n as [|n]; cbn [replicate app] in *.
    + destruct es as [|e es].
      { cbn. intros [?|Hin]%elem_of_cons; [done|]. by apply not_elem_of_nil in Hin. }
      assert (is_empty (join [slash] (e :: es)) = false) as ->; [|by apply Hsp].
      apply Forall_cons in Hes as [[(_ & He & _) _] _]. destruct e as [|c e]; [done|]. by destruct es.
    + exfalso. destruct (replicate n (lit "..") ++ es) as [|e l]; [vm_compute in H; done|].
      rewrite join_cons in H by done.
      change (lit ".." ++ [slash] ++ join [slash] (e :: l)) with (lit "../" ++ join [slash] (e :: l)) in H.
      change (is_empty (lit "../" ++ join [slash] (e :: l))) with false in H. cbv iota in H.
      rewrite (has_prefix_app (lit "../")), orb_true_r in H. done.
Qed.
Lemma split_replaced s : count_byte backslash s = 0%nat ->
  split_byte backslash (replace_byte slash backslash s) = split_byte slash s.
Proof.
  induction s as [|c s IH]; [done|]. cbn [count_byte]. intros H.
  destruct (Ascii.eqb c backslash) eqn:E; [done|]. unfold replace_byte. csimpl. fold (replace_byte slash backslash s).
  destruct (Ascii.eqb c slash) eqn:Es; cbn [split_byte].
  - rewrite Ascii.eqb_refl, ?Es. f_equal. apply IH. lia.
  - rewrite ?E, ?Es, IH by lia. done.
Qed.
Lemma replace_removes s : count_byte backslash (replace_byte backslash slash s) = 0%nat.
Proof.
  induction s as [|c s IH]; [done|]. unfold replace_byte in *. csimpl. cbn [count_byte].
  destruct (Ascii.eqb c backslash) eqn:E; [by rewrite IH|]. by rewrite E, IH.
Qed.

(** the path check of a patch.  An accepted path, taken apart at its
    system's separator, has no ".." in it: a relative one stays below the
    workspace root and an absolute one names the file it says; it is not the
    directory itself.  This holds for every workspace root and working
    directory, and for Windows paths with drives and shares. *)
Theorem patch_path_stays_inside {U : Unicode} raw w p :
  normalizeApplyPatchPath raw w = Ok p ->
  lit ".." ∉ split_byte (if windows w then backslash else slash) p /\ p <> lit "." /\ p <> [slash] /\ p <> [].
Proof.
  unfold normalizeApplyPatchPath. destruct (is_empty (trim_space raw)); [done|].
  destruct (contains (trim_space raw) _); [done|]. set (v := resolveToolPath w (trim_space raw)).
  assert (Hne : forall v, path_clean v <> []).
  { intros v'. unfold path_clean. destruct (rooted v'); [done|]. destruct (is_empty _) eqn:E; [done|]. by str_hyps. }
  destruct (windows w).
  - unfold normalizeWindowsApplyPatchPath. case_if; [done|].
    set (forward := replace_byte backslash slash v). set (clean := path_clean forward).
    assert (Hb : count_byte backslash clean = 0%nat) by (by apply count_clean, replace_removes).
    destruct (str_eqb clean (lit ".") || _ || _) eqn:Ef; [done|].
    destruct (_ && _ && (str_eqb clean (lit "..") || _)) eqn:Ee; [done|]. intros [= <-].
    apply orb_false_iff in Ef as [[Ed Es]%orb_false_iff _]. str_hyps.
    assert (Hc : lit ".." ∉ split_byte slash clean).
    { apply clean_no_climb. fold clean. destruct (has_prefix clean [slash]) eqn:Er; [done|].
      rewrite andb_true_r in Ee. apply andb_false_iff in Ee as [Ee|Ee]; [|cbn [orb]; by rewrite Ee].
      apply negb_false_iff in Ee. apply andb_true_iff in Ee as [[_ Ee]%andb_true_iff _].
      unfold byte_is in Ee. destruct clean as [|c0 [|c1 r]]; try done. cbn in Ee.
      apply Ascii.eqb_eq in Ee as ->. destruct c0 as [[] [] [] [] [] [] [] []]; reflexivity. }
    assert (Hq : forall q, q = clean \/ q = slash :: clean -> replace_byte slash backslash q <> lit "." /\
      replace_byte slash backslash q <> [slash] /\ replace_byte slash backslash q <> []).
    { assert (Hns : forall q, count_byte slash (replace_byte slash backslash q) = 0%nat).
      { induction q as [|c q IH]; [done|]. unfold replace_byte in *. csimpl. cbn [count_byte].
        destruct (Ascii.eqb c slash) eqn:E; [by rewrite IH|]. by rewrite E, IH. }
      intros q Hq. split_and!.
      - intros E. destruct Hq as [-> | ->]; [|by destruct clean]. destruct clean as [|c [|? ?]]; try done.
        unfold replace_byte in E. csimpl in E. destruct (Ascii.eqb_spec c slash); simplify_eq; done.
      - intros E. specialize (Hns q). rewrite E in Hns. done.
      - destruct Hq as [-> | ->]; [|done]. specialize (Hne forward). fold clean in Hne. by destruct clean. }
    split; [|apply Hq; case_if; auto]. case_if; [|by rewrite split_replaced].
    rewrite split_replaced by (cbn [count_byte]; by rewrite Hb). cbn [split_byte].
    change (Ascii.eqb slash slash) with true. cbv iota. by intros [?|?]%elem_of_cons.
  - destruct (str_eqb _ _ || _) eqn:Ef; [done|]. destruct (negb _ && _) eqn:Ee; [done|]. intros [= <-].
    apply orb_false_iff in Ef as [Ed Es]. str_hyps. split; [|split; [done|split; [done|apply Hne]]].
    apply clean_no_climb.
    destruct (has_prefix (path_clean v) [slash]); [done|]. cbn [negb andb orb] in *. by rewrite Ee.
Qed.

Section examples.
#[local] Instance tables : Unicode := ascii_unicode.
Definition linux_workspace : toolWorkspace := mkToolWorkspace (lit "/data") (lit "/data/app") false.
Definition windows_workspace : toolWorkspace := mkToolWorkspace (lit "C:\work") [] true.
Example resolve_examples :
  normalizeApplyPatchPath (lit " ../x/./y.txt") linux_workspace = Ok (lit "x/y.txt") /\
  normalizeApplyPatchPath (lit "../../etc/x") linux_workspace = Ok (lit "/etc/x") /\
  normalizeApplyPatchPath (lit "c:/Work/a/../b") windows_workspace = Ok (lit "b") /\
  normalizeApplyPatchPath (lit "..\b") windows_workspace = Err PathEscapes /\
  normalizeApplyPatchPath (lit "D:b") windows_workspace = Err PathDriveRelative.
Proof. split_and!; vm_compute; reflexivity. Qed.
Lemma patch_path_stays_inside_witness :
  lit ".." ∉ split_byte slash (lit "x/y.txt").
Proof.
  assert (H : normalizeApplyPatchPath (lit " ../x/./y.txt") linux_workspace = Ok (lit "x/y.txt"))
    by (vm_compute; reflexivity).
  exact (proj1 (patch_path_stays_inside _ _ _ H)).
Defined.
End examples.
