(* ===== verification/ApplyPatch.v ===== *)
(** * The patch parser

    The parsing half of [internal/agent/tool/apply_patch.go]: a patch text is
    cut into hunks that add, delete or update a file, an update into chunks
    of old and new lines.  Error texts are constructors that carry what the
    format prints. *)

From S2P Require Import Prelude GoStr GoTrim.
#[local] Open Scope Z_scope.

(** ** Data *)
Definition BeginMarker : str := lit "*** Begin Patch".
Definition EndMarker : str := lit "*** End Patch".
Definition AddMarker : str := lit "*** Add File: ".
Definition DeleteMarker : str := lit "*** Delete File: ".
Definition UpdateMarker : str := lit "*** Update File: ".
Definition MoveMarker : str := lit "*** Move to: ".
Definition EOFMarker : str := lit "*** End of File".

Inductive HunkKind : Type := HunkAdd | HunkDelete | HunkUpdate.
Record Chunk : Type := mkChunk {
  changeContext : option str; oldLines : list str; newLines : list str; endOfFile : bool }.
Record Hunk : Type := mkHunk {
  hkKind : HunkKind; hkPath : str; hkMovePath : str; hkContents : str; hkChunks : list Chunk }.
Definition chunk0 : Chunk := mkChunk None [] [] false.

Inductive Message : Type :=
  | FirstLineBegin | LastLineEnd
  | NotAHeader (trimmed : str) | PathMissing | UpdateEmpty (path : str) | NoUpdateLines
  | ExpectedContext (line : str) | MoveAfterLines | MovePathMissing | UnexpectedLine (line : str).
(** [applyPatchParseError]; a line of 0 is not printed. *)
Record ParseError : Type := mkParseError { peLine : nat; peMessage : Message }.

(** ** Lines *)
Definition splitPatchLines (patch : str) : list str :=
  let patch := trim_space patch in if is_empty patch then [] else split_byte nl patch.
Definition first_line (lines : list str) : str := default [] (head lines).
Definition last_line (lines : list str) : str := default [] (last lines).
(** [lines[1 : len(lines)-1]] *)
Definition inner (lines : list str) : list str := removelast (tail lines).
Definition heredocMarkers : list str := [lit "<<EOF"; lit "<<'EOF'"; lit "<<" ++ [dquote] ++ lit "EOF" ++ [dquote]].
Definition stripLenientHeredoc (lines : list str) : list str :=
  if bool_decide (lines = []) then lines
  else if str_eqb (trim_space (first_line lines)) BeginMarker then lines
  else if (length lines <? 4)%nat then lines
  else
    let first := trim_space (first_line lines) in
    let last := trim_space (last_line lines) in
    if bool_decide (first ∈ heredocMarkers) && has_suffix last (lit "EOF") then inner lines else lines.

(** ** Parsing *)
Inductive Mode : Type := NoHunk | InHunk (k : HunkKind).
Definition is_update (m : Mode) : bool := match m with InHunk HunkUpdate => true | _ => false end.
Definition chunk_empty (c : Chunk) : bool := bool_decide (oldLines c = []) && bool_decide (newLines c = []).

Definition ensureApplyPatchUpdateHunkComplete (mode : Mode) (hunkLine lineNo : nat) (hunks : list Hunk) :
    result ParseError unit :=
  match is_update mode, last hunks with
  | true, Some h =>
      match last (hkChunks h) with
      | None => Err (mkParseError hunkLine (UpdateEmpty (hkPath h)))
      | Some c => if chunk_empty c then Err (mkParseError lineNo NoUpdateLines) else Ok tt
      end
  | _, _ => Ok tt
  end.
(** [Ok None]: not a header. *)
Definition parseApplyPatchHeader (trimmed : str) (lineNo : nat) (mode : Mode) (hunkLine : nat) (hunks : list Hunk) :
    result ParseError (option (HunkKind * str)) :=
  let found := if has_prefix trimmed AddMarker then Some (HunkAdd, trim_space (trim_prefix trimmed AddMarker))
               else if has_prefix trimmed DeleteMarker then Some (HunkDelete, trim_space (trim_prefix trimmed DeleteMarker))
               else if has_prefix trimmed UpdateMarker then Some (HunkUpdate, trim_space (trim_prefix trimmed UpdateMarker))
               else None in
  match found with
  | None => Ok None
  | Some (kind, path) =>
      if is_empty path then Err (mkParseError lineNo PathMissing)
      else _ <-? ensureApplyPatchUpdateHunkComplete mode hunkLine lineNo hunks ;; Ok (Some (kind, path))
  end.

(** [hunks[len(hunks)-1] = ...] *)
Definition update_last {A} (x : A) (l : list A) : list A := removelast l ++ [x].
Definition is_context (updateLine : str) : bool := str_eqb updateLine (lit "@@") || has_prefix updateLine (lit "@@ ").
Definition set_chunks (h : Hunk) (cs : list Chunk) : Hunk := mkHunk (hkKind h) (hkPath h) (hkMovePath h) (hkContents h) cs.
(** A line of old or new text into the last chunk, which is begun if there is none. *)
Definition addLine (h : Hunk) (line : str) (lineNo : nat) : result ParseError Hunk :=
  let c := default chunk0 (last (hkChunks h)) in
  let put c := Ok (set_chunks h (update_last c (hkChunks h))) in
  match line with
  | [] => put (mkChunk (changeContext c) (oldLines c ++ [[]]) (newLines c ++ [[]]) (endOfFile c))
  | " "%char :: v => put (mkChunk (changeContext c) (oldLines c ++ [v]) (newLines c ++ [v]) (endOfFile c))
  | "+"%char :: v => put (mkChunk (changeContext c) (oldLines c) (newLines c ++ [v]) (endOfFile c))
  | "-"%char :: v => put (mkChunk (changeContext c) (oldLines c ++ [v]) (newLines c) (endOfFile c))
  | _ => if chunk_empty c then Err (mkParseError lineNo (UnexpectedLine line))
         else Err (mkParseError lineNo (ExpectedContext line))
  end.
Definition parseApplyPatchUpdateLine (h : Hunk) (line updateLine : str) (lineNo : nat) : result ParseError Hunk :=
  let ended := match last (hkChunks h) with Some c => endOfFile c | None => false end in
  if ended && is_empty updateLine then Ok h
  else if ended && negb (is_context updateLine) then Err (mkParseError lineNo (ExpectedContext line))
  else if str_eqb updateLine MoveMarker || has_prefix updateLine MoveMarker then
    if negb (bool_decide (length (hkChunks h) = 0%nat)) || negb (is_empty (hkMovePath h))
    then Err (mkParseError lineNo MoveAfterLines)
    else
      let movePath := trim_space (trim_prefix updateLine MoveMarker) in
      if is_empty movePath then Err (mkParseError lineNo MovePathMissing)
      else Ok (mkHunk (hkKind h) (hkPath h) movePath (hkContents h) (hkChunks h))
  else if is_context updateLine then
    if match last (hkChunks h) with Some c => chunk_empty c | None => false end
    then Err (mkParseError lineNo (UnexpectedLine line))
    else Ok (set_chunks h (hkChunks h ++ [mkChunk (cut_prefix updateLine (lit "@@ ")) [] [] false]))
  else if str_eqb updateLine EOFMarker then
    match last (hkChunks h) with
    | None => Err (mkParseError lineNo NoUpdateLines)
    | Some c =>
        if chunk_empty c then Err (mkParseError lineNo NoUpdateLines)
        else Ok (set_chunks h (update_last (mkChunk (changeContext c) (oldLines c) (newLines c) true) (hkChunks h)))
    end
  else addLine h line lineNo.

Record State : Type := mkState { stMode : Mode; stUpdateLine : nat; stHunks : list Hunk }.
(** One line of the loop. *)
Definition parseLine (lineNo : nat) (raw : str) (st : State) : result ParseError State :=
  let line := trim_suffix raw [cr] in
  let trimmed := trim_space line in
  let mode := stMode st in
  let hunks := stHunks st in
  let updateContentLine := is_update mode &&
    (has_prefix line (lit " ") || has_prefix line (lit "+") || has_prefix line (lit "-")) in
  header <-? (if updateContentLine then Ok None
              else parseApplyPatchHeader trimmed lineNo mode (stUpdateLine st) hunks) ;;
  match header with
  | Some (kind, path) =>
      Ok (mkState (InHunk kind) (match kind with HunkUpdate => lineNo | _ => stUpdateLine st end)
            (hunks ++ [mkHunk kind path [] [] []]))
  | None =>
      match mode, last hunks with
      | InHunk HunkAdd, Some h =>
          match cut_prefix line (lit "+") with
          | Some content =>
              Ok (mkState mode (stUpdateLine st)
                    (update_last (mkHunk (hkKind h) (hkPath h) (hkMovePath h) (hkContents h ++ content ++ [nl]) (hkChunks h))
                       hunks))
          | None => Err (mkParseError lineNo (NotAHeader trimmed))
          end
      | InHunk HunkUpdate, Some h =>
          h <-? parseApplyPatchUpdateLine h line (trim_right line (lit " " ++ [tab])) lineNo ;;
          Ok (mkState mode (stUpdateLine st) (update_last h hunks))
      | _, _ => Err (mkParseError lineNo (NotAHeader trimmed))
      end
  end.
Fixpoint parseLines (lineNo : nat) (lines : list str) (st : State) : result ParseError State :=
  match lines with
  | [] => Ok st
  | l :: r => st <-? parseLine lineNo l st ;; parseLines (S lineNo) r st
  end.
Definition parseApplyPatch (patch : str) : result ParseError (list Hunk) :=
  let lines := stripLenientHeredoc (splitPatchLines patch) in
  if (length lines <? 2)%nat then Err (mkParseError 0 FirstLineBegin)
  else if negb (str_eqb (trim_space (first_line lines)) BeginMarker) then Err (mkParseError 0 FirstLineBegin)
  else if negb (str_eqb (trim_space (last_line lines)) EndMarker) then Err (mkParseError 0 LastLineEnd)
  else
    st <-? parseLines 2 (inner lines) (mkState NoHunk 0 []) ;;
    _ <-? ensureApplyPatchUpdateHunkComplete (stMode st) (stUpdateLine st) (length lines) (stHunks st) ;;
    Ok (stHunks st).

Definition text (l : list string) : str := join [nl] (lit <$> l).
Example parse_example :
  parseApplyPatch (text ["*** Begin Patch"; "*** Add File: a.txt"; "+x"; "+"; "*** Update File: b.go ";
    "*** Move to: c.go"; "@@ func f()"; " k"; "-old"; "+new"; "*** End of File"; "*** Delete File: d"; "*** End Patch"]%string)
  = Ok [mkHunk HunkAdd (lit "a.txt") [] (text ["x"; ""; ""]%string) [];
        mkHunk HunkUpdate (lit "b.go") (lit "c.go") []
          [mkChunk (Some (lit "func f()")) [lit "k"; lit "old"] [lit "k"; lit "new"] true];
        mkHunk HunkDelete (lit "d") [] [] []].
Proof. vm_compute. reflexivity. Qed.
Example parse_errors :
  parseApplyPatch (text ["*** Begin Patch"; "*** Update File: b.go"; "*** End Patch"]%string)
    = Err (mkParseError 2 (UpdateEmpty (lit "b.go"))) /\
  parseApplyPatch (text ["*** Begin Patch"; "x"; "*** End Patch"]%string) = Err (mkParseError 2 (NotAHeader (lit "x"))) /\
  parseApplyPatch (text ["*** Begin Patch"; "*** Delete File: a"]%string) = Err (mkParseError 0 LastLineEnd).
Proof. by repeat split; vm_compute. Qed.

(** ** What parsing produces *)
Definition chunk_ok (c : Chunk) : Prop := oldLines c <> [] \/ newLines c <> [].
(** A hunk names a file; only an update moves it, only an addition has text,
    and only an update has chunks. *)
Definition hunk_shape (h : Hunk) : Prop :=
  hkPath h <> [] /\ trim_space (hkPath h) = hkPath h /\ trim_space (hkMovePath h) = hkMovePath h /\
  match hkKind h with
  | HunkAdd => hkMovePath h = [] /\ hkChunks h = []
  | HunkDelete => hkMovePath h = [] /\ hkChunks h = [] /\ hkContents h = []
  | HunkUpdate => hkContents h = []
  end.
(** A finished hunk: an update has chunks, and each of them lines. *)
Definition hunk_ok (h : Hunk) : Prop :=
  hunk_shape h /\ match hkKind h with HunkUpdate => hkChunks h <> [] /\ Forall chunk_ok (hkChunks h) | _ => True end.
(** The hunk being read: only its last chunk may still be empty. *)
Definition hunk_open (h : Hunk) : Prop := hunk_shape h /\ Forall chunk_ok (removelast (hkChunks h)).
Definition state_ok (st : State) : Prop :=
  match stMode st with
  | NoHunk => stHunks st = []
  | InHunk k => exists front h, stHunks st = front ++ [h] /\ Forall hunk_ok front /\ hunk_open h /\ hkKind h = k
  end.

Lemma update_last_app {A} (x y : A) l : update_last x (l ++ [y]) = l ++ [x].
Proof. unfold update_last. by rewrite removelast_last. Qed.
Lemma last_split {A} (l : list A) x : last l = Some x -> exists f, l = f ++ [x].
Proof. destruct l as [|y l _] using rev_ind; [done|]. rewrite last_snoc. intros [= ->]. by exists l. Qed.
Lemma chunk_empty_false c : chunk_empty c = false -> chunk_ok c.
Proof.
  unfold chunk_empty, chunk_ok. intros [H|H]%andb_false_iff; str_hyps; auto.
Qed.
Lemma complete_ok mode hl n front h : mode = InHunk (hkKind h) -> hunk_open h -> Forall hunk_ok front ->
  ensureApplyPatchUpdateHunkComplete mode hl n (front ++ [h]) = Ok tt -> hunk_ok h.
Proof.
  intros -> [Hs Hp] _. unfold ensureApplyPatchUpdateHunkComplete. rewrite last_snoc.
  split; [done|]. destruct (hkKind h) eqn:Ek; simpl in *; try done.
  destruct (last (hkChunks h)) as [c|] eqn:El; [|done]. destruct (chunk_empty c) eqn:Ee; [done|].
  apply chunk_empty_false in Ee. apply last_split in El as [cs Hcs]. rewrite Hcs in *.
  rewrite removelast_last in Hp. split; [by destruct cs|]. apply Forall_app. split; [done|]. by constructor.
Qed.
Lemma header_ok trimmed n mode hl hunks k path :
  parseApplyPatchHeader trimmed n mode hl hunks = Ok (Some (k, path)) ->
  path <> [] /\ trim_space path = path /\ ensureApplyPatchUpdateHunkComplete mode hl n hunks = Ok tt.
Proof.
  unfold parseApplyPatchHeader. set (found := if has_prefix trimmed AddMarker then _ else _).
  assert (Hf : forall k path, found = Some (k, path) -> trim_space path = path).
  { intros k' p'. subst found. repeat case_if; intros [= <- <-]; apply trim_space_idem. }
  destruct found as [[k' p']|] eqn:E; [|done]. destruct (is_empty p') eqn:Ee; [done|]. str_hyps.
  destruct (ensureApplyPatchUpdateHunkComplete _ _ _ _) as [[]|] eqn:Ec; simpl; [|done].
  intros [= <- <-]. split_and!; [done|by eapply Hf|done].
Qed.
Lemma open_chunks h cs : hunk_open h -> hkKind h = HunkUpdate -> Forall chunk_ok (removelast cs) -> hunk_open (set_chunks h cs).
Proof. intros [(H1 & H2 & H3 & H4) _] Hk Hc. rewrite Hk in H4. split; [|done]. split_and!; try done. simpl. by rewrite Hk. Qed.
Lemma open_update_last h c : hunk_open h -> hkKind h = HunkUpdate -> hunk_open (set_chunks h (update_last c (hkChunks h))).
Proof.
  intros Ho Hk. apply open_chunks; [done|done|]. unfold update_last. rewrite removelast_last. apply Ho.
Qed.
Lemma addLine_ok h line n h' : hunk_open h -> hkKind h = HunkUpdate -> addLine h line n = Ok h' ->
  hunk_open h' /\ hkKind h' = HunkUpdate.
Proof.
  intros Ho Hk. unfold addLine.
  repeat match goal with
  | |- context [match ?x with [] => _ | _ :: _ => _ end] => destruct x
  | |- Ok _ = Ok _ -> _ => intros [= <-]; split; [by apply open_update_last|done]
  | |- (if ?b then _ else _) = _ -> _ => by destruct b
  | |- context [match ?x with Ascii _ _ _ _ _ _ _ _ => _ end] => destruct x
  | |- context [match ?x with true => _ | false => _ end] => destruct x
  end.
Qed.
Lemma updateLine_ok h line u n h' : hunk_open h -> hkKind h = HunkUpdate ->
  parseApplyPatchUpdateLine h line u n = Ok h' -> hunk_open h' /\ hkKind h' = HunkUpdate.
Proof.
  intros Ho Hk. unfold parseApplyPatchUpdateLine. case_if; [by intros [= <-]|]. case_if; [done|].
  destruct (str_eqb u MoveMarker || _).
  { destruct (negb _ || _); [done|]. destruct (is_empty (trim_space _)); [done|]. intros [= <-]. split; [|done].
    destruct Ho as [(H1 & H2 & H3 & H4) Hc]. split; [|done]. rewrite Hk in H4.
    split_and!; [done|done|apply trim_space_idem|]. simpl. by rewrite Hk. }
  destruct (is_context u).
  { destruct (last (hkChunks h)) as [c|] eqn:El.
    - destruct (chunk_empty c) eqn:Ee; [done|]. intros [= <-]. split; [|done]. apply open_chunks; [done|done|].
      rewrite removelast_last. apply last_split in El as [cs Hcs]. destruct Ho as [_ Hc].
      rewrite Hcs in *. rewrite removelast_last in Hc. apply Forall_app.
      split; [done|]. constructor; [by apply chunk_empty_false|done].
    - intros [= <-]. split; [|done]. apply open_chunks; [done|done|]. rewrite removelast_last.
      apply last_None in El. rewrite El. constructor. }
  destruct (str_eqb u EOFMarker); [|by apply addLine_ok].
  destruct (last (hkChunks h)) as [c|] eqn:El; [|done]. case_if; [done|]. intros [= <-].
  split; [by apply open_update_last|done].
Qed.
Lemma parseLine_ok n raw st st' : state_ok st -> parseLine n raw st = Ok st' -> state_ok st'.
Proof.
  intros Hst. unfold parseLine. set (line := trim_suffix raw [cr]).
  match goal with |- rbind ?x _ = _ -> _ => destruct x as [[[k path]|]|] eqn:Eh end; cbn [rbind]; [| |done].
  - destruct (is_update (stMode st) && _); [done|]. apply header_ok in Eh as (Hp & Ht & Hc).
    intros [= <-]. unfold state_ok in *. simpl.
    destruct (stMode st) as [|m] eqn:Em.
    + rewrite Hst. exists [], (mkHunk k path [] [] []). split_and!; [done|constructor| |done].
      split; [|constructor]. split_and!; try done. by destruct k.
    + destruct Hst as (front & h & Hh & Hf & Ho & Hk). rewrite Hh in *.
      exists (front ++ [h]), (mkHunk k path [] [] []). split_and!; [done| | |done].
      * apply Forall_app. split; [done|]. constructor; [|constructor]. refine (complete_ok _ _ _ _ _ _ Ho Hf Hc); congruence.
      * split; [|constructor]. split_and!; try done. by destruct k.
  - unfold state_ok in *. destruct (stMode st) as [|[]] eqn:Em; try done;
      destruct Hst as (front & h & Hh & Hf & Ho & Hk); rewrite Hh, last_snoc.
    + destruct (cut_prefix line (lit "+")) as [content|]; [|done]. intros [= <-]. simpl.
      rewrite update_last_app. eexists front, _. split_and!; [done|done| |done].
      destruct Ho as [(H1 & H2 & H3 & H4) Hc]. rewrite Hk in H4. split; [|done].
      split_and!; [done|done|done|]. simpl. by rewrite Hk.
    + destruct (parseApplyPatchUpdateLine _ _ _ _) as [h'|] eqn:Eu; simpl; [|done]. intros [= <-]. simpl.
      apply updateLine_ok in Eu as [Ho' Hk']; [|done|done]. rewrite update_last_app. by exists front, h'.
Qed.
Lemma parseLines_ok lines n st st' : state_ok st -> parseLines n lines st = Ok st' -> state_ok st'.
Proof.
  revert n st. induction lines as [|l lines IH]; intros n st Hst; simpl; [by intros [= <-]|].
  destruct (parseLine n l st) as [st1|] eqn:E; simpl; [|done]. apply IH. by eapply parseLine_ok.
Qed.

(** what the patch parser accepts is well formed: every hunk names a file
    by a trimmed, non-empty path; only updates carry chunks or a move, and
    only additions a text; an update has at least one chunk, and every chunk
    has a line to remove, keep or insert. *)
Theorem parse_well_formed patch hunks : parseApplyPatch patch = Ok hunks -> Forall hunk_ok hunks.
Proof.
  unfold parseApplyPatch. repeat (case_if; [done|]).
  destruct (parseLines _ _ _) as [st|] eqn:E; simpl; [|done].
  destruct (ensureApplyPatchUpdateHunkComplete _ _ _ _) as [[]|] eqn:Ec; simpl; [|done]. intros [= <-].
  apply parseLines_ok in E; [|done]. unfold state_ok in E. destruct (stMode st) as [|k] eqn:Em; [by rewrite E|].
  destruct E as (front & h & Hh & Hf & Ho & Hk). rewrite Hh in *. apply Forall_app. split; [done|].
  constructor; [|constructor]. refine (complete_ok _ _ _ _ _ _ Ho Hf Ec); congruence.
Qed.

(** ** Round trip *)
(** A patch in the documented form, as a model is asked to write it. *)
Definition render_chunk (c : Chunk) : list str :=
  (match changeContext c with None => lit "@@" | Some x => lit "@@ " ++ x end) ::
  ((cons "-"%char) <$> oldLines c) ++ ((cons "+"%char) <$> newLines c) ++
  (if endOfFile c then [EOFMarker] else []).
Definition content_lines (s : str) : list str := removelast (split_byte nl s).
Definition render_hunk (h : Hunk) : list str :=
  match hkKind h with
  | HunkAdd => (AddMarker ++ hkPath h) :: ((cons "+"%char) <$> content_lines (hkContents h))
  | HunkDelete => [DeleteMarker ++ hkPath h]
  | HunkUpdate =>
      (UpdateMarker ++ hkPath h) :: (if is_empty (hkMovePath h) then [] else [MoveMarker ++ hkMovePath h]) ++
      flat_map render_chunk (hkChunks h)
  end.
Definition render_patch (hunks : list Hunk) : str :=
  join [nl] (BeginMarker :: flat_map render_hunk hunks ++ [EndMarker]).

(** What a line of text can hold. *)
Definition plain_line (l : str) : Prop := count_byte nl l = 0%nat /\ has_suffix l [cr] = false.
Definition chunk_plain (c : Chunk) : Prop :=
  Forall plain_line (oldLines c) /\ Forall plain_line (newLines c) /\
  match changeContext c with
  | Some x => plain_line x /\ x <> [] /\ trim_right x (lit " " ++ [tab]) = x
  | None => True
  end.
Definition hunk_plain (h : Hunk) : Prop :=
  hunk_ok h /\ count_byte nl (hkPath h) = 0%nat /\ count_byte nl (hkMovePath h) = 0%nat /\
  Forall plain_line (content_lines (hkContents h)) /\
  hkContents h = flat_map (fun l => l ++ [nl]) (content_lines (hkContents h)) /\
  Forall chunk_plain (hkChunks h).

Definition ws : str := lit " " ++ [tab].
Lemma has_suffix_spec s p : has_suffix s p = true <-> exists r, s = r ++ p.
Proof.
  unfold has_suffix. rewrite has_prefix_spec. split; intros [r H].
  - exists (rev r). apply (f_equal (@rev _)) in H. by rewrite rev_involutive, rev_app_distr, rev_involutive in H.
  - exists (rev r). by rewrite H, rev_app_distr.
Qed.
Lemma trim_suffix_none s p : has_suffix s p = false -> trim_suffix s p = s.
Proof. unfold trim_suffix. by intros ->. Qed.
Lemma suffix_cons_cr c l : c <> cr -> has_suffix l [cr] = false -> has_suffix (c :: l) [cr] = false.
Proof.
  intros Hc Hl. destruct (has_suffix (c :: l) [cr]) eqn:E; [|done]. apply has_suffix_spec in E as [r Hr].
  destruct r as [|d r]; simplify_eq/=. assert (has_suffix (r ++ [cr]) [cr] = true) by (apply has_suffix_spec; by exists r).
  congruence.
Qed.
Lemma suffix_app_cr a l : l <> [] -> has_suffix l [cr] = false -> has_suffix (a ++ l) [cr] = false.
Proof.
  intros Hne Hl. destruct (has_suffix (a ++ l) [cr]) eqn:E; [|done]. apply has_suffix_spec in E as [r Hr].
  destruct l as [|x l _] using rev_ind; [done|]. rewrite app_assoc in Hr. apply app_inj_tail in Hr as [_ ->].
  assert (has_suffix (l ++ [cr]) [cr] = true) by (apply has_suffix_spec; by exists l). congruence.
Qed.
Lemma trim_right_head c l : in_cutset ws c = false -> exists u, trim_right (c :: l) ws = c :: u.
Proof.
  intros Hc. unfold trim_right. destruct (drop_while_end_split (in_cutset ws) (c :: l)) as (k & Hk & Hp & _).
  destruct (drop_while_end _ _) as [|d u]; [|injection Hk as <-; by exists u].
  simpl in Hk. rewrite <- Hk in Hp. apply Forall_cons in Hp as [? _]. congruence.
Qed.
(** A trimmed text does not end in a carriage return. *)
Lemma trimmed_no_cr p : trim_space p = p -> has_suffix p [cr] = false.
Proof.
  intros H. destruct (has_suffix p [cr]) eqn:E; [|done]. apply has_suffix_spec in E as [r ->].
  rewrite trim_space_app_spaces in H by (repeat constructor).
  apply (f_equal length) in H. rewrite length_app in H. simpl in H.
  rewrite trim_space_units in H. unfold trim_units in H.
  destruct (drop_while_split space_unit (decode r)) as (k & Hk & _).
  destruct (drop_while_end_split space_unit (drop_while space_unit (decode r))) as (k' & Hk' & _).
  apply (f_equal undecode) in Hk. rewrite Hk', !undecode_app, undecode_decode in Hk.
  apply (f_equal length) in Hk. rewrite !length_app in Hk. lia.
Qed.
Lemma trim_marker c m p : Forall (fun c => byte_val c < 128) (c :: m) -> is_space (byte_val c) = false ->
  trim_space p = p -> p <> [] -> trim_space (c :: m ++ p) = c :: m ++ p.
Proof.
  intros Hm Hc Hp Hne. destruct (trim_space_app_lead m c p Hm Hc) as [-> _]; [by rewrite Hp|].
  by rewrite trim_space_right_id.
Qed.

(** *** One line at a time *)
(** A hunk may begin here. *)
Definition closable (st : State) : Prop :=
  forall a b, ensureApplyPatchUpdateHunkComplete (stMode st) a b (stHunks st) = Ok tt.
Definition marker_of (k : HunkKind) : str :=
  match k with HunkAdd => AddMarker | HunkDelete => DeleteMarker | HunkUpdate => UpdateMarker end.
Definition update_line_of (k : HunkKind) (n : nat) (st : State) : nat :=
  match k with HunkUpdate => n | _ => stUpdateLine st end.
Lemma header_line n st k p : closable st -> p <> [] -> trim_space p = p ->
  parseLine n (marker_of k ++ p) st =
  Ok (mkState (InHunk k) (update_line_of k n st) (stHunks st ++ [mkHunk k p [] [] []])).
Proof.
  intros Hc Hne Hp. unfold parseLine.
  assert (Hs : has_suffix (marker_of k ++ p) [cr] = false) by (apply suffix_app_cr; [done|by apply trimmed_no_cr]).
  rewrite (trim_suffix_none _ _ Hs).
  assert (Ht : trim_space (marker_of k ++ p) = marker_of k ++ p).
  { destruct k; (apply trim_marker; [repeat constructor|reflexivity|done|done]). }
  rewrite Ht. assert (has_prefix (marker_of k ++ p) (lit " ") || has_prefix (marker_of k ++ p) (lit "+") ||
    has_prefix (marker_of k ++ p) (lit "-") = false) as -> by (by destruct k). rewrite andb_false_r.
  assert (parseApplyPatchHeader (marker_of k ++ p) n (stMode st) (stUpdateLine st) (stHunks st) = Ok (Some (k, p))) as ->;
    [|by destruct k].
  unfold parseApplyPatchHeader.
  assert ((if has_prefix (marker_of k ++ p) AddMarker then Some (HunkAdd, trim_space (trim_prefix (marker_of k ++ p) AddMarker))
    else if has_prefix (marker_of k ++ p) DeleteMarker then Some (HunkDelete, trim_space (trim_prefix (marker_of k ++ p) DeleteMarker))
    else if has_prefix (marker_of k ++ p) UpdateMarker then Some (HunkUpdate, trim_space (trim_prefix (marker_of k ++ p) UpdateMarker))
    else None) = Some (k, p)) as ->.
  { assert (Hcut : trim_prefix (marker_of k ++ p) (marker_of k) = p).
    { unfold trim_prefix. by rewrite (proj2 (cut_prefix_Some _ (marker_of k) p) eq_refl). }
    destruct k; cbn [marker_of] in *; rewrite has_prefix_app, Hcut, Hp; reflexivity. }
  apply is_empty_false in Hne. rewrite Hne, (Hc (stUpdateLine st) n). reflexivity.
Qed.
Lemma no_header c l n m u h : c <> "*"%char -> byte_val c < 128 -> is_space (byte_val c) = false ->
  parseApplyPatchHeader (trim_space (c :: l)) n m u h = Ok None.
Proof.
  intros Hc Ha Hs. destruct (trim_space_head c l Ha Hs) as [t ->]. unfold parseApplyPatchHeader.
  assert (Hp : forall m, has_prefix (c :: t) ("*"%char :: m) = false).
  { intros m'. change (Ascii.eqb "*" c && has_prefix t m' = false).
    by destruct (Ascii.eqb_spec "*" c) as [<- | ?]. }
  unfold AddMarker, DeleteMarker, UpdateMarker, lit. cbn [list_ascii_of_string]. by rewrite !Hp.
Qed.
Definition reading (k : HunkKind) (u : nat) (front : list Hunk) (h : Hunk) : State := mkState (InHunk k) u (front ++ [h]).
Lemma text_line n u front h l : plain_line l ->
  parseLine n ("+"%char :: l) (reading HunkAdd u front h) =
  Ok (reading HunkAdd u front (mkHunk (hkKind h) (hkPath h) (hkMovePath h) (hkContents h ++ l ++ [nl]) (hkChunks h))).
Proof.
  intros [_ Hl]. unfold parseLine, reading. cbn [stMode stHunks stUpdateLine is_update andb].
  rewrite (trim_suffix_none _ _ (suffix_cons_cr "+" l ltac:(done) Hl)). rewrite no_header by done. cbn [rbind].
  rewrite last_snoc. change (cut_prefix ("+"%char :: l) (lit "+")) with (cut_prefix (lit "+" ++ l) (lit "+")).
  rewrite (proj2 (cut_prefix_Some _ (lit "+") l) eq_refl). by rewrite update_last_app.
Qed.
Lemma update_line n u front h line : has_suffix line [cr] = false ->
  has_prefix line (lit " ") || has_prefix line (lit "+") || has_prefix line (lit "-") = true \/
  (forall a m b c, parseApplyPatchHeader (trim_space line) a m b c = Ok None) ->
  parseLine n line (reading HunkUpdate u front h) =
  (h <-? parseApplyPatchUpdateLine h line (trim_right line ws) n ;; Ok (reading HunkUpdate u front h)).
Proof.
  intros Hs Hl. unfold parseLine, reading. cbn [stMode stHunks stUpdateLine is_update andb].
  rewrite (trim_suffix_none _ _ Hs).
  assert ((if has_prefix line (lit " ") || has_prefix line (lit "+") || has_prefix line (lit "-") then Ok None
    else parseApplyPatchHeader (trim_space line) n (InHunk HunkUpdate) u (front ++ [h])) = Ok None) as ->.
  { destruct Hl as [-> | Hl]; [done|]. rewrite Hl. by case_if. }
  cbn [rbind]. rewrite last_snoc. fold ws. destruct (parseApplyPatchUpdateLine _ _ _ _); [|done].
  cbn [rbind]. by rewrite update_last_app.
Qed.
Definition put_line (c : ascii) (l : str) (k : Chunk) : Chunk :=
  mkChunk (changeContext k) (if Ascii.eqb c "-" then oldLines k ++ [l] else oldLines k)
    (if Ascii.eqb c "+" then newLines k ++ [l] else newLines k) (endOfFile k).
Lemma change_line n u front h cs k c l : (c = "-"%char \/ c = "+"%char) -> plain_line l ->
  hkChunks h = cs ++ [k] -> endOfFile k = false ->
  parseLine n (c :: l) (reading HunkUpdate u front h) =
  Ok (reading HunkUpdate u front (set_chunks h (cs ++ [put_line c l k]))).
Proof.
  intros Hc [_ Hl] Hcs He. rewrite update_line.
  - destruct (trim_right_head c l) as [t Ht]; [by destruct Hc as [-> | ->]|]. rewrite Ht.
    unfold parseApplyPatchUpdateLine. rewrite Hcs, last_snoc, He. cbn [andb].
    assert (Ho : forall t, str_eqb (c :: t) MoveMarker = false /\ str_eqb (c :: t) EOFMarker = false /\
      str_eqb (c :: t) (lit "@@") = false).
    { intros t'. split_and!; apply str_eqb_false; by destruct Hc as [-> | ->]. }
    destruct (Ho t) as (Hm & Hf & Ha). unfold is_context. rewrite Hm, Hf, Ha.
    assert (has_prefix (c :: t) MoveMarker = false /\ has_prefix (c :: t) (lit "@@ ") = false) as [-> ->]
      by (by destruct Hc as [-> | ->]). cbn [orb].
    unfold addLine. rewrite Hcs, last_snoc. cbn [default].
    destruct Hc as [-> | ->]; cbn [rbind]; by rewrite update_last_app.
  - apply suffix_cons_cr; [by destruct Hc as [-> | ->]|done].
  - left. pose proof (has_prefix_app [c] l : has_prefix (c :: l) [c] = true) as Hp.
    change (lit "+") with ["+"%char]. change (lit "-") with ["-"%char].
    destruct Hc as [-> | ->]; rewrite Hp; [by rewrite orb_true_r|done].
Qed.
(** *** A run of lines *)
Lemma parseLines_one n l rest st st' : parseLine n l st = Ok st' -> parseLines n (l :: rest) st = parseLines (S n) rest st'.
Proof. intros H. simpl. by rewrite H. Qed.
Lemma text_lines ls n u front h rest : Forall plain_line ls -> exists n',
  parseLines n ((cons "+"%char <$> ls) ++ rest) (reading HunkAdd u front h) =
  parseLines n' rest (reading HunkAdd u front
    (mkHunk (hkKind h) (hkPath h) (hkMovePath h) (hkContents h ++ flat_map (fun l => l ++ [nl]) ls) (hkChunks h))).
Proof.
  intros Hls. revert n h. induction Hls as [|l ls Hl _ IH]; intros n h.
  - exists n. cbn. rewrite app_nil_r. by destruct h.
  - change ((cons "+"%char <$> l :: ls) ++ rest) with (("+"%char :: l) :: (cons "+"%char <$> ls) ++ rest).
    erewrite parseLines_one by (by apply text_line). destruct (IH (S n) (mkHunk (hkKind h) (hkPath h) (hkMovePath h)
      (hkContents h ++ l ++ [nl]) (hkChunks h))) as [n' Hn]. exists n'. rewrite Hn. cbn [hkContents hkKind hkPath hkMovePath hkChunks flat_map].
    by rewrite <- !app_assoc.
Qed.
Definition put_lines (c : ascii) (ls : list str) (k : Chunk) : Chunk :=
  mkChunk (changeContext k) (if Ascii.eqb c "-" then oldLines k ++ ls else oldLines k)
    (if Ascii.eqb c "+" then newLines k ++ ls else newLines k) (endOfFile k).
Lemma change_lines c ls n u front h cs k rest : (c = "-"%char \/ c = "+"%char) -> Forall plain_line ls ->
  hkChunks h = cs ++ [k] -> endOfFile k = false -> exists n',
  parseLines n ((cons c <$> ls) ++ rest) (reading HunkUpdate u front h) =
  parseLines n' rest (reading HunkUpdate u front (set_chunks h (cs ++ [put_lines c ls k]))).
Proof.
  intros Hc Hls. revert n h k. induction Hls as [|l ls Hl _ IH]; intros n h k Hcs He.
  - exists n. assert (put_lines c [] k = k) as ->.
    { unfold put_lines. rewrite !app_nil_r. destruct k; simpl. by destruct (Ascii.eqb c "-"), (Ascii.eqb c "+"). }
    rewrite <- Hcs. by destruct h.
  - change ((cons c <$> l :: ls) ++ rest) with ((c :: l) :: (cons c <$> ls) ++ rest).
    erewrite parseLines_one by (by apply change_line).
    destruct (IH (S n) (set_chunks h (cs ++ [put_line c l k])) (put_line c l k)) as [n' Hn]; [done|done|].
    exists n'. rewrite Hn. assert (put_lines c ls (put_line c l k) = put_lines c (l :: ls) k) as ->; [|done].
    unfold put_lines, put_line. cbn [oldLines newLines changeContext endOfFile].
    destruct (Ascii.eqb c "-"), (Ascii.eqb c "+"); by rewrite <- ?app_assoc.
Qed.

(** *** Chunks, hunks and the whole patch *)
Definition is_some_ctx (c : Chunk) : str := match changeContext c with None => lit "@@" | Some x => lit "@@ " ++ x end.
Lemma context_line n u front h c : chunk_plain c -> Forall chunk_ok (hkChunks h) ->
  parseLine n (is_some_ctx c) (reading HunkUpdate u front h) =
  Ok (reading HunkUpdate u front (set_chunks h (hkChunks h ++ [mkChunk (changeContext c) [] [] false]))).
Proof.
  intros (_ & _ & Hctx) Hok.
  assert (Hlast : match last (hkChunks h) with Some c => chunk_empty c | None => false end = false).
  { destruct (last (hkChunks h)) as [k|] eqn:El; [|done]. apply last_split in El as [cs Hcs]. rewrite Hcs in Hok.
    apply Forall_app in Hok as [_ Hk]. apply Forall_cons in Hk as [[Hk|Hk] _]; unfold chunk_empty;
      rewrite (bool_decide_false _ Hk); [done|by rewrite andb_false_r]. }
  assert (Hs : has_suffix (is_some_ctx c) [cr] = false /\ trim_right (is_some_ctx c) ws = is_some_ctx c /\
    is_context (is_some_ctx c) = true /\ cut_prefix (is_some_ctx c) (lit "@@ ") = changeContext c /\
    exists t, is_some_ctx c = "@"%char :: t).
  { unfold is_some_ctx. destruct (changeContext c) as [x|]; [|split_and!; by try eexists].
    destruct Hctx as ([_ Hcr] & Hne & Htr). split_and!.
    - by apply suffix_app_cr.
    - unfold trim_right in *. rewrite drop_while_end_app; fold ws in *; by rewrite Htr.
    - unfold is_context. rewrite has_prefix_app. apply orb_true_r.
    - by apply cut_prefix_Some.
    - by eexists. }
  destruct Hs as (Hcr & Htr & Hc & Hcut & t & Ht). rewrite update_line; [|done|].
  - rewrite Htr. unfold parseApplyPatchUpdateLine. rewrite Hc, Hcut, Hlast. cbn [negb]. rewrite andb_false_r.
    assert (is_empty (is_some_ctx c) = false) as -> by (by rewrite Ht). rewrite andb_false_r.
    assert (str_eqb (is_some_ctx c) MoveMarker = false) as -> by (apply str_eqb_false; by rewrite Ht).
    assert (has_prefix (is_some_ctx c) MoveMarker = false) as -> by (by rewrite Ht). done.
  - right. intros a m b d. rewrite Ht. by apply no_header.
Qed.
Lemma eof_line n u front h cs k : hkChunks h = cs ++ [k] -> chunk_ok k -> endOfFile k = false ->
  parseLine n EOFMarker (reading HunkUpdate u front h) =
  Ok (reading HunkUpdate u front (set_chunks h (cs ++ [mkChunk (changeContext k) (oldLines k) (newLines k) true]))).
Proof.
  intros Hcs Hk He. rewrite update_line; [|reflexivity|right; intros; by vm_compute].
  change (trim_right EOFMarker ws) with EOFMarker.
  unfold parseApplyPatchUpdateLine. rewrite Hcs, last_snoc, He. cbn [andb].
  change (str_eqb EOFMarker MoveMarker || has_prefix EOFMarker MoveMarker) with false.
  change (is_context EOFMarker) with false. change (str_eqb EOFMarker EOFMarker) with true. cbv iota.
  assert (chunk_empty k = false) as ->.
  { destruct Hk as [Hk|Hk]; unfold chunk_empty; rewrite (bool_decide_false _ Hk); [done|by rewrite andb_false_r]. }
  cbn [rbind]. by rewrite update_last_app.
Qed.
Lemma chunk_lines c n u front h rest : chunk_plain c -> chunk_ok c -> Forall chunk_ok (hkChunks h) -> exists n',
  parseLines n (render_chunk c ++ rest) (reading HunkUpdate u front h) =
  parseLines n' rest (reading HunkUpdate u front (set_chunks h (hkChunks h ++ [c]))).
Proof.
  intros Hp Hc Hok. unfold render_chunk. fold (is_some_ctx c). cbn [app]. rewrite <- !app_assoc.
  erewrite parseLines_one by (by apply context_line).
  set (k := mkChunk (changeContext c) [] [] false). set (h1 := set_chunks h (hkChunks h ++ [k])).
  destruct Hp as (Ho & Hn & _).
  destruct (change_lines "-" (oldLines c) (S n) u front h1 (hkChunks h) k
    ((cons "+"%char <$> newLines c) ++ (if endOfFile c then [EOFMarker] else []) ++ rest)) as [n1 ->]; [by left|done|done|done|].
  set (k1 := put_lines "-" (oldLines c) k). set (h2 := set_chunks h1 (hkChunks h ++ [k1])).
  destruct (change_lines "+" (newLines c) n1 u front h2 (hkChunks h) k1
    ((if endOfFile c then [EOFMarker] else []) ++ rest)) as [n2 ->]; [by right|done|done|done|].
  set (k2 := put_lines "+" (newLines c) k1).
  assert (Hk2 : k2 = mkChunk (changeContext c) (oldLines c) (newLines c) false) by done.
  destruct (endOfFile c) eqn:Ee; cbn [app].
  - erewrite parseLines_one by (apply (eof_line _ _ _ _ (hkChunks h) k2); [done|by rewrite Hk2|done]).
    exists (S n2). rewrite Hk2. simpl. rewrite <- Ee. by destruct c.
  - exists n2. rewrite Hk2, <- Ee. by destruct c.
Qed.
Lemma chunks_lines cs n u front h rest : Forall chunk_plain cs -> Forall chunk_ok cs -> Forall chunk_ok (hkChunks h) ->
  exists n', parseLines n (flat_map render_chunk cs ++ rest) (reading HunkUpdate u front h) =
    parseLines n' rest (reading HunkUpdate u front (set_chunks h (hkChunks h ++ cs))).
Proof.
  intros Hp. revert n h. induction Hp as [|c cs Hc _ IH]; intros n h Hok Hh.
  - exists n. cbn. rewrite app_nil_r. by destruct h.
  - apply Forall_cons in Hok as [Hc1 Hok]. cbn [flat_map]. rewrite <- app_assoc.
    destruct (chunk_lines c n u front h (flat_map render_chunk cs ++ rest)) as [n1 ->]; [done|done|done|].
    destruct (IH n1 (set_chunks h (hkChunks h ++ [c]))) as [n2 ->]; [done|apply Forall_app; split; [done|by constructor]|].
    exists n2. simpl. by rewrite <- app_assoc.
Qed.
Lemma move_line n u front h p : hkChunks h = [] -> hkMovePath h = [] -> p <> [] -> trim_space p = p ->
  parseLine n (MoveMarker ++ p) (reading HunkUpdate u front h) =
  Ok (reading HunkUpdate u front (mkHunk (hkKind h) (hkPath h) p (hkContents h) (hkChunks h))).
Proof.
  intros Hc Hm Hne Hp. pose proof (trimmed_no_cr p Hp) as Hcr.
  assert (Ht : trim_space (MoveMarker ++ p) = MoveMarker ++ p) by (apply trim_marker; [by repeat constructor|done|done|done]).
  assert (Htr : trim_right p ws = p).
  { unfold trim_right. destruct (drop_while_end_split (in_cutset ws) p) as (k & Hk & Hks & _).
    assert (Hsp : Forall ascii_space k).
    { eapply Forall_impl; [exact Hks|]. intros c Hin. unfold in_cutset in Hin. str_hyps.
      apply elem_of_cons in Hin as [-> | Hin]; [done|]. apply elem_of_cons in Hin as [-> | Hin]; [done|].
      by apply not_elem_of_nil in Hin. }
    set (q := drop_while_end (in_cutset ws) p) in *. clearbody q. subst p. rewrite trim_space_app_spaces in Hp by done.
    assert (Hlen : (length (trim_space q) <= length q)%nat).
    { rewrite trim_space_units. unfold trim_units.
      destruct (drop_while_split space_unit (decode q)) as (k1 & Hk1 & _).
      destruct (drop_while_end_split space_unit (drop_while space_unit (decode q))) as (k2 & Hk2 & _).
      apply (f_equal undecode) in Hk1. rewrite Hk2, !undecode_app, undecode_decode in Hk1.
      apply (f_equal length) in Hk1. rewrite !length_app in Hk1. lia. }
    rewrite Hp, length_app in Hlen. destruct k; [by rewrite app_nil_r|simpl in Hlen; lia]. }
  rewrite update_line.
  - assert (trim_right (MoveMarker ++ p) ws = MoveMarker ++ p) as ->.
    { unfold trim_right in *. rewrite drop_while_end_app; by rewrite Htr. }
    unfold parseApplyPatchUpdateLine. rewrite Hc, Hm. cbn [last andb length]. rewrite has_prefix_app, orb_true_r.
    change (negb (bool_decide (0%nat = 0%nat)) || negb (is_empty [])) with false. cbv iota.
    unfold trim_prefix. rewrite (proj2 (cut_prefix_Some _ MoveMarker p) eq_refl).
    change (default (MoveMarker ++ p) (Some p)) with p. rewrite Hp.
    apply is_empty_false in Hne. by rewrite Hne.
  - by apply suffix_app_cr.
  - right. intros a m b c. rewrite Ht. done.
Qed.
Lemma hunk_ok_closable st front h k : stMode st = InHunk k -> hkKind h = k -> stHunks st = front ++ [h] -> hunk_ok h -> closable st.
Proof.
  intros Hm Hk Hh [_ Hc] a b. unfold ensureApplyPatchUpdateHunkComplete. rewrite Hm, Hh, last_snoc.
  destruct k; try done. rewrite Hk in Hc. destruct Hc as [Hne Hc]. cbn [is_update].
  destruct (last (hkChunks h)) as [c|] eqn:El; [|by apply last_None in El].
  apply last_split in El as [cs Hcs]. rewrite Hcs in Hc. apply Forall_app in Hc as [_ Hc].
  apply Forall_cons in Hc as [Hc _]. unfold chunk_empty. destruct Hc as [Hc|Hc]; rewrite (bool_decide_false _ Hc); [done|].
  by rewrite andb_false_r.
Qed.
(** A printed hunk is read back, after any finished state. *)
Lemma hunk_lines h n st rest : closable st -> hunk_plain h -> exists n' st',
  parseLines n (render_hunk h ++ rest) st = parseLines n' rest st' /\
  stHunks st' = stHunks st ++ [h] /\ closable st'.
Proof.
  intros Hcl (Hok & _ & _ & Htxt & Hcont & Hch). pose proof Hok as [(Hne & Ht & Htm & Hk) Hcs].
  unfold render_hunk. destruct (hkKind h) eqn:Ek; cbn [app].
  - destruct Hk as [Hm Hc]. erewrite parseLines_one by (by apply (header_line _ _ HunkAdd)).
    destruct (text_lines (content_lines (hkContents h)) (S n) (update_line_of HunkAdd n st) (stHunks st)
      (mkHunk HunkAdd (hkPath h) [] [] []) rest Htxt) as [n' Hn]. unfold reading in Hn. rewrite Hn.
    exists n'. eexists. split; [reflexivity|]. cbn [hkContents app hkKind hkPath hkMovePath hkChunks].
    rewrite <- Hcont. assert (mkHunk HunkAdd (hkPath h) [] (hkContents h) [] = h) as -> by (destruct h; simpl in *; congruence).
    split; [done|]. by eapply hunk_ok_closable.
  - destruct Hk as (Hm & Hc & Hct). erewrite parseLines_one by (by apply (header_line _ _ HunkDelete)).
    eexists (S n), _. split; [reflexivity|].
    assert (mkHunk HunkDelete (hkPath h) [] [] [] = h) as -> by (destruct h; simpl in *; congruence).
    split; [done|]. by eapply hunk_ok_closable.
  - destruct Hcs as [Hcne Hcok]. erewrite parseLines_one by (by apply (header_line _ _ HunkUpdate)).
    set (h0 := mkHunk HunkUpdate (hkPath h) [] [] []). set (u := update_line_of HunkUpdate n st).
    change (mkState (InHunk HunkUpdate) u (stHunks st ++ [h0])) with (reading HunkUpdate u (stHunks st) h0).
    assert (exists n1, parseLines (S n) (((if is_empty (hkMovePath h) then [] else [MoveMarker ++ hkMovePath h]) ++
      flat_map render_chunk (hkChunks h)) ++ rest) (reading HunkUpdate u (stHunks st) h0) =
      parseLines n1 (flat_map render_chunk (hkChunks h) ++ rest)
        (reading HunkUpdate u (stHunks st) (mkHunk HunkUpdate (hkPath h) (hkMovePath h) [] []))) as [n1 ->].
    { destruct (is_empty (hkMovePath h)) eqn:Em; str_hyps; [exists (S n); by rewrite Em|].
      exists (S (S n)). cbn [app]. erewrite parseLines_one by (by apply move_line). done. }
    destruct (chunks_lines (hkChunks h) n1 u (stHunks st) (mkHunk HunkUpdate (hkPath h) (hkMovePath h) [] []) rest)
      as [n2 ->]; [done|done|constructor|].
    assert (set_chunks (mkHunk HunkUpdate (hkPath h) (hkMovePath h) [] []) (hkChunks h) = h) as Heq.
    { clear - Ek Hk. destruct h. cbn in *. by subst. }
    exists n2. eexists. split; [reflexivity|]. cbn [hkChunks app]. rewrite Heq.
    split; [done|]. by eapply (hunk_ok_closable _ (stHunks st) h HunkUpdate).
Qed.
Lemma hunks_lines hs n st : closable st -> Forall hunk_plain hs -> exists st',
  parseLines n (flat_map render_hunk hs) st = Ok st' /\ stHunks st' = stHunks st ++ hs /\ closable st'.
Proof.
  intros Hc Hp. revert n st Hc. induction Hp as [|h hs Hh _ IH]; intros n st Hc.
  - exists st. by rewrite app_nil_r.
  - cbn [flat_map]. destruct (hunk_lines h n st (flat_map render_hunk hs) Hc Hh) as (n1 & st1 & -> & H1 & Hc1).
    destruct (IH n1 st1 Hc1) as (st2 & -> & H2 & Hc2). exists st2. rewrite H2, H1, <- app_assoc. done.
Qed.
Definition no_nl (l : str) : Prop := count_byte nl l = 0%nat.
Lemma no_nl_app a b : no_nl a -> no_nl b -> no_nl (a ++ b).
Proof. unfold no_nl. intros Ha Hb. by rewrite count_byte_app, Ha, Hb. Qed.
Lemma plain_cons_no_nl c ls : Ascii.eqb c nl = false -> Forall plain_line ls -> Forall no_nl (cons c <$> ls).
Proof.
  intros Hc Hls. apply Forall_fmap. eapply Forall_impl; [exact Hls|]. intros l [Hl _].
  unfold no_nl, compose. cbn [count_byte]. by rewrite Hc, Hl.
Qed.
Lemma render_no_nl h : hunk_plain h -> Forall no_nl (render_hunk h).
Proof.
  intros (_ & Hp & Hm & Ht & _ & Hc). unfold render_hunk. destruct (hkKind h).
  - constructor; [by apply no_nl_app|by apply plain_cons_no_nl].
  - constructor; [by apply no_nl_app|constructor].
  - constructor; [by apply no_nl_app|]. apply Forall_app. split.
    + case_if; [constructor|]. constructor; [by apply no_nl_app|constructor].
    + induction Hc as [|c cs (Ho & Hn & Hx) _ IH]; [constructor|]. cbn [flat_map]. apply Forall_app. split; [|exact IH].
      unfold render_chunk. constructor.
      { destruct (changeContext c); [|done]. apply no_nl_app; [done|]. apply Hx. }
      apply Forall_app. split; [by apply plain_cons_no_nl|]. apply Forall_app. split; [by apply plain_cons_no_nl|].
      case_if; [|constructor]. constructor; [done|constructor].
Qed.
Lemma render_lines hunks : Forall hunk_plain hunks ->
  splitPatchLines (render_patch hunks) = BeginMarker :: flat_map render_hunk hunks ++ [EndMarker].
Proof.
  intros Hp. set (body := flat_map render_hunk hunks).
  assert (Hl : Forall no_nl (BeginMarker :: body ++ [EndMarker])).
  { constructor; [done|]. apply Forall_app. split; [|by constructor]. subst body.
    induction Hp as [|h hs Hh _ IH]; [constructor|]. cbn [flat_map]. apply Forall_app. split; [by apply render_no_nl|done]. }
  unfold splitPatchLines, render_patch. fold body.
  assert (Hj : exists t, join [nl] (BeginMarker :: body ++ [EndMarker]) = "*"%char :: t ++ ["h"%char]).
  { change (BeginMarker :: body ++ [EndMarker]) with ((BeginMarker :: body) ++ [EndMarker]).
    rewrite join_app by done. destruct body as [|b body].
    - exists (lit "** Begin Patch" ++ [nl] ++ lit "*** End Patc"). by rewrite <- app_assoc.
    - rewrite join_cons by done. exists (lit "** Begin Patch" ++ [nl] ++ join [nl] (b :: body) ++ [nl] ++ lit "*** End Patc").
      by rewrite <- !app_assoc. }
  destruct Hj as [t Ht].
  assert (trim_space (join [nl] (BeginMarker :: body ++ [EndMarker])) = join [nl] (BeginMarker :: body ++ [EndMarker])) as ->.
  { rewrite Ht. by apply trim_space_ends. }
  rewrite Ht at 1. cbn [is_empty]. by apply split_join.
Qed.

(** C24: printing and parsing.  Every list of well-formed hunks whose texts fit
    on lines has a patch - headers, a move, and for every chunk a context
    marker, the removed, the added lines and the end-of-file marker - and the
    parser reads exactly those hunks back from it, whatever the file text:
    lines that look like markers included. *)
Theorem parse_render_roundtrip hunks :
  Forall hunk_plain hunks -> parseApplyPatch (render_patch hunks) = Ok hunks.
Proof.
  intros Hp. unfold parseApplyPatch. rewrite (render_lines hunks Hp). set (body := flat_map render_hunk hunks).
  assert (stripLenientHeredoc (BeginMarker :: body ++ [EndMarker]) = BeginMarker :: body ++ [EndMarker]) as ->.
  { unfold stripLenientHeredoc. case_if; [done|].
    change (str_eqb (trim_space (first_line (BeginMarker :: body ++ [EndMarker]))) BeginMarker) with true. done. }
  assert (last_line (BeginMarker :: body ++ [EndMarker]) = EndMarker) as ->.
  { unfold last_line. by rewrite app_comm_cons, last_snoc. }
  assert (inner (BeginMarker :: body ++ [EndMarker]) = body) as ->.
  { unfold inner. cbn [tail]. apply removelast_last. }
  assert (length (BeginMarker :: body ++ [EndMarker]) <? 2 = false)%nat as ->.
  { apply Nat.ltb_ge. simpl. rewrite length_app. simpl. lia. }
  change (negb (str_eqb (trim_space (first_line (BeginMarker :: body ++ [EndMarker]))) BeginMarker)) with false.
  change (negb (str_eqb (trim_space EndMarker) EndMarker)) with false. cbv iota.
  subst body. destruct (hunks_lines hunks 2 (mkState NoHunk 0 [])) as (st & -> & Hs & Hc); [by intros a b|done|].
  cbn [rbind]. rewrite Hc. cbn [rbind]. by rewrite Hs.
Qed.

Definition sample_hunks : list Hunk :=
  [mkHunk HunkAdd (lit "a.txt") [] (text ["*** End Patch"; ""; ""]%string) [];
   mkHunk HunkUpdate (lit "b.go") (lit "c.go") []
     [mkChunk (Some (lit "func f()")) [lit "old"] [lit "*** Add File: x"] false; mkChunk None [lit "z"] [lit "end"] true];
   mkHunk HunkDelete (lit "d") [] [] []].
Lemma sample_plain : Forall hunk_plain sample_hunks.
Proof.
  assert (Hl : forall l, bool_decide (count_byte nl l = 0%nat) && negb (has_suffix l [cr]) = true -> plain_line l).
  { intros l H. bool_hyps. by split. }
  repeat constructor; try discriminate; try reflexivity; try (apply Hl; reflexivity); simpl; auto.
Qed.
Lemma parse_render_roundtrip_witness : parseApplyPatch (render_patch sample_hunks) = Ok sample_hunks.
Proof. exact (parse_render_roundtrip sample_hunks sample_plain). Defined.
Lemma parse_well_formed_witness : Forall hunk_ok sample_hunks.
Proof.
  assert (H : parseApplyPatch (render_patch sample_hunks) = Ok sample_hunks) by (vm_compute; reflexivity).
  exact (parse_well_formed _ _ H).
Defined.
