(* ===== verification/PatchPlan.v ===== *)
(** * Planning and committing a patch

    The second half of [internal/agent/tool/apply_patch.go]: the new content
    of an updated file from its chunks, the plan of writes and deletes made
    against a read-only file system, and its execution.  The file system
    behind the bridge is an interface ([PatchFS]); a map from paths to files
    is an instance of it. *)

From S2P Require Import Prelude GoStr GoPath GoTrim ToolPath ApplyPatch.
#[local] Open Scope Z_scope.

(** ** Finding old lines *)
Definition lines_match (m : str -> str -> bool) (lines pattern : list str) : bool :=
  bool_decide (length pattern <= length lines)%nat && forallb (fun q => m q.1 q.2) (zip lines pattern).
(** [for i := searchStart; i <= last; i++]: [n] positions from [i]. *)
Fixpoint find_from (m : str -> str -> bool) (lines pattern : list str) (i n : nat) : option nat :=
  match n with
  | O => None
  | S n => if lines_match m (drop i lines) pattern then Some i else find_from m lines pattern (S i) n
  end.
Definition matchers : list (str -> str -> bool) :=
  [str_eqb;
   fun a b => str_eqb (trim_right a (lit " " ++ [tab])) (trim_right b (lit " " ++ [tab]));
   fun a b => str_eqb (trim_space a) (trim_space b)].
Fixpoint first_match (ms : list (str -> str -> bool)) (lines pattern : list str) (i n : nat) : option nat :=
  match ms with
  | [] => None
  | m :: r => match find_from m lines pattern i n with
              | Some k => Some k
              | None => first_match r lines pattern i n
              end
  end.
Definition seekApplyPatchSequence (lines pattern : list str) (start : nat) (eof : bool) : option nat :=
  if bool_decide (pattern = []) then Some start
  else if (length lines <? length pattern)%nat then None
  else
    let lastStart := (length lines - length pattern)%nat in
    let searchStart := if eof then lastStart else start in
    if (lastStart <? searchStart)%nat then None
    else first_match matchers lines pattern searchStart (S lastStart - searchStart).

(** ** The new content *)
Record Replacement : Type := mkReplacement { rpStart : nat; rpOldLen : nat; rpNewLines : list str }.
Inductive DeriveError : Type := ContextNotFound (context : str) | LinesNotFound (expected : list str).

(** [if len(l) > 0 && l[len(l)-1] == "" { l = l[:len(l)-1] }] *)
Definition drop_blank_last (l : list str) : list str :=
  match last l with Some [] => removelast l | _ => l end.
(** One chunk: its replacement and where the next search starts. *)
Definition placeChunk (originalLines : list str) (c : Chunk) (lineIndex : nat) : result DeriveError (Replacement * nat) :=
  lineIndex <-? match changeContext c with
                | Some ctx => match seekApplyPatchSequence originalLines [ctx] lineIndex false with
                              | Some idx => Ok (S idx)
                              | None => Err (ContextNotFound ctx)
                              end
                | None => Ok lineIndex
                end ;;
  if bool_decide (oldLines c = []) then
    let insertionIdx := match changeContext c with Some _ => lineIndex | None => length originalLines end in
    Ok (mkReplacement insertionIdx 0 (newLines c), insertionIdx)
  else
    let found := match seekApplyPatchSequence originalLines (oldLines c) lineIndex (endOfFile c) with
                 | Some start => Some (start, oldLines c, newLines c)
                 | None =>
                     match last (oldLines c) with
                     | Some [] =>
                         let pattern := removelast (oldLines c) in
                         match seekApplyPatchSequence originalLines pattern lineIndex (endOfFile c) with
                         | Some start => Some (start, pattern, drop_blank_last (newLines c))
                         | None => None
                         end
                     | _ => None
                     end
                 end in
    match found with
    | None => Err (LinesNotFound (oldLines c))
    | Some (start, pattern, new) => Ok (mkReplacement start (length pattern) new, (start + length pattern)%nat)
    end.
Fixpoint placeChunks (originalLines : list str) (chunks : list Chunk) (lineIndex : nat) :
    result DeriveError (list Replacement) :=
  match chunks with
  | [] => Ok []
  | c :: r =>
      p <-? placeChunk originalLines c lineIndex ;;
      rs <-? placeChunks originalLines r p.2 ;;
      Ok (p.1 :: rs)
  end.
Definition computeApplyPatchReplacements (originalLines : list str) (chunks : list Chunk) :
    result DeriveError (list Replacement) :=
  rs <-? placeChunks originalLines chunks 0 ;;
  Ok (stable_sort (fun a b => Nat.ltb (rpStart a) (rpStart b)) rs).
Definition replace_one (r : Replacement) (out : list str) : list str :=
  if (length out <? rpStart r)%nat then out
  else
    let end_ := Nat.min (rpStart r + rpOldLen r) (length out) in
    take (rpStart r) out ++ rpNewLines r ++ drop end_ out.
(** From the last replacement to the first. *)
Definition applyPatchReplacements (lines : list str) (replacements : list Replacement) : list str :=
  fold_right replace_one lines replacements.
Definition file_lines (original : str) : list str := drop_blank_last (split_byte nl original).
Definition deriveApplyPatchContent (original : str) (chunks : list Chunk) : result DeriveError str :=
  let originalLines := file_lines original in
  replacements <-? computeApplyPatchReplacements originalLines chunks ;;
  let updatedLines := applyPatchReplacements originalLines replacements in
  Ok (join [nl] (match last updatedLines with Some [] => updatedLines | _ => updatedLines ++ [[]] end)).

(** ** The file system *)
Record FileInfo : Type := mkFileInfo { fiExists : bool; fiIsDir : bool }.
Inductive FSError : Type := FSNotFound | FSOther (detail : str).
(** What [bridge.Client] offers: [Stat] with a missing file reported as such,
    the content of a file, and the two writes. *)
Class PatchFS (S : Type) : Type := {
  fs_stat : S -> str -> result FSError FileInfo;
  fs_read : S -> str -> result FSError str;
  fs_write : S -> str -> str -> result FSError S;
  fs_delete : S -> str -> result FSError S;
}.
(** [bridgeApplyPatchFS.Stat] and [ReadText]: a file with a zero byte is refused. *)
Definition fs_Stat {S} `{PatchFS S} (s : S) (path : str) : result FSError FileInfo :=
  match fs_stat s path with
  | Err FSNotFound => Ok (mkFileInfo false false)
  | r => r
  end.
Inductive ReadError : Type := ReadFS (e : FSError) | ReadBinary.
Definition fs_ReadText {S} `{PatchFS S} (s : S) (path : str) : result ReadError str :=
  match fs_read s path with
  | Err e => Err (ReadFS e)
  | Ok raw => if contains raw ["000"%char] then Err ReadBinary else Ok raw
  end.

(** ** Planning *)
Inductive PlanError : Type :=
  | PlanPath (e : PathError) | PlanStat (path : str) (e : FSError) | PlanRead (path : str) (e : ReadError)
  | AddOverDirectory (path : str) | AddExisting (path : str) | DeleteMissing (path : str) | DeleteDirectory (path : str)
  | UpdateMissing (path : str) | UpdateDirectory (path : str) | MoveOverDirectory (path : str)
  | PlanDerive (path : str) (e : DeriveError).
Inductive PlanOp : Type := WriteOp (path content : str) | DeleteOp (path : str).
Record DisplayChange : Type := mkDisplayChange { dcFrom : str; dcTo : str; dcBefore : str; dcAfter : str }.
Record Plan : Type := mkPlan {
  plOperations : list PlanOp; plAdded : list str; plModified : list str; plDeleted : list str;
  plDisplay : list DisplayChange }.
Record VirtualFile : Type := mkVirtualFile { vfExists : bool; vfIsDir : bool; vfContent : str; vfLoaded : bool }.
Definition present (content : str) : VirtualFile := mkVirtualFile true false content true.
Definition absent : VirtualFile := mkVirtualFile false false [] true.

Abbreviation overlay := (gmap str VirtualFile).
Section planning.
Context {U : Unicode} {S : Type} `{PatchFS S}.

Definition statApplyPatchVirtualFile (s : S) (files : overlay) (path : str) : result PlanError (VirtualFile * overlay) :=
  match files !! path with
  | Some f => Ok (f, files)
  | None =>
      info <-? map_err (PlanStat path) (fs_Stat s path) ;;
      let f := mkVirtualFile (fiExists info) (fiIsDir info) [] false in
      Ok (f, <[path := f]> files)
  end.
Definition readApplyPatchVirtualFile (s : S) (files : overlay) (path : str) : result PlanError (str * overlay) :=
  p <-? statApplyPatchVirtualFile s files path ;;
  let '(f, files) := p in
  if negb (vfExists f) then Err (UpdateMissing path)
  else if vfIsDir f then Err (UpdateDirectory path)
  else if vfLoaded f then Ok (vfContent f, files)
  else
    content <-? map_err (fun e => match e with ReadFS FSNotFound => UpdateMissing path | _ => PlanRead path e end)
                  (fs_ReadText s path) ;;
    Ok (content, <[path := mkVirtualFile (vfExists f) (vfIsDir f) content true]> files).

(** One hunk of the loop. *)
Definition planHunk (s : S) (w : toolWorkspace) (h : Hunk) (st : overlay * Plan) : result PlanError (overlay * Plan) :=
  let '(files, p) := st in
  path <-? map_err PlanPath (normalizeApplyPatchPath (hkPath h) w) ;;
  match hkKind h with
  | HunkAdd =>
      q <-? statApplyPatchVirtualFile s files path ;;
      let '(info, files) := q in
      if vfExists info then Err (if vfIsDir info then AddOverDirectory path else AddExisting path)
      else Ok (<[path := present (hkContents h)]> files,
               mkPlan (plOperations p ++ [WriteOp path (hkContents h)]) (plAdded p ++ [path]) (plModified p) (plDeleted p)
                 (plDisplay p ++ [mkDisplayChange path path [] (hkContents h)]))
  | HunkDelete =>
      q <-? statApplyPatchVirtualFile s files path ;;
      let '(info, files) := q in
      if negb (vfExists info) then Err (DeleteMissing path)
      else if vfIsDir info then Err (DeleteDirectory path)
      else Ok (<[path := absent]> files,
               mkPlan (plOperations p ++ [DeleteOp path]) (plAdded p) (plModified p) (plDeleted p ++ [path]) (plDisplay p))
  | HunkUpdate =>
      q <-? readApplyPatchVirtualFile s files path ;;
      let '(original, files) := q in
      newContent <-? map_err (PlanDerive path) (deriveApplyPatchContent original (hkChunks h)) ;;
      r <-? (if is_empty (hkMovePath h) then Ok (<[path := present newContent]> files, [WriteOp path newContent], path)
             else
               movePath <-? map_err PlanPath (normalizeApplyPatchPath (hkMovePath h) w) ;;
               if str_eqb movePath path then Ok (<[path := present newContent]> files, [WriteOp path newContent], path)
               else
                 q <-? statApplyPatchVirtualFile s files movePath ;;
                 let '(info, files) := q in
                 if vfExists info && vfIsDir info then Err (MoveOverDirectory movePath)
                 else Ok (<[movePath := present newContent]> (<[path := absent]> files),
                          [WriteOp movePath newContent; DeleteOp path], movePath)) ;;
      let '(files, ops, toPath) := r in
      Ok (files, mkPlan (plOperations p ++ ops) (plAdded p) (plModified p ++ [path]) (plDeleted p)
                   (plDisplay p ++ [mkDisplayChange path toPath original newContent]))
  end.
Fixpoint planHunks (s : S) (w : toolWorkspace) (hunks : list Hunk) (st : overlay * Plan) : result PlanError (overlay * Plan) :=
  match hunks with
  | [] => Ok st
  | h :: r => st <-? planHunk s w h st ;; planHunks s w r st
  end.
Definition plan0 : Plan := mkPlan [] [] [] [] [].
Definition buildApplyPatchPlan (s : S) (w : toolWorkspace) (hunks : list Hunk) : result PlanError Plan :=
  st <-? planHunks s w hunks (∅, plan0) ;; Ok st.2.

(** ** Committing *)
Definition commitOp (s : S) (op : PlanOp) : result FSError S :=
  match op with
  | WriteOp path content => fs_write s path content
  | DeleteOp path => fs_delete s path
  end.
Fixpoint commitApplyPatchPlan (s : S) (ops : list PlanOp) : result FSError S :=
  match ops with
  | [] => Ok s
  | op :: r => s <-? commitOp s op ;; commitApplyPatchPlan s r
  end.

(** ** The tool *)
Inductive ToolError : Type :=
  | PatchRequired | ParseFailed (e : ParseError) | NoFilesModified | PlanFailed (e : PlanError)
  | HookRefused | CommitFailed (e : FSError).
(** [execApplyPatch] after its arguments are decoded and its target resolved;
    [hook] is the answer of the hook run before the write. *)
Definition execApplyPatch (hook : Plan -> bool) (w : toolWorkspace) (patch : str) (s : S) : result ToolError (S * Plan) :=
  if is_empty (trim_space patch) then Err PatchRequired
  else
    hunks <-? map_err ParseFailed (parseApplyPatch patch) ;;
    if bool_decide (length hunks = 0%nat) then Err NoFilesModified
    else
      plan <-? map_err PlanFailed (buildApplyPatchPlan s w hunks) ;;
      if negb (hook plan) then Err HookRefused
      else s' <-? map_err CommitFailed (commitApplyPatchPlan s (plOperations plan)) ;; Ok (s', plan).

(** [summary] *)
Definition summary (p : Plan) : str :=
  lit "Success. Updated the following files:" ++
  flat_map (fun path => nl :: lit "A " ++ path) (plAdded p) ++
  flat_map (fun path => nl :: lit "M " ++ path) (plModified p) ++
  flat_map (fun path => nl :: lit "D " ++ path) (plDeleted p).
End planning.

(** ** Finding old lines: what is found *)
Lemma find_from_spec m lines pattern i n :
  match find_from m lines pattern i n with
  | Some k => (i <= k < i + n)%nat /\ lines_match m (drop k lines) pattern = true /\
              forall j, (i <= j < k)%nat -> lines_match m (drop j lines) pattern = false
  | None => forall j, (i <= j < i + n)%nat -> lines_match m (drop j lines) pattern = false
  end.
Proof.
  revert i. induction n as [|n IH]; intros i; simpl; [lia|].
  destruct (lines_match m (drop i lines) pattern) eqn:E; [split_and!; [lia|lia|done|lia]|].
  specialize (IH (Datatypes.S i)). destruct (find_from m lines pattern (Datatypes.S i) n) as [k|].
  - destruct IH as (Hk & Hm & Hj). split_and!; [lia|lia|done|]. intros j Hij.
    destruct (decide (j = i)) as [-> | ]; [done|]. apply Hj. lia.
  - intros j Hj. destruct (decide (j = i)) as [-> | ]; [done|]. apply IH. lia.
Qed.
(** Found by the first of the matchers that finds it anywhere. *)
Definition found_by (ms : list (str -> str -> bool)) (lines pattern : list str) (lo hi k : nat) : Prop :=
  exists t m, ms !! t = Some m /\ (lo <= k <= hi)%nat /\ lines_match m (drop k lines) pattern = true /\
    (forall j, (lo <= j < k)%nat -> lines_match m (drop j lines) pattern = false) /\
    forall t' m' j, (t' < t)%nat -> ms !! t' = Some m' -> (lo <= j <= hi)%nat -> lines_match m' (drop j lines) pattern = false.
Definition found_nowhere (ms : list (str -> str -> bool)) (lines pattern : list str) (lo hi : nat) : Prop :=
  forall t m j, ms !! t = Some m -> (lo <= j <= hi)%nat -> lines_match m (drop j lines) pattern = false.
Lemma first_match_spec ms lines pattern lo hi : (lo <= hi)%nat ->
  match first_match ms lines pattern lo (Datatypes.S hi - lo) with
  | Some k => found_by ms lines pattern lo hi k
  | None => found_nowhere ms lines pattern lo hi
  end.
Proof.
  intros Hlo. induction ms as [|m ms IH]; simpl; [by intros t m j|].
  pose proof (find_from_spec m lines pattern lo (Datatypes.S hi - lo)) as Hf.
  assert (Hn : (forall j, (lo <= j < lo + (Datatypes.S hi - lo))%nat -> lines_match m (drop j lines) pattern = false) ->
    forall j, (lo <= j <= hi)%nat -> lines_match m (drop j lines) pattern = false) by (intros H j Hj; apply H; lia).
  destruct (find_from m lines pattern lo _) as [k|] eqn:E.
  - destruct Hf as (Hk & Hm & Hj). exists 0%nat, m. split_and!; try done; try lia.
  - specialize (Hn Hf). destruct (first_match ms _ _ _ _) as [k|] eqn:E2.
    + destruct IH as (t & m' & Ht & Hk & Hm & Hj & Hearlier). exists (Datatypes.S t), m'. split_and!; try done; try lia.
      intros t' m'' j Ht' Hm'' Hrange. destruct t' as [|t']; simplify_eq/=; [by apply Hn|].
      eapply Hearlier; [|done|done]. lia.
    + intros t m' j Ht Hj. destruct t as [|t]; simplify_eq/=; [by apply Hn|]. by eapply IH.
Qed.

(** the search for old lines.  With something to look for, it reports a
    place only where the lines agree under one of its three comparisons -
    exact, but for trailing blanks, but for surrounding white space - the
    first such place at or after the start, or for an end-of-file chunk the
    end itself, and a stricter comparison agrees nowhere in the range; and it
    fails only when no comparison agrees anywhere in the range. *)
Theorem seek_finds_first (lines pattern : list str) (start : nat) (eof : bool) :
  pattern <> [] ->
  let hi := (length lines - length pattern)%nat in
  let lo := if eof then hi else start in
  match seekApplyPatchSequence lines pattern start eof with
  | Some k => (length pattern <= length lines)%nat /\ found_by matchers lines pattern lo hi k
  | None => (length lines < length pattern)%nat \/ found_nowhere matchers lines pattern lo hi
  end.
Proof.
  intros Hne. cbv zeta. unfold seekApplyPatchSequence. rewrite (bool_decide_false _ Hne).
  destruct (length lines <? length pattern)%nat eqn:El; str_hyps; [by left|].
  set (hi := (length lines - length pattern)%nat). set (lo := if eof then hi else start).
  destruct (hi <? lo)%nat eqn:Eh; str_hyps; [right; intros t m j _ Hj; lia|].
  pose proof (first_match_spec matchers lines pattern lo hi Eh) as Hf.
  destruct (first_match _ _ _ _ _); [split; [lia|done]|by right].
Qed.
Lemma seek_bounds lines pattern start eof k : (start <= length lines)%nat ->
  seekApplyPatchSequence lines pattern start eof = Some k ->
  (eof = false -> (start <= k)%nat) /\ (eof = true -> pattern <> [] -> (k + length pattern)%nat = length lines) /\
  (k + length pattern <= length lines)%nat /\ exists m, m ∈ matchers /\ lines_match m (drop k lines) pattern = true.
Proof.
  intros Hs. unfold seekApplyPatchSequence. destruct (bool_decide (pattern = [])) eqn:Ep; str_hyps.
  { subst. intros [= ->]. simpl. split_and!; [done|done|lia|]. exists str_eqb. split; [left|]. by destruct (drop k lines). }
  destruct (length lines <? length pattern)%nat eqn:El; str_hyps; [done|].
  set (from := if eof then _ else _). destruct (_ <? from)%nat eqn:Eh; str_hyps; [done|].
  pose proof (first_match_spec matchers lines pattern from (length lines - length pattern) Eh) as Hf. intros E.
  rewrite E in Hf. destruct Hf as (t & m & Ht & Hk & Hm & _). subst from.
  split_and!; [intros ->; lia|intros ->; lia|lia|]. exists m. split; [|done]. by eapply list_elem_of_lookup_2.
Qed.

(** ** The new content as a splice *)
(** The lines of a file with the replacements made, from line [pos] on. *)
Fixpoint splice (pos : nat) (lines : list str) (rs : list Replacement) : list str :=
  match rs with
  | [] => drop pos lines
  | r :: rest => take (rpStart r - pos) (drop pos lines) ++ rpNewLines r ++ splice (rpStart r + rpOldLen r) lines rest
  end.
(** Replacements in order that do not overlap. *)
Fixpoint apart (pos : nat) (lines : list str) (rs : list Replacement) : Prop :=
  match rs with
  | [] => (pos <= length lines)%nat
  | r :: rest => (pos <= rpStart r)%nat /\ (rpStart r + rpOldLen r <= length lines)%nat /\
                 apart (rpStart r + rpOldLen r) lines rest
  end.
Lemma apart_le pos lines rs : apart pos lines rs -> (pos <= length lines)%nat.
Proof. destruct rs as [|r rs]; simpl; lia. Qed.
Lemma replacements_splice rs pos lines : apart pos lines rs ->
  applyPatchReplacements lines rs = take pos lines ++ splice pos lines rs.
Proof.
  revert pos. induction rs as [|r rs IH]; intros pos; simpl; [by rewrite take_drop|].
  intros (Hp & Hl & Ha). unfold applyPatchReplacements in *. cbn [fold_right]. rewrite (IH _ Ha).
  set (e := (rpStart r + rpOldLen r)%nat) in *. set (rest := splice e lines rs).
  assert (Hlen : length (take e lines ++ rest) = (e + length rest)%nat) by (rewrite length_app, length_take; lia).
  unfold replace_one. rewrite Hlen. destruct (e + length rest <? rpStart r)%nat eqn:E; str_hyps; [lia|].
  rewrite Nat.min_l by lia. fold e. rewrite take_app_le by (rewrite length_take; lia).
  rewrite take_take, Nat.min_l by lia. rewrite drop_app_le by (rewrite length_take; lia).
  rewrite (drop_ge (take e lines)) by (rewrite length_take; lia). cbn [app].
  rewrite !app_assoc. do 2 f_equal. rewrite <- (take_drop pos (take (rpStart r) lines)) at 1.
  rewrite take_take, Nat.min_l by lia. f_equal. by rewrite skipn_firstn_comm.
Qed.
Lemma apart_sorted pos lines rs : apart pos lines rs ->
  StronglySorted (le_of (fun a b => Nat.ltb (rpStart a) (rpStart b))) rs /\
  Forall (fun r => (pos <= rpStart r)%nat) rs.
Proof.
  revert pos. induction rs as [|r rs IH]; intros pos; simpl; [by repeat constructor|].
  intros (Hp & Hl & Ha). destruct (IH _ Ha) as [Hs Hf]. split.
  - constructor; [done|]. eapply Forall_impl; [exact Hf|]. intros q Hq. unfold le_of. simpl in Hq.
    destruct (Nat.ltb_spec (rpStart q) (rpStart r)); [lia|done].
  - constructor; [done|]. eapply Forall_impl; [exact Hf|]. simpl. intros q Hq. lia.
Qed.

(** Where a chunk went: after the line of its context, over lines that agree
    with its old lines (or with all but a last blank one); a chunk marked as the
    end of the file that replaces lines goes over the last ones. *)
Definition chunk_placed (lines : list str) (pos : nat) (c : Chunk) (r : Replacement) : Prop :=
  (rpStart r + rpOldLen r <= length lines)%nat /\ (endOfFile c = false -> (pos <= rpStart r)%nat) /\
  (endOfFile c = true -> rpOldLen r <> 0%nat -> (rpStart r + rpOldLen r)%nat = length lines) /\
  (forall ctx, changeContext c = Some ctx -> exists idx m, (pos <= idx)%nat /\ (endOfFile c = false -> (idx < rpStart r)%nat) /\ m ∈ matchers /\
     lines_match m (drop idx lines) [ctx] = true) /\
  (oldLines c = [] -> rpNewLines r = newLines c /\ (changeContext c = None -> rpStart r = length lines)) /\
  exists old m, m ∈ matchers /\ rpOldLen r = length old /\ lines_match m (drop (rpStart r) lines) old = true /\
    (old = oldLines c /\ rpNewLines r = newLines c \/
     oldLines c = old ++ [[]] /\ rpNewLines r = drop_blank_last (newLines c)).
Inductive placed (lines : list str) : nat -> list Chunk -> list Replacement -> Prop :=
  | placed_nil pos : placed lines pos [] []
  | placed_cons pos c cs r rs : chunk_placed lines pos c r ->
      placed lines (rpStart r + rpOldLen r) cs rs -> placed lines pos (c :: cs) (r :: rs).
Lemma lines_match_nil m l : lines_match m l [] = true.
Proof. unfold lines_match. simpl. by destruct l. Qed.
Lemma placeChunk_spec lines c pos r next : (pos <= length lines)%nat ->
  placeChunk lines c pos = Ok (r, next) -> next = (rpStart r + rpOldLen r)%nat /\ chunk_placed lines pos c r.
Proof.
  intros Hpos. unfold placeChunk.
  match goal with |- rbind ?x _ = _ -> _ => destruct x as [li|] eqn:Ec end; cbn [rbind]; [|done].
  assert (Hctx : (pos <= li <= length lines)%nat /\ forall ctx, changeContext c = Some ctx ->
    exists idx m, (pos <= idx < li)%nat /\ m ∈ matchers /\ lines_match m (drop idx lines) [ctx] = true).
  { destruct (changeContext c) as [ctx|]; [|injection Ec as <-; split; [lia|done]].
    destruct (seekApplyPatchSequence lines [ctx] pos false) as [idx|] eqn:Es; [|done]. injection Ec as <-.
    apply seek_bounds in Es as (H1 & _ & H2 & m & Hm & Hl); [|done]. specialize (H1 eq_refl). simpl in H2. split; [lia|].
    intros ctx' [= <-]. exists idx, m. split; [lia|done]. }
  clear Ec. destruct Hctx as [Hli Hctx].
  assert (Hmono : forall s, (endOfFile c = false -> (li <= s)%nat) -> forall ctx, changeContext c = Some ctx ->
    exists idx m, (pos <= idx)%nat /\ (endOfFile c = false -> (idx < s)%nat) /\ m ∈ matchers /\ lines_match m (drop idx lines) [ctx] = true).
  { intros s Hs ctx Hc. destruct (Hctx ctx Hc) as (idx & m & Hidx & ? & ?). exists idx, m. split_and!; [lia|intros He; specialize (Hs He); lia|done|done]. }
  destruct (bool_decide (oldLines c = [])) eqn:Eo; str_hyps.
  - set (at_ := match changeContext c with Some _ => li | None => length lines end). intros [= <- <-].
    assert (Hat : (li <= at_ <= length lines)%nat) by (subst at_; destruct (changeContext c); lia).
    split; simpl; [lia|]. split_and!; simpl; [lia|lia|done| |..].
    + apply Hmono. lia.
    + intros _. split; [done|]. subst at_. by intros ->.
    + exists [], str_eqb. split_and!; [left|done|apply lines_match_nil|by left].
  - assert (Hfin : forall start old new, seekApplyPatchSequence lines old li (endOfFile c) = Some start ->
      (old = oldLines c /\ new = newLines c \/ oldLines c = old ++ [[]] /\ new = drop_blank_last (newLines c)) ->
      Ok (mkReplacement start (length old) new, (start + length old)%nat) = Ok (E := DeriveError) (r, next) ->
      next = (rpStart r + rpOldLen r)%nat /\ chunk_placed lines pos c r).
    { intros start old new Es Hor [= <- <-]. apply seek_bounds in Es as (H1 & H2 & H3 & m & Hm & Hl); [|lia].
      split; [done|]. split_and!; simpl; [lia|intros He; specialize (H1 He); lia| |by apply Hmono|done|by exists old, m].
      intros He Hn. apply H2; [done|]. by intros ->. }
    destruct (seekApplyPatchSequence lines (oldLines c) li (endOfFile c)) as [start|] eqn:Es.
    { intros H. eapply Hfin; [exact Es|by left|exact H]. }
    destruct (last (oldLines c)) as [[|]|] eqn:El; [|done|done]. apply last_split in El as [f Hf].
    rewrite Hf, removelast_last in *.
    destruct (seekApplyPatchSequence lines f li (endOfFile c)) as [start|] eqn:Es2; [|done].
    intros H. by eapply Hfin; [exact Es2|right|exact H].
Qed.
Lemma placeChunks_spec lines cs pos rs : (pos <= length lines)%nat -> placeChunks lines cs pos = Ok rs -> placed lines pos cs rs.
Proof.
  revert pos rs. induction cs as [|c cs IH]; intros pos rs Hpos; simpl; [intros [= <-]; constructor|].
  destruct (placeChunk lines c pos) as [[r next]|] eqn:E; cbn [rbind fst snd]; [|done].
  apply placeChunk_spec in E as (-> & Hp); [|done].
  destruct (placeChunks lines cs _) as [rs'|] eqn:Er; cbn [rbind]; [|done]. intros [= <-].
  constructor; [done|]. apply IH; [apply Hp|done].
Qed.
Lemma placed_apart lines pos cs rs : placed lines pos cs rs -> (pos <= length lines)%nat -> Forall (fun c => endOfFile c = false) cs -> apart pos lines rs.
Proof.
  induction 1 as [|pos c cs r rs (H1 & H2 & _) _ IH]; intros Hpos HF; [done|]. inversion HF as [|? ? Hc HF']; subst. simpl.
  split_and!; [by apply H2|done|by apply IH].
Qed.

(** C5: the new content of an updated file. When an update succeeds there is a
    place for every chunk, over lines that agree with its old lines and with
    its context before it. Chunks not marked as the end of the file go in order
    and apart; a marked one that replaces lines goes over the last lines of the
    file, where it may meet the chunk before it. Whenever the places are in
    order and apart - always without a mark - the content is the file with just
    those lines replaced, every other line as it was, ended by a newline. *)
Theorem update_is_a_splice original chunks content :
  deriveApplyPatchContent original chunks = Ok content ->
  exists rs, placed (file_lines original) 0 chunks rs /\
    (Forall (fun c => endOfFile c = false) chunks -> apart 0 (file_lines original) rs) /\
    (apart 0 (file_lines original) rs -> let updated := splice 0 (file_lines original) rs in
       content = join [nl] (match last updated with Some [] => updated | _ => updated ++ [[]] end)).
Proof.
  unfold deriveApplyPatchContent, computeApplyPatchReplacements.
  destruct (placeChunks (file_lines original) chunks 0) as [rs|] eqn:E; cbn [rbind]; [|done].
  apply placeChunks_spec in E as Hp; [|lia]. intros [= <-]. exists rs.
  split_and!; [done|intros HF; eapply placed_apart; [done|lia|done]|]. intros Ha. cbv zeta.
  rewrite stable_sort_id by (by eapply apart_sorted). by rewrite (replacements_splice _ _ _ Ha).
Qed.

(** ** Plans and commits against a file map *)
Inductive Node : Type := File (content : str) | Dir.
(** What a file system promises: it behaves as a map from paths to files and
    directories; a write succeeds except over a directory, a delete on a file. *)
Class PatchFSLaws (S : Type) `{PatchFS S} : Type := {
  tree : S -> gmap str Node;
  stat_law s p : fs_stat s p = match tree s !! p with
                               | Some (File _) => Ok (mkFileInfo true false)
                               | Some Dir => Ok (mkFileInfo true true)
                               | None => Err FSNotFound
                               end;
  read_law s p c : tree s !! p = Some (File c) -> fs_read s p = Ok c;
  write_law s p c : tree s !! p <> Some Dir -> exists s', fs_write s p c = Ok s' /\ tree s' = <[p := File c]> (tree s);
  delete_law s p c : tree s !! p = Some (File c) -> exists s', fs_delete s p = Ok s' /\ tree s' = delete p (tree s);
}.
(** The map itself is such a file system. *)
#[export] Instance map_fs : PatchFS (gmap str Node) := {
  fs_stat m p := match m !! p with
                 | Some (File _) => Ok (mkFileInfo true false)
                 | Some Dir => Ok (mkFileInfo true true)
                 | None => Err FSNotFound
                 end;
  fs_read m p := match m !! p with Some (File c) => Ok c | Some Dir => Err (FSOther (lit "directory")) | None => Err FSNotFound end;
  fs_write m p c := match m !! p with Some Dir => Err (FSOther (lit "directory")) | _ => Ok (<[p := File c]> m) end;
  fs_delete m p := match m !! p with Some (File _) => Ok (delete p m) | _ => Err FSNotFound end;
}.
#[export] Instance map_fs_laws : PatchFSLaws (gmap str Node).
Proof.
  refine {| tree := id |}; unfold id; simpl.
  - done.
  - by intros m p c ->.
  - intros m p c Hd. destruct (m !! p) as [[]|]; [by eexists|done|by eexists].
  - intros m p c ->. by eexists.
Defined.

Section refinement.
Context {U : Unicode} {S : Type} `{PatchFSLaws S}.

(** What a hunk means: one step on the file map. *)
Definition apply_hunk (w : toolWorkspace) (m : gmap str Node) (h : Hunk) : option (gmap str Node) :=
  match normalizeApplyPatchPath (hkPath h) w with
  | Err _ => None
  | Ok path =>
      match hkKind h, m !! path with
      | HunkAdd, None => Some (<[path := File (hkContents h)]> m)
      | HunkDelete, Some (File _) => Some (delete path m)
      | HunkUpdate, Some (File original) =>
          match deriveApplyPatchContent original (hkChunks h) with
          | Err _ => None
          | Ok new =>
              if is_empty (hkMovePath h) then Some (<[path := File new]> m)
              else match normalizeApplyPatchPath (hkMovePath h) w with
                   | Err _ => None
                   | Ok to =>
                       if str_eqb to path then Some (<[path := File new]> m)
                       else match m !! to with
                            | Some Dir => None
                            | _ => Some (<[to := File new]> (delete path m))
                            end
                   end
          end
      | _, _ => None
      end
  end.
Fixpoint apply_hunks (w : toolWorkspace) (m : gmap str Node) (hunks : list Hunk) : option (gmap str Node) :=
  match hunks with
  | [] => Some m
  | h :: r => match apply_hunk w m h with Some m' => apply_hunks w m' r | None => None end
  end.

(** The overlay describes the file system as it will be after the operations
    planned so far; what it has not loaded is as it is on disk. *)
Definition node_exists (n : option Node) : bool := match n with Some _ => true | None => false end.
Definition node_is_dir (n : option Node) : bool := match n with Some Dir => true | _ => false end.
Definition view (f : VirtualFile) (now disk : option Node) : Prop :=
  if vfLoaded f then now = (if vfExists f then Some (File (vfContent f)) else None) /\ vfIsDir f = false
  else now = disk /\ f = mkVirtualFile (node_exists disk) (node_is_dir disk) [] false.
Definition overlay_ok (s : S) (files : overlay) (now : gmap str Node) : Prop :=
  forall path, match files !! path with
               | Some f => view f (now !! path) (tree s !! path)
               | None => now !! path = tree s !! path
               end.

Lemma overlay_write s files now path content : overlay_ok s files now ->
  overlay_ok s (<[path := present content]> files) (<[path := File content]> now).
Proof.
  intros Ho q. destruct (decide (q = path)) as [-> | Hne].
  - rewrite !lookup_insert_eq. unfold view. by cbn.
  - rewrite !lookup_insert_ne by done. apply Ho.
Qed.
Lemma overlay_delete s files now path : overlay_ok s files now ->
  overlay_ok s (<[path := absent]> files) (delete path now).
Proof.
  intros Ho q. destruct (decide (q = path)) as [-> | Hne].
  - rewrite lookup_insert_eq, lookup_delete_eq. unfold view. by cbn.
  - rewrite lookup_insert_ne, lookup_delete_ne by done. apply Ho.
Qed.
Lemma view_info f now disk : view f now disk -> vfExists f = node_exists now /\ vfIsDir f = node_is_dir now.
Proof.
  unfold view. destruct (vfLoaded f).
  - intros [-> ->]. by destruct (vfExists f).
  - by intros [-> ->].
Qed.
Lemma stat_spec s files now path : overlay_ok s files now ->
  exists f files', statApplyPatchVirtualFile s files path = Ok (f, files') /\ overlay_ok s files' now /\
    files' !! path = Some f /\ view f (now !! path) (tree s !! path).
Proof.
  intros Ho. unfold statApplyPatchVirtualFile. pose proof (Ho path) as Hp. destruct (files !! path) as [f|] eqn:E.
  { by exists f, files. }
  unfold fs_Stat. rewrite stat_law.
  set (f := mkVirtualFile (node_exists (tree s !! path)) (node_is_dir (tree s !! path)) [] false).
  exists f, (<[path := f]> files). split; [by subst f; destruct (tree s !! path) as [[]|]|].
  assert (Hv : view f (now !! path) (tree s !! path)) by (by subst f).
  split_and!; [|by rewrite lookup_insert_eq|done].
  intros q. destruct (decide (q = path)) as [-> | Hne]; [by rewrite lookup_insert_eq|].
  rewrite lookup_insert_ne by done. apply Ho.
Qed.
(** No file of the map has a zero byte. *)
Definition no_binary (m : gmap str Node) : Prop := forall p c, m !! p = Some (File c) -> contains c ["000"%char] = false.
Lemma read_spec s files now path : overlay_ok s files now ->
  match readApplyPatchVirtualFile s files path with
  | Ok (c, files') => now !! path = Some (File c) /\ overlay_ok s files' now
  | Err _ => no_binary (tree s) -> forall c, now !! path <> Some (File c)
  end.
Proof.
  intros Ho. unfold readApplyPatchVirtualFile. destruct (stat_spec s files now path Ho) as (f & files' & -> & Ho' & Hf & Hv).
  cbn [rbind]. destruct (view_info _ _ _ Hv) as [He Hd]. rewrite He, Hd.
  destruct (now !! path) as [[c|]|] eqn:En; cbn [node_exists node_is_dir negb]; [|done|done].
  unfold view in Hv. destruct (vfLoaded f) eqn:El.
  - destruct Hv as [Hc _]. rewrite He in Hc. simpl in Hc. injection Hc as ->. by split.
  - destruct Hv as [Hdisk Hf']. unfold fs_ReadText. rewrite (read_law s path c) by (by rewrite <- Hdisk).
    destruct (contains c ["000"%char]) eqn:Eb; cbn [map_err rbind].
    + intros Hb. exfalso. symmetry in Hdisk. apply Hb in Hdisk. congruence.
    + split; [done|]. intros q. destruct (decide (q = path)) as [-> | Hne].
      * rewrite lookup_insert_eq, En. unfold view. by cbn.
      * rewrite lookup_insert_ne by done. apply Ho'.
Qed.

(** Operations that take one file map to another. *)
Definition commits (ops : list PlanOp) (now now' : gmap str Node) : Prop :=
  forall s1, tree s1 = now -> exists s2, commitApplyPatchPlan s1 ops = Ok s2 /\ tree s2 = now'.
Lemma commits_nil now : commits [] now now.
Proof. intros s1 Hs. by exists s1. Qed.
Lemma commits_app ops1 ops2 a b c : commits ops1 a b -> commits ops2 b c -> commits (ops1 ++ ops2) a c.
Proof.
  intros H1 H2 s1 Hs. destruct (H1 s1 Hs) as (s2 & Hc & Ht). destruct (H2 s2 Ht) as (s3 & Hc' & Ht').
  exists s3. split; [|done]. clear -Hc Hc'. revert s1 Hc. induction ops1 as [|op ops1 IH]; intros s1; simpl; [by intros [= ->]|].
  destruct (commitOp s1 op); cbn [rbind]; [|done]. apply IH.
Qed.
Lemma commits_write now path content : now !! path <> Some Dir -> commits [WriteOp path content] now (<[path := File content]> now).
Proof.
  intros Hd s1 Hs. destruct (write_law s1 path content) as (s2 & Hw & Ht); [by rewrite Hs|].
  exists s2. simpl. rewrite Hw. by rewrite Ht, Hs.
Qed.
Lemma commits_delete now path c : now !! path = Some (File c) -> commits [DeleteOp path] now (delete path now).
Proof.
  intros Hf s1 Hs. destruct (delete_law s1 path c) as (s2 & Hw & Ht); [by rewrite Hs|].
  exists s2. simpl. rewrite Hw. by rewrite Ht, Hs.
Qed.

(** What planning a hunk comes to: the step it means and operations that make
    it, or, when it is refused, no such step. *)
Definition hunk_planned (s : S) (w : toolWorkspace) (h : Hunk) (p : Plan) (now : gmap str Node)
    (r : result PlanError (overlay * Plan)) : Prop :=
  match r with
  | Ok (files', p') => exists now' ops, apply_hunk w now h = Some now' /\ overlay_ok s files' now' /\
      plOperations p' = plOperations p ++ ops /\ commits ops now now'
  | Err _ => no_binary (tree s) -> apply_hunk w now h = None
  end.
Lemma move_planned s files now path to c new : overlay_ok s files now -> now !! path = Some (File c) -> to <> path ->
  match now !! to with Some Dir => False | _ => True end ->
  overlay_ok s (<[to := present new]> (<[path := absent]> files)) (<[to := File new]> (delete path now)) /\
  commits [WriteOp to new; DeleteOp path] now (<[to := File new]> (delete path now)).
Proof.
  intros Ho Hp Hne Hto. split; [by apply overlay_write, overlay_delete|].
  change [WriteOp to new; DeleteOp path] with ([WriteOp to new] ++ [DeleteOp path]).
  eapply commits_app; [apply commits_write; by intros E; rewrite E in Hto|].
  rewrite <- delete_insert_ne by done. apply (commits_delete _ _ c). by rewrite lookup_insert_ne.
Qed.
Lemma planHunk_spec s w h files p now : overlay_ok s files now -> hunk_planned s w h p now (planHunk s w h (files, p)).
Proof.
  intros Ho. unfold planHunk, hunk_planned, apply_hunk.
  destruct (normalizeApplyPatchPath (hkPath h) w) as [path|]; cbn [map_err rbind]; [|done].
  destruct (hkKind h) eqn:Ek.
  - destruct (stat_spec s files now path Ho) as (f & files' & -> & Ho' & _ & Hv). cbn [rbind].
    destruct (view_info _ _ _ Hv) as [He _]. rewrite He. destruct (now !! path) as [n|] eqn:En; cbn [node_exists]; [done|].
    exists (<[path := File (hkContents h)]> now), [WriteOp path (hkContents h)].
    split_and!; [done|by apply overlay_write|done|apply commits_write; by rewrite En].
  - destruct (stat_spec s files now path Ho) as (f & files' & -> & Ho' & _ & Hv). cbn [rbind].
    destruct (view_info _ _ _ Hv) as [He Hd]. rewrite He, Hd.
    destruct (now !! path) as [[c|]|] eqn:En; cbn [node_exists node_is_dir negb]; [|done|done].
    exists (delete path now), [DeleteOp path]. split_and!; [done|by apply overlay_delete|done|by eapply commits_delete].
  - pose proof (read_spec s files now path Ho) as Hr.
    destruct (readApplyPatchVirtualFile s files path) as [[c files']|]; cbn [rbind].
    2: { intros Hb. specialize (Hr Hb). destruct (now !! path) as [[c|]|]; [by destruct (Hr c)|done|done]. }
    destruct Hr as [Hn Ho']. rewrite Hn. destruct (deriveApplyPatchContent c (hkChunks h)) as [new|]; cbn [map_err rbind]; [|done].
    assert (Hin : overlay_ok s (<[path := present new]> files') (<[path := File new]> now) /\
      commits [WriteOp path new] now (<[path := File new]> now)).
    { split; [by apply overlay_write|]. apply commits_write. by rewrite Hn. }
    destruct (is_empty (hkMovePath h)); cbn [rbind].
    { exists (<[path := File new]> now), [WriteOp path new]. split_and!; [done|apply Hin|done|apply Hin]. }
    destruct (normalizeApplyPatchPath (hkMovePath h) w) as [to|]; cbn [map_err rbind]; [|done].
    destruct (str_eqb to path) eqn:Et; str_hyps; cbn [rbind].
    { exists (<[path := File new]> now), [WriteOp path new]. split_and!; [done|apply Hin|done|apply Hin]. }
    destruct (stat_spec s files' now to Ho') as (f & files2 & -> & Ho2 & _ & Hv). cbn [rbind].
    destruct (view_info _ _ _ Hv) as [He Hd]. rewrite He, Hd.
    destruct (now !! to) as [[c'|]|] eqn:Eto; cbn [node_exists node_is_dir andb rbind]; [|done|];
      (destruct (move_planned s files2 now path to c new) as [H1 H2]; [done|done|done|by rewrite Eto|]);
      exists (<[to := File new]> (delete path now)), [WriteOp to new; DeleteOp path]; by split_and!.
Qed.
Lemma planHunks_spec s w hs files p now : overlay_ok s files now ->
  match planHunks s w hs (files, p) with
  | Ok (_, p') => exists now' ops, apply_hunks w now hs = Some now' /\
      plOperations p' = plOperations p ++ ops /\ commits ops now now'
  | Err _ => no_binary (tree s) -> apply_hunks w now hs = None
  end.
Proof.
  revert files p now. induction hs as [|h hs IH]; intros files p now Ho; cbn [planHunks apply_hunks].
  { exists now, []. rewrite app_nil_r. split_and!; [done|done|apply commits_nil]. }
  pose proof (planHunk_spec s w h files p now Ho) as Hh. unfold hunk_planned in Hh.
  destruct (planHunk s w h (files, p)) as [[files1 p1]|]; cbn [rbind]; [|intros Hb; by rewrite Hh].
  destruct Hh as (now1 & ops1 & -> & Ho1 & Hp1 & Hc1). specialize (IH files1 p1 now1 Ho1).
  destruct (planHunks s w hs (files1, p1)) as [[files2 p2]|]; [|done].
  destruct IH as (now2 & ops2 & -> & Hp2 & Hc2). exists now2, (ops1 ++ ops2). split_and!; [done| |by eapply commits_app].
  by rewrite Hp2, Hp1, app_assoc.
Qed.
Lemma buildPlan_spec s w hs :
  match buildApplyPatchPlan s w hs with
  | Ok plan => exists now', apply_hunks w (tree s) hs = Some now' /\ commits (plOperations plan) (tree s) now'
  | Err _ => no_binary (tree s) -> apply_hunks w (tree s) hs = None
  end.
Proof.
  assert (Ho : overlay_ok s ∅ (tree s)) by (intros q; by rewrite lookup_empty).
  pose proof (planHunks_spec s w hs ∅ plan0 (tree s) Ho) as Hs. unfold buildApplyPatchPlan.
  destruct (planHunks s w hs (∅, plan0)) as [[files p]|]; cbn [rbind snd]; [|done].
  destruct Hs as (now' & ops & Ha & Hp & Hc). exists now'. by rewrite Hp.
Qed.
End refinement.

(** C2: the tool implements its patch.  On a file system that behaves as a map
    from paths to files, running the tool either leaves the map that applying
    the hunks one after another gives - an addition where nothing was, a
    deletion of a file, an update of what the earlier hunks left, a move - or
    fails before anything is written: a plan that was accepted never fails
    half way.  And it accepts every patch whose hunks can be applied, when no
    file on disk is binary and the hook allows it. *)
Theorem apply_patch_refines {U : Unicode} {S : Type} `{PatchFSLaws S} hook w patch (s : S) :
  match execApplyPatch hook w patch s with
  | Ok (s', plan) => exists hunks, parseApplyPatch patch = Ok hunks /\ hunks <> [] /\
      buildApplyPatchPlan s w hunks = Ok plan /\ hook plan = true /\
      apply_hunks w (tree s) hunks = Some (tree s')
  | Err e => (forall fe, e <> CommitFailed fe) /\
      (forall pe hunks, e = PlanFailed pe -> parseApplyPatch patch = Ok hunks -> no_binary (tree s) ->
        apply_hunks w (tree s) hunks = None)
  end.
Proof.
  unfold execApplyPatch. destruct (is_empty (trim_space patch)); [done|].
  destruct (parseApplyPatch patch) as [hunks|] eqn:Ep; cbn [map_err rbind]; [|done].
  destruct (bool_decide (length hunks = 0%nat)) eqn:Eh; str_hyps; [done|].
  pose proof (buildPlan_spec s w hunks) as Hb.
  destruct (buildApplyPatchPlan s w hunks) as [plan|] eqn:El; cbn [map_err rbind].
  - destruct (hook plan) eqn:Ek; cbn [negb]; [|done]. destruct Hb as (now' & Ha & Hc).
    destruct (Hc s eq_refl) as (s' & -> & Ht). cbn [map_err rbind]. exists hunks. rewrite Ht. split_and!; try done.
    by destruct hunks.
  - split; [done|]. intros pe hunks' [= <-] [= <-]. exact Hb.
Qed.

(** ** Concrete files *)
Section examples.
#[local] Instance tables : Unicode := ascii_unicode.
Definition three : str := text ["a"; "b "; "c"; ""]%string.
Definition sample_chunks : list Chunk := [mkChunk (Some (lit "a")) [lit "b"] [lit "B"; lit "b2"] false; mkChunk None [] [lit "d"] false].
Example derive_example : deriveApplyPatchContent three sample_chunks = Ok (text ["a"; "B"; "b2"; "c"; "d"; ""]%string).
Proof. vm_compute. reflexivity. Qed.
Definition sample_tree : gmap str Node :=
  list_to_map [(lit "b.txt", File three); (lit "old", File (lit "x")); (lit "dir", Dir)].
Definition root_workspace : toolWorkspace := mkToolWorkspace (lit "/data") [] false.
Definition sample_patch : str := text ["*** Begin Patch"; "*** Update File: /data/b.txt"; "*** Move to: n/c.txt"; "@@ a";
  "-b"; "+B"; "*** Add File: b.txt"; "+new"; "*** Delete File: old"; "*** End Patch"]%string.
Example exec_example :
  match execApplyPatch (fun _ => true) root_workspace sample_patch sample_tree with
  | Ok (s', p) => (map_to_list s', plAdded p, plModified p, plDeleted p) =
      (map_to_list (list_to_map [(lit "n/c.txt", File (text ["a"; "B"; "c"; ""]%string));
         (lit "b.txt", File (text ["new"; ""]%string)); (lit "dir", Dir)] : gmap str Node), [lit "b.txt"], [lit "b.txt"], [lit "old"])
  | Err _ => False
  end.
Proof. vm_compute. reflexivity. Qed.

Lemma seek_finds_first_witness :
  found_by matchers (file_lines three) [lit "b"] 0 2 1.
Proof.
  assert (H : [lit "b"] <> []) by discriminate.
  exact (proj2 (seek_finds_first (file_lines three) [lit "b"] 0 false H)).
Defined.
Lemma update_is_a_splice_witness :
  exists rs, placed (file_lines three) 0 sample_chunks rs /\ apart 0 (file_lines three) rs.
Proof.
  destruct (update_is_a_splice three sample_chunks _ derive_example) as (rs & Hp & Ha & _). exists rs. split; [exact Hp|].
  apply Ha. repeat constructor.
Defined.
Lemma apply_patch_refines_witness :
  exists hunks m', parseApplyPatch sample_patch = Ok hunks /\ apply_hunks root_workspace sample_tree hunks = Some m'.
Proof.
  pose proof (apply_patch_refines (fun _ => true) root_workspace sample_patch sample_tree) as H.
  destruct (execApplyPatch (fun _ => true) root_workspace sample_patch sample_tree) as [[s' p]|e] eqn:E.
  - destruct H as (hunks & Hp & _ & _ & _ & Ha). exists hunks, (tree s'). split; [exact Hp|exact Ha].
  - exfalso. apply (f_equal is_ok) in E. vm_compute in E. discriminate.
Defined.
End examples.

Definition overlapping : str := text ["*** Begin Patch"; "*** Update File: f"; "@@"; "-b"; "+first"; "@@"; "-b"; "+second";
  "*** End of File"; "*** End Patch"]%string.
(** with an end-of-file marker the search starts at the end of the file
    and not after the chunk before it, so two chunks can be placed over the
    same line: the update succeeds, the later replacement is made first and
    the earlier one overwrites what it wrote.  The text "second" is lost. *)
Theorem eof_chunk_can_overlap :
  (exists hunks, parseApplyPatch overlapping = Ok hunks /\
     ((fun h => deriveApplyPatchContent (text ["a"; "b"; ""]%string) (hkChunks h)) <$> hunks)
       = [Ok (text ["a"; "first"; ""]%string)]) /\
  computeApplyPatchReplacements [lit "a"; lit "b"] [mkChunk None [lit "b"] [lit "first"] false; mkChunk None [lit "b"] [lit "second"] true]
    = Ok [mkReplacement 1 1 [lit "first"]; mkReplacement 1 1 [lit "second"]].
Proof.
  split; [|vm_compute; reflexivity].
  exists [mkHunk HunkUpdate (lit "f") [] [] [mkChunk None [lit "b"] [lit "first"] false; mkChunk None [lit "b"] [lit "second"] true]].
  split; vm_compute; reflexivity.
Qed.
