(* ===== verification/PatchApproval.v ===== *)
(** * The approval policy and the patch tool

    The policy ([internal/agent/decision/approval/policy.go]) looks for the
    paths of a patch in its text with a scan of its own; the tool
    ([internal/agent/tool/apply_patch.go]) acts on the paths its parser finds.
    This file relates the two readings of one patch. *)

From S2P Require Import Prelude GoStr GoPath GoTrim Approval ToolPath ApplyPatch.
#[local] Open Scope Z_scope.

Definition fileMarkers : list str := [AddMarker; DeleteMarker; UpdateMarker].
(** Every file header of the text stands at the start of its line. *)
Definition headers_flush (patch : str) : Prop :=
  forall line m, line ∈ split_byte nl patch -> m ∈ fileMarkers ->
    has_prefix (trim_space line) m = true -> has_prefix line m = true.
(** A path the policy's scan of the lines finds. *)
Definition scanned (lines : list str) (p : str) : Prop :=
  exists line path, line ∈ lines /\ patchLinePath patchPrefixes line = Some path /\ p = trim_space path /\ p <> [].
Definition hunk_scanned (lines : list str) (h : Hunk) : Prop :=
  scanned lines (hkPath h) /\ (hkMovePath h <> [] -> scanned lines (hkMovePath h)).

Lemma scan_marker m rest : m ∈ fileMarkers \/ m = MoveMarker -> patchLinePath patchPrefixes (m ++ rest) = Some rest.
Proof.
  assert (Hm : forall q, cut_prefix (q ++ rest) q = Some rest) by (intros q; by apply cut_prefix_Some).
  assert (Hstep : forall a l s, patchLinePath (a :: l) s =
    match cut_prefix s a with Some path => Some path | None => patchLinePath l s end) by done.
  intros [Hin| ->]; [unfold fileMarkers in Hin; repeat (apply elem_of_cons in Hin as [-> | Hin]);
    [| | |by apply not_elem_of_nil in Hin]|]; unfold patchPrefixes, AddMarker, DeleteMarker, UpdateMarker, MoveMarker;
    rewrite !Hstep;
    repeat match goal with |- context [cut_prefix ?s ?p] =>
      first [rewrite (Hm p) | change (cut_prefix s p) with (@None str)]; cbv iota end; reflexivity.
Qed.
Lemma trim_space_cr raw : trim_space (trim_suffix raw [cr]) = trim_space raw.
Proof.
  unfold trim_suffix. destruct (has_suffix raw [cr]) eqn:E; [|done]. apply has_suffix_spec in E as [r ->].
  rewrite length_app. replace (length r + length [cr] - length [cr])%nat with (length r) by (simpl; lia).
  rewrite take_app_length. by rewrite trim_space_app_spaces by (repeat constructor).
Qed.
Lemma suffix_cr_split raw : exists w, raw = trim_suffix raw [cr] ++ w /\ Forall ascii_space w.
Proof.
  unfold trim_suffix. destruct (has_suffix raw [cr]) eqn:E; [|exists []; by rewrite app_nil_r].
  apply has_suffix_spec in E as [r ->]. exists [cr].
  rewrite length_app. replace (length r + length [cr] - length [cr])%nat with (length r) by (simpl; lia).
  rewrite take_app_length. by repeat constructor.
Qed.
Lemma trim_right_split line : exists w, line = trim_right line ws ++ w /\ Forall ascii_space w.
Proof.
  unfold trim_right. destruct (drop_while_end_split (in_cutset ws) line) as (k & Hk & Hks & _). exists k. split; [done|].
  eapply Forall_impl; [exact Hks|]. intros c Hin. unfold in_cutset in Hin. str_hyps.
  apply elem_of_cons in Hin as [-> | Hin]; [done|]. apply elem_of_cons in Hin as [-> | Hin]; [done|].
  by apply not_elem_of_nil in Hin.
Qed.
(** The path read from a trimmed header is the one the scan finds. *)
Lemma header_scanned lines raw m : raw ∈ lines -> m ∈ fileMarkers -> has_prefix raw m = true ->
  has_prefix (trim_space raw) m = true -> trim_space (trim_prefix (trim_space raw) m) <> [] ->
  scanned lines (trim_space (trim_prefix (trim_space raw) m)).
Proof.
  intros Hin Hm Hp Ht Hne. apply has_prefix_spec in Hp as [rest ->].
  exists (m ++ rest), rest. split_and!; [done|by apply scan_marker; left| |done].
  assert (Hmk : exists c m', m = c :: m' /\ Forall (fun c => byte_val c < 128) (c :: m') /\ is_space (byte_val c) = false /\
    has_prefix (trim_space m) m = false).
  { unfold fileMarkers in Hm. repeat (apply elem_of_cons in Hm as [-> | Hm]); [| | |by apply not_elem_of_nil in Hm];
      (eexists _, _; split; [reflexivity|]; split; [repeat constructor|done]). }
  destruct Hmk as (c & m' & -> & Ha & Hc & Hno). cbn [app] in *.
  destruct (decide (trim_space rest = [])) as [Hb|Hb].
  { rewrite (trim_space_lead_blank _ _ _ Ha Hc Hb) in Ht. congruence. }
  destruct (trim_space_app_lead m' c rest Ha Hc Hb) as [-> Hr].
  change (c :: m' ++ trim_space_right rest) with ((c :: m') ++ trim_space_right rest).
  unfold trim_prefix. by rewrite (proj2 (cut_prefix_Some _ (c :: m') (trim_space_right rest)) eq_refl).
Qed.
Lemma move_scanned lines raw r : raw ∈ lines -> trim_right (trim_suffix raw [cr]) ws = MoveMarker ++ r ->
  trim_space r <> [] -> scanned lines (trim_space r).
Proof.
  intros Hin Hu Hne. destruct (suffix_cr_split raw) as (w1 & Hw1 & Hs1).
  destruct (trim_right_split (trim_suffix raw [cr])) as (w2 & Hw2 & Hs2). rewrite Hu in Hw2. rewrite Hw2, <- !app_assoc in Hw1.
  exists raw, (r ++ w2 ++ w1). split_and!; [done| | |done].
  - rewrite Hw1. apply scan_marker. by right.
  - by rewrite trim_space_app_spaces by (by apply Forall_app).
Qed.
Lemma updateLine_paths h line u n h' : parseApplyPatchUpdateLine h line u n = Ok h' ->
  hkPath h' = hkPath h /\ (hkMovePath h' = hkMovePath h \/ exists r, u = MoveMarker ++ r /\ hkMovePath h' = trim_space r).
Proof.
  unfold parseApplyPatchUpdateLine. case_if; [intros [= <-]; auto|]. case_if; [done|].
  destruct (str_eqb u MoveMarker || has_prefix u MoveMarker) eqn:Em.
  { destruct (negb _ || _); [done|]. destruct (is_empty (trim_space _)); [done|]. intros [= <-]. split; [done|]. right.
    apply orb_true_iff in Em as [Em|Em]; str_hyps; [subst; exists []; by rewrite app_nil_r|].
    apply has_prefix_spec in Em as [r ->]. exists r. split; [done|]. cbn [hkMovePath].
    unfold trim_prefix. by rewrite (proj2 (cut_prefix_Some _ MoveMarker r) eq_refl). }
  destruct (is_context u); [case_if; [done|]; intros [= <-]; auto|].
  destruct (str_eqb u EOFMarker).
  { destruct (last (hkChunks h)); [|done]. case_if; [done|]. intros [= <-]. auto. }
  unfold addLine. repeat match goal with
  | |- context [match ?x with [] => _ | _ :: _ => _ end] => destruct x
  | |- Ok _ = Ok _ -> _ => intros [= <-]; by auto
  | |- (if ?b then _ else _) = _ -> _ => by destruct b
  | |- context [match ?x with Ascii _ _ _ _ _ _ _ _ => _ end] => destruct x
  | |- context [match ?x with true => _ | false => _ end] => destruct x
  end.
Qed.
Lemma header_is trimmed n mode u hunks k path : parseApplyPatchHeader trimmed n mode u hunks = Ok (Some (k, path)) ->
  exists m, m ∈ fileMarkers /\ has_prefix trimmed m = true /\ path = trim_space (trim_prefix trimmed m) /\ path <> [].
Proof.
  intros Hh. destruct (header_ok _ _ _ _ _ _ _ Hh) as (Hne & _ & _). unfold parseApplyPatchHeader in Hh.
  unfold fileMarkers.
  destruct (has_prefix trimmed AddMarker) eqn:E1; [|destruct (has_prefix trimmed DeleteMarker) eqn:E2;
    [|destruct (has_prefix trimmed UpdateMarker) eqn:E3; [|done]]];
    (destruct (is_empty _); [done|]; destruct (ensureApplyPatchUpdateHunkComplete _ _ _ _) as [[]|];
     cbn [rbind] in Hh; [|done]; injection Hh as <- <-).
  - exists AddMarker. split_and!; [by left|done|done|done].
  - exists DeleteMarker. split_and!; [by right; left|done|done|done].
  - exists UpdateMarker. split_and!; [by right; right; left|done|done|done].
Qed.

Section scanning.
Context (lines : list str).
Context (Hflush : forall line m, line ∈ lines -> m ∈ fileMarkers ->
  has_prefix (trim_space line) m = true -> has_prefix line m = true).

Lemma last_hunk_scanned hunks h h' : Forall (hunk_scanned lines) hunks -> last hunks = Some h ->
  (hunk_scanned lines h -> hunk_scanned lines h') -> Forall (hunk_scanned lines) (update_last h' hunks).
Proof.
  intros Hf Hl Hh. apply last_split in Hl as [f ->]. rewrite update_last_app. apply Forall_app in Hf as [Hf Hf1].
  apply Forall_cons in Hf1 as [H1 _]. apply Forall_app. split; [done|]. constructor; [by apply Hh|constructor].
Qed.
Lemma parseLine_scanned n raw st st' : raw ∈ lines -> state_ok st -> parseLine n raw st = Ok st' ->
  Forall (hunk_scanned lines) (stHunks st) -> Forall (hunk_scanned lines) (stHunks st').
Proof using Hflush.
  intros Hin Hok. unfold parseLine. set (line := trim_suffix raw [cr]).
  match goal with |- rbind ?x _ = _ -> _ => destruct x as [[[k path]|]|] eqn:Eh end; cbn [rbind]; [| |done].
  - destruct (is_update _ && _); [done|]. apply header_is in Eh as (m & Hm & Hp & -> & Hne). intros [= <-] Hf. simpl.
    apply Forall_app. split; [done|]. constructor; [|constructor]. split; [|done]. simpl.
    subst line. rewrite trim_space_cr in *. apply header_scanned; try done. by apply Hflush.
  - destruct (stMode st) as [|[]]; try (intros [=]; fail);
      destruct (last (stHunks st)) as [h|] eqn:El; try (intros [=]; fail).
    + destruct (cut_prefix line (lit "+")); [|done]. intros [= <-] Hf. by eapply last_hunk_scanned.
    + destruct (parseApplyPatchUpdateLine _ _ _ _) as [h'|] eqn:Eu; cbn [rbind]; [|done]. intros [= <-] Hf.
      destruct (updateLine_paths _ _ _ _ _ Eu) as [Hp Hmv]. eapply last_hunk_scanned; [exact Hf|exact El|].
      intros [H1 H2]. split; [by rewrite Hp|]. destruct Hmv as [->|(r & Hu & Hmv)]; [done|]. rewrite Hmv. intros Hne.
      by eapply move_scanned.
Qed.
Lemma parseLines_scanned ls n st st' : (forall l, l ∈ ls -> l ∈ lines) -> state_ok st -> parseLines n ls st = Ok st' ->
  Forall (hunk_scanned lines) (stHunks st) -> Forall (hunk_scanned lines) (stHunks st').
Proof using Hflush.
  revert n st. induction ls as [|l ls IH]; intros n st Hsub Hok; simpl; [by intros [= <-]|].
  destruct (parseLine n l st) as [st1|] eqn:E; simpl; [|done]. intros Hr Hf.
  eapply IH; [|by eapply parseLine_ok|exact Hr|].
  - intros l' Hl'. apply Hsub. by right.
  - eapply parseLine_scanned; [|exact Hok|exact E|exact Hf]. apply Hsub. by left.
Qed.
End scanning.
Lemma inner_sub (l : list str) x : x ∈ inner l -> x ∈ l.
Proof.
  unfold inner. destruct l as [|a l]; [by intros ?%not_elem_of_nil|]. cbn [tail].
  destruct l as [|b l _] using rev_ind; [by intros ?%not_elem_of_nil|].
  rewrite removelast_last. set_solver.
Qed.

(** C22: the two readings of a patch agree, as far as the policy needs.  When
    every file header stands at the start of its line, each path the tool
    will act on - of an addition, a deletion, an update, or the target of a
    move - is among the paths the policy reviews. *)
Theorem patch_paths_reviewed {U : Unicode} args raw hunks :
  lookup_arg args (lit "patch") = Some (AString raw) ->
  headers_flush (trim_space raw) -> parseApplyPatch raw = Ok hunks ->
  forall h, h ∈ hunks ->
    hkPath h ∈ applyPatchPaths (readString args (lit "patch")) /\
    (hkMovePath h <> [] -> hkMovePath h ∈ applyPatchPaths (readString args (lit "patch"))).
Proof.
  intros Ha Hflush Hparse h Hh. unfold readString. rewrite Ha. set (lines := split_byte nl (trim_space raw)).
  assert (Hs : forall p, scanned lines p -> p ∈ applyPatchPaths (trim_space raw)).
  { intros p Hp. by apply elem_of_applyPatchPaths. }
  cut (Forall (hunk_scanned lines) hunks).
  { intros Hf. rewrite Forall_forall in Hf. destruct (Hf h Hh) as [H1 H2]. split; auto. }
  clear h Hh. unfold parseApplyPatch in Hparse.
  assert (Hsub : forall l, l ∈ inner (stripLenientHeredoc (splitPatchLines raw)) -> l ∈ lines).
  { assert (Hsplit : forall l, l ∈ splitPatchLines raw -> l ∈ lines).
    { intros l. unfold splitPatchLines. case_if; [|done]. by intros ?%not_elem_of_nil. }
    intros l Hl%inner_sub. apply Hsplit. unfold stripLenientHeredoc in Hl.
    repeat (case_if; [try done; by apply inner_sub|]). done. }
  repeat (case_if; [done|]). destruct (parseLines _ _ _) as [st|] eqn:E; cbn [rbind] in Hparse; [|done].
  destruct (ensureApplyPatchUpdateHunkComplete _ _ _ _) as [[]|]; cbn [rbind] in Hparse; [|done]. injection Hparse as <-.
  eapply parseLines_scanned; [exact Hflush|exact Hsub| |exact E|constructor]. done.
Qed.

Definition headers_flushb (patch : str) : bool :=
  forallb (fun line => forallb (fun m => implb (has_prefix (trim_space line) m) (has_prefix line m)) fileMarkers)
    (split_byte nl patch).
Lemma headers_flushb_ok patch : headers_flushb patch = true -> headers_flush patch.
Proof.
  unfold headers_flushb. rewrite forallb_forall. intros H line m Hl%list_elem_of_In Hm%list_elem_of_In Hp.
  specialize (H line Hl). rewrite forallb_forall in H. specialize (H m Hm). by rewrite Hp in H.
Qed.

Section examples.
#[local] Instance tables : Unicode := ascii_unicode.
Definition patch_call (patch : str) : arguments := [(lit "patch", AString patch)].
Definition moving : str := text ["*** Begin Patch"; "*** Update File: a"; "*** Move to: /etc/b "; "@@"; "+x"; "*** End Patch"]%string.
Definition moving_hunk : Hunk := mkHunk HunkUpdate (lit "a") (lit "/etc/b") [] [mkChunk None [] [lit "x"] false].
Lemma patch_paths_reviewed_witness :
  lit "/etc/b" ∈ applyPatchPaths (readString (patch_call moving) (lit "patch")).
Proof.
  assert (Hp : parseApplyPatch moving = Ok [moving_hunk]) by (vm_compute; reflexivity).
  assert (Hf : headers_flush (trim_space moving)) by (apply headers_flushb_ok; vm_compute; reflexivity).
  assert (Hin : moving_hunk ∈ [moving_hunk]) by left.
  destruct (patch_paths_reviewed (patch_call moving) moving [moving_hunk] eq_refl Hf Hp moving_hunk Hin) as [_ H].
  apply H. discriminate.
Defined.

Definition indented : str := text ["*** Begin Patch"; "*** Add File: /data/a"; "+x"; " *** Delete File: /etc/passwd"; "*** End Patch"]%string.
(** the parser trims a line before it looks for a file header, and the
    policy's scan does not.  Outside an update hunk a header with a space in
    front of it is acted on and not reviewed: under a policy that asks for
    every write outside /data, this patch is let through, and the tool
    deletes /etc/passwd.  Without the space the policy asks. *)
Theorem indented_header_evades_review :
  policyDecision ask_write (lit "apply_patch") (patch_call indented) = DecisionBypass /\
  parseApplyPatch indented = Ok [mkHunk HunkAdd (lit "/data/a") [] (text ["x"; ""]%string) [];
                                 mkHunk HunkDelete (lit "/etc/passwd") [] [] []] /\
  normalizeApplyPatchPath (lit "/etc/passwd") linux_workspace = Ok (lit "/etc/passwd") /\
  policyDecision ask_write (lit "apply_patch") (patch_call (text ["*** Begin Patch"; "*** Delete File: /etc/passwd"; "*** End Patch"]%string))
    = DecisionNeedsApproval.
Proof. split_and!; vm_compute; reflexivity. Qed.
End examples.
