(* ===== verification/LoopGuard.v ===== *)
(** * Loop detection

    Models [internal/agent/runtime/native/sential.go] and [guard_state.go]:
    the n-gram detector that finds a model repeating its own text, the buffer
    that cuts streamed text into the chunks it inspects, the guard that warns
    about and then stops repeated identical tool calls, and the two small
    registries the run keeps of its tool calls.  The digest (SHA-256) of a
    call is a parameter. *)

From S2P Require Import Prelude GoStr ToolOutput.
#[local] Open Scope Z_scope.

(** ** The n-gram detector *)
(** A threshold is a fraction; the code's default, the only one its callers
    use, is 0.75. *)
Record fraction : Type := mkFraction { fracNum : Z; fracDen : Z }.
Record SentialOptions : Type := mkSentialOptions { soNgramSize : Z; soWindowSize : Z; soThreshold : fraction }.
Definition defaultNgramSize : Z := 10.
Definition defaultWindowSize : Z := 1000.
Definition defaultOverlapThreshold : fraction := mkFraction 3 4.
Definition defaultConsecutiveHits : Z := 10.
Definition defaultMinNewGramsPerChunk : Z := 1.

Record Sential : Type := mkSential {
  ngramSize : nat; windowSize : nat; overlapThreshold : fraction;
  windowChars : list Z; windowNgramQueue : list str; historySet : gset str; historyCounts : gmap str Z }.
Record SentialResult : Type := mkSentialResult { srHit : bool; srMatchedGrams : Z; srNewGrams : Z }.
Definition positive_or (n d : Z) : Z := if n <=? 0 then d else n.
Definition NewSential (o : SentialOptions) : Sential :=
  mkSential (Z.to_nat (positive_or (soNgramSize o) defaultNgramSize))
    (Z.to_nat (positive_or (soWindowSize o) defaultWindowSize))
    (if fracNum (soThreshold o) <=? 0 then defaultOverlapThreshold else soThreshold o) [] [] ∅ ∅.

(** The two history fields together. *)
Definition history : Type := gset str * gmap str Z.
Definition gram_count (counts : gmap str Z) (gram : str) : Z := default 0 (counts !! gram).
Definition addHistoryGram (gram : str) (h : history) : history :=
  let counts := <[gram := gram_count h.2 gram + 1]> h.2 in
  (if gram_count counts gram =? 1 then {[gram]} ∪ h.1 else h.1, counts).
Definition removeHistoryGram (gram : str) (h : history) : history :=
  let count := gram_count h.2 gram in
  if count <=? 1 then (h.1 ∖ {[gram]}, delete gram h.2) else (h.1, <[gram := count - 1]> h.2).
Definition pushWindowChar (s : Sential) (ch : Z) : Sential :=
  let chars := windowChars s ++ [ch] in
  let '(queue, h) :=
    if (ngramSize s <=? length chars)%nat then
      let gram := encode (drop (length chars - ngramSize s) chars) in
      (windowNgramQueue s ++ [gram], addHistoryGram gram (historySet s, historyCounts s))
    else (windowNgramQueue s, (historySet s, historyCounts s)) in
  if (length chars <=? windowSize s)%nat
  then mkSential (ngramSize s) (windowSize s) (overlapThreshold s) chars queue h.1 h.2
  else
    let '(queue, h) := match queue with
                       | [] => ([], h)
                       | removed :: rest => (rest, removeHistoryGram removed h)
                       end in
    mkSential (ngramSize s) (windowSize s) (overlapThreshold s) (drop 1 chars) queue h.1 h.2.
(** The grams of a text, in order. *)
Fixpoint grams (n : nat) (l : list Z) : list str :=
  match l with
  | [] => []
  | _ :: r => if (n <=? length l)%nat then encode (take n l) :: grams n r else []
  end.
(** [overlap > threshold], as integers. *)
Definition exceeds (matched new : Z) (t : fraction) : bool := fracNum t * new <? matched * fracDen t.
Definition Sential_Inspect (s : Sential) (text : str) : Sential * SentialResult :=
  let incoming := runes text in
  if bool_decide (incoming = []) then (s, mkSentialResult false 0 0)
  else
    let contextSize := (ngramSize s - 1)%nat in
    let contextChars := drop (length (windowChars s) - contextSize) (windowChars s) in
    let candidate := contextChars ++ incoming in
    (* every gram of the candidate that ends in the incoming text *)
    let new := imap (fun i g => (i, g)) (grams (ngramSize s) candidate) in
    let new := List.filter (fun ig => (length contextChars <=? ig.1 + ngramSize s - 1)%nat) new in
    let matchedGrams := countb (fun ig => bool_decide (ig.2 ∈ historySet s)) new in
    let newGrams := length new in
    (fold_left pushWindowChar incoming s,
     mkSentialResult ((0 <? newGrams)%nat && exceeds (Z.of_nat matchedGrams) (Z.of_nat newGrams) (overlapThreshold s))
       (Z.of_nat matchedGrams) (Z.of_nat newGrams)).
Definition Sential_Reset (s : Sential) : Sential :=
  mkSential (ngramSize s) (windowSize s) (overlapThreshold s) [] [] ∅ ∅.

(** ** The text guard *)
Record TextLoopGuard : Type := mkTextLoopGuard {
  sential : Sential; consecutiveHitsToAbort : Z; minNewGramsPerChunk : Z; streak : Z }.
Record TextLoopGuardResult : Type := mkTextLoopGuardResult { tgResult : SentialResult; tgStreak : Z; tgAbort : bool }.
Definition NewTextLoopGuard (consecutiveHits minNewGrams : Z) (o : SentialOptions) : TextLoopGuard :=
  mkTextLoopGuard (NewSential o) (positive_or consecutiveHits defaultConsecutiveHits)
    (positive_or minNewGrams defaultMinNewGramsPerChunk) 0.
Definition TextLoopGuard_Inspect (g : TextLoopGuard) (text : str) : TextLoopGuard * TextLoopGuardResult :=
  let '(s, r) := Sential_Inspect (sential g) text in
  let streak := if minNewGramsPerChunk g <=? srNewGrams r then (if srHit r then streak g + 1 else 0) else streak g in
  (mkTextLoopGuard s (consecutiveHitsToAbort g) (minNewGramsPerChunk g) streak,
   mkTextLoopGuardResult r streak (consecutiveHitsToAbort g <=? streak)).
Definition TextLoopGuard_Reset (g : TextLoopGuard) : TextLoopGuard :=
  mkTextLoopGuard (Sential_Reset (sential g)) (consecutiveHitsToAbort g) (minNewGramsPerChunk g) 0.

(** ** The probe buffer *)
Definition LoopDetectedProbeChars : Z := 256.
Record TextLoopProbeBuffer : Type := mkProbe { chunkSize : nat; chars : list Z; offset : nat }.
Definition NewTextLoopProbeBuffer (size : Z) : TextLoopProbeBuffer :=
  mkProbe (Z.to_nat (positive_or size LoopDetectedProbeChars)) [] 0.
(** The loop of [Push]: the buffer and the chunks handed to the inspector. *)
Fixpoint pushLoop (fuel : nat) (size : nat) (chars : list Z) (offset : nat) : option (nat * list str) :=
  if (length chars - offset <? size)%nat then Some (offset, [])
  else match fuel with
  | O => None
  | S fuel =>
      match pushLoop fuel size chars (offset + size) with
      | Some (offset', out) => Some (offset', encode (take size (drop offset chars)) :: out)
      | None => None
      end
  end.
Definition Push (b : TextLoopProbeBuffer) (text : str) : option (TextLoopProbeBuffer * list str) :=
  if is_empty text then Some (b, [])
  else
    let cs := chars b ++ runes text in
    match pushLoop (length cs) (chunkSize b) cs (offset b) with
    | None => None
    | Some (off, out) =>
        Some (if (chunkSize b <=? off)%nat then mkProbe (chunkSize b) (drop off cs) 0
              else mkProbe (chunkSize b) cs off, out)
    end.
Definition Flush (b : TextLoopProbeBuffer) : TextLoopProbeBuffer * list str :=
  let rest := drop (offset b) (chars b) in
  (mkProbe (chunkSize b) [] 0, if bool_decide (rest = []) then [] else [encode rest]).

(** ** The tool guard *)
Section with_unicode.
Context {U : Unicode}.
Definition normalizeKeyName (key : str) : str :=
  encode (List.filter (fun r => is_letter r || is_digit r) (runes (trim_space (to_lower key)))).
Definition defaultVolatileKeys : list str :=
  [lit "toolcallid"; lit "requestid"; lit "traceid"; lit "spanid"; lit "sessionid"; lit "timestamp"; lit "createdat";
   lit "updatedat"; lit "expiresat"; lit "nonce"].
Definition volatileKeySuffixes : list str :=
  [lit "requestid"; lit "traceid"; lit "sessionid"; lit "toolcallid"; lit "timestamp"; lit "createdat"; lit "updatedat";
   lit "expiresat"].
Definition isVolatileKey (key : str) (volatileSet : gset str) : bool :=
  let normalized := normalizeKeyName key in
  if is_empty normalized then false
  else bool_decide (normalized ∈ volatileSet) || existsb (has_suffix normalized) volatileKeySuffixes.

(** A decoded JSON argument; a map is listed by increasing keys.  A float is
    given by its encoding, any other value by what [%v] prints. *)
Inductive json : Type :=
  | JNull | JString (s : str) | JBool (b : bool) | JFloat (encoding : str) | JNumber (digits : str)
  | JList (l : list json) | JMap (l : list (str * json)) | JOther (printed : str).
Definition is_null (v : json) : bool := match v with JNull => true | _ => false end.
Fixpoint normalizeToolLoopValue (volatileSet : gset str) (v : json) : json :=
  match v with
  | JNumber digits => JString digits
  | JOther printed => JString printed
  | JList l => JList (map (normalizeToolLoopValue volatileSet) l)
  | JMap l =>
      JMap (flat_map (fun kv => if isVolatileKey kv.1 volatileSet then []
                                else let v := normalizeToolLoopValue volatileSet kv.2 in
                                     if is_null v then [] else [(kv.1, v)]) l)
  | _ => v
  end.
Fixpoint marshal (v : json) : str :=
  match v with
  | JNull => lit "null"
  | JString s | JNumber s | JOther s => json_string s
  | JBool b => if b then lit "true" else lit "false"
  | JFloat e => e
  | JList l => json_list false (map marshal l)
  | JMap l => json_map false (map (fun kv => (kv.1, marshal kv.2)) l)
  end.
Record ToolLoopInput : Type := mkToolLoopInput { tliToolName : str; tliInput : json }.
(** What [computeToolLoopHash] hashes; the keys of its payload are in order. *)
Definition toolLoopPayload (input : ToolLoopInput) (volatileSet : gset str) : str :=
  marshal (JMap [(lit "input", normalizeToolLoopValue volatileSet (tliInput input));
                 (lit "toolName", JString (trim_space (tliToolName input)))]).
Definition computeToolLoopHash (sha256 : str -> str) (input : ToolLoopInput) (volatileSet : gset str) : str :=
  sha256 (toolLoopPayload input volatileSet).

Definition ToolLoopRepeatThreshold : Z := 5.
Definition ToolLoopWarningsBeforeAbort : Z := 1.
Record ToolLoopGuard : Type := mkToolLoopGuard {
  repeatThreshold : Z; warningsBeforeAbort : Z; volatileKeySet : gset str;
  lastHash : str; repeatCount : Z; breachCount : Z; breachHash : str }.
Record ToolLoopResult : Type := mkToolLoopResult {
  trHash : str; trRepeatCount : Z; trBreachCount : Z; trWarn : bool; trAbort : bool }.
Definition NewToolLoopGuard (threshold warnings : Z) : ToolLoopGuard :=
  mkToolLoopGuard (positive_or threshold ToolLoopRepeatThreshold) (positive_or warnings ToolLoopWarningsBeforeAbort)
    (list_to_set (normalizeKeyName <$> defaultVolatileKeys)) [] 0 0 [].
(** [Inspect] once the hash is known. *)
Definition inspectHash (g : ToolLoopGuard) (hash : str) : ToolLoopGuard * ToolLoopResult :=
  let repeat := if str_eqb hash (lastHash g) then repeatCount g + 1 else 1 in
  let breach := if str_eqb (breachHash g) hash then breachCount g else 0 in
  let mk lastHash repeat breach :=
    mkToolLoopGuard (repeatThreshold g) (warningsBeforeAbort g) (volatileKeySet g) lastHash repeat breach hash in
  if repeatThreshold g <? repeat then
    if breach <? warningsBeforeAbort g
    then (mk [] 0 (breach + 1), mkToolLoopResult hash 0 (breach + 1) true false)
    else (mk hash repeat (breach + 1), mkToolLoopResult hash repeat (breach + 1) false true)
  else (mk hash repeat breach, mkToolLoopResult hash repeat breach false false).
Definition ToolLoopGuard_Inspect (sha256 : str -> str) (g : ToolLoopGuard) (input : ToolLoopInput) :
    ToolLoopGuard * ToolLoopResult :=
  inspectHash g (computeToolLoopHash sha256 input (volatileKeySet g)).
Definition ToolLoopGuard_Reset (g : ToolLoopGuard) : ToolLoopGuard :=
  mkToolLoopGuard (repeatThreshold g) (warningsBeforeAbort g) (volatileKeySet g) [] 0 0 [].
Definition Guard (sha256 : str -> str) (g : ToolLoopGuard) (toolName : str) (input : json) : ToolLoopGuard * (bool * bool) :=
  let '(g, r) := ToolLoopGuard_Inspect sha256 g (mkToolLoopInput toolName input) in (g, (trWarn r, trAbort r)).
End with_unicode.

(** ** The registries of a run *)
Definition toolAbortRegistry : Type := gset str.
Definition registry_Add (r : toolAbortRegistry) (toolCallID : str) : toolAbortRegistry :=
  if is_empty toolCallID then r else {[toolCallID]} ∪ r.
Definition registry_Take (r : toolAbortRegistry) (toolCallID : str) : toolAbortRegistry * bool :=
  if is_empty toolCallID then (r, false)
  else if bool_decide (toolCallID ∈ r) then (r ∖ {[toolCallID]}, true) else (r, false).
Definition registry_Any (r : toolAbortRegistry) : bool := (0 <? size r)%nat.
Record toolEventCollector (E : Type) : Type := mkCollector { tcClosed : bool; tcEvents : list E }.
Arguments mkCollector {E}. Arguments tcClosed {E}. Arguments tcEvents {E}.
Definition collector_Add {E} (c : toolEventCollector E) (evt : E) : toolEventCollector E * bool :=
  if tcClosed c then (c, false) else (mkCollector false (tcEvents c ++ [evt]), true).
Definition collector_Close {E} (c : toolEventCollector E) : toolEventCollector E := mkCollector true (tcEvents c).
Definition CloseAndSnapshot {E} (c : toolEventCollector E) : toolEventCollector E * list E :=
  (mkCollector true (tcEvents c), tcEvents c).
Definition collector_Snapshot {E} (c : toolEventCollector E) : list E := tcEvents c.

(** ** The detector's window *)
Definition is_gram (g g' : str) : bool := str_eqb g' g.
(** The history fields count the grams of the window. *)
Definition history_ok (queue : list str) (h : history) : Prop :=
  forall g, h.2 !! g = (if (countb (is_gram g) queue =? 0)%nat then None else Some (Z.of_nat (countb (is_gram g) queue))) /\
            (g ∈ h.1 <-> g ∈ queue).
Definition sential_ok (s : Sential) : Prop :=
  (1 <= ngramSize s)%nat /\ (length (windowChars s) <= windowSize s)%nat /\
  windowNgramQueue s = grams (ngramSize s) (windowChars s) /\
  history_ok (windowNgramQueue s) (historySet s, historyCounts s).
(** The last [n] elements. *)
Definition lastn {A} (n : nat) (l : list A) : list A := drop (length l - n) l.

(** What an inspection should report: of the grams that end in the incoming
    text, how many lie wholly in the last [w] runes seen before. *)
Definition reference_result (n w : nat) (t : fraction) (before incoming : list Z) : SentialResult :=
  let window := lastn w before in
  let new := grams n (lastn (n - 1) window ++ incoming) in
  let matched := countb (fun g => bool_decide (g ∈ grams n window)) new in
  mkSentialResult ((0 <? length new)%nat && exceeds (Z.of_nat matched) (Z.of_nat (length new)) t)
    (Z.of_nat matched) (Z.of_nat (length new)).
Fixpoint reference_results (n w : nat) (t : fraction) (before : list Z) (texts : list str) : list SentialResult :=
  match texts with
  | [] => []
  | x :: r => reference_result n w t before (runes x) :: reference_results n w t (before ++ runes x) r
  end.
Definition inspect_all (s : Sential) (texts : list str) : Sential :=
  fold_left (fun s x => (Sential_Inspect s x).1) texts s.
Definition text_inspect_all (g : TextLoopGuard) (texts : list str) : TextLoopGuard :=
  fold_left (fun g x => (TextLoopGuard_Inspect g x).1) texts g.

(** The length of the run of elements satisfying [p] that ends a list. *)
Definition trailing {A} (p : A -> bool) (l : list A) : nat := fold_left (fun n x => if p x then S n else 0%nat) l 0%nat.
(** The buffer after pushing some texts, with the chunks emitted. *)
Fixpoint push_all (b : TextLoopProbeBuffer) (texts : list str) : option (TextLoopProbeBuffer * list str) :=
  match texts with
  | [] => Some (b, [])
  | x :: r => match Push b x with
              | Some (b, out) => match push_all b r with Some (b, out') => Some (b, out ++ out') | None => None end
              | None => None
              end
  end.
Definition probe_ok (b : TextLoopProbeBuffer) : Prop :=
  (offset b <= length (chars b))%nat /\ (length (chars b) - offset b < chunkSize b)%nat.
Definition inspect_calls {U : Unicode} (sha256 : str -> str) (g : ToolLoopGuard) (calls : list ToolLoopInput) : ToolLoopGuard :=
  fold_left (fun g c => (ToolLoopGuard_Inspect sha256 g c).1) calls g.
(** A digest and a call for the examples. *)
Definition sample_digest (x : str) : str := lit "digest of " ++ x.
Definition sample_call : ToolLoopInput := mkToolLoopInput (lit "read") (JMap [(lit "path", JString (lit "a"))]).
(** The guard [g] after the same call, of hash [h], [n] times in a row. *)
Definition guard_at (g : ToolLoopGuard) (h : str) (n : Z) : Prop :=
  let T := repeatThreshold g in
  let W := warningsBeforeAbort g in
  breachHash g = h /\
  ((n = breachCount g * (T + 1) + repeatCount g /\ 0 <= repeatCount g <= T /\ 0 <= breachCount g <= W /\
    lastHash g = if repeatCount g =? 0 then [] else h) \/
   ((W + 1) * (T + 1) <= n /\ repeatCount g = T + 1 + (n - (W + 1) * (T + 1)) /\
    breachCount g = W + 1 + (n - (W + 1) * (T + 1)) /\ lastHash g = h)).
(** [v'] is [v] with one more volatile entry in some map, at any depth. *)
Inductive adds_volatile {U : Unicode} (volatileSet : gset str) : json -> json -> Prop :=
  | add_here l1 l2 k v : isVolatileKey k volatileSet = true ->
      adds_volatile volatileSet (JMap (l1 ++ l2)) (JMap (l1 ++ (k, v) :: l2))
  | add_in_list l1 l2 v v' : adds_volatile volatileSet v v' ->
      adds_volatile volatileSet (JList (l1 ++ v :: l2)) (JList (l1 ++ v' :: l2))
  | add_in_map l1 l2 k v v' : adds_volatile volatileSet v v' ->
      adds_volatile volatileSet (JMap (l1 ++ (k, v) :: l2)) (JMap (l1 ++ (k, v') :: l2)).
(** The values a normalised argument is made of: no [json.Number], nothing
    printed with [%v], no volatile key and no null in a map. *)
Fixpoint canonical {U : Unicode} (volatileSet : gset str) (v : json) : bool :=
  match v with
  | JNull | JString _ | JBool _ | JFloat _ => true
  | JNumber _ | JOther _ => false
  | JList l => forallb (canonical volatileSet) l
  | JMap l => forallb (fun kv => negb (isVolatileKey kv.1 volatileSet) && negb (is_null kv.2) && canonical volatileSet kv.2) l
  end.

(** Events offered to a collector, before and after it is closed. *)
Definition collect {E} (c : toolEventCollector E) (evts : list E) : toolEventCollector E :=
  fold_left (fun c e => (collector_Add c e).1) evts c.
Lemma countb_gram_elem g q : (0 < countb (is_gram g) q)%nat <-> g ∈ q.
Proof.
  split.
  - intros (x & Hx & E)%countb_pos. unfold is_gram in E. str_hyps. by subst.
  - intros [i Hi]%list_elem_of_lookup. apply take_drop_middle in Hi. rewrite <- Hi, countb_app, countb_cons.
    unfold is_gram at 2. rewrite str_eqb_refl. lia.
Qed.
Lemma history_add g q h : history_ok q h -> history_ok (q ++ [g]) (addHistoryGram g h).
Proof.
  intros Hh g'. destruct (Hh g) as [Hg Hs]. destruct (Hh g') as [Hg' Hs'].
  assert (Hc : gram_count h.2 g = Z.of_nat (countb (is_gram g) q)).
  { unfold gram_count. rewrite Hg. destruct (Nat.eqb_spec (countb (is_gram g) q) 0); simpl; lia. }
  assert (Hn : gram_count (<[g := gram_count h.2 g + 1]> h.2) g = Z.of_nat (countb (is_gram g) q) + 1).
  { unfold gram_count at 1. rewrite lookup_insert_eq. simpl. lia. }
  unfold addHistoryGram. cbv zeta. rewrite Hn, Hc. cbn [fst snd].
  rewrite countb_app, countb_cons. change (countb (is_gram g') []) with 0%nat.
  rewrite elem_of_app, list_elem_of_singleton.
  destruct (decide (g' = g)) as [-> | Hne].
  - rewrite lookup_insert_eq. assert (is_gram g g = true) as -> by apply str_eqb_refl.
    destruct (Nat.eqb_spec (countb (is_gram g) q + (1 + 0)) 0); [lia|]. split; [f_equal; lia|].
    split; [by right|intros _].
    destruct (Z.of_nat (countb (is_gram g) q) + 1 =? 1) eqn:E; bool_hyps; [set_solver|].
    apply Hs, countb_gram_elem. lia.
  - assert (is_gram g' g = false) as -> by (unfold is_gram; by apply str_eqb_false). rewrite lookup_insert_ne by done.
    rewrite !Nat.add_0_r. split; [exact Hg'|]. destruct (_ =? 1); set_solver.
Qed.
Lemma history_remove g q h : history_ok (g :: q) h -> history_ok q (removeHistoryGram g h).
Proof.
  intros Hh g'. destruct (Hh g) as [Hg _]. destruct (Hh g') as [Hg' Hs'].
  rewrite countb_cons in Hg. unfold is_gram at 1 3 in Hg. rewrite str_eqb_refl in Hg. simpl in Hg.
  assert (Hc : gram_count h.2 g = Z.of_nat (S (countb (is_gram g) q))) by (unfold gram_count; by rewrite Hg).
  unfold removeHistoryGram. rewrite Hc. rewrite countb_cons in Hg'. pose proof (countb_gram_elem g q) as He.
  destruct (Z.of_nat (S (countb (is_gram g) q)) <=? 1) eqn:E; bool_hyps; cbn [fst snd];
    (destruct (decide (g' = g)) as [-> | Hne];
     [|assert (is_gram g' g = false) as Hf by (unfold is_gram; by apply str_eqb_false); rewrite Hf in Hg'; simpl in Hg']).
  - rewrite lookup_delete_eq. replace (countb (is_gram g) q) with 0%nat by lia. split; [done|].
    rewrite elem_of_difference, elem_of_singleton. split; [by intros [_ []]|]. intros Hin%He. lia.
  - rewrite lookup_delete_ne by done. split; [exact Hg'|]. rewrite elem_of_cons in Hs'. set_solver.
  - rewrite lookup_insert_eq. destruct (Nat.eqb_spec (countb (is_gram g) q) 0); [lia|]. split; [f_equal; lia|].
    rewrite Hs', elem_of_cons. split; [intros _; apply He; lia|by right].
  - rewrite lookup_insert_ne by done. split; [exact Hg'|]. rewrite Hs', elem_of_cons. naive_solver.
Qed.
Lemma grams_short n l : (length l < n)%nat -> grams n l = [].
Proof. destruct l as [|x l]; simpl; [done|]. intros H. destruct (Nat.leb_spec n (S (length l))); [lia|done]. Qed.
Lemma grams_tail n x l : (1 <= n)%nat -> grams n l = tail (grams n (x :: l)).
Proof.
  intros Hn. cbn [grams]. destruct (Nat.leb_spec n (length (x :: l))); [done|]. simpl in *. apply grams_short. lia.
Qed.
Lemma grams_snoc n l c : (1 <= n)%nat -> grams n (l ++ [c]) =
  if (n <=? length (l ++ [c]))%nat then grams n l ++ [GoStr.encode (drop (length (l ++ [c]) - n) (l ++ [c]))] else [].
Proof.
  intros Hn. destruct (Nat.leb_spec n (length (l ++ [c]))) as [Hl|Hl]; [|by apply grams_short].
  induction l as [|x l IH].
  - simpl in *. destruct (Nat.leb_spec n 1); [|lia]. replace (1 - n)%nat with 0%nat by lia.
    rewrite drop_0. by rewrite take_ge by (simpl; lia).
  - cbn [app grams]. assert (HL : length (l ++ [c]) = S (length l)) by (rewrite length_app; simpl; lia).
    cbn [app length] in Hl. cbn [length]. rewrite HL in *. destruct (Nat.leb_spec n (S (S (length l)))); [|lia].
    destruct (Nat.leb_spec n (S (length l))) as [Hs|Hs].
    + rewrite IH by done. cbn [app]. f_equal.
      * change (x :: l ++ [c]) with ((x :: l) ++ [c]). by rewrite take_app_le by (simpl; lia).
      * replace (S (S (length l)) - n)%nat with (S (S (length l) - n)) by lia. done.
    + replace (S (S (length l)) - n)%nat with 0%nat by lia. rewrite drop_0.
      rewrite (grams_short n (l ++ [c])) by lia. by rewrite take_ge by (simpl; lia).
Qed.
Lemma lastn_all {A} n (l : list A) : (length l <= n)%nat -> lastn n l = l.
Proof. intros H. unfold lastn. by replace (length l - n)%nat with 0%nat by lia. Qed.
Lemma lastn_snoc {A} n (l : list A) x : lastn n (lastn n l ++ [x]) = lastn n (l ++ [x]).
Proof.
  destruct (decide (n = 0%nat)) as [->|Hn]; [by unfold lastn; rewrite !Nat.sub_0_r, !drop_all|].
  unfold lastn. rewrite !length_app, length_drop. simpl.
  destruct (decide (length l <= n)%nat) as [H|H].
  - replace (length l - n)%nat with 0%nat by lia. rewrite drop_0. by rewrite Nat.sub_0_r.
  - replace (length l - (length l - n) + 1 - n)%nat with 1%nat by lia.
    rewrite (drop_app_le _ _ 1) by (rewrite length_drop; lia). rewrite drop_drop.
    rewrite drop_app_le by lia. do 2 f_equal. lia.
Qed.

Lemma push_ok s ch : sential_ok s -> (1 <= windowSize s)%nat ->
  sential_ok (pushWindowChar s ch) /\
  windowChars (pushWindowChar s ch) = lastn (windowSize s) (windowChars s ++ [ch]) /\
  ngramSize (pushWindowChar s ch) = ngramSize s /\ windowSize (pushWindowChar s ch) = windowSize s /\
  overlapThreshold (pushWindowChar s ch) = overlapThreshold s.
Proof.
  intros (Hn & Hw & Hq & Hh) Hsize. unfold pushWindowChar. set (cs := windowChars s ++ [ch]).
  set (p := if (ngramSize s <=? length cs)%nat then _ else _).
  assert (Hp : p.1 = grams (ngramSize s) cs /\ history_ok p.1 p.2).
  { subst p cs. rewrite grams_snoc by done. rewrite <- Hq. destruct (_ <=? _)%nat eqn:E; [split; [done|]; by apply history_add|].
    simpl. str_hyps. rewrite Hq in *. rewrite grams_short in * by (rewrite length_app in E; lia). done. }
  destruct p as [queue h]. simpl in Hp. destruct Hp as [Hqueue Hhist].
  assert (Hlen : length cs = S (length (windowChars s))) by (subst cs; rewrite length_app; simpl; lia).
  destruct (length cs <=? windowSize s)%nat eqn:E; str_hyps.
  - unfold sential_ok. simpl. destruct h. split_and!; try done. by rewrite lastn_all.
  - assert (Hdrop : drop 1 cs = lastn (windowSize s) cs) by (unfold lastn; f_equal; lia).
    destruct cs as [|c0 cs'] eqn:Ecs; [done|]. pose proof (grams_tail (ngramSize s) c0 cs' Hn) as Ht.
    rewrite <- Hqueue in Ht. destruct queue as [|removed rest]; unfold sential_ok; simpl in *.
    + destruct h. rewrite drop_0 in *. split_and!; try done; lia.
    + apply history_remove in Hhist. destruct (removeHistoryGram removed h). rewrite drop_0 in *. split_and!; try done; lia.
Qed.
Lemma pushes_ok cs s : sential_ok s -> (1 <= windowSize s)%nat -> let s' := fold_left pushWindowChar cs s in
  sential_ok s' /\ windowChars s' = lastn (windowSize s) (windowChars s ++ cs) /\
  ngramSize s' = ngramSize s /\ windowSize s' = windowSize s /\ overlapThreshold s' = overlapThreshold s.
Proof.
  simpl. revert s. induction cs as [|c cs IH] using rev_ind; intros s Hs Hw; simpl.
  { rewrite app_nil_r. split_and!; try done. symmetry. apply lastn_all, Hs. }
  rewrite fold_left_app. simpl. destruct (IH s Hs Hw) as (H1 & H2 & H3 & H4 & H5).
  destruct (push_ok (fold_left pushWindowChar cs s) c H1) as (K1 & K2 & K3 & K4 & K5); [by rewrite H4|].
  split_and!; [done| |congruence|congruence|congruence].
  rewrite K2, H4, H2, lastn_snoc. by rewrite app_assoc.
Qed.

(** ** The detector against its reference *)
Lemma lastn_app_lastn {A} n (a b : list A) : lastn n (lastn n a ++ b) = lastn n (a ++ b).
Proof.
  induction b as [|x b IH] using rev_ind.
  { rewrite !app_nil_r. apply lastn_all. unfold lastn. rewrite length_drop. lia. }
  rewrite !app_assoc, <- lastn_snoc, IH. apply lastn_snoc.
Qed.
Lemma length_lastn {A} n (l : list A) : (length (lastn n l) <= n)%nat.
Proof. unfold lastn. rewrite length_drop. lia. Qed.
Lemma countb_imap {A} (p : A -> bool) (l : list A) :
  countb (fun ig : nat * A => p ig.2) (imap (fun i g => (i, g)) l) = countb p l.
Proof.
  assert (H : forall (f : nat -> nat), countb (fun ig : nat * A => p ig.2) (imap (fun i g => (f i, g)) l) = countb p l).
  { induction l as [|x l IH]; intros f; [done|]. rewrite imap_cons, !countb_cons. f_equal. apply (IH (f ∘ S)). }
  apply (H id).
Qed.
Lemma inspect_reference s text before : sential_ok s -> windowChars s = lastn (windowSize s) before ->
  (Sential_Inspect s text).2 = reference_result (ngramSize s) (windowSize s) (overlapThreshold s) before (runes text).
Proof.
  intros (Hn & Hw & Hq & Hh) Hc. unfold Sential_Inspect, reference_result. rewrite <- Hc.
  destruct (bool_decide (runes text = [])) eqn:E; bool_hyps.
  - rewrite E, app_nil_r, (grams_short (ngramSize s)); [done|].
    pose proof (length_lastn (ngramSize s - 1) (windowChars s)). lia.
  - cbn [snd]. fold (lastn (ngramSize s - 1) (windowChars s)).
    pose proof (length_lastn (ngramSize s - 1) (windowChars s)) as Hl.
    rewrite filter_id_forall by (apply Forall_forall; intros [i g] _; apply Nat.leb_le; simpl; lia). rewrite length_imap.
    set (new := grams (ngramSize s) (lastn (ngramSize s - 1) (windowChars s) ++ runes text)).
    pose proof (countb_imap (fun g : str => bool_decide (g ∈ historySet s)) new) as He. rewrite He.
    assert (Hext : countb (fun g => bool_decide (g ∈ historySet s)) new =
                   countb (fun g => bool_decide (g ∈ grams (ngramSize s) (windowChars s))) new).
    { apply countb_ext, Forall_forall. intros g _. apply bool_decide_ext. destruct (Hh g) as [_ H]. by rewrite H, Hq. }
    by rewrite Hext.
Qed.
Lemma inspect_keeps s text before : sential_ok s -> (1 <= windowSize s)%nat -> windowChars s = lastn (windowSize s) before ->
  let s' := (Sential_Inspect s text).1 in
  sential_ok s' /\ windowChars s' = lastn (windowSize s) (before ++ runes text) /\
  ngramSize s' = ngramSize s /\ windowSize s' = windowSize s /\ overlapThreshold s' = overlapThreshold s.
Proof.
  intros Hs Hw Hc. unfold Sential_Inspect. destruct (bool_decide (runes text = [])) eqn:E; bool_hyps.
  - rewrite E, app_nil_r. by split_and!.
  - cbn [fst]. destruct (pushes_ok (runes text) s Hs Hw) as (H1 & H2 & H3).
    split; [done|]. split; [|done]. by rewrite H2, Hc, lastn_app_lastn.
Qed.
Lemma inspect_all_keeps texts s before : sential_ok s -> (1 <= windowSize s)%nat -> windowChars s = lastn (windowSize s) before ->
  let s' := inspect_all s texts in
  sential_ok s' /\ windowChars s' = lastn (windowSize s) (before ++ concat (map runes texts)) /\
  ngramSize s' = ngramSize s /\ windowSize s' = windowSize s /\ overlapThreshold s' = overlapThreshold s.
Proof.
  simpl. revert s before. induction texts as [|x r IH]; intros s before Hs Hw Hc; simpl.
  { rewrite app_nil_r. by split_and!. }
  destruct (inspect_keeps s x before Hs Hw Hc) as (H1 & H2 & H3 & H4 & H5).
  specialize (IH (Sential_Inspect s x).1 (before ++ runes x) H1). rewrite H4 in IH.
  destruct (IH Hw H2) as (K1 & K2 & K3 & K4 & K5). rewrite <- app_assoc in K2. split_and!; try done; congruence.
Qed.
Lemma new_sential_ok o : sential_ok (NewSential o) /\ (1 <= windowSize (NewSential o))%nat.
Proof.
  unfold sential_ok, NewSential, positive_or, defaultNgramSize, defaultWindowSize; simpl.
  assert (H : forall n d : Z, (0 < d)%Z -> (1 <= Z.to_nat (if (n <=? 0)%Z then d else n))%nat).
  { intros n d Hd. destruct (n <=? 0) eqn:E; bool_hyps; lia. }
  split; [|by apply H]. split_and!; [by apply H|simpl; lia|done|]. intros g. simpl. rewrite lookup_empty. set_solver.
Qed.
Lemma inspect_all_result o texts text : (Sential_Inspect (inspect_all (NewSential o) texts) text).2 =
  reference_result (ngramSize (NewSential o)) (windowSize (NewSential o)) (overlapThreshold (NewSential o))
    (concat (map runes texts)) (runes text).
Proof.
  destruct (new_sential_ok o) as [H0 Hw].
  destruct (inspect_all_keeps texts (NewSential o) [] H0 Hw) as (H1 & H2 & H3 & H4 & H5); [done|].
  rewrite <- H3, <- H4, <- H5. apply inspect_reference; [done|by rewrite H4].
Qed.
(** Equivalence.  The incremental n-gram detector agrees with its
    reference on every stream of chunks: its window is the last [windowSize]
    runes of the text seen, its queue and maps are exactly the grams of that
    window with their multiplicities, and the next [Inspect] returns the counts
    and the verdict computed from the whole text. *)
Theorem sential_equals_reference (o : SentialOptions) (texts : list str) (text : str) :
  let s := inspect_all (NewSential o) texts in
  let seen := concat (map runes texts) in
  windowChars s = lastn (windowSize (NewSential o)) seen /\
  windowNgramQueue s = grams (ngramSize (NewSential o)) (windowChars s) /\
  (forall g, historyCounts s !! g <> None <-> g ∈ windowNgramQueue s) /\
  (forall g, gram_count (historyCounts s) g = Z.of_nat (countb (is_gram g) (windowNgramQueue s))) /\
  (Sential_Inspect s text).2 =
    reference_result (ngramSize (NewSential o)) (windowSize (NewSential o)) (overlapThreshold (NewSential o)) seen (runes text).
Proof.
  cbv zeta. destruct (new_sential_ok o) as [H0 Hw].
  destruct (inspect_all_keeps texts (NewSential o) [] H0 Hw) as (H1 & H2 & H3 & H4 & H5); [done|].
  cbn [app] in H2. pose proof H1 as (_ & _ & Hq & Hh). rewrite H3 in Hq.
  split_and!; [done|done| | |].
  - intros g. destruct (Hh g) as [Hg _]. simpl in Hg. rewrite Hg, <- countb_gram_elem.
    destruct (Nat.eqb_spec (countb (is_gram g) (windowNgramQueue (inspect_all (NewSential o) texts))) 0); naive_solver lia.
  - intros g. destruct (Hh g) as [Hg _]. simpl in Hg. unfold gram_count. rewrite Hg.
    destruct (Nat.eqb_spec (countb (is_gram g) (windowNgramQueue (inspect_all (NewSential o) texts))) 0); simpl; lia.
  - apply inspect_all_result.
Qed.

(** ** The text guard *)
Lemma trailing_snoc {A} (p : A -> bool) l x : trailing p (l ++ [x]) = if p x then S (trailing p l) else 0%nat.
Proof. unfold trailing. by rewrite fold_left_app. Qed.
Lemma lastn_snoc_S {A} n (l : list A) x : lastn (S n) (l ++ [x]) = lastn n l ++ [x].
Proof.
  unfold lastn. rewrite length_app. simpl. replace (length l + 1 - S n)%nat with (length l - n)%nat by lia.
  by rewrite drop_app_le by lia.
Qed.
Lemma trailing_ge {A} (p : A -> bool) l k :
  (k <= trailing p l)%nat <-> (k <= length l)%nat /\ Forall (fun x => p x = true) (lastn k l).
Proof.
  revert k. induction l as [|x l IH] using rev_ind; intros k.
  { unfold trailing, lastn; simpl. split; [intros; split; [lia|constructor]|intros [? _]; lia]. }
  rewrite trailing_snoc. destruct k as [|k].
  { unfold lastn. rewrite Nat.sub_0_r, drop_all. split; [split; [lia|constructor]|lia]. }
  rewrite lastn_snoc_S, Forall_app, Forall_singleton, length_app. simpl. destruct (p x).
  - specialize (IH k). split; [intros H; destruct (proj1 IH); [lia|split; [lia|done]]|].
    intros (H1 & H2 & _). assert (k <= trailing p l)%nat by (apply IH; split; [lia|done]). lia.
  - split; [lia|]. by intros (_ & _ & ?).
Qed.
Lemma reference_results_snoc n w t texts x before : reference_results n w t before (texts ++ [x]) =
  reference_results n w t before texts ++ [reference_result n w t (before ++ concat (map runes texts)) (runes x)].
Proof.
  revert before. induction texts as [|y r IH]; intros before; simpl; [by rewrite app_nil_r|].
  by rewrite IH, <- app_assoc.
Qed.
Lemma text_inspect_snoc g texts x : text_inspect_all g (texts ++ [x]) = (TextLoopGuard_Inspect (text_inspect_all g texts) x).1.
Proof. unfold text_inspect_all. by rewrite fold_left_app. Qed.
Lemma text_guard_sential g texts : sential (text_inspect_all g texts) = inspect_all (sential g) texts /\
  consecutiveHitsToAbort (text_inspect_all g texts) = consecutiveHitsToAbort g /\
  minNewGramsPerChunk (text_inspect_all g texts) = minNewGramsPerChunk g.
Proof.
  induction texts as [|x r IH] using rev_ind; [done|]. rewrite text_inspect_snoc. unfold inspect_all.
  rewrite fold_left_app. simpl. destruct IH as (IH & IH2). fold (inspect_all (sential g) r). rewrite <- IH.
  unfold TextLoopGuard_Inspect. by destruct (Sential_Inspect _ x).
Qed.
Lemma text_guard_streak consecutiveHits minNewGrams o texts :
  streak (text_inspect_all (NewTextLoopGuard consecutiveHits minNewGrams o) texts) =
  Z.of_nat (trailing srHit (List.filter (fun r => positive_or minNewGrams 1 <=? srNewGrams r)
    (reference_results (ngramSize (NewSential o)) (windowSize (NewSential o)) (overlapThreshold (NewSential o)) [] texts))).
Proof.
  induction texts as [|x r IH] using rev_ind; [done|].
  rewrite text_inspect_snoc, reference_results_snoc, List.filter_app. unfold TextLoopGuard_Inspect.
  destruct (text_guard_sential (NewTextLoopGuard consecutiveHits minNewGrams o) r) as (-> & -> & ->).
  cbn [sential NewTextLoopGuard minNewGramsPerChunk app]. pose proof (inspect_all_result o r x) as Hr.
  destruct (Sential_Inspect _ x) as [s' res]. cbn [snd] in Hr. subst res. cbn [fst streak List.filter].
  set (res := reference_result _ _ _ _ _). unfold defaultMinNewGramsPerChunk.
  destruct (positive_or minNewGrams 1 <=? srNewGrams res); [|by rewrite app_nil_r].
  rewrite trailing_snoc, IH. destruct (srHit res); lia.
Qed.
(** The text guard asks to abort after a chunk exactly when the last
    [consecutiveHitsToAbort] substantial chunks (those with enough new grams)
    all overlapped the window more than the threshold; chunks that are not
    substantial neither count nor break the run. *)
Theorem text_loop_abort_iff (consecutiveHits minNewGrams : Z) (o : SentialOptions) (texts : list str) (text : str) :
  let s := NewSential o in
  let g := text_inspect_all (NewTextLoopGuard consecutiveHits minNewGrams o) texts in
  let results := reference_results (ngramSize s) (windowSize s) (overlapThreshold s) [] (texts ++ [text]) in
  let substantial := List.filter (fun r => positive_or minNewGrams 1 <=? srNewGrams r) results in
  let k := Z.to_nat (positive_or consecutiveHits 10) in
  tgAbort (TextLoopGuard_Inspect g text).2 = true <->
  (k <= length substantial)%nat /\ Forall (fun r => srHit r = true) (lastn k substantial).
Proof.
  cbv zeta. rewrite <- trailing_ge, Nat2Z.inj_le, <- (text_guard_streak consecutiveHits), text_inspect_snoc.
  set (g := text_inspect_all _ texts). assert (consecutiveHitsToAbort g = positive_or consecutiveHits 10) as Hk.
  { subst g. by destruct (text_guard_sential (NewTextLoopGuard consecutiveHits minNewGrams o) texts) as (_ & -> & _). }
  unfold TextLoopGuard_Inspect. destruct (Sential_Inspect (sential g) text). cbn [fst snd tgAbort streak].
  rewrite Hk, Z2Nat.id; [split; [apply Z.leb_le|apply Z.leb_le]|].
  unfold positive_or. destruct (consecutiveHits <=? 0) eqn:E; bool_hyps; lia.
Qed.

(** ** The probe buffer *)
Lemma pushLoop_spec fuel size cs off : (1 <= size)%nat -> (off <= length cs)%nat -> (length cs - off <= fuel)%nat ->
  exists off' ps, pushLoop fuel size cs off = Some (off', map GoStr.encode ps) /\
    (off <= off' <= length cs)%nat /\ (length cs - off' < size)%nat /\
    Forall (fun p => length p = size) ps /\ drop off cs = concat ps ++ drop off' cs.
Proof.
  intros Hs. revert off. induction fuel as [|fuel IH]; intros off Hoff Hf; simpl;
    (destruct (Nat.ltb_spec (length cs - off) size); [by exists off, []|]); [lia|].
  destruct (IH (off + size)%nat) as (off' & ps & -> & H1 & H2 & H3 & H4); [lia|lia|].
  exists off', (take size (drop off cs) :: ps). split_and!; [done|lia|lia|done| |].
  - constructor; [|done]. rewrite length_take, length_drop. lia.
  - simpl. rewrite <- app_assoc, <- H4, <- drop_drop. by rewrite take_drop.
Qed.
Lemma Push_spec b text : probe_ok b -> (1 <= chunkSize b)%nat ->
  exists b' ps, Push b text = Some (b', map GoStr.encode ps) /\ probe_ok b' /\ chunkSize b' = chunkSize b /\
    Forall (fun p => length p = chunkSize b) ps /\
    drop (offset b) (chars b) ++ runes text = concat ps ++ drop (offset b') (chars b').
Proof.
  intros [Ho Hl] Hs. unfold Push. destruct (is_empty text) eqn:E.
  { exists b, []. str_hyps. subst. by rewrite app_nil_r. }
  destruct (pushLoop_spec (length (chars b ++ runes text)) (chunkSize b) (chars b ++ runes text) (offset b))
    as (off & ps & -> & H1 & H2 & H3 & H4); [done|rewrite length_app; lia|lia|].
  rewrite drop_app_le in H4 by done.
  destruct (Nat.leb_spec (chunkSize b) off).
  - exists (mkProbe (chunkSize b) (drop off (chars b ++ runes text)) 0), ps.
    split_and!; try done. unfold probe_ok; simpl. rewrite length_drop. lia.
  - exists (mkProbe (chunkSize b) (chars b ++ runes text) off), ps. split_and!; try done. unfold probe_ok; simpl. lia.
Qed.
Lemma push_all_spec texts b : probe_ok b -> (1 <= chunkSize b)%nat ->
  exists b' ps, push_all b texts = Some (b', map GoStr.encode ps) /\ probe_ok b' /\ chunkSize b' = chunkSize b /\
    Forall (fun p => length p = chunkSize b) ps /\
    drop (offset b) (chars b) ++ concat (map runes texts) = concat ps ++ drop (offset b') (chars b').
Proof.
  revert b. induction texts as [|x r IH]; intros b Hb Hs; simpl.
  { exists b, []. by rewrite app_nil_r. }
  destruct (Push_spec b x Hb Hs) as (b1 & ps & -> & H1 & H2 & H3 & H4).
  destruct (IH b1 H1) as (b2 & ps2 & -> & K1 & K2 & K3 & K4); [lia|]. rewrite H2 in *.
  exists b2, (ps ++ ps2). rewrite map_app, Forall_app, concat_app. split_and!; try done.
  by rewrite app_assoc, H4, <- !app_assoc, K4.
Qed.
(** Round trip.  Whatever texts are pushed and then flushed, no loop of
    [Push] runs out of fuel and the inspector gets the same runes, in order,
    none lost or repeated: pieces of exactly the chunk size, and a last one
    that is shorter and never empty. *)
Theorem probe_pieces_concatenate (size : Z) (texts : list str) :
  let n := Z.to_nat (positive_or size LoopDetectedProbeChars) in
  exists b full rest, push_all (NewTextLoopProbeBuffer size) texts = Some (b, map GoStr.encode full) /\
    (Flush b).2 = map GoStr.encode rest /\
    concat (full ++ rest) = concat (map runes texts) /\
    Forall (fun p => length p = n) full /\ Forall (fun p => (0 < length p < n)%nat) rest /\ (length rest <= 1)%nat /\
    chars (Flush b).1 = [] /\ offset (Flush b).1 = 0%nat.
Proof.
  cbv zeta. set (b0 := NewTextLoopProbeBuffer size). assert (Hs : (1 <= chunkSize b0)%nat).
  { subst b0. unfold NewTextLoopProbeBuffer, positive_or, LoopDetectedProbeChars; simpl.
    destruct (size <=? 0) eqn:E; bool_hyps; lia. }
  destruct (push_all_spec texts b0) as (b & ps & H1 & [H2 H2'] & H3 & H4 & H5); [split; simpl in *; lia|done|].
  cbn [b0 NewTextLoopProbeBuffer offset chars] in H5. rewrite drop_nil in H5. cbn [app] in H5.
  exists b, ps. unfold Flush. destruct (bool_decide (drop (offset b) (chars b) = [])) eqn:E; bool_hyps.
  - exists []. rewrite E, app_nil_r in H5. rewrite app_nil_r. split_and!; try done. simpl; lia.
  - exists [drop (offset b) (chars b)]. rewrite concat_app, H5. simpl. rewrite app_nil_r. split_and!; try done.
    constructor; [|done]. assert (length (drop (offset b) (chars b)) <> 0%nat) by (by intros ?%length_zero_iff_nil).
    rewrite length_drop in *. change (Z.to_nat (positive_or size LoopDetectedProbeChars)) with (chunkSize b0). lia.
Qed.

(** ** The tool guard *)
Lemma mod_step T W b r n : 1 <= T -> n = b * (T + 1) + r -> 0 <= r <= T -> 0 <= b <= W ->
  (n mod (T + 1) = 0 <-> r = 0) /\ ((W + 1) * (T + 1) <= n <-> False) /\ (n <= W * (T + 1) <-> b < W \/ (b = W /\ r = 0)).
Proof.
  intros HT -> Hr Hb. rewrite Z.add_comm, Z.mod_add, Z.mod_small by lia. split_and!; [done| |]; split; nia.
Qed.
(** One more call of the same hash. *)
Lemma inspect_same g h n : h <> [] -> 1 <= repeatThreshold g -> 1 <= warningsBeforeAbort g -> guard_at g h n ->
  let '(g', r) := inspectHash g h in
  let T := repeatThreshold g in let W := warningsBeforeAbort g in
  guard_at g' h (n + 1) /\
  (trWarn r = true <-> (n + 1) mod (T + 1) = 0 /\ n + 1 <= W * (T + 1)) /\
  (trAbort r = true <-> (W + 1) * (T + 1) <= n + 1).
Proof.
  intros Hh HT HW [Hb Hg]. destruct g as [T W vs last rep br bh]. unfold inspectHash, guard_at in *. cbn in *. subst bh.
  rewrite str_eqb_refl.
  destruct Hg as [(Hn & Hr & Hbr & Hl) | (Hn & Hr & Hbr & Hl)].
  - assert (Hrep : (if str_eqb h last then rep + 1 else 1) = rep + 1).
    { destruct (rep =? 0) eqn:E; bool_hyps; subst last; [|by rewrite str_eqb_refl].
      destruct (str_eqb h []) eqn:E2; str_hyps; [done|lia]. }
    rewrite Hrep. destruct (T <? rep + 1) eqn:ET; bool_hyps; [assert (rep = T) as -> by lia; destruct (br <? W) eqn:EW; bool_hyps|]; cbn.
    + destruct (mod_step T W (br + 1) 0 (n + 1)) as (M1 & M2 & M3); [lia..|].
      split; [split; [done|left; split_and!; try done; lia]|]. rewrite M1, M2, M3. split; [naive_solver lia|done].
    + assert (br = W) as -> by lia. split; [split; [done|right; split_and!; try done; lia]|].
      split; [split; [done|]|split; [lia|done]]. intros [_ ?]. nia.
    + destruct (mod_step T W br (rep + 1) (n + 1)) as (M1 & M2 & M3); [lia..|].
      split; [split; [done|left; split_and!; try lia; by destruct (Z.eqb_spec (rep + 1) 0); [lia|]]|].
      rewrite M1, M2, M3. split; [naive_solver lia|done].
  - subst last. rewrite str_eqb_refl. destruct (T <? rep + 1) eqn:ET; bool_hyps; [|nia].
    destruct (br <? W) eqn:EW; bool_hyps; [nia|]. cbn.
    split; [split; [done|right; split_and!; try done; lia]|]. split; [split; [done|]|split; [lia|done]]. intros [_ ?]. nia.
Qed.
(** A call of another hash than the last one. *)
Lemma inspect_other g h : breachHash g <> h -> lastHash g <> h -> 1 <= repeatThreshold g -> 1 <= warningsBeforeAbort g ->
  let '(g', r) := inspectHash g h in guard_at g' h 1 /\ trWarn r = false /\ trAbort r = false.
Proof.
  intros Hb Hl HT HW. destruct g as [T W vs last rep br bh]. unfold inspectHash, guard_at in *. cbn in *.
  assert (str_eqb h last = false) as -> by (apply str_eqb_false; congruence).
  assert (str_eqb bh h = false) as -> by (by apply str_eqb_false).
  destruct (T <? 1) eqn:E; bool_hyps; [lia|]. cbn. split; [split; [done|left; split_and!; lia || done]|done].
Qed.
Lemma inspectHash_settings g h : let g' := (inspectHash g h).1 in
  repeatThreshold g' = repeatThreshold g /\ warningsBeforeAbort g' = warningsBeforeAbort g /\ volatileKeySet g' = volatileKeySet g.
Proof. unfold inspectHash. repeat case_if; by split_and!. Qed.

Section tool_guard.
Context {U : Unicode} (sha256 : str -> str) (sha256_nonempty : forall x, sha256 x <> []).
Variables threshold warnings : Z.
Let g0 := NewToolLoopGuard threshold warnings.
Let T := positive_or threshold ToolLoopRepeatThreshold.
Let W := positive_or warnings ToolLoopWarningsBeforeAbort.
Let hash (c : ToolLoopInput) : str := computeToolLoopHash sha256 c (volatileKeySet g0).

Lemma inspect_calls_snoc calls c :
  inspect_calls sha256 g0 (calls ++ [c]) = (ToolLoopGuard_Inspect sha256 (inspect_calls sha256 g0 calls) c).1.
Proof. unfold inspect_calls. by rewrite fold_left_app. Qed.
Lemma inspect_calls_settings calls : let g := inspect_calls sha256 g0 calls in
  repeatThreshold g = T /\ warningsBeforeAbort g = W /\ volatileKeySet g = volatileKeySet g0.
Proof.
  induction calls as [|c calls IH] using rev_ind; [done|]. rewrite inspect_calls_snoc. unfold ToolLoopGuard_Inspect.
  simpl in *. destruct (inspectHash_settings (inspect_calls sha256 g0 calls) 
    (computeToolLoopHash sha256 c (volatileKeySet (inspect_calls sha256 g0 calls)))) as (-> & -> & ->). done.
Qed.
Lemma threshold_pos : 1 <= T /\ 1 <= W.
Proof.
  subst T W. unfold positive_or, ToolLoopRepeatThreshold, ToolLoopWarningsBeforeAbort.
  destruct (threshold <=? 0) eqn:E1, (warnings <=? 0) eqn:E2; bool_hyps; lia.
Qed.
Lemma hash_nonempty c : hash c <> [].
Proof. apply sha256_nonempty. Qed.
(** What one inspection does, whatever came before. *)
Lemma inspect_calls_step calls c : 
  let n := Z.of_nat (trailing (fun c' => str_eqb (hash c') (hash c)) (calls ++ [c])) in
  let '(g, r) := ToolLoopGuard_Inspect sha256 (inspect_calls sha256 g0 calls) c in
  guard_at g (hash c) n /\
  (trWarn r = true <-> n mod (T + 1) = 0 /\ n <= W * (T + 1)) /\ (trAbort r = true <-> (W + 1) * (T + 1) <= n).
Proof.
  cbv zeta. revert c. induction calls as [|c0 calls IH] using rev_ind; intros c;
    unfold ToolLoopGuard_Inspect; destruct threshold_pos as [HT HW];
    rewrite trailing_snoc, str_eqb_refl.
  - pose proof (inspect_other g0 (hash c)) as H. fold (hash c).
    destruct (inspectHash g0 (hash c)) as [g r] eqn:E. destruct H as (H1 & H2 & H3);
      [by intros ?%eq_sym%hash_nonempty|by intros ?%eq_sym%hash_nonempty|done|done|].
    change (Z.of_nat _) with 1. change (inspect_calls sha256 g0 []) with g0. fold (hash c). rewrite E. split; [done|]. rewrite H2, H3.
    destruct (mod_step T W 0 1 1) as (M1 & M2 & M3); [lia..|]. rewrite M1, M2. split; split; lia || done.
  - specialize (IH c0). set (g := inspect_calls sha256 g0 (calls ++ [c0])).
    assert (Hg : g = (ToolLoopGuard_Inspect sha256 (inspect_calls sha256 g0 calls) c0).1) by apply inspect_calls_snoc.
    destruct (inspect_calls_settings (calls ++ [c0])) as (S1 & S2 & S3). fold g in S1, S2, S3. rewrite S3. fold (hash c).
    destruct (ToolLoopGuard_Inspect sha256 (inspect_calls sha256 g0 calls) c0) as [g' r0]. cbn in Hg. subst g'.
    destruct IH as [IH _]. destruct (str_eqb (hash c0) (hash c)) eqn:E; str_hyps.
    + rewrite E in IH. pose proof (inspect_same g (hash c) _ (hash_nonempty _) ltac:(lia) ltac:(lia) IH) as H.
      destruct (inspectHash g (hash c)) as [g1 r]. rewrite S1, S2 in H. rewrite Nat2Z.inj_succ. exact H.
    + pose proof (inspect_other g (hash c)) as H. destruct IH as [Hb Hl].
      assert (Hlast : lastHash g <> hash c).
      { destruct Hl as [(_ & _ & _ & ->) | (_ & _ & _ & ->)]; [|done]. destruct (_ =? 0); [|done].
        by intros ?%eq_sym%hash_nonempty. }
      destruct (inspectHash g (hash c)) as [g1 r]. destruct H as (H1 & H2 & H3); [congruence|done|lia|lia|].
      rewrite trailing_snoc, (proj2 (str_eqb_false _ _) E). split; [exact H1|]. rewrite H2, H3.
      destruct (mod_step T W 0 1 1) as (M1 & M2 & M3); [lia..|]. rewrite M1, M2. split; split; lia || done.
Qed.
End tool_guard.
(** The tool guard warns and aborts exactly when it should.  With
    threshold [T] and [W] warnings, after any sequence of calls: let [n] be how
    many calls in a row, the last one included, have the last one's hash.  The
    guard warns iff [n] is a multiple of [T+1] not above [W(T+1)], and aborts iff
    [n] has reached [(W+1)(T+1)]; a different call starts the count again. *)
Theorem tool_loop_warn_abort_iff {U : Unicode} (sha256 : str -> str) (sha256_nonempty : forall x, sha256 x <> [])
    (threshold warnings : Z) (calls : list ToolLoopInput) (call : ToolLoopInput) :
  let g0 := NewToolLoopGuard threshold warnings in
  let T := positive_or threshold ToolLoopRepeatThreshold in
  let W := positive_or warnings ToolLoopWarningsBeforeAbort in
  let hash (c : ToolLoopInput) := computeToolLoopHash sha256 c (volatileKeySet g0) in
  let n := Z.of_nat (trailing (fun c => str_eqb (hash c) (hash call)) (calls ++ [call])) in
  let r := (ToolLoopGuard_Inspect sha256 (inspect_calls sha256 g0 calls) call).2 in
  trHash r = hash call /\
  (trWarn r = true <-> n mod (T + 1) = 0 /\ n <= W * (T + 1)) /\ (trAbort r = true <-> (W + 1) * (T + 1) <= n).
Proof.
  cbv zeta. pose proof (inspect_calls_step sha256 sha256_nonempty threshold warnings calls call) as H.
  destruct (inspect_calls_settings sha256 threshold warnings calls) as (_ & _ & Hv).
  split; [unfold ToolLoopGuard_Inspect; rewrite Hv; unfold inspectHash; by repeat case_if|].
  destruct (ToolLoopGuard_Inspect _ _ _) as [g r]. apply H.
Qed.
(** Liveness.  A model that keeps making one call is always stopped:
    whatever calls came before, by the [(W+1)(T+1)]-th repetition of a call the
    guard aborts, and it keeps aborting for as long as the call is repeated. *)
Theorem repeated_call_is_aborted {U : Unicode} (sha256 : str -> str) (sha256_nonempty : forall x, sha256 x <> [])
    (threshold warnings : Z) (calls : list ToolLoopInput) (call : ToolLoopInput) :
  let g0 := NewToolLoopGuard threshold warnings in
  let bound := Z.to_nat ((positive_or warnings ToolLoopWarningsBeforeAbort + 1) *
                         (positive_or threshold ToolLoopRepeatThreshold + 1)) in
  forall m, (bound <= S m)%nat ->
    trAbort (ToolLoopGuard_Inspect sha256 (inspect_calls sha256 g0 (calls ++ replicate m call)) call).2 = true.
Proof.
  intros g0 bound m Hm. 
  pose proof (inspect_calls_step sha256 sha256_nonempty threshold warnings (calls ++ replicate m call) call) as H.
  fold g0 in H. cbv zeta in H. destruct (ToolLoopGuard_Inspect _ _ _) as [g r]. destruct H as (_ & _ & H). apply H.
  assert (Ht : (S m <= trailing (fun c => str_eqb (computeToolLoopHash sha256 c (volatileKeySet g0))
      (computeToolLoopHash sha256 call (volatileKeySet g0))) ((calls ++ replicate m call) ++ [call]))%nat); [|subst bound; lia].
  rewrite trailing_snoc, str_eqb_refl. apply le_n_S. clear. induction m as [|m IH]; [lia|].
  rewrite replicate_S_end, app_assoc, trailing_snoc, str_eqb_refl. lia.
Qed.
Lemma sample_digest_nonempty x : sample_digest x <> [].
Proof. done. Qed.
Lemma repeated_call_is_aborted_witness :
  (forall x, sample_digest x <> []) /\ (12 <= 12)%nat /\
  trAbort (ToolLoopGuard_Inspect (U := ascii_unicode) sample_digest
    (inspect_calls (U := ascii_unicode) sample_digest (NewToolLoopGuard (U := ascii_unicode) 0 0) ([] ++ replicate 11 sample_call))
    sample_call).2 = true.
Proof.
  split; [exact sample_digest_nonempty|]. split; [lia|].
  exact (repeated_call_is_aborted (U := ascii_unicode) sample_digest sample_digest_nonempty 0 0 [] sample_call 11 (le_n 12)).
Defined.
Lemma tool_loop_warn_abort_iff_witness :
  (forall x, sample_digest x <> []) /\
  trWarn (ToolLoopGuard_Inspect (U := ascii_unicode) sample_digest
    (inspect_calls (U := ascii_unicode) sample_digest (NewToolLoopGuard (U := ascii_unicode) 0 0) (replicate 5 sample_call))
    sample_call).2 = true.
Proof.
  split; [exact sample_digest_nonempty|].
  refine (proj2 (proj1 (proj2 (tool_loop_warn_abort_iff (U := ascii_unicode) sample_digest sample_digest_nonempty 0 0
    (replicate 5 sample_call) sample_call))) _).
  vm_compute. split; [reflexivity|discriminate].
Defined.

(** ** What the hash ignores *)
Section json_ind.
Variable P : json -> Prop.
Hypotheses (H0 : P JNull) (H1 : forall s, P (JString s)) (H2 : forall b, P (JBool b)) (H3 : forall e, P (JFloat e))
  (H4 : forall d, P (JNumber d)) (H5 : forall l, Forall P l -> P (JList l))
  (H6 : forall l, Forall (fun kv => P kv.2) l -> P (JMap l)) (H7 : forall s, P (JOther s)).
Fixpoint json_ind' (v : json) : P v :=
  match v with
  | JNull => H0 | JString s => H1 s | JBool b => H2 b | JFloat e => H3 e | JNumber d => H4 d | JOther s => H7 s
  | JList l => H5 l ((fix all l : Forall P l := match l with [] => Forall_nil_2 P | v :: r => Forall_cons_2 P v r (json_ind' v) (all r) end) l)
  | JMap l => H6 l ((fix all l : Forall (fun kv => P kv.2) l :=
                       match l with [] => Forall_nil_2 _ | kv :: r => Forall_cons_2 _ kv r (json_ind' kv.2) (all r) end) l)
  end.
End json_ind.
Section volatile_keys.
Context {U : Unicode} (vs : gset str).
Lemma normalize_canonical v : canonical vs (normalizeToolLoopValue vs v) = true.
Proof.
  induction v as [ | | | | |l IH|l IH| ] using json_ind'; try reflexivity; cbn [canonical normalizeToolLoopValue].
  - induction IH as [|v l Hv _ IH]; [done|]. simpl. by rewrite Hv, IH.
  - induction IH as [|[k v] l Hv _ IH]; [done|]. cbn [flat_map fst snd] in *.
    destruct (isVolatileKey k vs) eqn:E; [done|]. destruct (is_null (normalizeToolLoopValue vs v)) eqn:E2; [done|].
    cbn [app forallb fst snd]. by rewrite E, E2, Hv, IH.
Qed.
Lemma canonical_normalize v : canonical vs v = true -> normalizeToolLoopValue vs v = v.
Proof.
  induction v as [ | | | | |l IH|l IH| ] using json_ind'; try reflexivity; try discriminate; cbn [canonical normalizeToolLoopValue]; intros Hc; f_equal.
  - induction IH as [|v l Hv _ IH]; [done|]. simpl in *. bool_hyps. by rewrite Hv, IH.
  - induction IH as [|[k v] l Hv _ IH]; [done|]. cbn [flat_map forallb fst snd] in *. bool_hyps.
    by rewrite H, Hv, H2, IH.
Qed.
Lemma normalize_adds v v' : adds_volatile vs v v' -> normalizeToolLoopValue vs v = normalizeToolLoopValue vs v'.
Proof.
  induction 1 as [l1 l2 k v Hk|l1 l2 v v' _ IH|l1 l2 k v v' _ IH]; cbn [normalizeToolLoopValue]; f_equal.
  - rewrite !flat_map_app. f_equal. cbn [flat_map fst]. by rewrite Hk.
  - by rewrite !map_app, !map_cons, IH.
  - rewrite !flat_map_app. f_equal. cbn [flat_map fst snd]. by rewrite IH.
Qed.
End volatile_keys.
(** Type invariant of the hashed payload.  Whatever a tool call's argument
    holds, its normal form is made only of null, strings, booleans, floats,
    lists and maps with no volatile key and no null entry, at every depth, and
    normalising twice changes nothing. *)
Theorem normalized_value_is_canonical {U : Unicode} (volatileSet : gset str) (v : json) :
  canonical volatileSet (normalizeToolLoopValue volatileSet v) = true /\
  normalizeToolLoopValue volatileSet (normalizeToolLoopValue volatileSet v) = normalizeToolLoopValue volatileSet v /\
  (canonical volatileSet v = true <-> normalizeToolLoopValue volatileSet v = v).
Proof.
  split; [apply normalize_canonical|]. split; [apply canonical_normalize, normalize_canonical|].
  split; [apply canonical_normalize|]. intros <-. apply normalize_canonical.
Qed.
(** A model cannot escape the tool guard by changing what does not matter:
    adding, removing or changing request ids, timestamps and the other volatile
    entries of the arguments, at any depth, or the spaces around the tool's name,
    leaves the hash of the call as it is. *)
Theorem volatile_arguments_ignored {U : Unicode} (sha256 : str -> str) (g : ToolLoopGuard) (name name' : str) (v v' : json) :
  rtsc (adds_volatile (volatileKeySet g)) v v' -> trim_space name = trim_space name' ->
  ToolLoopGuard_Inspect sha256 g (mkToolLoopInput name v) = ToolLoopGuard_Inspect sha256 g (mkToolLoopInput name' v').
Proof.
  intros Hv Hn. unfold ToolLoopGuard_Inspect, computeToolLoopHash, toolLoopPayload. cbn [tliToolName tliInput].
  rewrite Hn. assert (normalizeToolLoopValue (volatileKeySet g) v = normalizeToolLoopValue (volatileKeySet g) v') as ->; [|done].
  induction Hv as [|a b c [H|H] _ IH]; [done|by rewrite <- IH, (normalize_adds _ _ _ H)|by rewrite <- IH, (normalize_adds _ _ _ H)].
Qed.
Lemma sample_volatile :
  isVolatileKey (U := ascii_unicode) (lit "X-Request-ID") (volatileKeySet (NewToolLoopGuard (U := ascii_unicode) 0 0)) = true.
Proof. by vm_compute. Qed.
Lemma volatile_arguments_ignored_witness :
  let g := NewToolLoopGuard (U := ascii_unicode) 0 0 in
  let v := JMap ([(lit "path", JString (lit "a"))] ++ []) in
  let v' := JMap ([(lit "path", JString (lit "a"))] ++ [(lit "X-Request-ID", JString (lit "17"))]) in
  ToolLoopGuard_Inspect (U := ascii_unicode) sample_digest g (mkToolLoopInput (lit "read") v) =
  ToolLoopGuard_Inspect (U := ascii_unicode) sample_digest g (mkToolLoopInput (lit " read") v').
Proof.
  refine (volatile_arguments_ignored (U := ascii_unicode) sample_digest _ (lit "read") (lit " read") _ _ _ _);
    [|vm_compute; reflexivity].
  apply rtc_once. left. apply add_here. exact sample_volatile.
Defined.

(** ** The registries *)
(** The successful [Take]s of an identifier in a history of operations. *)
Lemma registry_spec r id id' :
  (registry_Take (registry_Add r id) id).2 = negb (is_empty id) /\
  (registry_Take (registry_Take r id).1 id).2 = false /\
  (id' <> id -> (registry_Take (registry_Take r id').1 id).2 = (registry_Take r id).2 /\
                (registry_Take (registry_Add r id') id).2 = (registry_Take r id).2) /\
  (registry_Any r = false <-> forall i, i ∉ r).
Proof.
  unfold registry_Take, registry_Add, registry_Any. split_and!.
  - destruct (is_empty id); [done|]. by rewrite bool_decide_true by set_solver.
  - destruct (is_empty id) eqn:E; [done|]. destruct (bool_decide (id ∈ r)) eqn:E2; cbn [fst]; rewrite ?E2; [|done].
    by rewrite bool_decide_false by set_solver.
  - intros Hne. destruct (is_empty id) eqn:E; [done|]. destruct (is_empty id') eqn:E2; [done|]. split.
    + destruct (bool_decide (id' ∈ r)); cbn [fst]; [|done].
      rewrite (bool_decide_ext (id ∈ r ∖ {[id']}) (id ∈ r)) by set_solver. by case_if.
    + rewrite (bool_decide_ext (id ∈ {[id']} ∪ r) (id ∈ r)) by set_solver. by case_if.
  - rewrite Nat.ltb_ge. split.
    + intros H i Hi. assert (size r = 0%nat) as H0%size_empty_inv by lia. set_solver.
    + intros H. rewrite (proj2 (size_empty_iff r)); [lia|]. set_solver.
Qed.
Lemma collect_open {E} (evts : list E) l : collect (mkCollector false l) evts = mkCollector false (l ++ evts).
Proof.
  unfold collect. revert l. induction evts as [|e r IH]; intros l; simpl; [by rewrite app_nil_r|]. by rewrite IH, <- app_assoc.
Qed.
Lemma collect_closed {E} (evts : list E) l : collect (mkCollector true l) evts = mkCollector true l.
Proof. unfold collect. induction evts as [|e r IH]; [done|]. exact IH. Qed.
(** A late event never changes what the caller got. *)
Lemma snapshot_final {E} (before late : list E) :
  let c := collect (mkCollector false []) before in
  (CloseAndSnapshot c).2 = before /\ collector_Snapshot (collect (CloseAndSnapshot c).1 late) = before /\
  forall e, (collector_Add (collect (CloseAndSnapshot c).1 late) e).2 = false.
Proof. cbv zeta. rewrite collect_open. unfold CloseAndSnapshot. simpl. by rewrite collect_closed. Qed.
