(* ===== verification/ContextFrag.v ===== *)
(** * Context fragments

    Models the intermediate representation of a prompt,
    [internal/agent/context/fragment]: the fragment and its parts
    ([types.go]), the token estimates every budget is computed with
    ([tokens.go]), precedence ([precedence.go]), the references that identify
    a fragment ([contract.go]), the constructors ([compile.go]) and the repair
    of tool exchanges ([repair.go]).

    Messages are those of an SDK outside the repository: the model keeps the
    fields this code reads, any other content being an opaque payload.  What
    the SDK and the JSON and SHA-256 libraries compute from them is given by
    the class [Externals]. *)

From S2P Require Import Prelude GoStr GoTrim.
#[local] Open Scope Z_scope.

(** ** Messages of the SDK *)
Definition MessageRoleUser : str := lit "user".
Definition MessageRoleAssistant : str := lit "assistant".
Definition MessageRoleSystem : str := lit "system".
Definition MessageRoleTool : str := lit "tool".
Record SDKImage : Type := mkSDKImage { imgImage : str; imgMediaType : str }.
Inductive MessagePart : Type :=
  | TextPart (Text : str)
  | ReasoningPart (Text : str)
  | ImagePart (image : SDKImage)
  | ToolCallPart (ToolCallID ToolName : str) (input : str)
  | ToolResultPart (ToolCallID ToolName : str) (result : str) (IsError : bool)
  | FilePart (Filename : str) (payload : str)
  | OtherPart (payload : str).
Record Message : Type := mkMessage { msgRole : str; msgContent : list MessagePart }.

(** ** Fragments *)
Definition SlotSystem : str := lit "system".
Definition SlotHistory : str := lit "history".
Definition SlotCurrentUser : str := lit "current_user".
Definition KindCurrentUserMessage : str := lit "current_user_message".
Definition KindConversationSummary : str := lit "conversation_summary".
Definition KindConversationEvent : str := lit "conversation_event".
Definition KindSystemPolicy : str := lit "system_policy".
Definition TrustSystem : str := lit "system".
Definition TrustWorkspace : str := lit "workspace".
Definition TrustUser : str := lit "user".
Definition CacheDynamic : str := lit "dynamic".
Definition CacheNever : str := lit "never".
Definition OverflowKeep : str := lit "keep".
Definition OverflowTrim : str := lit "trim".
Definition OverflowSummarize : str := lit "summarize".
Definition OverflowDrop : str := lit "drop".
Definition RetentionRequired : str := lit "required".
Definition RetentionPreferred : str := lit "preferred".
Definition RetentionOptional : str := lit "optional".
Definition PartText : str := lit "text".
Definition PartSDKMessage : str := lit "sdk_message".
Definition PartImage : str := lit "image".
Definition RenderMarkdown : str := lit "markdown".
Definition RenderSDKMessage : str := lit "sdk_message".
Definition AttentionPassive : str := lit "passive".
Definition HashAlgoSHA256 : str := lit "sha256".
Definition HashScopeCanonicalFragment : str := lit "canonical_fragment".
Definition HashScopeSourcePayload : str := lit "source_payload".
Definition SchemaContextRef : str := lit "context_ref".
Definition RefDurable : str := lit "durable".
Definition RefSynthetic : str := lit "synthetic".
Definition RefDebug : str := lit "debug".

Record ContextRef : Type := mkContextRef {
  refNamespace : str; refID : str; refVersion : Z; refRange : option (Z * Z); refHashAlgo : str;
  refContentHash : str; refHashScope : str; refSchema : str; refDurability : str }.
Definition noRef : ContextRef := mkContextRef [] [] 0 None [] [] [] [] [].
Record BudgetPolicy : Type := mkBudgetPolicy { bpMaxTokens : Z; bpMaxChars : Z; bpOverflow : str }.
Record RenderPolicy : Type := mkRenderPolicy { rpFormat : str; rpAnchor : str; rpGroupID : str; rpGroupJoiner : str }.
Record Provenance : Type := mkProvenance { pvSource : str; pvSourceID : str; pvCollector : str; pvIndex : Z }.
Record Scope : Type := mkScope {
  scBotID : str; scChatID : str; scSessionID : str; scChannelIdentityID : str; scDisplayName : str; scPlatform : str;
  scConversationType : str; scConversationName : str; scReplyTarget : str; scCurrentMessageID : str; scEventID : str;
  scReplyToMessageID : str; scReplySender : str; scMentionsBot : bool; scRepliesToBot : bool; scForwardMessageID : str;
  scForwardFromUserID : str; scForwardFromConversationID : str; scAttention : list str; scMetadata : gmap str str }.
Definition noScope : Scope :=
  mkScope [] [] [] [] [] [] [] [] [] [] [] [] [] false false [] [] [] [] ∅.
Record ImageRef : Type := mkImageRef { irMediaType : str; irSource : str }.
Record Part : Type := mkPart {
  ptType : str; ptText : str; ptImage : ImageRef; ptMessage : option Message; ptImagePart : option SDKImage;
  ptSDKMessage : option Message; ptSDKImage : option SDKImage }.
Definition textPart (text : str) : Part := mkPart PartText text (mkImageRef [] []) None None None None.
Definition messagePart (msg : Message) : Part := mkPart PartSDKMessage [] (mkImageRef [] []) (Some msg) None (Some msg) None.
Record ContextFrag : Type := mkContextFrag {
  fID : str; fRef : ContextRef; fKind : str; fRole : str; fSlot : str; fPriority : Z; fRetentionTier : str;
  fDropPriority : Z; fRequiredCapability : str; fCacheClass : str; fTrust : str; fScope : Scope; fBudget : BudgetPolicy;
  fRender : RenderPolicy; fProvenance : Provenance; fTokenEstimate : Z; fConflictKey : str; fParts : list Part }.
Definition with_ref (f : ContextFrag) (ref : ContextRef) : ContextFrag :=
  mkContextFrag (fID f) ref (fKind f) (fRole f) (fSlot f) (fPriority f) (fRetentionTier f) (fDropPriority f)
    (fRequiredCapability f) (fCacheClass f) (fTrust f) (fScope f) (fBudget f) (fRender f) (fProvenance f)
    (fTokenEstimate f) (fConflictKey f) (fParts f).
(** The fragment with another role and other parts, its estimate cleared. *)
Definition with_parts (f : ContextFrag) (role : str) (parts : list Part) : ContextFrag :=
  mkContextFrag (fID f) (fRef f) (fKind f) role (fSlot f) (fPriority f) (fRetentionTier f) (fDropPriority f)
    (fRequiredCapability f) (fCacheClass f) (fTrust f) (fScope f) (fBudget f) (fRender f) (fProvenance f)
    0 (fConflictKey f) parts.
Definition without_hash (ref : ContextRef) : ContextRef :=
  mkContextRef (refNamespace ref) (refID ref) (refVersion ref) (refRange ref) [] [] [] (refSchema ref) (refDurability ref).

(** What libraries compute from SDK values. *)
Class Externals : Type := {
  json_of_part : MessagePart -> option str;        (** [json.Marshal] of a message part, if it succeeds *)
  json_tool_name : MessagePart -> str;             (** the [toolName] member of that JSON, or nothing *)
  canonical_hash : ContextFrag -> option str;      (** SHA-256 of the JSON of the canonical fragment *)
  hex_sha256 : str -> str;                         (** SHA-256 in hexadecimal *)
  text_output : str -> str;                        (** [sdk.TextOutput] *)
}.

Definition partMessage (part : Part) : option Message :=
  match ptSDKMessage part with Some m => Some m | None => ptMessage part end.
Fixpoint firstMessage (parts : list Part) : option Message :=
  match parts with
  | [] => None
  | p :: r => match partMessage p with Some m => Some m | None => firstMessage r end
  end.
Definition FragMessage (f : ContextFrag) : option Message := firstMessage (fParts f).

(** ** Rendering of text *)
Definition RenderText (text : str) (policy : RenderPolicy) : str :=
  if negb (is_empty (rpGroupID policy)) then trim text [" "%char; tab; cr] else trim_space text.
Definition RenderSeparator (previous current : RenderPolicy) : str :=
  if is_empty (rpGroupID previous) || negb (str_eqb (rpGroupID previous) (rpGroupID current)) then [nl; nl]
  else if negb (is_empty (rpGroupJoiner current)) then rpGroupJoiner current
  else if negb (is_empty (rpGroupJoiner previous)) then rpGroupJoiner previous
  else [nl; nl].

(** ** Token estimates *)
Definition EstimateBytesPerToken : Z := 4.
Definition ProviderBudgetSafetyFactorPercent : Z := 125.
Definition EstimateImageTokens : Z := 1500.
Definition TokensFromBytes (n : Z) : Z := if n <=? 0 then 0 else n / EstimateBytesPerToken.
Definition BudgetBytesForTokens (tokens : Z) : Z := Z.max 0 tokens * EstimateBytesPerToken.
Definition ProviderBudgetBytesForTokens (tokens : Z) : Z :=
  Z.max 0 tokens * 100 / ProviderBudgetSafetyFactorPercent * EstimateBytesPerToken.
Definition ProviderBudgetTokensFromBytes (n : Z) : Z :=
  if n <=? 0 then 0
  else
    let ceiling := n / EstimateBytesPerToken in
    let ceiling := if negb (n mod EstimateBytesPerToken =? 0) then ceiling + 1 else ceiling in
    ceiling * ProviderBudgetSafetyFactorPercent / 100.

Section externals.
Context {X : Externals}.
(** Bytes and images of a message, of a fragment. *)
Fixpoint partsEstimate (content : list MessagePart) : Z * Z :=
  match content with
  | [] => (0, 0)
  | part :: r =>
      let '(bytes, images) := partsEstimate r in
      match part with
      | TextPart t | ReasoningPart t => (slen t + bytes, images)
      | ImagePart _ => (bytes, images + 1)
      | _ => match json_of_part part with Some data => (slen data + bytes, images) | None => (bytes, images) end
      end
  end.
Definition sdkMessageEstimate (msg : Message) : Z * Z := partsEstimate (msgContent msg).
Fixpoint fragPartsEstimate (parts : list Part) : Z * Z :=
  match parts with
  | [] => (0, 0)
  | part :: r =>
      let '(bytes, images) := fragPartsEstimate r in
      if str_eqb (ptType part) PartText then (slen (ptText part) + bytes, images)
      else if str_eqb (ptType part) PartSDKMessage then
        match partMessage part with
        | Some msg => let '(b, i) := sdkMessageEstimate msg in (b + bytes, i + images)
        | None => (bytes, images)
        end
      else if str_eqb (ptType part) PartImage then (bytes, images + 1)
      else (bytes, images)
  end.
Definition fragEstimate (f : ContextFrag) : Z * Z := fragPartsEstimate (fParts f).
Definition EstimateFragTokens (f : ContextFrag) : Z :=
  let '(bytes, images) := fragEstimate f in TokensFromBytes bytes + images * EstimateImageTokens.
Definition EstimateSDKMessageTokens (msg : Message) : Z :=
  let '(bytes, images) := sdkMessageEstimate msg in TokensFromBytes bytes + images * EstimateImageTokens.
Definition ResolveFragTokens (f : ContextFrag) : Z :=
  if 0 <? fTokenEstimate f then fTokenEstimate f else EstimateFragTokens f.
Definition ResolveProviderBudgetFragTokens (f : ContextFrag) : Z :=
  let '(bytes, images) := fragEstimate f in
  let estimated := ProviderBudgetTokensFromBytes bytes + images * EstimateImageTokens in
  if estimated <? fTokenEstimate f then fTokenEstimate f else estimated.

(** ** References *)
Fixpoint firstNonEmpty (values : list str) : str :=
  match values with
  | [] => []
  | v :: r => let trimmed := trim_space v in if is_empty trimmed then firstNonEmpty r else trimmed
  end.
Definition hasPreservedSourcePayloadHash (ref : ContextRef) : bool :=
  negb (blank (refContentHash ref)) && str_eqb (trim_space (refHashAlgo ref)) HashAlgoSHA256 &&
  str_eqb (trim_space (refHashScope ref)) HashScopeSourcePayload.
Definition nonempty (v : option str) : bool := match v with Some v => negb (is_empty v) | None => false end.
Definition WithContextRef (f : ContextFrag) (ref : ContextRef) : ContextFrag :=
  let hash := canonical_hash f in
  let hasExplicitID := negb (blank (refID ref)) in
  let hasSourceID := negb (blank (pvSourceID (fProvenance f))) in
  let namespace := firstNonEmpty [refNamespace ref; pvSource (fProvenance f); lit "context_frag"] in
  let id := if hasExplicitID then trim_space (refID ref)
            else if hasSourceID then trim_space (pvSourceID (fProvenance f))
            else if nonempty hash then default [] hash
            else trim_space (fID f) in
  let schema := firstNonEmpty [refSchema ref; SchemaContextRef] in
  let durability := if is_empty (refDurability ref) then
                      (if hasExplicitID || hasSourceID then RefDurable else if nonempty hash then RefSynthetic else RefDebug)
                    else refDurability ref in
  match hash with
  | Some value =>
      if hasPreservedSourcePayloadHash (mkContextRef namespace id (refVersion ref) (refRange ref) (refHashAlgo ref)
                                          (refContentHash ref) (refHashScope ref) schema durability)
      then with_ref f (mkContextRef namespace id (refVersion ref) (refRange ref) (refHashAlgo ref) (refContentHash ref)
                         (refHashScope ref) schema durability)
      else with_ref f (mkContextRef namespace id (refVersion ref) (refRange ref) HashAlgoSHA256 value
                         HashScopeCanonicalFragment schema durability)
  | None => with_ref f (mkContextRef namespace id (refVersion ref) (refRange ref) (refHashAlgo ref) (refContentHash ref)
                          (refHashScope ref) schema durability)
  end.
Definition normalizeContextRefs (frags : list ContextFrag) : list ContextFrag :=
  map (fun f => WithContextRef f (fRef f)) frags.

(** ** Precedence *)
Definition TrustRank (trust : str) : Z :=
  if str_eqb trust TrustSystem then 3 else if str_eqb trust TrustWorkspace then 2
  else if str_eqb trust TrustUser then 1 else 0.
Definition SpecificityRank (s : Scope) : Z :=
  (if is_empty (scBotID s) then 0 else 1) + (if is_empty (scChatID s) then 0 else 2) +
  (if is_empty (scSessionID s) then 0 else 4).

(** ** Constructors *)
Record FragInput : Type := mkFragInput {
  fiID : str; fiKind : str; fiSlot : str; fiPriority : Z; fiRetentionTier : str; fiDropPriority : Z;
  fiRequiredCapability : str; fiCacheClass : str; fiTrust : str; fiScope : Scope; fiSource : str; fiSourceID : str;
  fiCollector : str; fiIndex : Z; fiRender : RenderPolicy; fiBudget : BudgetPolicy; fiConflictKey : str;
  fiTokenEstimate : Z }.
Definition fragOf (input : FragInput) (role : str) (render : RenderPolicy) (parts : list Part) (tokenEstimate : Z)
    (conflictKey : str) : ContextFrag :=
  mkContextFrag (trim_space (fiID input)) noRef (fiKind input) role (fiSlot input) (fiPriority input)
    (fiRetentionTier input) (fiDropPriority input) (trim_space (fiRequiredCapability input)) (fiCacheClass input)
    (fiTrust input) (fiScope input) (fiBudget input) render
    (mkProvenance (trim_space (fiSource input)) (trim_space (fiSourceID input)) (trim_space (fiCollector input)) (fiIndex input))
    tokenEstimate conflictKey parts.
Definition TextFrag (input : FragInput) (role text : str) : ContextFrag :=
  fragOf input role (fiRender input) [textPart (RenderText text (fiRender input))] 0 (fiConflictKey input).
Definition MessageFrag (input : FragInput) (msg : Message) : ContextFrag :=
  let r := fiRender input in
  let r := if is_empty (rpFormat r) then mkRenderPolicy RenderSDKMessage (rpAnchor r) (rpGroupID r) (rpGroupJoiner r) else r in
  fragOf input (msgRole msg) r [messagePart msg] (fiTokenEstimate input) [].
Definition PriorityForMessage (msg : Message) : Z :=
  if str_eqb (msgRole msg) MessageRoleSystem then 30
  else if str_eqb (msgRole msg) MessageRoleTool then 55 else 70.
Definition RebuildFragMessage (f : ContextFrag) (msg : Message) : ContextFrag :=
  let rebuilt := with_ref (with_parts f (msgRole msg) [messagePart msg]) noRef in
  WithContextRef rebuilt (without_hash (fRef f)).

(** ** Repair of tool exchanges *)
Definition SourceToolClosureRepair : str := lit "context_repair".
Definition ToolClosureRepairText : str := lit "tool execution interrupted before a response was recorded".
(** [%03d] of a number that is not negative *)
Definition pad3 (n : nat) : str :=
  let digits := itoa (Z.of_nat n) in replicate (3 - length digits) "0"%char ++ digits.
Definition syntheticToolClosureFrag (callID toolName : str) (index : nat) (scope : Scope) (collector : str) : ContextFrag :=
  let msg := mkMessage MessageRoleTool [ToolResultPart callID toolName (text_output ToolClosureRepairText) true] in
  MessageFrag (mkFragInput (lit "history.tool_closure." ++ pad3 index) KindConversationEvent SlotHistory
                 (PriorityForMessage msg) [] 0 [] CacheNever TrustWorkspace scope SourceToolClosureRepair
                 (lit "tool_closure." ++ callID) collector (Z.of_nat index) (mkRenderPolicy [] [] [] [])
                 (mkBudgetPolicy 0 0 []) [] 0) msg.
(** The variables of [RepairToolClosureFrags]. *)
Record Repair : Type := mkRepair {
  repaired : list ContextFrag; pendingOrder : list str; pendingNames : gmap str str; syntheticIndex : nat }.
Definition flush (scope : Scope) (collector : str) (s : Repair) : Repair :=
  fold_left (fun s callID =>
      mkRepair (repaired s ++ [syntheticToolClosureFrag callID (default [] (pendingNames s !! callID)) (syntheticIndex s) scope collector])
        [] (delete callID (pendingNames s)) (S (syntheticIndex s)))
    (pendingOrder s) (mkRepair (repaired s) [] (pendingNames s) (syntheticIndex s)).
Definition keep (f : ContextFrag) (s : Repair) : Repair :=
  mkRepair (repaired s ++ [f]) (pendingOrder s) (pendingNames s) (syntheticIndex s).
(** The calls of an assistant message become pending. *)
Definition openCall (s : Repair) (part : MessagePart) : Repair :=
  match part with
  | ToolCallPart id name _ =>
      let callID := trim_space id in
      if is_empty callID then s
      else if bool_decide (is_Some (pendingNames s !! callID)) then s
      else mkRepair (repaired s) (pendingOrder s ++ [callID]) (<[callID := trim_space name]> (pendingNames s)) (syntheticIndex s)
  | _ => s
  end.
Fixpoint remove_first (id : str) (l : list str) : list str :=
  match l with [] => [] | x :: r => if str_eqb x id then r else x :: remove_first id r end.
(** The results of a tool message answer pending calls; the others go. *)
Definition closeCall (ks : list MessagePart * Repair) (part : MessagePart) : list MessagePart * Repair :=
  let '(kept, s) := ks in
  match part with
  | ToolResultPart id _ _ _ =>
      let callID := trim_space id in
      if bool_decide (is_Some (pendingNames s !! callID))
      then (kept ++ [part], mkRepair (repaired s) (remove_first callID (pendingOrder s)) (delete callID (pendingNames s)) (syntheticIndex s))
      else (kept, s)
  | _ => (kept, s)
  end.
Definition repairFrag (scope : Scope) (collector : str) (s : Repair) (f : ContextFrag) : Repair :=
  match FragMessage f with
  | None => keep f (flush scope collector s)
  | Some msg =>
      if str_eqb (msgRole msg) MessageRoleAssistant then
        fold_left openCall (msgContent msg) (keep f (flush scope collector s))
      else if str_eqb (msgRole msg) MessageRoleTool then
        let '(kept, s) := fold_left closeCall (msgContent msg) ([], s) in
        if (length kept =? 0)%nat then s
        else if negb (length kept =? length (msgContent msg))%nat
        then keep (RebuildFragMessage f (mkMessage MessageRoleTool kept)) s
        else keep f s
      else keep f (flush scope collector s)
  end.
Definition RepairToolClosureFrags (frags : list ContextFrag) (scope : Scope) (collector : str) : list ContextFrag :=
  repaired (flush scope collector (fold_left (repairFrag scope collector) frags (mkRepair [] [] ∅ 0))).

(** ** What a repaired history is *)
(** The calls an assistant message opens, the results a tool message gives. *)
Fixpoint opened (acc : list str) (content : list MessagePart) : list str :=
  match content with
  | [] => acc
  | ToolCallPart id _ _ :: r =>
      let id := trim_space id in
      if is_empty id || bool_decide (id ∈ acc) then opened acc r else opened (acc ++ [id]) r
  | _ :: r => opened acc r
  end.
Fixpoint answered (pending : list str) (content : list MessagePart) : option (list str) :=
  match content with
  | [] => Some pending
  | ToolResultPart id _ _ _ :: r =>
      if bool_decide (trim_space id ∈ pending) then answered (remove_first (trim_space id) pending) r else None
  | _ :: _ => None
  end.
(** The calls still open after a fragment, if the fragment fits. *)
Definition closure_step (pending : list str) (f : ContextFrag) : option (list str) :=
  let others (next : list str) := match pending with [] => Some next | _ => None end in
  match FragMessage f with
  | None => others []
  | Some msg =>
      if str_eqb (msgRole msg) MessageRoleAssistant then others (opened [] (msgContent msg))
      else if str_eqb (msgRole msg) MessageRoleTool then
        match msgContent msg with [] => None | content => answered pending content end
      else others []
  end.
Definition closure_run (pending : list str) (frags : list ContextFrag) : option (list str) :=
  fold_left (fun p f => p ≫= (fun p => closure_step p f)) frags (Some pending).
(** Every call is answered by the tool messages right after it, and every tool
    message answers such calls. *)
Definition closed (frags : list ContextFrag) : Prop := closure_run [] frags = Some [].
End externals.

(** ** Lemmas on estimates *)
Section facts.
Context {X : Externals}.
Ltac div_lia := Z.to_euclidean_division_equations; lia.
(** The ceiling of a quarter. *)
Lemma ceiling_div n : (if negb (n mod 4 =? 0) then n / 4 + 1 else n / 4) = (n + 3) / 4.
Proof. destruct (n mod 4 =? 0) eqn:E; bool_hyps; cbn [negb]; div_lia. Qed.
Lemma provider_tokens_eq n : ProviderBudgetTokensFromBytes n = if n <=? 0 then 0 else (n + 3) / 4 * 125 / 100.
Proof.
  unfold ProviderBudgetTokensFromBytes, EstimateBytesPerToken, ProviderBudgetSafetyFactorPercent. by rewrite ceiling_div.
Qed.
Lemma provider_tokens_bound n : 0 <= n -> n <= ProviderBudgetTokensFromBytes n * EstimateBytesPerToken /\
  TokensFromBytes n <= ProviderBudgetTokensFromBytes n.
Proof.
  intros Hn. rewrite provider_tokens_eq. unfold TokensFromBytes, EstimateBytesPerToken.
  destruct (n <=? 0) eqn:E; bool_hyps; div_lia.
Qed.
Lemma provider_tokens_mono a b : a <= b -> ProviderBudgetTokensFromBytes a <= ProviderBudgetTokensFromBytes b.
Proof.
  intros H. rewrite !provider_tokens_eq. assert (Hab : (a + 3) / 4 <= (b + 3) / 4) by (apply Z.div_le_mono; lia).
  destruct (a <=? 0) eqn:E, (b <=? 0) eqn:E2; bool_hyps; [lia|div_lia|lia|apply Z.div_le_mono; lia].
Qed.
Lemma tokens_bytes_nonneg n : 0 <= TokensFromBytes n.
Proof. unfold TokensFromBytes, EstimateBytesPerToken. destruct (n <=? 0) eqn:E; bool_hyps; div_lia. Qed.
Lemma parts_estimate_nonneg c : 0 <= (partsEstimate c).1 /\ 0 <= (partsEstimate c).2.
Proof.
  induction c as [|p c IH]; simpl; [lia|]. unfold slen. destruct (partsEstimate c) as [b i]. simpl in *.
  destruct p; try destruct (json_of_part _); simpl; lia.
Qed.
Lemma frag_estimate_nonneg l : 0 <= (fragPartsEstimate l).1 /\ 0 <= (fragPartsEstimate l).2.
Proof.
  induction l as [|p l IH]; simpl; [lia|]. unfold slen, sdkMessageEstimate. destruct (fragPartsEstimate l) as [b i]. simpl in *.
  repeat case_if; simpl; try lia. destruct (partMessage p) as [m|]; [|simpl; lia].
  pose proof (parts_estimate_nonneg (msgContent m)). destruct (partsEstimate (msgContent m)). simpl in *. lia.
Qed.
(** No fragment has a negative cost, and the provider's estimate is never
    below the shared one. *)
Lemma tokens_nonneg f : 0 <= ResolveFragTokens f /\ 0 <= ResolveProviderBudgetFragTokens f.
Proof.
  pose proof (frag_estimate_nonneg (fParts f)) as H. unfold ResolveFragTokens, EstimateFragTokens, ResolveProviderBudgetFragTokens.
  unfold fragEstimate. destruct (fragPartsEstimate (fParts f)) as [b i]. simpl in H.
  pose proof (provider_tokens_bound b (proj1 H)) as [_ Hb]. pose proof (tokens_bytes_nonneg b).
  unfold EstimateImageTokens in *. split.
  - destruct (0 <? fTokenEstimate f) eqn:E; bool_hyps; lia.
  - destruct (_ <? fTokenEstimate f) eqn:E; bool_hyps; lia.
Qed.
Lemma provider_cost_ge f : ResolveFragTokens f <= ResolveProviderBudgetFragTokens f.
Proof.
  pose proof (frag_estimate_nonneg (fParts f)) as H. unfold ResolveFragTokens, EstimateFragTokens, ResolveProviderBudgetFragTokens.
  unfold fragEstimate. destruct (fragPartsEstimate (fParts f)) as [b i]. simpl in H.
  pose proof (provider_tokens_bound b (proj1 H)). destruct (0 <? fTokenEstimate f) eqn:E, (_ + _ <? fTokenEstimate f) eqn:E2; bool_hyps; lia.
Qed.
(** The byte budgets invert the estimates. *)
Lemma budget_bytes_fit tokens n : 0 <= tokens -> n <= ProviderBudgetBytesForTokens tokens -> ProviderBudgetTokensFromBytes n <= tokens.
Proof.
  intros Ht Hn. rewrite provider_tokens_eq.
  unfold ProviderBudgetBytesForTokens, EstimateBytesPerToken, ProviderBudgetSafetyFactorPercent in Hn.
  destruct (n <=? 0) eqn:E; bool_hyps; div_lia.
Qed.

(** ** Lemmas on references *)
Lemma WithContextRef_spec f ref : exists r, WithContextRef f ref = with_ref f r.
Proof. unfold WithContextRef. destruct (canonical_hash f); [case_if|]; eauto. Qed.
Lemma normalize_length frags : length (normalizeContextRefs frags) = length frags.
Proof. apply length_map. Qed.
End facts.

(** ** The repair of tool exchanges *)
Section repair.
Context {X : Externals}.
Definition names_ok (order : list str) (names : gmap str str) : Prop :=
  NoDup order /\ (forall id, id ∈ order <-> is_Some (names !! id)) /\ (forall id, id ∈ order -> trim_space id = id).
Definition repair_ok (s : Repair) : Prop :=
  closure_run [] (repaired s) = Some (pendingOrder s) /\ names_ok (pendingOrder s) (pendingNames s).

Lemma closure_run_snoc p frags f : closure_run p (frags ++ [f]) = closure_run p frags ≫= (fun q => closure_step q f).
Proof. unfold closure_run. by rewrite fold_left_app. Qed.
Lemma FragMessage_with_ref f r : FragMessage (with_ref f r) = FragMessage f.
Proof. done. Qed.
Lemma FragMessage_rebuilt f msg : FragMessage (RebuildFragMessage f msg) = Some msg.
Proof. unfold RebuildFragMessage. destruct (WithContextRef_spec (with_ref (with_parts f (msgRole msg) [messagePart msg]) noRef) (without_hash (fRef f))) as [r ->]. done. Qed.
Lemma remove_first_elem id l x : NoDup l -> x ∈ remove_first id l <-> x ∈ l /\ x <> id.
Proof.
  induction 1 as [|y l Hy Hl IH]; [simpl; set_solver|]. cbn [remove_first]. rewrite elem_of_cons.
  destruct (str_eqb y id) eqn:E; str_hyps; [subst; split; [intros Hx; split; [by right|by intros ->]|naive_solver]|].
  rewrite elem_of_cons, IH. naive_solver.
Qed.
Lemma remove_first_nodup id l : NoDup l -> NoDup (remove_first id l).
Proof.
  induction 1 as [|y l Hy Hl IH]; [constructor|]. cbn [remove_first]. destruct (str_eqb y id); [done|].
  constructor; [|done]. by intros [? _]%remove_first_elem.
Qed.
Lemma names_remove id order names : names_ok order names -> names_ok (remove_first id order) (delete id names).
Proof.
  intros (H1 & H2 & H3). split_and!; [by apply remove_first_nodup| |].
  - intros x. rewrite remove_first_elem, H2 by done. destruct (decide (x = id)) as [->|Hne].
    + rewrite lookup_delete_eq. split; [naive_solver|by intros [? ?]].
    + rewrite lookup_delete_ne by done. naive_solver.
  - intros x [? _]%remove_first_elem; [by apply H3|done].
Qed.
Lemma names_add id name order names : names_ok order names -> id ∉ order -> trim_space id = id ->
  names_ok (order ++ [id]) (<[id := name]> names).
Proof.
  intros (H1 & H2 & H3) Hid Ht. split_and!.
  - apply NoDup_app. split_and!; [done| |apply NoDup_singleton]. intros x Hx Hx'%list_elem_of_singleton. by subst.
  - intros x. rewrite elem_of_app, list_elem_of_singleton, H2. destruct (decide (x = id)) as [->|Hne].
    + rewrite lookup_insert_eq. naive_solver.
    + rewrite lookup_insert_ne by done. naive_solver.
  - intros x [?|Hx%list_elem_of_singleton]%elem_of_app; [by apply H3|by subst].
Qed.

Lemma flush_ok scope collector s : repair_ok s ->
  repair_ok (flush scope collector s) /\ pendingOrder (flush scope collector s) = [].
Proof.
  intros [Hr Hn]. unfold flush.
  assert (H : forall order s, closure_run [] (repaired s) = Some order -> names_ok order (pendingNames s) -> pendingOrder s = [] ->
    let s' := fold_left (fun s callID =>
      mkRepair (repaired s ++ [syntheticToolClosureFrag callID (default [] (pendingNames s !! callID)) (syntheticIndex s) scope collector])
        [] (delete callID (pendingNames s)) (S (syntheticIndex s))) order s in
    closure_run [] (repaired s') = Some [] /\ names_ok [] (pendingNames s') /\ pendingOrder s' = []).
  { clear. induction order as [|id order IH]; intros s Hr Hn Ho; [done|]. cbn [fold_left]. apply IH; cbn [repaired pendingNames pendingOrder].
    - rewrite closure_run_snoc, Hr. cbn [mbind option_bind]. unfold closure_step.
      change (FragMessage _) with (Some (mkMessage MessageRoleTool
        [ToolResultPart id (default [] (pendingNames s !! id)) (text_output ToolClosureRepairText) true])).
      cbn [msgRole msgContent answered]. destruct Hn as (_ & _ & Ht). rewrite (Ht id) by by left.
      rewrite bool_decide_true by by left. cbn [remove_first]. rewrite !str_eqb_refl. reflexivity.
    - apply (names_remove id) in Hn. cbn [remove_first] in Hn. by rewrite str_eqb_refl in Hn.
    - done. }
  destruct (H (pendingOrder s) (mkRepair (repaired s) [] (pendingNames s) (syntheticIndex s)) Hr Hn eq_refl) as (H1 & H2 & H3).
  unfold repair_ok. by rewrite H3.
Qed.
Lemma flush_nothing scope collector s : pendingOrder s = [] -> flush scope collector s = s.
Proof. intros H. unfold flush. rewrite H. by destruct s; simpl in *; subst. Qed.
Lemma openCalls_spec content s : names_ok (pendingOrder s) (pendingNames s) ->
  let s' := fold_left openCall content s in
  repaired s' = repaired s /\ pendingOrder s' = opened (pendingOrder s) content /\ names_ok (pendingOrder s') (pendingNames s').
Proof.
  simpl. revert s. induction content as [|part content IH]; intros s Hn; [done|]. cbn [fold_left].
  destruct part as [?|?|?|id name ?|? ? ? ?|? ?|?]; try by apply IH. cbn [openCall opened].
  destruct (is_empty (trim_space id)) eqn:E; [by apply IH|]. cbn [orb].
  destruct (Hn) as (_ & Hin & _). rewrite (bool_decide_ext _ _ (Hin (trim_space id))).
  destruct (bool_decide (is_Some _)) eqn:Ei; [by apply IH|]. bool_hyps.
  destruct (IH (mkRepair (repaired s) (pendingOrder s ++ [trim_space id]) (<[trim_space id := trim_space name]> (pendingNames s)) (syntheticIndex s)))
    as (H1 & H2 & H3); [|done]. cbn. apply names_add; [done| |apply trim_space_idem]. by rewrite Hin.
Qed.
Lemma closeCalls_spec content kept s : names_ok (pendingOrder s) (pendingNames s) ->
  exists more, (fold_left closeCall content (kept, s)).1 = kept ++ more /\
  let s' := (fold_left closeCall content (kept, s)).2 in
  repaired s' = repaired s /\ names_ok (pendingOrder s') (pendingNames s') /\ answered (pendingOrder s) more = Some (pendingOrder s') /\
  (length more <= length content)%nat /\ (length more = length content -> more = content) /\
  (forall p, answered (pendingOrder s) content = Some p -> more = content).
Proof.
  revert kept s. induction content as [|part content IH]; intros kept s Hn.
  { exists []. rewrite app_nil_r. by split_and!. }
  assert (Hskip : forall s, names_ok (pendingOrder s) (pendingNames s) ->
    (exists more, (fold_left closeCall content (kept, s)).1 = kept ++ more /\
      let s' := (fold_left closeCall content (kept, s)).2 in
      repaired s' = repaired s /\ names_ok (pendingOrder s') (pendingNames s') /\ answered (pendingOrder s) more = Some (pendingOrder s') /\
      (length more <= length (part :: content))%nat /\ (length more = length (part :: content) -> more = part :: content) /\
      ((forall p, (None : option (list str)) = Some p -> more = part :: content)))).
  { intros s0 Hn0. destruct (IH kept s0 Hn0) as (more & H1 & H2 & H3 & H4 & H5 & _). exists more. simpl.
    split_and!; try done; intros; simpl in *; try lia. }
  cbn [fold_left]. destruct part as [?|?|?|? ? ?|id name r e|? ?|?]; try by apply Hskip.
  cbn [closeCall answered]. destruct (Hn) as (_ & Hin & _). rewrite (bool_decide_ext _ _ (Hin (trim_space id))).
  destruct (bool_decide (is_Some _)) eqn:Ei; [|by apply Hskip].
  destruct (IH (kept ++ [ToolResultPart id name r e])
    (mkRepair (repaired s) (remove_first (trim_space id) (pendingOrder s)) (delete (trim_space id) (pendingNames s)) (syntheticIndex s)))
    as (more & H1 & H2 & H3 & H4 & H5 & H6 & H7); [by apply names_remove|].
  exists (ToolResultPart id name r e :: more). rewrite H1, <- app_assoc. cbn in *.
  rewrite (bool_decide_ext _ _ (Hin (trim_space id))), Ei.
  split_and!; try done; [lia|intros ?; f_equal; apply H6; lia|]. intros p Hp. f_equal. by eapply H7.
Qed.
(** One fragment. *)
Lemma repairFrag_ok scope collector s f : repair_ok s -> repair_ok (repairFrag scope collector s f).
Proof.
  intros Hs. destruct (flush_ok scope collector s Hs) as [[Hf Hfn] Hfo]. destruct Hs as [Hr Hn].
  assert (Hother : forall p, closure_step [] f = Some p -> closure_run [] (repaired (flush scope collector s) ++ [f]) = Some p).
  { intros p Hp. by rewrite closure_run_snoc, Hf, Hfo. }
  unfold repairFrag, closure_step in *. destruct (FragMessage f) as [msg|] eqn:Em.
  2:{ split; cbn; rewrite Hfo; [by apply Hother|by rewrite <- Hfo]. }
  destruct (str_eqb (msgRole msg) MessageRoleAssistant) eqn:Ea.
  - destruct (openCalls_spec (msgContent msg) (keep f (flush scope collector s))) as (H1 & H2 & H3); [done|].
    split; [|done]. rewrite H1, H2. cbn. rewrite Hfo. by apply Hother.
  - destruct (str_eqb (msgRole msg) MessageRoleTool) eqn:Et; [|split; cbn; rewrite Hfo; [by apply Hother|by rewrite <- Hfo]].
    destruct (closeCalls_spec (msgContent msg) [] s Hn) as (kept & H1 & H2 & H3 & H4 & H5 & H6 & _).
    destruct (fold_left closeCall (msgContent msg) ([], s)) as [kept' s']. cbn [fst snd app] in *. subst kept'.
    destruct (Nat.eqb_spec (length kept) 0) as [H0|H0].
    { destruct kept; [|done]. cbn in H4. injection H4 as H4. split; [by rewrite H2, <- H4|done]. }
    assert (Hk : kept <> []) by by destruct kept.
    destruct (negb _) eqn:El; (split; [|done]); cbn [keep repaired pendingOrder]; rewrite closure_run_snoc, H2, Hr; cbn [mbind option_bind]; unfold closure_step.
    + rewrite FragMessage_rebuilt. cbn. by destruct kept.
    + rewrite Em, Ea, Et. bool_hyps. apply Nat.eqb_eq in El. rewrite (H6 El) in *. by destruct (msgContent msg).
Qed.
Lemma repairFrag_closed scope collector s f p : repair_ok s -> closure_step (pendingOrder s) f = Some p ->
  repaired (repairFrag scope collector s f) = repaired s ++ [f] /\ pendingOrder (repairFrag scope collector s f) = p.
Proof.
  intros [Hr Hn]. unfold repairFrag, closure_step. destruct (FragMessage f) as [msg|] eqn:Em.
  2:{ destruct (pendingOrder s) eqn:E; [|done]. intros [= <-]. by rewrite flush_nothing. }
  destruct (str_eqb (msgRole msg) MessageRoleAssistant) eqn:Ea.
  - destruct (pendingOrder s) eqn:E; [|done]. intros [= <-]. rewrite flush_nothing by done.
    destruct (openCalls_spec (msgContent msg) (keep f s)) as (H1 & H2 & H3); [by rewrite <- E in Hn|].
    rewrite H1, H2. cbn. by rewrite E.
  - destruct (str_eqb (msgRole msg) MessageRoleTool) eqn:Et.
    2:{ destruct (pendingOrder s) eqn:E; [|done]. intros [= <-]. by rewrite flush_nothing. }
    intros Hp. assert (Ha : answered (pendingOrder s) (msgContent msg) = Some p) by by destruct (msgContent msg).
    destruct (closeCalls_spec (msgContent msg) [] s Hn) as (kept & H1 & H2 & H3 & H4 & H5 & H6 & H7).
    destruct (fold_left closeCall (msgContent msg) ([], s)) as [kept' s']. cbn [fst snd app] in *. subst kept'.
    rewrite (H7 p Ha) in *. rewrite Ha in H4. injection H4 as Hp'.
    destruct (msgContent msg); [done|]. rewrite Nat.eqb_refl. cbn. by rewrite H2, Hp'.
Qed.
End repair.
(** A repaired history is closed, whatever the fragments collected: every
    assistant tool call is answered by the tool messages that follow it, and no
    tool message answers anything else; a history that was closed is left as it
    is, so a repair never has to be repeated. *)
Theorem repair_closes {X : Externals} (frags : list ContextFrag) (scope : Scope) (collector : str) :
  closed (RepairToolClosureFrags frags scope collector) /\
  (closed frags <-> RepairToolClosureFrags frags scope collector = frags).
Proof.
  assert (Hrun : forall frags, repair_ok (fold_left (repairFrag scope collector) frags (mkRepair [] [] ∅ 0))).
  { clear. intros frags. induction frags as [|f frags IH] using rev_ind; [|rewrite fold_left_app; by apply repairFrag_ok].
    split; [done|]. split_and!; cbn; [constructor| |set_solver]. intros id. rewrite lookup_empty. split; [set_solver|by intros [? ?]]. }
  assert (Hc : closed (RepairToolClosureFrags frags scope collector)).
  { unfold RepairToolClosureFrags. destruct (flush_ok scope collector _ (Hrun frags)) as [[H _] Ho]. by rewrite Ho in H. }
  split; [done|]. split; [|by intros <-]. intros Hclosed. unfold RepairToolClosureFrags, closed in *.
  assert (H : forall p, closure_run [] frags = Some p ->
    repaired (fold_left (repairFrag scope collector) frags (mkRepair [] [] ∅ 0)) = frags /\
    pendingOrder (fold_left (repairFrag scope collector) frags (mkRepair [] [] ∅ 0)) = p).
  { clear -Hrun. induction frags as [|f frags IH] using rev_ind; intros p; [by intros [= <-]|].
    rewrite closure_run_snoc, fold_left_app. cbn [fold_left].
    destruct (closure_run [] frags) as [q|]; [|done]. cbn. intros Hp. destruct (IH q eq_refl) as [Hr Ho].
    destruct (repairFrag_closed scope collector _ f p (Hrun frags)) as [-> ->]; [by rewrite Ho|]. by rewrite Hr. }
  destruct (H [] Hclosed) as [Hr Ho]. by rewrite flush_nothing.
Qed.
