(* ===== verification/ContextUnits.v ===== *)
(** * Context selection: tags, exchanges and the history budget

    Models [internal/contextview/selection_tag.go] and [selector_budget.go]:
    which fragments may be dropped, how tool calls and their results are
    grouped into units that stay or go together, and in which order units go
    when the history does not fit.  The Go code returns a set of dropped
    indexes and a map from these indexes to reasons, always updated together:
    here one map, whose domain is the set. *)

From stdpp Require Import sorting.
From S2P Require Import Prelude GoStr GoTrim ContextFrag.
#[local] Open Scope Z_scope.

(** ** Profiles and tags *)
Inductive SelectionTag : Type := TagMustKeep | TagPreserveRecent | TagPreserveToolClosure | TagCanDrop.
#[export] Instance SelectionTag_eq_dec : EqDecision SelectionTag.
Proof. solve_decision. Defined.
Definition tag_string (t : SelectionTag) : str :=
  match t with
  | TagMustKeep => lit "must_keep" | TagPreserveRecent => lit "preserve_recent"
  | TagPreserveToolClosure => lit "preserve_tool_closure" | TagCanDrop => lit "can_drop"
  end.
Record TaggedFrag : Type := mkTagged { tfFrag : ContextFrag; tfTags : list SelectionTag; tfTokens : Z }.
Definition hasSelectionTag (tags : list SelectionTag) (tag : SelectionTag) : bool := bool_decide (tag ∈ tags).
Definition HasTag (t : TaggedFrag) (tag : SelectionTag) : bool := hasSelectionTag (tfTags t) tag.
Definition appendSelectionTag (tags : list SelectionTag) (tag : SelectionTag) : list SelectionTag :=
  if hasSelectionTag tags tag then tags else tags ++ [tag].
Definition add_tag (t : TaggedFrag) (tag : SelectionTag) : TaggedFrag :=
  mkTagged (tfFrag t) (appendSelectionTag (tfTags t) tag) (tfTokens t).
Definition IntentRunConfigPreProvider : str := lit "run_config_pre_provider".
Definition IntentDiscussReply : str := lit "discuss_reply".
Definition IntentExternalAgentPrompt : str := lit "external_agent_prompt".
Record IntentProfile : Type := mkProfile {
  ipIntent : str; ipMustKeepSlots : list str; ipMustKeepFrag : option (ContextFrag -> bool);
  ipSlotTrustFloors : gmap str str }.
Definition mustKeepProviderSystemFrag (f : ContextFrag) : bool := str_eqb (fSlot f) SlotSystem.
Definition ProfileFor (intent : str) : IntentProfile :=
  if str_eqb intent IntentRunConfigPreProvider || str_eqb intent IntentDiscussReply then
    mkProfile intent [SlotCurrentUser] (Some mustKeepProviderSystemFrag) {[SlotSystem := TrustWorkspace]}
  else if str_eqb intent IntentExternalAgentPrompt then mkProfile intent [SlotCurrentUser] None ∅
  else mkProfile intent [] None ∅.
Definition isMustKeepFrag (f : ContextFrag) (profile : IntentProfile) : bool :=
  str_eqb (bpOverflow (fBudget f)) OverflowKeep ||
  str_eqb (fKind f) KindConversationSummary ||
  match ipMustKeepFrag profile with Some keep => keep f | None => false end ||
  existsb (str_eqb (fSlot f)) (ipMustKeepSlots profile).

(** The messages of a fragment, part by part. *)
Definition partMessages (f : ContextFrag) : list Message := omap partMessage (fParts f).
Definition is_exchange_part (p : MessagePart) : bool :=
  match p with ToolCallPart _ _ _ | ToolResultPart _ _ _ _ => true | _ => false end.
Definition isToolExchangeFrag (f : ContextFrag) : bool :=
  match FragMessage f with
  | None => false
  | Some msg => str_eqb (msgRole msg) MessageRoleTool || existsb is_exchange_part (msgContent msg)
  end.
Definition call_id (p : MessagePart) : list str :=
  match p with ToolCallPart id _ _ => if blank id then [] else [trim_space id] | _ => [] end.
Definition result_id (p : MessagePart) : list str :=
  match p with ToolResultPart id _ _ _ => if blank id then [] else [trim_space id] | _ => [] end.
Definition fragToolCallIDs (f : ContextFrag) : list str := flat_map (fun m => flat_map call_id (msgContent m)) (partMessages f).
Definition fragToolResultCallIDs (f : ContextFrag) : list str :=
  flat_map (fun m => flat_map result_id (msgContent m)) (partMessages f).

Section tags.
Context {U : Unicode} {X : Externals}.
Definition equalToolName (got want : str) : bool := equal_fold (trim_space got) (trim_space want).
Definition isRole (got want : str) : bool := equal_fold (trim_space got) want.
Definition rawToolName (p : MessagePart) : str := trim_space (json_tool_name p).
Definition messageHasToolName (msg : Message) (name : str) : bool :=
  existsb (fun p => match p with
                    | ToolCallPart _ n _ | ToolResultPart _ n _ _ => equalToolName n name
                    | _ => equalToolName (rawToolName p) name
                    end) (msgContent msg).
Definition hasAskUserTool (f : ContextFrag) : bool := existsb (fun m => messageHasToolName m (lit "ask_user")) (partMessages f).
Definition isToolResultFrag (f : ContextFrag) : bool :=
  isRole (fRole f) MessageRoleTool || existsb (fun m => isRole (msgRole m) MessageRoleTool) (partMessages f).
Definition isToolClosureResult (t : TaggedFrag) : bool := HasTag t TagPreserveToolClosure && isToolResultFrag (tfFrag t).
Definition isUserFrag (f : ContextFrag) : bool :=
  isRole (fRole f) MessageRoleUser || existsb (fun m => isRole (msgRole m) MessageRoleUser) (partMessages f).
Definition latestUserIndex (tagged : list TaggedFrag) : option nat := find_last (fun t => isUserFrag (tfFrag t)) tagged.
(** The loop of [recentTailProtectedStart], from [start] down. *)
Fixpoint tailStart (minStart : nat) (tagged : list TaggedFrag) (start : nat) : nat :=
  match start with
  | O => O
  | S k => if (minStart <? S k)%nat && match tagged !! S k with Some t => isToolClosureResult t | None => false end
           then tailStart minStart tagged k else S k
  end.
Definition recentTailProtectedStart (tagged : list TaggedFrag) (minStart : nat) : nat :=
  tailStart minStart tagged (length tagged - 1).
Definition recentProtectedStart (tagged : list TaggedFrag) : nat :=
  match latestUserIndex tagged with Some i => i | None => recentTailProtectedStart tagged 0 end.
Definition markRecentAndDropTags (tagged : list TaggedFrag) : list TaggedFrag :=
  if bool_decide (latestUserIndex tagged = Some 0%nat) && (1 <? length tagged)%nat then
    let tailStart := recentTailProtectedStart tagged 1 in
    imap (fun i t => if (i =? 0)%nat || (tailStart <=? i)%nat || HasTag t TagMustKeep
                     then add_tag t TagPreserveRecent else add_tag t TagCanDrop) tagged
  else
    let start := recentProtectedStart tagged in
    imap (fun i t => if HasTag t TagMustKeep then add_tag t TagPreserveRecent
                     else if (i <? start)%nat then add_tag t TagCanDrop else add_tag t TagPreserveRecent) tagged.
Definition tagFragment (profile : IntentProfile) (f : ContextFrag) : TaggedFrag :=
  let t := mkTagged f [] (ResolveFragTokens f) in
  let t := if isMustKeepFrag f profile then add_tag t TagMustKeep else t in
  let t := if isToolExchangeFrag f then add_tag t TagPreserveToolClosure else t in
  if hasAskUserTool f then add_tag (add_tag t TagMustKeep) TagPreserveToolClosure else t.
Definition tagFragments (frags : list ContextFrag) (profile : IntentProfile) : list TaggedFrag :=
  markRecentAndDropTags (map (tagFragment profile) frags).
End tags.
Definition selectionDropReason (t : TaggedFrag) : str :=
  match List.find (HasTag t) [TagMustKeep; TagPreserveRecent; TagCanDrop; TagPreserveToolClosure] with
  | Some tag => tag_string tag
  | None => if is_empty (fID (tfFrag t)) then tag_string TagCanDrop else lit "not_selected"
  end.

(** ** Attention *)
Definition budgetDropReasonPassive : str := lit "budget:passive".
Definition budgetDropReasonUntiered : str := lit "budget:untiered".
Definition budgetDropReasonDirected : str := lit "budget:directed".
Definition budgetDropReasonRecentWindow : str := lit "budget:recent_window".
Definition budgetDropReasonOrphanExchange : str := lit "budget:orphan_tool_exchange".
Definition attentionTierPassive : Z := 0.
Definition attentionTierUntiered : Z := 1.
Definition attentionTierDirected : Z := 2.
Definition fragAttentionTier (f : ContextFrag) : Z :=
  match scAttention (fScope f) with
  | [] => attentionTierUntiered
  | reasons => if existsb (fun r => negb (str_eqb r AttentionPassive)) reasons then attentionTierDirected else attentionTierPassive
  end.
Definition budgetDropReasonForTier (tier : Z) : str :=
  if tier =? attentionTierPassive then budgetDropReasonPassive
  else if tier =? attentionTierDirected then budgetDropReasonDirected else budgetDropReasonUntiered.

(** ** Units *)
Record budgetUnit : Type := mkUnit {
  uIndexes : list nat; uTokens : Z; uAttentionTier : Z; uHasAttention : bool; uDroppable : bool;
  uHasCall : bool; uHasResult : bool }.
Definition noUnit (droppable : bool) : budgetUnit := mkUnit [] 0 0 false droppable false false.
Definition unit_tier (u : budgetUnit) : Z := if uHasAttention u then uAttentionTier u else attentionTierUntiered.
Definition orphanToolExchange (u : budgetUnit) : bool := negb (Bool.eqb (uHasCall u) (uHasResult u)).
Definition mergedUnit (to from : budgetUnit) : budgetUnit :=
  mkUnit (uIndexes to ++ uIndexes from) (uTokens to + uTokens from)
    (if uHasAttention from && (negb (uHasAttention to) || (uAttentionTier to <? uAttentionTier from))
     then uAttentionTier from else uAttentionTier to)
    (uHasAttention to || uHasAttention from) (uDroppable to && uDroppable from)
    (uHasCall to || uHasCall from) (uHasResult to || uHasResult from).
Definition mergeBudgetUnits (units : list budgetUnit) (dest src : nat) (open : gmap str nat) :
    list budgetUnit * gmap str nat :=
  match units !! src with
  | Some from =>
      (<[src := noUnit false]> (alter (fun to => mergedUnit to from) dest units),
       (fun idx => if (idx =? src)%nat then dest else idx) <$> open)
  | None => (units, open)
  end.
Definition addFragToBudgetUnit (u : budgetUnit) (index : nat) (t : TaggedFrag) : budgetUnit :=
  let f := tfFrag t in
  let attended := negb (bool_decide (scAttention (fScope f) = [])) in
  let tier := fragAttentionTier f in
  mkUnit (uIndexes u ++ [index]) (uTokens u + tfTokens t)
    (if attended && (negb (uHasAttention u) || (uAttentionTier u <? tier)) then tier else uAttentionTier u)
    (uHasAttention u || attended) (uDroppable u && HasTag t TagCanDrop)
    (uHasCall u || negb (bool_decide (fragToolCallIDs f = [])))
    (uHasResult u || negb (bool_decide (fragToolResultCallIDs f = []))).
(** The variables of [buildBudgetUnits]: the units, the units of the open calls
    and, while the results of a fragment are looked at, the unit it joins. *)
Record UnitState : Type := mkUnitState { usUnits : list budgetUnit; usOpen : gmap str nat; usHome : option nat }.
Definition closeResult (s : UnitState) (id : str) : UnitState :=
  match usOpen s !! id with
  | None => s
  | Some idx =>
      let open := delete id (usOpen s) in
      match usHome s with
      | None => mkUnitState (usUnits s) open (Some idx)
      | Some home =>
          if (home =? idx)%nat then mkUnitState (usUnits s) open (Some home)
          else let '(units, open) := mergeBudgetUnits (usUnits s) home idx open in mkUnitState units open (Some home)
      end
  end.
Definition unitStep (s : UnitState) (it : nat * TaggedFrag) : UnitState :=
  let '(i, t) := it in
  let s := fold_left closeResult (fragToolResultCallIDs (tfFrag t)) (mkUnitState (usUnits s) (usOpen s) None) in
  let '(home, units) := match usHome s with
                        | Some home => (home, usUnits s)
                        | None => (length (usUnits s), usUnits s ++ [noUnit true])
                        end in
  mkUnitState (alter (fun u => addFragToBudgetUnit u i t) home units)
    (fold_left (fun open id => <[id := home]> open) (fragToolCallIDs (tfFrag t)) (usOpen s)) (Some home).
Definition enumerate {A} (l : list A) : list (nat * A) := imap (fun i x => (i, x)) l.
Definition unitRun (tagged : list TaggedFrag) : UnitState :=
  fold_left unitStep (enumerate tagged) (mkUnitState [] ∅ None).
Definition buildBudgetUnits (tagged : list TaggedFrag) : list budgetUnit := usUnits (unitRun tagged).

(** ** Dropping *)
Definition dropUnit (u : budgetUnit) (reason : str) (drops : gmap nat str) : gmap nat str :=
  fold_left (fun drops idx => <[idx := reason]> drops) (uIndexes u) drops.
Definition totalTokens (pool : list budgetUnit) : Z := fold_right (fun u n => uTokens u + n) 0 pool.
(** How many units at the end of the pool fit the recent window. *)
Fixpoint recentCount (acc recent : Z) (newest_first : list budgetUnit) : nat :=
  match newest_first with
  | [] => O
  | u :: r => if acc + uTokens u <=? recent then S (recentCount (acc + uTokens u) recent r) else O
  end.
Fixpoint dropTier (band : list budgetUnit) (tier maxTokens : Z) (reason : str) (drops : gmap nat str) (total : Z) :
    gmap nat str * Z :=
  match band with
  | [] => (drops, total)
  | u :: r =>
      if total <=? maxTokens then (drops, total)
      else if negb (unit_tier u =? tier) then dropTier r tier maxTokens reason drops total
      else dropTier r tier maxTokens reason (dropUnit u reason drops) (total - uTokens u)
  end.
Fixpoint dropTiers (tiers : list Z) (outside inside : list budgetUnit) (maxTokens : Z) (drops : gmap nat str) (total : Z) :
    gmap nat str * Z :=
  match tiers with
  | [] => (drops, total)
  | tier :: r =>
      if total <=? maxTokens then (drops, total)
      else
        let '(drops, total) := dropTier outside tier maxTokens (budgetDropReasonForTier tier) drops total in
        let '(drops, total) := dropTier inside tier maxTokens budgetDropReasonRecentWindow drops total in
        dropTiers r outside inside maxTokens drops total
  end.
Definition orphanDrops (units : list budgetUnit) : gmap nat str :=
  fold_left (fun drops u => if uDroppable u && orphanToolExchange u
                            then dropUnit u budgetDropReasonOrphanExchange drops else drops) units ∅.
Definition dropPool (units : list budgetUnit) : list budgetUnit :=
  List.filter (fun u => uDroppable u && negb (orphanToolExchange u)) units.
Definition attentionTiers : list Z := [attentionTierPassive; attentionTierUntiered; attentionTierDirected].
Definition budgetTrimDropsEnabled (tagged : list TaggedFrag) (maxTokens recentProtectTokens : Z) : gmap nat str :=
  let maxTokens := if maxTokens <? 0 then 0 else maxTokens in
  let units := buildBudgetUnits tagged in
  let drops := orphanDrops units in
  let pool := dropPool units in
  let total := totalTokens pool in
  if total <=? maxTokens then drops
  else
    let protectedStart := (length pool - recentCount 0 recentProtectTokens (rev pool))%nat in
    (dropTiers attentionTiers (take protectedStart pool) (drop protectedStart pool) maxTokens drops total).1.
Definition budgetTrimDrops (tagged : list TaggedFrag) (maxTokens recentProtectTokens : Z) : gmap nat str :=
  if maxTokens <=? 0 then ∅ else budgetTrimDropsEnabled tagged maxTokens recentProtectTokens.
Definition orphanExchangeDrops (tagged : list TaggedFrag) : gmap nat str := orphanDrops (buildBudgetUnits tagged).

(** ** Costs *)
Definition is_history_index (tagged : list TaggedFrag) (idx : nat) : bool :=
  match tagged !! idx with
  | Some t => negb (str_eqb (fSlot (tfFrag t)) SlotSystem || str_eqb (fSlot (tfFrag t)) SlotCurrentUser ||
                    str_eqb (fKind (tfFrag t)) KindCurrentUserMessage)
  | None => false
  end.
Definition tokens_at (tagged : list TaggedFrag) (idx : nat) : Z :=
  match tagged !! idx with Some t => tfTokens t | None => 0 end.
Definition sum_at (tagged : list TaggedFrag) (l : list nat) : Z := fold_right (fun idx n => tokens_at tagged idx + n) 0 l.
Definition protectedHistoryTokenCost (tagged : list TaggedFrag) : Z :=
  fold_right (fun u n => (if uDroppable u then 0 else sum_at tagged (List.filter (is_history_index tagged) (uIndexes u))) + n) 0
    (buildBudgetUnits tagged).
Definition droppableHistoryTokenCost (tagged : list TaggedFrag) : Z :=
  totalTokens (List.filter uDroppable (buildBudgetUnits tagged)).
Definition hasSpatialBudgetDrop (reasons : gmap nat str) : bool :=
  existsb (fun kv => negb (str_eqb kv.2 budgetDropReasonOrphanExchange)) (map_to_list reasons).

(** ** What units are *)
(** A property of the fragment at an index. *)
Definition at_index (tagged : list TaggedFrag) (p : TaggedFrag -> bool) (idx : nat) : bool :=
  match tagged !! idx with Some t => p t | None => false end.
Definition can_drop (t : TaggedFrag) : bool := HasTag t TagCanDrop.
Definition has_call (t : TaggedFrag) : bool := negb (bool_decide (fragToolCallIDs (tfFrag t) = [])).
Definition has_result (t : TaggedFrag) : bool := negb (bool_decide (fragToolResultCallIDs (tfFrag t) = [])).
Definition attended (t : TaggedFrag) : bool := negb (bool_decide (scAttention (fScope (tfFrag t)) = [])).
Definition directed (t : TaggedFrag) : bool := fragAttentionTier (tfFrag t) =? attentionTierDirected.
(** A unit accounts for its fragments. *)
Definition unit_sum (tagged : list TaggedFrag) (u : budgetUnit) : Prop :=
  NoDup (uIndexes u) /\ uTokens u = sum_at tagged (uIndexes u) /\
  uHasCall u = existsb (at_index tagged has_call) (uIndexes u) /\
  uHasResult u = existsb (at_index tagged has_result) (uIndexes u) /\
  uHasAttention u = existsb (at_index tagged attended) (uIndexes u) /\
  uAttentionTier u = (if existsb (at_index tagged directed) (uIndexes u) then attentionTierDirected else 0) /\
  (uIndexes u <> [] -> uDroppable u = forallb (at_index tagged can_drop) (uIndexes u)).
Definition unit_of (units : list budgetUnit) (i k : nat) : Prop := exists u, units !! k = Some u /\ i ∈ uIndexes u.
Definition together (units : list budgetUnit) (i j : nat) : Prop := exists k, unit_of units i k /\ unit_of units j k.
(** Every fragment is in exactly one unit. *)
Definition units_part (tagged : list TaggedFrag) (units : list budgetUnit) : Prop :=
  (forall i, (i < length tagged)%nat <-> exists k, unit_of units i k) /\
  (forall i k k', unit_of units i k -> unit_of units i k' -> k = k') /\
  (forall k u, units !! k = Some u -> unit_sum tagged u) /\
  (forall k u, units !! k = Some u -> uIndexes u = [] -> uDroppable u = false).
(** The call an identifier stands for after some fragments: the last one made
    under it, if nothing answered it since. *)
Definition open_after (o : option nat) (id : str) (it : nat * TaggedFrag) : option nat :=
  if bool_decide (id ∈ fragToolCallIDs (tfFrag it.2)) then Some it.1
  else if bool_decide (id ∈ fragToolResultCallIDs (tfFrag it.2)) then None else o.
Definition open_call (tagged : list TaggedFrag) (id : str) : option nat :=
  fold_left (fun o it => open_after o id it) (enumerate tagged) None.
Definition open_ok (calls : str -> option nat) (units : list budgetUnit) (open : gmap str nat) : Prop :=
  forall id, match calls id with
             | Some i => exists k, open !! id = Some k /\ unit_of units i k
             | None => open !! id = None
             end.
Definition unit_inv (tagged : list TaggedFrag) (s : UnitState) : Prop :=
  units_part tagged (usUnits s) /\ open_ok (open_call tagged) (usUnits s) (usOpen s).

(** The units of one tier, with their reasons. *)
Definition tier_block (outside inside : list budgetUnit) (tier : Z) : list (budgetUnit * str) :=
  map (fun u => (u, budgetDropReasonForTier tier)) (List.filter (fun u => unit_tier u =? tier) outside) ++
  map (fun u => (u, budgetDropReasonRecentWindow)) (List.filter (fun u => unit_tier u =? tier) inside).
(** ** The order in which units go *)
(** The fixed order: tier by tier, and in each tier the units outside the
    recent window before those inside, oldest first. *)
Definition drop_sequence (tagged : list TaggedFrag) (recentProtectTokens : Z) : list (budgetUnit * str) :=
  let pool := dropPool (buildBudgetUnits tagged) in
  let protectedStart := (length pool - recentCount 0 recentProtectTokens (rev pool))%nat in
  flat_map (tier_block (take protectedStart pool) (drop protectedStart pool)) attentionTiers.
Definition seqTokens (l : list (budgetUnit * str)) : Z := totalTokens l.*1.
(** The shortest prefix that brings the total within the allowance. *)
Fixpoint cut (maxTokens total : Z) (sequence : list (budgetUnit * str)) : list (budgetUnit * str) :=
  match sequence with
  | [] => []
  | ur :: r => if total <=? maxTokens then [] else ur :: cut maxTokens (total - uTokens ur.1) r
  end.
Definition applyDrops (drops : gmap nat str) (l : list (budgetUnit * str)) : gmap nat str :=
  fold_left (fun drops ur => dropUnit ur.1 ur.2 drops) l drops.
Definition dropped (drops : gmap nat str) (u : budgetUnit) : bool :=
  existsb (fun i => bool_decide (is_Some (drops !! i))) (uIndexes u).
(** Tokens of the droppable units that stay. *)
Definition keptDroppable (tagged : list TaggedFrag) (drops : gmap nat str) : Z :=
  totalTokens (List.filter (fun u => uDroppable u && negb (dropped drops u)) (buildBudgetUnits tagged)).
(** Tokens of the history fragments that stay. *)
Definition keptHistory (tagged : list TaggedFrag) (drops : gmap nat str) : Z :=
  sum_at tagged (List.filter (fun i => is_history_index tagged i && negb (bool_decide (is_Some (drops !! i)))) (seq 0 (length tagged))).

(** Fragments for the examples. *)
Definition sampleFrag (id role : str) (content : list MessagePart) (attention : list str) : ContextFrag :=
  mkContextFrag id noRef KindConversationEvent role SlotHistory 0 [] 0 [] CacheNever TrustUser
    (mkScope [] [] [] [] [] [] [] [] [] [] [] [] [] false false [] [] [] attention ∅) (mkBudgetPolicy 0 0 [])
    (mkRenderPolicy [] [] [] []) (mkProvenance [] [] [] 0) 0 [] [messagePart (mkMessage role content)].
Definition sampleTagged (id role : str) (content : list MessagePart) (attention : list str) : TaggedFrag :=
  mkTagged (sampleFrag id role content attention) [TagCanDrop] 10.
Definition sampleExchange : list TaggedFrag :=
  [sampleTagged (lit "f0") MessageRoleAssistant [ToolCallPart (lit "c") (lit "read") []] [];
   sampleTagged (lit "f1") MessageRoleTool [ToolResultPart (lit "c") (lit "read") [] false] [];
   sampleTagged (lit "f2") MessageRoleUser [TextPart (lit "hi")] [lit "mention"];
   sampleTagged (lit "f3") MessageRoleUser [TextPart (lit "lunch?")] [AttentionPassive]].

Lemma enumerate_snoc {A} (l : list A) x : enumerate (l ++ [x]) = enumerate l ++ [(length l, x)].
Proof. unfold enumerate. rewrite imap_app. simpl. by rewrite Nat.add_0_r. Qed.
Lemma sum_at_app tagged a b : sum_at tagged (a ++ b) = sum_at tagged a + sum_at tagged b.
Proof. induction a as [|x a IH]; cbn; [done|]. fold (sum_at tagged (a ++ b)) (sum_at tagged a). lia. Qed.
Lemma fold_units_app f (a b : list budgetUnit) :
  fold_right (fun u n => f u + n) 0 (a ++ b) = fold_right (fun u n => f u + n) 0 a + fold_right (fun u n => f u + n) 0 b.
Proof. induction a as [|x a IH]; cbn; [done|]. rewrite IH. lia. Qed.
Lemma directed_attended t : directed t = true -> attended t = true.
Proof. unfold directed, attended, fragAttentionTier. by destruct (scAttention (fScope (tfFrag t))). Qed.
Lemma attended_tier t : attended t = true -> fragAttentionTier (tfFrag t) = if directed t then attentionTierDirected else 0.
Proof. unfold directed, attended, fragAttentionTier. destruct (scAttention _); [done|]. by destruct (existsb _ _). Qed.

(** ** Merging two units *)
Section merge.
Variables (tagged : list TaggedFrag) (units : list budgetUnit) (dest src : nat) (to from : budgetUnit).
Hypotheses (Hto : units !! dest = Some to) (Hfrom : units !! src = Some from) (Hne : dest <> src).
Let units' := <[src := noUnit false]> (alter (fun to => mergedUnit to from) dest units).

Lemma merge_lookup k : units' !! k = if decide (k = src) then Some (noUnit false)
                                     else if decide (k = dest) then Some (mergedUnit to from) else units !! k.
Proof.
  assert (src < length units)%nat by by eapply lookup_lt_Some. subst units'.
  destruct (decide (k = src)) as [->|Hk]; [by rewrite list_lookup_insert_eq by by rewrite length_alter|].
  rewrite list_lookup_insert_ne by done. destruct (decide (k = dest)) as [->|Hd].
  - by rewrite list_lookup_alter_eq, Hto.
  - by rewrite list_lookup_alter_ne.
Qed.
Lemma merge_unit_of i k : unit_of units' i k <-> (k = dest /\ (unit_of units i dest \/ unit_of units i src)) \/
                                                (k <> dest /\ k <> src /\ unit_of units i k).
Proof.
  unfold unit_of. setoid_rewrite merge_lookup. destruct (decide (k = src)) as [->|Hk].
  { split; [intros (u & [= <-] & Hi); cbn in Hi; set_solver|]. intros [[-> _]|(_ & ? & _)]; done. }
  destruct (decide (k = dest)) as [->|Hd].
  - split.
    + intros (u & [= <-] & [Hi|Hi]%elem_of_app); left; eauto.
    + intros [[_ [(u & Hu & Hi)|(u & Hu & Hi)]]|(? & _)]; [| |done]; simplify_eq;
        (eexists; split; [done|]; apply elem_of_app; auto).
  - split; [intros (u & Hu & Hi); right; eauto|]. intros [[? _]|(_ & _ & ?)]; done.
Qed.
Lemma merge_together i j : together units i j -> together units' i j.
Proof.
  intros (k & Hi & Hj). destruct (decide (k = src)) as [->|Hs]; [exists dest; rewrite !merge_unit_of; naive_solver|].
  exists k. rewrite !merge_unit_of. destruct (decide (k = dest)) as [->|]; naive_solver.
Qed.
Lemma merge_open calls open : open_ok calls units open -> open_ok calls units' ((fun idx => if (idx =? src)%nat then dest else idx) <$> open).
Proof.
  intros H id. specialize (H id). destruct (calls id) as [i|]; [|by rewrite lookup_fmap, H].
  destruct H as (k & Hk & Hi). rewrite lookup_fmap, Hk. cbn. eexists. split; [done|]. rewrite merge_unit_of.
  destruct (Nat.eqb_spec k src) as [->|Hs]; [by left; auto|]. destruct (decide (k = dest)) as [->|]; auto.
Qed.
Lemma merge_part : uIndexes to <> [] -> uIndexes from <> [] -> units_part tagged units -> units_part tagged units'.
Proof.
  intros Hnt Hnf (H1 & H2 & H3 & H4). split_and!.
  - intros i. rewrite H1. split.
    + intros [k Hk]. destruct (decide (k = src)) as [->|]; [exists dest; rewrite merge_unit_of; naive_solver|].
      exists k. rewrite merge_unit_of. destruct (decide (k = dest)) as [->|]; naive_solver.
    + intros [k Hk]. rewrite merge_unit_of in Hk. naive_solver.
  - intros i k k'. rewrite !merge_unit_of. intros [[-> [?|?]]|(? & ? & ?)] [[-> [?|?]]|(? & ? & ?)]; try done; eauto;
      exfalso; naive_solver.
  - intros k u. rewrite merge_lookup. destruct (decide (k = src)) as [->|Hs].
    { intros [= <-]. split_and!; try done. constructor. }
    destruct (decide (k = dest)) as [->|]; [|by apply H3]. intros [= <-].
    destruct (H3 dest to Hto) as (T0 & T1 & T2 & T3 & T4 & T5 & T6). destruct (H3 src from Hfrom) as (F0 & F1 & F2 & F3 & F4 & F5 & F6).
    unfold unit_sum, mergedUnit; cbn [uIndexes uTokens uHasCall uHasResult uHasAttention uAttentionTier uDroppable]. rewrite !existsb_app, forallb_app, sum_at_app.
    rewrite T1, T2, T3, T4, T5, T6, F1, F2, F3, F4, F5, F6 by done. split_and!; try done.
    + apply NoDup_app. split_and!; [done| |done]. intros i Hi Hi'. apply Hne. apply (H2 i); [by exists to|by exists from].
    + unfold attentionTierDirected. destruct (existsb (at_index tagged attended) (uIndexes from)) eqn:Ea;
        destruct (existsb (at_index tagged directed) (uIndexes to)) eqn:Et; destruct (existsb (at_index tagged directed) (uIndexes from)) eqn:Ef;
        destruct (negb (existsb (at_index tagged attended) (uIndexes to))) eqn:Eb; try done; exfalso; bool_hyps.
      all: try (assert (existsb (at_index tagged attended) (uIndexes from) = true); [|congruence];
        apply existsb_exists in Ef as (x & Hx & Hd); apply existsb_exists; exists x; split; [done|];
        unfold at_index in *; destruct (tagged !! x); [|done]; by apply directed_attended).
      all: (assert (existsb (at_index tagged attended) (uIndexes to) = true); [|congruence];
        apply existsb_exists in Et as (x & Hx & Hd); apply existsb_exists; exists x; split; [done|];
        unfold at_index in *; destruct (tagged !! x); [|done]; by apply directed_attended).
  - intros k u. rewrite merge_lookup. destruct (decide (k = src)) as [->|Hs]; [by intros [= <-]|].
    destruct (decide (k = dest)) as [->|]; [|by apply H4]. intros [= <-] [? ?]%app_eq_nil. done.
Qed.
End merge.

(** ** One fragment *)
Definition without (c : str -> option nat) (ids : list str) (id : str) : option nat :=
  if bool_decide (id ∈ ids) then None else c id.
Definition closing (tagged : list TaggedFrag) (c : str -> option nat) (ids : list str) (s : UnitState) : Prop :=
  units_part tagged (usUnits s) /\ open_ok (without c ids) (usUnits s) (usOpen s) /\
  match usHome s with
  | None => forall id, id ∈ ids -> c id = None
  | Some h => (exists i, unit_of (usUnits s) i h) /\ forall id i, id ∈ ids -> c id = Some i -> unit_of (usUnits s) i h
  end.
Lemma unit_of_nonempty units i k u : unit_of units i k -> units !! k = Some u -> uIndexes u <> [].
Proof. intros (u' & Hu & Hi) Hk. simplify_eq. intros E. rewrite E in Hi. set_solver. Qed.
Lemma open_ok_ext c c' units open : (forall id, c id = c' id) -> open_ok c units open -> open_ok c' units open.
Proof. intros H Ho id. rewrite <- H. apply Ho. Qed.
Lemma without_snoc c ids id x : without c (ids ++ [id]) x = if decide (x = id) then None else without c ids x.
Proof.
  unfold without. destruct (decide (x = id)) as [->|Hne]; [by rewrite bool_decide_true by set_solver|].
  by rewrite (bool_decide_ext (x ∈ ids ++ [id]) (x ∈ ids)) by set_solver.
Qed.
Lemma open_delete c units open id : open_ok c units open -> open_ok (fun x => if decide (x = id) then None else c x) units (delete id open).
Proof.
  intros H x. destruct (decide (x = id)) as [->|Hne]; [by rewrite lookup_delete_eq|]. rewrite lookup_delete_ne by done. apply H.
Qed.
Lemma closeResult_ok tagged c ids s id : closing tagged c ids s ->
  closing tagged c (ids ++ [id]) (closeResult s id) /\
  forall i j, together (usUnits s) i j -> together (usUnits (closeResult s id)) i j.
Proof.
  intros (Hp & Ho & Hh). unfold closeResult. pose proof (Ho id) as Hid.
  assert (Hext : forall units open, open_ok (fun x => if decide (x = id) then None else without c ids x) units open ->
                 open_ok (without c (ids ++ [id])) units open).
  { intros units open. apply open_ok_ext. intros x. by rewrite without_snoc. }
  pose proof (open_delete _ _ _ id Ho) as Hd. apply Hext in Hd.
  destruct (without c ids id) as [i|] eqn:Ec.
  2:{ rewrite Hid. split; [|done]. split_and!; [done| |].
      - rewrite (delete_id (usOpen s)) in Hd by done. done.
      - assert (Hnew : forall i, c id = Some i -> id ∈ ids).
        { intros i Hi. unfold without in Ec. destruct (bool_decide (id ∈ ids)) eqn:E; bool_hyps; [done|congruence]. }
        destruct (usHome s) as [h|].
        + destruct Hh as [Hn Hh]. split; [done|]. intros id' i' [?|Hx%list_elem_of_singleton]%elem_of_app Hi; [by eapply Hh|].
          subst id'. eapply Hh; [by eapply Hnew|done].
        + intros id' [?|Hx%list_elem_of_singleton]%elem_of_app; [by apply Hh|]. subst id'.
          destruct (c id) as [i|] eqn:Hi; [|done]. rewrite <- Hi. apply Hh. by eapply Hnew. }
  destruct Hid as (k & Hk & Hi). rewrite Hk.
  assert (Hci : forall i', c id = Some i' -> i' = i).
  { intros i' Hi'. unfold without in Ec. destruct (bool_decide _); congruence. }
  destruct (usHome s) as [h|].
  2:{ split; [|done]. split_and!; [done|done|]. split; [by exists i|].
      intros id' i' [Hx|Hx%list_elem_of_singleton]%elem_of_app Hc; [by rewrite Hh in Hc|]. subst id'.
      by rewrite (Hci i') by done. }
  destruct Hh as [[ih Hih] Hh]. destruct (Nat.eqb_spec h k) as [->|Hne].
  { split; [|done]. split_and!; [done|done|]. split; [by exists ih|].
    intros id' i' [?|Hx%list_elem_of_singleton]%elem_of_app Hc; [by eapply Hh|]. subst id'. by rewrite (Hci i') by done. }
  unfold mergeBudgetUnits. pose proof Hih as (to & Hto & _). pose proof Hi as (from & Hfrom & _). rewrite Hfrom.
  pose proof (merge_unit_of _ _ _ _ _ Hto Hfrom Hne) as Hmu. split.
  - split_and!; cbn [usUnits usOpen usHome].
    + apply (merge_part tagged (usUnits s) h k to from Hto Hfrom Hne); [exact (unit_of_nonempty _ _ _ _ Hih Hto)|exact (unit_of_nonempty _ _ _ _ Hi Hfrom)|done].
    + by apply (merge_open (usUnits s) h k to from Hto Hfrom).
    + split; [exists ih; apply Hmu; by left; auto|].
      intros id' i' [?|Hx%list_elem_of_singleton]%elem_of_app Hc; apply Hmu; left; (split; [done|]); [left; by eapply Hh|].
      subst id'. right. by rewrite (Hci i') by done.
  - intros a b. apply (merge_together _ _ _ to from Hto Hfrom Hne).
Qed.
Lemma closeResults_ok tagged c rs ids s : closing tagged c ids s ->
  closing tagged c (ids ++ rs) (fold_left closeResult rs s) /\
  forall i j, together (usUnits s) i j -> together (usUnits (fold_left closeResult rs s)) i j.
Proof.
  revert ids s. induction rs as [|r rs IH]; intros ids s Hs; [by rewrite app_nil_r|]. cbn [fold_left].
  destruct (closeResult_ok _ _ _ _ r Hs) as [H1 H2]. destruct (IH _ _ H1) as [H3 H4]. rewrite <- app_assoc in H3. split; [done|auto].
Qed.

(** Adding the next fragment to its unit. *)
Section add.
Variables (tagged : list TaggedFrag) (t : TaggedFrag).
Lemma at_index_snoc p i : at_index (tagged ++ [t]) p i = if (i =? length tagged)%nat then p t else at_index tagged p i.
Proof.
  unfold at_index. destruct (Nat.eqb_spec i (length tagged)) as [->|Hne]; [by rewrite lookup_app_r, Nat.sub_diag|].
  destruct (decide (i < length tagged)%nat) as [Hl|Hl]; [by rewrite lookup_app_l by done|].
  rewrite lookup_app_r by lia. rewrite (lookup_ge_None_2 tagged i) by lia.
  destruct (i - length tagged)%nat eqn:E; [lia|]. done.
Qed.
Lemma tokens_at_snoc i : tokens_at (tagged ++ [t]) i = if (i =? length tagged)%nat then tfTokens t else tokens_at tagged i.
Proof.
  unfold tokens_at. destruct (Nat.eqb_spec i (length tagged)) as [->|Hne]; [by rewrite lookup_app_r, Nat.sub_diag|].
  destruct (decide (i < length tagged)%nat) as [Hl|Hl]; [by rewrite lookup_app_l by done|].
  rewrite lookup_app_r by lia. rewrite (lookup_ge_None_2 tagged i) by lia.
  destruct (i - length tagged)%nat eqn:E; [lia|]. done.
Qed.
Lemma existsb_snoc p l : (forall i, i ∈ l -> (i < length tagged)%nat) ->
  existsb (at_index (tagged ++ [t]) p) l = existsb (at_index tagged p) l.
Proof.
  intros H. induction l as [|i l IH]; [done|]. cbn. rewrite IH by (intros; apply H; by right). rewrite at_index_snoc.
  pose proof (H i ltac:(by left)). by destruct (Nat.eqb_spec i (length tagged)); [lia|].
Qed.
Lemma forallb_snoc p l : (forall i, i ∈ l -> (i < length tagged)%nat) ->
  forallb (at_index (tagged ++ [t]) p) l = forallb (at_index tagged p) l.
Proof.
  intros H. induction l as [|i l IH]; [done|]. cbn. rewrite IH by (intros; apply H; by right). rewrite at_index_snoc.
  pose proof (H i ltac:(by left)). by destruct (Nat.eqb_spec i (length tagged)); [lia|].
Qed.
Lemma sum_at_snoc l : (forall i, i ∈ l -> (i < length tagged)%nat) -> sum_at (tagged ++ [t]) l = sum_at tagged l.
Proof.
  intros H. induction l as [|i l IH]; [done|]. cbn. fold (sum_at tagged l) (sum_at (tagged ++ [t]) l).
  rewrite IH by (intros; apply H; by right). rewrite tokens_at_snoc.
  pose proof (H i ltac:(by left)). by destruct (Nat.eqb_spec i (length tagged)); [lia|].
Qed.
Lemma unit_sum_snoc u : (forall i, i ∈ uIndexes u -> (i < length tagged)%nat) -> unit_sum tagged u -> unit_sum (tagged ++ [t]) u.
Proof.
  intros Hi. unfold unit_sum. rewrite !existsb_snoc, forallb_snoc, sum_at_snoc by done. done.
Qed.
Lemma unit_sum_add u : (forall i, i ∈ uIndexes u -> (i < length tagged)%nat) -> unit_sum tagged u ->
  (uIndexes u = [] -> uDroppable u = true) -> unit_sum (tagged ++ [t]) (addFragToBudgetUnit u (length tagged) t).
Proof.
  intros Hi (H0 & H1 & H2 & H3 & H4 & H5 & H6) Hd. unfold unit_sum, addFragToBudgetUnit.
  cbn [uIndexes uTokens uHasCall uHasResult uHasAttention uAttentionTier uDroppable].
  rewrite !existsb_app, forallb_app, sum_at_app, !(fun p => existsb_snoc p (uIndexes u)), forallb_snoc, sum_at_snoc by done.
  assert (Hself : forall p, at_index (tagged ++ [t]) p (length tagged) = p t) by (intros p; by rewrite at_index_snoc, Nat.eqb_refl).
  cbn [existsb forallb sum_at fold_right]. rewrite !Hself, tokens_at_snoc, Nat.eqb_refl, !orb_false_r, andb_true_r, Z.add_0_r.
  split_and!.
  - apply NoDup_app. split_and!; [done| |apply NoDup_singleton]. intros i Hin Hi'%list_elem_of_singleton. subst i.
    apply Hi in Hin. lia.
  - by rewrite H1.
  - by rewrite H2.
  - by rewrite H3.
  - by rewrite H4.
  - rewrite H4, H5. fold (attended t). destruct (attended t) eqn:Ea.
    + rewrite (attended_tier t Ea).
      assert (Hdir : existsb (at_index tagged attended) (uIndexes u) = false -> existsb (at_index tagged directed) (uIndexes u) = false).
      { intros Hf. apply not_true_is_false. intros (i & Hin & Hp)%existsb_exists.
        assert (existsb (at_index tagged attended) (uIndexes u) = true); [|congruence]. apply existsb_exists. exists i. split; [done|].
        unfold at_index in *. destruct (tagged !! i); [|done]. by apply directed_attended. }
      unfold attentionTierDirected. destruct (existsb (at_index tagged attended) (uIndexes u)) eqn:Eu; cbn [negb orb andb].
      * destruct (existsb (at_index tagged directed) (uIndexes u)), (directed t); done.
      * rewrite Hdir by done. by destruct (directed t).
    + cbn [andb]. assert (directed t = false) as ->; [|by rewrite orb_false_r].
      apply not_true_is_false. intros Hdt%directed_attended. congruence.
  - intros _. unfold can_drop at 2. destruct (uIndexes u) as [|i0 l0] eqn:E.
    + by rewrite Hd.
    + by rewrite H6.
Qed.
End add.

(** The units with the next fragment in the unit [h]. *)
Section place.
Variables (tagged : list TaggedFrag) (t : TaggedFrag) (units : list budgetUnit) (h : nat) (u0 : budgetUnit).
Hypotheses (Hh : units !! h = Some u0)
  (Hall : forall i, (i < length tagged)%nat <-> exists k, unit_of units i k)
  (Huniq : forall i k k', unit_of units i k -> unit_of units i k' -> k = k')
  (Hsum : forall k u, units !! k = Some u -> unit_sum tagged u)
  (Hempty : forall k u, units !! k = Some u -> uIndexes u = [] -> uDroppable u = bool_decide (k = h)).
Let units' := alter (fun u => addFragToBudgetUnit u (length tagged) t) h units.
Lemma place_unit_of i k : unit_of units' i k <-> unit_of units i k \/ (i = length tagged /\ k = h).
Proof.
  clear Hall Huniq Hsum Hempty. unfold unit_of, units'. destruct (decide (k = h)) as [->|Hne].
  - rewrite list_lookup_alter_eq, Hh. cbn. split.
    + intros (u & [= <-] & [Hi|Hi%list_elem_of_singleton]%elem_of_app); [left; eauto|by right].
    + intros [(u & [= <-] & Hi)|[-> _]]; eexists; (split; [done|]); apply elem_of_app; [by left|right; by apply list_elem_of_singleton].
  - rewrite list_lookup_alter_ne by done. naive_solver.
Qed.
Lemma place_range i k u : units !! k = Some u -> i ∈ uIndexes u -> (i < length tagged)%nat.
Proof. intros Hk Hi. apply Hall. by exists k, u. Qed.
Lemma place_part : units_part (tagged ++ [t]) units'.
Proof.
  split_and!.
  - intros i. rewrite length_app. cbn. setoid_rewrite place_unit_of. split.
    + intros Hi. destruct (decide (i = length tagged)) as [->|Hne]; [exists h; by right|].
      destruct (proj1 (Hall i)) as [k Hk]; [lia|]. exists k. by left.
    + intros [k [Hk|[-> _]]]; [|lia]. assert (i < length tagged)%nat by (apply Hall; by exists k). lia.
  - assert (Hnew : forall k, unit_of units (length tagged) k -> False).
    { intros k Hk. assert (length tagged < length tagged)%nat; [|lia]. apply Hall. by exists k. }
    intros i k k'. rewrite !place_unit_of. intros [H|[-> ->]] [H'|[H1' H2']]; subst; eauto; exfalso; eauto.
  - intros k u Hk. unfold units' in Hk. destruct (decide (k = h)) as [->|Hne].
    + rewrite list_lookup_alter_eq, Hh in Hk. injection Hk as <-. apply unit_sum_add; [|by eapply Hsum|].
      * intros i. by eapply place_range.
      * intros He. rewrite (Hempty h u0 Hh He). by rewrite bool_decide_true.
    + rewrite list_lookup_alter_ne in Hk by done. apply unit_sum_snoc; [|by eapply Hsum]. intros i. by eapply place_range.
  - intros k u Hk He. unfold units' in Hk. destruct (decide (k = h)) as [->|Hne].
    + rewrite list_lookup_alter_eq, Hh in Hk. injection Hk as <-. cbn in He. by apply app_eq_nil in He as [_ ?].
    + rewrite list_lookup_alter_ne in Hk by done. rewrite (Hempty k u Hk He). by rewrite bool_decide_false.
Qed.
End place.
Lemma fold_insert_lookup (ids : list str) (h : nat) (open : gmap str nat) id :
  fold_left (fun (open : gmap str nat) id => <[id := h]> open) ids open !! id = if bool_decide (id ∈ ids) then Some h else open !! id.
Proof.
  revert open. induction ids as [|x ids IH]; intros open; [by rewrite bool_decide_false by set_solver|]. cbn [fold_left].
  rewrite IH. destruct (decide (id = x)) as [->|Hne].
  - rewrite lookup_insert_eq, (bool_decide_true (x ∈ x :: ids)) by by left. by case_if.
  - rewrite lookup_insert_ne by done. by rewrite (bool_decide_ext (id ∈ x :: ids) (id ∈ ids)) by set_solver.
Qed.
Lemma unit_of_snoc units u i k : uIndexes u = [] -> unit_of (units ++ [u]) i k <-> unit_of units i k.
Proof.
  intros Hu. unfold unit_of. destruct (decide (k < length units)%nat) as [Hl|Hl].
  - by setoid_rewrite lookup_app_l; [|done].
  - split; [|intros (u' & Hk & _); apply lookup_lt_Some in Hk; lia]. rewrite lookup_app_r by lia.
    intros (u' & Hk & Hi). apply list_lookup_singleton_Some in Hk as [_ <-]. rewrite Hu in Hi. set_solver.
Qed.
Lemma open_call_snoc tagged t id : open_call (tagged ++ [t]) id = open_after (open_call tagged id) id (length tagged, t).
Proof. unfold open_call. by rewrite enumerate_snoc, fold_left_app. Qed.
Lemma together_sym units i j : together units i j -> together units j i.
Proof. intros (k & Hi & Hj). by exists k. Qed.
Lemma unitStep_ok tagged t s : unit_inv tagged s ->
  let s' := unitStep s (length tagged, t) in
  unit_inv (tagged ++ [t]) s' /\ (forall i j, together (usUnits s) i j -> together (usUnits s') i j) /\
  (forall id i, id ∈ fragToolResultCallIDs (tfFrag t) -> open_call tagged id = Some i -> together (usUnits s') i (length tagged)).
Proof.
  intros [Hp Ho]. cbv zeta. unfold unitStep.
  set (s0 := mkUnitState (usUnits s) (usOpen s) None).
  assert (Hc : closing tagged (open_call tagged) [] s0).
  { split_and!; [done| |by intros id ?%not_elem_of_nil]. eapply open_ok_ext; [|exact Ho]. intros id. unfold without.
    by rewrite bool_decide_false by set_solver. }
  destruct (closeResults_ok _ _ (fragToolResultCallIDs (tfFrag t)) _ _ Hc) as [(Hp1 & Ho1 & Hh) Htog].
  cbn [app] in *. set (s1 := fold_left closeResult _ s0) in *. change (usUnits s0) with (usUnits s) in Htog.
  set (p := match usHome s1 with Some home => (home, usUnits s1) | None => (length (usUnits s1), usUnits s1 ++ [noUnit true]) end).
  assert (Hp' : exists u0, p.2 !! p.1 = Some u0 /\ (forall i k, unit_of p.2 i k <-> unit_of (usUnits s1) i k) /\
    (forall k u, p.2 !! k = Some u -> unit_sum tagged u) /\
    (forall k u, p.2 !! k = Some u -> uIndexes u = [] -> uDroppable u = bool_decide (k = p.1)) /\
    (forall id i, id ∈ fragToolResultCallIDs (tfFrag t) -> open_call tagged id = Some i -> unit_of p.2 i p.1)).
  { destruct Hp1 as (_ & _ & Hs & He). subst p. destruct (usHome s1) as [h|]; cbn [fst snd].
    - destruct Hh as [[i0 Hi0] Hh]. pose proof Hi0 as (u0 & Hu0 & _). exists u0. split_and!; try done.
      intros k u Hk Hempty. rewrite (He k u Hk Hempty). symmetry. apply bool_decide_false. intros ->.
      by apply (unit_of_nonempty _ _ _ _ Hi0 Hk).
    - exists (noUnit true). rewrite lookup_app_r, Nat.sub_diag by done. split_and!; try done.
      + intros i k. by apply unit_of_snoc.
      + intros k u [Hk|[_ Hk]]%lookup_app_Some; [by eapply Hs|]. apply list_lookup_singleton_Some in Hk as [_ <-].
        split_and!; try done. constructor.
      + intros k u [Hk|[Hge Hk]]%lookup_app_Some Hempty.
        * rewrite (He k u Hk Hempty). symmetry. apply bool_decide_false. apply lookup_lt_Some in Hk. lia.
        * apply list_lookup_singleton_Some in Hk as [Hk0 <-]. symmetry. apply bool_decide_true. lia.
      + intros id i Hid Hi. rewrite Hh in Hi by done. done. }
  destruct p as [h units]. cbn [fst snd] in Hp'. destruct Hp' as (u0 & Hu0 & Hof & Hs & He & Hans).
  destruct Hp1 as (A1 & A2 & _ & _).
  assert (Hall : forall i, (i < length tagged)%nat <-> exists k, unit_of units i k).
  { intros i. rewrite A1. by setoid_rewrite Hof. }
  assert (Huniq : forall i k k', unit_of units i k -> unit_of units i k' -> k = k') by (intros i k k'; rewrite !Hof; apply A2).
  pose proof (place_unit_of tagged t units h u0 Hu0) as Hplace.
  cbn [usUnits usOpen]. split_and!.
  - split; [by eapply place_part|]. intros id. cbn [usUnits usOpen]. rewrite open_call_snoc, fold_insert_lookup. unfold open_after. cbn [fst snd].
    destruct (bool_decide (id ∈ fragToolCallIDs (tfFrag t))) eqn:E. { exists h. split; [done|]. rewrite Hplace. by right. }
    specialize (Ho1 id). unfold without in Ho1. destruct (bool_decide (id ∈ fragToolResultCallIDs (tfFrag t))); [done|].
    destruct (open_call tagged id) as [i|]; [|done]. destruct Ho1 as (k & Hk & Hi). exists k. split; [done|].
    apply Hplace. left. by apply Hof.
  - intros i j (k & Hi & Hj)%Htog. exists k. rewrite !Hplace, !Hof. auto.
  - intros id i Hid Hi. exists h. rewrite !Hplace. split; [left; by eapply Hans|by right].
Qed.
Lemma units_ok tagged : unit_inv tagged (unitRun tagged).
Proof.
  induction tagged as [|t tagged IH] using rev_ind.
  - split; [|done]. split_and!; cbn; try by intros ? ? ?.
    + intros i. split; [lia|]. by intros (k & u & Hk & _).
    + by intros i k k' (u & Hk & _).
  - unfold unitRun. rewrite enumerate_snoc, fold_left_app. by apply unitStep_ok.
Qed.
(** A result joins the unit of the call it answers, and stays there. *)
Lemma units_together a t b id i : open_call a id = Some i -> id ∈ fragToolResultCallIDs (tfFrag t) ->
  together (buildBudgetUnits (a ++ t :: b)) i (length a).
Proof.
  intros Hi Hid. unfold buildBudgetUnits, unitRun. rewrite cons_middle, app_assoc.
  induction b as [|x b IH] using rev_ind.
  - rewrite app_nil_r, enumerate_snoc, fold_left_app. by eapply (unitStep_ok a t _ (units_ok a)).
  - rewrite app_assoc, enumerate_snoc, fold_left_app. by apply (unitStep_ok _ x _ (units_ok _)).
Qed.

(** ** Drops *)
Lemma dropUnit_lookup u r drops i : dropUnit u r drops !! i = if bool_decide (i ∈ uIndexes u) then Some r else drops !! i.
Proof.
  unfold dropUnit. revert drops. induction (uIndexes u) as [|x l IH]; intros drops; [by rewrite bool_decide_false by set_solver|].
  cbn [fold_left]. rewrite IH. destruct (decide (i = x)) as [->|Hne].
  - rewrite lookup_insert_eq, (bool_decide_true (x ∈ x :: l)) by by left. by case_if.
  - rewrite lookup_insert_ne by done. by rewrite (bool_decide_ext (i ∈ x :: l) (i ∈ l)) by set_solver.
Qed.
Definition drops_units (units : list budgetUnit) (drops : gmap nat str) : Prop :=
  forall i j, together units i j -> drops !! i = drops !! j.
Lemma part_unique tagged units k k' u u' i : units_part tagged units -> units !! k = Some u -> units !! k' = Some u' ->
  i ∈ uIndexes u -> i ∈ uIndexes u' -> k = k' /\ u = u'.
Proof.
  intros (_ & H & _) Hu Hu' Hi Hi'. assert (k = k') as -> by (apply (H i); [by exists u|by exists u']). split; congruence.
Qed.
Lemma dropUnit_drops tagged units u r drops : units_part tagged units -> u ∈ units -> drops_units units drops ->
  drops_units units (dropUnit u r drops).
Proof.
  intros Hp [k Hk]%list_elem_of_lookup Hd i j Hij. rewrite !dropUnit_lookup, (Hd i j Hij).
  destruct Hij as (k' & (u1 & H1 & Hi) & (u2 & H2 & Hj)). simplify_eq.
  rewrite (bool_decide_ext (i ∈ uIndexes u) (j ∈ uIndexes u)); [done|].
  split; intros H; (destruct (part_unique _ _ _ _ _ _ _ Hp Hk H1 H) as [_ ->]; [done|done]).
Qed.
Lemma applyDrops_drops tagged units l drops : units_part tagged units -> Forall (fun ur => ur.1 ∈ units) l ->
  drops_units units drops -> drops_units units (applyDrops drops l).
Proof.
  intros Hp Hl. revert drops. induction Hl as [|ur l Hu _ IH]; intros drops Hd; [done|]. cbn. apply IH. by eapply dropUnit_drops.
Qed.
Lemma orphanDrops_as_apply units : orphanDrops units =
  applyDrops ∅ (map (fun u => (u, budgetDropReasonOrphanExchange)) (List.filter (fun u => uDroppable u && orphanToolExchange u) units)).
Proof.
  unfold orphanDrops, applyDrops. generalize (∅ : gmap nat str). induction units as [|u l IH]; intros d; [done|].
  cbn [fold_left List.filter]. destruct (uDroppable u && orphanToolExchange u); cbn; apply IH.
Qed.
Lemma applyDrops_app drops a b : applyDrops drops (a ++ b) = applyDrops (applyDrops drops a) b.
Proof. apply fold_left_app. Qed.
Lemma applyDrops_lookup drops l i r : applyDrops drops l !! i = Some r ->
  (exists u, (u, r) ∈ l /\ i ∈ uIndexes u) \/ drops !! i = Some r.
Proof.
  revert drops. induction l as [|[u r'] l IH]; intros drops H; [by right|]. cbn in H. apply IH in H as [(v & Hv & Hi)|H].
  - left. exists v. split; [by right|done].
  - rewrite dropUnit_lookup in H. destruct (bool_decide (i ∈ uIndexes u)) eqn:E; bool_hyps; [|by right].
    injection H as <-. left. exists u. split; [by left|done].
Qed.
Lemma applyDrops_Some drops l i : is_Some (applyDrops drops l !! i) <->
  (exists ur, ur ∈ l /\ i ∈ uIndexes ur.1) \/ is_Some (drops !! i).
Proof.
  split; [intros [r [(u & Hu & Hi)|H]%applyDrops_lookup]; [left; by exists (u, r)|right; eauto]|].
  revert drops. induction l as [|ur l IH]; intros drops [(v & Hv & Hi)|H]; cbn; [set_solver|done| |].
  - apply IH. apply elem_of_cons in Hv as [->|Hv]; [|by left; exists v]. right. by rewrite dropUnit_lookup, bool_decide_true.
  - apply IH. right. rewrite dropUnit_lookup. case_if; eauto.
Qed.

(** ** The order *)
Lemma seqTokens_cons ur l : seqTokens (ur :: l) = uTokens ur.1 + seqTokens l.
Proof. done. Qed.
Lemma seqTokens_nil : seqTokens [] = 0.
Proof. done. Qed.
Lemma cut_below maxTokens total l : total <= maxTokens -> cut maxTokens total l = [].
Proof. destruct l; cbn; [done|]. intros H. destruct (total <=? maxTokens) eqn:E; bool_hyps; [done|lia]. Qed.
Lemma cut_app maxTokens total a b :
  cut maxTokens total (a ++ b) = cut maxTokens total a ++ cut maxTokens (total - seqTokens (cut maxTokens total a)) b.
Proof.
  revert total. induction a as [|ur a IH]; intros total; cbn [app cut]; [by rewrite Z.sub_0_r|].
  destruct (total <=? maxTokens) eqn:E; bool_hyps.
  - cbn. rewrite Z.sub_0_r. by rewrite cut_below.
  - cbn [app]. rewrite IH, seqTokens_cons. do 3 f_equal. lia.
Qed.
Lemma seqTokens_app a b : seqTokens (a ++ b) = seqTokens a + seqTokens b.
Proof. unfold seqTokens, totalTokens. by rewrite fmap_app, fold_units_app. Qed.
Lemma cut_prefix_le m m' total l : m <= m' -> exists more, cut m total l = cut m' total l ++ more.
Proof.
  intros Hm. revert total. induction l as [|ur l IH]; intros total; cbn; [by exists []|].
  destruct (total <=? m) eqn:E, (total <=? m') eqn:E'; bool_hyps; try lia; [by exists []|by eexists|].
  destruct (IH (total - uTokens ur.1)) as [more ->]. by exists more.
Qed.
Lemma cut_prefix_of m total l : exists rest, l = cut m total l ++ rest.
Proof.
  revert total. induction l as [|ur l IH]; intros total; cbn; [by exists []|]. destruct (total <=? m); [by eexists|].
  destruct (IH (total - uTokens ur.1)) as [rest Hr]. exists rest. cbn. by rewrite <- Hr.
Qed.
Lemma cut_reaches m total l : total - seqTokens l <= m -> total - seqTokens (cut m total l) <= m.
Proof.
  revert total. induction l as [|ur l IH]; intros total H; cbn [cut]; [done|]. destruct (total <=? m) eqn:E; bool_hyps.
  - rewrite seqTokens_nil. lia.
  - rewrite seqTokens_cons in *. specialize (IH (total - uTokens ur.1)). lia.
Qed.
Lemma dropTier_cut band tier m reason drops total :
  let l := cut m total (map (fun u => (u, reason)) (List.filter (fun u => unit_tier u =? tier) band)) in
  dropTier band tier m reason drops total = (applyDrops drops l, total - seqTokens l).
Proof.
  cbv zeta. revert drops total. induction band as [|u band IH]; intros drops total; cbn [dropTier List.filter map cut].
  { cbn. by rewrite Z.sub_0_r. }
  destruct (total <=? m) eqn:E; bool_hyps.
  { rewrite cut_below by done. cbn. by rewrite Z.sub_0_r. }
  destruct (unit_tier u =? tier) eqn:Et; cbn [negb].
  - rewrite IH. cbn [map cut]. destruct (total <=? m) eqn:E2; bool_hyps; [lia|]. rewrite seqTokens_cons. f_equal. cbn. lia.
  - rewrite IH. done.
Qed.
Lemma dropTiers_cut tiers outside inside m drops total :
  let l := cut m total (flat_map (tier_block outside inside) tiers) in
  dropTiers tiers outside inside m drops total = (applyDrops drops l, total - seqTokens l).
Proof.
  cbv zeta. revert drops total. induction tiers as [|tier tiers IH]; intros drops total; cbn [dropTiers flat_map].
  { cbn. by rewrite Z.sub_0_r. }
  destruct (total <=? m) eqn:E; bool_hyps.
  { rewrite cut_below by done. cbn. by rewrite Z.sub_0_r. }
  rewrite !dropTier_cut, IH. set (rest := flat_map (tier_block outside inside) tiers). unfold tier_block.
  rewrite <- !app_assoc, !cut_app, !applyDrops_app. f_equal. rewrite !seqTokens_app. lia.
Qed.
Lemma trim_as_cut tagged maxTokens recent :
  budgetTrimDropsEnabled tagged maxTokens recent =
  applyDrops (orphanDrops (buildBudgetUnits tagged))
    (cut (Z.max 0 maxTokens) (totalTokens (dropPool (buildBudgetUnits tagged))) (drop_sequence tagged recent)).
Proof.
  unfold budgetTrimDropsEnabled. replace (if maxTokens <? 0 then 0 else maxTokens) with (Z.max 0 maxTokens).
  2:{ destruct (maxTokens <? 0) eqn:E; bool_hyps; lia. }
  destruct (totalTokens _ <=? Z.max 0 maxTokens) eqn:E; bool_hyps; [by rewrite cut_below|].
  by rewrite dropTiers_cut.
Qed.

(** ** What the order contains *)
Lemma unit_tier_range tagged u : unit_sum tagged u -> unit_tier u ∈ attentionTiers.
Proof.
  intros (_ & _ & _ & _ & _ & H & _). unfold unit_tier, attentionTiers. rewrite H.
  destruct (uHasAttention u), (existsb _ _); set_solver.
Qed.
Lemma pool_units tagged u : u ∈ dropPool (buildBudgetUnits tagged) ->
  u ∈ buildBudgetUnits tagged /\ uDroppable u = true /\ orphanToolExchange u = false /\ unit_sum tagged u.
Proof.
  intros [Hu Hd]%elem_of_filter_bool. bool_hyps. split_and!; try done. apply list_elem_of_lookup in Hu as [k Hk].
  destruct (units_ok tagged) as [(_ & _ & Hs & _) _]. by eapply Hs.
Qed.
Lemma tier_block_elem o i tier ur : ur ∈ tier_block o i tier -> unit_tier ur.1 = tier /\ ur.2 <> budgetDropReasonOrphanExchange.
Proof.
  unfold tier_block. rewrite elem_of_app, !list_elem_of_fmap.
  intros [(u & -> & [_ H]%elem_of_filter_bool)|(u & -> & [_ H]%elem_of_filter_bool)]; bool_hyps; (split; [done|]); cbn; [|done].
  unfold budgetDropReasonForTier. by repeat case_if.
Qed.
Lemma tier_block_perm o i tier : (tier_block o i tier).*1 ≡ₚ List.filter (fun u => unit_tier u =? tier) (o ++ i).
Proof.
  unfold tier_block. rewrite fmap_app, List.filter_app, <- !list_fmap_compose. unfold compose. cbn. by rewrite !list_fmap_id.
Qed.
Lemma drop_sequence_blocks tagged recent : exists o i, o ++ i = dropPool (buildBudgetUnits tagged) /\
  drop_sequence tagged recent = tier_block o i 0 ++ tier_block o i 1 ++ tier_block o i 2.
Proof.
  unfold drop_sequence. set (pool := dropPool _). set (n := (length pool - _)%nat). exists (take n pool), (drop n pool).
  split; [apply take_drop|]. cbn [flat_map attentionTiers]. by rewrite app_nil_r.
Qed.
Lemma three_tiers (l : list budgetUnit) : Forall (fun u => unit_tier u ∈ attentionTiers) l ->
  List.filter (fun u => unit_tier u =? 0) l ++ List.filter (fun u => unit_tier u =? 1) l ++ List.filter (fun u => unit_tier u =? 2) l ≡ₚ l.
Proof.
  induction 1 as [|u l Hu _ IH]; [done|]. cbn [List.filter]. unfold attentionTiers in Hu. rewrite !elem_of_cons in Hu.
  destruct Hu as [->|[->|[->|Hu]]]; [| | |set_solver]; cbn [Z.eqb attentionTierPassive attentionTierUntiered attentionTierDirected Pos.eqb app].
  - by rewrite IH.
  - rewrite <- Permutation_middle. by rewrite IH.
  - rewrite app_assoc, <- Permutation_middle, <- app_assoc. by rewrite IH.
Qed.
Lemma drop_sequence_perm tagged recent : (drop_sequence tagged recent).*1 ≡ₚ dropPool (buildBudgetUnits tagged).
Proof.
  destruct (drop_sequence_blocks tagged recent) as (o & i & Ho & ->). rewrite !fmap_app, !tier_block_perm, Ho.
  apply three_tiers, Forall_forall. intros u Hu%pool_units. by eapply unit_tier_range, Hu.
Qed.
Lemma drop_sequence_sorted tagged recent : StronglySorted (fun a b => unit_tier a.1 <= unit_tier b.1) (drop_sequence tagged recent).
Proof.
  destruct (drop_sequence_blocks tagged recent) as (o & i & _ & ->).
  assert (Hb : forall tier, StronglySorted (fun a b => unit_tier a.1 <= unit_tier b.1) (tier_block o i tier)).
  { intros tier. assert (H : forall ur, ur ∈ tier_block o i tier -> unit_tier ur.1 = tier) by (intros ur; apply tier_block_elem).
    induction (tier_block o i tier) as [|ur l IH]; constructor; [apply IH; intros; apply H; by right|].
    apply Forall_forall. intros x Hx. rewrite (H ur) by (by left). rewrite (H x) by (by right). lia. }
  apply StronglySorted_app_2; [|done|apply StronglySorted_app_2; [|done|done]].
  - intros a b [Ha _]%tier_block_elem [[Hb' _]%tier_block_elem|[Hb' _]%tier_block_elem]%elem_of_app; lia.
  - intros a b [Ha _]%tier_block_elem [Hb' _]%tier_block_elem. lia.
Qed.
Lemma drop_sequence_reason tagged recent ur : ur ∈ drop_sequence tagged recent -> ur.2 <> budgetDropReasonOrphanExchange.
Proof.
  destruct (drop_sequence_blocks tagged recent) as (o & i & _ & ->).
  by intros [[_ ?]%tier_block_elem|[[_ ?]%tier_block_elem|[_ ?]%tier_block_elem]%elem_of_app]%elem_of_app.
Qed.
Lemma total_perm (a b : list budgetUnit) : a ≡ₚ b -> totalTokens a = totalTokens b.
Proof. unfold totalTokens. induction 1; cbn; lia. Qed.
Lemma cut_elem m total l ur : ur ∈ cut m total l -> ur ∈ l.
Proof. destruct (cut_prefix_of m total l) as [rest Hr]. intros H. rewrite Hr. apply elem_of_app. by left. Qed.
Lemma sequence_units tagged recent ur : ur ∈ drop_sequence tagged recent -> ur.1 ∈ dropPool (buildBudgetUnits tagged).
Proof. intros H. rewrite <- (drop_sequence_perm tagged recent). by apply list_elem_of_fmap_2. Qed.
Lemma orphanDrops_Some tagged i : is_Some (orphanDrops (buildBudgetUnits tagged) !! i) <->
  exists u, u ∈ buildBudgetUnits tagged /\ uDroppable u = true /\ orphanToolExchange u = true /\ i ∈ uIndexes u.
Proof.
  rewrite orphanDrops_as_apply, applyDrops_Some, lookup_empty. split.
  - intros [([u r] & [v [[= -> _] [Hv Hb]%elem_of_filter_bool]]%list_elem_of_fmap & Hi)|[? ?]]; [|done]. bool_hyps. by exists v.
  - intros (u & Hu & Hd & Ho & Hi). left. exists (u, budgetDropReasonOrphanExchange). split; [|done].
    apply list_elem_of_fmap. exists u. split; [done|]. apply elem_of_filter_bool. by rewrite Hd, Ho.
Qed.
Lemma orphanDrops_reason units i r : orphanDrops units !! i = Some r -> r = budgetDropReasonOrphanExchange.
Proof.
  rewrite orphanDrops_as_apply. intros [(u & [v [[= _ ->] _]]%list_elem_of_fmap & _)|H]%applyDrops_lookup; [done|].
  by rewrite lookup_empty in H.
Qed.
(** Each unit goes as a whole, for one reason. *)
Lemma orphanDrops_units tagged : drops_units (buildBudgetUnits tagged) (orphanDrops (buildBudgetUnits tagged)).
Proof.
  rewrite orphanDrops_as_apply. eapply applyDrops_drops; [apply units_ok| |by intros i j _].
  apply Forall_forall. intros ur (u & -> & [Hu _]%elem_of_filter_bool)%list_elem_of_fmap. done.
Qed.
Lemma trim_units_whole tagged maxTokens recent :
  drops_units (buildBudgetUnits tagged) (budgetTrimDropsEnabled tagged maxTokens recent).
Proof.
  rewrite trim_as_cut. eapply applyDrops_drops; [apply units_ok| |apply orphanDrops_units].
  apply Forall_forall. intros ur Hur%cut_elem%sequence_units. by apply pool_units.
Qed.

(** ** The guarantees of the trim *)
(** Trimming the history is what its order says: after the orphan
    exchanges, the units go in the fixed order of [drop_sequence] (every
    droppable exchange once, passive before untiered before directed, outside
    the recent window before inside, oldest first), and exactly the shortest
    prefix of it goes that brings the droppable tokens within the allowance.  A
    larger allowance therefore keeps everything a smaller one keeps. *)
Theorem trim_is_shortest_prefix (tagged : list TaggedFrag) (recent : Z) :
  let units := buildBudgetUnits tagged in
  (drop_sequence tagged recent).*1 ≡ₚ dropPool units /\
  StronglySorted (fun a b => unit_tier a.1 <= unit_tier b.1) (drop_sequence tagged recent) /\
  (forall maxTokens, budgetTrimDropsEnabled tagged maxTokens recent =
     applyDrops (orphanDrops units) (cut (Z.max 0 maxTokens) (totalTokens (dropPool units)) (drop_sequence tagged recent))) /\
  (forall m m' i, m <= m' -> is_Some (budgetTrimDropsEnabled tagged m' recent !! i) ->
                  is_Some (budgetTrimDropsEnabled tagged m recent !! i)).
Proof.
  cbv zeta. split_and!; [apply drop_sequence_perm|apply drop_sequence_sorted|intros; apply trim_as_cut|].
  intros m m' i Hm. rewrite !trim_as_cut.
  destruct (cut_prefix_le (Z.max 0 m) (Z.max 0 m') (totalTokens (dropPool (buildBudgetUnits tagged))) (drop_sequence tagged recent))
    as [more ->]; [lia|]. rewrite applyDrops_app, (applyDrops_Some _ more). by right.
Qed.
(** Droppable units have fragments, and are all different. *)
Lemma droppable_nonempty tagged u : u ∈ buildBudgetUnits tagged -> uDroppable u = true -> exists i, i ∈ uIndexes u.
Proof.
  intros [k Hk]%list_elem_of_lookup Hd. destruct (units_ok tagged) as [(_ & _ & _ & H) _].
  destruct (uIndexes u) as [|i l] eqn:E; [|exists i; by left]. by rewrite (H k u Hk E) in Hd.
Qed.
Lemma same_unit tagged u v i : u ∈ buildBudgetUnits tagged -> v ∈ buildBudgetUnits tagged -> i ∈ uIndexes u -> i ∈ uIndexes v -> u = v.
Proof.
  intros [k Hk]%list_elem_of_lookup [k' Hk']%list_elem_of_lookup Hi Hi'.
  by destruct (part_unique _ _ _ _ _ _ _ (proj1 (units_ok tagged)) Hk Hk' Hi Hi') as [_ ?].
Qed.
Lemma filter_nodup {A} (p : A -> bool) l :
  (forall k k' u, l !! k = Some u -> l !! k' = Some u -> p u = true -> k = k') -> NoDup (List.filter p l).
Proof.
  induction l as [|x l IH]; intros H; cbn; [constructor|].
  assert (Hl : NoDup (List.filter p l)) by (apply IH; intros k k' u H1 H2 H3; by injection (H (S k) (S k') u H1 H2 H3)).
  destruct (p x) eqn:E; [|done]. constructor; [|done]. intros [[k Hk]%list_elem_of_lookup _]%elem_of_filter_bool.
  discriminate (H 0%nat (S k) x eq_refl Hk E).
Qed.
Lemma droppable_nodup tagged (p : budgetUnit -> bool) : (forall u, p u = true -> uDroppable u = true) ->
  NoDup (List.filter p (buildBudgetUnits tagged)).
Proof.
  intros Hp. apply filter_nodup. intros k k' u Hk Hk' Hu.
  destruct (droppable_nonempty tagged u) as [i Hi]; [by eapply list_elem_of_lookup_2|by apply Hp|].
  by destruct (part_unique _ _ _ _ _ _ _ (proj1 (units_ok tagged)) Hk Hk' Hi Hi).
Qed.
Definition trimmed (tagged : list TaggedFrag) (maxTokens recent : Z) : list (budgetUnit * str) :=
  cut (Z.max 0 maxTokens) (totalTokens (dropPool (buildBudgetUnits tagged))) (drop_sequence tagged recent).
Lemma trimmed_units tagged maxTokens recent ur : ur ∈ trimmed tagged maxTokens recent -> ur.1 ∈ dropPool (buildBudgetUnits tagged).
Proof. intros H%cut_elem. by eapply sequence_units. Qed.
Lemma dropped_true drops u : dropped drops u = true <-> exists i, i ∈ uIndexes u /\ is_Some (drops !! i).
Proof.
  unfold dropped. rewrite existsb_exists. setoid_rewrite list_elem_of_In. split; intros (i & Hi & H); exists i; (split; [done|]).
  - by bool_hyps.
  - by apply bool_decide_eq_true.
Qed.
Lemma trim_dropped tagged maxTokens recent u : u ∈ buildBudgetUnits tagged ->
  dropped (budgetTrimDropsEnabled tagged maxTokens recent) u = true <->
  uDroppable u = true /\ (orphanToolExchange u = true \/ u ∈ (trimmed tagged maxTokens recent).*1).
Proof.
  intros Hu. rewrite dropped_true, trim_as_cut. fold (trimmed tagged maxTokens recent). split.
  - intros (i & Hi & [(ur & Hur & Hi')|(v & Hv & Hd & Ho & Hi')%orphanDrops_Some]%applyDrops_Some).
    + pose proof (trimmed_units _ _ _ _ Hur) as Hpool. destruct (pool_units _ _ Hpool) as (Hv & Hd & _ & _).
      rewrite (same_unit tagged u ur.1 i) by done. split; [done|]. right. by apply list_elem_of_fmap_2.
    + by rewrite (same_unit tagged u v i) by done; auto.
  - intros [Hd Ho]. destruct (droppable_nonempty tagged u Hu Hd) as [i Hi]. exists i. split; [done|]. apply applyDrops_Some.
    destruct Ho as [Ho|[ur [-> Hur]]%list_elem_of_fmap]; [right|by left; exists ur].
    apply orphanDrops_Some. by exists u.
Qed.
Lemma kept_droppable_le tagged maxTokens recent :
  keptDroppable tagged (budgetTrimDropsEnabled tagged maxTokens recent) <= Z.max 0 maxTokens.
Proof.
  set (m := Z.max 0 maxTokens). set (units := buildBudgetUnits tagged). set (sequence := drop_sequence tagged recent).
  destruct (cut_prefix_of m (totalTokens (dropPool units)) sequence) as [rest Hrest].
  assert (Hpool : (trimmed tagged maxTokens recent).*1 ++ rest.*1 ≡ₚ dropPool units).
  { rewrite <- fmap_app. unfold trimmed. fold units m sequence. rewrite <- Hrest. apply drop_sequence_perm. }
  assert (Hnd : NoDup ((trimmed tagged maxTokens recent).*1 ++ rest.*1)).
  { rewrite Hpool. apply droppable_nodup. intros u ?. by bool_hyps. }
  assert (Hkept : List.filter (fun u => uDroppable u && negb (dropped (budgetTrimDropsEnabled tagged maxTokens recent) u)) units ≡ₚ rest.*1).
  { apply NoDup_Permutation; [apply droppable_nodup; intros u ?; by bool_hyps|by apply NoDup_app in Hnd as (_ & _ & ?)|].
    intros u. rewrite elem_of_filter_bool. assert (Hin : u ∈ dropPool units <-> u ∈ (trimmed tagged maxTokens recent).*1 \/ u ∈ rest.*1)
      by by rewrite <- Hpool, elem_of_app. split.
    - intros [Hu Hb]. bool_hyps. assert (Hnot : ~ (orphanToolExchange u = true \/ u ∈ (trimmed tagged maxTokens recent).*1)).
      { intros Ho. assert (dropped (budgetTrimDropsEnabled tagged maxTokens recent) u = true); [by apply trim_dropped|congruence]. }
      destruct (proj1 Hin) as [?|?]; [|by exfalso; auto|done]. apply elem_of_filter_bool. split; [done|].
      apply andb_true_iff. split; [done|]. apply negb_true_iff. destruct (orphanToolExchange u); [exfalso; auto|done].
    - intros Hr. destruct (pool_units tagged u) as (Hu & Hd & Ho & _); [by apply Hin; right|]. split; [done|].
      rewrite Hd. cbn. apply negb_true_iff. apply not_true_is_false. intros [_ [H|H]]%trim_dropped; [congruence| |done].
      apply NoDup_app in Hnd as (_ & Hdis & _). by apply (Hdis u). }
  unfold keptDroppable. fold units. rewrite (total_perm _ _ Hkept).
  pose proof (total_perm _ _ Hpool) as Htot. unfold totalTokens in Htot at 1. rewrite fold_units_app in Htot.
  fold (totalTokens (trimmed tagged maxTokens recent).*1) (totalTokens rest.*1) in Htot.
  assert (Hseq : seqTokens sequence = totalTokens (dropPool units)) by apply total_perm, drop_sequence_perm.
  assert (Hm : 0 <= m) by (subst m; lia).
  pose proof (cut_reaches m (totalTokens (dropPool units)) sequence) as Hr. rewrite Hseq in Hr. specialize (Hr ltac:(lia)).
  unfold trimmed in Htot. fold units m sequence in Htot. unfold seqTokens in Hr. lia.
Qed.
(** A tool exchange is never broken by the budget.  Whatever the allowance,
    a fragment that answers a call and the fragment that made it (the last one
    under that identifier, not answered in between) are both kept or both
    dropped, and for the same reason. *)
Theorem exchange_stays_together (a b : list TaggedFrag) (t : TaggedFrag) (id : str) (i : nat) (maxTokens recent : Z) :
  open_call a id = Some i -> id ∈ fragToolResultCallIDs (tfFrag t) ->
  let tagged := a ++ t :: b in
  budgetTrimDrops tagged maxTokens recent !! i = budgetTrimDrops tagged maxTokens recent !! length a /\
  budgetTrimDropsEnabled tagged maxTokens recent !! i = budgetTrimDropsEnabled tagged maxTokens recent !! length a /\
  orphanExchangeDrops tagged !! i = orphanExchangeDrops tagged !! length a.
Proof.
  intros Hi Hid tagged. pose proof (units_together a t b id i Hi Hid) as Ht. fold tagged in Ht.
  pose proof (trim_units_whole tagged maxTokens recent i (length a) Ht) as He.
  split; [unfold budgetTrimDrops; by case_if|]. split; [done|]. by apply orphanDrops_units.
Qed.
(** Attention orders the drops.  If the budget (not the orphan rule) drops
    a fragment whose unit is addressed to the bot, then nothing droppable is
    left in any unit that is not: passive and untiered traffic goes first. *)
Theorem directed_goes_last (tagged : list TaggedFrag) (maxTokens recent : Z) (i j : nat) (u v : budgetUnit) (reason : str) :
  let drops := budgetTrimDropsEnabled tagged maxTokens recent in
  u ∈ buildBudgetUnits tagged -> v ∈ buildBudgetUnits tagged -> i ∈ uIndexes u -> j ∈ uIndexes v ->
  drops !! i = Some reason -> reason <> budgetDropReasonOrphanExchange ->
  existsb (at_index tagged directed) (uIndexes u) = true -> existsb (at_index tagged directed) (uIndexes v) = false ->
  forallb (at_index tagged can_drop) (uIndexes v) = true ->
  is_Some (drops !! j).
Proof.
  cbv zeta. intros Hu Hv Hi Hj Hdrop Hr Hdu Hdv Hcan.
  assert (Hsum : forall w, w ∈ buildBudgetUnits tagged -> unit_sum tagged w).
  { intros w [k Hk]%list_elem_of_lookup. destruct (units_ok tagged) as [(_ & _ & H & _) _]. by eapply H. }
  destruct (Hsum u Hu) as (_ & _ & _ & _ & Hua & Hut & _). destruct (Hsum v Hv) as (_ & _ & _ & _ & Hva & Hvt & Hvd).
  assert (Htu : unit_tier u = 2).
  { unfold unit_tier. rewrite Hua, Hut, Hdu. destruct (existsb (at_index tagged attended) (uIndexes u)) eqn:E; [done|].
    apply existsb_exists in Hdu as (x & Hx & Hd). assert (existsb (at_index tagged attended) (uIndexes u) = true); [|congruence].
    apply existsb_exists. exists x. split; [done|]. unfold at_index in *. destruct (tagged !! x); [|done]. by apply directed_attended. }
  assert (Htv : unit_tier v <= 1).
  { unfold unit_tier, attentionTierUntiered. rewrite Hvt, Hdv. by destruct (uHasAttention v). }
  assert (Hdrv : uDroppable v = true) by (rewrite Hvd, Hcan; [done|]; intros E; rewrite E in Hj; set_solver).
  enough (Hd : dropped (budgetTrimDropsEnabled tagged maxTokens recent) v = true).
  { apply dropped_true in Hd as (j' & Hj' & Hd). apply list_elem_of_lookup in Hv as [k Hk].
    rewrite (trim_units_whole tagged maxTokens recent j j'); [done|]. exists k. split; by exists v. }
  apply trim_dropped; [done|]. split; [done|]. destruct (orphanToolExchange v) eqn:Eo; [by left|]. right.
  rewrite trim_as_cut in Hdrop. fold (trimmed tagged maxTokens recent) in Hdrop.
  apply applyDrops_lookup in Hdrop as [(w & Hw & Hiw)|Hdrop]; [|by apply orphanDrops_reason in Hdrop].
  pose proof (trimmed_units _ _ _ _ Hw) as Hwp. apply pool_units in Hwp as (Hwu & _). cbn in Hwu.
  assert (w = u) as -> by by apply (same_unit tagged w u i).
  assert (Hvp : v ∈ (drop_sequence tagged recent).*1).
  { rewrite drop_sequence_perm. apply elem_of_filter_bool. by rewrite Hdrv, Eo. }
  destruct (cut_prefix_of (Z.max 0 maxTokens) (totalTokens (dropPool (buildBudgetUnits tagged))) (drop_sequence tagged recent)) as [rest Hrest].
  fold (trimmed tagged maxTokens recent) in Hrest. rewrite Hrest, fmap_app, elem_of_app in Hvp. destruct Hvp as [?|Hvr]; [done|].
  apply list_elem_of_fmap in Hvr as [[v' rv] [-> Hvr]]. exfalso.
  pose proof (drop_sequence_sorted tagged recent) as Hs. rewrite Hrest in Hs.
  pose proof (StronglySorted_app_cross _ _ _ _ _ Hs Hw Hvr) as Hle. cbn in Hle, Htv. lia.
Qed.

(** ** What the kept history costs *)
Lemma sum_at_perm tagged a b : a ≡ₚ b -> sum_at tagged a = sum_at tagged b.
Proof. unfold sum_at. induction 1; cbn; lia. Qed.
Lemma sum_at_filter tagged p q l : (forall i, 0 <= tokens_at tagged i) -> (forall i, p i = true -> q i = true) ->
  sum_at tagged (List.filter p l) <= sum_at tagged (List.filter q l).
Proof.
  intros Hn Hpq. induction l as [|x l IH]; [done|]. cbn [List.filter]. pose proof (Hn x).
  destruct (p x) eqn:Ep; [rewrite (Hpq x Ep)|destruct (q x)]; cbn [sum_at fold_right];
    fold (sum_at tagged (List.filter p l)) (sum_at tagged (List.filter q l)); lia.
Qed.
Lemma nodup_concat {A} (ls : list (list A)) : Forall NoDup ls ->
  (forall k k' l l' x, ls !! k = Some l -> ls !! k' = Some l' -> x ∈ l -> x ∈ l' -> k = k') -> NoDup (concat ls).
Proof.
  induction 1 as [|l ls Hl _ IH]; intros H; [constructor|]. cbn. apply NoDup_app. split_and!; [done| |].
  - intros x Hx Hin. apply list_elem_of_In, in_concat in Hin as (l' & Hl' & Hx').
    apply list_elem_of_In, list_elem_of_lookup in Hl' as [k Hk]. apply list_elem_of_In in Hx'.
    discriminate (H 0%nat (S k) l l' x eq_refl Hk Hx Hx').
  - apply IH. intros k k' l1 l2 x H1 H2 H3 H4. by injection (H (S k) (S k') l1 l2 x H1 H2 H3 H4).
Qed.
(** Every fragment is in exactly one unit. *)
Lemma units_partition tagged : concat (map uIndexes (buildBudgetUnits tagged)) ≡ₚ seq 0 (length tagged).
Proof.
  destruct (units_ok tagged) as [(H1 & H2 & H3 & _) _]. fold (buildBudgetUnits tagged) in *. apply NoDup_Permutation.
  - apply nodup_concat.
    + apply Forall_forall. intros l (u & -> & [k Hk]%list_elem_of_lookup)%list_elem_of_fmap. by apply (H3 k u).
    + intros k k' l l' x. rewrite !list_lookup_fmap. intros (u & Hu & ->)%fmap_Some (u' & Hu' & ->)%fmap_Some Hx Hx'.
      apply (H2 x); [by exists u|by exists u'].
  - apply NoDup_seq.
  - intros i. rewrite elem_of_seq, list_elem_of_In, in_concat. split.
    + intros (l & (u & <- & Hu)%in_map_iff & Hi). apply list_elem_of_In, list_elem_of_lookup in Hu as [k Hk].
      split; [lia|]. apply H1. exists k, u. split; [done|by apply list_elem_of_In].
    + intros [_ Hi]. apply H1 in Hi as (k & u & Hk & Hi). exists (uIndexes u). split; [|by apply list_elem_of_In].
      apply in_map_iff. exists u. split; [done|]. apply list_elem_of_In. by eapply list_elem_of_lookup_2.
Qed.
Lemma filter_concat {A} (p : A -> bool) ls : List.filter p (concat ls) = concat (map (List.filter p) ls).
Proof. induction ls as [|l ls IH]; [done|]. cbn. by rewrite List.filter_app, IH. Qed.
Lemma sum_at_concat tagged ls : sum_at tagged (concat ls) = fold_right (fun l n => sum_at tagged l + n) 0 ls.
Proof. induction ls as [|l ls IH]; [done|]. cbn [concat fold_right]. by rewrite sum_at_app, IH. Qed.
Lemma filter_none {A} (p : A -> bool) l : (forall x, x ∈ l -> p x = false) -> List.filter p l = [].
Proof. intros H. apply filter_nil_forall, Forall_forall. exact H. Qed.
Lemma filter_le (tagged : list TaggedFrag) (l : list nat) (p : nat -> bool) : (forall i, 0 <= tokens_at tagged i) ->
  sum_at tagged (List.filter p l) <= sum_at tagged l.
Proof.
  intros H. induction l as [|x l IH]; [done|]. cbn [List.filter]. pose proof (H x).
  destruct (p x); cbn [sum_at fold_right]; fold (sum_at tagged (List.filter p l)) (sum_at tagged l); lia.
Qed.
(** The history that stays costs at most the protected part and the droppable
    units that stay. *)
Lemma kept_history_le tagged drops : (forall i, 0 <= tokens_at tagged i) -> drops_units (buildBudgetUnits tagged) drops ->
  keptHistory tagged drops <= protectedHistoryTokenCost tagged + keptDroppable tagged drops.
Proof.
  intros Hn Hd. unfold keptHistory. set (p := fun i => is_history_index tagged i && negb (bool_decide (is_Some (drops !! i)))).
  rewrite <- (sum_at_perm tagged _ _ (filter_perm_proper p _ _ (units_partition tagged))), filter_concat, map_map, sum_at_concat.
  unfold protectedHistoryTokenCost, keptDroppable, totalTokens.
  assert (Hunits : forall u, u ∈ buildBudgetUnits tagged -> unit_sum tagged u).
  { intros u [k Hk]%list_elem_of_lookup. destruct (units_ok tagged) as [(_ & _ & H & _) _]. by eapply H. }
  assert (Hdrop : forall u, u ∈ buildBudgetUnits tagged -> forall i, i ∈ uIndexes u -> is_Some (drops !! i) -> dropped drops u = true).
  { intros u Hu i Hi Hs. apply dropped_true. by exists i. }
  assert (Hdrop' : forall u, u ∈ buildBudgetUnits tagged -> dropped drops u = true -> forall i, i ∈ uIndexes u -> is_Some (drops !! i)).
  { intros u [k Hk]%list_elem_of_lookup (j & Hj & Hs)%dropped_true i Hi. rewrite (Hd i j); [done|]. exists k. split; by exists u. }
  revert Hunits Hdrop'. clear Hdrop. generalize (buildBudgetUnits tagged) as units. intros units Hunits Hdrop.
  induction units as [|u units IH]; [done|]. cbn [map fold_right List.filter].
  specialize (IH (fun v Hv => Hunits v ltac:(by right)) (fun v Hv => Hdrop v ltac:(by right))).
  destruct (Hunits u ltac:(by left)) as (_ & Ht & _). specialize (Hdrop u ltac:(by left)).
  pose proof (sum_at_filter tagged p (is_history_index tagged) (uIndexes u) Hn) as Hf.
  assert (Hp : forall i, p i = true -> is_history_index tagged i = true) by (intros i ?; subst p; cbn in *; by bool_hyps).
  specialize (Hf Hp). pose proof (filter_le tagged (uIndexes u) p Hn) as Hle.
  destruct (uDroppable u); cbn [andb]; [|lia].
  destruct (dropped drops u); cbn [negb fold_right]; [|lia].
  rewrite (filter_none p); [cbn; lia|]. intros i Hi. subst p. cbn. rewrite bool_decide_true by by apply Hdrop. by rewrite andb_false_r.
Qed.

(** Only fragments that may be dropped are. *)
Lemma droppable_members tagged u i : u ∈ buildBudgetUnits tagged -> uDroppable u = true -> i ∈ uIndexes u -> at_index tagged can_drop i = true.
Proof.
  intros Hu Hd Hi. assert (Hs : unit_sum tagged u).
  { apply list_elem_of_lookup in Hu as [k Hk]. destruct (units_ok tagged) as [(_ & _ & H & _) _]. by eapply H. }
  destruct Hs as (_ & _ & _ & _ & _ & _ & H). rewrite H in Hd by (intros E; rewrite E in Hi; set_solver).
  rewrite forallb_forall in Hd. by apply Hd, list_elem_of_In.
Qed.
Lemma orphans_can_drop tagged i : is_Some (orphanExchangeDrops tagged !! i) -> at_index tagged can_drop i = true.
Proof. intros (u & Hu & Hd & _ & Hi)%orphanDrops_Some. by eapply droppable_members. Qed.
Lemma drops_can_drop tagged m r i : is_Some (budgetTrimDropsEnabled tagged m r !! i) -> at_index tagged can_drop i = true.
Proof.
  rewrite trim_as_cut. intros [(ur & Hur & Hi)|H]%applyDrops_Some; [|by apply orphans_can_drop].
  apply trimmed_units, pool_units in Hur as (Hu & Hd & _). by eapply droppable_members.
Qed.

(** ** Examples *)
Lemma exchange_stays_together_witness :
  open_call (take 1 sampleExchange) (lit "c") = Some 0%nat /\
  budgetTrimDropsEnabled sampleExchange 20 0 !! 0%nat = budgetTrimDropsEnabled sampleExchange 20 0 !! 1%nat /\
  budgetTrimDropsEnabled sampleExchange 20 0 !! 0%nat = Some budgetDropReasonUntiered.
Proof.
  split; [by vm_compute|]. split; [|by vm_compute].
  refine (proj1 (proj2 (exchange_stays_together (take 1 sampleExchange) (drop 2 sampleExchange)
    (sampleTagged (lit "f1") MessageRoleTool [ToolResultPart (lit "c") (lit "read") [] false] []) (lit "c") 0 20 0 _ _)));
    [vm_compute; reflexivity|]. apply (bool_decide_eq_true_1 _). vm_compute. reflexivity.
Defined.
Definition unit_at (k : nat) : budgetUnit := default (noUnit false) (buildBudgetUnits sampleExchange !! k).
Lemma directed_goes_last_witness :
  is_Some (budgetTrimDropsEnabled sampleExchange 0 0 !! 3%nat).
Proof.
  refine (directed_goes_last sampleExchange 0 0 2 3 (unit_at 1) (unit_at 2) budgetDropReasonDirected _ _ _ _ _ _ _ _ _).
  - apply (list_elem_of_lookup_2 _ 1). vm_compute. reflexivity.
  - apply (list_elem_of_lookup_2 _ 2). vm_compute. reflexivity.
  - apply (bool_decide_eq_true_1 _). vm_compute. reflexivity.
  - apply (bool_decide_eq_true_1 _). vm_compute. reflexivity.
  - vm_compute. reflexivity.
  - apply (bool_decide_eq_false_1 _). vm_compute. reflexivity.
  - vm_compute. reflexivity.
  - vm_compute. reflexivity.
  - vm_compute. reflexivity.
Defined.
(** An exchange that is answered in part is not cut: an assistant message
    that makes two calls, only one of which is ever answered, stays in the
    selection with a call nothing answers, although the orphan rule exists
    because such a call is refused by the provider. *)
Theorem partial_exchange_is_kept :
  let tagged :=
    [sampleTagged (lit "f0") MessageRoleAssistant [ToolCallPart (lit "c") (lit "read") []; ToolCallPart (lit "d") (lit "read") []] [];
     sampleTagged (lit "f1") MessageRoleTool [ToolResultPart (lit "c") (lit "read") [] false] []] in
  open_call tagged (lit "d") = Some 0%nat /\ orphanExchangeDrops tagged = ∅ /\ budgetTrimDrops tagged 1000 0 = ∅.
Proof. by vm_compute. Qed.
