(* ===== verification/ContextSelect.v ===== *)
(** * Context selection

    Models [internal/contextview/selector.go], [selector_frag_budget.go],
    [system_budget.go], [selector_summary_shrink.go] and the capability gate of
    [capability_gate.go]: which of the collected fragments reach the prompt.
    A fragment passes the trust floor of its slot, wins its conflict group,
    fits its own budget and the system budget, and then the history budget of
    [ContextUnits].  The plan the Go code updates through a pointer is returned
    with the selection. *)

From S2P Require Import Prelude GoStr GoTrim ToolOutput ContextFrag ContextUnits.
#[local] Open Scope Z_scope.

(** ** Results *)
Record DropRecord : Type := mkDropRecord { drFragID : str; drRef : ContextRef; drReason : str }.
Record ContextEditTrace : Type := mkEditTrace { etEditID : str; etOp : str; etSlot : str; etRefs : list ContextRef }.
Record ValidationWarning : Type := mkWarning { vwCode : str; vwMessage : str; vwRef : ContextRef }.
Definition EditReplace : str := lit "replace".
Inductive SelectError : Type := ErrProtectedContextOverflow.
Record SelectionResult : Type := mkSelection {
  srSelected : list ContextFrag; srDropped : list ContextFrag; srFatalError : option SelectError;
  srTrimNotice : bool; srTrimNoticeIndex : Z; srEdited : list ContextEditTrace; srEditReasons : gmap str str;
  srWarnings : list ValidationWarning; srTotalCollected : Z; srTotalSelected : Z; srTotalDropped : Z;
  srDropReasons : list DropRecord }.
Record ContextBudgetPlan : Type := mkPlan {
  plWindow : Z; plOutputReserve : Z; plToolDefsCost : Z; plCurrentRequestCost : Z; plSystemBudget : Z;
  plActualSystemCost : Z; plHistoryBudget : Z }.
Record BudgetEnvelope : Type := mkEnvelope {
  beMaxTokens : Z; bePlan : option ContextBudgetPlan; beRecentProtectTokens : Z; beKeepHistory : bool }.
Definition MinimumSystemBudgetTokens : Z := 256.
Inductive PlanError : Type := ErrBudgetUnsatisfied.
Definition ComputeContextBudgetPlan (window outputReserve toolDefsCost currentRequestCost : Z) :
    option ContextBudgetPlan * option PlanError :=
  if window =? 0 then (None, None)
  else
    let remaining := window - outputReserve - toolDefsCost - currentRequestCost in
    let plan systemBudget := Some (mkPlan window outputReserve toolDefsCost currentRequestCost systemBudget 0 0) in
    if (window <? 0) || (outputReserve <? 0) || (toolDefsCost <? 0) || (currentRequestCost <? 0) ||
       (remaining <? MinimumSystemBudgetTokens)
    then (plan MinimumSystemBudgetTokens, Some ErrBudgetUnsatisfied)
    else (plan remaining, None).

(** ** Trust and conflicts *)
Definition below_floor (profile : IntentProfile) (f : ContextFrag) : bool :=
  match ipSlotTrustFloors profile !! fSlot f with
  | Some floor => TrustRank (fTrust f) <? TrustRank floor
  | None => false
  end.
Definition applyTrustGate (frags : list ContextFrag) (profile : IntentProfile) : list ContextFrag * list ContextFrag :=
  if bool_decide (ipSlotTrustFloors profile = ∅) then (frags, [])
  else (List.filter (fun f => negb (below_floor profile f)) frags, List.filter (below_floor profile) frags).
Definition conflictBeats (challenger incumbent : ContextFrag) : bool :=
  let cs := SpecificityRank (fScope challenger) in
  let ci := SpecificityRank (fScope incumbent) in
  if negb (cs =? ci) then ci <? cs
  else
    let ct := TrustRank (fTrust challenger) in
    let it := TrustRank (fTrust incumbent) in
    if negb (ct =? it) then it <? ct else true.
Record conflictLoser : Type := mkLoser { clFrag : ContextFrag; clWinnerID : str }.
(** The winner of each key: its index and the fragment there. *)
Definition conflictStep (winners : gmap str (nat * ContextFrag)) (it : nat * ContextFrag) : gmap str (nat * ContextFrag) :=
  let '(i, f) := it in
  if is_empty (fConflictKey f) then winners
  else match winners !! fConflictKey f with
       | Some (_, incumbent) => if conflictBeats f incumbent then <[fConflictKey f := (i, f)]> winners else winners
       | None => <[fConflictKey f := (i, f)]> winners
       end.
Definition conflictWinners (frags : list ContextFrag) : gmap str (nat * ContextFrag) :=
  fold_left conflictStep (enumerate frags) ∅.
(** The loser record of a fragment that does not win its group. *)
Definition loses (winners : gmap str (nat * ContextFrag)) (it : nat * ContextFrag) : option conflictLoser :=
  let '(i, f) := it in
  if is_empty (fConflictKey f) then None
  else match winners !! fConflictKey f with
       | Some (j, w) => if (j =? i)%nat then None else Some (mkLoser f (fID w))
       | None => None
       end.
Definition keeps (winners : gmap str (nat * ContextFrag)) (it : nat * ContextFrag) : bool :=
  match loses winners it with None => true | Some _ => false end.
Definition resolveConflictGroups (frags : list ContextFrag) : list ContextFrag * list conflictLoser :=
  let winners := conflictWinners frags in
  if bool_decide (winners = ∅) then (frags, [])
  else ((List.filter (keeps winners) (enumerate frags)).*2, omap (loses winners) (enumerate frags)).

(** ** Budgets of single fragments *)
Definition fragBudgetTokenByteFactor : Z := EstimateBytesPerToken.
Record fragBudgetDrop : Type := mkFragDrop { fbdFrag : ContextFrag; fbdReason : str }.
Record fragBudgetEdit : Type := mkFragEdit { fbeTrace : ContextEditTrace; fbeFragID : str; fbeReason : str }.
Definition droppableSystemBudgetFrag (f : ContextFrag) : bool :=
  str_eqb (fSlot f) SlotSystem && (str_eqb (fRetentionTier f) RetentionOptional || str_eqb (fRetentionTier f) RetentionPreferred).
(** [safeUTF8BytePrefix]: the loop that backs off to the start of a rune. *)
Fixpoint backToStart (value : str) (cut : nat) : nat :=
  match cut with
  | O => O
  | S k => match value !! cut with
           | Some c => if rune_start c then cut else backToStart value k
           | None => cut
           end
  end.
Definition safeUTF8BytePrefix (value : str) (maxBytes : Z) : str :=
  if (maxBytes <=? 0) || is_empty value then []
  else if slen value <=? maxBytes then value
  else take (backToStart value (Z.to_nat maxBytes)) value.
Definition with_text (p : Part) (text : str) : Part :=
  mkPart (ptType p) text (ptImage p) (ptMessage p) (ptImagePart p) (ptSDKMessage p) (ptSDKImage p).
(** The parts cut to what remains of the limit, each with whether it changed. *)
Fixpoint trimParts (byBytes : bool) (remaining : Z) (parts : list Part) : list (Part * bool) :=
  match parts with
  | [] => []
  | p :: r =>
      let kept := if byBytes then safeUTF8BytePrefix (ptText p) remaining else TruncateRunes (ptText p) remaining in
      let remaining := if byBytes then remaining - slen kept else remaining - rune_count kept in
      (with_text p kept, negb (str_eqb kept (ptText p))) :: trimParts byBytes remaining r
  end.
Definition trimMarker (originalBytes : Z) : str := lit "[trimmed from " ++ itoa originalBytes ++ lit " bytes]".
Definition textBytes (parts : list Part) : Z := fold_right (fun p n => slen (ptText p) + n) 0 parts.
Definition trimPartsToLimit (parts : list Part) (limit : Z) (byBytes : bool) : list Part * bool :=
  let marker := trimMarker (textBytes parts) in
  let appendMarker := slen marker <? limit in
  let contentLimit := if appendMarker then limit - slen marker else limit in
  let next := trimParts byBytes contentLimit parts in
  match find_last snd next with
  | None => (parts, false)
  | Some lastChanged =>
      (if appendMarker then alter (fun p => with_text p (ptText p ++ marker)) lastChanged next.*1 else next.*1, true)
  end.
Definition fragTrimLimit (budget : BudgetPolicy) : Z * Z :=
  (if 0 <? bpMaxChars budget then bpMaxChars budget else 0,
   if 0 <? bpMaxTokens budget then bpMaxTokens budget * fragBudgetTokenByteFactor else 0).

Section selector.
Context {U : Unicode} {X : Externals}.
Definition messagePartChars (p : MessagePart) : Z :=
  match p with
  | TextPart t | ReasoningPart t => rune_count t
  | ImagePart _ => 0
  | _ => match json_of_part p with Some data => rune_count data | None => 0 end
  end.
Definition sum_of {A} (f : A -> Z) (l : list A) : Z := fold_right (fun x n => f x + n) 0 l.
Definition partChars (part : Part) : Z :=
  if str_eqb (ptType part) PartText then rune_count (ptText part)
  else if str_eqb (ptType part) PartSDKMessage then
    match partMessage part with Some msg => sum_of messagePartChars (msgContent msg) | None => 0 end
  else 0.
Definition fragCharCount (f : ContextFrag) : Z := sum_of partChars (fParts f).
Definition fragBudgetExceeded (f : ContextFrag) : option str :=
  if (0 <? bpMaxTokens (fBudget f)) && (bpMaxTokens (fBudget f) <? ResolveFragTokens f) then Some (lit "frag_budget:max_tokens")
  else if (0 <? bpMaxChars (fBudget f)) && (bpMaxChars (fBudget f) <? fragCharCount f) then Some (lit "frag_budget:max_chars")
  else None.
(** A fragment with other parts, its estimate and the hash of its reference
    cleared, its reference computed again. *)
Definition rebuildParts (f : ContextFrag) (parts : list Part) : ContextFrag :=
  let f := with_ref (with_parts f (fRole f) parts) (without_hash (fRef f)) in WithContextRef f (fRef f).
Definition trimFragText (f : ContextFrag) : option ContextFrag :=
  if bool_decide (fParts f = []) then None
  else if negb (forallb (fun p => str_eqb (ptType p) PartText) (fParts f)) then None
  else
    let '(charLimit, tokenByteLimit) := fragTrimLimit (fBudget f) in
    let '(parts, changed) := if 0 <? charLimit then trimPartsToLimit (fParts f) charLimit false else (fParts f, false) in
    let '(parts, changed') := if 0 <? tokenByteLimit then trimPartsToLimit parts tokenByteLimit true else (parts, false) in
    if changed || changed' then Some (rebuildParts f parts) else None.
Definition fragBudgetTrimEdit (f : ContextFrag) : ContextEditTrace :=
  mkEditTrace (lit "frag_budget.trim." ++ fID f) EditReplace (fSlot f) [fRef f].
(** What becomes of one fragment: kept (perhaps trimmed, perhaps with a
    warning) or dropped. *)
Inductive FragOutcome : Type :=
  | Kept (f : ContextFrag) (edit : option fragBudgetEdit) (warning : option ValidationWarning)
  | DroppedFor (d : fragBudgetDrop).
Definition warn (code : str) (f : ContextFrag) : option ValidationWarning := Some (mkWarning code [] (fRef f)).
Definition enforceFragBudget (profile : IntentProfile) (systemPlanActive : bool) (f : ContextFrag) : FragOutcome :=
  let overflow := bpOverflow (fBudget f) in
  match fragBudgetExceeded f with
  | None => Kept f None None
  | Some reason =>
      if str_eqb overflow OverflowKeep then Kept f None None
      else if str_eqb overflow OverflowDrop then
        if isToolExchangeFrag f then Kept f None (warn (lit "frag_budget_drop_blocked_tool_closure") f)
        else if isMustKeepFrag f profile && (negb systemPlanActive || negb (droppableSystemBudgetFrag f))
        then Kept f None (warn (lit "frag_budget_drop_blocked_must_keep") f)
        else DroppedFor (mkFragDrop f reason)
      else if str_eqb overflow OverflowTrim then
        match trimFragText f with
        | None => Kept f None (warn (lit "overflow_trim_unsupported") f)
        | Some trimmed => Kept trimmed (Some (mkFragEdit (fragBudgetTrimEdit trimmed) (fID f) reason)) None
        end
      else if str_eqb overflow OverflowSummarize then Kept f None (warn (lit "overflow_summarize_unsupported") f)
      else Kept f None None
  end.
Definition outcome_kept (o : FragOutcome) : option ContextFrag := match o with Kept f _ _ => Some f | DroppedFor _ => None end.
Definition outcome_dropped (o : FragOutcome) : option fragBudgetDrop := match o with Kept _ _ _ => None | DroppedFor d => Some d end.
Definition outcome_edit (o : FragOutcome) : option fragBudgetEdit := match o with Kept _ e _ => e | DroppedFor _ => None end.
Definition outcome_warning (o : FragOutcome) : option ValidationWarning := match o with Kept _ _ w => w | DroppedFor _ => None end.
Record FragBudgets : Type := mkFragBudgets {
  fbKept : list ContextFrag; fbDropped : list fragBudgetDrop; fbEdits : list fragBudgetEdit; fbWarnings : list ValidationWarning }.
Definition enforceFragBudgets (frags : list ContextFrag) (profile : IntentProfile) (systemPlanActive : bool) : FragBudgets :=
  let outcomes := map (enforceFragBudget profile systemPlanActive) frags in
  mkFragBudgets (omap outcome_kept outcomes) (omap outcome_dropped outcomes) (omap outcome_edit outcomes)
    (omap outcome_warning outcomes).

(** ** The system budget *)
Definition systemBudgetDropReason : str := lit "system_budget".
Definition systemBudgetMarkerID : str := lit "system.budget_notice".
Definition systemBudgetMarkerMaxBytes : Z := 512.
Definition systemBudgetMarkerIDMaxBytes : nat := 80.
Definition isSystem (f : ContextFrag) : bool := str_eqb (fSlot f) SlotSystem.
Definition isRenderGroupHeader (f : ContextFrag) : bool :=
  negb (is_empty (rpGroupID (fRender f))) && str_eqb (fID f) (rpGroupID (fRender f) ++ lit ".header").
Definition sortSystemFragsByPriority (ordered : list ContextFrag) : list ContextFrag :=
  if bool_decide (List.filter isSystem ordered = []) then ordered
  else stable_sort (key_lt fPriority) (List.filter isSystem ordered) ++ List.filter (fun f => negb (isSystem f)) ordered.
(** The loop of [systemFragCost] over the system fragments, in order. *)
Fixpoint systemCostLoop (frags : list ContextFrag) (previous : option RenderPolicy) : Z * Z * Z :=
  match frags with
  | [] => (0, 0, 0)
  | f :: r =>
      let '(resolved, renderedBytes, count) := systemCostLoop r (Some (fRender f)) in
      let separator := match previous with Some p => slen (RenderSeparator p (fRender f)) | None => 0 end in
      let text := sum_of (fun p => if str_eqb (ptType p) PartText then slen (RenderText (ptText p) (fRender f)) else 0) (fParts f) in
      (resolved + ResolveFragTokens f, renderedBytes + separator + text, count + 1)
  end.
Definition systemFragCost (frags : list ContextFrag) : Z :=
  let '(resolved, renderedBytes, count) := systemCostLoop (List.filter isSystem (sortSystemFragsByPriority frags)) None in
  let conservative := if 1 <? count then resolved + (count - 1) else resolved in
  let rendered := ProviderBudgetTokensFromBytes renderedBytes in
  if conservative <? rendered then rendered else conservative.

Definition systemBudgetMarkerIDByte (c : ascii) : bool :=
  let v := byte_val c in
  in_range 97 122 v || in_range 65 90 v || in_range 48 57 v || (v =? 45) || (v =? 95) || (v =? 46) || (v =? 58).
Definition systemBudgetMarkerDisplayID (raw : str) : str :=
  let raw := trim_space raw in
  if is_empty raw then lit "unnamed"
  else
    let token := take systemBudgetMarkerIDMaxBytes (map (fun c => if systemBudgetMarkerIDByte c then c else "-"%char) raw) in
    let changed := negb (forallb systemBudgetMarkerIDByte raw) || (systemBudgetMarkerIDMaxBytes <? length raw)%nat in
    if negb changed then token
    else
      let suffix := take 8 (hex_sha256 raw) in
      let value := take (systemBudgetMarkerIDMaxBytes - length suffix - 1) token in
      let value := trim_right value (lit "-._:") in
      (if is_empty value then lit "section" else value) ++ lit "-" ++ suffix.
Definition systemBudgetMarkerTail (omitted : Z) : str :=
  if omitted <=? 0 then lit "." else lit ", ... (+" ++ itoa omitted ++ lit " more).".
Definition systemBudgetMarkerPrefix : str :=
  lit "[System Notice] Some system sections were omitted to fit the context window: ".
Definition comma_space : str := lit ", ".
(** The identifiers listed before the text would be too long. *)
Fixpoint markerListed (listed : list str) (ids : list str) : list str :=
  match ids with
  | [] => listed
  | id :: r =>
      let displayID := systemBudgetMarkerDisplayID id in
      let candidate := systemBudgetMarkerPrefix ++ join comma_space (listed ++ [displayID]) ++
                       systemBudgetMarkerTail (Z.of_nat (length r)) in
      if systemBudgetMarkerMaxBytes <? slen candidate then listed else markerListed (listed ++ [displayID]) r
  end.
Definition systemBudgetMarkerText (droppedIDs : list str) : str :=
  match droppedIDs with
  | [] => systemBudgetMarkerPrefix ++ lit "details unavailable."
  | _ => match markerListed [] droppedIDs with
         | [] => systemBudgetMarkerPrefix ++ itoa (Z.of_nat (length droppedIDs)) ++ lit " section IDs not shown."
         | listed => systemBudgetMarkerPrefix ++ join comma_space listed ++
                     systemBudgetMarkerTail (Z.of_nat (length droppedIDs) - Z.of_nat (length listed))
         end
  end.
Definition systemBudgetMarkerFrag (droppedIDs : list str) (scope : Scope) : ContextFrag :=
  let f := TextFrag (mkFragInput systemBudgetMarkerID KindSystemPolicy SlotSystem max_int64 RetentionRequired 0 []
                       CacheDynamic TrustSystem scope (lit "run_config") [] (lit "system_budget") 0
                       (mkRenderPolicy RenderMarkdown [] [] []) (mkBudgetPolicy 0 0 OverflowKeep) [] 0)
             MessageRoleSystem (systemBudgetMarkerText droppedIDs) in
  WithContextRef f (fRef f).

(** Headers of groups that have no item left, by identifier. *)
Definition candidate : Type := nat * ContextFrag.
Definition groupHeaders (frags : list ContextFrag) (droppedIndexes : gset nat) : gmap str candidate * gmap str nat :=
  fold_left (fun hc it =>
      let f := it.2 in
      if bool_decide (it.1 ∈ droppedIndexes) || negb (isSystem f) || is_empty (rpGroupID (fRender f)) then hc
      else if isRenderGroupHeader f then (<[rpGroupID (fRender f) := it]> hc.1, hc.2)
      else (hc.1, <[rpGroupID (fRender f) := S (default 0%nat (hc.2 !! rpGroupID (fRender f)))]> hc.2))
    (enumerate frags) (∅, ∅).
Definition sweepEmptySystemGroupHeaders (frags : list ContextFrag) (droppedIndexes : gset nat) : list candidate :=
  let '(headers, itemCounts) := groupHeaders frags droppedIndexes in
  stable_sort (fun a b : candidate => str_ltb (fID a.2) (fID b.2))
    (map snd (List.filter (fun gh => (default 0%nat (itemCounts !! gh.1) =? 0)%nat) (map_to_list headers))).
Definition systemBudgetSelection (frags : list ContextFrag) (droppedIndexes : gset nat) (marker : option ContextFrag) : list ContextFrag :=
  let kept := (List.filter (fun it => negb (bool_decide (it.1 ∈ droppedIndexes))) (enumerate frags)).*2 in
  match marker with
  | None => kept
  | Some marker =>
      let insertAt := match find_last isSystem kept with Some i => S i | None => O end in
      take insertAt kept ++ [marker] ++ drop insertAt kept
  end.
Definition systemBudgetPlanActive (profile : IntentProfile) (plan : option ContextBudgetPlan) : bool :=
  match plan with
  | Some _ => str_eqb (ipIntent profile) IntentRunConfigPreProvider || str_eqb (ipIntent profile) IntentDiscussReply
  | None => false
  end.
Definition finishSystemBudgetPlan (plan : ContextBudgetPlan) (actual : Z) : ContextBudgetPlan :=
  mkPlan (plWindow plan) (plOutputReserve plan) (plToolDefsCost plan) (plCurrentRequestCost plan) (plSystemBudget plan)
    actual (Z.max (plSystemBudget plan - actual) 0).
Definition system_candidate (f : ContextFrag) : bool :=
  isSystem f && negb (isRenderGroupHeader f) && negb (str_eqb (bpOverflow (fBudget f)) OverflowKeep) &&
  (str_eqb (fRetentionTier f) RetentionOptional || str_eqb (fRetentionTier f) RetentionPreferred).
Definition candidate_before (a b : candidate) : bool :=
  let left := a.2 in
  let right := b.2 in
  if negb (str_eqb (fRetentionTier left) (fRetentionTier right)) then str_eqb (fRetentionTier left) RetentionOptional
  else if negb (fDropPriority left =? fDropPriority right) then fDropPriority right <? fDropPriority left
  else if negb (fPriority left =? fPriority right) then fPriority right <? fPriority left
  else str_ltb (fID left) (fID right).
(** What has been dropped so far. *)
Record SystemDrops : Type := mkSystemDrops { sdIndexes : gset nat; sdDropped : list ContextFrag; sdIDs : list str }.
Definition drop_system (s : SystemDrops) (c : candidate) : SystemDrops :=
  mkSystemDrops ({[c.1]} ∪ sdIndexes s) (sdDropped s ++ [c.2]) (sdIDs s ++ [fID c.2]).
Definition sweep_headers (frags : list ContextFrag) (s : SystemDrops) : SystemDrops :=
  fold_left drop_system (sweepEmptySystemGroupHeaders frags (sdIndexes s)) s.
Definition systemMarker (s : SystemDrops) (scope : Scope) : option ContextFrag :=
  match sdIDs s with [] => None | ids => Some (systemBudgetMarkerFrag ids scope) end.
Definition systemSelected (frags : list ContextFrag) (scope : Scope) (s : SystemDrops) : list ContextFrag :=
  systemBudgetSelection frags (sdIndexes s) (systemMarker s scope).
(** The loop over the candidates: [inl] when the budget is met. *)
Fixpoint dropCandidates (frags : list ContextFrag) (scope : Scope) (budget : Z) (candidates : list candidate) (s : SystemDrops) :
    SystemDrops + SystemDrops :=
  match candidates with
  | [] => inr s
  | c :: r =>
      if bool_decide (c.1 ∈ sdIndexes s) then dropCandidates frags scope budget r s
      else
        let s := sweep_headers frags (drop_system s c) in
        if systemFragCost (systemSelected frags scope s) <=? budget then inl s
        else dropCandidates frags scope budget r s
  end.
Definition systemScope (frags : list ContextFrag) (fragBudgetDropped : list fragBudgetDrop) : Scope :=
  match List.find isSystem frags with
  | Some f => fScope f
  | None => match List.find isSystem (map fbdFrag fragBudgetDropped) with Some f => fScope f | None => noScope end
  end.
Definition initialSystemDrops (frags : list ContextFrag) (fragBudgetDropped : list fragBudgetDrop) : SystemDrops :=
  sweep_headers frags (mkSystemDrops ∅ [] (map fID (List.filter isSystem (map fbdFrag fragBudgetDropped)))).
Definition systemCandidates (frags : list ContextFrag) : list candidate :=
  stable_sort candidate_before (List.filter (fun it => system_candidate it.2) (enumerate frags)).
Record SystemOutcome : Type := mkSystemOutcome {
  soSelected : list ContextFrag; soDropped : list ContextFrag; soError : option SelectError; soPlan : option ContextBudgetPlan }.
Definition enforceSystemBudget (frags : list ContextFrag) (profile : IntentProfile) (plan : option ContextBudgetPlan)
    (fragBudgetDropped : list fragBudgetDrop) : SystemOutcome :=
  match plan with
  | Some p =>
      if negb (systemBudgetPlanActive profile plan) then mkSystemOutcome frags [] None plan
      else
        let scope := systemScope frags fragBudgetDropped in
        let finish s error :=
          let selected := systemSelected frags scope s in
          mkSystemOutcome selected (sdDropped s) error (Some (finishSystemBudgetPlan p (systemFragCost selected))) in
        let s := initialSystemDrops frags fragBudgetDropped in
        if systemFragCost (systemSelected frags scope s) <=? plSystemBudget p then finish s None
        else match dropCandidates frags scope (plSystemBudget p) (systemCandidates frags) s with
             | inl s => finish s None
             | inr s => finish s (Some ErrProtectedContextOverflow)
             end
  | None => mkSystemOutcome frags [] None plan
  end.

(** ** Summaries cut to fit *)
Definition summaryTruncateNotice : str :=
  [nl; nl] ++ lit "[The rest of this summary was truncated to fit the context window.]".
Definition minSummaryKeepRunes : Z := 200.
Definition summaryBudgetEditReason : str := lit "summary_budget_truncate".
(** [rebuildMessageFrag]; the conflict key is kept by both. *)
Definition rebuildMessageFrag (f : ContextFrag) (msg : Message) : ContextFrag :=
  let f := RebuildFragMessage f msg in
  let f := with_ref f (without_hash (fRef f)) in WithContextRef f (fRef f).
Definition summaryFragText (f : ContextFrag) : option (str * (str -> ContextFrag)) :=
  match fParts f with
  | [part] =>
      if str_eqb (ptType part) PartText then Some (ptText part, fun text => rebuildParts f [with_text part text])
      else match partMessage part with
           | Some msg =>
               match msgContent msg with
               | [TextPart text] => Some (text, fun text => rebuildMessageFrag f (mkMessage (msgRole msg) [TextPart text]))
               | _ => None
               end
           | None => None
           end
  | _ => None
  end.
Fixpoint shrinkAttempts (attempts : nat) (rebuild : str -> ContextFrag) (text suffix : str) (target keepRunes : Z) :
    option (ContextFrag * Z) :=
  match attempts with
  | O => None
  | S attempts =>
      if keepRunes <? minSummaryKeepRunes then None
      else
        let next := rebuild (TruncateRunesWithSuffix text keepRunes suffix) in
        let tokens := ResolveProviderBudgetFragTokens next in
        if tokens <=? target then Some (next, tokens)
        else shrinkAttempts attempts rebuild text suffix target (keepRunes * 4 / 5)
  end.
Definition shrinkSummaryFragToTokens (f : ContextFrag) (target : Z) : option (ContextFrag * Z) :=
  match summaryFragText f with
  | None => None
  | Some (text, rebuild) =>
      if target <=? 0 then None
      else
        let current := ResolveProviderBudgetFragTokens f in
        if current <=? 0 then None
        else
          let suffix := summaryTruncateNotice ++
            (if has_suffix (trim_right text [" "%char; tab; nl]) (lit "</summary>") then [nl] ++ lit "</summary>" else []) in
          match shrinkAttempts 8 rebuild text suffix target (rune_count text * target / current) with
          | Some r => Some r
          | None =>
              let next := rebuild (TruncateRunesWithSuffix text minSummaryKeepRunes suffix) in
              let tokens := ResolveProviderBudgetFragTokens next in
              if tokens <=? target then Some (next, tokens) else None
          end
  end.
Definition is_kept_summary (t : TaggedFrag) : bool :=
  str_eqb (fKind (tfFrag t)) KindConversationSummary && HasTag t TagMustKeep.
(** The rounds that settle the summaries under the target: what is left to
    shorten and to how much, or nothing. *)
Fixpoint settle (rounds : nat) (tagged : list TaggedFrag) (available : Z) (pending : list nat) (target : Z) : option (list nat * Z) :=
  match rounds with
  | O => Some (pending, target)
  | S rounds =>
      let fits idx := tokens_at tagged idx <=? target in
      let settled := List.filter fits pending in
      let pending := List.filter (fun idx => negb (fits idx)) pending in
      let available := available - sum_at tagged settled in
      if bool_decide (pending = []) || (available <=? 0) then None
      else
        let target := available / Z.of_nat (length pending) in
        if bool_decide (settled = []) then Some (pending, target) else settle rounds tagged available pending target
  end.
Fixpoint shrinkPending (tagged : list TaggedFrag) (target : Z) (pending : list nat) : list TaggedFrag * list fragBudgetEdit :=
  match pending with
  | [] => (tagged, [])
  | idx :: r =>
      match tagged !! idx with
      | None => shrinkPending tagged target r
      | Some entry =>
          match shrinkSummaryFragToTokens (tfFrag entry) target with
          | None => shrinkPending tagged target r
          | Some (next, tokens) =>
              let '(tagged, edits) := shrinkPending (<[idx := mkTagged next (tfTags entry) tokens]> tagged) target r in
              (tagged, mkFragEdit (mkEditTrace (lit "summary.budget_truncate." ++ fID next) EditReplace (fSlot next) [fRef next])
                         (fID next) summaryBudgetEditReason :: edits)
          end
      end
  end.
Definition shrinkOversizedProtectedSummaries (tagged : list TaggedFrag) (protectedCost ceiling : Z) :
    list TaggedFrag * list fragBudgetEdit :=
  let summaries := (List.filter (fun it => is_kept_summary it.2) (enumerate tagged)).*1 in
  if bool_decide (summaries = []) then (tagged, [])
  else
    let available := ceiling - (protectedCost - sum_at tagged summaries) in
    if available <=? 0 then (tagged, [])
    else match settle (length summaries) tagged available summaries (available / Z.of_nat (length summaries)) with
         | None => (tagged, [])
         | Some (pending, target) => shrinkPending tagged target pending
         end.

(** ** The notice of a trim *)
Definition HistoryTrimNotice : str :=
  lit "[System Notice] Some earlier and intervening messages were trimmed to fit the context window. If you need information from the trimmed messages, use the available tools (such as memory_read or web search) to retrieve it.".
Definition historyTrimNoticeID : str := lit "history.trim_notice".
Definition TrimNoticeFrag (scope : Scope) : ContextFrag :=
  MessageFrag (mkFragInput historyTrimNoticeID KindSystemPolicy SlotHistory 30 [] 0 [] CacheNever TrustSystem scope
                 (lit "context_select") historyTrimNoticeID (lit "budget_trim") 0 (mkRenderPolicy [] [] [] [])
                 (mkBudgetPolicy 0 0 []) [] 0)
    (mkMessage MessageRoleSystem [TextPart HistoryTrimNotice]).
Definition noticeCost : Z := ResolveProviderBudgetFragTokens (TrimNoticeFrag noScope).
Definition open_ids (open : gmap str Z) (ids : list str) : gmap str Z :=
  fold_left (fun (open : gmap str Z) id => <[id := default 0 (open !! id) + 1]> open) ids open.
Definition close_ids (open : gmap str Z) (ids : list str) : gmap str Z :=
  fold_left (fun (open : gmap str Z) id => match open !! id with
                                           | Some count => if count <=? 1 then delete id open else <[id := count - 1]> open
                                           | None => open
                                           end) ids open.
Definition closure_after (open : gmap str Z) (f : ContextFrag) : gmap str Z :=
  close_ids (open_ids open (fragToolCallIDs f)) (fragToolResultCallIDs f).
(** The loop of [closureSafeNoticeIndex] from position [pos]. *)
Fixpoint noticeLoop (kept : list ContextFrag) (base pos : nat) (open : gmap str Z) (fallback : nat) : nat :=
  let closed := bool_decide (open = ∅) in
  if closed && (base <=? pos)%nat then pos
  else
    let fallback := if closed then pos else fallback in
    match kept with
    | [] => fallback
    | f :: r => noticeLoop r base (S pos) (closure_after open f) fallback
    end.
Definition closureSafeNoticeIndex (kept : list ContextFrag) (base : nat) : nat := noticeLoop kept base 0 ∅ 0.
Definition is_dropped (drops : gmap nat str) (i : nat) : bool := bool_decide (is_Some (drops !! i)).
Definition keptFrags (tagged : list TaggedFrag) (drops : gmap nat str) : list ContextFrag :=
  map (fun it => tfFrag it.2) (List.filter (fun it => negb (is_dropped drops it.1)) (enumerate tagged)).
Definition trimNoticeIndex (tagged : list TaggedFrag) (drops : gmap nat str) : Z :=
  match find_last (fun it => is_dropped drops it.1) (enumerate tagged) with
  | None => -1
  | Some lastDropped =>
      (* the number of kept fragments before the first kept one after it *)
      let base := length (List.filter (fun it => negb (is_dropped drops it.1) && (it.1 <? lastDropped)%nat) (enumerate tagged)) in
      Z.of_nat (closureSafeNoticeIndex (keptFrags tagged drops) base)
  end.

(** ** The selection *)
Definition selectionResultFromTaggedReasons (tagged : list TaggedFrag) (drops : gmap nat str) : SelectionResult :=
  let selected := keptFrags tagged drops in
  let out := List.filter (fun it => is_dropped drops it.1) (enumerate tagged) in
  let record it :=
    let reason := default [] (drops !! it.1) in
    mkDropRecord (fID (tfFrag it.2)) (fRef (tfFrag it.2)) (if is_empty reason then selectionDropReason it.2 else reason) in
  mkSelection selected (map (fun it => tfFrag it.2) out) None false 0 [] ∅ [] (Z.of_nat (length tagged))
    (Z.of_nat (length selected)) (Z.of_nat (length out)) (map record out).
Definition with_notice (r : SelectionResult) (index : Z) : SelectionResult :=
  mkSelection (srSelected r) (srDropped r) (srFatalError r) true index (srEdited r) (srEditReasons r) (srWarnings r)
    (srTotalCollected r) (srTotalSelected r) (srTotalDropped r) (srDropReasons r).
Definition with_fatal (r : SelectionResult) (e : option SelectError) : SelectionResult :=
  mkSelection (srSelected r) (srDropped r) e (srTrimNotice r) (srTrimNoticeIndex r) (srEdited r) (srEditReasons r)
    (srWarnings r) (srTotalCollected r) (srTotalSelected r) (srTotalDropped r) (srDropReasons r).
Definition recordDrops (r : SelectionResult) (drops : list (ContextFrag * str)) : SelectionResult :=
  let dropped := srDropped r ++ drops.*1 in
  mkSelection (srSelected r) dropped (srFatalError r) (srTrimNotice r) (srTrimNoticeIndex r) (srEdited r) (srEditReasons r)
    (srWarnings r) (Z.of_nat (length (srSelected r)) + Z.of_nat (length dropped)) (Z.of_nat (length (srSelected r)))
    (Z.of_nat (length dropped))
    (srDropReasons r ++ map (fun fr => mkDropRecord (fID fr.1) (fRef fr.1) fr.2) drops).
(** What the passes before the history dropped and edited. *)
Record Passes : Type := mkPasses {
  paGated : list ContextFrag; paSuperseded : list conflictLoser; paFragDropped : list fragBudgetDrop;
  paEdits : list fragBudgetEdit; paWarnings : list ValidationWarning; paSystemDropped : list ContextFrag }.
Definition passDrops (profile : IntentProfile) (p : Passes) : list (ContextFrag * str) :=
  map (fun f => (f, lit "trust_gate:" ++ fSlot f ++ lit "_requires_" ++ default [] (ipSlotTrustFloors profile !! fSlot f))) (paGated p) ++
  map (fun l => (clFrag l, lit "precedence:superseded_by_" ++ clWinnerID l)) (paSuperseded p) ++
  map (fun d => (fbdFrag d, fbdReason d)) (paFragDropped p) ++
  map (fun f => (f, systemBudgetDropReason)) (paSystemDropped p).
Definition finalizeSelection (r : SelectionResult) (profile : IntentProfile) (p : Passes) (edits : list fragBudgetEdit) : SelectionResult :=
  let r := mkSelection (srSelected r) (srDropped r) (srFatalError r) (srTrimNotice r) (srTrimNoticeIndex r)
             (srEdited r ++ map fbeTrace edits)
             (fold_left (fun (m : gmap str str) e => <[fbeFragID e := fbeReason e]> m) edits (srEditReasons r))
             (srWarnings r ++ paWarnings p) (srTotalCollected r) (srTotalSelected r) (srTotalDropped r) (srDropReasons r) in
  recordDrops r (passDrops profile p).
(** The provider's price of every fragment. *)
Definition repriced (tagged : list TaggedFrag) : list TaggedFrag :=
  map (fun t => mkTagged (tfFrag t) (tfTags t) (ResolveProviderBudgetFragTokens (tfFrag t))) tagged.
(** The protected part of the history under a plan: what is left for the rest,
    the summaries shortened if that is needed and possible. *)
Definition fitProtected (tagged : list TaggedFrag) (historyBudget : Z) : list TaggedFrag * list fragBudgetEdit :=
  let protectedCost := protectedHistoryTokenCost tagged in
  let droppable := droppableHistoryTokenCost tagged in
  let summaryCeiling := if (0 <? droppable) && (historyBudget - protectedCost <? droppable)
                        then historyBudget - noticeCost else historyBudget in
  if summaryCeiling <? protectedCost then shrinkOversizedProtectedSummaries tagged protectedCost summaryCeiling
  else (tagged, []).
(** [Select] once the passes are done: the history. *)
Definition selectHistory (tagged : list TaggedFrag) (profile : IntentProfile) (budget : BudgetEnvelope) (plan : option ContextBudgetPlan)
    (p : Passes) : SelectionResult :=
  let keep drops := selectionResultFromTaggedReasons tagged drops in
  if beKeepHistory budget then finalizeSelection (keep (orphanExchangeDrops tagged)) profile p (paEdits p)
  else match plan with
  | None =>
      let drops := budgetTrimDrops tagged (beMaxTokens budget) (beRecentProtectTokens budget) in
      let r := keep drops in
      finalizeSelection (if hasSpatialBudgetDrop drops then with_notice r (trimNoticeIndex tagged drops) else r) profile p (paEdits p)
  | Some plan =>
      let '(tagged, edits) := fitProtected (repriced tagged) (plHistoryBudget plan) in
      let keep drops := selectionResultFromTaggedReasons tagged drops in
      let finish r := finalizeSelection r profile p (paEdits p ++ edits) in
      let protectedCost := protectedHistoryTokenCost tagged in
      if plHistoryBudget plan <? protectedCost then finish (with_fatal (keep ∅) (Some ErrProtectedContextOverflow))
      else
        let historyBudget := plHistoryBudget plan - protectedCost in
        let drops := budgetTrimDropsEnabled tagged historyBudget (beRecentProtectTokens budget) in
        if hasSpatialBudgetDrop drops then
          if historyBudget <? noticeCost then finish (with_fatal (keep drops) (Some ErrProtectedContextOverflow))
          else
            let drops := budgetTrimDropsEnabled tagged (historyBudget - noticeCost) (beRecentProtectTokens budget) in
            let r := keep drops in
            finish (if hasSpatialBudgetDrop drops then with_notice r (trimNoticeIndex tagged drops) else r)
        else finish (keep drops)
  end.
Definition Select (frags : list ContextFrag) (profile : IntentProfile) (budget : BudgetEnvelope) :
    SelectionResult * option ContextBudgetPlan :=
  let '(frags, gated) := applyTrustGate frags profile in
  let '(frags, superseded) := resolveConflictGroups frags in
  let b := enforceFragBudgets frags profile (systemBudgetPlanActive profile (bePlan budget)) in
  let s := enforceSystemBudget (fbKept b) profile (bePlan budget) (fbDropped b) in
  let p := mkPasses gated superseded (fbDropped b) (fbEdits b) (fbWarnings b) (soDropped s) in
  let tagged := tagFragments (soSelected s) profile in
  (match soError s with
   | Some e => finalizeSelection (with_fatal (selectionResultFromTaggedReasons tagged ∅) (Some e)) profile p (paEdits p)
   | None => selectHistory tagged profile budget (soPlan s) p
   end, soPlan s).

(** ** The capability gate *)
Definition capabilityGateDropReason : str := lit "capability_gated".
Definition requiresUnavailableCapability (f : ContextFrag) (available : gset str) : bool :=
  let capability := trim_space (fRequiredCapability f) in
  if negb (isSystem f) || is_empty capability then false else negb (bool_decide (capability ∈ available)).
Definition group_count (frags : list ContextFrag) (p : ContextFrag -> bool) (groupID : str) : nat :=
  countb (fun f => str_eqb (rpGroupID (fRender f)) groupID && negb (isRenderGroupHeader f) && p f) frags.
Definition capability_dropped (frags : list ContextFrag) (available : gset str) (f : ContextFrag) : bool :=
  if isRenderGroupHeader f then
    let groupID := rpGroupID (fRender f) in
    if (0 <? group_count frags (fun _ => true) groupID)%nat
    then (group_count frags (fun g => negb (requiresUnavailableCapability g available)) groupID =? 0)%nat
    else requiresUnavailableCapability f available
  else requiresUnavailableCapability f available.
Definition filterUnavailableCapabilities (frags : list ContextFrag) (available : gset str) : list ContextFrag * list ContextFrag :=
  (List.filter (fun f => negb (capability_dropped frags available f)) frags, List.filter (capability_dropped frags available) frags).
Definition appendCapabilityGateDrops (r : SelectionResult) (gated : list ContextFrag) : SelectionResult :=
  mkSelection (srSelected r) (srDropped r ++ gated) (srFatalError r) (srTrimNotice r) (srTrimNoticeIndex r) (srEdited r)
    (srEditReasons r) (srWarnings r) (srTotalCollected r + Z.of_nat (length gated)) (srTotalSelected r)
    (srTotalDropped r + Z.of_nat (length gated))
    (srDropReasons r ++ map (fun f => mkDropRecord (fID f) (fRef f) capabilityGateDropReason) gated).
Definition gatedSelect (available : gset str) (frags : list ContextFrag) (profile : IntentProfile) (budget : BudgetEnvelope) :
    SelectionResult * option ContextBudgetPlan :=
  let '(kept, gated) := filterUnavailableCapabilities frags available in
  let '(result, plan) := Select kept profile budget in
  (appendCapabilityGateDrops result gated, plan).
End selector.
