(* ===== verification/ContextCorrect.v ===== *)
(** * What the context selection guarantees

    Proofs about [ContextSelect]: nothing collected is lost without a record,
    the current request stays, trust floors and conflict groups are respected,
    the system budget only takes what may go, and a selection made under a plan
    fits the window the plan was computed from, its history included unless the
    run is armed to fold it. *)

From S2P Require Import Prelude GoStr GoTrim ToolOutput ContextFrag ContextUnits ContextSelect.
#[local] Open Scope Z_scope.

(** The same fragment, its text perhaps shortened. *)
Definition same_frag (f g : ContextFrag) : Prop :=
  fID f = fID g /\ fKind f = fKind g /\ fSlot f = fSlot g /\ fTrust f = fTrust g /\ fScope f = fScope g /\
  fBudget f = fBudget g /\ fConflictKey f = fConflictKey g /\ fRetentionTier f = fRetentionTier g.
#[export] Instance same_frag_refl : Reflexive same_frag.
Proof. by intros f. Qed.
#[export] Instance same_frag_trans : Transitive same_frag.
Proof. intros f g h. unfold same_frag. intuition congruence. Qed.
Definition is_history (f : ContextFrag) : bool :=
  negb (str_eqb (fSlot f) SlotSystem || str_eqb (fSlot f) SlotCurrentUser || str_eqb (fKind f) KindCurrentUserMessage).
Definition trusted (profile : IntentProfile) (f : ContextFrag) : Prop := below_floor profile f = false.
(** [w] takes precedence over [f]: closer scope, then more trust. *)
Definition precedes (w f : ContextFrag) : Prop :=
  SpecificityRank (fScope f) < SpecificityRank (fScope w) \/
  (SpecificityRank (fScope f) = SpecificityRank (fScope w) /\ TrustRank (fTrust f) <= TrustRank (fTrust w)).
Definition ids (l : list ContextFrag) : list str := map fID l.

#[export] Instance ids_proper : Proper ((≡ₚ) ==> (≡ₚ)) ids.
Proof. intros l l' H. by apply Permutation_map. Qed.
Lemma ids_app a b : ids (a ++ b) = ids a ++ ids b.
Proof. apply map_app. Qed.

Section facts.
Context {U : Unicode} {X : Externals}.
Definition history_cost (frags : list ContextFrag) : Z := sum_of ResolveProviderBudgetFragTokens (List.filter is_history frags).

(** ** Rebuilt fragments *)
Lemma rebuildParts_same f parts : same_frag (rebuildParts f parts) f.
Proof.
  unfold rebuildParts. destruct (WithContextRef_spec (with_ref (with_parts f (fRole f) parts) (without_hash (fRef f)))
    (without_hash (fRef f))) as [r H]. cbv zeta. change (fRef (with_ref _ _)) with (without_hash (fRef f)). by rewrite H.
Qed.
Lemma rebuildMessage_same f msg : same_frag (rebuildMessageFrag f msg) f.
Proof.
  unfold rebuildMessageFrag, RebuildFragMessage. cbv zeta.
  destruct (WithContextRef_spec (with_ref (with_parts f (msgRole msg) [messagePart msg]) noRef) (without_hash (fRef f))) as [r ->].
  match goal with |- same_frag (WithContextRef ?g ?ref) _ => destruct (WithContextRef_spec g ref) as [r' ->] end. done.
Qed.
Lemma trimFragText_same f g : trimFragText f = Some g -> same_frag g f.
Proof.
  unfold trimFragText. case_if; [done|]. case_if; [done|]. destruct (fragTrimLimit _) as [cl tl].
  destruct (if 0 <? cl then _ else _) as [p1 c1]. destruct (if 0 <? tl then _ else _) as [p2 c2].
  case_if; [|done]. intros [= <-]. apply rebuildParts_same.
Qed.
Lemma summaryFragText_same f text rebuild t : summaryFragText f = Some (text, rebuild) -> same_frag (rebuild t) f.
Proof.
  unfold summaryFragText. destruct (fParts f) as [|part [|]]; [done| |done]. case_if.
  - intros [= <- <-]. apply rebuildParts_same.
  - destruct (partMessage part) as [msg|]; [|done]. destruct (msgContent msg) as [|[] [|]]; try done.
    intros [= <- <-]. apply rebuildMessage_same.
Qed.
Lemma shrinkAttempts_spec n rebuild text suffix target k next tokens :
  shrinkAttempts n rebuild text suffix target k = Some (next, tokens) ->
  (exists t, next = rebuild t) /\ tokens = ResolveProviderBudgetFragTokens next /\ tokens <= target.
Proof.
  revert k. induction n as [|n IH]; intros k; cbn [shrinkAttempts]; [done|]. case_if; [done|]. cbv zeta.
  destruct (_ <=? target) eqn:E; [|apply IH]. intros [= <- <-]. bool_hyps. by eauto.
Qed.
Lemma shrinkSummary_spec f target next tokens : shrinkSummaryFragToTokens f target = Some (next, tokens) ->
  same_frag next f /\ tokens = ResolveProviderBudgetFragTokens next /\ tokens <= target.
Proof.
  unfold shrinkSummaryFragToTokens. destruct (summaryFragText f) as [[text rebuild]|] eqn:Es; [|done].
  case_if; [done|]. cbv zeta. case_if; [done|]. set (suffix := summaryTruncateNotice ++ _).
  destruct (shrinkAttempts _ _ _ _ _ _) as [[n1 t1]|] eqn:Ea.
  - intros [= <- <-]. apply shrinkAttempts_spec in Ea as ([t ->] & H). split; [by eapply summaryFragText_same|done].
  - destruct (_ <=? target) eqn:E; [|done]. intros [= <- <-]. bool_hyps. split; [by eapply summaryFragText_same|done].
Qed.

(** ** Shortened summaries *)
(** The same fragments in the same places, at their provider price. *)
Definition priced (tagged : list TaggedFrag) : Prop :=
  Forall (fun t => tfTokens t = ResolveProviderBudgetFragTokens (tfFrag t)) tagged.
Definition same_tagged (t t' : TaggedFrag) : Prop :=
  same_frag (tfFrag t') (tfFrag t) /\ tfTags t' = tfTags t /\
  (fKind (tfFrag t) <> KindConversationSummary -> tfFrag t' = tfFrag t).
Lemma same_tagged_refl t : same_tagged t t.
Proof. split; [reflexivity|done]. Qed.
Lemma shrinkPending_spec tagged target pending :
  Forall (fun i => forall t, tagged !! i = Some t -> is_kept_summary t = true) pending -> priced tagged ->
  let tagged' := (shrinkPending tagged target pending).1 in Forall2 same_tagged tagged tagged' /\ priced tagged'.
Proof.
  cbv zeta. revert tagged. induction pending as [|i pending IH]; intros tagged Hk Hp; cbn [shrinkPending].
  { split; [|done]. apply Forall2_same_length_lookup. split; [done|]. intros j t t' H1 H2. cbn in H2. simplify_eq. apply same_tagged_refl. }
  apply Forall_cons in Hk as [Hi Hk]. destruct (tagged !! i) as [entry|] eqn:Ei; [|by apply IH].
  destruct (shrinkSummaryFragToTokens (tfFrag entry) target) as [[next tokens]|] eqn:Es; [|by apply IH].
  apply shrinkSummary_spec in Es as (Hs & Ht & _). specialize (Hi entry eq_refl).
  assert (Hkind : fKind (tfFrag entry) = KindConversationSummary).
  { unfold is_kept_summary in Hi. bool_hyps. by str_hyps. }
  set (tagged1 := <[i := mkTagged next (tfTags entry) tokens]> tagged).
  assert (H1 : Forall2 same_tagged tagged tagged1).
  { apply Forall2_same_length_lookup. subst tagged1. split; [by rewrite length_insert|]. intros j t t' Hj.
    destruct (decide (j = i)) as [->|Hne].
    - rewrite list_lookup_insert_eq by by eapply lookup_lt_Some. intros [= <-]. simplify_eq. split_and!; try done.
    - rewrite list_lookup_insert_ne by done. intros Hj'. simplify_eq. apply same_tagged_refl. }
  assert (H2 : priced tagged1).
  { apply Forall_insert; [done|]. by rewrite Ht. }
  destruct (shrinkPending tagged1 target pending) as [tagged2 edits] eqn:E2. cbn.
  destruct (IH tagged1) as [H3 H4]; [|done|].
  { eapply Forall_impl; [exact Hk|]. intros j Hj t'. destruct (decide (j = i)) as [->|Hne].
    - subst tagged1. rewrite list_lookup_insert_eq by by eapply lookup_lt_Some. intros [= <-].
      unfold is_kept_summary in *. cbn. destruct Hs as (_ & -> & _). exact Hi.
    - subst tagged1. rewrite list_lookup_insert_ne by done. apply Hj. }
  rewrite E2 in H3, H4. cbn in H3, H4. split; [|done].
  apply Forall2_same_length_lookup in H1 as [L1 H1]. apply Forall2_same_length_lookup in H3 as [L3 H3].
  apply Forall2_same_length_lookup. split; [lia|]. intros j t t' Hj Hj'.
  destruct (lookup_lt_is_Some_2 tagged1 j) as [t1 Ht1]; [apply lookup_lt_Some in Hj; lia|].
  destruct (H1 j t t1 Hj Ht1) as (A1 & A2 & A3). destruct (H3 j t1 t' Ht1 Hj') as (B1 & B2 & B3).
  split_and!; [by transitivity (tfFrag t1)|congruence|]. intros Hn. rewrite B3; [by apply A3|]. destruct A1 as (_ & -> & _). done.
Qed.
Lemma settle_sub rounds tagged available pending target pending' target' :
  settle rounds tagged available pending target = Some (pending', target') -> forall i, i ∈ pending' -> i ∈ pending.
Proof.
  revert available pending target. induction rounds as [|n IH]; intros available pending target; cbn [settle].
  { intros [= <- <-]. done. }
  cbv zeta. case_if; [done|]. case_if.
  - intros [= <- <-] i [? _]%elem_of_filter_bool. done.
  - intros H i Hi. eapply IH in H as [? _]%elem_of_filter_bool; done.
Qed.
Lemma enumerate_lookup {A} (l : list A) i x : (i, x) ∈ enumerate l <-> l !! i = Some x.
Proof.
  unfold enumerate. rewrite elem_of_lookup_imap. split; [by intros (j & y & [= -> ->] & H)|]. intros H. by exists i, x.
Qed.
Lemma enumerate_snd {A} (l : list A) : (enumerate l).*2 = l.
Proof.
  unfold enumerate. apply list_eq. intros i. rewrite list_lookup_fmap, list_lookup_imap. by destruct (l !! i).
Qed.
Lemma repriced_priced tagged : priced (repriced tagged).
Proof. apply Forall_forall. intros t (t' & -> & _)%list_elem_of_fmap. done. Qed.
Lemma fitProtected_spec tagged budget : priced tagged ->
  Forall2 same_tagged tagged (fitProtected tagged budget).1 /\ priced (fitProtected tagged budget).1.
Proof.
  intros Hp. assert (Hid : Forall2 same_tagged tagged tagged) 
    by (apply Forall2_same_length_lookup; split; [done|]; intros; simplify_eq; apply same_tagged_refl).
  unfold fitProtected. cbv zeta. set (ceiling := if _ && _ then _ else _). case_if; [|done].
  unfold shrinkOversizedProtectedSummaries. cbv zeta. case_if; [done|]. case_if; [done|].
  destruct (settle _ _ _ _ _) as [[pending target]|] eqn:Es; [|done].
  apply shrinkPending_spec; [|done]. apply Forall_forall. intros i Hi t Ht.
  eapply settle_sub in Es; [|exact Hi]. apply list_elem_of_fmap in Es as [[j t'] [-> [Hj Hk]%elem_of_filter_bool]].
  apply enumerate_lookup in Hj. cbn in *. congruence.
Qed.

(** ** Tags *)
Lemma enumerate_fst {A} (l : list A) : (enumerate l).*1 = seq 0 (length l).
Proof.
  unfold enumerate. induction l as [|x l IH] using rev_ind; [done|]. rewrite imap_app, fmap_app, IH, length_app. cbn.
  rewrite Nat.add_0_r, Nat.add_1_r. by rewrite seq_S.
Qed.
Lemma has_add_tag t tag tag' : HasTag (add_tag t tag) tag' = HasTag t tag' || bool_decide (tag' = tag).
Proof.
  unfold HasTag, hasSelectionTag, add_tag, appendSelectionTag; cbn. unfold hasSelectionTag.
  destruct (bool_decide (tag ∈ tfTags t)) eqn:E; bool_hyps.
  - destruct (bool_decide (tag' ∈ tfTags t)) eqn:E2; [done|]. bool_hyps. cbn. symmetry. apply bool_decide_eq_false. by intros ->.
  - rewrite (bool_decide_ext (tag' ∈ tfTags t ++ [tag]) (tag' ∈ tfTags t \/ tag' = tag)) by set_solver.
    destruct (decide (tag' ∈ tfTags t)); [by rewrite !bool_decide_true by auto|].
    rewrite (bool_decide_false (tag' ∈ tfTags t)) by done. apply bool_decide_ext. naive_solver.
Qed.
Lemma tagFragment_spec profile f : tfFrag (tagFragment profile f) = f /\ can_drop (tagFragment profile f) = false /\
  (isMustKeepFrag f profile = true -> HasTag (tagFragment profile f) TagMustKeep = true).
Proof.
  unfold tagFragment, can_drop. cbv zeta. split_and!.
  - by repeat case_if.
  - repeat case_if; by rewrite ?has_add_tag.
  - intros Hm. rewrite Hm. repeat case_if; by rewrite ?has_add_tag.
Qed.
Lemma mark_spec tagged : Forall2 (fun t t' => tfFrag t' = tfFrag t /\
    (can_drop t = false -> HasTag t TagMustKeep = true -> can_drop t' = false)) tagged (markRecentAndDropTags tagged).
Proof.
  unfold markRecentAndDropTags, can_drop. cbv zeta. case_if.
  all: apply Forall2_same_length_lookup; (split; [by rewrite length_imap|]); intros i t t' Ht Ht';
    rewrite list_lookup_imap, Ht in Ht'; injection Ht' as <-.
  - split; [by case_if|]. intros H1 H2. rewrite H2, orb_true_r. by rewrite has_add_tag, H1.
  - split; [by repeat case_if|]. intros H1 H2. rewrite H2. by rewrite has_add_tag, H1.
Qed.
Lemma tagFragments_spec frags profile : Forall2 (fun f t => tfFrag t = f /\ (isMustKeepFrag f profile = true -> can_drop t = false))
  frags (tagFragments frags profile).
Proof.
  unfold tagFragments. pose proof (mark_spec (map (tagFragment profile) frags)) as H.
  apply Forall2_same_length_lookup in H as [Hl H]. rewrite length_map in Hl. apply Forall2_same_length_lookup. split; [done|].
  intros i f t Hf Ht. specialize (H i (tagFragment profile f) t). rewrite list_lookup_fmap, Hf in H.
  destruct (H eq_refl Ht) as [H1 H2]. destruct (tagFragment_spec profile f) as (T1 & T2 & T3). split; [congruence|]. auto.
Qed.
Lemma tagFragments_frags frags profile : map tfFrag (tagFragments frags profile) = frags.
Proof.
  pose proof (tagFragments_spec frags profile) as H. induction H as [|f t fs ts [Hf _] _ IH]; [done|]. cbn. by rewrite Hf, IH.
Qed.

(** ** Kept and dropped fragments *)
Lemma kept_and_dropped tagged drops :
  keptFrags tagged drops ++ map (fun it => tfFrag it.2) (List.filter (fun it => is_dropped drops it.1) (enumerate tagged)) ≡ₚ map tfFrag tagged.
Proof.
  unfold keptFrags. rewrite <- map_app. rewrite <- (enumerate_snd tagged) at 3. rewrite map_map.
  apply Permutation_map. rewrite Permutation_app_comm. symmetry. apply (filter_partition (fun it => is_dropped drops it.1)).
Qed.
Lemma kept_at tagged drops i t : tagged !! i = Some t -> drops !! i = None -> tfFrag t ∈ keptFrags tagged drops.
Proof.
  intros Ht Hd. unfold keptFrags. apply list_elem_of_fmap. exists (i, t). split; [done|]. apply elem_of_filter_bool.
  split; [by apply enumerate_lookup|]. unfold is_dropped. cbn. rewrite Hd. by rewrite bool_decide_false by (by intros [? ?]).
Qed.
Lemma kept_in tagged drops f : f ∈ keptFrags tagged drops -> exists i t, tagged !! i = Some t /\ drops !! i = None /\ f = tfFrag t.
Proof.
  unfold keptFrags. intros ([i t] & -> & [Ht Hd]%elem_of_filter_bool)%list_elem_of_fmap. exists i, t.
  apply enumerate_lookup in Ht. split_and!; try done. unfold is_dropped in Hd. bool_hyps. cbn in *. by apply eq_None_not_Some.
Qed.

(** ** Conflict groups *)
Lemma beats_precedes c i : conflictBeats c i = true <-> precedes c i.
Proof.
  unfold conflictBeats, precedes. cbv zeta.
  destruct (SpecificityRank (fScope c) =? SpecificityRank (fScope i)) eqn:E; cbn [negb]; bool_hyps.
  - destruct (TrustRank (fTrust c) =? TrustRank (fTrust i)) eqn:E2; cbn [negb]; bool_hyps; [split; [intros _; right; lia|done]|].
    rewrite Z.ltb_lt. lia.
  - rewrite Z.ltb_lt. lia.
Qed.
Lemma precedes_total a b : precedes a b \/ precedes b a.
Proof. unfold precedes. lia. Qed.
Lemma precedes_trans a b c : precedes a b -> precedes b c -> precedes a c.
Proof. unfold precedes. lia. Qed.
(** The winner of a key among some fragments: every other of the key is
    preceded, the later ones strictly. *)
Definition wins_at (l : list ContextFrag) (k : str) (i : nat) (w : ContextFrag) : Prop :=
  l !! i = Some w /\ fConflictKey w = k /\
  forall j f, l !! j = Some f -> fConflictKey f = k -> precedes w f /\ ((i < j)%nat -> ~ precedes f w).
Lemma conflictWinners_spec l k : k <> [] ->
  match conflictWinners l !! k with
  | Some (i, w) => wins_at l k i w
  | None => forall f, f ∈ l -> fConflictKey f <> k
  end.
Proof.
  intros Hk. unfold conflictWinners. induction l as [|f l IH] using rev_ind; [cbn [enumerate imap fold_left]; rewrite lookup_empty; by intros f ?%not_elem_of_nil|].
  rewrite enumerate_snoc, fold_left_app. cbn [fold_left]. set (winners := fold_left conflictStep (enumerate l) ∅) in *.
  assert (Hkeep : forall i w, wins_at l k i w -> fConflictKey f <> k \/ (precedes w f /\ ~ precedes f w) -> wins_at (l ++ [f]) k i w).
  { intros i w (H1 & H2 & H3) Hf. split; [by apply lookup_app_l_Some|]. split; [done|]. intros j g [Hj|[Hj Hg]]%lookup_app_Some Hgk; [by apply H3|].
    apply list_lookup_singleton_Some in Hg as [_ <-]. naive_solver. }
  assert (Hnone : (forall g, g ∈ l -> fConflictKey g <> k) -> fConflictKey f = k -> wins_at (l ++ [f]) k (length l) f).
  { intros Hl Hf. split; [by rewrite lookup_app_r, Nat.sub_diag|]. split; [done|]. intros j g [Hj|[Hj Hg]]%lookup_app_Some Hgk.
    - exfalso. by apply (Hl g); [eapply list_elem_of_lookup_2|].
    - apply list_lookup_singleton_Some in Hg as [Hj0 <-]. split; [unfold precedes; lia|]. intros ?. lia. }
  unfold conflictStep. destruct (is_empty (fConflictKey f)) eqn:Ee.
  { assert (Hf : fConflictKey f <> k) by (intros E; rewrite E in Ee; by destruct k).
    destruct (winners !! k) as [[i w]|]; [by apply Hkeep; auto|]. intros g [?|Hg%list_elem_of_singleton]%elem_of_app; [by apply IH|congruence]. }
  destruct (decide (fConflictKey f = k)) as [Hf|Hf].
  - rewrite Hf. destruct (winners !! k) as [[i w]|] eqn:Ew; [|rewrite lookup_insert_eq; by apply Hnone].
    destruct (conflictBeats f w) eqn:Eb.
    + rewrite lookup_insert_eq. apply beats_precedes in Eb. destruct IH as (H1 & H2 & H3).
      split; [by rewrite lookup_app_r, Nat.sub_diag|]. split; [done|]. intros j g [Hj|[Hj Hg]]%lookup_app_Some Hgk.
      * destruct (H3 j g Hj Hgk) as [Hp _]. split; [by eapply precedes_trans|]. apply lookup_lt_Some in Hj. lia.
      * apply list_lookup_singleton_Some in Hg as [Hj0 <-]. split; [unfold precedes; lia|]. lia.
    + rewrite Ew. apply Hkeep; [done|]. right.
      assert (~ precedes f w) by (intros Hp%beats_precedes; congruence). destruct (precedes_total f w); naive_solver.
  - assert (Hother : forall w', (<[fConflictKey f := w']> winners) !! k = winners !! k) by (intros; by rewrite lookup_insert_ne).
    assert (Hgoal : match winners !! k with
                    | Some (i, w) => wins_at (l ++ [f]) k i w
                    | None => forall g, g ∈ l ++ [f] -> fConflictKey g <> k end).
    { destruct (winners !! k) as [[i w]|]; [by apply Hkeep; auto|]. intros g [?|Hg%list_elem_of_singleton]%elem_of_app; [by apply IH|congruence]. }
    destruct (winners !! fConflictKey f) as [[i0 w0]|]; [destruct (conflictBeats f w0)|]; rewrite ?Hother; exact Hgoal.
Qed.
Lemma keeps_spec l i f : l !! i = Some f ->
  keeps (conflictWinners l) (i, f) = true <-> fConflictKey f = [] \/ wins_at l (fConflictKey f) i f.
Proof.
  intros Hf. unfold keeps, loses. destruct (is_empty (fConflictKey f)) eqn:Ee.
  { split; [|done]. intros _. left. by destruct (fConflictKey f). }
  assert (Hk : fConflictKey f <> []) by by destruct (fConflictKey f).
  pose proof (conflictWinners_spec l (fConflictKey f) Hk) as H.
  destruct (conflictWinners l !! fConflictKey f) as [[j w]|].
  - destruct (Nat.eqb_spec j i) as [->|Hne].
    + split; [|done]. intros _. right. pose proof H as (Hw & _). by simplify_eq.
    + split; [done|]. intros [?|Hi]; [done|]. exfalso. destruct H as (H1 & H2 & H3), Hi as (G1 & G2 & G3).
      destruct (H3 i f Hf eq_refl) as [P1 P2]. destruct (G3 j w H1 H2) as [Q1 Q2].
      destruct (Nat.lt_total i j) as [?|[?|?]]; [by apply Q2|congruence|by apply P2].
  - exfalso. by apply (H f); [eapply list_elem_of_lookup_2|].
Qed.
Lemma resolve_kept l : (resolveConflictGroups l).1 = (List.filter (keeps (conflictWinners l)) (enumerate l)).*2.
Proof.
  unfold resolveConflictGroups. cbv zeta. destruct (bool_decide (conflictWinners l = ∅)) eqn:E; [|done]. bool_hyps. cbn [fst].
  rewrite E. rewrite filter_id_forall; [by rewrite enumerate_snd|]. apply Forall_forall. intros [i f] _. unfold keeps, loses. destruct (is_empty (fConflictKey f)); [done|]. by rewrite lookup_empty.
Qed.
Lemma resolve_split l : (resolveConflictGroups l).1 ++ map clFrag (resolveConflictGroups l).2 ≡ₚ l.
Proof.
  unfold resolveConflictGroups. cbv zeta. case_if; [cbn; by rewrite app_nil_r|]. cbn [fst snd].
  rewrite <- (enumerate_snd l) at 5. generalize (conflictWinners l) as winners. intros winners.
  induction (enumerate l) as [|it e IH]; [done|]. cbn [List.filter omap list_omap]. unfold keeps at 1.
  destruct (loses winners it) as [loser|] eqn:El; cbn [fmap list_fmap map app].
  - rewrite <- Permutation_middle. unfold omap in IH. rewrite IH.
    assert (clFrag loser = it.2) as ->; [|done]. unfold loses in El. destruct it as [i f]. by repeat case_match; simplify_eq.
  - unfold omap in IH. by rewrite IH.
Qed.

(** ** Budgets of single fragments *)
Lemma frag_budget_spec profile sys f :
  match enforceFragBudget profile sys f with
  | Kept g _ _ => same_frag g f /\ (fragBudgetExceeded f = None -> g = f)
  | DroppedFor d => fbdFrag d = f /\ fragBudgetExceeded f <> None /\ isToolExchangeFrag f = false /\
                    (isMustKeepFrag f profile = true -> sys = true /\ droppableSystemBudgetFrag f = true)
  end.
Proof.
  unfold enforceFragBudget. destruct (fragBudgetExceeded f) as [reason|] eqn:E; [|by split].
  case_if; [by split|]. case_if.
  - destruct (isToolExchangeFrag f) eqn:Et; [by split|]. destruct (isMustKeepFrag f profile) eqn:Em; cbn [andb].
    + destruct sys, (droppableSystemBudgetFrag f) eqn:Ed; cbn; by split_and!.
    + by split_and!.
  - case_if; [|case_if; by split]. destruct (trimFragText f) as [g|] eqn:Etr; [|by split].
    split; [by apply trimFragText_same|done].
Qed.
Lemma frag_budgets_ids frags profile sys : let b := enforceFragBudgets frags profile sys in
  ids (fbKept b) ++ ids (map fbdFrag (fbDropped b)) ≡ₚ ids frags.
Proof.
  cbv zeta. unfold enforceFragBudgets, ids. cbn [fbKept fbDropped].
  induction frags as [|f frags IH]; [done|]. cbn [map]. pose proof (frag_budget_spec profile sys f) as H.
  destruct (enforceFragBudget profile sys f) as [g e w|d]; cbn [omap list_omap outcome_kept outcome_dropped map app].
  - destruct H as [(-> & _) _]. unfold omap in IH. by rewrite IH.
  - destruct H as (-> & _). rewrite <- Permutation_middle. unfold omap in IH. by rewrite IH.
Qed.
Lemma frag_budgets_kept frags profile sys g : g ∈ fbKept (enforceFragBudgets frags profile sys) ->
  exists f, f ∈ frags /\ same_frag g f.
Proof.
  unfold enforceFragBudgets. cbn [fbKept]. rewrite list_elem_of_omap. intros (o & Ho & Hg). apply list_elem_of_fmap in Ho as (f & -> & Hf).
  exists f. split; [done|]. pose proof (frag_budget_spec profile sys f) as H.
  destruct (enforceFragBudget profile sys f); simplify_eq/=. apply H.
Qed.
Lemma frag_budgets_sublist frags profile sys (p : ContextFrag -> bool) : (forall f g, same_frag g f -> p g = p f) ->
  (countb p (fbKept (enforceFragBudgets frags profile sys)) <= countb p frags)%nat.
Proof.
  intros Hp. unfold enforceFragBudgets. cbn [fbKept]. induction frags as [|f frags IH]; [done|]. cbn [map].
  pose proof (frag_budget_spec profile sys f) as H. unfold omap in IH.
  destruct (enforceFragBudget profile sys f) as [g e w|d]; cbn [omap list_omap outcome_kept].
  - destruct H as [H _]. rewrite !countb_cons, (Hp f g H). apply Nat.add_le_mono_l, IH.
  - rewrite countb_cons. transitivity (countb p frags); [exact IH|lia].
Qed.
Lemma frag_budgets_keep frags profile sys f : f ∈ frags -> fragBudgetExceeded f = None ->
  f ∈ fbKept (enforceFragBudgets frags profile sys).
Proof.
  intros Hf He. unfold enforceFragBudgets. cbn [fbKept]. apply list_elem_of_omap. exists (Kept f None None). split; [|done].
  apply list_elem_of_fmap. exists f. split; [|done]. unfold enforceFragBudget. by rewrite He.
Qed.

(** ** The system budget *)
Definition group_items (frags : list ContextFrag) (idx : gset nat) (g : str) : nat :=
  countb (fun it => negb (bool_decide (it.1 ∈ idx)) && isSystem it.2 && negb (is_empty (rpGroupID (fRender it.2))) &&
                    negb (isRenderGroupHeader it.2) && str_eqb (rpGroupID (fRender it.2)) g) (enumerate frags).
(** A header none of whose items is left. *)
Definition empty_header (frags : list ContextFrag) (idx : gset nat) (c : candidate) : Prop :=
  c.1 ∉ idx /\ frags !! c.1 = Some c.2 /\ isSystem c.2 = true /\ isRenderGroupHeader c.2 = true /\
  group_items frags idx (rpGroupID (fRender c.2)) = 0%nat.
Lemma group_headers_spec frags idx : let hc := groupHeaders frags idx in
  (forall g c, hc.1 !! g = Some c -> c ∈ enumerate frags /\ c.1 ∉ idx /\ isSystem c.2 = true /\ isRenderGroupHeader c.2 = true /\
                                    rpGroupID (fRender c.2) = g) /\
  forall g, default 0%nat (hc.2 !! g) = group_items frags idx g.
Proof.
  cbv zeta. unfold groupHeaders, group_items. induction (enumerate frags) as [|it e IH] using rev_ind.
  { cbn [fold_left fst snd]. split; intros g; [intros c; by rewrite lookup_empty|by rewrite lookup_empty]. }
  rewrite fold_left_app. set (hc := fold_left _ e (∅, ∅)) in *. cbn [fold_left]. destruct IH as [IH1 IH2]. cbv zeta.
  assert (Hold : forall g c, hc.1 !! g = Some c -> c ∈ e ++ [it] /\ c.1 ∉ idx /\ isSystem c.2 = true /\ isRenderGroupHeader c.2 = true /\
                                    rpGroupID (fRender c.2) = g).
  { intros g c Hc. destruct (IH1 g c Hc) as [? ?]. split; [|done]. apply elem_of_app. by left. }
  destruct (bool_decide (it.1 ∈ idx)) eqn:Ei; cbn [orb].
  { split; [exact Hold|]. intros g. rewrite countb_app, countb_cons, Ei. cbn. rewrite IH2. cbn. lia. }
  destruct (isSystem it.2) eqn:Es; cbn [orb negb].
  2:{ split; [exact Hold|]. intros g. rewrite countb_app, countb_cons, Ei, Es. cbn. rewrite IH2. cbn. lia. }
  destruct (is_empty (rpGroupID (fRender it.2))) eqn:Eg.
  { split; [exact Hold|]. intros g. rewrite countb_app, countb_cons, Ei, Es, Eg. cbn. rewrite IH2. cbn. lia. }
  destruct (isRenderGroupHeader it.2) eqn:Eh.
  - split.
    + intros g c. cbn [fst]. destruct (decide (g = rpGroupID (fRender it.2))) as [->|Hne].
      * rewrite lookup_insert_eq. intros [= <-]. bool_hyps. split_and!; try done. apply elem_of_app. right. by left.
      * rewrite lookup_insert_ne by done. apply Hold.
    + intros g. cbn [snd]. rewrite countb_app, countb_cons, Ei, Es, Eg, Eh. cbn. rewrite IH2. cbn. lia.
  - split; [exact Hold|]. intros g. cbn [snd]. rewrite countb_app, countb_cons, Ei, Es, Eg, Eh. cbn [negb andb].
    destruct (decide (g = rpGroupID (fRender it.2))) as [->|Hne].
    + rewrite lookup_insert_eq, str_eqb_refl. cbn. rewrite IH2. cbn. lia.
    + rewrite lookup_insert_ne by done. rewrite IH2. rewrite (proj2 (str_eqb_false _ _)) by congruence. cbn. lia.
Qed.
Lemma filter_fst_nodup {A B} (p : A * B -> bool) l : NoDup l.*1 -> NoDup (List.filter p l).*1.
Proof.
  induction l as [|x l IH]; [done|]. cbn. intros [Hx Hl]%NoDup_cons. destruct (p x); [|by apply IH]. cbn. apply NoDup_cons.
  split; [|by apply IH]. intros (y & Hy & [Hin _]%elem_of_filter_bool)%list_elem_of_fmap. apply Hx. rewrite Hy.
  by apply list_elem_of_fmap_2.
Qed.
Lemma sweep_spec frags idx : NoDup (sweepEmptySystemGroupHeaders frags idx).*1 /\
  forall c, c ∈ sweepEmptySystemGroupHeaders frags idx -> empty_header frags idx c.
Proof.
  unfold sweepEmptySystemGroupHeaders. destruct (group_headers_spec frags idx) as [H1 H2].
  destruct (groupHeaders frags idx) as [headers counts]. cbn [fst snd] in H1, H2.
  set (empty := List.filter _ (map_to_list headers)).
  assert (Hin : forall gc, gc ∈ empty -> headers !! gc.1 = Some gc.2 /\ default 0%nat (counts !! gc.1) = 0%nat).
  { intros [g c] [Hg Hc]%elem_of_filter_bool. apply elem_of_map_to_list in Hg. by apply Nat.eqb_eq in Hc. }
  split.
  - rewrite stable_sort_perm.
    assert (Hnd : NoDup empty.*1).
    { subst empty. apply filter_fst_nodup, NoDup_fst_map_to_list. }
    clearbody empty. induction empty as [|[g c] l IH]; [constructor|]. cbn in Hnd. apply NoDup_cons in Hnd as [Hg Hnd].
    cbn. apply NoDup_cons. split; [|apply IH; [intros; apply Hin; by right|done]].
    intros (c' & Hc & (gc & -> & Hgc)%list_elem_of_fmap)%list_elem_of_fmap. apply Hg.
    destruct (Hin (g, c) ltac:(by left)) as [Hh _]. destruct (Hin gc ltac:(by right)) as [Hh' _]. cbn in Hh.
    destruct (H1 _ _ Hh) as (Hc1 & _ & _ & _ & Hg1). destruct (H1 _ _ Hh') as (Hc2 & _ & _ & _ & Hg2).
    destruct c as [ci cf], gc as [g2 [ci2 cf2]]. cbn in *. subst ci2. apply enumerate_lookup in Hc1, Hc2. simplify_eq.
    exact (list_elem_of_fmap_2 fst _ _ Hgc).
  - intros c. rewrite stable_sort_perm. intros ([g c'] & -> & Hgc)%list_elem_of_fmap. destruct (Hin _ Hgc) as [Hh Hc]. cbn in Hh, Hc |- *.
    destruct (H1 _ _ Hh) as (Hc1 & Hc2 & Hc3 & Hc4 & Hc5). rewrite H2 in Hc. destruct c' as [ci cf]. cbn in *. subst g.
    split_and!; try done. by apply enumerate_lookup.
Qed.
Lemma group_items_mono frags idx idx' g : idx ⊆ idx' -> (group_items frags idx' g <= group_items frags idx g)%nat.
Proof.
  intros H. unfold group_items. induction (enumerate frags) as [|it e IH]; [done|]. rewrite !countb_cons.
  destruct (bool_decide (it.1 ∈ idx')) eqn:E'; [cbn; lia|]. bool_hyps.
  rewrite (bool_decide_false (it.1 ∈ idx)) by set_solver. lia.
Qed.
(** What the system budget took: fragments that may go, and headers without
    items, each once. *)
Definition may_go (frags : list ContextFrag) (idx : gset nat) (f : ContextFrag) : Prop :=
  isSystem f = true /\
  (system_candidate f = true \/
   (isRenderGroupHeader f = true /\ group_items frags idx (rpGroupID (fRender f)) = 0%nat)).
Definition took (frags : list ContextFrag) (s : SystemDrops) (l : list candidate) : Prop :=
  NoDup l.*1 /\ (forall c, c ∈ l -> frags !! c.1 = Some c.2 /\ may_go frags (sdIndexes s) c.2) /\
  sdIndexes s = list_to_set l.*1 /\ sdDropped s = l.*2.
Lemma may_go_mono frags idx idx' f : idx ⊆ idx' -> may_go frags idx f -> may_go frags idx' f.
Proof.
  intros Hs [H1 [H2|[H2 H3]]]; (split; [done|]); [by left|right]. split; [done|].
  pose proof (group_items_mono frags idx idx' (rpGroupID (fRender f)) Hs). lia.
Qed.
Lemma drop_system_sub s c : sdIndexes s ⊆ sdIndexes (drop_system s c).
Proof. apply union_subseteq_r. Qed.
Lemma drop_all frags cs s l : took frags s l -> NoDup cs.*1 ->
  (forall c, c ∈ cs -> c.1 ∉ sdIndexes s /\ frags !! c.1 = Some c.2 /\ may_go frags (sdIndexes s) c.2) ->
  took frags (fold_left drop_system cs s) (l ++ cs) /\ sdIndexes s ⊆ sdIndexes (fold_left drop_system cs s).
Proof.
  revert s l. induction cs as [|c cs IH]; intros s l Ht Hnd Hcs; [rewrite app_nil_r; done|].
  cbn in Hnd. apply NoDup_cons in Hnd as [Hc Hnd]. destruct (Hcs c ltac:(by left)) as (C1 & C2 & C3). cbn [fold_left].
  rewrite cons_middle, app_assoc. destruct (IH (drop_system s c) (l ++ [c])) as [H1 H2].
  - destruct Ht as (T1 & T2 & T3 & T4). unfold took. split_and!.
    + rewrite fmap_app. apply NoDup_app. split_and!; [done| |apply NoDup_singleton].
      intros i Hi Hi'%list_elem_of_singleton. subst i. rewrite T3 in C1. apply C1. by apply elem_of_list_to_set.
    + intros d [Hd|Hd%list_elem_of_singleton]%elem_of_app.
      * destruct (T2 d Hd) as [? ?]. split; [done|]. eapply may_go_mono; [apply drop_system_sub|done].
      * subst d. split; [done|]. eapply may_go_mono; [apply drop_system_sub|done].
    + cbn. rewrite T3, fmap_app, list_to_set_app_L. cbn. by rewrite union_empty_r_L, union_comm_L.
    + cbn. by rewrite T4, fmap_app.
  - done.
  - intros d Hd. destruct (Hcs d ltac:(by right)) as (D1 & D2 & D3). split_and!.
    + intros [Hd1%elem_of_singleton|?]%elem_of_union; [|done]. apply Hc. rewrite <- Hd1. by apply list_elem_of_fmap_2.
    + done.
    + eapply may_go_mono; [apply drop_system_sub|done].
  - split; [done|]. etransitivity; [|exact H2]. apply drop_system_sub.
Qed.
Lemma sweep_headers_took frags s l : took frags s l ->
  exists more, took frags (sweep_headers frags s) (l ++ more) /\ sdIndexes s ⊆ sdIndexes (sweep_headers frags s).
Proof.
  intros Ht. destruct (sweep_spec frags (sdIndexes s)) as [H1 H2]. exists (sweepEmptySystemGroupHeaders frags (sdIndexes s)).
  apply drop_all; [done..|]. intros c Hc. destruct (H2 c Hc) as (C1 & C2 & C3 & C4 & C5). split_and!; [done|done|]. split; [done|]. by right.
Qed.
Lemma initial_took frags d : exists l, took frags (initialSystemDrops frags d) l.
Proof.
  destruct (sweep_headers_took frags (mkSystemDrops ∅ [] (map fID (List.filter isSystem (map fbdFrag d)))) []) as (more & H & _); [|eauto].
  split_and!; try done; [constructor|]. by intros c ?%not_elem_of_nil.
Qed.
Lemma candidates_spec frags c : c ∈ systemCandidates frags <-> frags !! c.1 = Some c.2 /\ system_candidate c.2 = true.
Proof.
  unfold systemCandidates. rewrite stable_sort_perm, elem_of_filter_bool. destruct c as [i f]. by rewrite enumerate_lookup.
Qed.
(** The loop takes candidates until the budget is met; when it never is, none
    is left. *)
Lemma dropCandidates_spec frags scope budget cs s l : took frags s l -> (forall c, c ∈ cs -> c ∈ systemCandidates frags) ->
  match dropCandidates frags scope budget cs s with
  | inl s' => (exists l', took frags s' l') /\ systemFragCost (systemSelected frags scope s') <= budget
  | inr s' => (exists l', took frags s' l') /\ (forall c, c ∈ cs -> c.1 ∈ sdIndexes s') /\ sdIndexes s ⊆ sdIndexes s' /\
              (budget < systemFragCost (systemSelected frags scope s) -> budget < systemFragCost (systemSelected frags scope s'))
  end.
Proof.
  revert s l. induction cs as [|c cs IH]; intros s l Ht Hcs; cbn [dropCandidates].
  { split_and!; [eauto|by intros c ?%not_elem_of_nil|done|done]. }
  destruct (bool_decide (c.1 ∈ sdIndexes s)) eqn:E; bool_hyps.
  { specialize (IH s l Ht (fun d Hd => Hcs d ltac:(by right))). destruct (dropCandidates frags scope budget cs s) as [s'|s']; [done|].
    destruct IH as (H1 & H2 & H3 & H4). split_and!; [done| |done|done]. intros d [->|Hd]%elem_of_cons; [by apply H3|by apply H2]. }
  assert (Hc : frags !! c.1 = Some c.2 /\ system_candidate c.2 = true) by (apply candidates_spec, Hcs; by left).
  assert (Hs : isSystem c.2 = true) by (destruct Hc as [_ Hc]; unfold system_candidate in Hc; by bool_hyps).
  destruct (drop_all frags [c] s l Ht) as [H1 H2]; [apply NoDup_singleton| |].
  { intros d Hd%list_elem_of_singleton. subst d. split_and!; [done|apply Hc|]. split; [done|]. left. apply Hc. }
  cbn [fold_left] in H1, H2. destruct (sweep_headers_took frags (drop_system s c) (l ++ [c]) H1) as (more & H3 & H4).
  cbv zeta. destruct (_ <=? budget) eqn:Eb; bool_hyps; [split; [eauto|done]|].
  specialize (IH _ _ H3 (fun d Hd => Hcs d ltac:(by right))). destruct (dropCandidates frags scope budget cs _) as [s'|s']; [done|].
  destruct IH as (G1 & G2 & G3 & G4). split_and!; [done| |etransitivity; [exact H2|]; by transitivity (sdIndexes (sweep_headers frags (drop_system s c)))|intros _; by apply G4].
  intros d [->|Hd]%elem_of_cons; [|by apply G2]. apply G3, H4. cbn. apply elem_of_union_l. by apply elem_of_singleton.
Qed.
Lemma enumerate_nodup {A} (l : list A) : NoDup (enumerate l).*1.
Proof. rewrite enumerate_fst. apply NoDup_seq. Qed.
Lemma took_split frags s l : took frags s l -> systemBudgetSelection frags (sdIndexes s) None ++ sdDropped s ≡ₚ frags.
Proof.
  intros (T1 & T2 & T3 & T4). unfold systemBudgetSelection. rewrite T4. rewrite <- fmap_app. rewrite <- (enumerate_snd frags) at 2.
  apply Permutation_map. rewrite Permutation_app_comm.
  etransitivity; [|symmetry; exact (filter_partition (fun it => bool_decide (it.1 ∈ sdIndexes s)) (enumerate frags))].
  apply Permutation_app_tail.
  apply NoDup_Permutation.
  - by apply NoDup_fmap_1 in T1.
  - apply (NoDup_fmap_1 fst). apply filter_fst_nodup, enumerate_nodup.
  - intros [i f]. rewrite elem_of_filter_bool, enumerate_lookup, bool_decide_eq_true. cbn. rewrite T3, elem_of_list_to_set. split.
    + intros H. split; [by apply (T2 (i, f))|]. by apply (list_elem_of_fmap_2 fst _ (i, f)).
    + intros [Hi ([j g] & -> & Hg)%list_elem_of_fmap]. destruct (T2 _ Hg) as [Hj _]. cbn in *. by simplify_eq.
Qed.
Definition is_notice (n : ContextFrag) : Prop :=
  fID n = systemBudgetMarkerID /\ fSlot n = SlotSystem /\ fTrust n = TrustSystem /\ fConflictKey n = [] /\ bpOverflow (fBudget n) = OverflowKeep /\
  fKind n = KindSystemPolicy.
Lemma marker_notice droppedIDs scope : is_notice (systemBudgetMarkerFrag droppedIDs scope).
Proof.
  unfold systemBudgetMarkerFrag. cbv zeta.
  match goal with |- is_notice (WithContextRef ?g ?ref) => destruct (WithContextRef_spec g ref) as [r ->] end.
  split_and!; try done.
Qed.
Lemma notice_kind n : is_notice n -> fKind n <> KindConversationSummary.
Proof. by intros (_ & _ & _ & _ & _ & ->). Qed.
Lemma systemSelected_split frags scope s l : took frags s l ->
  exists notes, (length notes <= 1)%nat /\ Forall is_notice notes /\ systemSelected frags scope s ++ sdDropped s ≡ₚ notes ++ frags.
Proof.
  intros Ht. pose proof (took_split frags s l Ht) as Hsplit. unfold systemSelected, systemMarker.
  destruct (sdIDs s) as [|i r].
  { exists []. split_and!; [cbn; lia|constructor|done]. }
  exists [systemBudgetMarkerFrag (i :: r) scope]. split_and!; [done|constructor; [apply marker_notice|constructor]|].
  unfold systemBudgetSelection in *. set (kept := (List.filter _ (enumerate frags)).*2) in *.
  set (n := match find_last isSystem kept with Some i => S i | None => O end). cbn [app].
  rewrite <- Permutation_middle. cbn. constructor. rewrite take_drop. exact Hsplit.
Qed.
Lemma system_budget_spec frags profile plan d : let o := enforceSystemBudget frags profile plan d in
  (exists notes, (length notes <= 1)%nat /\ Forall is_notice notes /\ soSelected o ++ soDropped o ≡ₚ notes ++ frags) /\
  (exists idx, forall f, f ∈ soDropped o -> may_go frags idx f) /\
  (systemBudgetPlanActive profile plan = false -> o = mkSystemOutcome frags [] None plan) /\
  (forall p, plan = Some p -> systemBudgetPlanActive profile plan = true ->
     soPlan o = Some (finishSystemBudgetPlan p (systemFragCost (soSelected o))) /\
     (soError o = None -> systemFragCost (soSelected o) <= plSystemBudget p) /\
     (soError o <> None -> plSystemBudget p < systemFragCost (soSelected o) /\
        forall f, f ∈ frags -> system_candidate f = true -> f ∈ soDropped o)).
Proof.
  cbv zeta. unfold enforceSystemBudget. destruct plan as [p|].
  2:{ split_and!; try done; [exists []; split_and!; [cbn; lia|constructor|by rewrite app_nil_r]|exists ∅; by intros f ?%not_elem_of_nil]. }
  destruct (systemBudgetPlanActive profile (Some p)) eqn:Ea; cbn [negb].
  2:{ split_and!; try done; [exists []; split_and!; [cbn; lia|constructor|by rewrite app_nil_r]|exists ∅; by intros f ?%not_elem_of_nil]. }
  set (scope := systemScope frags d). destruct (initial_took frags d) as [l0 H0]. set (s0 := initialSystemDrops frags d) in *.
  assert (Hgo : forall s l, took frags s l -> exists idx, forall f, f ∈ sdDropped s -> may_go frags idx f).
  { intros s l (T1 & T2 & T3 & T4). exists (sdIndexes s). intros f. rewrite T4. intros (c & -> & Hc)%list_elem_of_fmap. by apply T2. }
  destruct (_ <=? plSystemBudget p) eqn:Eb; bool_hyps.
  { cbn [soSelected soDropped soError soPlan]. split_and!; [by eapply systemSelected_split|by eapply Hgo|done|].
    intros p' [= <-] _. split_and!; [done|by intros _|done]. }
  pose proof (dropCandidates_spec frags scope (plSystemBudget p) (systemCandidates frags) s0 l0 H0 (fun c Hc => Hc)) as H.
  destruct (dropCandidates _ _ _ _ _) as [s'|s']; cbn [soSelected soDropped soError soPlan].
  - destruct H as [[l' Hl'] Hle]. split_and!; [by eapply systemSelected_split|by eapply Hgo|done|].
    intros p' [= <-] _. split_and!; [done|by intros _|done].
  - destruct H as ([l' Hl'] & Hall & _ & Hover). split_and!; [by eapply systemSelected_split|by eapply Hgo|done|].
    intros p' [= <-] _. split_and!; [done|done|]. intros _. split; [by apply Hover|]. intros f [i Hi]%list_elem_of_lookup Hf.
    specialize (Hall (i, f)). rewrite candidates_spec in Hall. specialize (Hall (conj Hi Hf)). cbn in Hall.
    destruct Hl' as (T1 & T2 & T3 & T4). rewrite T3, elem_of_list_to_set in Hall. apply list_elem_of_fmap in Hall as ([j g] & -> & Hg).
    destruct (T2 _ Hg) as [Hj _]. cbn in *. simplify_eq. rewrite T4. by apply (list_elem_of_fmap_2 snd _ (j, f)).
Qed.

(** ** The history *)
(** A result that keeps the fragments [drops] leaves of [tagged], and records
    the rest and what the passes before dropped. *)
Definition selects (r : SelectionResult) (tagged : list TaggedFrag) (drops : gmap nat str) (passed : list ContextFrag) : Prop :=
  srSelected r = keptFrags tagged drops /\
  srDropped r = map (fun it => tfFrag it.2) (List.filter (fun it => is_dropped drops it.1) (enumerate tagged)) ++ passed /\
  map drFragID (srDropReasons r) = ids (srDropped r) /\
  srTotalSelected r = Z.of_nat (length (srSelected r)) /\ srTotalDropped r = Z.of_nat (length (srDropped r)) /\
  srTotalCollected r = srTotalSelected r + srTotalDropped r.
Definition passed (profile : IntentProfile) (p : Passes) : list ContextFrag := (passDrops profile p).*1.
Lemma passed_eq profile p : passed profile p = paGated p ++ map clFrag (paSuperseded p) ++ map fbdFrag (paFragDropped p) ++ paSystemDropped p.
Proof.
  unfold passed, passDrops. rewrite !fmap_app, <- !list_fmap_compose.
  f_equal; [apply list_fmap_id|]. f_equal. f_equal. apply list_fmap_id.
Qed.
Lemma finalize_selects r profile p edits tagged drops :
  srSelected r = keptFrags tagged drops ->
  srDropped r = map (fun it => tfFrag it.2) (List.filter (fun it => is_dropped drops it.1) (enumerate tagged)) ->
  map drFragID (srDropReasons r) = ids (srDropped r) ->
  selects (finalizeSelection r profile p edits) tagged drops (passed profile p).
Proof.
  intros H1 H2 H3. unfold selects, finalizeSelection, recordDrops, passed, ids in *. cbn. split_and!; try done.
  - by rewrite H2.
  - rewrite !map_app, H3, map_map. f_equal. change ((passDrops profile p).*1) with (map fst (passDrops profile p)). by rewrite map_map.
Qed.
Lemma result_records tagged drops : let r := selectionResultFromTaggedReasons tagged drops in
  map drFragID (srDropReasons r) = ids (srDropped r).
Proof. cbn. unfold ids. by rewrite !map_map. Qed.
Definition notice_ok (r : SelectionResult) (tagged : list TaggedFrag) (drops : gmap nat str) : Prop :=
  srTrimNotice r = true -> srTrimNoticeIndex r = trimNoticeIndex tagged drops /\ hasSpatialBudgetDrop drops = true.
Lemma same_all tagged : Forall2 same_tagged tagged tagged.
Proof. apply Forall2_same_length_lookup. split; [done|]. intros i t t' H1 H2. simplify_eq. apply same_tagged_refl. Qed.
Lemma same_repriced tagged : Forall2 same_tagged tagged (repriced tagged).
Proof.
  apply Forall2_same_length_lookup. unfold repriced. split; [by rewrite length_map|]. intros i t t' H1. rewrite list_lookup_fmap, H1.
  intros [= <-]. split; [reflexivity|done].
Qed.
Lemma same_tagged_trans a b c : Forall2 same_tagged a b -> Forall2 same_tagged b c -> Forall2 same_tagged a c.
Proof.
  intros [L1 H1]%Forall2_same_length_lookup [L3 H3]%Forall2_same_length_lookup.
  apply Forall2_same_length_lookup. split; [lia|]. intros j t t' Hj Hj'.
  destruct (lookup_lt_is_Some_2 b j) as [t1 Ht1]; [apply lookup_lt_Some in Hj; lia|].
  destruct (H1 j t t1 Hj Ht1) as (A1 & A2 & A3). destruct (H3 j t1 t' Ht1 Hj') as (B1 & B2 & B3).
  split_and!; [by transitivity (tfFrag t1)|congruence|]. intros Hn. rewrite B3; [by apply A3|]. destruct A1 as (_ & -> & _). done.
Qed.
Lemma trim_can_drop tagged m r i : is_Some (budgetTrimDrops tagged m r !! i) -> at_index tagged can_drop i = true.
Proof. unfold budgetTrimDrops. case_if; [rewrite lookup_empty; by intros [? ?]|apply drops_can_drop]. Qed.
Lemma noticeCost_nonneg : 0 <= noticeCost.
Proof. apply tokens_nonneg. Qed.
Lemma selectHistory_spec tagged profile budget plan p :
  let r := selectHistory tagged profile budget plan p in
  exists tagged' drops, Forall2 same_tagged tagged tagged' /\ (forall i, is_Some (drops !! i) -> at_index tagged' can_drop i = true) /\
    selects r tagged' drops (passed profile p) /\ notice_ok r tagged' drops /\ drops_units (buildBudgetUnits tagged') drops /\
    (srFatalError r = None -> beKeepHistory budget = false -> forall q, plan = Some q ->
       protectedHistoryTokenCost tagged' + keptDroppable tagged' drops + (if srTrimNotice r then noticeCost else 0) <= plHistoryBudget q /\
       priced tagged').
Proof.
  cbv zeta. unfold selectHistory. destruct (beKeepHistory budget) eqn:Ek.
  { exists tagged, (orphanExchangeDrops tagged). split_and!; [apply same_all|apply orphans_can_drop| | |apply orphanDrops_units|done].
    - by apply finalize_selects, result_records.
    - done. }
  destruct plan as [q|].
  2:{ exists tagged, (budgetTrimDrops tagged (beMaxTokens budget) (beRecentProtectTokens budget)).
      split_and!; [apply same_all|apply trim_can_drop| | | |done].
      - destruct (hasSpatialBudgetDrop _); by apply finalize_selects, result_records.
      - destruct (hasSpatialBudgetDrop _) eqn:E; done.
      - unfold budgetTrimDrops. case_if; [intros i j _; by rewrite !lookup_empty|apply trim_units_whole]. }
  destruct (fitProtected_spec (repriced tagged) (plHistoryBudget q) (repriced_priced tagged)) as [Hsame Hpriced].
  destruct (fitProtected (repriced tagged) (plHistoryBudget q)) as [tagged' edits]. cbn [fst] in *.
  assert (Hall : Forall2 same_tagged tagged tagged') by (eapply same_tagged_trans; [apply same_repriced|done]).
  cbv zeta. destruct (plHistoryBudget q <? protectedHistoryTokenCost tagged') eqn:Ep; bool_hyps.
  { exists tagged', ∅. split_and!; [done|intros i; rewrite lookup_empty; by intros [? ?]| |done|intros i j _; by rewrite !lookup_empty|done].
    by apply finalize_selects, result_records. }
  set (hb := plHistoryBudget q - protectedHistoryTokenCost tagged'). set (recent := beRecentProtectTokens budget).
  pose proof noticeCost_nonneg as Hnc. assert (Hhb : 0 <= hb) by lia.
  destruct (hasSpatialBudgetDrop (budgetTrimDropsEnabled tagged' hb recent)) eqn:Es.
  2:{ exists tagged', (budgetTrimDropsEnabled tagged' hb recent). split_and!; [done|apply drops_can_drop| |done|apply trim_units_whole|].
      - by apply finalize_selects, result_records.
      - intros _ _ q' [= <-]. split; [|done]. pose proof (kept_droppable_le tagged' hb recent). cbn. lia. }
  destruct (hb <? noticeCost) eqn:En; bool_hyps.
  { exists tagged', (budgetTrimDropsEnabled tagged' hb recent). split_and!; [done|apply drops_can_drop| |done|apply trim_units_whole|done].
    by apply finalize_selects, result_records. }
  exists tagged', (budgetTrimDropsEnabled tagged' (hb - noticeCost) recent). split_and!; [done|apply drops_can_drop| | |apply trim_units_whole|].
  - destruct (hasSpatialBudgetDrop (budgetTrimDropsEnabled tagged' (hb - noticeCost) recent)); by apply finalize_selects, result_records.
  - destruct (hasSpatialBudgetDrop (budgetTrimDropsEnabled tagged' (hb - noticeCost) recent)) eqn:E; done.
  - intros _ _ q' [= <-]. split; [|done]. pose proof (kept_droppable_le tagged' (hb - noticeCost) recent).
    destruct (hasSpatialBudgetDrop (budgetTrimDropsEnabled tagged' (hb - noticeCost) recent)); cbn; lia.
Qed.

(** ** What the selected history costs *)
Lemma kept_history_cost tagged drops : priced tagged -> keptHistory tagged drops = history_cost (keptFrags tagged drops).
Proof.
  intros Hp. unfold keptHistory, keptFrags, history_cost. rewrite <- enumerate_fst.
  assert (He : forall it, it ∈ enumerate tagged -> tagged !! it.1 = Some it.2) by (intros [i t] H; by apply enumerate_lookup).
  revert He. generalize (enumerate tagged) as e. intros e He. induction e as [|it e IH]; [done|].
  specialize (IH (fun x Hx => He x ltac:(by right))). specialize (He it ltac:(by left)). destruct it as [i t]. cbn [fst snd] in He.
  cbn [fmap list_fmap List.filter fst snd map]. unfold is_history_index at 1. rewrite He. unfold is_dropped at 1. cbn [fst snd].
  fold (is_history (tfFrag t)). destruct (bool_decide (is_Some (drops !! i))); cbn [negb]; [by rewrite andb_false_r|].
  rewrite andb_true_r. cbn [map List.filter snd]. destruct (is_history (tfFrag t)); [|exact IH].
  unfold sum_at, sum_of in *. cbn [fold_right]. rewrite IH. f_equal. unfold tokens_at. rewrite He. unfold priced in Hp. rewrite Forall_forall in Hp.
  apply Hp. by eapply list_elem_of_lookup_2.
Qed.
Lemma priced_nonneg tagged i : priced tagged -> 0 <= tokens_at tagged i.
Proof.
  intros Hp. unfold tokens_at. destruct (tagged !! i) as [t|] eqn:E; [|done]. unfold priced in Hp. rewrite Forall_forall in Hp.
  rewrite (Hp t) by by eapply list_elem_of_lookup_2. apply tokens_nonneg.
Qed.

(** ** Where the notice goes *)
Definition closure_of (l : list ContextFrag) : gmap str Z := fold_left closure_after l ∅.
Lemma notice_loop (kept : list ContextFrag) (base pos : nat) (open : gmap str Z) (fallback : nat) (done_ : list ContextFrag) : open = closure_of done_ -> pos = length done_ ->
  (fallback <= pos)%nat -> closure_of (take fallback done_) = ∅ ->
  (noticeLoop kept base pos open fallback <= length (done_ ++ kept))%nat /\
  closure_of (take (noticeLoop kept base pos open fallback) (done_ ++ kept)) = ∅.
Proof.
  revert pos open fallback done_. induction kept as [|f kept IH]; intros pos open fallback done_ -> -> Hf Hc; cbn [noticeLoop].
  - rewrite app_nil_r. destruct (bool_decide (closure_of done_ = ∅)) eqn:E; bool_hyps; cbn [andb].
    + case_if; (split; [lia|]); by rewrite take_ge.
    + by split.
  - destruct (bool_decide (closure_of done_ = ∅)) eqn:E; bool_hyps; cbn [andb].
    + case_if; [split; [rewrite length_app; lia|]; by rewrite take_app_length|].
      specialize (IH (S (length done_)) (closure_after (closure_of done_) f) (length done_) (done_ ++ [f])).
      rewrite cons_middle, app_assoc. apply IH.
      * unfold closure_of. by rewrite fold_left_app.
      * rewrite length_app. cbn. lia.
      * lia.
      * by rewrite take_app_length.
    + specialize (IH (S (length done_)) (closure_after (closure_of done_) f) fallback (done_ ++ [f])).
      rewrite cons_middle, app_assoc. apply IH.
      * unfold closure_of. by rewrite fold_left_app.
      * rewrite length_app. cbn. lia.
      * lia.
      * by rewrite take_app_le.
Qed.
Lemma notice_index kept base : (closureSafeNoticeIndex kept base <= length kept)%nat /\
  closure_of (take (closureSafeNoticeIndex kept base) kept) = ∅.
Proof. apply (notice_loop kept base 0 ∅ 0 []); [done..|lia|done]. Qed.
Lemma spatial_some drops : hasSpatialBudgetDrop drops = true -> exists i, is_Some (drops !! i).
Proof.
  unfold hasSpatialBudgetDrop. rewrite existsb_exists. intros ([i r] & Hi & _). exists i.
  apply list_elem_of_In, elem_of_map_to_list in Hi. eauto.
Qed.

(** ** The stages of [Select] together *)
Section stages.
Variables (frags : list ContextFrag) (profile : IntentProfile) (budget : BudgetEnvelope) (r : SelectionResult)
  (plan' : option ContextBudgetPlan) (gated : list ContextFrag) (losers : list conflictLoser) (kept unique : list ContextFrag).
Definition stBudgets : FragBudgets := enforceFragBudgets unique profile (systemBudgetPlanActive profile (bePlan budget)).
Definition stSystem : SystemOutcome := enforceSystemBudget (fbKept stBudgets) profile (bePlan budget) (fbDropped stBudgets).
Record stages (tagged : list TaggedFrag) (drops : gmap nat str) : Prop := mkStages {
  st_gate : applyTrustGate frags profile = (kept, gated);
  st_conflicts : resolveConflictGroups kept = (unique, losers);
  st_plan : plan' = soPlan stSystem;
  st_same : Forall2 same_tagged (tagFragments (soSelected stSystem) profile) tagged;
  st_can : forall i, is_Some (drops !! i) -> at_index tagged can_drop i = true;
  st_units : drops_units (buildBudgetUnits tagged) drops;
  st_selects : selects r tagged drops (gated ++ map clFrag losers ++ map fbdFrag (fbDropped stBudgets) ++ soDropped stSystem);
  st_notice : notice_ok r tagged drops;
  st_fatal : srFatalError r = None -> soError stSystem = None;
  st_budget : srFatalError r = None -> beKeepHistory budget = false -> forall q, plan' = Some q ->
    protectedHistoryTokenCost tagged + keptDroppable tagged drops + (if srTrimNotice r then noticeCost else 0) <= plHistoryBudget q /\
    priced tagged }.
End stages.
Lemma Select_stages frags profile budget : exists gated losers kept unique tagged drops,
  stages frags profile budget (Select frags profile budget).1 (Select frags profile budget).2 gated losers kept unique tagged drops.
Proof.
  unfold Select. destruct (applyTrustGate frags profile) as [g1 gated] eqn:Eg. destruct (resolveConflictGroups g1) as [g2 losers] eqn:Ec.
  set (b := enforceFragBudgets g2 profile (systemBudgetPlanActive profile (bePlan budget))).
  set (s := enforceSystemBudget (fbKept b) profile (bePlan budget) (fbDropped b)).
  set (p := mkPasses gated losers (fbDropped b) (fbEdits b) (fbWarnings b) (soDropped s)).
  set (tagged := tagFragments (soSelected s) profile). cbn [fst snd].
  exists gated, losers, g1, g2. pose proof (passed_eq profile p) as Hp. cbn [paGated paSuperseded paFragDropped paSystemDropped p] in Hp.
  destruct (soError s) as [e|] eqn:Ee.
  - exists tagged, ∅. split; try done.
    + apply same_all.
    + intros i. rewrite lookup_empty. by intros [? ?].
    + pose proof (finalize_selects (with_fatal (selectionResultFromTaggedReasons tagged ∅) (Some e)) profile p (paEdits p) tagged ∅
        eq_refl eq_refl (result_records tagged ∅)) as F. rewrite Hp in F. exact F.
  - destruct (selectHistory_spec tagged profile budget (soPlan s) p) as (tagged' & drops & H1 & H2 & H3 & H4 & H5 & H6).
    rewrite Hp in H3. exists tagged', drops. by split.
Qed.

(** ** Where a selected fragment comes from *)
Lemma gate_spec frags profile kept gated : applyTrustGate frags profile = (kept, gated) ->
  kept ++ gated ≡ₚ frags /\ (forall f, f ∈ kept <-> f ∈ frags /\ trusted profile f).
Proof.
  unfold applyTrustGate, trusted. destruct (bool_decide (ipSlotTrustFloors profile = ∅)) eqn:H; intros [= <- <-].
  - bool_hyps. split; [by rewrite app_nil_r|]. intros f. unfold below_floor. rewrite H, lookup_empty. naive_solver.
  - split; [rewrite Permutation_app_comm; symmetry; apply filter_partition|]. intros f. rewrite elem_of_filter_bool.
    by rewrite negb_true_iff.
Qed.
Lemma same_frag_trusted profile f g : same_frag g f -> trusted profile f -> trusted profile g.
Proof. unfold trusted, below_floor. intros (_ & _ & -> & -> & _). done. Qed.
Lemma same_frag_precedes w w' f f' : same_frag w' w -> same_frag f' f -> precedes w f -> precedes w' f'.
Proof. unfold precedes. intros (_ & _ & _ & -> & -> & _) (_ & _ & _ & -> & -> & _). done. Qed.
Lemma notice_trusted profile n : is_notice n -> trusted profile n.
Proof.
  intros (_ & _ & Ht & _). unfold trusted, below_floor. destruct (ipSlotTrustFloors profile !! fSlot n); [|done].
  rewrite Ht. unfold TrustRank. rewrite str_eqb_refl. repeat case_if; done.
Qed.
Section stage_facts.
Variables (frags : list ContextFrag) (profile : IntentProfile) (budget : BudgetEnvelope) (r : SelectionResult)
  (plan' : option ContextBudgetPlan) (gated : list ContextFrag) (losers : list conflictLoser) (kept unique : list ContextFrag)
  (tagged : list TaggedFrag) (drops : gmap nat str).
Hypothesis Hst : stages frags profile budget r plan' gated losers kept unique tagged drops.
Let b := stBudgets profile budget unique.
Let s := stSystem profile budget unique.
Lemma tagged_frags : exists fs, map tfFrag tagged = fs /\ Forall2 same_frag fs (soSelected s).
Proof.
  exists (map tfFrag tagged). split; [done|]. pose proof (st_same _ _ _ _ _ _ _ _ _ _ _ Hst) as H.
  rewrite <- (tagFragments_frags (soSelected s) profile). fold s in H.
  clear Hst. induction H as [|t t' l l' (Ht & _) _ IH]; cbn; [apply Forall2_nil_2|by apply Forall2_cons_2].
Qed.
Lemma notes_split : exists notes, (length notes <= 1)%nat /\ Forall is_notice notes /\
  soSelected s ++ soDropped s ≡ₚ notes ++ fbKept b.
Proof. apply (system_budget_spec (fbKept b) profile (bePlan budget) (fbDropped b)). Qed.
Lemma sys_origin f : f ∈ soSelected s -> is_notice f \/ exists g, g ∈ unique /\ same_frag f g.
Proof.
  intros Hf. destruct notes_split as (notes & _ & Hnotes & Hsplit).
  assert (Hin : f ∈ notes ++ fbKept b) by (rewrite <- Hsplit; apply elem_of_app; by left).
  apply elem_of_app in Hin as [Hn|Hk]; [left; by apply (proj1 (Forall_forall _ _) Hnotes)|right; by eapply frag_budgets_kept].
Qed.
Lemma selected_origin f : f ∈ srSelected r -> is_notice f \/ exists g, g ∈ unique /\ same_frag f g.
Proof.
  destruct (st_selects _ _ _ _ _ _ _ _ _ _ _ Hst) as (Hs & _). rewrite Hs. intros (i & t & Ht & _ & ->)%kept_in.
  destruct tagged_frags as (fs & Hfs & Hsame). apply Forall2_same_length_lookup in Hsame as [Hl Hsame].
  assert (Hf : fs !! i = Some (tfFrag t)) by (rewrite <- Hfs, list_lookup_fmap, Ht; done).
  destruct (lookup_lt_is_Some_2 (soSelected s) i) as [g Hg]; [apply lookup_lt_Some in Hf; lia|].
  pose proof (Hsame i _ g Hf Hg) as Hfg. apply list_elem_of_lookup_2, sys_origin in Hg as [Hn|(g' & Hg' & Hgg)].
  - left. destruct Hn as (N1 & N2 & N3 & N4 & N5 & N6), Hfg as (F1 & F2 & F3 & F4 & _ & F6 & F7 & _).
    unfold is_notice. rewrite F1, F2, F3, F4, F6, F7. done.
  - right. exists g'. split; [done|]. by transitivity g.
Qed.
Lemma unique_kept g : g ∈ unique -> g ∈ kept.
Proof.
  pose proof (resolve_split kept) as H. rewrite (st_conflicts _ _ _ _ _ _ _ _ _ _ _ Hst) in H. cbn in H.
  intros Hg. rewrite <- H. apply elem_of_app. by left.
Qed.
Lemma ids_same l l' : Forall2 same_frag l l' -> ids l = ids l'.
Proof. unfold ids. induction 1 as [|f g l l' (Hf & _) _ IH]; [done|]. cbn. by rewrite Hf, IH. Qed.
Lemma selected_and_dropped : exists notes, (length notes <= 1)%nat /\ Forall is_notice notes /\
  ids (srSelected r ++ srDropped r) ≡ₚ ids notes ++ ids frags.
Proof.
  destruct notes_split as (notes & Hn1 & Hn2 & Hsplit). exists notes. split_and!; [done|done|].
  destruct (st_selects _ _ _ _ _ _ _ _ _ _ _ Hst) as (Hs & Hd & _).
  assert (H0 : ids (keptFrags tagged drops) ++ ids (map (fun it => tfFrag it.2) (List.filter (fun it => is_dropped drops it.1) (enumerate tagged))) ≡ₚ
               ids (soSelected s)).
  { rewrite <- ids_app, kept_and_dropped. destruct tagged_frags as (fs & -> & Hsame). by rewrite (ids_same _ _ Hsame). }
  assert (H1 : ids (soSelected s) ++ ids (soDropped s) ≡ₚ ids notes ++ ids (fbKept b)) by by rewrite <- !ids_app, Hsplit.
  assert (H2 : ids unique ++ ids (map clFrag losers) ≡ₚ ids kept).
  { pose proof (resolve_split kept) as Hc. rewrite (st_conflicts _ _ _ _ _ _ _ _ _ _ _ Hst) in Hc. cbn in Hc. by rewrite <- ids_app, Hc. }
  assert (H3 : ids kept ++ ids gated ≡ₚ ids frags).
  { destruct (gate_spec _ _ _ _ (st_gate _ _ _ _ _ _ _ _ _ _ _ Hst)) as [Hg _]. by rewrite <- ids_app, Hg. }
  pose proof (frag_budgets_ids unique profile (systemBudgetPlanActive profile (bePlan budget))) as Hb. cbv zeta in Hb.
  change (enforceFragBudgets unique profile _) with b in Hb.
  rewrite Hs, Hd, !ids_app. change (stBudgets profile budget unique) with b. change (stSystem profile budget unique) with s.
  rewrite <- H3, <- H2, <- Hb. rewrite (app_assoc (ids (keptFrags _ _))), H0.
  transitivity ((ids (soSelected s) ++ ids (soDropped s)) ++ ids (map fbdFrag (fbDropped b)) ++ ids (map clFrag losers) ++ ids gated);
    [solve_Permutation|]. rewrite H1. solve_Permutation.
Qed.
(** ** Conflict winners stay alone *)
Lemma selected_count (p : ContextFrag -> bool) : (forall f g, same_frag g f -> p g = p f) -> (forall n, is_notice n -> p n = false) ->
  (countb p (srSelected r) <= countb p unique)%nat.
Proof.
  intros Hp Hn. destruct (st_selects _ _ _ _ _ _ _ _ _ _ _ Hst) as (-> & _).
  destruct notes_split as (notes & _ & Hnotes & Hsplit). destruct tagged_frags as (fs & Hfs & Hsame).
  pose proof (kept_and_dropped tagged drops) as H1. rewrite Hfs in H1. apply (countb_perm p) in H1. apply (countb_perm p) in Hsplit.
  rewrite countb_app in H1. rewrite !countb_app in Hsplit.
  rewrite (countb_forall p notes) in Hsplit by (eapply Forall_impl; [exact Hnotes|]; auto).
  assert (H2 : countb p fs = countb p (soSelected s)).
  { clear -Hsame Hp. induction Hsame as [|f g l l' H _ IH]; [done|]. by rewrite !countb_cons, IH, (Hp g f H). }
  pose proof (frag_budgets_sublist unique profile (systemBudgetPlanActive profile (bePlan budget)) p Hp) as H3.
  change (enforceFragBudgets unique profile _) with b in H3. lia.
Qed.
Lemma unique_wins g : g ∈ unique -> exists i, kept !! i = Some g /\ (fConflictKey g = [] \/ wins_at kept (fConflictKey g) i g).
Proof.
  pose proof (resolve_kept kept) as H. rewrite (st_conflicts _ _ _ _ _ _ _ _ _ _ _ Hst) in H. cbn in H. subst unique.
  intros ([i f] & -> & [Hi Hk]%elem_of_filter_bool)%list_elem_of_fmap. apply enumerate_lookup in Hi. exists i. split; [done|].
  cbn. by apply (keeps_spec kept i f Hi).
Qed.
Lemma unique_one k : k <> [] -> (countb (fun f => str_eqb (fConflictKey f) k) unique <= 1)%nat.
Proof.
  intros Hk. pose proof (resolve_kept kept) as H. rewrite (st_conflicts _ _ _ _ _ _ _ _ _ _ _ Hst) in H. cbn in H. rewrite H. clear H.
  assert (Hall : forall it, it ∈ List.filter (keeps (conflictWinners kept)) (enumerate kept) -> str_eqb (fConflictKey it.2) k = true ->
    wins_at kept k it.1 it.2).
  { intros [i f] [Hi Hkp]%elem_of_filter_bool Hf. apply enumerate_lookup in Hi. apply (keeps_spec kept i f Hi) in Hkp. cbn in *. str_hyps.
    destruct Hkp as [?|Hw]; [congruence|]. by subst k. }
  pose proof (filter_fst_nodup (keeps (conflictWinners kept)) (enumerate kept) (enumerate_nodup kept)) as Hnd.
  revert Hall Hnd. generalize (List.filter (keeps (conflictWinners kept)) (enumerate kept)) as l. clear. induction l as [|[i f] l IH]; intros Hall Hnd; [cbn; lia|].
  cbn [fmap list_fmap fst snd] in *. apply NoDup_cons in Hnd as [Hi Hnd]. rewrite countb_cons. specialize (IH (fun it H => Hall it ltac:(by right)) Hnd).
  destruct (str_eqb (fConflictKey f) k) eqn:Ef; [|done]. rewrite countb_forall; [lia|].
  apply Forall_forall. intros g ([j g'] & -> & Hg)%list_elem_of_fmap. destruct (str_eqb (fConflictKey g') k) eqn:Eg; [|done]. exfalso.
  destruct (Hall (i, f) ltac:(by left) Ef) as (A1 & A2 & A3). destruct (Hall (j, g') ltac:(by right) Eg) as (B1 & B2 & B3). cbn in *.
  destruct (Nat.lt_total i j) as [Hl|[->|Hl]].
  - by apply (proj2 (A3 j g' B1 B2) Hl), (B3 i f A1 A2).
  - apply Hi. by apply (list_elem_of_fmap_2 fst _ (j, g')).
  - by apply (proj2 (B3 i f A1 A2) Hl), (A3 j g' B1 B2).
Qed.
Lemma selected_precedes w f : w ∈ srSelected r -> fConflictKey w <> [] -> f ∈ kept -> fConflictKey f = fConflictKey w -> precedes w f.
Proof.
  intros Hw Hk Hf Hfw. destruct (selected_origin w Hw) as [(_ & _ & _ & ? & _ & _)|(g & Hg & Hs)]; [congruence|].
  assert (Hkey : fConflictKey w = fConflictKey g) by apply Hs.
  destruct (unique_wins g Hg) as (i & Hi & [?|(_ & _ & Hwin)]); [congruence|]. apply list_elem_of_lookup in Hf as [j Hj].
  apply (same_frag_precedes g w f f Hs); [reflexivity|]. apply (Hwin j f Hj). congruence.
Qed.
(** ** What must stay *)
Lemma kept_at_stage g f i : soSelected s !! i = Some g -> isMustKeepFrag g profile = true -> same_frag g f ->
  exists f', f' ∈ srSelected r /\ same_frag f' f /\ (g = f -> fKind f <> KindConversationSummary -> f' = f).
Proof.
  intros Hi Hm Hgf. pose proof (tagFragments_spec (soSelected s) profile) as H. apply Forall2_same_length_lookup in H as [Hl1 H1].
  pose proof (st_same _ _ _ _ _ _ _ _ _ _ _ Hst) as H. fold s in H. apply Forall2_same_length_lookup in H as [Hl2 H2].
  destruct (lookup_lt_is_Some_2 (tagFragments (soSelected s) profile) i) as [t0 Ht0]; [apply lookup_lt_Some in Hi; lia|].
  destruct (lookup_lt_is_Some_2 tagged i) as [t Ht]; [apply lookup_lt_Some in Hi; lia|].
  destruct (H1 i g t0 Hi Ht0) as [<- Hc]. destruct (H2 i t0 t Ht0 Ht) as (S1 & S2 & S3). specialize (Hc Hm).
  assert (Hd : drops !! i = None).
  { destruct (drops !! i) eqn:E; [|done]. pose proof (st_can _ _ _ _ _ _ _ _ _ _ _ Hst i ltac:(eauto)) as Hx.
    unfold at_index in Hx. rewrite Ht in Hx. unfold can_drop, HasTag in *. congruence. }
  exists (tfFrag t). destruct (st_selects _ _ _ _ _ _ _ _ _ _ _ Hst) as (-> & _). split_and!; [by eapply kept_at|by transitivity (tfFrag t0)|].
  intros <- Hk. by apply S3.
Qed.
Lemma unkeyed_unique f : f ∈ kept -> fConflictKey f = [] -> f ∈ unique.
Proof.
  intros [i Hi]%list_elem_of_lookup Hk. pose proof (resolve_kept kept) as H. rewrite (st_conflicts _ _ _ _ _ _ _ _ _ _ _ Hst) in H. cbn in H.
  rewrite H. apply (list_elem_of_fmap_2 snd _ (i, f)). apply elem_of_filter_bool. split; [by apply enumerate_lookup|].
  apply (keeps_spec kept i f Hi). by left.
Qed.
Lemma must_keep_kept f : f ∈ unique -> isMustKeepFrag f profile = true -> isSystem f = false ->
  exists g, g ∈ soSelected s /\ same_frag g f /\ (fragBudgetExceeded f = None -> g = f).
Proof.
  intros Hf Hm Hsys. assert (Hg : exists g, g ∈ fbKept b /\ same_frag g f /\ (fragBudgetExceeded f = None -> g = f)).
  { pose proof (frag_budget_spec profile (systemBudgetPlanActive profile (bePlan budget)) f) as H.
    destruct (enforceFragBudget _ _ f) as [g e w|d] eqn:Eo.
    - exists g. split; [|exact H]. apply list_elem_of_omap. exists (Kept g e w). split; [|done]. apply list_elem_of_fmap. by exists f.
    - exfalso. destruct H as (_ & _ & _ & H). destruct (H Hm) as [_ Hd]. unfold droppableSystemBudgetFrag in Hd.
      unfold isSystem in Hsys. by rewrite Hsys in Hd. }
  destruct Hg as (g & Hg & Hs & He). exists g. split; [|done]. destruct notes_split as (notes & _ & _ & Hsplit).
  assert (Hin : g ∈ soSelected s ++ soDropped s) by (rewrite Hsplit; apply elem_of_app; by right).
  apply elem_of_app in Hin as [?|Hd]; [done|]. exfalso.
  destruct (system_budget_spec (fbKept b) profile (bePlan budget) (fbDropped b)) as (_ & [idx Hidx] & _).
  destruct (Hidx g Hd) as [Hsg _]. unfold isSystem in *. destruct Hs as (_ & _ & Hslot & _). congruence.
Qed.
(** ** System fragments *)
Lemma not_dropped_filter (p : ContextFrag -> bool) (e : list (nat * TaggedFrag)) :
  (forall it, it ∈ e -> is_dropped drops it.1 = true -> p (tfFrag it.2) = false) ->
  List.filter p (map (fun it => tfFrag it.2) (List.filter (fun it => negb (is_dropped drops it.1)) e)) =
  List.filter p (map (fun it => tfFrag it.2) e).
Proof.
  clear Hst. intros H. induction e as [|it e IH]; [done|]. specialize (IH (fun x Hx => H x ltac:(by right))).
  specialize (H it ltac:(by left)). cbn [List.filter map]. destruct (is_dropped drops it.1); cbn [negb map List.filter].
  - by rewrite H.
  - destruct (p (tfFrag it.2)); by rewrite IH.
Qed.
Lemma selected_system : (forall f, isSystem f = true -> isMustKeepFrag f profile = true) ->
  (forall f, f ∈ soSelected s -> isSystem f = true -> fKind f <> KindConversationSummary) ->
  List.filter isSystem (srSelected r) = List.filter isSystem (soSelected s).
Proof.
  intros Hmust Hsum. pose proof (tagFragments_spec (soSelected s) profile) as H. apply Forall2_same_length_lookup in H as [Hl1 H1].
  pose proof (st_same _ _ _ _ _ _ _ _ _ _ _ Hst) as H. fold s in H. apply Forall2_same_length_lookup in H as [Hl2 H2].
  assert (Hat : forall i t, tagged !! i = Some t -> exists g, soSelected s !! i = Some g /\ isSystem (tfFrag t) = isSystem g /\
     (isSystem g = true -> tfFrag t = g /\ drops !! i = None)).
  { intros i t Ht. destruct (lookup_lt_is_Some_2 (soSelected s) i) as [g Hg]; [apply lookup_lt_Some in Ht; lia|].
    destruct (lookup_lt_is_Some_2 (tagFragments (soSelected s) profile) i) as [t0 Ht0]; [apply lookup_lt_Some in Ht; lia|].
    destruct (H1 i g t0 Hg Ht0) as [<- Hc]. destruct (H2 i t0 t Ht0 Ht) as (S1 & S2 & S3). exists (tfFrag t0). split_and!; [done| |].
    - unfold isSystem. by destruct S1 as (_ & _ & -> & _).
    - intros Hs. split; [apply S3, Hsum; [by eapply list_elem_of_lookup_2|done]|].
      specialize (Hc (Hmust _ Hs)). destruct (drops !! i) eqn:E; [|done].
      pose proof (st_can _ _ _ _ _ _ _ _ _ _ _ Hst i ltac:(eauto)) as Hx. unfold at_index in Hx. rewrite Ht in Hx.
      unfold can_drop, HasTag in *. congruence. }
  destruct (st_selects _ _ _ _ _ _ _ _ _ _ _ Hst) as (-> & _). unfold keptFrags. rewrite not_dropped_filter.
  - rewrite <- (map_map snd tfFrag). change (map snd (enumerate tagged)) with ((enumerate tagged).*2). rewrite enumerate_snd.
    assert (Hlen : length (soSelected s) = length tagged) by lia.
    assert (Hat' : forall i t, tagged !! i = Some t -> exists g, soSelected s !! i = Some g /\ isSystem (tfFrag t) = isSystem g /\
      (isSystem g = true -> tfFrag t = g)) by (intros i t Ht; destruct (Hat i t Ht) as (g & ? & ? & Hs); exists g; naive_solver).
    clear -Hat' Hlen. rename Hat' into Hat.
    revert Hat Hlen. generalize (soSelected s) as l. revert tagged. clear. induction tagged as [|t ts IH]; intros [|g l] Hat Hlen; try done.
    cbn [map List.filter]. destruct (Hat 0%nat t eq_refl) as (g' & [= <-] & Hg & Hs). rewrite Hg.
    rewrite (IH l); [|intros i t' Ht'; by apply (Hat (S i) t')|by injection Hlen].
    destruct (isSystem g); [|done]. by rewrite (Hs eq_refl).
  - intros [i t] Hit%enumerate_lookup Hd. cbn in *. destruct (Hat i t Hit) as (g & _ & -> & Hs). destruct (isSystem g); [|done].
    destruct (Hs eq_refl) as [_ Hn]. unfold is_dropped in Hd. bool_hyps. rewrite Hn in Hd. by destruct Hd.
Qed.
End stage_facts.
End facts.

(** ** The selection *)
Section selection.
Context {U : Unicode} {X : Externals}.
Definition provider_profile (intent : str) : Prop := intent = IntentRunConfigPreProvider \/ intent = IntentDiscussReply.
Lemma must_keep_same intent f g : same_frag g f -> isMustKeepFrag g (ProfileFor intent) = isMustKeepFrag f (ProfileFor intent).
Proof.
  intros (_ & Hk & Hs & _ & _ & Hb & _). unfold isMustKeepFrag, ProfileFor. rewrite Hk, Hs, Hb.
  repeat case_if; cbn; unfold mustKeepProviderSystemFrag; by rewrite ?Hs.
Qed.
Lemma system_must_keep intent f : provider_profile intent -> isSystem f = true -> isMustKeepFrag f (ProfileFor intent) = true.
Proof.
  intros Hp H. assert (Hkeep : ipMustKeepFrag (ProfileFor intent) = Some mustKeepProviderSystemFrag) by by destruct Hp as [-> | ->].
  unfold isMustKeepFrag. rewrite Hkeep. change (mustKeepProviderSystemFrag f) with (isSystem f). rewrite H. by rewrite orb_true_r.
Qed.
Lemma sort_system frags : List.filter isSystem (sortSystemFragsByPriority frags) = stable_sort (key_lt fPriority) (List.filter isSystem frags).
Proof.
  unfold sortSystemFragsByPriority. destruct (bool_decide (List.filter isSystem frags = [])) eqn:E; bool_hyps; [by rewrite E|].
  rewrite List.filter_app, (filter_none isSystem (List.filter (fun f => negb (isSystem f)) frags)).
  - rewrite app_nil_r. apply filter_id_forall. apply Forall_forall. intros f. rewrite stable_sort_perm. by intros [_ ?]%elem_of_filter_bool.
  - intros f [_ ?]%elem_of_filter_bool. by bool_hyps.
Qed.
Lemma system_cost_ext a b : List.filter isSystem a = List.filter isSystem b -> systemFragCost a = systemFragCost b.
Proof. intros H. unfold systemFragCost. by rewrite !sort_system, H. Qed.
(** Nothing that was collected disappears: the selected and the dropped
    fragments together are, up to order, the collected ones and at most one
    notice of the system budget; the drop records name exactly the dropped
    ones, and the totals count them. *)
Theorem selection_accounts_for_everything (frags : list ContextFrag) (profile : IntentProfile) (budget : BudgetEnvelope) :
  let r := (Select frags profile budget).1 in
  (exists notes, (length notes <= 1)%nat /\ Forall is_notice notes /\
     ids (srSelected r ++ srDropped r) ≡ₚ ids notes ++ ids frags) /\
  map drFragID (srDropReasons r) = ids (srDropped r) /\
  srTotalSelected r = Z.of_nat (length (srSelected r)) /\ srTotalDropped r = Z.of_nat (length (srDropped r)) /\
  srTotalCollected r = srTotalSelected r + srTotalDropped r.
Proof.
  destruct (Select_stages frags profile budget) as (gated & losers & kept & unique & tagged & drops & Hst). cbv zeta.
  split; [by eapply selected_and_dropped|]. by destruct (st_selects _ _ _ _ _ _ _ _ _ _ _ Hst) as (_ & _ & H).
Qed.

(** Every selected fragment meets the trust floor of its slot. *)
Theorem trust_floor_respected (frags : list ContextFrag) (profile : IntentProfile) (budget : BudgetEnvelope) :
  Forall (trusted profile) (srSelected (Select frags profile budget).1).
Proof.
  destruct (Select_stages frags profile budget) as (gated & losers & kept & unique & tagged & drops & Hst).
  apply Forall_forall. intros f Hf. destruct (selected_origin _ _ _ _ _ _ _ _ _ _ _ Hst f Hf) as [Hn|(g & Hg & Hs)]; [by apply notice_trusted|].
  apply (same_frag_trusted profile g f Hs). apply (unique_kept _ _ _ _ _ _ _ _ _ _ _ Hst) in Hg.
  by apply (gate_spec _ _ _ _ (st_gate _ _ _ _ _ _ _ _ _ _ _ Hst)).
Qed.

(** Of the fragments of one conflict key at most one is selected, and it
    takes precedence (a closer scope, then more trust) over every collected
    fragment of the key that its slot trusts. *)
Theorem conflict_winner_selected (frags : list ContextFrag) (profile : IntentProfile) (budget : BudgetEnvelope) (k : str) (Hk : k <> []) :
  let r := (Select frags profile budget).1 in
  (countb (fun f => str_eqb (fConflictKey f) k) (srSelected r) <= 1)%nat /\
  forall w f, w ∈ srSelected r -> fConflictKey w = k -> f ∈ frags -> trusted profile f -> fConflictKey f = k -> precedes w f.
Proof.
  destruct (Select_stages frags profile budget) as (gated & losers & kept & unique & tagged & drops & Hst). cbv zeta. split.
  - etransitivity; [eapply (selected_count _ _ _ _ _ _ _ _ _ _ _ Hst)|by eapply (unique_one _ _ _ _ _ _ _ _ _ _ _ Hst)].
    + intros f g (_ & _ & _ & _ & _ & _ & H & _). by rewrite H.
    + intros n (_ & _ & _ & H & _). rewrite H. apply str_eqb_false. congruence.
  - intros w f Hw Hwk Hf Ht Hfk. eapply (selected_precedes _ _ _ _ _ _ _ _ _ _ _ Hst); [done|congruence| |congruence].
    by apply (gate_spec _ _ _ _ (st_gate _ _ _ _ _ _ _ _ _ _ _ Hst)).
Qed.

(** What must be kept is kept under every budget, also when the selection
    fails: a trusted fragment that must stay (the current request, a summary,
    an overflow policy that says so), that competes with no other and that is
    not a system section, is in the selection; its text may be shortened, but
    only when it exceeds its own budget or is a summary. *)
Theorem must_keep_stays (frags : list ContextFrag) (intent : str) (budget : BudgetEnvelope) (f : ContextFrag)
    (Hf : f ∈ frags) (Ht : trusted (ProfileFor intent) f) (Hk : fConflictKey f = [])
    (Hm : isMustKeepFrag f (ProfileFor intent) = true) (Hs : isSystem f = false) :
  exists f', f' ∈ srSelected (Select frags (ProfileFor intent) budget).1 /\ same_frag f' f /\
    (fragBudgetExceeded f = None -> fKind f <> KindConversationSummary -> f' = f).
Proof.
  destruct (Select_stages frags (ProfileFor intent) budget) as (gated & losers & kept & unique & tagged & drops & Hst).
  assert (Hu : f ∈ unique).
  { eapply (unkeyed_unique _ _ _ _ _ _ _ _ _ _ _ Hst); [|done]. by apply (gate_spec _ _ _ _ (st_gate _ _ _ _ _ _ _ _ _ _ _ Hst)). }
  destruct (must_keep_kept (ProfileFor intent) budget unique f Hu Hm Hs) as (g & [i Hi]%list_elem_of_lookup & Hgf & He).
  destruct (kept_at_stage _ _ _ _ _ _ _ _ _ _ _ Hst g f i Hi) as (f' & H1 & H2 & H3); [by rewrite (must_keep_same intent f g Hgf)|done|].
  exists f'. split_and!; [done..|]. auto.
Qed.

(** What the history is trimmed for, when it does not fit. *)
Definition historyTrimReasons : list str :=
  [budgetDropReasonPassive; budgetDropReasonUntiered; budgetDropReasonDirected; budgetDropReasonRecentWindow].
Lemma prefix_untrimmed (p reason : str) : Forall (fun r => has_prefix r p = false) historyTrimReasons -> has_prefix reason p = true ->
  reason ∉ historyTrimReasons.
Proof. rewrite Forall_forall. intros Hf Hp Hin. rewrite (Hf _ Hin) in Hp. done. Qed.
Lemma frag_reasons_untrimmed frags profile active :
  Forall (fun d => fbdReason d ∉ historyTrimReasons) (fbDropped (enforceFragBudgets frags profile active)).
Proof.
  apply Forall_forall. intros d (o & (f & -> & _)%list_elem_of_fmap & Hd)%list_elem_of_omap. unfold enforceFragBudget in Hd.
  destruct (fragBudgetExceeded f) as [reason|] eqn:Er; [|done]. assert (Hr : reason ∉ historyTrimReasons).
  { unfold fragBudgetExceeded in Er. repeat case_match; simplify_eq; apply (bool_decide_unpack _); by vm_compute. }
  unfold outcome_dropped in Hd. repeat case_match; by simplify_eq/=.
Qed.
Lemma passes_untrimmed profile p : Forall (fun d => fbdReason d ∉ historyTrimReasons) (paFragDropped p) ->
  Forall (fun d => d.2 ∉ historyTrimReasons) (passDrops profile p).
Proof.
  intros Hf. unfold passDrops. rewrite !Forall_app, !Forall_fmap. split_and!; [| |exact Hf|]; apply Forall_forall; intros x _; unfold compose; cbn [fst snd].
  - apply (prefix_untrimmed (lit "trust_gate:")); [apply (bool_decide_unpack _); by vm_compute|apply has_prefix_app].
  - apply (prefix_untrimmed (lit "precedence:superseded_by_")); [apply (bool_decide_unpack _); by vm_compute|apply has_prefix_app].
  - apply (bool_decide_unpack _). by vm_compute.
Qed.
Lemma finalize_untrimmed r profile p edits : Forall (fun d => fbdReason d ∉ historyTrimReasons) (paFragDropped p) ->
  Forall (fun d => drReason d ∉ historyTrimReasons) (srDropReasons r) ->
  Forall (fun d => drReason d ∉ historyTrimReasons) (srDropReasons (finalizeSelection r profile p edits)).
Proof. intros Hp Hr. cbn. apply Forall_app. split; [done|]. apply Forall_fmap. by apply passes_untrimmed. Qed.
Lemma result_untrimmed tagged drops : (forall i reason, drops !! i = Some reason -> reason = budgetDropReasonOrphanExchange) ->
  Forall (fun d => drReason d ∉ historyTrimReasons) (srDropReasons (selectionResultFromTaggedReasons tagged drops)).
Proof.
  intros Ho. cbn. apply Forall_fmap, Forall_forall. intros [i t] [_ Hd]%elem_of_filter_bool. unfold is_dropped in Hd. cbn in *. bool_hyps.
  destruct Hd as [reason Hr]. rewrite Hr. apply Ho in Hr as ->. apply (bool_decide_unpack _). by vm_compute.
Qed.
(** With the history kept, a drop is never for lack of room in it. *)
Lemma kept_history_untrimmed frags profile budget : beKeepHistory budget = true ->
  let r := (Select frags profile budget).1 in
  srTrimNotice r = false /\ Forall (fun d => drReason d ∉ historyTrimReasons) (srDropReasons r).
Proof.
  intros Hk. unfold Select. destruct (applyTrustGate frags profile) as [g1 gated]. destruct (resolveConflictGroups g1) as [g2 losers].
  cbv zeta. cbn [fst]. unfold selectHistory. rewrite Hk. destruct (soError _); (split; [done|]); apply finalize_untrimmed;
    try apply frag_reasons_untrimmed; apply result_untrimmed; intros i reason.
  - by rewrite lookup_empty.
  - apply orphanDrops_reason.
Qed.

(** C6: A selection made under a plan for a provider fits the window of the
    plan. When it does not give up, the reserve for the answer, the tool
    definitions, the current request and the system sections as they are
    rendered cost no more than the window together, and the history kept and
    the notice of a trim fit with them, unless the run is armed to fold its own
    history: then nothing of the history is trimmed, whatever its cost. *)
Theorem selection_fits_window (frags : list ContextFrag) (intent : str) (budget : BudgetEnvelope)
    (window outputReserve toolDefsCost currentRequestCost : Z) (plan : ContextBudgetPlan)
    (Hplan : ComputeContextBudgetPlan window outputReserve toolDefsCost currentRequestCost = (Some plan, None))
    (Hbudget : bePlan budget = Some plan) (Hintent : provider_profile intent)
    (Hsum : forall f, f ∈ frags -> isSystem f = true -> fKind f <> KindConversationSummary)
    (Hok : srFatalError (Select frags (ProfileFor intent) budget).1 = None) :
  let r := (Select frags (ProfileFor intent) budget).1 in
  let fixed := outputReserve + toolDefsCost + currentRequestCost + systemFragCost (srSelected r) in
  fixed <= window /\
  (beKeepHistory budget = false -> fixed + history_cost (srSelected r) + (if srTrimNotice r then noticeCost else 0) <= window) /\
  (beKeepHistory budget = true -> srTrimNotice r = false /\ Forall (fun d => drReason d ∉ historyTrimReasons) (srDropReasons r)).
Proof.
  destruct (Select_stages frags (ProfileFor intent) budget) as (gated & losers & kept & unique & tagged & drops & Hst). cbv zeta.
  pose proof (st_plan _ _ _ _ _ _ _ _ _ _ _ Hst) as Hp. pose proof (st_fatal _ _ _ _ _ _ _ _ _ _ _ Hst Hok) as He.
  destruct (system_budget_spec (fbKept (stBudgets (ProfileFor intent) budget unique)) (ProfileFor intent) (bePlan budget)
    (fbDropped (stBudgets (ProfileFor intent) budget unique))) as (_ & _ & _ & Hsys).
  change (enforceSystemBudget _ _ _ _) with (stSystem (ProfileFor intent) budget unique) in Hsys.
  set (s := stSystem (ProfileFor intent) budget unique) in *.
  destruct (Hsys plan Hbudget) as (Hp' & Hcost & _); [rewrite Hbudget; by destruct Hintent as [-> | ->]|]. specialize (Hcost He).
  assert (Hsc : systemFragCost (srSelected (Select frags (ProfileFor intent) budget).1) = systemFragCost (soSelected s)).
  { apply system_cost_ext, (selected_system _ _ _ _ _ _ _ _ _ _ _ Hst); [intros f; by apply system_must_keep|].
    intros f Hf Hsf Hkind. apply (sys_origin (ProfileFor intent) budget unique) in Hf as [Hn|(g & Hg & Hs)].
    - by apply (notice_kind f).
    - apply (Hsum g); [|by unfold isSystem in *; destruct Hs as (_ & _ & <- & _)|by destruct Hs as (_ & <- & _)].
      apply (unique_kept _ _ _ _ _ _ _ _ _ _ _ Hst) in Hg. by apply (gate_spec _ _ _ _ (st_gate _ _ _ _ _ _ _ _ _ _ _ Hst)). }
  rewrite Hsc. unfold ComputeContextBudgetPlan in Hplan. destruct (window =? 0); [done|].
  destruct ((_ || _) || _) eqn:Eneg; [done|]. injection Hplan as <-. split_and!; [|intros Hkeep|apply kept_history_untrimmed].
  - cbn [finishSystemBudgetPlan plHistoryBudget plSystemBudget] in *. lia.
  - destruct (st_budget _ _ _ _ _ _ _ _ _ _ _ Hst Hok Hkeep _ ltac:(by rewrite Hp, Hp')) as [Hle Hpriced].
    assert (Hsel : srSelected (Select frags (ProfileFor intent) budget).1 = keptFrags tagged drops)
      by apply (st_selects _ _ _ _ _ _ _ _ _ _ _ Hst).
    pose proof (kept_history_le tagged drops (fun i => priced_nonneg tagged i Hpriced) (st_units _ _ _ _ _ _ _ _ _ _ _ Hst)) as Hkh.
    rewrite (kept_history_cost tagged drops Hpriced), <- Hsel in Hkh.
    cbn [finishSystemBudgetPlan plHistoryBudget plSystemBudget] in *. lia.
Qed.

(** The system budget only takes sections that may go: what it drops is a
    section of the optional or preferred tier without a keep policy, or the
    header of a group none of whose items is left; and it gives up only when
    every such section is gone and the rest is still too large. *)
Theorem system_budget_takes_only_optional (frags : list ContextFrag) (profile : IntentProfile) (plan : ContextBudgetPlan)
    (fragBudgetDropped : list fragBudgetDrop) (Hactive : systemBudgetPlanActive profile (Some plan) = true) :
  let o := enforceSystemBudget frags profile (Some plan) fragBudgetDropped in
  (exists gone, Forall (may_go frags gone) (soDropped o)) /\
  (soError o = None <-> systemFragCost (soSelected o) <= plSystemBudget plan) /\
  (soError o <> None -> forall f, f ∈ frags -> system_candidate f = true -> f ∈ soDropped o).
Proof.
  cbv zeta. destruct (system_budget_spec frags profile (Some plan) fragBudgetDropped) as (_ & [idx H1] & _ & H2).
  destruct (H2 plan eq_refl Hactive) as (_ & H3 & H4). split_and!.
  - exists idx. by apply Forall_forall.
  - split; [done|]. destruct (soError _) as [e|] eqn:Ee; [|done]. intros Hle. exfalso. destruct (H4 ltac:(done)). lia.
  - intros He. by destruct (H4 He).
Qed.

(** The notice of a trim is put where it interrupts nothing: at a position
    of the selection before which every tool call is answered. *)
Theorem notice_interrupts_nothing (frags : list ContextFrag) (profile : IntentProfile) (budget : BudgetEnvelope)
    (Hnotice : srTrimNotice (Select frags profile budget).1 = true) :
  let r := (Select frags profile budget).1 in
  0 <= srTrimNoticeIndex r <= Z.of_nat (length (srSelected r)) /\
  closure_of (take (Z.to_nat (srTrimNoticeIndex r)) (srSelected r)) = ∅.
Proof.
  destruct (Select_stages frags profile budget) as (gated & losers & kept & unique & tagged & drops & Hst). cbv zeta.
  destruct (st_notice _ _ _ _ _ _ _ _ _ _ _ Hst Hnotice) as [Hi Hd].
  destruct (st_selects _ _ _ _ _ _ _ _ _ _ _ Hst) as (-> & _). rewrite Hi. unfold trimNoticeIndex.
  destruct (find_last _ _) as [last|] eqn:El.
  - pose proof (notice_index (keptFrags tagged drops) (length (List.filter (fun it => negb (is_dropped drops it.1) && (it.1 <? last)%nat) (enumerate tagged)))) as [H1 H2].
    rewrite Nat2Z.id. split; [lia|done].
  - exfalso. apply spatial_some in Hd as [i Hs]. pose proof (st_can _ _ _ _ _ _ _ _ _ _ _ Hst i Hs) as Hc.
    unfold at_index in Hc. destruct (tagged !! i) as [t|] eqn:Et; [|done].
    apply find_last_None in El. rewrite Forall_forall in El. specialize (El (i, t) ltac:(by apply enumerate_lookup)).
    unfold is_dropped in El. cbn in El. bool_hyps. done.
Qed.
End selection.

(** ** Examples *)
Module Examples.
Definition tables : Unicode := ascii_unicode.
Definition externals : Externals :=
  {| json_of_part := fun _ => Some (lit "{}"); json_tool_name := fun _ => []; canonical_hash := fun _ => None;
     hex_sha256 := fun s => s; text_output := fun s => s |}.
#[local] Existing Instance tables.
#[local] Existing Instance externals.
Definition section_frag (id tier : str) (tokens : Z) : ContextFrag :=
  mkContextFrag (lit "section." ++ id) noRef KindSystemPolicy MessageRoleSystem SlotSystem 10 tier 0 [] CacheNever TrustSystem noScope
    (mkBudgetPolicy 0 0 []) (mkRenderPolicy [] [] [] []) (mkProvenance [] [] [] 0) tokens [] [textPart (lit "be kind")].
Definition message_frag (id slot trust key : str) (tokens : Z) : ContextFrag :=
  mkContextFrag id noRef KindConversationEvent MessageRoleUser slot 0 [] 0 [] CacheNever trust noScope
    (mkBudgetPolicy 0 0 []) (mkRenderPolicy [] [] [] []) (mkProvenance [] [] [] 0) tokens key
    [messagePart (mkMessage MessageRoleUser [TextPart (lit "hello")])].
Definition request : ContextFrag := message_frag (lit "m5") SlotCurrentUser TrustUser [] 90.
Definition collected : list ContextFrag :=
  [section_frag (lit "identity") RetentionRequired 300; section_frag (lit "style") RetentionOptional 400;
   message_frag (lit "m1") SlotHistory TrustUser [] 200; message_frag (lit "m2") SlotHistory TrustUser (lit "topic") 150;
   message_frag (lit "m3") SlotHistory TrustWorkspace (lit "topic") 150; message_frag (lit "m4") SlotHistory TrustUser [] 120; request].
Definition provider : IntentProfile := ProfileFor IntentRunConfigPreProvider.
Definition plan : ContextBudgetPlan := mkPlan 1500 300 100 100 1000 0 0.
Definition budget : BudgetEnvelope := mkEnvelope 0 (Some plan) 0 false.
Definition result : SelectionResult := (Select collected provider budget).1.
Definition tight : ContextBudgetPlan := mkPlan 850 300 100 100 350 0 0.

Lemma conflict_winner_selected_witness :
  (countb (fun f => str_eqb (fConflictKey f) (lit "topic")) (srSelected (Select collected provider budget).1) <= 1)%nat /\
  lit "m3" ∈ drFragID <$> srDropReasons result /\ lit "m2" ∈ drFragID <$> srDropReasons result.
Proof.
  split; [exact (proj1 (conflict_winner_selected collected provider budget (lit "topic") ltac:(done)))|].
  split; apply (bool_decide_eq_true_1 _); vm_compute; reflexivity.
Defined.
Lemma must_keep_stays_witness :
  exists f', f' ∈ srSelected (Select collected (ProfileFor IntentRunConfigPreProvider) budget).1 /\ same_frag f' request.
Proof.
  refine (match must_keep_stays collected IntentRunConfigPreProvider budget request _ _ _ _ _ with
          | ex_intro _ f' (conj H1 (conj H2 _)) => ex_intro _ f' (conj H1 H2) end).
  - apply (list_elem_of_lookup_2 _ 6). vm_compute. reflexivity.
  - vm_compute. reflexivity.
  - vm_compute. reflexivity.
  - vm_compute. reflexivity.
  - vm_compute. reflexivity.
Defined.
Definition armed : BudgetEnvelope := mkEnvelope 0 (Some plan) 0 true.
Lemma selection_fits_window_witness :
  let r := (Select collected (ProfileFor IntentRunConfigPreProvider) budget).1 in
  300 + 100 + 100 + systemFragCost (srSelected r) + history_cost (srSelected r) + (if srTrimNotice r then noticeCost else 0) <= 1500.
Proof.
  assert (H : Forall (fun f => fKind f <> KindConversationSummary) collected) by (apply (bool_decide_eq_true_1 _); vm_compute; reflexivity).
  refine (proj1 (proj2 (selection_fits_window collected IntentRunConfigPreProvider budget 1500 300 100 100 plan _ _ _ _ _)) _).
  - vm_compute. reflexivity.
  - vm_compute. reflexivity.
  - left. reflexivity.
  - intros f Hf _. exact (proj1 (Forall_forall _ _) H f Hf).
  - vm_compute. reflexivity.
  - vm_compute. reflexivity.
Defined.
(** The same fragments for an armed run: nothing of the history is gone. *)
Example armed_keeps_history : map fID (srSelected (Select collected provider armed).1) =
  lit <$> ["section.identity"; "section.style"; "m1"; "m3"; "m4"; "m5"]%string.
Proof. vm_compute. reflexivity. Qed.
Lemma system_budget_takes_only_optional_witness :
  let o := enforceSystemBudget collected provider (Some tight) [] in
  (exists gone, Forall (may_go collected gone) (soDropped o)) /\ map fID (soDropped o) = [lit "section.style"] /\
  systemFragCost (soSelected o) <= 350.
Proof.
  split; [exact (proj1 (system_budget_takes_only_optional collected provider tight [] eq_refl))|].
  split; vm_compute; [reflexivity|discriminate].
Defined.
Lemma notice_interrupts_nothing_witness : srTrimNoticeIndex result = 2 /\
  closure_of (take (Z.to_nat (srTrimNoticeIndex (Select collected provider budget).1)) (srSelected (Select collected provider budget).1)) = ∅.
Proof.
  split; [vm_compute; reflexivity|].
  refine (proj2 (notice_interrupts_nothing collected provider budget _)). vm_compute. reflexivity.
Defined.
End Examples.
