(* ===== verification/Admission.v ===== *)
(** * Admission of context entries

    Models [internal/agent/turn/admission.go]: the decision, shared by the
    composer of a chat timeline and by the agent, on which entries of a history
    are materialised under a token budget.  The Go code walks the entries from
    the newest; the loops here take the list reversed.  Flags are one boolean
    per entry, as the Go slices are. *)

From S2P Require Import Prelude GoStr.
#[local] Open Scope Z_scope.

(** ** Data *)
Record ContextMessageSource : Type := mkSource { csKind : str; csID : str; csCurrent : bool }.
Record AdmissionEntry : Type := mkEntry {
  aeSource : option ContextMessageSource; aeCost : Z; aePinned : bool; aeToolResponse : bool }.
Record AdmissionDecision : Type := mkDecision {
  adSelected : list bool; adEstimatedTokens : Z; adSelectedTokens : Z; adDroppedEntries : Z; adProtectedOverflow : bool }.
Abbreviation row := (AdmissionEntry * bool)%type.

(** ** Which entries are current, and which are protected *)
Definition newestRawEntry (entries : list AdmissionEntry) : option nat := find_last (fun e => negb (aePinned e)) entries.
Definition source_current (e : AdmissionEntry) : bool := match aeSource e with Some s => csCurrent s | None => false end.
Definition CurrentAdmissionEntries (entries : list AdmissionEntry) : list bool :=
  if existsb (fun e => bool_decide (is_Some (aeSource e))) entries then map source_current entries
  else imap (fun i _ => bool_decide (newestRawEntry entries = Some i)) entries.
Definition cost_where (p : row -> bool) (rows : list row) : Z := fold_right (fun r n => (if p r then aeCost r.1 else 0) + n) 0 rows.
(** The loop over the entries from the newest, [used] taken so far. *)
Fixpoint protectLoop (limit used : Z) (newest_first : list row) : list bool :=
  match newest_first with
  | [] => []
  | (e, current) :: r =>
      if negb current || aePinned e then false :: protectLoop limit used r
      else if (0 <? used) && (limit <? used + aeCost e) then map (fun _ => false) newest_first
      else true :: protectLoop limit (used + Z.max 1 (aeCost e)) r
  end.
Definition ProtectedAdmissionEntries (entries : list AdmissionEntry) (budgetTokens : Z) : list bool :=
  let current := CurrentAdmissionEntries entries in
  if budgetTokens <=? 0 then current
  else
    let rows := zip entries current in
    let pinned := cost_where (fun r => aePinned r.1) rows in
    let batch := cost_where (fun r => negb (aePinned r.1) && r.2) rows in
    if pinned + batch <=? budgetTokens then current
    else reverse (protectLoop (budgetTokens - budgetTokens / 10 - pinned) 0 (reverse rows)).

(** ** The decision *)
(** The loop that fills the recent window. *)
Fixpoint fillLoop (budgetTokens used : Z) (newest_first : list row) : list bool * Z :=
  match newest_first with
  | [] => ([], used)
  | (e, selected) :: r =>
      if selected then let '(flags, used) := fillLoop budgetTokens used r in (true :: flags, used)
      else if budgetTokens <? used + aeCost e then (map snd newest_first, used)
      else let '(flags, used) := fillLoop budgetTokens (used + aeCost e) r in (true :: flags, used)
  end.
(** The loop that cuts tool responses the window would open on; nothing when
    it reaches a protected one, with what is used by then. *)
Fixpoint trimLoop (used : Z) (oldest_first : list (row * bool)) : (list bool * Z) + Z :=
  match oldest_first with
  | [] => inl ([], used)
  | (e, selected, current) :: r =>
      let skip flag used := match trimLoop used r with inl (flags, used) => inl (flag :: flags, used) | inr used => inr used end in
      if negb selected || aePinned e then skip selected used
      else if negb (aeToolResponse e) then inl (map (fun rc => snd (fst rc)) oldest_first, used)
      else if current then inr used
      else skip false (used - aeCost e)
  end.
Definition AdmitContextEntries (entries : list AdmissionEntry) (budgetTokens : Z) : AdmissionDecision :=
  match entries with
  | [] => mkDecision [] 0 0 0 false
  | _ =>
      let total := fold_right (fun e n => aeCost e + n) 0 entries in
      let current := ProtectedAdmissionEntries entries budgetTokens in
      let overflow used := mkDecision [] total used 0 true in
      let finish selected used :=
        match trimLoop used (zip (zip entries selected) current) with
        | inr used => overflow used
        | inl (selected, used) => mkDecision selected total used (Z.of_nat (countb negb selected)) false
        end in
      if (budgetTokens <=? 0) || (total <=? budgetTokens) then finish (map (fun _ => true) entries) total
      else
        let kept := zip_with (fun e c => aePinned e || c) entries current in
        let used := cost_where snd (zip entries kept) in
        if budgetTokens <? used then overflow used
        else
          let '(flags, used) := fillLoop budgetTokens used (reverse (zip entries kept)) in
          finish (reverse flags) used
  end.

(** ** Lengths and costs *)
Definition total_cost (entries : list AdmissionEntry) : Z := fold_right (fun e n => aeCost e + n) 0 entries.
(** The tokens of the flagged entries. *)
Definition flagged (entries : list AdmissionEntry) (flags : list bool) : Z := cost_where snd (zip entries flags).
Definition raw_at (entries : list AdmissionEntry) (i : nat) (e : AdmissionEntry) : Prop := entries !! i = Some e /\ aePinned e = false.

Lemma cost_where_cons p r l : cost_where p (r :: l) = (if p r then aeCost r.1 else 0) + cost_where p l.
Proof. done. Qed.
Lemma cost_where_app p a b : cost_where p (a ++ b) = cost_where p a + cost_where p b.
Proof. induction a as [|r a IH]; [done|]. cbn [app]. rewrite !cost_where_cons, IH. lia. Qed.
Lemma cost_where_perm p a b : a ≡ₚ b -> cost_where p a = cost_where p b.
Proof. induction 1; rewrite ?cost_where_cons; lia. Qed.
Lemma cost_where_reverse p l : cost_where p (reverse l) = cost_where p l.
Proof. apply cost_where_perm, reverse_Permutation. Qed.
Lemma cost_where_mono p q l : Forall (fun r => 0 <= aeCost r.1) l -> (forall r, r ∈ l -> p r = true -> q r = true) ->
  cost_where p l <= cost_where q l.
Proof.
  induction 1 as [|r l Hr Hl IH]; intros Hpq; [done|]. rewrite !cost_where_cons. specialize (IH (fun x Hx => Hpq x ltac:(by right))).
  specialize (Hpq r ltac:(by left)). destruct (p r); [rewrite Hpq by done; lia|]. destruct (q r); lia.
Qed.
Lemma cost_where_nonneg p l : Forall (fun r => 0 <= aeCost r.1) l -> 0 <= cost_where p l.
Proof. intros H. induction H as [|r l Hr Hl IH]; [done|]. rewrite cost_where_cons. destruct (p r); lia. Qed.
Lemma cost_where_ext p q l : (forall r, r ∈ l -> p r = q r) -> cost_where p l = cost_where q l.
Proof.
  induction l as [|r l IH]; intros H; [done|]. rewrite !cost_where_cons, (H r) by by left. rewrite IH; [done|]. intros x Hx. apply H. by right.
Qed.
Lemma current_length entries : length (CurrentAdmissionEntries entries) = length entries.
Proof. unfold CurrentAdmissionEntries. case_if; [apply length_map|apply length_imap]. Qed.
Lemma protectLoop_length limit used rows : length (protectLoop limit used rows) = length rows.
Proof.
  revert used. induction rows as [|[e c] rows IH]; intros used; [done|]. cbn [protectLoop].
  repeat case_if; cbn [length]; rewrite ?IH; try done. by rewrite length_map.
Qed.
Lemma zip_length {A} (entries : list A) (flags : list bool) : length flags = length entries -> length (zip entries flags) = length entries.
Proof. intros H. rewrite length_zip_with. lia. Qed.
Lemma protected_length entries budget : length (ProtectedAdmissionEntries entries budget) = length entries.
Proof.
  unfold ProtectedAdmissionEntries. cbv zeta. repeat case_if; try apply current_length.
  rewrite length_reverse, protectLoop_length, length_reverse. apply zip_length, current_length.
Qed.

(** ** The protected entries *)
Lemma protectLoop_current limit used rows i r : protectLoop limit used rows !! i = Some true -> rows !! i = Some r ->
  r.2 = true /\ aePinned r.1 = false.
Proof.
  revert used i. induction rows as [|[e x] rows IH]; intros used i; [done|]. cbn [protectLoop].
  destruct (negb x || aePinned e) eqn:E.
  - destruct i; [done|]. apply IH.
  - case_if.
    + intros (y & Hy & _)%list_lookup_fmap_Some. by cbn in Hy.
    + destruct i; [intros _ [= <-]; by bool_hyps|]. apply IH.
Qed.
(** The flags of a reversed walk, put back in order. *)
Lemma reverse_flag (flags : list bool) (rows : list row) i b r : length flags = length rows ->
  reverse flags !! i = Some b -> rows !! i = Some r -> exists j, flags !! j = Some b /\ reverse rows !! j = Some r.
Proof.
  intros Hl Hf Hr. apply reverse_lookup_Some in Hf as [Hf Hi]. exists (length flags - S i)%nat. split; [done|].
  apply reverse_lookup_Some. split; [|lia]. rewrite <- Hr. f_equal. lia.
Qed.
Lemma protected_current entries budget i : ProtectedAdmissionEntries entries budget !! i = Some true ->
  CurrentAdmissionEntries entries !! i = Some true.
Proof.
  unfold ProtectedAdmissionEntries. cbv zeta. repeat case_if; try done. intros H.
  pose proof (lookup_lt_Some _ _ _ H) as Hi. rewrite length_reverse, protectLoop_length, length_reverse in Hi.
  destruct (lookup_lt_is_Some_2 _ _ Hi) as [r Hr].
  destruct (reverse_flag _ (zip entries (CurrentAdmissionEntries entries)) i true r ltac:(by rewrite protectLoop_length, length_reverse) H Hr) as (j & Hf & Hj).
  destruct (protectLoop_current _ _ _ _ _ Hf Hj) as [Hc _].
  apply lookup_zip_with_Some in Hr as (e & c & -> & _ & Hcur). cbn in Hc. by subst c.
Qed.

(** ** The loops *)
Lemma reverse_zip {A B} (l : list A) (k : list B) : length l = length k -> reverse (zip l k) = zip (reverse l) (reverse k).
Proof.
  revert k. induction l as [|x l IH]; intros [|y k] H; try done. cbn [zip_with]. rewrite !reverse_cons, IH by (by injection H).
  rewrite zip_with_app; [done|]. rewrite !length_reverse. by injection H.
Qed.
Lemma fill_spec budget used rows : let '(flags, used') := fillLoop budget used rows in
  (exists k, (k <= length rows)%nat /\ flags = replicate k true ++ drop k rows.*2) /\
  used + cost_where snd (zip rows.*1 flags) = used' + cost_where snd rows /\ (used <= budget -> used' <= budget).
Proof.
  revert used. induction rows as [|[e s] rows IH]; intros used; cbn [fillLoop]; [split_and!; [by exists 0%nat|done|done]|].
  destruct s.
  - specialize (IH used). destruct (fillLoop budget used rows) as [flags used']. destruct IH as ((k & Hk & ->) & Hc & Hb).
    split_and!; [exists (S k); split; [cbn; lia|done]| |done]. change (zip ?a (true :: ?f)) with (zip a (true :: f)).
    cbn [fmap list_fmap fst zip_with]. rewrite !cost_where_cons. cbn [snd fst]. lia.
  - destruct (budget <? used + aeCost e) eqn:E.
    + split_and!; [exists 0%nat; split; [lia|done]| |done]. change (map snd ((e, false) :: rows)) with (((e, false) :: rows).*2).
      by rewrite zip_fst_snd.
    + bool_hyps. specialize (IH (used + aeCost e)). destruct (fillLoop budget (used + aeCost e) rows) as [flags used'].
      destruct IH as ((k & Hk & ->) & Hc & Hb). split_and!; [exists (S k); split; [cbn; lia|done]| |intros _; by apply Hb].
      cbn [fmap list_fmap fst zip_with]. rewrite !cost_where_cons. cbn [snd fst]. lia.
Qed.
(** A tool response the window must not open on. *)
Definition cuttable (rc : row * bool) : Prop := rc.1.2 = true -> aePinned rc.1.1 = false -> aeToolResponse rc.1.1 = true /\ rc.2 = false.
Definition cut_row (rc : row * bool) : bool := rc.1.2 && aePinned rc.1.1.
Definition opens (rc : row * bool) : Prop := rc.1.2 = true /\ aePinned rc.1.1 = false /\ aeToolResponse rc.1.1 = false.
Lemma trim_spec used rows :
  match trimLoop used rows with
  | inl (flags, used') => exists m, (m <= length rows)%nat /\ flags = map cut_row (take m rows) ++ drop m rows.*1.*2 /\
      Forall cuttable (take m rows) /\ (forall rc, rows !! m = Some rc -> opens rc) /\
      used + cost_where snd (zip rows.*1.*1 flags) = used' + cost_where snd rows.*1
  | inr _ => exists m rc, rows !! m = Some rc /\ rc.1.2 = true /\ aePinned rc.1.1 = false /\ aeToolResponse rc.1.1 = true /\ rc.2 = true
  end.
Proof.
  revert used. induction rows as [|[[e s] c] rows IH]; intros used; cbn [trimLoop]; [by exists 0%nat|].
  assert (Hskip : forall flag u, s && aePinned e = flag -> cuttable (e, s, c) ->
    u = used + (if flag then aeCost e else 0) - (if s then aeCost e else 0) ->
    match match trimLoop u rows with inl (flags, used) => inl (flag :: flags, used) | inr used => inr used end with
    | inl (flags, used') => exists m, (m <= length ((e, s, c) :: rows))%nat /\ flags = map cut_row (take m ((e, s, c) :: rows)) ++ drop m ((e, s, c) :: rows).*1.*2 /\
        Forall cuttable (take m ((e, s, c) :: rows)) /\ (forall rc, ((e, s, c) :: rows) !! m = Some rc -> opens rc) /\
        used + cost_where snd (zip ((e, s, c) :: rows).*1.*1 flags) = used' + cost_where snd ((e, s, c) :: rows).*1
    | inr _ => exists m rc, ((e, s, c) :: rows) !! m = Some rc /\ rc.1.2 = true /\ aePinned rc.1.1 = false /\ aeToolResponse rc.1.1 = true /\ rc.2 = true
    end).
  { intros flag u Hflag Hcut Hu. specialize (IH u). destruct (trimLoop u rows) as [[flags used']|u'].
    - destruct IH as (m & Hm & -> & Hall & Hop & Hc). exists (S m). split_and!.
      + by apply le_n_S.
      + cbn. unfold cut_row at 2. cbn. by rewrite Hflag.
      + cbn [take]. by constructor.
      + done.
      + cbn [fmap list_fmap fst zip_with]. rewrite !cost_where_cons. cbn [fst snd]. lia.
    - destruct IH as (m & rc & Hm & H). by exists (S m), rc. }
  destruct (negb s || aePinned e) eqn:E.
  - apply Hskip; [|intros Hs Hp; cbn in *; subst; by rewrite Hp in E|]; destruct s, (aePinned e); cbn in *; try done; lia.
  - apply orb_false_iff in E as [Es Ep]. apply negb_false_iff in Es. subst s. destruct (aeToolResponse e) eqn:Et; cbn [negb].
    + destruct c; [exists 0%nat; eexists; split; [reflexivity|done]|]. apply Hskip; [by rewrite Ep|done|cbn; lia].
    + assert (Hmap : map (fun rc : row * bool => snd (fst rc)) ((e, true, c) :: rows) = ((e, true, c) :: rows).*1.*2)
        by by rewrite <- list_fmap_compose.
      rewrite Hmap. exists 0%nat. split_and!; [lia|done|constructor| |].
      * by intros rc [= <-].
      * by rewrite zip_fst_snd.
Qed.

(** ** The shape of a selection *)
(** The flag of the entry at [i], for a window that starts at [w], cut to
    start at [m]: pinned entries stay, the others inside the window or
    protected, unless they were cut. *)
Definition flag_at (e : AdmissionEntry) (prot : bool) (w m i : nat) : bool :=
  aePinned e || (bool_decide (m <= i)%nat && (bool_decide (w <= i)%nat || prot)).
Definition shape (entries : list AdmissionEntry) (prot : list bool) (selected : list bool) (w m : nat) : Prop :=
  length selected = length entries /\
  (forall i e p, entries !! i = Some e -> prot !! i = Some p -> selected !! i = Some (flag_at e p w m i)) /\
  (forall i e p, entries !! i = Some e -> prot !! i = Some p -> aePinned e = false -> bool_decide (w <= i)%nat || p = true ->
     ((i < m)%nat -> aeToolResponse e = true /\ p = false) /\ (i = m -> aeToolResponse e = false)) /\
  (forall e p, entries !! m = Some e -> prot !! m = Some p -> aePinned e = false /\ bool_decide (w <= m)%nat || p = true).
Definition before_cut (entries : list AdmissionEntry) (prot sel : list bool) (w : nat) : Prop :=
  length sel = length entries /\
  forall i e p, entries !! i = Some e -> prot !! i = Some p -> sel !! i = Some (bool_decide (w <= i)%nat || aePinned e || p).
Lemma flagged_mono entries (f sel : list bool) : Forall (fun e => 0 <= aeCost e) entries ->
  length sel = length entries -> length f = length entries ->
  (forall i b, f !! i = Some b -> exists b', sel !! i = Some b' /\ (b = true -> b' = true)) -> flagged entries f <= flagged entries sel.
Proof.
  unfold flagged. intros Hnn. revert f sel. induction Hnn as [|e es He Hes IH]; intros [|b f] [|s sel] Hls Hl Hle; try done.
  cbn [zip_with]. rewrite !cost_where_cons. cbn [fst snd].
  specialize (IH f sel ltac:(by injection Hls) ltac:(by injection Hl) (fun i => Hle (S i))).
  destruct (Hle 0%nat b eq_refl) as (b' & [= <-] & Hb). destruct b; [rewrite Hb by done; lia|]. destruct s; lia.
Qed.
Lemma zip3_lookup (entries : list AdmissionEntry) (sel prot : list bool) i e s p :
  entries !! i = Some e -> sel !! i = Some s -> prot !! i = Some p -> zip (zip entries sel) prot !! i = Some (e, s, p).
Proof. intros H1 H2 H3. apply lookup_zip_with_Some. exists (e, s), p. split_and!; [done| |done]. apply lookup_zip_with_Some. by exists e, s. Qed.
Lemma trim_shape entries prot sel w used : length prot = length entries -> before_cut entries prot sel w -> used = flagged entries sel ->
  match trimLoop used (zip (zip entries sel) prot) with
  | inl (selected, used') => (exists m, shape entries prot selected w m) /\ used' = flagged entries selected /\
      (Forall (fun e => 0 <= aeCost e) entries -> used' <= used)
  | inr _ => exists i e, raw_at entries i e /\ aeToolResponse e = true /\ prot !! i = Some true
  end.
Proof.
  intros Hlp [Hls Hsel] ->. set (rows := zip (zip entries sel) prot).
  assert (H1 : rows.*1 = zip entries sel) by (apply fst_zip; rewrite zip_length by done; lia).
  assert (H2 : rows.*1.*1 = entries) by (rewrite H1; apply fst_zip; lia).
  assert (H3 : rows.*1.*2 = sel) by (rewrite H1; apply snd_zip; lia).
  assert (Hlen : length rows = length entries) by (unfold rows; rewrite length_zip_with, zip_length by done; lia).
  assert (Hrow : forall i rc, rows !! i = Some rc -> entries !! i = Some rc.1.1 /\ sel !! i = Some rc.1.2 /\ prot !! i = Some rc.2).
  { intros i rc ([e s] & p & -> & (e' & s' & [= -> ->] & He & Hs)%lookup_zip_with_Some & Hp)%lookup_zip_with_Some. done. }
  pose proof (trim_spec (flagged entries sel) rows) as H. destruct (trimLoop _ rows) as [[selected used']|u].
  - destruct H as (m & Hm & Hfl & Hcut & Hop & Hc). rewrite H2, H1 in Hc. fold (flagged entries selected) (flagged entries sel) in Hc.
    split_and!; [|lia|].
    + exists m. rewrite H3 in Hfl. subst selected. unfold shape. split_and!.
      * rewrite length_app, length_map, length_take, length_drop. lia.
      * intros i e p He Hp. pose proof (Hsel i e p He Hp) as Hs. unfold flag_at. destruct (decide (i < m)%nat) as [Hi|Hi].
        -- rewrite lookup_app_l by (rewrite length_map, length_take; lia).
           rewrite list_lookup_fmap, lookup_take_lt by done. unfold rows. rewrite (zip3_lookup _ _ _ _ _ _ _ He Hs Hp). cbn. unfold cut_row. cbn.
           f_equal. rewrite (bool_decide_false (m <= i)%nat) by lia. destruct (aePinned e); [by rewrite orb_true_r|by rewrite andb_false_r].
        -- rewrite lookup_app_r by (rewrite length_map, length_take; lia). rewrite lookup_drop, length_map, length_take.
           replace (m + (i - m `min` length rows))%nat with i by lia. rewrite Hs. f_equal.
           rewrite (bool_decide_true (m <= i)%nat) by lia. cbn. destruct (aePinned e), (bool_decide (w <= i)%nat); by rewrite ?orb_true_r.
      * intros i e p He Hp Hraw Hin. pose proof (zip3_lookup _ _ _ _ _ _ _ He (Hsel i e p He Hp) Hp) as Hi. fold rows in Hi.
        assert (Hs : bool_decide (w <= i)%nat || aePinned e || p = true) by (rewrite Hraw, orb_false_r; done). split.
        -- intros Hlt. rewrite Forall_forall in Hcut. apply (Hcut (e, bool_decide (w <= i)%nat || aePinned e || p, p)); [|done|done].
           apply (list_elem_of_lookup_2 _ i). by rewrite lookup_take_lt.
        -- intros ->. by apply Hop in Hi as (_ & _ & ?).
      * intros e p He Hp. pose proof (zip3_lookup _ _ _ _ _ _ _ He (Hsel m e p He Hp) Hp) as Hi. fold rows in Hi.
        apply Hop in Hi as (Hs & Hraw & _). cbn in *. rewrite Hraw, orb_false_r in Hs. done.
    + intros Hnn. assert (flagged entries selected <= flagged entries sel); [|lia]. subst selected.
      rewrite H3. clear -Hnn Hls Hm Hlen Hrow H1 H2 H3 Hcut.
      assert (Hle : forall i b, (map cut_row (take m rows) ++ drop m sel) !! i = Some b -> exists b', sel !! i = Some b' /\ (b = true -> b' = true)).
      { intros i b [Hi|[Hge Hi]]%lookup_app_Some.
        - apply list_lookup_fmap_Some in Hi as (rc & -> & Hrc). apply lookup_take_Some in Hrc as [Hrc _]. destruct (Hrow i rc Hrc) as (_ & ? & _).
          eexists; split; [done|]. unfold cut_row. intros ?. by bool_hyps.
        - rewrite length_map, length_take in *. rewrite lookup_drop in Hi. exists b. split; [|done]. rewrite <- Hi. f_equal. lia. }
      apply (flagged_mono entries _ sel Hnn Hls); [rewrite length_app, length_map, length_take, length_drop; lia|exact Hle].
  - destruct H as (m & rc & Hrc & Hs & Hp & Ht & Hc). destruct (Hrow m rc Hrc) as (He & _ & Hpm). exists m, rc.1.1. rewrite Hpm, Hc. done.
Qed.
Lemma fill_before_cut entries prot kept budget used : length prot = length entries -> length kept = length entries ->
  (forall i e p, entries !! i = Some e -> prot !! i = Some p -> kept !! i = Some (aePinned e || p)) -> used = flagged entries kept ->
  let '(flags, used') := fillLoop budget used (reverse (zip entries kept)) in
  (exists w, before_cut entries prot (reverse flags) w) /\ used' = flagged entries (reverse flags) /\ (used <= budget -> used' <= budget).
Proof.
  intros Hlp Hlk Hkept ->. pose proof (fill_spec budget (flagged entries kept) (reverse (zip entries kept))) as H.
  destruct (fillLoop _ _ _) as [flags used']. destruct H as ((k & Hk & ->) & Hc & Hb).
  rewrite length_reverse, zip_length in Hk by done. rewrite reverse_zip in Hc |- * by done.
  rewrite fst_zip in Hc by (rewrite !length_reverse; lia). rewrite snd_zip in Hc |- * by (rewrite !length_reverse; lia).
  set (flags := replicate k true ++ drop k (reverse kept)) in *.
  assert (Hlf : length flags = length entries) by (unfold flags; rewrite length_app, length_replicate, length_drop, length_reverse; lia).
  assert (Hrev : reverse flags = take (length entries - k) kept ++ replicate k true).
  { unfold flags. rewrite reverse_app, reverse_replicate, reverse_drop, reverse_involutive, length_reverse. by rewrite Hlk. }
  split_and!; [|assert (Hs : cost_where snd (zip (reverse entries) (reverse kept)) = flagged entries kept)|done].
  - exists (length entries - k)%nat. split; [by rewrite length_reverse|]. intros i e p He Hp. rewrite Hrev.
    pose proof (lookup_lt_Some _ _ _ He) as Hi. destruct (decide (i < length entries - k)%nat) as [Hlt|Hge].
    + rewrite lookup_app_l by (rewrite length_take; lia). rewrite lookup_take_lt, (Hkept i e p He Hp) by done.
      by rewrite bool_decide_false by lia.
    + rewrite lookup_app_r, length_take by (rewrite length_take; lia). rewrite lookup_replicate_2 by lia.
      by rewrite bool_decide_true by lia.
  - rewrite <- reverse_zip by done. apply cost_where_reverse.
  - assert (Hf : cost_where snd (zip (reverse entries) flags) = flagged entries (reverse flags)).
    { unfold flagged. rewrite <- (cost_where_reverse snd (zip entries _)), reverse_zip by (by rewrite length_reverse). by rewrite reverse_involutive. }
    lia.
Qed.

(** ** The decision *)
Definition kept_flags (entries : list AdmissionEntry) (prot : list bool) : list bool := zip_with (fun e c => aePinned e || c) entries prot.
Lemma kept_lookup entries prot i e p : entries !! i = Some e -> prot !! i = Some p -> kept_flags entries prot !! i = Some (aePinned e || p).
Proof. intros He Hp. apply lookup_zip_with_Some. by exists e, p. Qed.
Lemma all_flagged entries : flagged entries (map (fun _ => true) entries) = total_cost entries.
Proof. unfold flagged, total_cost. induction entries as [|e es IH]; [done|]. cbn [map zip_with fold_right]. rewrite cost_where_cons, IH. done. Qed.
Definition accepted (entries : list AdmissionEntry) (budget : Z) (prot : list bool) (d : AdmissionDecision) : Prop :=
  (exists w m, shape entries prot (adSelected d) w m) /\ adSelectedTokens d = flagged entries (adSelected d) /\
  adDroppedEntries d = Z.of_nat (countb negb (adSelected d)) /\
  (Forall (fun e => 0 <= aeCost e) entries -> 0 < budget -> adSelectedTokens d <= budget).
Definition rejected (entries : list AdmissionEntry) (budget : Z) (prot : list bool) : Prop :=
  (0 < budget /\ budget < flagged entries (kept_flags entries prot)) \/
  (exists i e, raw_at entries i e /\ aeToolResponse e = true /\ prot !! i = Some true).
Lemma admit_spec entries budget : entries <> [] -> let d := AdmitContextEntries entries budget in
  let prot := ProtectedAdmissionEntries entries budget in
  adEstimatedTokens d = total_cost entries /\
  if adProtectedOverflow d then rejected entries budget prot else accepted entries budget prot d.
Proof.
  intros Hne. cbv zeta. unfold AdmitContextEntries. destruct entries as [|e0 es]; [done|]. set (entries := e0 :: es) in *. cbv zeta.
  set (prot := ProtectedAdmissionEntries entries budget). assert (Hlp : length prot = length entries) by apply protected_length.
  fold (total_cost entries).
  assert (Hfinish : forall sel used w, before_cut entries prot sel w -> used = flagged entries sel ->
    (Forall (fun e => 0 <= aeCost e) entries -> 0 < budget -> used <= budget) ->
    let d := match trimLoop used (zip (zip entries sel) prot) with
             | inr used => mkDecision [] (total_cost entries) used 0 true
             | inl (selected, used) => mkDecision selected (total_cost entries) used (Z.of_nat (countb negb selected)) false end in
    adEstimatedTokens d = total_cost entries /\ if adProtectedOverflow d then rejected entries budget prot else accepted entries budget prot d).
  { intros sel used w Hb Hu Hle. pose proof (trim_shape entries prot sel w used Hlp Hb Hu) as H. cbv zeta.
    destruct (trimLoop _ _) as [[selected used']|u]; cbn; (split; [done|]).
    - destruct H as ([m Hm] & Hc & Hle'). unfold accepted; cbn. split_and!; [by exists w, m|done|done|].
      intros Hnn Hpos. specialize (Hle Hnn Hpos). specialize (Hle' Hnn). lia.
    - by right. }
  destruct ((budget <=? 0) || (total_cost entries <=? budget)) eqn:E.
  - apply (Hfinish _ _ 0%nat); [|by rewrite all_flagged|].
    + split; [apply length_map|]. intros i e p He _. rewrite list_lookup_fmap, He. done.
    + intros _ Hpos. apply orb_true_iff in E as [?|?]; bool_hyps; lia.
  - apply orb_false_iff in E as [E1 E2]. bool_hyps. fold (kept_flags entries prot). fold (flagged entries (kept_flags entries prot)).
    destruct (budget <? flagged entries (kept_flags entries prot)) eqn:Eo; bool_hyps; [split; [done|]; by left|].
    assert (Hlk : length (kept_flags entries prot) = length entries) by (unfold kept_flags; rewrite length_zip_with; lia).
    pose proof (fill_before_cut entries prot (kept_flags entries prot) budget _ Hlp Hlk (kept_lookup entries prot) eq_refl) as H.
    destruct (fillLoop _ _ _) as [flags used']. destruct H as ([w Hw] & Hc & Hle). apply (Hfinish _ _ w Hw Hc). intros _ _. by apply Hle.
Qed.

(** An admitted context fits the budget and is well shaped: what it selects
    costs at most the budget, every pinned entry is in it, of two entries that
    are neither pinned nor protected the newer one is never dropped while the
    older one stays, and the first entry that is not pinned is not the response
    of a tool whose call was cut. *)
Theorem admission_fits_budget (entries : list AdmissionEntry) (budget : Z) (Hcost : Forall (fun e => 0 <= aeCost e) entries)
    (Hok : adProtectedOverflow (AdmitContextEntries entries budget) = false) :
  let selected := adSelected (AdmitContextEntries entries budget) in
  let prot := ProtectedAdmissionEntries entries budget in
  (0 < budget -> flagged entries selected <= budget) /\ length selected = length entries /\
  (forall i e, entries !! i = Some e -> aePinned e = true -> selected !! i = Some true) /\
  (forall i j e e', (i < j)%nat -> raw_at entries i e -> raw_at entries j e' -> prot !! i = Some false ->
     selected !! i = Some true -> selected !! j = Some true) /\
  (forall i e, raw_at entries i e -> selected !! i = Some true ->
     (forall j e', (j < i)%nat -> raw_at entries j e' -> selected !! j = Some false) -> aeToolResponse e = false).
Proof.
  cbv zeta. destruct (decide (entries = [])) as [->|Hne]; [unfold raw_at; cbn; split_and!; naive_solver lia|].
  destruct (admit_spec entries budget Hne) as [_ H]. rewrite Hok in H. destruct H as ((w & m & Hs) & Ht & _ & Hb).
  destruct Hs as (Hl & Hflag & Hcut & Hopen). pose proof (protected_length entries budget) as Hlp. rewrite <- Ht.
  set (prot := ProtectedAdmissionEntries entries budget) in *.
  assert (Hprot : forall i e, entries !! i = Some e -> exists p, prot !! i = Some p).
  { intros i e He. apply lookup_lt_is_Some_2. rewrite Hlp. by eapply lookup_lt_Some. }
  split_and!; [by apply Hb|done| | |].
  - intros i e He Hp. destruct (Hprot i e He) as [p Hpi]. rewrite (Hflag i e p He Hpi). unfold flag_at. by rewrite Hp.
  - intros i j e e' Hij [He Hr] [He' Hr'] Hpi Hi. destruct (Hprot j e' He') as [p' Hpj]. rewrite (Hflag j e' p' He' Hpj).
    rewrite (Hflag i e false He Hpi) in Hi. injection Hi as Hi. unfold flag_at in *. rewrite Hr in Hi. cbn in Hi.
    rewrite orb_false_r in Hi. bool_hyps. rewrite (bool_decide_true (m <= j)%nat), (bool_decide_true (w <= j)%nat) by lia. by rewrite orb_true_r.
  - intros i e [He Hr] Hi Hbefore. destruct (Hprot i e He) as [p Hpi]. rewrite (Hflag i e p He Hpi) in Hi. injection Hi as Hi.
    unfold flag_at in Hi. rewrite Hr in Hi. cbn in Hi. apply andb_true_iff in Hi as [Hm Hin]. bool_hyps.
    destruct (Hcut i e p He Hpi Hr Hin) as [_ Hc]. destruct (decide (i = m)) as [->|Hne']; [by apply Hc|].
    destruct (lookup_lt_is_Some_2 entries m) as [em Hem]; [apply lookup_lt_Some in He; lia|]. destruct (Hprot m em Hem) as [pm Hpm].
    destruct (Hopen em pm Hem Hpm) as [Hrm Hinm]. specialize (Hbefore m em ltac:(lia) (conj Hem Hrm)).
    rewrite (Hflag m em pm Hem Hpm) in Hbefore. unfold flag_at in Hbefore. rewrite Hrm, Hinm in Hbefore.
    by rewrite bool_decide_true in Hbefore by lia.
Qed.

(** ** When the decision fails *)
Definition pinned_cost (entries : list AdmissionEntry) : Z := flagged entries (map aePinned entries).
(** The newest current entry that is not pinned. *)
Definition newest_current (entries : list AdmissionEntry) (i : nat) (e : AdmissionEntry) : Prop :=
  raw_at entries i e /\ CurrentAdmissionEntries entries !! i = Some true /\
  forall j e', (i < j)%nat -> raw_at entries j e' -> CurrentAdmissionEntries entries !! j = Some false.
Lemma protect_more limit used rows : 0 < used -> Forall (fun r => 0 <= aeCost r.1) rows ->
  let c := cost_where snd (zip rows.*1 (protectLoop limit used rows)) in c = 0 \/ used + c <= limit.
Proof.
  cbv zeta. revert used. induction rows as [|[e x] rows IH]; intros used Hu Hn; [by left|].
  apply Forall_cons in Hn as [He Hn]. cbn [fst] in He. cbn [protectLoop]. case_if.
  - cbn [fmap list_fmap fst zip_with]. rewrite cost_where_cons. cbn [snd]. by apply IH.
  - case_if.
    + left. clear. generalize ((e, x) :: rows) as l. induction l as [|r l IH]; [done|]. cbn [map fmap list_fmap zip_with]. by rewrite cost_where_cons.
    + apply andb_false_iff in Heqb0 as [?|?]; bool_hyps; [lia|].
      cbn [fmap list_fmap fst zip_with]. rewrite cost_where_cons. cbn [snd fst].
      destruct (IH (used + Z.max 1 (aeCost e)) ltac:(lia) Hn); lia.
Qed.
Lemma protect_first limit rows : Forall (fun r => 0 <= aeCost r.1) rows ->
  let c := cost_where snd (zip rows.*1 (protectLoop limit 0 rows)) in
  c = 0 \/ exists i e, rows !! i = Some (e, true) /\ aePinned e = false /\
    (forall j r, (j < i)%nat -> rows !! j = Some r -> aePinned r.1 = false -> r.2 = false) /\ (c <= aeCost e \/ c <= limit).
Proof.
  cbv zeta. induction rows as [|[e x] rows IH]; intros Hn; [by left|].
  apply Forall_cons in Hn as [He Hn]. cbn [fst] in He. cbn [protectLoop]. case_if.
  - cbn [fmap list_fmap fst zip_with]. rewrite cost_where_cons. cbn [snd fst]. destruct (IH Hn) as [->|(i & e' & H1 & H2 & H3 & H4)]; [by left|].
    right. exists (S i), e'. split_and!; [done|done| |lia]. intros [|j] r Hj; [|apply H3; lia]. intros [= <-]. cbn. intros Hr.
    rewrite Hr, orb_false_r in Heqb. by apply negb_true_iff in Heqb.
  - right. apply orb_false_iff in Heqb as [Hx Hp]. apply negb_false_iff in Hx. subst x. exists 0%nat, e. split_and!; [done|done|lia|].
    cbn [andb Z.ltb Z.compare]. cbn [fmap list_fmap fst zip_with]. rewrite cost_where_cons. cbn [snd fst].
    destruct (protect_more limit (0 + Z.max 1 (aeCost e)) rows ltac:(lia) Hn); lia.
Qed.
Lemma flagged_kept entries prot : length prot = length entries ->
  flagged entries (kept_flags entries prot) = pinned_cost entries + cost_where (fun r => negb (aePinned r.1) && r.2) (zip entries prot).
Proof.
  unfold flagged, pinned_cost, kept_flags. revert prot. induction entries as [|e es IH]; intros [|p prot] H; try done.
  unfold flagged in *. cbn [zip_with map]. rewrite !cost_where_cons, IH by by injection H. cbn [fst snd]. destruct (aePinned e), p; cbn; lia.
Qed.
Lemma pinned_where entries (flags : list bool) : length flags = length entries ->
  cost_where (fun r => aePinned r.1) (zip entries flags) = pinned_cost entries.
Proof.
  unfold pinned_cost, flagged. revert flags. induction entries as [|e es IH]; intros [|p prot] H; try done.
  cbn [zip_with map]. rewrite !cost_where_cons, IH by by injection H. done.
Qed.

(** The decision fails closed only when it has to: when the pinned entries
    and the newest current one do not fit the budget together, or when a
    protected entry is itself the response of a tool. *)
Theorem admission_fails_only_when_forced (entries : list AdmissionEntry) (budget : Z) (Hcost : Forall (fun e => 0 <= aeCost e) entries)
    (Hfail : adProtectedOverflow (AdmitContextEntries entries budget) = true) :
  (0 < budget < pinned_cost entries) \/
  (exists i e, newest_current entries i e /\ 0 < budget < pinned_cost entries + aeCost e) \/
  (exists i e, raw_at entries i e /\ aeToolResponse e = true /\ CurrentAdmissionEntries entries !! i = Some true).
Proof.
  destruct (decide (entries = [])) as [->|Hne]; [done|]. destruct (admit_spec entries budget Hne) as [_ H]. rewrite Hfail in H.
  pose proof (protected_current entries budget) as Hpc. destruct H as [[Hpos H]|(i & e & Hi & Ht & Hp)]; [|right; right; exists i, e; auto].
  rewrite flagged_kept in H by apply protected_length. clear Hpc. unfold ProtectedAdmissionEntries in H. cbv zeta in H.
  pose proof (current_length entries) as Hlc. rewrite (proj2 (Z.leb_gt budget 0)) in H by lia. rewrite pinned_where in H by done.
  destruct (_ <=? budget) eqn:E; bool_hyps; [lia|]. set (limit := budget - budget / 10 - pinned_cost entries) in *.
  set (rows := zip entries (CurrentAdmissionEntries entries)) in *. pose proof (zip_length entries _ Hlc) as Hlr. fold rows in Hlr.
  assert (Hc : cost_where (fun r => negb (aePinned r.1) && r.2) (zip entries (reverse (protectLoop limit 0 (reverse rows)))) =
    cost_where snd (zip (reverse rows).*1 (protectLoop limit 0 (reverse rows)))).
  { assert (Hrow : (reverse rows).*1 = reverse entries) by (unfold rows; rewrite fmap_reverse, fst_zip by lia; done).
    assert (Hl : length (protectLoop limit 0 (reverse rows)) = length entries) by (rewrite protectLoop_length, length_reverse; lia).
    rewrite <- (cost_where_reverse _ (zip entries _)), reverse_zip, reverse_involutive, Hrow by (by rewrite length_reverse).
    apply cost_where_ext. intros [e f] Hef. cbn. destruct f; [|by rewrite andb_false_r]. rewrite andb_true_r.
    apply list_elem_of_lookup in Hef as [j (e' & f & [= <- <-] & He & Hf)%lookup_zip_with_Some].
    rewrite <- Hrow in He. apply list_lookup_fmap_Some in He as (r & -> & Hr). by destruct (protectLoop_current _ _ _ _ _ Hf Hr) as [_ ->]. }
  rewrite Hc in H. assert (Hn : Forall (fun r => 0 <= aeCost r.1) (reverse rows)).
  { apply Forall_reverse, Forall_forall. intros [e c] (i & (? & ? & [= <- <-] & He & _)%lookup_zip_with_Some)%list_elem_of_lookup.
    rewrite Forall_forall in Hcost. by eapply Hcost, list_elem_of_lookup_2. }
  destruct (protect_first limit (reverse rows) Hn) as [H0|(i & e & Hi & Hr & Hnew & Hle)]; [left; lia|].
  right. left. apply reverse_lookup_Some in Hi as [Hi Hil]. rewrite Hlr in Hi, Hil. exists (length entries - S i)%nat, e.
  apply lookup_zip_with_Some in Hi as (? & ? & [= <- <-] & He & Hcur). split.
  - split_and!; [done|done|]. intros j e' Hj [He' Hr']. destruct (lookup_lt_is_Some_2 (CurrentAdmissionEntries entries) j) as [c Hcj];
      [rewrite Hlc; by eapply lookup_lt_Some|]. rewrite Hcj. f_equal. apply (Hnew (length entries - S j)%nat (e', c)); [|apply reverse_lookup_Some|done].
    + apply lookup_lt_Some in He'. lia.
    + rewrite Hlr. apply lookup_lt_Some in He' as Hjl. replace (length entries - S (length entries - S j))%nat with j by lia.
      split; [|lia]. apply lookup_zip_with_Some. by exists e', c.
  - assert (0 <= budget / 10) by (apply Z.div_pos; lia). assert (limit <= budget - pinned_cost entries) by (subst limit; lia).
    clearbody limit. lia.
Qed.

(** ** Examples *)
Definition sample_entry (kind : str) (current pinned tool : bool) (cost : Z) : AdmissionEntry :=
  mkEntry (Some (mkSource kind [] current)) cost pinned tool.
Definition sample_history : list AdmissionEntry :=
  [sample_entry (lit "summary") false true false 20; sample_entry (lit "history") false false false 30;
   sample_entry (lit "history") false false true 30; sample_entry (lit "history") false false false 30;
   sample_entry (lit "external") true false false 10].
Lemma sample_nonneg : Forall (fun e => 0 <= aeCost e) sample_history.
Proof. unfold sample_history. repeat constructor; cbn; lia. Qed.
Lemma admission_fits_budget_witness :
  adSelected (AdmitContextEntries sample_history 95) = [true; false; false; true; true] /\
  (0 < 95 -> flagged sample_history (adSelected (AdmitContextEntries sample_history 95)) <= 95).
Proof. split; [reflexivity|]. exact (proj1 (admission_fits_budget sample_history 95 sample_nonneg eq_refl)). Defined.
Lemma admission_fails_only_when_forced_witness : adProtectedOverflow (AdmitContextEntries sample_history 25) = true /\
  ((0 < 25 < pinned_cost sample_history) \/
   (exists i e, newest_current sample_history i e /\ 0 < 25 < pinned_cost sample_history + aeCost e) \/
   (exists i e, raw_at sample_history i e /\ aeToolResponse e = true /\ CurrentAdmissionEntries sample_history !! i = Some true)).
Proof. split; [reflexivity|]. exact (admission_fails_only_when_forced sample_history 25 sample_nonneg eq_refl). Defined.
(** An older protected message hides an orphan from the trim: here the window
    itself opens on the response of a tool whose call did not fit. *)
Definition batch_around_a_tool : list AdmissionEntry :=
  [sample_entry (lit "external") true false false 10; sample_entry (lit "history") false false false 100;
   sample_entry (lit "history") false false true 5; sample_entry (lit "external") true false false 10].
Theorem orphan_behind_protected_entry :
  AdmitContextEntries batch_around_a_tool 40 = mkDecision [true; false; true; true] 125 25 1 false.
Proof. reflexivity. Qed.
