(* ===== verification/Timeline.v ===== *)
(** * The projection of a chat timeline

    Models [internal/chat/timeline/types.go] and [projection.go]: the canonical
    events of a session and the context they are reduced to, a list of message
    and system nodes and the users seen.  Nodes are addressed by position; the
    Go code mutates the message a node points to, here the node is replaced at
    its position.  No other pointer of a node is ever written through, so the
    sharing of senders, contents and attachments between events and nodes does
    not show. *)

From S2P Require Import Prelude GoStr.
#[local] Open Scope Z_scope.

(** ** Events *)
Record CanonicalUser : Type := mkUser { usID : str; usDisplayName : str; usUsername : str; usIsBot : bool }.
Inductive ContentNode : Type :=
  | mkContent (cnType cnText cnLanguage cnURL cnUserID : str) (cnChildren : list ContentNode).
Record Attachment : Type := mkAttachment {
  atType : str; atMimeType : str; atFileName : str; atWidth : Z; atHeight : Z; atDuration : Z; atThumbnailB64 : str;
  atAltText : str; atFilePath : str; atContentHash : str }.
Record ForwardInfo : Type := mkForward {
  fwMessageID : str; fwFromUserID : str; fwFromConversationID : str; fwSender : option CanonicalUser; fwSenderName : str;
  fwDate : Z }.
Record ConversationMeta : Type := mkConversation { cvChannel : str; cvName : str; cvType : str; cvTarget : str }.
Record MessageEvent : Type := mkMessageEvent {
  meSessionID : str; meEventID : str; meEventCursor : Z; meMessageID : str; meSender : option CanonicalUser;
  meReceivedAtMs : Z; meTimestampSec : Z; meUTCOffsetMin : Z; meContent : list ContentNode; meReplyToMessageID : str;
  meReplyToSender : str; meReplyToPreview : str; meForwardInfo : option ForwardInfo; meAttachments : list Attachment;
  meIsSelfSent : bool; meMentionsMe : bool; meRepliesToMe : bool; meConversation : ConversationMeta }.
Record EditEvent : Type := mkEditEvent {
  eeSessionID : str; eeEventID : str; eeEventCursor : Z; eeMessageID : str; eeSender : option CanonicalUser;
  eeReceivedAtMs : Z; eeTimestampSec : Z; eeUTCOffsetMin : Z; eeContent : list ContentNode; eeAttachments : list Attachment }.
Record DeleteEvent : Type := mkDeleteEvent {
  deSessionID : str; deEventID : str; deEventCursor : Z; deMessageIDs : list str; deReceivedAtMs : Z; deTimestampSec : Z;
  deUTCOffsetMin : Z }.
Definition ServiceMembersJoined : str := lit "members_joined".
Definition ServiceMemberLeft : str := lit "member_left".
Definition ServiceChatRenamed : str := lit "chat_renamed".
Definition ServiceChatPhotoChanged : str := lit "chat_photo_changed".
Definition ServiceChatPhotoDeleted : str := lit "chat_photo_deleted".
Definition ServiceMessagePinned : str := lit "message_pinned".
Record ServiceEvent : Type := mkServiceEvent {
  seSessionID : str; seEventID : str; seEventCursor : Z; seAction : str; seActor : option CanonicalUser; seReceivedAtMs : Z;
  seTimestampSec : Z; seUTCOffsetMin : Z; seMembers : list CanonicalUser; seMember : option CanonicalUser; seNewTitle : str;
  seOldTitle : str; sePinnedMessageID : str; sePinnedPreview : str }.
Inductive CanonicalEvent : Type :=
  | EvMessage (e : MessageEvent) | EvEdit (e : EditEvent) | EvDelete (e : DeleteEvent) | EvService (e : ServiceEvent).

(** ** The intermediate context *)
Record ICMessage : Type := mkICMessage {
  imMessageID : str; imSender : option CanonicalUser; imReceivedAtMs : Z; imLastEventCursor : Z; imTimestampSec : Z;
  imUTCOffsetMin : Z; imContent : list ContentNode; imReplyToMessageID : str; imReplyToSender : option CanonicalUser;
  imReplyToPreview : str; imForwardInfo : option ForwardInfo; imAttachments : list Attachment; imEditedAtSec : Z;
  imEditUTCOffsetMin : Z; imDeleted : bool; imIsSelfSent : bool; imMentionsMe : bool; imRepliesToMe : bool;
  imConversation : ConversationMeta }.
Record ICSystemEvent : Type := mkICSystemEvent {
  iyKind : str; iyReceivedAtMs : Z; iyLastEventCursor : Z; iyTimestampSec : Z; iyUTCOffsetMin : Z; iyActor : option CanonicalUser;
  iyUserID : str; iyOldUser : option CanonicalUser; iyNewUser : option CanonicalUser; iyMembers : list CanonicalUser;
  iyMember : option CanonicalUser; iyOldTitle : str; iyNewTitle : str; iyPinnedMessageID : str; iyPinnedPreview : str }.
(** The Go struct has two pointers of which exactly one is set. *)
Inductive ICNode : Type := NMessage (m : ICMessage) | NSystemEvent (e : ICSystemEvent).
Record ICUserState : Type := mkUserState { iuUser : CanonicalUser; iuFirstSeenAtMs : Z; iuLastSeenAtMs : Z; iuMessageCount : Z }.
Record IntermediateContext : Type := mkIC {
  icSessionID : str; icNodes : list ICNode; icUsers : gmap str ICUserState; icChatTitle : str }.
Definition NewEmptyIC (sessionID : str) : IntermediateContext := mkIC sessionID [] ∅ [].
Definition GetReceivedAtMs (n : ICNode) : Z := match n with NMessage m => imReceivedAtMs m | NSystemEvent e => iyReceivedAtMs e end.

(** ** Event cursors *)
Definition MaxJSONSafeEventCursor : Z := 2 ^ 53 - 1.
Definition MaxTrustedEventCursor : Z := MaxJSONSafeEventCursor / 2.
Inductive CursorError : Type := CursorOutsideRange (cursor : Z).
Definition assignEventCursor (event : CanonicalEvent) (cursor : Z) : result CursorError CanonicalEvent :=
  if (cursor <=? 0) || (MaxJSONSafeEventCursor <? cursor) then Err (CursorOutsideRange cursor)
  else Ok match event with
  | EvMessage e => EvMessage (mkMessageEvent (meSessionID e) (meEventID e) cursor (meMessageID e) (meSender e) (meReceivedAtMs e)
      (meTimestampSec e) (meUTCOffsetMin e) (meContent e) (meReplyToMessageID e) (meReplyToSender e) (meReplyToPreview e)
      (meForwardInfo e) (meAttachments e) (meIsSelfSent e) (meMentionsMe e) (meRepliesToMe e) (meConversation e))
  | EvEdit e => EvEdit (mkEditEvent (eeSessionID e) (eeEventID e) cursor (eeMessageID e) (eeSender e) (eeReceivedAtMs e)
      (eeTimestampSec e) (eeUTCOffsetMin e) (eeContent e) (eeAttachments e))
  | EvDelete e => EvDelete (mkDeleteEvent (deSessionID e) (deEventID e) cursor (deMessageIDs e) (deReceivedAtMs e)
      (deTimestampSec e) (deUTCOffsetMin e))
  | EvService e => EvService (mkServiceEvent (seSessionID e) (seEventID e) cursor (seAction e) (seActor e) (seReceivedAtMs e)
      (seTimestampSec e) (seUTCOffsetMin e) (seMembers e) (seMember e) (seNewTitle e) (seOldTitle e) (sePinnedMessageID e)
      (sePinnedPreview e))
  end.
Definition sanitizedEventCursor (cursor : Z) : Z := if (cursor <=? 0) || (MaxTrustedEventCursor <? cursor) then 0 else cursor.

(** ** Plain text *)
Definition replyPreviewMax : nat := 100.
Definition ellipsis : str := encode_rune 8230.
Definition truncate (text : str) (maxLen : nat) : str :=
  let rs := runes text in if (length rs <=? maxLen)%nat then text else encode (take maxLen rs) ++ ellipsis.
Fixpoint contentNodeToPlainText (n : ContentNode) : str :=
  match n with mkContent _ text _ _ _ children => text ++ flat_map contentNodeToPlainText children end.
Definition ContentToPlainText (nodes : list ContentNode) : str := flat_map contentNodeToPlainText nodes.

(** ** Reduction *)
Definition has_id (messageID : str) (n : ICNode) : bool :=
  match n with NMessage m => str_eqb (imMessageID m) messageID | NSystemEvent _ => false end.
Definition findMessageIndex (nodes : list ICNode) (messageID : str) : option nat := find_last (has_id messageID) nodes.
Definition message_at (nodes : list ICNode) (i : nat) : option ICMessage :=
  match nodes !! i with Some (NMessage m) => Some m | _ => None end.
Definition find_message (nodes : list ICNode) (messageID : str) : option ICMessage :=
  findMessageIndex nodes messageID ≫= message_at nodes.
Definition on_message (f : ICMessage -> ICMessage) (n : ICNode) : ICNode :=
  match n with NMessage m => NMessage (f m) | NSystemEvent e => NSystemEvent e end.
Definition with_nodes (ic : IntermediateContext) (nodes : list ICNode) : IntermediateContext :=
  mkIC (icSessionID ic) nodes (icUsers ic) (icChatTitle ic).
Definition userChanged (a b : CanonicalUser) : bool :=
  negb (str_eqb (usDisplayName a) (usDisplayName b)) || negb (str_eqb (usUsername a) (usUsername b)).
Definition merge_flags (event : MessageEvent) (m : ICMessage) : ICMessage :=
  mkICMessage (imMessageID m) (imSender m) (imReceivedAtMs m) (imLastEventCursor m) (imTimestampSec m) (imUTCOffsetMin m)
    (imContent m) (imReplyToMessageID m) (imReplyToSender m) (imReplyToPreview m) (imForwardInfo m) (imAttachments m)
    (imEditedAtSec m) (imEditUTCOffsetMin m) (imDeleted m) (imIsSelfSent m || meIsSelfSent event)
    (imMentionsMe m || meMentionsMe event) (imRepliesToMe m || meRepliesToMe event) (imConversation m).
(** The node of a rename noticed with a message, if there is one. *)
Definition renameNode (users : gmap str ICUserState) (event : MessageEvent) : list ICNode :=
  match meSender event with
  | Some sender =>
      match users !! usID sender with
      | Some existing =>
          if userChanged (iuUser existing) sender then
            [NSystemEvent (mkICSystemEvent (lit "user_renamed") (meReceivedAtMs event) (sanitizedEventCursor (meEventCursor event))
               (meTimestampSec event) (meUTCOffsetMin event) None (usID sender) (Some (iuUser existing)) (Some sender) [] None [] [] [] [])]
          else []
      | None => []
      end
  | None => []
  end.
Definition orElse {A} (o alt : option A) : option A := match o with Some _ => o | None => alt end.
Definition orElseStr (s alt : str) : str := if is_empty s then alt else s.
Definition newMessage (nodes : list ICNode) (event : MessageEvent) : ICMessage :=
  let target := find_message nodes (meReplyToMessageID event) in
  let replies := negb (is_empty (meReplyToMessageID event)) in
  let replySender :=
    if replies then
      orElse (target ≫= imSender)
        (if is_empty (meReplyToSender event) then None else Some (mkUser [] (meReplyToSender event) [] false))
    else None in
  let replyPreview :=
    if replies then
      orElseStr (match target with
                 | Some t => let plain := ContentToPlainText (imContent t) in if is_empty plain then [] else truncate plain replyPreviewMax
                 | None => []
                 end)
        (if is_empty (meReplyToPreview event) then [] else truncate (meReplyToPreview event) replyPreviewMax)
    else [] in
  mkICMessage (meMessageID event) (meSender event) (meReceivedAtMs event) (sanitizedEventCursor (meEventCursor event))
    (meTimestampSec event) (meUTCOffsetMin event) (meContent event) (meReplyToMessageID event) replySender replyPreview
    (meForwardInfo event) (meAttachments event) 0 0 false (meIsSelfSent event) (meMentionsMe event) (meRepliesToMe event)
    (meConversation event).
Definition seen (users : gmap str ICUserState) (event : MessageEvent) : gmap str ICUserState :=
  match meSender event with
  | Some sender =>
      <[usID sender :=
          match users !! usID sender with
          | Some existing => mkUserState sender (iuFirstSeenAtMs existing) (meReceivedAtMs event) (iuMessageCount existing + 1)
          | None => mkUserState sender (meReceivedAtMs event) (meReceivedAtMs event) 1
          end]> users
  | None => users
  end.
Definition reduceMessage (ic : IntermediateContext) (event : MessageEvent) : IntermediateContext :=
  match findMessageIndex (icNodes ic) (meMessageID event) with
  | Some idx => with_nodes ic (alter (on_message (merge_flags event)) idx (icNodes ic))
  | None =>
      let nodes := icNodes ic ++ renameNode (icUsers ic) event in
      mkIC (icSessionID ic) (nodes ++ [NMessage (newMessage nodes event)]) (seen (icUsers ic) event) (icChatTitle ic)
  end.
Definition raise_cursor (cursor : Z) (m : ICMessage) : Z :=
  let cursor := sanitizedEventCursor cursor in if imLastEventCursor m <? cursor then cursor else imLastEventCursor m.
Definition edited (event : EditEvent) (m : ICMessage) : ICMessage :=
  mkICMessage (imMessageID m) (imSender m) (imReceivedAtMs m) (raise_cursor (eeEventCursor event) m) (imTimestampSec m)
    (imUTCOffsetMin m) (eeContent event) (imReplyToMessageID m) (imReplyToSender m) (imReplyToPreview m) (imForwardInfo m)
    (eeAttachments event) (eeTimestampSec event) (eeUTCOffsetMin event) (imDeleted m) (imIsSelfSent m) (imMentionsMe m)
    (imRepliesToMe m) (imConversation m).
Definition deleted (event : DeleteEvent) (m : ICMessage) : ICMessage :=
  mkICMessage (imMessageID m) (imSender m) (imReceivedAtMs m) (raise_cursor (deEventCursor event) m) (imTimestampSec m)
    (imUTCOffsetMin m) (imContent m) (imReplyToMessageID m) (imReplyToSender m) (imReplyToPreview m) (imForwardInfo m)
    (imAttachments m) (imEditedAtSec m) (imEditUTCOffsetMin m) true (imIsSelfSent m) (imMentionsMe m) (imRepliesToMe m)
    (imConversation m).
Definition update_message (f : ICMessage -> ICMessage) (nodes : list ICNode) (messageID : str) : list ICNode :=
  match findMessageIndex nodes messageID with Some idx => alter (on_message f) idx nodes | None => nodes end.
Definition reduceEdit (ic : IntermediateContext) (event : EditEvent) : IntermediateContext :=
  with_nodes ic (update_message (edited event) (icNodes ic) (eeMessageID event)).
Definition reduceDelete (ic : IntermediateContext) (event : DeleteEvent) : IntermediateContext :=
  with_nodes ic (fold_left (update_message (deleted event)) (deMessageIDs event) (icNodes ic)).
Definition serviceNode (ic : IntermediateContext) (event : ServiceEvent) : ICSystemEvent :=
  let action := seAction event in
  let base kind members member oldTitle newTitle pinnedID pinnedPreview :=
    mkICSystemEvent kind (seReceivedAtMs event) (sanitizedEventCursor (seEventCursor event)) (seTimestampSec event)
      (seUTCOffsetMin event) (seActor event) [] None None members member oldTitle newTitle pinnedID pinnedPreview in
  if str_eqb action ServiceMembersJoined then base (lit "members_joined") (seMembers event) None [] [] [] []
  else if str_eqb action ServiceMemberLeft then base (lit "member_left") [] (seMember event) [] [] [] []
  else if str_eqb action ServiceChatRenamed then base (lit "chat_renamed") [] None (icChatTitle ic) (seNewTitle event) [] []
  else if str_eqb action ServiceChatPhotoChanged then base (lit "chat_photo_changed") [] None [] [] [] []
  else if str_eqb action ServiceChatPhotoDeleted then base (lit "chat_photo_deleted") [] None [] [] [] []
  else if str_eqb action ServiceMessagePinned then
    base (lit "message_pinned") [] None [] [] (sePinnedMessageID event)
      match find_message (icNodes ic) (sePinnedMessageID event) with
      | Some target => let plain := ContentToPlainText (imContent target) in if is_empty plain then [] else truncate plain replyPreviewMax
      | None => []
      end
  else base [] [] None [] [] [] [].
Definition reduceService (ic : IntermediateContext) (event : ServiceEvent) : IntermediateContext :=
  mkIC (icSessionID ic) (icNodes ic ++ [NSystemEvent (serviceNode ic event)]) (icUsers ic)
    (if str_eqb (seAction event) ServiceChatRenamed then seNewTitle event else icChatTitle ic).
Definition Reduce (ic : IntermediateContext) (event : CanonicalEvent) : IntermediateContext :=
  match event with
  | EvMessage e => reduceMessage ic e
  | EvEdit e => reduceEdit ic e
  | EvDelete e => reduceDelete ic e
  | EvService e => reduceService ic e
  end.
(** The positions whose rendering an event may change: the messages it names,
    as they stand before it. *)
Definition option_list {A} (o : option A) : list A := match o with Some x => [x] | None => [] end.
Definition dirtyIndexes (ic : IntermediateContext) (event : CanonicalEvent) : list nat :=
  match event with
  | EvMessage e => option_list (findMessageIndex (icNodes ic) (meMessageID e))
  | EvEdit e => option_list (findMessageIndex (icNodes ic) (eeMessageID e))
  | EvDelete e => omap (findMessageIndex (icNodes ic)) (deMessageIDs e)
  | EvService _ => []
  end.
(** The context after the event, and these positions with the new ones. *)
Definition reduceInPlace (ic : IntermediateContext) (event : CanonicalEvent) : IntermediateContext * list nat :=
  let ic' := Reduce ic event in
  (ic', dirtyIndexes ic event ++ seq (length (icNodes ic)) (length (icNodes ic') - length (icNodes ic))).
Definition replay (sessionID : str) (events : list CanonicalEvent) : IntermediateContext :=
  fold_left Reduce events (NewEmptyIC sessionID).

(** ** What an event does to the nodes *)
Definition raw_node_ids (n : ICNode) : list str := match n with NMessage m => [imMessageID m] | NSystemEvent _ => [] end.
Definition message_ids (nodes : list ICNode) : list str := flat_map raw_node_ids nodes.
Definition node_cursor (n : ICNode) : Z := match n with NMessage m => imLastEventCursor m | NSystemEvent e => iyLastEventCursor e end.
Definition sent_by (userID : str) (n : ICNode) : bool :=
  match n with NMessage m => match imSender m with Some u => str_eqb (usID u) userID | None => false end | NSystemEvent _ => false end.
(** What never changes about a message, and what only grows. *)
Definition message_kept (m m' : ICMessage) : Prop :=
  imMessageID m' = imMessageID m /\ imSender m' = imSender m /\ imReceivedAtMs m' = imReceivedAtMs m /\
  imTimestampSec m' = imTimestampSec m /\ imReplyToMessageID m' = imReplyToMessageID m /\ imReplyToSender m' = imReplyToSender m /\
  imReplyToPreview m' = imReplyToPreview m /\ imForwardInfo m' = imForwardInfo m /\ imConversation m' = imConversation m /\
  imLastEventCursor m <= imLastEventCursor m' /\ (imDeleted m = true -> imDeleted m' = true) /\
  (imIsSelfSent m = true -> imIsSelfSent m' = true) /\ (imMentionsMe m = true -> imMentionsMe m' = true) /\
  (imRepliesToMe m = true -> imRepliesToMe m' = true).
Definition node_kept (n n' : ICNode) : Prop :=
  match n, n' with
  | NMessage m, NMessage m' => message_kept m m'
  | NSystemEvent e, NSystemEvent e' => e = e'
  | _, _ => False
  end.
#[export] Instance message_kept_refl : Reflexive message_kept.
Proof. intros m. unfold message_kept. split_and!; done || lia. Qed.
#[export] Instance message_kept_trans : Transitive message_kept.
Proof. intros a b c. unfold message_kept. intros H1 H2. destruct_and!. split_and!; try congruence; [lia|auto..]. Qed.
#[export] Instance node_kept_refl : Reflexive node_kept.
Proof. by intros [m|e]; cbn. Qed.
#[export] Instance node_kept_trans : Transitive node_kept.
Proof. intros [a|a] [b|b] [c|c]; cbn; try done; [apply transitivity|congruence]. Qed.
(** A change of messages that keeps what must be kept. *)
Definition keeping (f : ICMessage -> ICMessage) : Prop := forall m, message_kept m (f m).
Lemma merge_flags_keeping e : keeping (merge_flags e).
Proof. intros m. unfold message_kept; cbn. split_and!; try done; try lia; by intros ->. Qed.
Lemma raise_cursor_ge c m : imLastEventCursor m <= raise_cursor c m.
Proof. unfold raise_cursor. cbv zeta. destruct (_ <? _) eqn:E; bool_hyps; lia. Qed.
Lemma edited_keeping e : keeping (edited e).
Proof. intros m. unfold message_kept; cbn. split_and!; try done. apply raise_cursor_ge. Qed.
Lemma deleted_keeping e : keeping (deleted e).
Proof. intros m. unfold message_kept; cbn. split_and!; try done. apply raise_cursor_ge. Qed.
Lemma on_message_kept f n : keeping f -> node_kept n (on_message f n).
Proof. intros Hf. destruct n; [apply Hf|done]. Qed.
Lemma on_message_ids f n : keeping f -> raw_node_ids (on_message f n) = raw_node_ids n.
Proof. intros Hf. destruct n as [m|]; [cbn; by destruct (Hf m) as (-> & _)|done]. Qed.
Lemma find_ext nodes nodes' id : Forall2 (fun n n' => has_id id n' = has_id id n) nodes nodes' ->
  findMessageIndex nodes' id = findMessageIndex nodes id.
Proof.
  intros H. unfold findMessageIndex, find_last. rewrite (Forall2_length _ _ _ H).
  apply Forall2_reverse in H. change (reverse ?l) with (rev_append l []) in H. rewrite <- !rev_alt in H.
  assert (Hf : forall (l l' : list ICNode), Forall2 (fun n n' => has_id id n' = has_id id n) l l' ->
    fst <$> find_idx (has_id id) l' = fst <$> find_idx (has_id id) l).
  { clear. induction 1 as [|n n' l l' Hn _ IH]; [done|]. cbn [find_idx]. rewrite Hn. destruct (has_id id n); [done|].
    destruct (find_idx (has_id id) l') as [[i x]|], (find_idx (has_id id) l) as [[j y]|]; cbn in *; by simplify_eq. }
  specialize (Hf _ _ H). destruct (find_idx (has_id id) (rev nodes')) as [[i x]|], (find_idx (has_id id) (rev nodes)) as [[j y]|]; cbn in *; by simplify_eq.
Qed.
Lemma update_spec f nodes id : keeping f -> let nodes' := update_message f nodes id in
  Forall2 node_kept nodes nodes' /\ message_ids nodes' = message_ids nodes /\
  (forall i, Some i <> findMessageIndex nodes id -> nodes' !! i = nodes !! i).
Proof.
  intros Hf. cbv zeta. unfold update_message. destruct (findMessageIndex nodes id) as [idx|]; [|by split_and!].
  split_and!.
  - apply Forall2_same_length_lookup. split; [by rewrite length_alter|]. intros i n n' Hn Hn'. destruct (decide (i = idx)) as [->|Hne].
    + rewrite list_lookup_alter_eq, Hn in Hn'. injection Hn' as <-. by apply on_message_kept.
    + rewrite list_lookup_alter_ne in Hn' by done. by simplify_eq.
  - clear -Hf. revert idx. induction nodes as [|n nodes IH]; intros [|idx]; try done.
    + change (alter _ 0%nat (n :: nodes)) with (on_message f n :: nodes). cbn [message_ids flat_map]. by rewrite on_message_ids.
    + change (alter ?g (S idx) (n :: nodes)) with (n :: alter g idx nodes). cbn [message_ids flat_map]. f_equal. apply IH.
  - intros i Hi. apply list_lookup_alter_ne. congruence.
Qed.
Lemma kept_has_id id n n' : node_kept n n' -> has_id id n' = has_id id n.
Proof. destruct n, n'; cbn; try done. by intros (-> & _). Qed.
Lemma kept_find nodes nodes' id : Forall2 node_kept nodes nodes' -> findMessageIndex nodes' id = findMessageIndex nodes id.
Proof. intros H. apply find_ext. eapply Forall2_impl; [exact H|]. intros n n'. apply kept_has_id. Qed.
Lemma updates_spec f nodes ids : keeping f -> let nodes' := fold_left (update_message f) ids nodes in
  Forall2 node_kept nodes nodes' /\ message_ids nodes' = message_ids nodes /\
  (forall i, i ∉ omap (findMessageIndex nodes) ids -> nodes' !! i = nodes !! i).
Proof.
  intros Hf. cbv zeta. revert nodes. induction ids as [|id ids IH]; intros nodes; cbn [fold_left].
  { by split_and!. }
  destruct (update_spec f nodes id Hf) as (H1 & H2 & H3). destruct (IH (update_message f nodes id)) as (G1 & G2 & G3). split_and!.
  - by eapply transitivity.
  - congruence.
  - intros i Hi. rewrite G3, H3; [done| |].
    + intros E. apply Hi. cbn. rewrite <- E. by left.
    + intros Hi'. apply Hi. apply list_elem_of_omap in Hi' as (x & Hx & Hfx). apply list_elem_of_omap. exists x. split; [by right|].
      by rewrite <- (kept_find _ _ _ H1).
Qed.
(** The nodes after an event: the old ones, kept, and the new ones. *)
Lemma new_message_ids nodes e : raw_node_ids (NMessage (newMessage nodes e)) = [meMessageID e].
Proof. done. Qed.
Lemma rename_ids users e : message_ids (renameNode users e) = [].
Proof. unfold renameNode. by repeat case_match. Qed.
Lemma message_ids_app a b : message_ids (a ++ b) = message_ids a ++ message_ids b.
Proof. apply flat_map_app. Qed.
Lemma reduce_nodes ic e : exists old new, icNodes (Reduce ic e) = old ++ new /\ Forall2 node_kept (icNodes ic) old /\
  message_ids old = message_ids (icNodes ic) /\ (forall i, i ∉ dirtyIndexes ic e -> old !! i = icNodes ic !! i) /\
  (message_ids new = [] \/ exists m, e = EvMessage m /\ findMessageIndex (icNodes ic) (meMessageID m) = None /\ message_ids new = [meMessageID m]).
Proof.
  destruct e as [e|e|e|e]; cbn [Reduce dirtyIndexes].
  - unfold reduceMessage. destruct (findMessageIndex (icNodes ic) (meMessageID e)) as [idx|] eqn:Ei.
    + pose proof (update_spec (merge_flags e) (icNodes ic) (meMessageID e) (merge_flags_keeping e)) as (H1 & H2 & H3).
      unfold update_message in *. rewrite Ei in H1, H2, H3. eexists _, []. cbn [with_nodes icNodes]. rewrite app_nil_r. split_and!; [done..| |by left].
      intros i Hi. apply H3. intros [= ->]. apply Hi. by left.
    + cbn [icNodes]. rewrite <- app_assoc. eexists (icNodes ic), _. split_and!; try done. right. exists e. split_and!; [done..|].
      by rewrite message_ids_app, rename_ids.
  - pose proof (update_spec (edited e) (icNodes ic) (eeMessageID e) (edited_keeping e)) as (H1 & H2 & H3).
    eexists _, []. cbn [reduceEdit with_nodes icNodes]. rewrite app_nil_r. split_and!; [done..| |by left].
    intros i Hi. apply H3. intros E. apply Hi. rewrite <- E. by left.
  - pose proof (updates_spec (deleted e) (icNodes ic) (deMessageIDs e) (deleted_keeping e)) as (H1 & H2 & H3).
    eexists _, []. cbn [reduceDelete with_nodes icNodes]. rewrite app_nil_r. split_and!; [done..|by left].
  - eexists (icNodes ic), _. cbn [reduceService icNodes]. split_and!; try done. by left.
Qed.

(** A timeline only grows: whatever events arrive, a node keeps its
    position, a system node is never changed, and a message keeps its sender,
    its times and what it answers, its cursor never goes back, and once deleted
    it stays deleted. *)
Theorem timeline_only_grows (ic : IntermediateContext) (events : list CanonicalEvent) (i : nat) (n : ICNode)
    (Hn : icNodes ic !! i = Some n) :
  exists n', icNodes (fold_left Reduce events ic) !! i = Some n' /\ node_kept n n'.
Proof.
  revert ic n Hn. induction events as [|e events IH]; intros ic n Hn; [by exists n|]. cbn [fold_left].
  destruct (reduce_nodes ic e) as (old & new & Hnodes & Hk & _). apply Forall2_same_length_lookup in Hk as [Hl Hk].
  destruct (lookup_lt_is_Some_2 old i) as [n1 Hn1]; [rewrite <- Hl; by eapply lookup_lt_Some|].
  destruct (IH (Reduce ic e) n1) as (n' & Hn' & Hkept); [rewrite Hnodes; by apply lookup_app_l_Some|].
  exists n'. split; [done|]. transitivity n1; [by apply (Hk i)|done].
Qed.

(** ** Invariants of a projection *)
Definition user_ok (nodes : list ICNode) (id : str) (u : option ICUserState) : Prop :=
  match u with
  | Some s => usID (iuUser s) = id /\ iuMessageCount s = Z.of_nat (countb (sent_by id) nodes) /\ (0 < countb (sent_by id) nodes)%nat
  | None => countb (sent_by id) nodes = 0%nat
  end.
Definition cursor_ok (n : ICNode) : Prop := 0 <= node_cursor n <= MaxTrustedEventCursor.
Definition projected (ic : IntermediateContext) : Prop :=
  NoDup (message_ids (icNodes ic)) /\ (forall id, user_ok (icNodes ic) id (icUsers ic !! id)) /\ Forall cursor_ok (icNodes ic).
Lemma sanitized_ok c : 0 <= sanitizedEventCursor c <= MaxTrustedEventCursor.
Proof.
  assert (0 <= MaxTrustedEventCursor) by (vm_compute; discriminate).
  unfold sanitizedEventCursor. destruct ((_ <=? _) || _) eqn:E; [lia|]. bool_hyps. lia.
Qed.
Lemma raise_ok c m : 0 <= imLastEventCursor m <= MaxTrustedEventCursor -> 0 <= raise_cursor c m <= MaxTrustedEventCursor.
Proof. intros H. unfold raise_cursor. cbv zeta. pose proof (sanitized_ok c). by destruct (_ <? _). Qed.
Lemma kept_sent id n n' : node_kept n n' -> sent_by id n' = sent_by id n.
Proof. destruct n, n'; cbn; try done. by intros (_ & -> & _). Qed.
Lemma kept_count id nodes nodes' : Forall2 node_kept nodes nodes' -> countb (sent_by id) nodes' = countb (sent_by id) nodes.
Proof. intros H. apply Forall2_countb. eapply Forall2_impl; [exact H|]. intros n n'. apply kept_sent. Qed.
Lemma find_in nodes id : id ∈ message_ids nodes -> exists i, findMessageIndex nodes id = Some i.
Proof.
  intros Hid. unfold findMessageIndex. destruct (find_last (has_id id) nodes) as [i|] eqn:E; [by exists i|].
  apply find_last_None in E. rewrite Forall_forall in E. apply list_elem_of_In, in_flat_map in Hid as (n & Hn & Hid).
  apply list_elem_of_In in Hn. specialize (E n Hn). destruct n as [m|]; [|done]. destruct Hid as [Hid|[]]. cbn [has_id] in E. by apply str_eqb_false in E.
Qed.
Lemma alter_cursor_ok f i nodes : (forall m, cursor_ok (NMessage m) -> cursor_ok (NMessage (f m))) -> Forall cursor_ok nodes ->
  Forall cursor_ok (alter (on_message f) i nodes).
Proof. intros Hf. intros H. apply Forall_alter; [done|]. intros [m|e] _ Hm; [by apply Hf|done]. Qed.
Lemma update_cursor_ok f nodes id : (forall m, cursor_ok (NMessage m) -> cursor_ok (NMessage (f m))) -> Forall cursor_ok nodes ->
  Forall cursor_ok (update_message f nodes id).
Proof. intros Hf H. unfold update_message. case_match; [by apply alter_cursor_ok|done]. Qed.
Lemma reduce_cursor_ok ic e : Forall cursor_ok (icNodes ic) -> Forall cursor_ok (icNodes (Reduce ic e)).
Proof.
  intros H. destruct e as [e|e|e|e]; cbn [Reduce].
  - unfold reduceMessage. case_match; cbn [with_nodes icNodes]; [by apply alter_cursor_ok|].
    apply Forall_app; split; [apply Forall_app; split; [done|]|].
    + unfold renameNode. repeat case_match; try constructor; [apply sanitized_ok|done].
    + constructor; [apply sanitized_ok|done].
  - apply update_cursor_ok; [|done]. intros m. apply raise_ok.
  - cbn [reduceDelete with_nodes icNodes]. revert H. generalize (icNodes ic). induction (deMessageIDs e) as [|id ids IH]; intros nodes H; [done|].
    apply IH, update_cursor_ok; [|done]. intros m. apply raise_ok.
  - apply Forall_app. split; [done|]. constructor; [|done]. unfold cursor_ok, serviceNode. cbn. repeat case_if; apply sanitized_ok.
Qed.
Lemma rename_sent users e id : countb (sent_by id) (renameNode users e) = 0%nat.
Proof. unfold renameNode. by repeat case_match. Qed.
Lemma seen_ok ic e : (forall id, user_ok (icNodes ic) id (icUsers ic !! id)) ->
  forall id, user_ok ((icNodes ic ++ renameNode (icUsers ic) e) ++ [NMessage (newMessage (icNodes ic ++ renameNode (icUsers ic) e) e)]) id
    (seen (icUsers ic) e !! id).
Proof.
  intros H id. specialize (H id). unfold user_ok. rewrite !countb_app, rename_sent, Nat.add_0_r.
  assert (Hone : countb (sent_by id) [NMessage (newMessage (icNodes ic ++ renameNode (icUsers ic) e) e)] =
    match meSender e with Some u => if str_eqb (usID u) id then 1%nat else 0%nat | None => 0%nat end).
  { rewrite countb_cons. cbn. destruct (meSender e) as [u|]; [|done]. by destruct (str_eqb (usID u) id). }
  rewrite Hone. unfold seen. destruct (meSender e) as [u|]; [|by rewrite Nat.add_0_r].
  destruct (str_eqb (usID u) id) eqn:E.
  - apply str_eqb_true in E. subst id. rewrite lookup_insert_eq. unfold user_ok in H.
    destruct (icUsers ic !! usID u) as [s|]; cbn [iuUser iuMessageCount]; [destruct H as (_ & -> & Hpos)|rewrite H]; (split_and!; [done|lia|lia]).
  - apply str_eqb_false in E. rewrite lookup_insert_ne by done. by rewrite Nat.add_0_r.
Qed.
Lemma reduce_projected ic e : projected ic -> projected (Reduce ic e).
Proof.
  intros (H1 & H2 & H3). split_and!; [| |by apply reduce_cursor_ok].
  - destruct (reduce_nodes ic e) as (old & new & -> & _ & Hold & _ & Hnew). rewrite message_ids_app, Hold.
    destruct Hnew as [->|(m & _ & Hf & ->)]; [by rewrite app_nil_r|]. apply NoDup_app. split_and!; [done| |apply NoDup_singleton].
    intros x Hx Hm%list_elem_of_singleton. subst x. apply find_in in Hx as [i Hi]. congruence.
  - assert (Hsame : forall nodes, Forall2 node_kept (icNodes ic) nodes -> forall id, user_ok nodes id (icUsers ic !! id)).
    { intros nodes Hk id. specialize (H2 id). unfold user_ok in *. by rewrite (kept_count id _ _ Hk). }
    destruct e as [e|e|e|e]; cbn [Reduce].
    + unfold reduceMessage. destruct (findMessageIndex (icNodes ic) (meMessageID e)) as [idx|] eqn:Ei; [|cbn [icNodes icUsers]; by apply seen_ok].
      apply Hsame. pose proof (update_spec (merge_flags e) (icNodes ic) (meMessageID e) (merge_flags_keeping e)) as (Hk & _).
      unfold update_message in Hk. by rewrite Ei in Hk.
    + apply Hsame. apply update_spec, edited_keeping.
    + apply Hsame. apply updates_spec, deleted_keeping.
    + intros id. specialize (H2 id). cbn [reduceService icNodes icUsers]. unfold user_ok. rewrite countb_app. cbn. by rewrite Nat.add_0_r.
Qed.

(** C21: Every projection of a log is well formed: a message identifier occurs
    once however often it is delivered, the number of messages of each user is
    the number of its nodes and every sender is known, and the cursors stay
    within the range that is trusted, whatever cursors the events carry. *)
Theorem projection_invariant (sessionID : str) (events : list CanonicalEvent) : projected (replay sessionID events).
Proof.
  unfold replay. assert (H : projected (NewEmptyIC sessionID)).
  { split_and!; [apply NoDup_nil_2|intros id; cbn; by rewrite lookup_empty|constructor]. }
  revert H. generalize (NewEmptyIC sessionID). induction events as [|e events IH]; intros ic H; [done|]. by apply IH, reduce_projected.
Qed.

(** ** Redelivery *)
Lemma alter_fixed f i (nodes : list ICNode) : (forall n, nodes !! i = Some n -> f n = n) -> alter f i nodes = nodes.
Proof.
  intros H. apply list_eq. intros j. destruct (decide (j = i)) as [->|Hne]; [|by rewrite list_lookup_alter_ne].
  rewrite list_lookup_alter_eq. destruct (nodes !! i) as [n|] eqn:E; [|done]. cbn. by rewrite H.
Qed.
Lemma update_fixed f nodes id : (forall i n, findMessageIndex nodes id = Some i -> nodes !! i = Some n -> on_message f n = n) ->
  update_message f nodes id = nodes.
Proof. intros H. unfold update_message. destruct (findMessageIndex nodes id) as [i|]; [|done]. apply alter_fixed. intros n. by apply H. Qed.
Lemma raise_idem c f m : imLastEventCursor (f m) = raise_cursor c m -> raise_cursor c (f m) = imLastEventCursor (f m).
Proof.
  unfold raise_cursor. cbv zeta. intros ->. destruct (imLastEventCursor m <? sanitizedEventCursor c) eqn:E; [by rewrite Z.ltb_irrefl|by rewrite E].
Qed.
Lemma edited_idem e m : edited e (edited e m) = edited e m.
Proof. unfold edited at 1. rewrite (raise_idem _ (edited e)) by done. done. Qed.
Lemma deleted_idem e m : deleted e (deleted e m) = deleted e m.
Proof. unfold deleted at 1. rewrite (raise_idem _ (deleted e)) by done. done. Qed.
Lemma merge_idem e m : merge_flags e (merge_flags e m) = merge_flags e m.
Proof. unfold merge_flags. cbn. by rewrite <- !orb_assoc, !orb_diag. Qed.
Lemma update_idem f nodes id : keeping f -> (forall m, f (f m) = f m) -> update_message f (update_message f nodes id) id = update_message f nodes id.
Proof.
  intros Hk Hi. apply update_fixed. intros i n Hf Hn. rewrite (kept_find nodes) in Hf by by apply update_spec.
  unfold update_message in Hn. rewrite Hf in Hn. rewrite list_lookup_alter_eq in Hn. destruct (nodes !! i) as [[m|e]|]; simplify_eq/=; [by rewrite Hi|done].
Qed.
(** Every message named is at a fixed point of [f]. *)
Definition settled (f : ICMessage -> ICMessage) (nodes : list ICNode) (id : str) : Prop :=
  forall i n, findMessageIndex nodes id = Some i -> nodes !! i = Some n -> on_message f n = n.
Lemma settled_update f nodes id id' : keeping f -> (forall m, f (f m) = f m) -> settled f nodes id' -> settled f (update_message f nodes id) id'.
Proof.
  intros Hk Hi Hs i n Hf Hn. rewrite (kept_find nodes) in Hf by by apply update_spec.
  unfold update_message in Hn. destruct (findMessageIndex nodes id) as [j|]; [|by eapply Hs]. destruct (decide (i = j)) as [->|Hne].
  - rewrite list_lookup_alter_eq in Hn. destruct (nodes !! j) as [[m|e]|]; simplify_eq/=; [by rewrite Hi|done].
  - rewrite list_lookup_alter_ne in Hn by done. by eapply Hs.
Qed.
Lemma updates_settled f nodes ids : keeping f -> (forall m, f (f m) = f m) ->
  forall id, id ∈ ids \/ settled f nodes id -> settled f (fold_left (update_message f) ids nodes) id.
Proof.
  intros Hk Hi. revert nodes. induction ids as [|x ids IH]; intros nodes id Hid; cbn [fold_left].
  { destruct Hid as [?%not_elem_of_nil|?]; done. }
  apply IH. destruct Hid as [[->|?]%elem_of_cons|Hs]; [|by left|right; by apply settled_update].
  right. intros i n Hf Hn. rewrite (kept_find nodes) in Hf by by apply update_spec.
  unfold update_message in Hn. rewrite Hf in Hn. rewrite list_lookup_alter_eq in Hn. destruct (nodes !! i) as [[m|e]|]; simplify_eq/=; [by rewrite Hi|done].
Qed.
Lemma updates_fixed f nodes ids : (forall id, id ∈ ids -> settled f nodes id) -> fold_left (update_message f) ids nodes = nodes.
Proof.
  induction ids as [|x ids IH]; intros H; [done|]. cbn [fold_left]. rewrite update_fixed by (apply H; by left). apply IH. intros id Hid. apply H. by right.
Qed.
Lemma find_snoc nodes n id : has_id id n = true -> findMessageIndex (nodes ++ [n]) id = Some (length nodes).
Proof.
  intros H. unfold findMessageIndex, find_last. rewrite rev_app_distr. cbn [rev app find_idx]. rewrite H, length_app. cbn. f_equal. lia.
Qed.

(** Redelivery is harmless: applying a message, an edit or a deletion again
    right away changes nothing, and a message that arrives again later only
    adds to its flags, so it undoes no edit or deletion made in between. *)
Theorem redelivery_is_harmless (ic : IntermediateContext) (e : CanonicalEvent) :
  (match e with EvService _ => True | _ => Reduce (Reduce ic e) e = Reduce ic e end) /\
  (forall m, e = EvMessage m -> forall i, findMessageIndex (icNodes ic) (meMessageID m) = Some i ->
     Reduce ic e = with_nodes ic (alter (on_message (merge_flags m)) i (icNodes ic))).
Proof.
  split.
  2:{ intros m -> i Hi. cbn. unfold reduceMessage. by rewrite Hi. }
  destruct e as [e|e|e|e]; cbn [Reduce]; [| | |done].
  - unfold reduceMessage at 2 3. destruct (findMessageIndex (icNodes ic) (meMessageID e)) as [i|] eqn:Ei.
    + pose proof (update_idem (merge_flags e) (icNodes ic) (meMessageID e) (merge_flags_keeping e) (merge_idem e)) as H.
      pose proof (update_spec (merge_flags e) (icNodes ic) (meMessageID e) (merge_flags_keeping e)) as (Hk & _).
      apply (kept_find _ _ (meMessageID e)) in Hk. unfold update_message in H, Hk. rewrite Ei in H, Hk. rewrite Hk in H.
      unfold reduceMessage. cbn [with_nodes icNodes]. rewrite Hk. unfold with_nodes. cbn. by rewrite H.
    + cbv zeta. unfold reduceMessage. cbn [icNodes icSessionID icUsers icChatTitle].
      rewrite find_snoc by (cbn; by rewrite str_eqb_refl). unfold with_nodes. cbn [icNodes icSessionID icUsers icChatTitle]. f_equal.
      apply alter_fixed. intros n. rewrite lookup_app_r, Nat.sub_diag by done. intros [= <-]. cbn. f_equal.
      unfold merge_flags, newMessage. cbn. by rewrite !orb_diag.
  - unfold reduceEdit, with_nodes. cbn. f_equal. apply update_idem; [apply edited_keeping|apply edited_idem].
  - unfold reduceDelete, with_nodes. cbn [icNodes icSessionID icUsers icChatTitle]. f_equal. apply updates_fixed. intros id Hid.
    apply updates_settled; [apply deleted_keeping|apply deleted_idem|by left].
Qed.

(** ** A sample *)
Definition sample_user : CanonicalUser := mkUser (lit "u") (lit "Ann") [] false.
Definition sample_message : CanonicalEvent :=
  EvMessage (mkMessageEvent (lit "s") (lit "e1") 1 (lit "m1") (Some sample_user) 10 10 0 [mkContent (lit "text") (lit "hi") [] [] [] []] [] [] [] None []
    false false false (mkConversation (lit "c") [] [] [])).
Definition sample_deletion : CanonicalEvent := EvDelete (mkDeleteEvent (lit "s") (lit "e2") 2 [lit "m1"] 20 20 0).
Definition sample_context : IntermediateContext := Reduce (NewEmptyIC (lit "s")) sample_message.
Example deletion_marks :
  map (fun n => match n with NMessage m => (imDeleted m, imLastEventCursor m) | NSystemEvent _ => (false, 0) end)
    (icNodes (Reduce sample_context sample_deletion)) = [(true, 2)].
Proof. vm_compute. reflexivity. Qed.
Lemma timeline_only_grows_witness :
  exists n', icNodes (fold_left Reduce [sample_deletion] sample_context) !! 0%nat = Some n' /\
    node_kept (NMessage (newMessage [] match sample_message with EvMessage e => e | _ => mkMessageEvent [] [] 0 [] None 0 0 0 [] [] [] [] None [] false false false (mkConversation [] [] [] []) end)) n'.
Proof. apply timeline_only_grows. vm_compute. reflexivity. Defined.
