(* ===== verification/TimelineRender.v ===== *)
(** * Rendering a chat timeline

    Models [internal/chat/timeline/rendering.go]: every node of the projection
    becomes one segment of text, in an XML-like form whose attribute values and
    texts are escaped.  [fmt]'s [%q] is [strconv.Quote], written out here up to
    the table of printable runes above ASCII, a parameter; [time]'s calendar is
    written out for the proleptic Gregorian calendar.  What is proved is that
    the content of a message cannot forge a tag, the type of an attachment,
    which is written without escaping, apart. *)

From stdpp Require Import pretty.
From S2P Require Import Prelude GoStr Timeline.
#[local] Open Scope Z_scope.

(** ** Output *)
Record RenderedContentPiece : Type := mkPiece { rpType : str; rpText : str; rpURL : str }.
Record ImageAttachmentRef : Type := mkImageRef { iaContentHash : str; iaMime : str }.
Record RenderedSegment : Type := mkSegment {
  sgMessageID : str; sgReceivedAtMs : Z; sgLastEventCursor : Z; sgEditedAtMs : Z; sgContent : list RenderedContentPiece;
  sgIsMyself : bool; sgIsSelfSent : bool; sgMentionsMe : bool; sgRepliesToMe : bool; sgImageRefs : list ImageAttachmentRef }.
Abbreviation RenderedContext := (list RenderedSegment).
Record RenderParams : Type := mkParams { prBotUserID : str; prContactNames : gmap str str }.

(** ** [strconv.Quote] *)
Class Printable : Type := { uni_print : Z -> bool  (** [strconv.IsPrint] of a rune above U+007F *) }.
Definition hex_digit (n : Z) : ascii := nth (Z.to_nat (n mod 16)) (lit "0123456789abcdef") "0"%char.
Fixpoint hex_pad (width : nat) (n : Z) : str :=
  match width with O => [] | S w => hex_pad w (n / 16) ++ [hex_digit n] end.
Definition backslash : ascii := "092"%char.
Section quote.
Context {P : Printable}.
Definition is_print (r : Z) : bool := if r <? 128 then in_range 32 126 r else uni_print r.
(** One decoded rune, with the bytes it was decoded from; a rune that is
    printed is written as these bytes, its only encoding. *)
Definition quote_rune (q : Z * str) : str :=
  let '(r, bytes) := q in
  if (r =? RuneError) && (length bytes =? 1)%nat
  then lit "\x" ++ hex_pad 2 match bytes with b :: _ => byte_val b | [] => 0 end
  else if (r =? 34) || (r =? 92) then backslash :: bytes
  else if is_print r then bytes
  else if r =? 7 then lit "\a" else if r =? 8 then lit "\b" else if r =? 12 then lit "\f" else if r =? 10 then lit "\n"
  else if r =? 13 then lit "\r" else if r =? 9 then lit "\t" else if r =? 11 then lit "\v"
  else if (r <? 32) || (r =? 127) then lit "\x" ++ hex_pad 2 r
  else if r <? 65536 then lit "\u" ++ hex_pad 4 r
  else lit "\U" ++ hex_pad 8 r.
Definition go_quote (s : str) : str := dquote :: flat_map quote_rune (decode s) ++ [dquote].
End quote.

(** ** Escaping *)
Definition escape_byte (attr : bool) (c : ascii) : str :=
  if Ascii.eqb c "&"%char then lit "&amp;"
  else if Ascii.eqb c "<"%char then lit "&lt;"
  else if Ascii.eqb c ">"%char then lit "&gt;"
  else if attr && Ascii.eqb c dquote then lit "&quot;"
  else [c].
Definition escapeXMLAttrValue (s : str) : str := flat_map (escape_byte true) s.
Definition escapeXMLText (s : str) : str := flat_map (escape_byte false) s.

(** ** Names and times *)
Definition formatSender (user : option CanonicalUser) (contactNames : gmap str str) : str :=
  match user with
  | None => []
  | Some u =>
      let with_username name :=
        if negb (is_empty (usUsername u)) && negb (str_eqb (usUsername u) name)
        then name ++ lit " (@" ++ usUsername u ++ lit ")" else name in
      match contactNames !! usID u with
      | Some name => with_username name
      | None =>
          if is_empty (usDisplayName u) then (if is_empty (usUsername u) then usID u else usUsername u)
          else with_username (usDisplayName u)
      end
  end.
Definition resolveForwardFrom (info : ForwardInfo) (contactNames : gmap str str) : str :=
  match fwSender info with
  | Some sender => formatSender (Some sender) contactNames
  | None =>
      if negb (is_empty (fwSenderName info)) then fwSenderName info
      else if negb (is_empty (fwFromUserID info)) then lit "user:" ++ fwFromUserID info
      else if negb (is_empty (fwFromConversationID info)) then lit "conversation:" ++ fwFromConversationID info
      else lit "unknown"
  end.
Definition pad2 (n : Z) : str := if (n <? 10) && (0 <=? n) then lit "0" ++ itoa n else itoa n.
(** Year, month and day of a day counted from 1970-01-01. *)
Definition civil_from_days (days : Z) : Z * Z * Z :=
  let z := days + 719468 in
  let era := z / 146097 in
  let doe := z mod 146097 in
  let yoe := (doe - doe / 1460 + doe / 36524 - doe / 146096) / 365 in
  let doy := doe - (365 * yoe + yoe / 4 - yoe / 100) in
  let mp := (5 * doy + 2) / 153 in
  let month := if mp <? 10 then mp + 3 else mp - 9 in
  (yoe + era * 400 + (if month <=? 2 then 1 else 0), month, doy - (153 * mp + 2) / 5 + 1).
Definition formatTimestamp (epochSec utcOffsetMin : Z) : str :=
  let t := epochSec + utcOffsetMin * 60 in
  let '(year, month, day) := civil_from_days (t / 86400) in
  let s := t mod 86400 in
  let abs := if utcOffsetMin <? 0 then - utcOffsetMin else utcOffsetMin in
  itoa year ++ lit "-" ++ pad2 month ++ lit "-" ++ pad2 day ++ lit "T" ++
  pad2 (s / 3600) ++ lit ":" ++ pad2 (s / 60 mod 60) ++ lit ":" ++ pad2 (s mod 60) ++
  (if utcOffsetMin <? 0 then lit "-" else lit "+") ++ pad2 (abs / 60) ++ lit ":" ++ pad2 (abs mod 60).
Fixpoint mentions (userID : str) (n : ContentNode) : bool :=
  match n with mkContent type _ _ _ uid children =>
    (str_eqb type (lit "mention") && str_eqb uid userID) || existsb (mentions userID) children
  end.
Definition hasMention (nodes : list ContentNode) (userID : str) : bool := existsb (mentions userID) nodes.

(** ** Segments *)
Section render.
Context {U : Unicode} {P : Printable}.
Definition attr (name value : str) : str := name ++ lit "=" ++ go_quote value.
Definition xml_attr (name value : str) : str := attr name (escapeXMLAttrValue value).
Definition opt_attr (name value : str) : list str := if is_empty value then [] else [xml_attr name value].
Definition xml_element (name inner : str) : str := lit "<" ++ name ++ lit ">" ++ inner ++ lit "</" ++ name ++ lit ">".
Fixpoint renderContentNode (n : ContentNode) : str :=
  match n with mkContent type text language url userID children =>
    let inner := flat_map renderContentNode children in
    let type_is name := str_eqb type (lit name) in
    if type_is "text"%string then escapeXMLText text
    else if type_is "code"%string then xml_element (lit "code") (escapeXMLText text)
    else if type_is "pre"%string then
      (if is_empty language then lit "<pre>" else lit "<pre " ++ xml_attr (lit "lang") language ++ lit ">") ++ escapeXMLText text ++ lit "</pre>"
    else if type_is "bold"%string then xml_element (lit "b") inner
    else if type_is "italic"%string then xml_element (lit "i") inner
    else if type_is "underline"%string then xml_element (lit "u") inner
    else if type_is "strikethrough"%string then xml_element (lit "s") inner
    else if type_is "spoiler"%string then xml_element (lit "spoiler") inner
    else if type_is "blockquote"%string then xml_element (lit "blockquote") inner
    else if type_is "link"%string then lit "<a " ++ xml_attr (lit "href") url ++ lit ">" ++ inner ++ lit "</a>"
    else if type_is "mention"%string then
      (if is_empty userID then lit "<mention>" else lit "<mention " ++ xml_attr (lit "uid") userID ++ lit ">") ++ inner ++ lit "</mention>"
    else if type_is "custom_emoji"%string then inner
    else []
  end.
Definition renderContentNodes (nodes : list ContentNode) : str := flat_map renderContentNode nodes.
Definition spaced (attrs : list str) : str := join (lit " ") attrs.
Definition renderAttachment (att : Attachment) : str :=
  let attrs :=
    [attr (lit "type") (atType att)] ++ opt_attr (lit "mime") (atMimeType att) ++ opt_attr (lit "name") (atFileName att) ++
    (if (0 <? atWidth att) && (0 <? atHeight att)
     then [attr (lit "size") (itoa (atWidth att) ++ lit "x" ++ itoa (atHeight att))] else []) ++
    (if 0 <? atDuration att then [attr (lit "duration") (itoa (atDuration att))] else []) ++
    opt_attr (lit "path") (atFilePath att) in
  if is_empty (atAltText att) then lit "<attachment " ++ spaced attrs ++ lit "/>"
  else lit "<image " ++ spaced attrs ++ lit ">" ++ escapeXMLText (atAltText att) ++ lit "</image>".
Definition is_user (botUserID : str) (u : option CanonicalUser) : bool :=
  negb (is_empty botUserID) && match u with Some u => str_eqb (usID u) botUserID | None => false end.
Definition messageAttrs (msg : ICMessage) (params : RenderParams) (isMyself mentionsMe repliesToMe : bool) : list str :=
  let names := prContactNames params in
  let cv := imConversation msg in
  [xml_attr (lit "id") (imMessageID msg)] ++
  match imSender msg with Some u => [xml_attr (lit "sender") (formatSender (Some u) names)] | None => [] end ++
  (if isMyself then [attr (lit "myself") (lit "true")] else []) ++
  (if mentionsMe then [attr (lit "mentions_me") (lit "true")] else []) ++
  (if repliesToMe then [attr (lit "replies_to_me") (lit "true")] else []) ++
  [attr (lit "t") (formatTimestamp (imTimestampSec msg) (imUTCOffsetMin msg))] ++
  (if 0 <? imEditedAtSec msg then [attr (lit "edited") (formatTimestamp (imEditedAtSec msg) (imEditUTCOffsetMin msg))] else []) ++
  [xml_attr (lit "channel") (cvChannel cv)] ++ opt_attr (lit "conversation") (cvName cv) ++ opt_attr (lit "type") (cvType cv) ++
  opt_attr (lit "target") (cvTarget cv) ++
  match imForwardInfo msg with
  | Some info => xml_attr (lit "forwarded_from") (resolveForwardFrom info names) :: opt_attr (lit "forwarded_message_id") (fwMessageID info)
  | None => []
  end.
Definition messageParts (msg : ICMessage) (params : RenderParams) : list str :=
  (if is_empty (imReplyToMessageID msg) then []
   else
     let attrs := xml_attr (lit "id") (imReplyToMessageID msg) ::
       match imReplyToSender msg with Some u => [xml_attr (lit "sender") (formatSender (Some u) (prContactNames params))] | None => [] end in
     [lit "<in-reply-to " ++ spaced attrs ++ lit ">" ++ escapeXMLText (imReplyToPreview msg) ++ lit "</in-reply-to>"]) ++
  (let body := renderContentNodes (imContent msg) in if is_empty body then [] else [body]) ++
  map renderAttachment (imAttachments msg).
Definition messageText (attrs parts : list str) : str :=
  lit "<message " ++ spaced attrs ++ lit ">" ++ [nl] ++ join [nl] parts ++ [nl] ++ lit "</message>".
Definition textPiece (text : str) : list RenderedContentPiece := [mkPiece (lit "text") text []].
Definition renderMessage (msg : ICMessage) (params : RenderParams) : RenderedSegment :=
  let bot := prBotUserID params in
  let isMyself := is_user bot (imSender msg) in
  let mentionsMe := imMentionsMe msg || (negb (is_empty bot) && hasMention (imContent msg) bot) in
  let repliesToMe := imRepliesToMe msg || is_user bot (imReplyToSender msg) in
  let attrs := messageAttrs msg params isMyself mentionsMe repliesToMe in
  let segment text refs :=
    mkSegment (imMessageID msg) (imReceivedAtMs msg) (imLastEventCursor msg) (imEditedAtSec msg * 1000) (textPiece text) isMyself
      (imIsSelfSent msg) mentionsMe repliesToMe refs in
  if imDeleted msg then segment (lit "<message " ++ spaced attrs ++ lit "/>") []
  else
    segment (messageText attrs (messageParts msg params))
      (map (fun att => mkImageRef (atContentHash att) (atMimeType att))
         (List.filter (fun att => equal_fold (atType att) (lit "image") && negb (is_empty (atContentHash att))) (imAttachments msg))).
Definition eventTag (kind t actorAttr rest : str) : str :=
  lit "<event " ++ attr (lit "type") kind ++ lit " " ++ attr (lit "t") t ++ actorAttr ++ rest.
Definition renderSystemEventXML (event : ICSystemEvent) (names : gmap str str) : str :=
  let t := formatTimestamp (iyTimestampSec event) (iyUTCOffsetMin event) in
  let sp name value := lit " " ++ xml_attr name value in
  let actorAttr := match iyActor event with Some u => sp (lit "actor") (formatSender (Some u) names) | None => [] end in
  let kind_is kind := str_eqb (iyKind event) (lit kind) in
  if kind_is "user_renamed"%string then
    eventTag (lit "name_change") t [] (sp (lit "from_name") (formatSender (iyOldUser event) names) ++
                                       sp (lit "to_name") (formatSender (iyNewUser event) names) ++ lit "/>")
  else if kind_is "members_joined"%string then
    eventTag (lit "members_joined") t actorAttr
      (sp (lit "members") (join (lit ", ") (map (fun m => formatSender (Some m) names) (iyMembers event))) ++ lit "/>")
  else if kind_is "member_left"%string then
    eventTag (lit "member_left") t actorAttr (sp (lit "member") (formatSender (iyMember event) names) ++ lit "/>")
  else if kind_is "chat_renamed"%string then
    eventTag (lit "chat_renamed") t actorAttr
      ((if is_empty (iyOldTitle event) then [] else sp (lit "from") (iyOldTitle event)) ++ sp (lit "to") (iyNewTitle event) ++ lit "/>")
  else if kind_is "chat_photo_changed"%string then eventTag (lit "chat_photo_changed") t actorAttr (lit "/>")
  else if kind_is "chat_photo_deleted"%string then eventTag (lit "chat_photo_deleted") t actorAttr (lit "/>")
  else if kind_is "message_pinned"%string then
    eventTag (lit "message_pinned") t actorAttr
      (sp (lit "message_id") (iyPinnedMessageID event) ++
       if is_empty (iyPinnedPreview event) then lit "/>" else lit ">" ++ escapeXMLText (iyPinnedPreview event) ++ lit "</event>")
  else [].
Definition renderSystemEvent (event : ICSystemEvent) (params : RenderParams) : RenderedSegment :=
  mkSegment [] (iyReceivedAtMs event) (iyLastEventCursor event) 0 (textPiece (renderSystemEventXML event (prContactNames params)))
    false false false false [].
Definition renderNode (node : ICNode) (params : RenderParams) : RenderedSegment :=
  match node with NMessage m => renderMessage m params | NSystemEvent e => renderSystemEvent e params end.
Definition Render (ic : IntermediateContext) (params : RenderParams) : RenderedContext :=
  map (fun node => renderNode node params) (icNodes ic).
Definition RCToXML (rc : RenderedContext) : str :=
  flat_map (fun seg => flat_map (fun p => if str_eqb (rpType p) (lit "text") then rpText p else lit "[thumbnail]") (sgContent seg) ++ [nl]) rc.
End render.

(** ** The tags of a text *)
Definition lt_byte : ascii := "<"%char.
Definition tag_byte (c : ascii) : bool := in_range 97 122 (byte_val c) || Ascii.eqb c "-"%char || Ascii.eqb c "/"%char.
Fixpoint take_while {A} (p : A -> bool) (l : list A) : list A :=
  match l with [] => [] | x :: r => if p x then x :: take_while p r else [] end.
(** The names after each [<], in order. *)
Fixpoint tags (s : str) : list str :=
  match s with [] => [] | c :: r => if Ascii.eqb c lt_byte then take_while tag_byte r :: tags r else tags r end.
(** Every name is ended by a byte that belongs to no name. *)
Fixpoint tags_end (s : str) : bool :=
  match s with [] => true | c :: r => (negb (Ascii.eqb c lt_byte) || existsb (fun b => negb (tag_byte b)) r) && tags_end r end.
Definition inline_names : list str :=
  map lit ["code"; "pre"; "b"; "i"; "u"; "s"; "spoiler"; "blockquote"; "a"; "mention"; "in-reply-to"]%string.
Definition plain (s : str) : Prop := lt_byte ∉ s.
Definition attachment_types (m : ICMessage) : list str := map atType (imAttachments m).
Definition block_names : list str := map lit ["message"; "/message"; "event"; "/event"]%string.
Section shapes.
Context {P : Printable}.
(** Opening and closing tags of inline elements, properly nested, and
    attachments. The type of an attachment is the one text written without
    escaping: quoted, it may bring tags of its own. *)
Inductive nested (types : list str) : list str -> Prop :=
  | nested_nil : nested types []
  | nested_app a b : nested types a -> nested types b -> nested types (a ++ b)
  | nested_element name inner : name ∈ inline_names -> nested types inner -> nested types (name :: inner ++ [lit "/" ++ name])
  | nested_attachment type : type ∈ types -> nested types (lit "attachment" :: tags (go_quote type))
  | nested_image type : type ∈ types -> nested types (lit "image" :: tags (go_quote type) ++ [lit "/image"]).
(** What one node of a timeline may contribute. *)
Inductive node_tags : ICNode -> list str -> Prop :=
  | tags_deleted m : imDeleted m = true -> node_tags (NMessage m) [lit "message"]
  | tags_message m inner : imDeleted m = false -> nested (attachment_types m) inner ->
      (Forall plain (attachment_types m) -> Forall (fun name => name ∉ block_names) inner) ->
      node_tags (NMessage m) (lit "message" :: inner ++ [lit "/message"])
  | tags_unknown_event e : node_tags (NSystemEvent e) []
  | tags_event e : node_tags (NSystemEvent e) [lit "event"]
  | tags_event_text e : node_tags (NSystemEvent e) [lit "event"; lit "/event"].
Definition well (types : list str) (s : str) : Prop := tags_end s = true /\ nested types (tags s).
End shapes.

Lemma tags_app a b : tags_end a = true -> tags (a ++ b) = tags a ++ tags b.
Proof.
  induction a as [|c a IH]; [done|]. cbn [tags_end app tags]. intros [H1 H2]%andb_true_iff. rewrite IH by done.
  destruct (Ascii.eqb c lt_byte); [|done]. cbn [negb orb] in H1. cbn [app]. f_equal.
  clear -H1. induction a as [|x a IH]; [done|]. cbn [app take_while existsb] in *. destruct (tag_byte x); [|done]. f_equal. by apply IH.
Qed.
Lemma tags_end_app a b : tags_end a = true -> tags_end b = true -> tags_end (a ++ b) = true.
Proof.
  induction a as [|c a IH]; [done|]. cbn [tags_end app]. intros [H1 H2]%andb_true_iff Hb. rewrite IH, andb_true_r by done.
  destruct (Ascii.eqb c lt_byte); [|done]. cbn [negb orb] in *. by rewrite existsb_app, H1.
Qed.
Lemma plain_tags s : plain s -> tags s = [] /\ tags_end s = true.
Proof.
  unfold plain. induction s as [|c s IH]; [done|]. intros [Hc Hs]%not_elem_of_cons. cbn [tags tags_end].
  destruct (Ascii.eqb_spec c lt_byte) as [->|_]; [done|]. cbn. by apply IH.
Qed.
Lemma plain_app a b : plain a -> plain b -> plain (a ++ b).
Proof. unfold plain. set_solver. Qed.
Lemma plain_cons c s : c <> lt_byte -> plain s -> plain (c :: s).
Proof. unfold plain. set_solver. Qed.
Lemma plain_nil : plain [].
Proof. apply not_elem_of_nil. Qed.
Lemma plain_flat_map {A} (f : A -> str) l : (forall x, x ∈ l -> plain (f x)) -> plain (flat_map f l).
Proof.
  induction l as [|x l IH]; intros H; [apply plain_nil|]. cbn. apply plain_app; [apply H; by left|]. apply IH. intros y Hy. apply H. by right.
Qed.
Lemma plain_join sep l : plain sep -> (forall x, x ∈ l -> plain x) -> plain (join sep l).
Proof.
  intros Hs. induction l as [|x l IH]; intros H; [apply plain_nil|]. destruct l as [|y l]; [apply H; by left|].
  cbn [join] in *. apply plain_app; [apply H; by left|]. apply plain_app; [done|]. apply IH. intros z Hz. apply H. by right.
Qed.
Lemma plain_lit s : bool_decide (plain (lit s)) = true -> plain (lit s).
Proof. apply bool_decide_eq_true_1. Qed.
Lemma well_app {P : Printable} types a b : well types a -> well types b -> well types (a ++ b).
Proof. intros [A1 A2] [B1 B2]. split; [by apply tags_end_app|]. rewrite tags_app by done. by apply nested_app. Qed.
Lemma well_plain {P : Printable} types s : plain s -> well types s.
Proof. intros [H1 H2]%plain_tags. split; [done|]. rewrite H1. constructor. Qed.
Lemma well_flat_map {P : Printable} types {A} (f : A -> str) l : (forall x, x ∈ l -> well types (f x)) -> well types (flat_map f l).
Proof.
  induction l as [|x l IH]; intros H; [apply well_plain, plain_nil|]. cbn. apply well_app; [apply H; by left|]. apply IH. intros y Hy. apply H. by right.
Qed.
Lemma well_join {P : Printable} types sep l : well types sep -> (forall x, x ∈ l -> well types x) -> well types (join sep l).
Proof.
  intros Hs. induction l as [|x l IH]; intros H; [apply well_plain, plain_nil|]. destruct l as [|y l]; [apply H; by left|].
  cbn [join] in *. apply well_app; [apply H; by left|]. apply well_app; [done|]. apply IH. intros z Hz. apply H. by right.
Qed.

(** ** What is written as data is plain *)
Lemma hex_plain w n : plain (hex_pad w n).
Proof.
  revert n. induction w as [|w IH]; intros n; [apply plain_nil|]. cbn [hex_pad]. apply plain_app; [apply IH|]. apply plain_cons; [|apply plain_nil].
  unfold hex_digit. pose proof (Z.mod_pos_bound n 16 ltac:(done)) as H. set (k := Z.to_nat (n mod 16)). assert (k < 16)%nat by lia. clearbody k.
  do 16 (destruct k as [|k]; [done|]). lia.
Qed.
Lemma decoded_plain s q : plain s -> q ∈ decode s -> plain q.2.
Proof.
  unfold plain. intros Hs Hq Hc. apply Hs. rewrite <- (undecode_decode s). apply list_elem_of_In, in_concat. exists q.2.
  split; apply list_elem_of_In; [by apply list_elem_of_fmap_2|done].
Qed.
Lemma quote_rune_plain {P : Printable} q : plain q.2 -> plain (quote_rune q).
Proof.
  destruct q as [r bytes]. cbn [snd]. intros Hb. unfold quote_rune.
  repeat case_match; try done; try (apply plain_lit; by vm_compute); try (apply plain_app; [apply plain_lit; by vm_compute|apply hex_plain]).
  by apply plain_cons.
Qed.
Lemma go_quote_plain {P : Printable} s : plain s -> plain (go_quote s).
Proof.
  intros Hs. unfold go_quote. apply plain_cons; [done|]. apply plain_app; [|by apply plain_cons, plain_nil].
  apply plain_flat_map. intros q Hq. apply quote_rune_plain. by eapply decoded_plain.
Qed.
Lemma escape_plain b s : plain (flat_map (escape_byte b) s).
Proof.
  apply plain_flat_map. intros c _. unfold escape_byte. repeat case_match; try (apply plain_lit; by vm_compute).
  apply plain_cons; [|apply plain_nil]. intros ->. done.
Qed.
Lemma pretty_plain x s : plain (lit s) -> plain (lit (pretty_N_go x s)).
Proof.
  revert s. induction (N.lt_wf_0 x) as [x _ IH]; intros s Hs. assert (x = 0 \/ 0 < x)%N as [->|Hx] by lia; [by rewrite pretty_N_go_0|].
  rewrite pretty_N_go_step by done. apply IH; [by apply N.div_lt|]. apply plain_cons; [|done].
  unfold pretty_N_char. by repeat case_match.
Qed.
Lemma itoa_plain z : plain (itoa z).
Proof.
  assert (HN : forall n : N, plain (lit (pretty n))).
  { intros n. unfold pretty, pretty_N. case_decide; [apply plain_lit; by vm_compute|apply pretty_plain, plain_nil]. }
  unfold itoa, pretty, pretty_Z. destruct z; [apply plain_lit; by vm_compute|apply HN|]. apply plain_cons; [done|apply HN].
Qed.
Ltac plain_tac := repeat case_match; repeat (apply plain_app || apply go_quote_plain || apply escape_plain || apply itoa_plain ||
  (apply plain_lit; vm_compute; reflexivity)); try done.
Lemma pad2_plain n : plain (pad2 n).
Proof. unfold pad2. plain_tac. Qed.
Lemma timestamp_plain s o : plain (formatTimestamp s o).
Proof. unfold formatTimestamp. destruct (civil_from_days _) as [[y m] d]. repeat (apply plain_app || apply pad2_plain); plain_tac. Qed.
Section plain.
Context {U : Unicode} {P : Printable}.
Lemma attr_plain name value : plain (lit name) -> plain value -> plain (attr (lit name) value).
Proof. intros. unfold attr. plain_tac. Qed.
Lemma xml_attr_plain name value : plain (lit name) -> plain (xml_attr (lit name) value).
Proof. intros. apply attr_plain; [done|]. apply escape_plain. Qed.
Lemma spaced_plain attrs : Forall plain attrs -> plain (spaced attrs).
Proof. intros H. apply plain_join; [apply plain_lit; by vm_compute|]. by apply Forall_forall. Qed.
End plain.

(** ** What is written as markup is properly nested *)
Lemma tag_piece name c rest : forallb tag_byte name = true -> plain name -> tag_byte c = false -> plain (c :: rest) ->
  tags (lt_byte :: name ++ c :: rest) = [name] /\ tags_end (lt_byte :: name ++ c :: rest) = true.
Proof.
  intros Hn Hp Hc Hr. destruct (plain_tags (name ++ c :: rest)) as [H1 H2]; [by apply plain_app|].
  cbn [tags tags_end]. rewrite Ascii.eqb_refl, H1, H2, andb_true_r. cbn [negb orb]. split.
  - f_equal. clear -Hn Hc. induction name as [|x name IH]; cbn [app take_while]; [by rewrite Hc|].
    apply andb_true_iff in Hn as [H1 H2]. rewrite H1. f_equal. by apply IH.
  - rewrite existsb_app. cbn [existsb]. rewrite Hc. by rewrite orb_true_r.
Qed.
Lemma inline_name_ok name : name ∈ inline_names ->
  forallb tag_byte name = true /\ plain name /\ forallb tag_byte (lit "/" ++ name) = true /\ plain (lit "/" ++ name).
Proof.
  revert name. apply Forall_forall. unfold inline_names. cbn [map].
  repeat (constructor; [split_and!; [vm_compute; reflexivity|apply plain_lit; vm_compute; reflexivity|vm_compute; reflexivity|by apply (bool_decide_eq_true_1 (plain _))]|]).
  constructor.
Qed.
Lemma element_well {P : Printable} types name c rest inner s : name ∈ inline_names -> tag_byte c = false -> plain (c :: rest) -> well types inner ->
  s = (lt_byte :: name ++ c :: rest) ++ inner ++ (lt_byte :: (lit "/" ++ name) ++ [">"%char]) -> well types s.
Proof.
  intros Hn Hc Hr [I1 I2] ->. destruct (inline_name_ok name Hn) as (N1 & N2 & N3 & N4).
  destruct (tag_piece name c rest) as [O1 O2]; [done..|].
  destruct (tag_piece (lit "/" ++ name) ">"%char []) as [C1 C2]; [done|done|done|by apply plain_cons, plain_nil|].
  split; [repeat apply tags_end_app; done|]. rewrite !tags_app by done. rewrite O1, C1. by apply nested_element.
Qed.
Lemma element_tag_well {P : Printable} types name inner : lit name ∈ inline_names -> well types inner -> well types (xml_element (lit name) inner).
Proof.
  intros Hn Hi. eapply (element_well types (lit name) ">"%char [] inner); [done|done|by apply plain_cons, plain_nil|done|].
  unfold xml_element. cbn [app]. rewrite <- !app_assoc. reflexivity.
Qed.
Lemma lit_app a b : lit (a +:+ b) = lit a ++ lit b.
Proof. induction a as [|c a IH]; [done|]. change (c :: lit (a +:+ b) = c :: (lit a ++ lit b)). by rewrite IH. Qed.
Lemma open_tag_well {P : Printable} types name attrs inner : lit name ∈ inline_names -> plain attrs -> well types inner ->
  well types (lit ("<" +:+ name +:+ " ") ++ attrs ++ lit ">" ++ inner ++ lit ("</" +:+ name +:+ ">")).
Proof.
  intros Hn Ha Hi. eapply (element_well types (lit name) " "%char (attrs ++ lit ">") inner); [done|done| |done|].
  - apply plain_cons; [done|]. apply plain_app; [done|]. by apply plain_cons, plain_nil.
  - rewrite !lit_app. cbn [app lit list_ascii_of_string]. rewrite <- !app_assoc. cbn [app]. rewrite <- !app_assoc. reflexivity.
Qed.
Lemma escape_well {P : Printable} types b s : well types (flat_map (escape_byte b) s).
Proof. apply well_plain, escape_plain. Qed.
(** Induction over nested content. *)
Fixpoint content_ind (Q : ContentNode -> Prop)
  (H : forall type text language url userID children, Forall Q children -> Q (mkContent type text language url userID children))
  (n : ContentNode) {struct n} : Q n :=
  match n with mkContent type text language url userID children =>
    H type text language url userID children
      ((fix go (l : list ContentNode) : Forall Q l :=
          match l with [] => Forall_nil_2 Q | x :: r => Forall_cons_2 Q x r (content_ind Q H x) (go r) end) children)
  end.
Lemma tags_end_last s c : tag_byte c = false -> Ascii.eqb c lt_byte = false -> tags_end (s ++ [c]) = true.
Proof.
  intros Hc Hl. induction s as [|d s IH]; cbn [app tags_end]; [by rewrite Hl|].
  rewrite IH, existsb_app. cbn [existsb]. rewrite Hc. cbn. by rewrite orb_true_r, orb_true_r.
Qed.
Lemma go_quote_end {P : Printable} s : tags_end (go_quote s) = true.
Proof. unfold go_quote. by apply (tags_end_last (dquote :: _) dquote). Qed.
Section well.
Context {U : Unicode} {P : Printable} (types : list str).
Notation well := (well types).
Notation open_tag_well := (open_tag_well types).
Notation element_tag_well := (element_tag_well types).
Ltac inline := apply (bool_decide_eq_true_1 (_ ∈ inline_names)); vm_compute; reflexivity.
Lemma content_node_well n : well (renderContentNode n).
Proof.
  induction n as [type text language url userID children IH] using content_ind. cbn [renderContentNode].
  assert (Hi : well (flat_map renderContentNode children)).
  { apply well_flat_map. by apply Forall_forall. }
  repeat case_match; try done; try apply escape_well; try (apply well_plain, plain_nil);
    try (apply element_tag_well; [inline|done || apply escape_well]).
  - apply (element_tag_well "pre"); [inline|apply escape_well].
  - rewrite <- ?app_assoc. apply (open_tag_well "pre"); [inline|by apply xml_attr_plain, plain_lit|apply escape_well].
  - rewrite <- ?app_assoc. apply (open_tag_well "a"); [inline|by apply xml_attr_plain, plain_lit|exact Hi].
  - apply (element_tag_well "mention"); [inline|exact Hi].
  - rewrite <- ?app_assoc. apply (open_tag_well "mention"); [inline|by apply xml_attr_plain, plain_lit|exact Hi].
Qed.
Lemma opt_attr_plain name value : plain (lit name) -> Forall plain (opt_attr (lit name) value).
Proof. intros H. unfold opt_attr. destruct (is_empty value); [constructor|]. constructor; [by apply xml_attr_plain|constructor]. Qed.
Ltac literal := apply plain_lit; vm_compute; reflexivity.
Ltac attrs := repeat lazymatch goal with
  | |- Forall _ (_ ++ _) => apply Forall_app_2
  | |- Forall _ [] => apply Forall_nil_2
  | |- Forall _ (opt_attr _ _) => apply opt_attr_plain; literal
  | |- Forall _ (xml_attr _ _ :: _) => apply Forall_cons_2; [apply xml_attr_plain; literal|]
  | |- Forall _ (attr _ _ :: _) => apply Forall_cons_2; [apply attr_plain; [literal|]|]
  | |- Forall _ _ => case_match
  end.
(** The attributes of an attachment after its type. *)
Definition more_attrs (att : Attachment) : list str :=
  opt_attr (lit "mime") (atMimeType att) ++ opt_attr (lit "name") (atFileName att) ++
  (if (0 <? atWidth att) && (0 <? atHeight att)
   then [attr (lit "size") (itoa (atWidth att) ++ lit "x" ++ itoa (atHeight att))] else []) ++
  (if 0 <? atDuration att then [attr (lit "duration") (itoa (atDuration att))] else []) ++
  opt_attr (lit "path") (atFilePath att).
Lemma more_attrs_plain att : plain (flat_map (fun a => lit " " ++ a) (more_attrs att)).
Proof.
  apply plain_flat_map. apply Forall_forall. eapply Forall_impl; [|intros x Hx; apply plain_app; [literal|exact Hx]].
  unfold more_attrs. attrs; repeat apply plain_app; try apply itoa_plain. literal.
Qed.
Lemma spaced_attrs a l : spaced (a :: l) = a ++ flat_map (fun y => lit " " ++ y) l.
Proof. unfold spaced. revert a. induction l as [|b l IH]; intros a; [by rewrite app_nil_r|]. rewrite join_cons by done. by rewrite IH. Qed.
Lemma typed_tag name type rest : forallb tag_byte name = true -> plain name -> plain rest ->
  let s := lt_byte :: name ++ lit " type=" ++ go_quote type ++ rest in tags s = name :: tags (go_quote type) /\ tags_end s = true.
Proof.
  intros Hn Hp Hr. destruct (tag_piece name " "%char (lit "type=")) as [H1 H2]; [done|done|done|by apply plain_cons; [|literal]|].
  destruct (plain_tags rest Hr) as [R1 R2]. pose proof (go_quote_end type) as Q. cbv zeta.
  replace (lt_byte :: name ++ lit " type=" ++ go_quote type ++ rest) with ((lt_byte :: name ++ " "%char :: lit "type=") ++ go_quote type ++ rest)
    by (cbn [app]; rewrite <- ?app_assoc; reflexivity).
  rewrite !tags_app, H1, R1, app_nil_r by done. split; [done|]. by do 2 (apply tags_end_app; [done|]).
Qed.
Lemma attachment_well att : atType att ∈ types -> well (renderAttachment att).
Proof.
  intros Ht. unfold renderAttachment. cbv zeta. change ([attr (lit "type") (atType att)] ++ _) with (attr (lit "type") (atType att) :: more_attrs att).
  rewrite spaced_attrs. pose proof (more_attrs_plain att) as Hm. set (tail := flat_map _ _) in *. clearbody tail. unfold attr.
  destruct (is_empty (atAltText att)).
  - destruct (typed_tag (lit "attachment") (atType att) (tail ++ lit "/>")) as [H1 H2]; [done|literal|apply plain_app; [done|literal]|].
    replace (lit "<attachment " ++ ((lit "type" ++ lit "=" ++ go_quote (atType att)) ++ tail) ++ lit "/>") with
      (lt_byte :: lit "attachment" ++ lit " type=" ++ go_quote (atType att) ++ tail ++ lit "/>") by (rewrite <- !app_assoc; reflexivity).
    split; [exact H2|]. rewrite H1. by constructor.
  - destruct (typed_tag (lit "image") (atType att) (tail ++ lit ">" ++ escapeXMLText (atAltText att))) as [H1 H2]; [done|literal| |].
    { apply plain_app; [done|]. apply plain_app; [literal|apply escape_plain]. }
    destruct (tag_piece (lit "/image") ">"%char []) as [C1 C2]; [done|literal|done|by apply plain_cons, plain_nil|].
    replace (lit "<image " ++ ((lit "type" ++ lit "=" ++ go_quote (atType att)) ++ tail) ++ lit ">" ++ escapeXMLText (atAltText att) ++ lit "</image>") with
      ((lt_byte :: lit "image" ++ lit " type=" ++ go_quote (atType att) ++ tail ++ lit ">" ++ escapeXMLText (atAltText att)) ++ lt_byte :: lit "/image" ++ [">"%char])
      by (rewrite <- !app_assoc; cbn [app]; rewrite <- ?app_assoc; reflexivity).
    split; [by apply tags_end_app|]. rewrite tags_app, H1, C1 by done. by apply nested_image.
Qed.
Lemma messageAttrs_plain msg params a b c : Forall plain (messageAttrs msg params a b c).
Proof. unfold messageAttrs. cbv zeta. attrs; try apply timestamp_plain; literal. Qed.
Lemma messageParts_well msg params part : attachment_types msg ⊆ types -> part ∈ messageParts msg params -> well part.
Proof.
  intros Ha. unfold messageParts. cbv zeta. rewrite !elem_of_app. intros [H|[H|H]].
  - destruct (is_empty _); [by apply not_elem_of_nil in H|]. apply list_elem_of_singleton in H as ->.
    apply (open_tag_well "in-reply-to"); [inline| |apply escape_well]. apply spaced_plain. attrs.
  - destruct (is_empty _); [by apply not_elem_of_nil in H|]. apply list_elem_of_singleton in H as ->.
    apply well_flat_map. intros n _. apply content_node_well.
  - apply list_elem_of_fmap in H as (att & -> & Hatt). apply attachment_well, Ha. unfold attachment_types. by apply list_elem_of_fmap_2.
Qed.
Lemma nested_names l : nested types l -> Forall plain types -> Forall (fun name => name ∉ block_names) l.
Proof.
  assert (Hok : Forall (fun name => name ∉ block_names /\ (lit "/" ++ name) ∉ block_names) inline_names).
  { apply (bool_decide_eq_true_1 (Forall _ _)). by vm_compute. }
  intros Hn Hp. rewrite Forall_forall in Hp. assert (Hq : forall type, type ∈ types -> tags (go_quote type) = []).
  { intros type Ht. by apply plain_tags, go_quote_plain, Hp. }
  induction Hn as [|a b _ IHa _ IHb|name inner Hn _ IH|type Ht|type Ht]; [constructor|by apply Forall_app_2| | |].
  - rewrite Forall_forall in Hok. destruct (Hok name Hn). constructor; [done|]. apply Forall_app_2; [done|]. by constructor.
  - rewrite Hq by done. apply (bool_decide_eq_true_1 (Forall _ _)). by vm_compute.
  - rewrite Hq by done. apply (bool_decide_eq_true_1 (Forall _ _)). by vm_compute.
Qed.
End well.
Section nodes.
Context {U : Unicode} {P : Printable}.
Ltac literal := apply plain_lit; vm_compute; reflexivity.
Definition good (n : ICNode) (text : str) : Prop := tags_end text = true /\ node_tags n (tags text).
Lemma message_good msg params : good (NMessage msg) (flat_map rpText (sgContent (renderMessage msg params))).
Proof.
  unfold renderMessage. cbv zeta. set (l := messageAttrs _ _ _ _ _). assert (Hl : plain (spaced l)) by apply spaced_plain, messageAttrs_plain.
  destruct (imDeleted msg) eqn:Ed; cbn [sgContent flat_map textPiece rpText]; rewrite app_nil_r.
  - destruct (tag_piece (lit "message") " "%char (spaced l ++ lit "/>")) as [H1 H2]; [done|literal|done| |].
    { apply plain_cons; [done|]. apply plain_app; [exact Hl|literal]. }
    change (good (NMessage msg) (lt_byte :: lit "message" ++ " "%char :: spaced l ++ lit "/>")). split; [exact H2|]. rewrite H1. by constructor.
  - destruct (tag_piece (lit "message") " "%char (spaced l ++ lit ">" ++ [nl])) as [H1 H2]; [done|literal|done| |].
    { apply plain_cons; [done|]. apply plain_app; [exact Hl|]. apply plain_cons; [done|]. by apply plain_cons, plain_nil. }
    destruct (tag_piece (lit "/message") ">"%char []) as [C1 C2]; [done|literal|done|by apply plain_cons, plain_nil|].
    assert (Hi : well (attachment_types msg) (join [nl] (messageParts msg params) ++ [nl])).
    { apply well_app; [|by apply well_plain, plain_cons, plain_nil]. apply well_join; [by apply well_plain, plain_cons, plain_nil|].
      intros part. by apply (messageParts_well _ msg params). }
    set (body := join [nl] (messageParts msg params) ++ [nl]) in *.
    assert (He : messageText l (messageParts msg params) =
                 (lt_byte :: lit "message" ++ " "%char :: spaced l ++ lit ">" ++ [nl]) ++ body ++ lt_byte :: lit "/message" ++ [">"%char]).
    { unfold messageText, body. cbn [lit list_ascii_of_string app]. rewrite <- ?app_assoc. cbn [app]. rewrite <- ?app_assoc. reflexivity. }
    rewrite He. destruct Hi as [I1 I2]. clearbody body. split; [by do 2 (apply tags_end_app; [done|])|]. rewrite !tags_app by done. rewrite H1, C1.
    apply tags_message; [done|done|by apply nested_names].
Qed.
Lemma tag_good e rest : plain (" "%char :: rest) -> good (NSystemEvent e) (lt_byte :: lit "event" ++ " "%char :: rest).
Proof.
  intros H. destruct (tag_piece (lit "event") " "%char rest) as [H1 H2]; [done|literal|done|done|]. split; [exact H2|]. rewrite H1. constructor.
Qed.
Lemma eventTag_cons kind t actorAttr rest :
  eventTag kind t actorAttr rest = lt_byte :: lit "event" ++ " "%char :: attr (lit "type") kind ++ lit " " ++ attr (lit "t") t ++ actorAttr ++ rest.
Proof. reflexivity. Qed.
Lemma event_good e names : good (NSystemEvent e) (renderSystemEventXML e names).
Proof.
  unfold renderSystemEventXML. cbv zeta. set (t := formatTimestamp _ _). assert (Ht : plain t) by apply timestamp_plain.
  set (actorAttr := match iyActor e with Some _ => _ | None => _ end).
  assert (Hs : forall name value, plain (lit name) -> plain (lit " " ++ xml_attr (lit name) value)).
  { intros. apply plain_app; [literal|by apply xml_attr_plain]. }
  assert (Ha : plain actorAttr).
  { unfold actorAttr. destruct (iyActor e); [apply (Hs "actor"%string); literal|apply plain_nil]. }
  clearbody t actorAttr.
  assert (Hd : forall kind actor rest, plain (lit kind) -> plain actor -> plain rest -> good (NSystemEvent e) (eventTag (lit kind) t actor rest)).
  { intros kind actor rest Hk Hac Hr. rewrite eventTag_cons. apply tag_good. apply plain_cons; [done|].
    apply plain_app; [apply attr_plain; [literal|done]|]. apply plain_app; [literal|]. apply plain_app; [apply attr_plain; [literal|done]|]. by apply plain_app. }
  repeat match goal with |- context[if str_eqb (iyKind e) ?k then _ else _] => destruct (str_eqb (iyKind e) k) end;
    try (split; [done|constructor]).
  all: try (apply Hd; [literal|exact Ha || apply plain_nil|];
    solve [repeat first [apply Hs; literal | literal | apply plain_nil | case_match | apply plain_app]]).
  destruct (is_empty (iyPinnedPreview e)); [apply Hd; [literal|exact Ha|]; apply plain_app; [apply Hs|]; literal|].
  set (opening := eventTag (lit "message_pinned") t actorAttr ((lit " " ++ xml_attr (lit "message_id") (iyPinnedMessageID e)) ++ lit ">")).
  assert (Ho : tags opening = [lit "event"] /\ tags_end opening = true).
  { unfold opening. rewrite eventTag_cons. apply tag_piece; [done|literal|done|]. apply plain_cons; [done|].
    apply plain_app; [apply attr_plain; literal|]. apply plain_app; [literal|]. apply plain_app; [apply attr_plain; [literal|done]|].
    apply plain_app; [exact Ha|]. apply plain_app; [apply Hs|]; literal. }
  destruct (tag_piece (lit "/event") ">"%char []) as [C1 C2]; [done|literal|done|by apply plain_cons, plain_nil|].
  destruct (plain_tags (escapeXMLText (iyPinnedPreview e))) as [P1 P2]; [apply escape_plain|]. destruct Ho as [O1 O2].
  assert (He : eventTag (lit "message_pinned") t actorAttr ((lit " " ++ xml_attr (lit "message_id") (iyPinnedMessageID e)) ++ lit ">" ++
      escapeXMLText (iyPinnedPreview e) ++ lit "</event>") = opening ++ escapeXMLText (iyPinnedPreview e) ++ lt_byte :: lit "/event" ++ [">"%char]).
  { unfold opening, eventTag. rewrite <- ?app_assoc. reflexivity. }
  rewrite He. clearbody opening. split; [by do 2 (apply tags_end_app; [done|])|]. rewrite !tags_app by done. rewrite O1, P1, C1. constructor.
Qed.
Lemma node_text n params :
  flat_map (fun p => if str_eqb (rpType p) (lit "text") then rpText p else lit "[thumbnail]") (sgContent (renderNode n params)) =
  flat_map rpText (sgContent (renderNode n params)).
Proof. destruct n as [m|e]; cbn [renderNode]; [|done]. unfold renderMessage. cbv zeta. by destruct (imDeleted m). Qed.
Lemma node_good n params : good n (flat_map rpText (sgContent (renderNode n params))).
Proof.
  destruct n as [m|e]; [apply message_good|]. cbn [renderNode renderSystemEvent sgContent textPiece flat_map rpText].
  rewrite app_nil_r. apply event_good.
Qed.
End nodes.

(** C20: the rendered timeline has the tags of its nodes, whatever their
    senders write: each message contributes one opening and one closing
    [message] tag around properly nested inline tags, whatever its sender,
    texts, links, previews and file names contain. The one text that can bring
    tags of its own is the type of an attachment, which is quoted and not
    escaped; between the tags of a message whose attachments have types without
    markup there is no tag of another message or event. *)
Theorem content_forges_no_tag {U : Unicode} {P : Printable} ic params :
  exists per_node, Forall2 node_tags (icNodes ic) per_node /\ tags (RCToXML (Render ic params)) = List.concat per_node.
Proof.
  unfold RCToXML, Render. enough (exists per_node, Forall2 node_tags (icNodes ic) per_node /\
    tags (flat_map (fun n => flat_map rpText (sgContent (renderNode n params)) ++ [nl]) (icNodes ic)) = List.concat per_node) as (per & H1 & H2).
  { exists per. split; [done|]. rewrite <- H2. f_equal. clear. induction (icNodes ic) as [|n nodes IH]; [done|]. cbn [map flat_map].
    by rewrite node_text, IH. }
  induction (icNodes ic) as [|n nodes (per & IH1 & IH2)]; [by exists []|]. destruct (node_good n params) as [G1 G2].
  exists (tags (flat_map rpText (sgContent (renderNode n params))) :: per). split; [by constructor|]. cbn [flat_map List.concat].
  rewrite <- app_assoc, tags_app by done. f_equal. cbn [app]. by rewrite <- IH2.
Qed.

(** An attachment's type is the one attribute written without escaping: a type
    that holds markup adds tags to the message. *)
Definition plain_ascii : Printable := {| uni_print := fun _ => false |}.
Definition forged_attachment : Attachment := mkAttachment (lit "x/></message><message") [] [] 0 0 0 [] [] [] [].
Definition quiet_message (content : list ContentNode) (attachments : list Attachment) : ICMessage :=
  mkICMessage (lit "1") (Some (mkUser (lit "u") (lit "A<b>") [] false)) 0 0 0 0 content [] None [] None attachments 0 0 false false false false
    (mkConversation (lit "c") [] [] []).
Theorem attachment_type_unescaped :
  tags (@RCToXML (@Render ascii_unicode plain_ascii (mkIC [] [NMessage (quiet_message [] [forged_attachment])] ∅ []) (mkParams [] ∅))) =
  map lit ["message"; "attachment"; "/message"; "message"; "/message"]%string.
Proof. vm_compute. reflexivity. Qed.
(** The tags of a text that tries to close its message. *)
Example text_closes_nothing :
  tags (@RCToXML (@Render ascii_unicode plain_ascii (mkIC [] [NMessage (quiet_message [mkContent (lit "text") (lit "</message><message id=1>") [] [] [] []] [])]
    ∅ []) (mkParams [] ∅))) = map lit ["message"; "/message"]%string.
Proof. vm_compute. reflexivity. Qed.
