(* ===== verification/TimelineCache.v ===== *)
(** * The cache of chat timelines

    Models [internal/chat/timeline/pipeline.go]: the projections and rendered
    contexts of the sessions in memory, updated event by event, and dropped
    when they are old or too large.  The mutex makes an operation one step; it
    takes the reading of [options.Now()] it makes.  The recency list is the
    list of session ids, most recent first.  What [json.Marshal] makes of a
    node, a segment and an event is a parameter; logging is left out.  Rendered
    contexts are values: the code detaches a slice before it writes into it, so
    a snapshot handed out is never changed. *)

From S2P Require Import Prelude GoStr Timeline TimelineRender.
#[local] Open Scope Z_scope.

(** ** Options and state *)
Definition defaultPipelineMaxSessions : Z := 256.
Definition defaultPipelineMaxResidentByte : Z := Z.shiftl 256 20.
Definition defaultPipelineTTL : Z := 6 * 3600 * 1000000000.
Record PipelineOptions : Type := mkOptions { MaxSessions : Z; MaxResidentByte : Z; TTL : Z }.
Record PipelineStats : Type := mkStats {
  ResidentSessions : Z; ResidentBytes : Z; ReplayEvents : Z; ReplayBytes : Z; Evictions : Z; EvictedBytes : Z }.
Record pipelineSession : Type := mkSession { psIC : IntermediateContext; psRC : RenderedContext; psResidentBytes : Z; psLastAccess : Z }.
Record Pipeline : Type := mkPipeline {
  plRenderParams : RenderParams; plSessions : gmap str pipelineSession; plLru : list str; plOptions : PipelineOptions;
  plStats : PipelineStats }.
Definition NewPipelineWithOptions (params : RenderParams) (options : PipelineOptions) : Pipeline :=
  let or_default v default := if v =? 0 then default else v in
  mkPipeline params ∅ []
    (mkOptions (or_default (MaxSessions options) defaultPipelineMaxSessions)
       (or_default (MaxResidentByte options) defaultPipelineMaxResidentByte) (or_default (TTL options) defaultPipelineTTL))
    (mkStats 0 0 0 0 0 0).
Definition NewPipeline (params : RenderParams) : Pipeline := NewPipelineWithOptions params (mkOptions 0 0 0).
Definition with_sessions (p : Pipeline) (sessions : gmap str pipelineSession) (lru : list str) (stats : PipelineStats) : Pipeline :=
  mkPipeline (plRenderParams p) sessions lru (plOptions p) stats.

(** ** Sizes *)
Class Encoder : Type := {
  json_node : ICNode -> option str;
  json_segment : RenderedSegment -> option str;
  json_event : CanonicalEvent -> option str }.
Definition estimateJSONBytes (encoded : option str) : Z := match encoded with Some s => Z.of_nat (length s) | None => 0 end.
Definition total_of {A} (f : A -> Z) (l : list A) : Z := fold_right (fun x n => f x + n) 0 l.
Fixpoint dirtyLoop (seen : list nat) (indexes : list nat) : list nat :=
  match indexes with
  | [] => []
  | idx :: r => if bool_decide (idx ∈ seen) then dirtyLoop seen r else idx :: dirtyLoop (idx :: seen) r
  end.
Definition dirtyUnique (indexes : list nat) : list nat := dirtyLoop [] indexes.
(** The recency list: an element is the session it holds. *)
Definition lru_remove (sessionID : str) (lru : list str) : list str := List.filter (fun id => negb (str_eqb id sessionID)) lru.

Section cache.
Context {U : Unicode} {P : Printable} {E : Encoder}.
Definition node_bytes (n : ICNode) : Z := estimateJSONBytes (json_node n).
Definition segment_bytes (s : RenderedSegment) : Z := estimateJSONBytes (json_segment s).
Definition estimateICBytes (ic : IntermediateContext) : Z := total_of node_bytes (icNodes ic).
Definition estimateRCBytes (rc : RenderedContext) : Z := total_of segment_bytes rc.
Fixpoint renderDirty (ic : IntermediateContext) (rc : RenderedContext) (residentBytes : Z) (dirty : list nat) (params : RenderParams)
  : RenderedContext * Z :=
  match dirty with
  | [] => (rc, residentBytes)
  | idx :: dirty =>
      match icNodes ic !! idx with
      | None => renderDirty ic rc residentBytes dirty params
      | Some node =>
          let segment := renderNode node params in
          match rc !! idx with
          | Some old => renderDirty ic (<[idx := segment]> rc) (residentBytes - segment_bytes old + segment_bytes segment) dirty params
          | None =>
              if (idx =? length rc)%nat
              then renderDirty ic (rc ++ [segment]) (residentBytes + (node_bytes node + segment_bytes segment)) dirty params
              else renderDirty ic rc residentBytes dirty params
          end
      end
  end.

(** ** Eviction *)
Definition recountResidentBytes (p : Pipeline) : Pipeline :=
  let s := plStats p in
  let total := map_fold (fun _ state n => psResidentBytes state + n) 0 (plSessions p) in
  with_sessions p (plSessions p) (plLru p)
    (mkStats (Z.of_nat (size (plSessions p))) total (ReplayEvents s) (ReplayBytes s) (Evictions s) (EvictedBytes s)).
Definition drop_session (p : Pipeline) (sessionID : str) : Pipeline :=
  match plSessions p !! sessionID with
  | None => p
  | Some state =>
      let sessions := delete sessionID (plSessions p) in
      let s := plStats p in
      let bytes := ResidentBytes s - psResidentBytes state in
      with_sessions p sessions (lru_remove sessionID (plLru p))
        (mkStats (Z.of_nat (size sessions)) (if bytes <? 0 then 0 else bytes) (ReplayEvents s) (ReplayBytes s) (Evictions s + 1)
           (EvictedBytes s + psResidentBytes state))
  end.
(** The loop of [evictExpired] over the ids from the back of the list. *)
Fixpoint expireLoop (now : Z) (oldest_first : list str) (p : Pipeline) : Pipeline :=
  match oldest_first with
  | [] => p
  | id :: r =>
      match plSessions p !! id with
      | None => p
      | Some state => if time_sub now (psLastAccess state) <? TTL (plOptions p) then p else expireLoop now r (drop_session p id)
      end
  end.
Definition evictExpired (p : Pipeline) (now : Z) : Pipeline :=
  if TTL (plOptions p) <? 0 then p else expireLoop now (rev (plLru p)) p.
Definition over_bounds (p : Pipeline) : bool :=
  ((0 <=? MaxSessions (plOptions p)) && (MaxSessions (plOptions p) <? Z.of_nat (size (plSessions p)))) ||
  ((0 <=? MaxResidentByte (plOptions p)) && (MaxResidentByte (plOptions p) <? ResidentBytes (plStats p))).
(** Every round drops the last id of the list, of which there are [fuel]. *)
Fixpoint boundLoop (fuel : nat) (p : Pipeline) : Pipeline :=
  match fuel, last (plLru p) with
  | S fuel, Some back => if over_bounds p then boundLoop fuel (drop_session p back) else p
  | _, _ => p
  end.
Definition enforceBounds (p : Pipeline) : Pipeline := boundLoop (length (plLru p)) p.
(** [drop] of the last element until the list is empty. *)
Fixpoint dropLoop (fuel : nat) (p : Pipeline) : Pipeline :=
  match fuel, last (plLru p) with S fuel, Some back => dropLoop fuel (drop_session p back) | _, _ => p end.

(** ** Operations *)
Definition touch (p : Pipeline) (sessionID : str) (state : pipelineSession) (now : Z) : Pipeline :=
  with_sessions p (<[sessionID := mkSession (psIC state) (psRC state) (psResidentBytes state) now]> (plSessions p))
    (sessionID :: lru_remove sessionID (plLru p)) (plStats p).
Definition dirtyNodeBytes (ic : IntermediateContext) (indexes : list nat) : Z :=
  total_of (fun idx => match icNodes ic !! idx with Some n => node_bytes n | None => 0 end) indexes.
Definition pushLocked (p : Pipeline) (sessionID : str) (state : pipelineSession) (event : CanonicalEvent) (now : Z)
  : Pipeline * RenderedContext :=
  let p := touch p sessionID state now in
  let existingDirty := dirtyUnique (dirtyIndexes (psIC state) event) in
  let oldDirtyNodeBytes := dirtyNodeBytes (psIC state) existingDirty in
  let '(ic, indexes) := reduceInPlace (psIC state) event in
  let '(rc, residentBytes) := renderDirty ic (psRC state) (psResidentBytes state) (dirtyUnique indexes) (plRenderParams p) in
  let newDirtyNodeBytes := dirtyNodeBytes ic existingDirty in
  let state := mkSession ic rc (residentBytes + (newDirtyNodeBytes - oldDirtyNodeBytes)) now in
  let p := recountResidentBytes (with_sessions p (<[sessionID := state]> (plSessions p)) (plLru p) (plStats p)) in
  (enforceBounds p, rc).
Definition PushEvent (p : Pipeline) (sessionID : str) (event : CanonicalEvent) (now : Z) : Pipeline * RenderedContext :=
  let p := evictExpired p now in
  match plSessions p !! sessionID with
  | Some state => pushLocked p sessionID state event now
  | None =>
      let state := mkSession (NewEmptyIC sessionID) [] 0 now in
      pushLocked (with_sessions p (<[sessionID := state]> (plSessions p)) (sessionID :: plLru p) (plStats p)) sessionID state event now
  end.
Definition PushResidentEvent (p : Pipeline) (sessionID : str) (event : CanonicalEvent) (now : Z) : Pipeline * RenderedContext :=
  let p := evictExpired p now in
  match plSessions p !! sessionID with
  | Some state => pushLocked p sessionID state event now
  | None => (p, Render (reduceInPlace (NewEmptyIC sessionID) event).1 (plRenderParams p))
  end.
Definition ReplaySession (p : Pipeline) (sessionID : str) (events : list CanonicalEvent) (now : Z) : Pipeline * RenderedContext :=
  let p := evictExpired p now in
  let ic := fold_left (fun ic event => (reduceInPlace ic event).1) events (NewEmptyIC sessionID) in
  let replayBytes := total_of (fun event => estimateJSONBytes (json_event event)) events in
  let rc := Render ic (plRenderParams p) in
  let lru := match plSessions p !! sessionID with Some _ => lru_remove sessionID (plLru p) | None => plLru p end in
  let s := plStats p in
  let stats := mkStats (ResidentSessions s) (ResidentBytes s) (ReplayEvents s + Z.of_nat (length events)) (ReplayBytes s + replayBytes)
      (Evictions s) (EvictedBytes s) in
  let state := mkSession ic rc (estimateICBytes ic + estimateRCBytes rc) now in
  (enforceBounds (recountResidentBytes (with_sessions p (<[sessionID := state]> (plSessions p)) (sessionID :: lru) stats)), rc).
(** The common part of the readers: the resident session, now the most recent. *)
Definition access (p : Pipeline) (sessionID : str) (now : Z) : Pipeline * option pipelineSession :=
  let p := evictExpired p now in
  match plSessions p !! sessionID with
  | None => (p, None)
  | Some state => (touch p sessionID state now, Some state)
  end.
Definition GetRC (p : Pipeline) (sessionID : str) (now : Z) : Pipeline * option RenderedContext :=
  let '(p, state) := access p sessionID now in (p, psRC <$> state).
Definition GetIC (p : Pipeline) (sessionID : str) (now : Z) : Pipeline * option IntermediateContext :=
  let '(p, state) := access p sessionID now in (p, psIC <$> state).
Definition HasSession (p : Pipeline) (sessionID : str) (now : Z) : Pipeline * bool :=
  let '(p, state) := access p sessionID now in (p, bool_decide (is_Some state)).
(** The order of the ids is that of a Go map, unspecified. *)
Definition SessionIDs (p : Pipeline) (now : Z) : Pipeline * gset str :=
  let p := evictExpired p now in (p, dom (plSessions p)).
Definition DropSession (p : Pipeline) (sessionID : str) : Pipeline := drop_session p sessionID.
Definition DropAll (p : Pipeline) : Pipeline := dropLoop (length (plLru p)) p.
Definition rerendered (params : RenderParams) (state : pipelineSession) : pipelineSession :=
  let rc := Render (psIC state) params in
  mkSession (psIC state) rc (estimateICBytes (psIC state) + estimateRCBytes rc) (psLastAccess state).
Definition UpdateRenderParams (p : Pipeline) (params : RenderParams) : Pipeline :=
  enforceBounds (recountResidentBytes (mkPipeline params (rerendered params <$> plSessions p) (plLru p) (plOptions p) (plStats p))).
Definition Stats (p : Pipeline) (now : Z) : Pipeline * PipelineStats :=
  let p := recountResidentBytes (evictExpired p now) in (p, plStats p).
End cache.

(** ** Sums *)
Lemma sum_cons {A} (f : A -> Z) x l : total_of f (x :: l) = f x + total_of f l.
Proof. done. Qed.
Lemma sum_nil {A} (f : A -> Z) : total_of f [] = 0.
Proof. done. Qed.
#[local] Opaque total_of.
#[local] Hint Rewrite @sum_cons @sum_nil : sums.
Lemma sum_app {A} (f : A -> Z) l1 l2 : total_of f (l1 ++ l2) = total_of f l1 + total_of f l2.
Proof. induction l1; cbn; autorewrite with sums; lia. Qed.
Lemma sum_nonneg {A} (f : A -> Z) l : (forall x, 0 <= f x) -> 0 <= total_of f l.
Proof. intros H. induction l as [|x l IH]; autorewrite with sums; [lia|]. specialize (H x). lia. Qed.
Lemma sum_insert {A} (f : A -> Z) l i x y : l !! i = Some y -> total_of f (<[i := x]> l) = total_of f l - f y + f x.
Proof.
  revert i. induction l as [|z l IH]; intros [|i] H; cbn in H; simplify_eq; [change (<[0%nat:=x]> (y :: l)) with (x :: l)|change (<[S i:=x]> (z :: l)) with (z :: <[i:=x]> l)];
    autorewrite with sums; [lia|]. rewrite (IH i) by done. lia.
Qed.
(** Two lists that differ at most at [idx]. *)
Lemma sum_diff {A} (f : A -> Z) (g : option A -> Z) l l' idx : (forall x, g (Some x) = f x) -> length l = length l' -> NoDup idx ->
  Forall (fun i => (i < length l)%nat) idx -> (forall i, i ∉ idx -> l' !! i = l !! i) ->
  total_of f l' - total_of f l = total_of (fun i => g (l' !! i)) idx - total_of (fun i => g (l !! i)) idx.
Proof.
  intros Hg. revert l. induction idx as [|i idx IH]; intros l Hlen Hnd Hlt Hsame.
  { autorewrite with sums. assert (l' = l) as -> by (apply list_eq; intros i; apply Hsame; apply not_elem_of_nil). lia. }
  apply NoDup_cons in Hnd as [Hi Hnd]. apply Forall_cons in Hlt as [Hil Hlt].
  destruct (lookup_lt_is_Some_2 l i Hil) as [y Hy]. destruct (lookup_lt_is_Some_2 l' i ltac:(lia)) as [x Hx].
  assert (Hl : length (<[i := x]> l) = length l) by apply length_insert.
  pose proof (IH (<[i := x]> l)) as IH'. rewrite Hl in IH'. specialize (IH' Hlen Hnd Hlt).
  rewrite (sum_insert f l i x y) in IH' by done. autorewrite with sums. rewrite Hx, Hy, !Hg.
  assert (Hid : total_of (fun i0 => g (<[i := x]> l !! i0)) idx = total_of (fun i0 => g (l !! i0)) idx).
  { clear -Hi. induction idx as [|j idx IH]; [done|]. apply not_elem_of_cons in Hi as [H1 H2]. autorewrite with sums. rewrite IH by done.
    rewrite list_lookup_insert_ne by done. done. }
  rewrite Hid in IH'.
  enough (total_of f l' - (total_of f l - f y + f x) = total_of (fun i => g (l' !! i)) idx - total_of (fun i => g (l !! i)) idx) by lia.
  apply IH'. intros j Hj. destruct (decide (j = i)) as [->|Hne]; [by rewrite list_lookup_insert_eq by lia|].
  rewrite list_lookup_insert_ne by done. apply Hsame. by apply not_elem_of_cons.
Qed.
(** ** Dirty positions *)
Lemma dirtyLoop_spec indexes seen : NoDup (dirtyLoop seen indexes) /\ (forall i, i ∈ dirtyLoop seen indexes <-> i ∈ indexes /\ i ∉ seen).
Proof.
  revert seen. induction indexes as [|j indexes IH]; intros seen; cbn [dirtyLoop]; [split; [constructor|set_solver]|].
  case_bool_decide as Hj; destruct (IH seen) as [N1 S1]; [split; [done|set_solver]|].
  destruct (IH (j :: seen)) as [N2 S2]. split; [constructor; [set_solver|done]|]. intros i. destruct (decide (i = j)); set_solver.
Qed.
Lemma dirtyLoop_app a b seen : (forall i, i ∈ b -> i ∉ a /\ i ∉ seen) -> NoDup b -> dirtyLoop seen (a ++ b) = dirtyLoop seen a ++ b.
Proof.
  revert seen. induction a as [|j a IH]; intros seen Hd Hb; cbn [app dirtyLoop].
  - induction b as [|k b IHb] in seen, Hd, Hb |- *; [done|]. cbn [dirtyLoop]. apply NoDup_cons in Hb as [Hk Hb].
    rewrite bool_decide_eq_false_2 by (apply Hd; by left). f_equal. apply IHb; [|done]. intros i Hi. split; [apply not_elem_of_nil|].
    apply not_elem_of_cons. split; [by intros ->|]. apply Hd. by right.
  - case_bool_decide; cbn [app]; [|f_equal]; apply IH; try done; intros i Hi; destruct (Hd i Hi); set_solver.
Qed.
Lemma last_index_lt nodes id i : findMessageIndex nodes id = Some i -> (i < length nodes)%nat.
Proof. unfold findMessageIndex. intros (x & Hx & _)%find_last_Some. by eapply lookup_lt_Some. Qed.
Lemma dirtyIndexes_lt ic e i : i ∈ dirtyIndexes ic e -> (i < length (icNodes ic))%nat.
Proof.
  destruct e as [e|e|e|e]; cbn [dirtyIndexes].
  - destruct (findMessageIndex _ _) eqn:Ei; cbn; [|by intros ?%not_elem_of_nil]. intros ->%list_elem_of_singleton. by eapply last_index_lt.
  - destruct (findMessageIndex _ _) eqn:Ei; cbn; [|by intros ?%not_elem_of_nil]. intros ->%list_elem_of_singleton. by eapply last_index_lt.
  - intros (id & _ & Hid)%list_elem_of_omap. by eapply last_index_lt.
  - by intros ?%not_elem_of_nil.
Qed.

Section proofs.
Context {U : Unicode} {P : Printable} {E : Encoder}.
Lemma node_bytes_nonneg n : 0 <= node_bytes n.
Proof. unfold node_bytes, estimateJSONBytes. case_match; lia. Qed.
Lemma segment_bytes_nonneg s : 0 <= segment_bytes s.
Proof. unfold segment_bytes, estimateJSONBytes. case_match; lia. Qed.
(** ** Rendering what is dirty *)
Lemma renderDirty_old ic params idx rest rc b : Forall (fun i => (i < length rc)%nat) idx -> (length rc <= length (icNodes ic))%nat ->
  exists rc', renderDirty ic rc b (idx ++ rest) params = renderDirty ic rc' (b + (estimateRCBytes rc' - estimateRCBytes rc)) rest params /\
    length rc' = length rc /\ (forall i, i ∈ idx -> rc' !! i = (fun n => renderNode n params) <$> icNodes ic !! i) /\
    (forall i, i ∉ idx -> rc' !! i = rc !! i).
Proof.
  intros Hlt Hlen. revert rc b Hlt Hlen. induction idx as [|i idx IH]; intros rc b Hlt Hlen.
  { exists rc. split_and!; [by rewrite Z.sub_diag, Z.add_0_r|done|by intros i ?%not_elem_of_nil|done]. }
  apply Forall_cons in Hlt as [Hi Hlt]. cbn [app renderDirty]. destruct (lookup_lt_is_Some_2 (icNodes ic) i ltac:(lia)) as [node Hn]. rewrite Hn.
  destruct (lookup_lt_is_Some_2 rc i Hi) as [old Ho]. rewrite Ho. set (rc1 := <[i := renderNode node params]> rc).
  assert (L1 : length rc1 = length rc) by apply length_insert.
  destruct (IH rc1 (b - segment_bytes old + segment_bytes (renderNode node params))) as (rc' & H1 & H2 & H3 & H4); [by rewrite L1|lia|].
  exists rc'. split_and!.
  - rewrite H1. f_equal. unfold rc1, estimateRCBytes. rewrite (sum_insert _ rc i _ old) by done. lia.
  - lia.
  - intros j Hj. destruct (decide (j ∈ idx)) as [Hj'|Hj']; [by apply H3|]. apply elem_of_cons in Hj as [->|?]; [|done].
    rewrite H4 by done. unfold rc1. rewrite list_lookup_insert_eq by done. by rewrite Hn.
  - intros j [Hj1 Hj2]%not_elem_of_cons. rewrite H4 by done. unfold rc1. by rewrite list_lookup_insert_ne.
Qed.
Lemma renderDirty_new ic params rc b new : drop (length rc) (icNodes ic) = new ->
  renderDirty ic rc b (seq (length rc) (length new)) params =
  (rc ++ map (fun n => renderNode n params) new, b + (total_of node_bytes new + estimateRCBytes (map (fun n => renderNode n params) new))).
Proof.
  revert rc b. induction new as [|n new IH]; intros rc b Hd; cbn [length seq map].
  { unfold estimateRCBytes. autorewrite with sums. cbn [renderDirty]. by rewrite app_nil_r, Z.add_0_r. }
  assert (Hn : icNodes ic !! length rc = Some n).
  { rewrite <- (Nat.add_0_r (length rc)), <- lookup_drop, Hd. done. }
  cbn [renderDirty]. rewrite Hn, lookup_ge_None_2, Nat.eqb_refl by lia. specialize (IH (rc ++ [renderNode n params])). rewrite length_app in IH. cbn [length] in IH.
  rewrite Nat.add_1_r in IH. rewrite IH.
  - rewrite <- app_assoc. cbn [app]. f_equal. unfold estimateRCBytes. autorewrite with sums. lia.
  - rewrite <- Nat.add_1_r, <- drop_drop, Hd. done.
Qed.
(** A session in memory: what is rendered, and its size, are those of its projection. *)
Definition session_ok (params : RenderParams) (state : pipelineSession) : Prop :=
  psRC state = Render (psIC state) params /\ psResidentBytes state = estimateICBytes (psIC state) + estimateRCBytes (psRC state).
Lemma incremental_render ic rc bytes event params : rc = Render ic params -> bytes = estimateICBytes ic + estimateRCBytes rc ->
  let existingDirty := dirtyUnique (dirtyIndexes ic event) in
  let '(ic', indexes) := reduceInPlace ic event in
  let '(rc', bytes') := renderDirty ic' rc bytes (dirtyUnique indexes) params in
  ic' = Reduce ic event /\ rc' = Render ic' params /\
  bytes' + (dirtyNodeBytes ic' existingDirty - dirtyNodeBytes ic existingDirty) = estimateICBytes ic' + estimateRCBytes rc'.
Proof.
  intros Hrc Hbytes. cbv zeta. unfold reduceInPlace. destruct (reduce_nodes ic event) as (old & new & Hn & Hk & _ & Hold & _).
  set (ic' := Reduce ic event) in *. apply Forall2_length in Hk as Hlen. unfold dirtyUnique.
  destruct (dirtyLoop_spec (dirtyIndexes ic event) []) as [Hnd Hin]. set (D := dirtyLoop [] (dirtyIndexes ic event)) in *.
  assert (HD : Forall (fun i => (i < length (icNodes ic))%nat) D).
  { apply Forall_forall. intros i [Hi _]%Hin. by eapply dirtyIndexes_lt. }
  assert (Hrl : length rc = length (icNodes ic)) by (rewrite Hrc; apply length_map).
  rewrite dirtyLoop_app; [|intros i Hi; split; [|apply not_elem_of_nil]; intros Hd%dirtyIndexes_lt; apply elem_of_seq in Hi; lia|apply NoDup_seq].
  fold D. rewrite Hn. rewrite length_app, <- Hlen. replace (length (icNodes ic) + length new - length (icNodes ic))%nat with (length new) by lia.
  destruct (renderDirty_old ic' params D (seq (length (icNodes ic)) (length new)) rc bytes) as (rc1 & H1 & H2 & H3 & H4).
  { by rewrite Hrl. } { rewrite Hn, length_app. lia. }
  rewrite H1. rewrite <- Hrl, <- H2, (renderDirty_new _ _ _ _ new) by (rewrite Hn, H2, Hrl, Hlen; apply drop_app_length).
  assert (Hrc1 : rc1 = map (fun n => renderNode n params) old).
  { apply list_eq. intros i. change (map ?f old) with (f <$> old). rewrite list_lookup_fmap. destruct (decide (i ∈ D)) as [Hi|Hi].
    - rewrite H3, Hn by done. rewrite Forall_forall in HD. rewrite lookup_app_l; [done|]. specialize (HD i Hi). lia.
    - rewrite H4, Hrc by done. unfold Render. rewrite list_lookup_fmap. f_equal. symmetry. apply Hold. intros Hd. apply Hi, Hin. split; [done|apply not_elem_of_nil]. }
  split_and!; [done|unfold Render; by rewrite Hn, map_app, Hrc1|].
  unfold dirtyNodeBytes. set (g := fun o => match o with Some n => node_bytes n | None => 0 end).
  pose proof (sum_diff node_bytes g (icNodes ic) old D ltac:(done) Hlen Hnd HD) as Hs.
  assert (Hso : forall i, i ∉ D -> old !! i = icNodes ic !! i).
  { intros i Hi. apply Hold. intros Hd. apply Hi, Hin. split; [done|apply not_elem_of_nil]. }
  specialize (Hs Hso).
  assert (He : total_of (fun i => g (icNodes ic' !! i)) D = total_of (fun i => g (old !! i)) D).
  { rewrite Hn. clear -HD Hlen. induction D as [|i D IH]; [done|]. apply Forall_cons in HD as [Hi HD]. autorewrite with sums. rewrite IH by done.
    by rewrite lookup_app_l by lia. }
  unfold g in He, Hs. cbv beta in He, Hs. rewrite He. unfold estimateICBytes in *. rewrite Hn, sum_app. unfold estimateRCBytes in *. rewrite sum_app. lia.
Qed.
End proofs.

(** ** What holds of the state *)
Definition total_bytes (sessions : gmap str pipelineSession) : Z := map_fold (fun _ state n => psResidentBytes state + n) 0 sessions.
Lemma total_insert sessions id state : sessions !! id = None ->
  total_bytes (<[id := state]> sessions) = psResidentBytes state + total_bytes sessions.
Proof. intros H. unfold total_bytes. rewrite map_fold_insert_L; [done|intros; lia|done]. Qed.
Lemma total_delete (sessions : gmap str pipelineSession) id state : sessions !! id = Some state ->
  total_bytes (delete id sessions) = total_bytes sessions - psResidentBytes state.
Proof.
  intros H. rewrite <- (insert_delete_id sessions id state) at 2 by done. rewrite total_insert by apply lookup_delete_eq. lia.
Qed.
Lemma total_nonneg (sessions : gmap str pipelineSession) : map_Forall (fun _ s => 0 <= psResidentBytes s) sessions -> 0 <= total_bytes sessions.
Proof.
  induction sessions as [|id s m Hm IH] using map_ind; [done|]. intros [H1 H2]%map_Forall_insert; [|done]. rewrite total_insert by done.
  specialize (IH H2). lia.
Qed.
Definition lru_is (sessions : gmap str pipelineSession) (lru : list str) : Prop := NoDup lru /\ (forall id, id ∈ lru <-> is_Some (sessions !! id)).
Definition counted (p : Pipeline) : Prop :=
  ResidentSessions (plStats p) = Z.of_nat (size (plSessions p)) /\ ResidentBytes (plStats p) = total_bytes (plSessions p).
Lemma lru_remove_spec id lru : NoDup lru -> NoDup (lru_remove id lru) /\ (forall x, x ∈ lru_remove id lru <-> x ∈ lru /\ x <> id).
Proof.
  intros H. split.
  - unfold lru_remove. induction H as [|x l Hx _ IH]; [constructor|]. cbn. case_match; [|done]. constructor; [|done].
    by intros [? _]%elem_of_filter_bool.
  - intros x. unfold lru_remove. rewrite elem_of_filter_bool, negb_true_iff, str_eqb_false. done.
Qed.
Section invariants.
Context {U : Unicode} {P : Printable} {E : Encoder}.
Definition sessions_ok (p : Pipeline) : Prop := map_Forall (fun _ s => session_ok (plRenderParams p) s) (plSessions p).
Definition wf (p : Pipeline) : Prop := lru_is (plSessions p) (plLru p) /\ sessions_ok p.
Lemma session_bytes_nonneg params s : session_ok params s -> 0 <= psResidentBytes s.
Proof. intros [_ ->]. pose proof (sum_nonneg node_bytes (icNodes (psIC s)) node_bytes_nonneg). pose proof (sum_nonneg segment_bytes (psRC s) segment_bytes_nonneg). unfold estimateICBytes, estimateRCBytes. lia. Qed.
Lemma sessions_total_nonneg p : sessions_ok p -> 0 <= total_bytes (plSessions p).
Proof. intros H. apply total_nonneg. eapply map_Forall_impl; [exact H|]. intros id s. apply session_bytes_nonneg. Qed.
(** *** Dropping *)
Lemma drop_fields p id : plRenderParams (drop_session p id) = plRenderParams p /\ plOptions (drop_session p id) = plOptions p /\
  plSessions (drop_session p id) = delete id (plSessions p).
Proof. unfold drop_session. case_match; [done|]. by rewrite delete_id. Qed.
Lemma drop_wf p id : wf p -> counted p -> wf (drop_session p id) /\ counted (drop_session p id).
Proof.
  intros [[Hnd Hin] Hok] [C1 C2]. destruct (drop_fields p id) as (F1 & F2 & F3). unfold drop_session in *. destruct (plSessions p !! id) as [s|] eqn:Es; [|done].
  destruct (lru_remove_spec id (plLru p) Hnd) as [N1 N2]. split; [split; [split; [exact N1|]|]|].
  - intros x. cbn. rewrite N2, Hin. destruct (decide (x = id)) as [->|Hx]; [rewrite lookup_delete_eq; split; [by intros [_ ?]|by intros [? ?]]|].
    rewrite lookup_delete_ne by done. naive_solver.
  - unfold sessions_ok. cbn. by apply map_Forall_delete.
  - unfold counted. cbn. split; [done|]. rewrite C2, (total_delete _ _ s) by done. case_if; [|done]. bool_hyps.
    assert (0 <= total_bytes (delete id (plSessions p))) as Hn; [|rewrite (total_delete _ _ s) in Hn by done; lia].
    apply total_nonneg. apply map_Forall_delete. eapply map_Forall_impl; [exact Hok|]. intros ? ?. apply session_bytes_nonneg.
Qed.
Definition drops (ids : list str) (p : Pipeline) : Pipeline := fold_left drop_session ids p.
Lemma drops_fields ids p : plRenderParams (drops ids p) = plRenderParams p /\ plOptions (drops ids p) = plOptions p /\
  (forall id, plSessions (drops ids p) !! id = if bool_decide (id ∈ ids) then None else plSessions p !! id).
Proof.
  revert p. induction ids as [|x ids IH]; intros p; [by split_and!|]. cbn [drops fold_left]. destruct (drop_fields p x) as (F1 & F2 & F3).
  destruct (IH (drop_session p x)) as (G1 & G2 & G3). unfold drops in *. split_and!; [congruence..|]. intros id. rewrite G3, F3.
  repeat case_bool_decide; try done.
  - exfalso. set_solver.
  - destruct (decide (id = x)) as [->|?]; [apply lookup_delete_eq|set_solver].
  - apply lookup_delete_ne. set_solver.
Qed.
Lemma drops_wf ids p : wf p -> counted p -> wf (drops ids p) /\ counted (drops ids p).
Proof. revert p. induction ids as [|x ids IH]; intros p Hw Hc; [done|]. destruct (drop_wf p x Hw Hc). by apply IH. Qed.
(** *** Expiry *)
Definition expired (p : Pipeline) (now : Z) (id : str) : Prop :=
  exists s, plSessions p !! id = Some s /\ TTL (plOptions p) <= time_sub now (psLastAccess s).
Lemma expired_drop p now x id : id <> x -> expired (drop_session p x) now id <-> expired p now id.
Proof. intros H. destruct (drop_fields p x) as (_ & F2 & F3). unfold expired. rewrite F2, F3, lookup_delete_ne by done. done. Qed.
Lemma expire_spec now l p : NoDup l -> (forall id, id ∈ l -> is_Some (plSessions p !! id)) ->
  exists gone rest, l = gone ++ rest /\ expireLoop now l p = drops gone p /\ Forall (expired p now) gone /\
    (rest = [] \/ exists id r, rest = id :: r /\ ~ expired p now id).
Proof.
  revert p. induction l as [|x l IH]; intros p Hnd Hin; [exists [], []; split_and!; [done|done|constructor|by left]|].
  apply NoDup_cons in Hnd as [Hx Hnd]. cbn [expireLoop]. destruct (Hin x) as [s Hs]; [by left|]. rewrite Hs. destruct (_ <? _) eqn:Et; bool_hyps.
  - exists [], (x :: l). split_and!; [done|done|constructor|]. right. exists x, l. split; [done|]. intros (s' & Hs' & Ht). simplify_eq. lia.
  - destruct (drop_fields p x) as (F1 & F2 & F3). destruct (IH (drop_session p x)) as (gone & rest & -> & G2 & G3 & G4); [done| |].
    { intros id Hid. rewrite F3, lookup_delete_ne by (intros ->; done). apply Hin. by right. }
    exists (x :: gone), rest. split_and!; [done|done| |].
    + constructor; [by exists s|]. apply Forall_forall. intros id Hid. rewrite Forall_forall in G3. apply (expired_drop p now x), G3; [|done].
      intros ->. apply Hx. set_solver.
    + destruct G4 as [->|(id & r & -> & Hn)]; [by left|]. right. exists id, r. split; [done|]. intros He. apply Hn. apply expired_drop; [|done].
      intros ->. apply Hx. set_solver.
Qed.
Lemma evict_drops p now : wf p -> exists gone rest, plLru p = rest ++ gone /\ evictExpired p now = drops (rev gone) p /\
  (TTL (plOptions p) < 0 /\ gone = [] \/
   0 <= TTL (plOptions p) /\ Forall (expired p now) gone /\ (rest = [] \/ exists r id, rest = r ++ [id] /\ ~ expired p now id)).
Proof.
  intros [[Hnd Hin] _]. unfold evictExpired. destruct (_ <? _) eqn:Et; bool_hyps.
  { exists [], (plLru p). rewrite app_nil_r. split_and!; [done|done|]. by left. }
  destruct (expire_spec now (rev (plLru p)) p) as (gone & rest & G1 & G2 & G3 & G4).
  { by rewrite <- (Permutation_rev (plLru p)). }
  { intros id Hid. apply Hin. apply list_elem_of_In in Hid. rewrite <- in_rev in Hid. by apply list_elem_of_In. }
  exists (rev gone), (rev rest). rewrite rev_involutive. split_and!; [|done|].
  - rewrite <- (rev_involutive (plLru p)), G1. apply rev_app_distr.
  - right. split_and!; [lia| |].
    + rewrite Forall_forall in *. intros id Hid. apply G3. apply list_elem_of_In in Hid. rewrite <- in_rev in Hid. by apply list_elem_of_In.
    + destruct G4 as [->|(id & r & -> & Hn)]; [by left|]. right. by exists (rev r), id.
Qed.
Lemma evict_wf p now : wf p -> counted p -> wf (evictExpired p now) /\ counted (evictExpired p now).
Proof. intros Hw Hc. destruct (evict_drops p now Hw) as (gone & rest & _ & -> & _). by apply drops_wf. Qed.
(** *** Bounds *)
Lemma lru_remove_last id l : NoDup (l ++ [id]) -> lru_remove id (l ++ [id]) = l.
Proof.
  intros H. unfold lru_remove. rewrite List.filter_app. cbn. rewrite str_eqb_refl. cbn. rewrite app_nil_r. apply filter_id_forall.
  apply NoDup_app in H as (_ & H & _). apply Forall_forall. intros x Hx. apply negb_true_iff, str_eqb_false. intros ->. by apply (H id Hx), list_elem_of_singleton.
Qed.
Lemma empty_within p : wf p -> counted p -> plLru p = [] -> over_bounds p = false.
Proof.
  intros [[_ Hin] _] [C1 C2] Hl. assert (plSessions p = ∅) as He.
  { apply map_empty. intros id. destruct (_ !! id) eqn:Ei; [|done]. exfalso. apply (not_elem_of_nil id). rewrite <- Hl. apply Hin. by exists p0. }
  unfold over_bounds. rewrite C2, He, map_size_empty. change (total_bytes ∅) with 0. cbn. apply orb_false_iff.
  split; apply andb_false_iff; [destruct (Z.leb_spec 0 (MaxSessions (plOptions p)))|destruct (Z.leb_spec 0 (MaxResidentByte (plOptions p)))];
    try (by left); right; apply Z.ltb_ge; lia.
Qed.
Lemma bounds_spec fuel p : fuel = length (plLru p) -> wf p -> counted p -> exists kept gone, plLru p = kept ++ gone /\
  boundLoop fuel p = drops (rev gone) p /\ over_bounds (boundLoop fuel p) = false /\
  (gone = [] \/ exists x gone', gone = x :: gone' /\ over_bounds (drops (rev gone') p) = true).
Proof.
  revert p. induction fuel as [|fuel IH]; intros p Hf Hw Hc.
  { destruct (plLru p) eqn:El; [|done]. exists [], []. split_and!; [done|done|by apply empty_within|by left]. }
  destruct (plLru p) as [|a l _] eqn:El using rev_ind; [done|]. cbn [boundLoop]. rewrite El, last_snoc. destruct (over_bounds p) eqn:Eo.
  2: { exists (l ++ [a]), []. rewrite app_nil_r. split_and!; [done|done|done|by left]. }
  destruct (drop_wf p a Hw Hc) as [Hw' Hc']. assert (Hl : plLru (drop_session p a) = l).
  { destruct Hw as [[Hnd Hin] _]. unfold drop_session. destruct (proj1 (Hin a)) as [s Hs]; [rewrite El; set_solver|]. rewrite Hs. cbn. rewrite El in *. by apply lru_remove_last. }
  destruct (IH (drop_session p a)) as (kept & gone & G1 & G2 & G3 & G4); [rewrite Hl, length_app in *; cbn in Hf; lia|done|done|].
  exists kept, (gone ++ [a]). rewrite G2, rev_app_distr. split_and!; [rewrite Hl in G1; by rewrite G1, app_assoc|done|by rewrite <- G2|].
  right. destruct G4 as [->|(x & gone' & -> & Ho)]; [by exists a, []|]. exists x, (gone' ++ [a]). split; [done|]. by rewrite rev_app_distr.
Qed.
(** *** Touching and pushing *)
Lemma total_update (sessions : gmap str pipelineSession) id s s' : sessions !! id = Some s ->
  total_bytes (<[id := s']> sessions) = total_bytes sessions - psResidentBytes s + psResidentBytes s'.
Proof. intros H. rewrite <- insert_delete_eq, total_insert by apply lookup_delete_eq. rewrite (total_delete _ _ s) by done. lia. Qed.
Lemma front_lru (sessions : gmap str pipelineSession) lru id s : lru_is sessions lru ->
  lru_is (<[id := s]> sessions) (id :: lru_remove id lru).
Proof.
  intros [Hnd Hin]. destruct (lru_remove_spec id lru Hnd) as [N1 N2]. split.
  - constructor; [|done]. by intros [_ ?]%N2.
  - intros x. rewrite elem_of_cons, N2, Hin. destruct (decide (x = id)) as [->|Hx]; [rewrite lookup_insert_eq; naive_solver|].
    rewrite lookup_insert_ne by done. naive_solver.
Qed.
Lemma new_lru sessions lru id : lru_is sessions lru -> sessions !! id = None -> lru_remove id lru = lru.
Proof.
  intros [_ Hin] Hn. apply filter_id_forall. apply Forall_forall. intros x Hx. apply negb_true_iff, str_eqb_false. intros ->.
  apply Hin in Hx as [s Hs]. congruence.
Qed.
Lemma front_wf p id s stats : wf p -> session_ok (plRenderParams p) s ->
  wf (with_sessions p (<[id := s]> (plSessions p)) (id :: lru_remove id (plLru p)) stats).
Proof. intros [Hl Hok] Hs. split; [by apply front_lru|]. by apply map_Forall_insert_2. Qed.
Lemma touch_wf p id s now : wf p -> counted p -> plSessions p !! id = Some s -> wf (touch p id s now) /\ counted (touch p id s now).
Proof.
  intros Hw [C1 C2] Hs. split; [apply front_wf; [done|]; by destruct (proj2 Hw id s Hs)|]. unfold counted, touch. cbn.
  rewrite map_size_insert_Some by (by exists s). rewrite (total_update _ _ s) by done. cbn. split; [done|lia].
Qed.
Lemma touch_within p id s now : plSessions p !! id = Some s -> over_bounds (touch p id s now) = over_bounds p.
Proof. intros Hs. unfold over_bounds, touch. cbn. by rewrite map_size_insert_Some by (by exists s). Qed.
Lemma recount_counted p : counted (recountResidentBytes p).
Proof. done. Qed.
Lemma push_spec p id state event now : lru_is (plSessions p) (plLru p) -> sessions_ok p -> plSessions p !! id = Some state ->
  exists q state', pushLocked p id state event now = (enforceBounds q, Render (Reduce (psIC state) event) (plRenderParams p)) /\
    wf q /\ counted q /\ plSessions q = <[id := state']> (plSessions p) /\ psIC state' = Reduce (psIC state) event /\ psLastAccess state' = now /\
    psRC state' = Render (Reduce (psIC state) event) (plRenderParams p) /\
    plLru q = id :: lru_remove id (plLru p) /\ plRenderParams q = plRenderParams p /\ plOptions q = plOptions p.
Proof.
  intros Hl Hok Hs. destruct (Hok id state Hs) as [R1 R2]. pose proof (incremental_render (psIC state) (psRC state) (psResidentBytes state) event (plRenderParams p) R1 R2) as H.
  unfold pushLocked. cbv zeta in H |- *. destruct (reduceInPlace (psIC state) event) as [ic indexes].
  change (plRenderParams (touch p id state now)) with (plRenderParams p).
  destruct (renderDirty ic (psRC state) (psResidentBytes state) (dirtyUnique indexes) (plRenderParams p)) as [rc bytes]. destruct H as (-> & -> & Hb).
  rewrite Hb. eexists _, (mkSession _ _ _ now). split; [reflexivity|]. cbn. rewrite insert_insert_eq. split_and!; try done.
  split; [by apply front_lru|]. unfold sessions_ok. cbn. by apply map_Forall_insert_2.
Qed.
End invariants.

(** ** The cache as a store of event logs *)
Inductive cache_op : Type :=
  | OpPush (id : str) (event : CanonicalEvent) | OpPushResident (id : str) (event : CanonicalEvent)
  | OpReplay (id : str) (events : list CanonicalEvent) | OpGetRC (id : str) | OpGetIC (id : str) | OpHas (id : str) | OpIDs
  | OpDrop (id : str) | OpDropAll | OpUpdate (params : RenderParams) | OpStats.
Inductive cache_out : Type :=
  | OutRC (rc : option RenderedContext) | OutIC (ic : option IntermediateContext) | OutHas (b : bool) | OutIDs (ids : gset str)
  | OutStats (s : PipelineStats) | OutNone.
Definition run_cache {U : Unicode} {P : Printable} {E : Encoder} (p : Pipeline) (op : cache_op) (now : Z) : Pipeline * cache_out :=
  match op with
  | OpPush id event => let '(p, rc) := PushEvent p id event now in (p, OutRC (Some rc))
  | OpPushResident id event => let '(p, rc) := PushResidentEvent p id event now in (p, OutRC (Some rc))
  | OpReplay id events => let '(p, rc) := ReplaySession p id events now in (p, OutRC (Some rc))
  | OpGetRC id => let '(p, rc) := GetRC p id now in (p, OutRC rc)
  | OpGetIC id => let '(p, ic) := GetIC p id now in (p, OutIC ic)
  | OpHas id => let '(p, b) := HasSession p id now in (p, OutHas b)
  | OpIDs => let '(p, ids) := SessionIDs p now in (p, OutIDs ids)
  | OpDrop id => (DropSession p id, OutNone)
  | OpDropAll => (DropAll p, OutNone)
  | OpUpdate params => (UpdateRenderParams p params, OutNone)
  | OpStats => let '(p, s) := Stats p now in (p, OutStats s)
  end.
Fixpoint run_caches {U : Unicode} {P : Printable} {E : Encoder} (p : Pipeline) (ops : list (cache_op * Z)) : Pipeline * list cache_out :=
  match ops with
  | [] => (p, [])
  | (op, now) :: ops => let '(p, out) := run_cache p op now in let '(p, outs) := run_caches p ops in (p, out :: outs)
  end.
(** The abstract store: the events of each remembered session since it was
    loaded.  It may forget whole sessions, never a part of one. *)
Abbreviation logs := (gmap str (list CanonicalEvent)).
Definition log_of (h : logs) (id : str) : list CanonicalEvent := default [] (h !! id).
Definition shown {U : Unicode} {P : Printable} (params : RenderParams) (id : str) (log : list CanonicalEvent) : RenderedContext :=
  Render (replay id log) params.
Inductive store_step {U : Unicode} {P : Printable} (params : RenderParams) (h : logs) : cache_op -> cache_out -> RenderParams -> logs -> Prop :=
  | store_push id event h1 h' : h1 ⊆ h -> h' ⊆ <[id := log_of h1 id ++ [event]]> h1 ->
      store_step params h (OpPush id event) (OutRC (Some (shown params id (log_of h1 id ++ [event])))) params h'
  | store_push_resident id event h1 h' log : h1 ⊆ h -> h1 !! id = Some log -> h' ⊆ <[id := log ++ [event]]> h1 ->
      store_step params h (OpPushResident id event) (OutRC (Some (shown params id (log ++ [event])))) params h'
  | store_push_absent id event h' : h' ⊆ h -> h' !! id = None ->
      store_step params h (OpPushResident id event) (OutRC (Some (shown params id [event]))) params h'
  | store_replay id events h1 h' : h1 ⊆ h -> h' ⊆ <[id := events]> h1 ->
      store_step params h (OpReplay id events) (OutRC (Some (shown params id events))) params h'
  | store_get_rc id h' : h' ⊆ h -> store_step params h (OpGetRC id) (OutRC (shown params id <$> h' !! id)) params h'
  | store_get_ic id h' : h' ⊆ h -> store_step params h (OpGetIC id) (OutIC (replay id <$> h' !! id)) params h'
  | store_has id h' : h' ⊆ h -> store_step params h (OpHas id) (OutHas (bool_decide (is_Some (h' !! id)))) params h'
  | store_ids h' : h' ⊆ h -> store_step params h OpIDs (OutIDs (dom h')) params h'
  | store_drop id : store_step params h (OpDrop id) OutNone params (delete id h)
  | store_drop_all : store_step params h OpDropAll OutNone params ∅
  | store_update params' h' : h' ⊆ h -> store_step params h (OpUpdate params') OutNone params' h'
  | store_stats s h' : h' ⊆ h -> ResidentSessions s = Z.of_nat (size h') -> store_step params h OpStats (OutStats s) params h'.
Inductive store_run {U : Unicode} {P : Printable} : RenderParams -> logs -> list (cache_op * Z) -> list cache_out -> logs -> Prop :=
  | store_done params h : store_run params h [] [] h
  | store_next params h op now out params1 h1 ops outs h2 : store_step params h op out params1 h1 -> store_run params1 h1 ops outs h2 ->
      store_run params h ((op, now) :: ops) (out :: outs) h2.

Section refinement.
Context {U : Unicode} {P : Printable} {E : Encoder}.
Definition same_log (id : str) (s : option pipelineSession) (log : option (list CanonicalEvent)) : Prop :=
  match s, log with Some s, Some log => psIC s = replay id log | None, None => True | _, _ => False end.
Definition stores (p : Pipeline) (h : logs) : Prop := forall id, same_log id (plSessions p !! id) (h !! id).
Definition cache_ok (p : Pipeline) : Prop := wf p /\ counted p /\ over_bounds p = false.
Lemma stores_drops p h ids : stores p h -> exists h', h' ⊆ h /\ stores (drops ids p) h'.
Proof.
  intros Hs. exists (filter (fun q => q.1 ∉ ids) h). split; [apply map_filter_subseteq|]. intros id. destruct (drops_fields ids p) as (_ & _ & ->).
  specialize (Hs id). case_bool_decide as Hi.
  - replace (filter _ h !! id) with (@None (list CanonicalEvent)); [done|]. symmetry. apply map_lookup_filter_None. right. intros log _ Hn. by apply Hn.
  - replace (filter _ h !! id) with (h !! id); [done|]. symmetry. destruct (h !! id) as [log|] eqn:El; [|apply map_lookup_filter_None; by left].
    by apply map_lookup_filter_Some.
Qed.
Lemma drop_within p id : wf p -> counted p -> over_bounds p = false -> over_bounds (drop_session p id) = false.
Proof.
  intros Hw Hc Ho. destruct (drop_wf p id Hw Hc) as [_ [D1 D2]]. destruct Hc as [C1 C2]. destruct (drop_fields p id) as (F1 & F2 & F3).
  assert (Hsize : (size (plSessions (drop_session p id)) <= size (plSessions p))%nat).
  { rewrite F3. destruct (plSessions p !! id) as [s|] eqn:Es; [|by rewrite delete_id]. rewrite map_size_delete_Some by (by exists s). lia. }
  assert (Htot : total_bytes (plSessions (drop_session p id)) <= total_bytes (plSessions p)).
  { rewrite F3. destruct (plSessions p !! id) as [s|] eqn:Es; [|by rewrite delete_id]. rewrite (total_delete _ _ s) by done.
    destruct Hw as [_ Hok]. pose proof (session_bytes_nonneg _ s (Hok id s Es)). lia. }
  unfold over_bounds in *. rewrite D2, F2. rewrite C2 in Ho. apply orb_false_iff in Ho as [O1 O2].
  apply orb_false_iff. split; [apply andb_false_iff in O1 as [O|O]|apply andb_false_iff in O2 as [O|O]]; bool_hyps; apply andb_false_iff;
    try (left; apply Z.leb_gt; lia); right; apply Z.ltb_ge; lia.
Qed.
Lemma drops_ok ids p : cache_ok p -> cache_ok (drops ids p).
Proof.
  revert p. induction ids as [|x ids IH]; intros p H; [done|]. destruct H as (H1 & H2 & H3). apply IH. destruct (drop_wf p x H1 H2).
  split_and!; [done|done|by apply drop_within].
Qed.
Lemma evict_ok p h now : cache_ok p -> stores p h -> exists h', h' ⊆ h /\ stores (evictExpired p now) h' /\ cache_ok (evictExpired p now) /\
  plRenderParams (evictExpired p now) = plRenderParams p /\ plOptions (evictExpired p now) = plOptions p.
Proof.
  intros Hok Hs. destruct (evict_drops p now (proj1 Hok)) as (gone & rest & _ & -> & _). destruct (stores_drops p h (rev gone) Hs) as (h' & H1 & H2).
  destruct (drops_fields (rev gone) p) as (F1 & F2 & _). exists h'. split_and!; try done. by apply drops_ok.
Qed.
Lemma enforce_ok p h : wf p -> counted p -> stores p h -> exists h', h' ⊆ h /\ stores (enforceBounds p) h' /\ cache_ok (enforceBounds p) /\
  plRenderParams (enforceBounds p) = plRenderParams p /\ plOptions (enforceBounds p) = plOptions p.
Proof.
  intros Hw Hc Hs. unfold enforceBounds. destruct (bounds_spec _ p eq_refl Hw Hc) as (kept & gone & _ & H2 & H3 & _). rewrite H2 in *.
  destruct (stores_drops p h (rev gone) Hs) as (h' & G1 & G2). destruct (drops_wf (rev gone) p Hw Hc). destruct (drops_fields (rev gone) p) as (F1 & F2 & _).
  by exists h'.
Qed.
Lemma stores_insert p h id s log q : stores p h -> plSessions q = <[id := s]> (plSessions p) -> psIC s = replay id log -> stores q (<[id := log]> h).
Proof.
  intros Hs Hq Hi x. rewrite Hq. destruct (decide (x = id)) as [->|Hx]; [by rewrite !lookup_insert_eq|]. rewrite !lookup_insert_ne by done. apply Hs.
Qed.
Lemma replay_snoc id log e : replay id (log ++ [e]) = Reduce (replay id log) e.
Proof. unfold replay. by rewrite fold_left_app. Qed.
Lemma push_stores p h id state event now log : lru_is (plSessions p) (plLru p) -> sessions_ok p -> plSessions p !! id = Some state ->
  psIC state = replay id log -> stores p (<[id := log]> h) ->
  exists h', h' ⊆ <[id := log ++ [event]]> h /\ (pushLocked p id state event now).2 = shown (plRenderParams p) id (log ++ [event]) /\
    stores (pushLocked p id state event now).1 h' /\ cache_ok (pushLocked p id state event now).1 /\
    plRenderParams (pushLocked p id state event now).1 = plRenderParams p.
Proof.
  intros Hl Hok Hs Hi Hst. destruct (push_spec p id state event now Hl Hok Hs) as (q & st & -> & Hw & Hc & Hq & Hic & _ & _ & _ & Hp & _). cbn [fst snd].
  assert (Hq' : stores q (<[id := log ++ [event]]> h)).
  { replace (<[id := log ++ [event]]> h) with (<[id := log ++ [event]]> (<[id := log]> h)) by apply insert_insert_eq.
    eapply stores_insert; [done|done|]. by rewrite Hic, Hi, replay_snoc. }
  destruct (enforce_ok q _ Hw Hc Hq') as (h' & G1 & G2 & G3 & G4 & _). exists h'. split_and!; [done| |done|done|congruence].
  unfold shown. by rewrite replay_snoc, Hi.
Qed.
Lemma shown_one params id event : shown params id [event] = Render (Reduce (NewEmptyIC id) event) params.
Proof. done. Qed.
(** *** Each operation is a step of the store *)
Definition simulates (p : Pipeline) (h : logs) (op : cache_op) (now : Z) : Prop :=
  exists h', let '(p', out) := run_cache p op now in store_step (plRenderParams p) h op out (plRenderParams p') h' /\ cache_ok p' /\ stores p' h'.
Lemma sim_push p h id event now : cache_ok p -> stores p h -> simulates p h (OpPush id event) now.
Proof.
  intros Hok Hs. destruct (evict_ok p h now Hok Hs) as (h1 & Hsub & Hs1 & ([Hl1 Hse1] & Hc1 & Ho1) & Hp1 & _). unfold simulates. cbn [run_cache]. unfold PushEvent.
  set (p1 := evictExpired p now) in *. set (state := mkSession (NewEmptyIC id) [] 0 now). set (p2 := with_sessions p1 _ _ _).
  assert (exists h', let '(p', rc) := match plSessions p1 !! id with Some state => pushLocked p1 id state event now | None => pushLocked p2 id state event now end in
    h' ⊆ <[id := log_of h1 id ++ [event]]> h1 /\ rc = shown (plRenderParams p) id (log_of h1 id ++ [event]) /\ stores p' h' /\ cache_ok p' /\
    plRenderParams p' = plRenderParams p) as (h' & H).
  { pose proof (Hs1 id) as Hid. unfold log_of. rewrite <- Hp1. destruct (plSessions p1 !! id) as [st|] eqn:Es, (h1 !! id) as [log|] eqn:El; try done.
    - destruct (push_stores p1 h1 id st event now log) as (h' & G); try done; [by rewrite insert_id|]. exists h'. by destruct (pushLocked p1 id st event now).
    - destruct (push_stores p2 h1 id state event now []) as (h' & G); try done.
      + unfold p2. cbn. rewrite <- (new_lru _ _ id Hl1 Es). by apply front_lru.
      + unfold sessions_ok, p2. cbn. by apply map_Forall_insert_2.
      + unfold p2. cbn. by rewrite lookup_insert_eq.
      + by eapply stores_insert.
      + exists h'. by destruct (pushLocked p2 id state event now). }
  exists h'. destruct (match plSessions p1 !! id with Some _ => _ | None => _ end) as [p' rc]. destruct H as (G1 & -> & G3 & G4 & ->).
  split_and!; [|done|done]. by apply (store_push _ _ id event h1).
Qed.
Lemma sim_push_resident p h id event now : cache_ok p -> stores p h -> simulates p h (OpPushResident id event) now.
Proof.
  intros Hok Hs. destruct (evict_ok p h now Hok Hs) as (h1 & Hsub & Hs1 & Hok1 & Hp1 & _). unfold simulates. cbn [run_cache]. unfold PushResidentEvent.
  set (p1 := evictExpired p now) in *. pose proof (Hs1 id) as Hid. pose proof Hok1 as ([Hl1 Hse1] & _).
  destruct (plSessions p1 !! id) as [st|] eqn:Es, (h1 !! id) as [log|] eqn:El; try done.
  - destruct (push_stores p1 h1 id st event now log) as (h' & G); try done; [by rewrite insert_id|]. exists h'.
    destruct (pushLocked p1 id st event now) as [p' rc]. cbn [fst snd] in G. destruct G as (G1 & -> & G3 & G4 & ->). rewrite Hp1.
    split_and!; [|done|done]. by apply (store_push_resident _ _ id event h1).
  - exists h1. cbn [reduceInPlace fst]. rewrite <- shown_one, Hp1. split_and!; [|done|done]. by apply store_push_absent.
Qed.
Lemma sim_replay p h id events now : cache_ok p -> stores p h -> simulates p h (OpReplay id events) now.
Proof.
  intros Hok Hs. destruct (evict_ok p h now Hok Hs) as (h1 & Hsub & Hs1 & (Hw1 & _) & Hp1 & _). unfold simulates. cbn [run_cache]. unfold ReplaySession.
  set (p1 := evictExpired p now) in *. set (ic := fold_left _ events _). assert (Hic : ic = replay id events) by done. clearbody ic. subst ic. cbv zeta.
  match goal with |- context[enforceBounds ?x] => set (q := x) end.
  assert (Hlru : plLru q = id :: lru_remove id (plLru p1)).
  { unfold q. cbn. f_equal. destruct (plSessions p1 !! id) eqn:Es; [done|]. symmetry. destruct Hw1. by eapply new_lru. }
  destruct (enforce_ok q (<[id := events]> h1)) as (h' & G1 & G2 & G3 & G4 & _).
  - split; [unfold lru_is; rewrite Hlru; by apply front_lru, Hw1|]. unfold sessions_ok, q. cbn. apply map_Forall_insert_2; [done|]. apply Hw1.
  - apply recount_counted.
  - by eapply stores_insert.
  - exists h'. split_and!; [|done|done]. rewrite G4. change (plRenderParams q) with (plRenderParams p1). rewrite Hp1. fold (shown (plRenderParams p) id events). by apply (store_replay _ _ id events h1).
Qed.
Lemma access_spec p h id now : cache_ok p -> stores p h -> exists h1, h1 ⊆ h /\ let '(p', state) := access p id now in
  cache_ok p' /\ stores p' h1 /\ plRenderParams p' = plRenderParams p /\
  (forall s, state = Some s -> session_ok (plRenderParams p) s) /\ psIC <$> state = replay id <$> h1 !! id.
Proof.
  intros Hok Hs. destruct (evict_ok p h now Hok Hs) as (h1 & Hsub & Hs1 & Hok1 & Hp1 & _). exists h1. split; [done|]. unfold access.
  set (p1 := evictExpired p now) in *. pose proof (Hs1 id) as Hid. destruct (plSessions p1 !! id) as [s|] eqn:Es, (h1 !! id) as [log|] eqn:El; try done.
  destruct Hok1 as (Hw & Hc & Ho). destruct (touch_wf p1 id s now Hw Hc Es). split_and!; [split_and!; [done|done|by rewrite touch_within]| |done| |cbn; by f_equal].
  - rewrite <- (insert_id h1 id log) by done. by eapply stores_insert.
  - intros s' [= <-]. rewrite <- Hp1. by apply (proj2 Hw id).
Qed.
Lemma sim_readers p h id now : cache_ok p -> stores p h ->
  simulates p h (OpGetRC id) now /\ simulates p h (OpGetIC id) now /\ simulates p h (OpHas id) now.
Proof.
  intros Hok Hs. unfold simulates. cbn [run_cache]. unfold GetRC, GetIC, HasSession. destruct (access_spec p h id now Hok Hs) as (h1 & Hsub & H).
  destruct (access p id now) as [p' state]. destruct H as (H1 & H2 & H3 & H4 & H5). rewrite H3. split_and!; exists h1; split_and!; try done.
  - assert (Hrc : psRC <$> state = shown (plRenderParams p) id <$> h1 !! id); [|rewrite Hrc; by apply store_get_rc].
    destruct state as [s|], (h1 !! id) as [log|]; try done. cbn in *. injection H5 as H5. destruct (H4 s eq_refl) as [-> _]. by rewrite H5.
  - rewrite H5. by apply store_get_ic.
  - replace (bool_decide (is_Some state)) with (bool_decide (is_Some (h1 !! id))); [by apply store_has|]. apply bool_decide_ext.
    destruct state, (h1 !! id); try done; split; (by intros [? ?]) || by eexists.
Qed.
Lemma stores_dom p h : stores p h -> dom (plSessions p) = dom h.
Proof.
  intros Hs. apply set_eq. intros id. rewrite !elem_of_dom. specialize (Hs id). destruct (plSessions p !! id), (h !! id); try done;
    split; (by intros [? ?]) || by eexists.
Qed.
Lemma sim_whole p h now : cache_ok p -> stores p h -> simulates p h OpIDs now /\ simulates p h OpStats now.
Proof.
  intros Hok Hs. destruct (evict_ok p h now Hok Hs) as (h1 & Hsub & Hs1 & Hok1 & Hp1 & _). unfold simulates. cbn [run_cache]. unfold SessionIDs, Stats.
  split; exists h1; cbv zeta.
  - rewrite Hp1, (stores_dom _ h1) by done. split_and!; [by apply store_ids|done|done].
  - change (plRenderParams (recountResidentBytes ?q)) with (plRenderParams q). rewrite Hp1. destruct Hok1 as (Hw & [C1 C2] & Ho).
    split_and!; [|split_and!; [done|apply recount_counted|]|done].
    + apply store_stats; [done|]. cbn. rewrite <- !size_dom. by rewrite (stores_dom _ h1).
    + unfold over_bounds in *. cbn. by rewrite C2 in Ho.
Qed.
Lemma dropLoop_drops fuel p : fuel = length (plLru p) -> wf p -> counted p -> dropLoop fuel p = drops (rev (plLru p)) p.
Proof.
  revert p. induction fuel as [|fuel IH]; intros p Hf Hw Hc; [by destruct (plLru p)|].
  destruct (plLru p) as [|a l _] eqn:El using rev_ind; [done|]. cbn [dropLoop]. rewrite El, last_snoc, rev_app_distr.
  destruct (drop_wf p a Hw Hc) as [Hw' Hc']. assert (Hl : plLru (drop_session p a) = l).
  { destruct Hw as [[Hnd Hin] _]. unfold drop_session. destruct (proj1 (Hin a)) as [s Hs]; [rewrite El; set_solver|]. rewrite Hs. cbn. rewrite El in *. by apply lru_remove_last. }
  rewrite IH; [by rewrite Hl|rewrite Hl, length_app in *; cbn in Hf; lia|done|done].
Qed.
Lemma sim_drops p h id now : cache_ok p -> stores p h -> simulates p h (OpDrop id) now /\ simulates p h OpDropAll now.
Proof.
  intros Hok Hs. unfold simulates. cbn [run_cache]. split.
  - exists (delete id h). unfold DropSession. destruct (drop_fields p id) as (-> & _ & F3). split_and!; [apply store_drop|by apply (drops_ok [id])|].
    intros x. rewrite F3. destruct (decide (x = id)) as [->|Hx]; [by rewrite !lookup_delete_eq|]. rewrite !lookup_delete_ne by done. apply Hs.
  - exists ∅. unfold DropAll. pose proof Hok as (Hw & Hc & _). rewrite dropLoop_drops by done. destruct (drops_fields (rev (plLru p)) p) as (-> & _ & F3).
    split_and!; [apply store_drop_all|by apply drops_ok|]. intros x. rewrite F3, lookup_empty. case_bool_decide as Hx; [done|].
    destruct (plSessions p !! x) as [s|] eqn:Ex; [|done]. destruct Hx. apply list_elem_of_In. rewrite <- in_rev. apply list_elem_of_In.
    apply (proj2 (proj1 Hw)). by exists s.
Qed.
Lemma sim_update p h params now : cache_ok p -> stores p h -> simulates p h (OpUpdate params) now.
Proof.
  intros ([[Hnd Hin] Hse] & Hc & Ho) Hs. unfold simulates. cbn [run_cache]. unfold UpdateRenderParams. set (q := recountResidentBytes _).
  destruct (enforce_ok q h) as (h' & G1 & G2 & G3 & G4 & _).
  - split; [split; [done|]|].
    + intros x. unfold q. cbn. rewrite lookup_fmap, fmap_is_Some. apply Hin.
    + unfold sessions_ok, q. cbn. intros x s Hx. rewrite lookup_fmap in Hx. apply fmap_Some in Hx as (s' & Hs' & ->). split; [done|]. done.
  - apply recount_counted.
  - intros x. unfold q. cbn. rewrite lookup_fmap. specialize (Hs x). by destruct (plSessions p !! x), (h !! x).
  - exists h'. rewrite G4. split_and!; [by apply store_update|done|done].
Qed.
Lemma every_op_simulates p h op now : cache_ok p -> stores p h -> simulates p h op now.
Proof.
  intros Hok Hs. destruct op; [by apply sim_push|by apply sim_push_resident|by apply sim_replay|by apply sim_readers..|by apply sim_whole|
    by apply (sim_drops p h id)|by apply (sim_drops p h [])|by apply sim_update|by apply sim_whole].
Qed.
Lemma new_ok params options : cache_ok (NewPipelineWithOptions params options) /\ stores (NewPipelineWithOptions params options) ∅.
Proof.
  assert (Hw : wf (NewPipelineWithOptions params options)).
  { split; [|by intros ? ? ?]. split; [constructor|]. intros id. cbn. rewrite lookup_empty. split; [by intros ?%not_elem_of_nil|by intros [? ?]]. }
  split; [split_and!; [done|done|by apply empty_within]|]. intros id. cbn. by rewrite !lookup_empty.
Qed.
Lemma run_simulates p h ops : cache_ok p -> stores p h -> exists h', store_run (plRenderParams p) h ops (run_caches p ops).2 h' /\
  cache_ok (run_caches p ops).1 /\ stores (run_caches p ops).1 h'.
Proof.
  revert p h. induction ops as [|[op now] ops IH]; intros p h Hok Hs; [exists h; split_and!; [constructor|done|done]|].
  destruct (every_op_simulates p h op now Hok Hs) as (h1 & H). cbn [run_caches]. destruct (run_cache p op now) as [p1 out]. destruct H as (H1 & H2 & H3).
  destruct (IH p1 h1 H2 H3) as (h' & G1 & G2 & G3). exists h'. destruct (run_caches p1 ops) as [p' outs]. cbn [fst snd] in *. split_and!; [|done|done].
  by eapply store_next.
Qed.

(** C19: the cache behaves like a store of event logs: whatever operations run,
    at whatever times and under whatever limits, what each of them returns is
    rendered or projected from all events of the session since it was loaded,
    and nothing else; a session may be forgotten, but never in part. *)
Theorem cache_refines_store params options ops : exists h,
  store_run params ∅ ops (run_caches (NewPipelineWithOptions params options) ops).2 h /\
  stores (run_caches (NewPipelineWithOptions params options) ops).1 h.
Proof.
  destruct (new_ok params options) as [H1 H2]. destruct (run_simulates _ _ ops H1 H2) as (h & G1 & _ & G3). by exists h.
Qed.

(** ** Bounds *)
Lemma expire_options now l p : plOptions (expireLoop now l p) = plOptions p.
Proof. revert p. induction l as [|x l IH]; intros p; [done|]. cbn [expireLoop]. repeat case_match; try done. rewrite IH. by destruct (drop_fields p x) as (_ & -> & _). Qed.
Lemma evict_options p now : plOptions (evictExpired p now) = plOptions p.
Proof. unfold evictExpired. case_match; [done|apply expire_options]. Qed.
Lemma bound_options fuel p : plOptions (boundLoop fuel p) = plOptions p.
Proof.
  revert p. induction fuel as [|n IH]; intros p; [done|]. cbn [boundLoop]. repeat case_match; try done. rewrite IH.
  match goal with |- plOptions (drop_session _ ?x) = _ => by destruct (drop_fields p x) as (_ & -> & _) end.
Qed.
Lemma dropLoop_options fuel p : plOptions (dropLoop fuel p) = plOptions p.
Proof.
  revert p. induction fuel as [|n IH]; intros p; [done|]. cbn [dropLoop]. repeat case_match; try done. rewrite IH.
  match goal with |- plOptions (drop_session _ ?x) = _ => by destruct (drop_fields p x) as (_ & -> & _) end.
Qed.
Lemma push_options p id state event now : plOptions (pushLocked p id state event now).1 = plOptions p.
Proof. unfold pushLocked. destruct (reduceInPlace _ _). destruct (renderDirty _ _ _ _ _). cbn [fst]. unfold enforceBounds. by rewrite bound_options. Qed.
Lemma op_options p op now : plOptions (run_cache p op now).1 = plOptions p.
Proof.
  destruct op; cbn [run_cache]; unfold PushEvent, PushResidentEvent, ReplaySession, GetRC, GetIC, HasSession, access, SessionIDs, DropSession, DropAll, UpdateRenderParams, Stats, enforceBounds; cbv zeta.
  1, 2: destruct (plSessions (evictExpired p now) !! id); try (apply evict_options);
    match goal with |- context[pushLocked ?a ?b ?c ?d ?e] => pose proof (push_options a b c d e) as Hp; destruct (pushLocked a b c d e) end;
    cbn [fst] in *; rewrite Hp; apply evict_options.
  2, 3, 4: destruct (plSessions (evictExpired p now) !! id); apply evict_options.
  all: cbn [fst]; rewrite ?bound_options, ?dropLoop_options; try apply evict_options; try done. by destruct (drop_fields p id) as (_ & -> & _).
Qed.
Lemma run_options p ops : plOptions (run_caches p ops).1 = plOptions p.
Proof.
  revert p. induction ops as [|[op now] ops IH]; intros p; [done|]. cbn [run_caches]. pose proof (op_options p op now) as H. destruct (run_cache p op now) as [p1 out].
  specialize (IH p1). destruct (run_caches p1 ops). cbn [fst] in *. congruence.
Qed.
Lemma over_bounds_false p : over_bounds p = false -> counted p ->
  (0 <= MaxSessions (plOptions p) -> Z.of_nat (size (plSessions p)) <= MaxSessions (plOptions p)) /\
  (0 <= MaxResidentByte (plOptions p) -> total_bytes (plSessions p) <= MaxResidentByte (plOptions p)).
Proof.
  intros [O1 O2]%orb_false_iff [_ C]. rewrite C in O2. apply andb_false_iff in O1 as [O1|O1], O2 as [O2|O2]; bool_hyps; lia.
Qed.
(** The size of what is in memory, computed afresh. *)
Definition resident_size (p : Pipeline) : Z := map_fold (fun _ s n => estimateICBytes (psIC s) + estimateRCBytes (psRC s) + n) 0 (plSessions p).
Lemma resident_size_total p : sessions_ok p -> total_bytes (plSessions p) = resident_size p.
Proof.
  unfold sessions_ok, resident_size. generalize (plSessions p). clear. intros m. induction m as [|id s m Hm IH] using map_ind; intros H; [done|].
  apply map_Forall_insert in H as [[_ H1] H2]; [|done]. rewrite total_insert by done. rewrite map_fold_insert_L by (done || (intros; lia)). rewrite IH by done. lia.
Qed.
(** after every operation the cache is within its limits: no more sessions
    than allowed, and the projections and renderings in memory, sized afresh,
    within the allowed bytes; the statistics and the recency list agree with
    what is resident. *)
Theorem cache_within_bounds params options ops :
  let p := (run_caches (NewPipelineWithOptions params options) ops).1 in
  (0 <= MaxSessions (plOptions p) -> Z.of_nat (size (plSessions p)) <= MaxSessions (plOptions p)) /\
  (0 <= MaxResidentByte (plOptions p) -> resident_size p <= MaxResidentByte (plOptions p)) /\
  plOptions p = plOptions (NewPipelineWithOptions params options) /\
  ResidentSessions (plStats p) = Z.of_nat (size (plSessions p)) /\ ResidentBytes (plStats p) = resident_size p /\
  NoDup (plLru p) /\ (forall id, id ∈ plLru p <-> is_Some (plSessions p !! id)).
Proof.
  cbv zeta. destruct (new_ok params options) as [H1 H2]. destruct (run_simulates _ _ ops H1 H2) as (h & _ & ([Hl Hse] & Hc & Ho) & _).
  rewrite <- (resident_size_total _ Hse). destruct (over_bounds_false _ Ho Hc) as [B1 B2]. rewrite run_options. rewrite run_options in B1, B2. destruct Hc, Hl. by split_and!.
Qed.

Lemma reachable_ok params options ops : let p := (run_caches (NewPipelineWithOptions params options) ops).1 in
  cache_ok p /\ MaxSessions (plOptions p) <> 0.
Proof.
  cbv zeta. destruct (new_ok params options) as [H1 H2]. destruct (run_simulates _ _ ops H1 H2) as (h & _ & Hok & _). split; [done|].
  rewrite run_options. cbn. by destruct (Z.eqb_spec (MaxSessions options) 0).
Qed.
Lemma enforce_front q id l s : wf q -> counted q -> plLru q = id :: l -> plSessions q !! id = Some s -> MaxSessions (plOptions q) <> 0 ->
  plSessions (enforceBounds q) !! id = Some s \/
  plSessions (enforceBounds q) = ∅ /\ 0 <= MaxResidentByte (plOptions q) < psResidentBytes s.
Proof.
  intros Hw Hc Hl Hs Hm. destruct (bounds_spec _ q eq_refl Hw Hc) as (kept & gone & G1 & G2 & _ & G4). unfold enforceBounds. rewrite G2.
  pose proof Hw as [[Hnd Hin] _]. destruct (drops_fields (rev gone) q) as (_ & _ & F3). destruct kept as [|k kept].
  - right. cbn [app] in G1. assert (Hg : forall x, is_Some (plSessions q !! x) <-> x ∈ rev gone).
    { intros x. rewrite <- Hin, G1, !list_elem_of_In. apply in_rev. }
    split. { apply map_empty. intros x. rewrite F3. case_bool_decide as Hx; [done|]. destruct (plSessions q !! x) eqn:Ex; [|done]. destruct Hx. apply Hg. by eexists. }
    destruct G4 as [->|(x & gone' & -> & Ho)]; [by rewrite G1 in Hl|]. assert (x = id) as -> by congruence.
    destruct (drops_fields (rev gone') q) as (_ & F2 & F3'). assert (He : plSessions (drops (rev gone') q) = {[id := s]}).
    { rewrite G1 in Hnd. apply NoDup_cons in Hnd as [Hn _]. apply map_eq. intros x. rewrite F3'. destruct (decide (x = id)) as [->|Hx].
      - rewrite lookup_singleton_eq, bool_decide_eq_false_2; [done|]. by rewrite list_elem_of_In, <- in_rev, <- list_elem_of_In.
      - rewrite lookup_singleton_ne by done. case_bool_decide as Hd; [done|]. destruct (plSessions q !! x) eqn:Ex; [|done]. destruct Hd.
        destruct (Hg x) as [Hg1 _]. rewrite Ex in Hg1. specialize (Hg1 ltac:(by eexists)). cbn [rev] in Hg1. set_solver. }
    destruct (drops_wf (rev gone') q Hw Hc) as [_ [C1 C2]]. unfold over_bounds in Ho. rewrite C2, F2, He, map_size_singleton in Ho.
    change {[id := s]} with (<[id := s]> (∅ : gmap str pipelineSession)) in Ho. rewrite total_insert in Ho by apply lookup_empty. change (total_bytes ∅) with 0 in Ho.
    apply orb_true_iff in Ho as [Ho|Ho]; bool_hyps; lia.
  - left. cbn [app] in G1. rewrite F3, bool_decide_eq_false_2; [done|]. rewrite G1 in Hl. injection Hl as -> Hl. rewrite G1 in Hnd.
    apply NoDup_cons in Hnd as [Hn _]. rewrite list_elem_of_In, <- in_rev, <- list_elem_of_In. set_solver.
Qed.
(** the session an event is pushed to is the last one the cache gives up:
    it is in memory afterwards, rendered as it was returned, unless its own
    projection and rendering exceed the allowed bytes. *)
Theorem pushed_session_stays params options ops id event now :
  let p := (run_caches (NewPipelineWithOptions params options) ops).1 in
  let '(p', rc) := PushEvent p id event now in
  exists s, psRC s = rc /\ psLastAccess s = now /\ session_ok (plRenderParams p) s /\
    (plSessions p' !! id = Some s \/ plSessions p' = ∅ /\ 0 <= MaxResidentByte (plOptions p) < psResidentBytes s).
Proof.
  cbv zeta. destruct (reachable_ok params options ops) as [Hok Hm]. set (p := (run_caches _ ops).1) in *. unfold PushEvent.
  destruct (evict_wf p now (proj1 Hok) (proj1 (proj2 Hok))) as [[Hl1 Hse1] Hc1]. pose proof (evict_options p now) as Hop.
  assert (Hpar : plRenderParams (evictExpired p now) = plRenderParams p).
  { destruct (evict_drops p now (proj1 Hok)) as (gone & rest & _ & -> & _). by destruct (drops_fields (rev gone) p) as (-> & _). }
  set (p1 := evictExpired p now) in *. rewrite <- Hpar, <- Hop. rewrite <- Hop in Hm. clearbody p1.
  assert (forall q st, lru_is (plSessions q) (plLru q) -> sessions_ok q -> plSessions q !! id = Some st -> plRenderParams q = plRenderParams p1 ->
    plOptions q = plOptions p1 -> let '(p', rc) := pushLocked q id st event now in exists s, psRC s = rc /\ psLastAccess s = now /\
      session_ok (plRenderParams p1) s /\ (plSessions p' !! id = Some s \/ plSessions p' = ∅ /\ 0 <= MaxResidentByte (plOptions p1) < psResidentBytes s)) as Hpush.
  { intros q st Hl Hse Hst <- Hq. destruct (push_spec q id st event now Hl Hse Hst) as (r & st' & -> & Hw & Hc & Hr & _ & Hla & Hrc & Hlru & Hrp & Hro).
    exists st'. split_and!; [done|done|rewrite <- Hrp; apply (proj2 Hw id); by rewrite Hr, lookup_insert_eq|]. rewrite <- Hq, <- Hro.
    eapply enforce_front; [done|done|done|by rewrite Hr, lookup_insert_eq|]. by rewrite Hro, Hq. }
  destruct (plSessions p1 !! id) as [st|] eqn:Es; [by apply Hpush|]. apply Hpush; cbn; try done.
  - rewrite <- (new_lru _ _ id Hl1 Es). by apply front_lru.
  - unfold sessions_ok. cbn. by apply map_Forall_insert_2.
  - by rewrite lookup_insert_eq.
Qed.

(** ** Expiry *)
Lemma sorted_filter {A} (R : A -> A -> Prop) f l : StronglySorted R l -> StronglySorted R (List.filter f l).
Proof.
  induction 1 as [|x l Hs IH Hf]; [constructor|]. cbn. destruct (f x); [|done]. constructor; [done|]. rewrite Forall_forall in *.
  intros y [Hy _]%elem_of_filter_bool. by apply Hf.
Qed.
Definition accessed (sessions : gmap str pipelineSession) (id : str) : Z := default 0 (psLastAccess <$> sessions !! id).
(** The list is ordered by the times of the last accesses, none after [t]. *)
Abbreviation by_access sessions := (StronglySorted (fun a b => accessed sessions b <= accessed sessions a)).
Definition recent (p : Pipeline) (t : Z) : Prop :=
  by_access (plSessions p) (plLru p) /\ (forall id s, plSessions p !! id = Some s -> psLastAccess s <= t).
Lemma by_access_agree (sessions sessions' : gmap str pipelineSession) l :
  (forall x, x ∈ l -> accessed sessions' x = accessed sessions x) -> by_access sessions l -> by_access sessions' l.
Proof.
  intros He H. induction H as [|x l _ IH Hf]; constructor; [apply IH; intros y Hy; apply He; by right|]. rewrite Forall_forall in *. intros y Hy.
  rewrite !He by (by left || by right). by apply Hf.
Qed.
Lemma recent_weaken p t t' : t <= t' -> recent p t -> recent p t'.
Proof. intros Ht [H1 H2]. split; [done|]. intros id s Hs. specialize (H2 id s Hs). lia. Qed.
Lemma recent_drop p id t : wf p -> recent p t -> recent (drop_session p id) t.
Proof.
  intros [[Hnd Hin] _] [H1 H2]. destruct (drop_fields p id) as (_ & _ & F3). unfold recent. rewrite F3. unfold drop_session.
  destruct (plSessions p !! id) as [s|] eqn:Es; [cbn|by rewrite delete_id]. destruct (lru_remove_spec id (plLru p) Hnd) as [_ N2]. split.
  - apply (by_access_agree (plSessions p)); [|by apply sorted_filter]. intros x [_ Hx]%N2. unfold accessed. by rewrite lookup_delete_ne.
  - intros x s' Hx. apply lookup_delete_Some in Hx as [_ Hx]. by apply (H2 x).
Qed.
Lemma recent_drops ids p t : wf p -> counted p -> recent p t -> recent (drops ids p) t.
Proof. revert p. induction ids as [|x ids IH]; intros p Hw Hc Hr; [done|]. destruct (drop_wf p x Hw Hc). apply IH; try done. by apply recent_drop. Qed.
Lemma recent_front p id s stats t : wf p -> recent p t -> t <= psLastAccess s ->
  recent (with_sessions p (<[id := s]> (plSessions p)) (id :: lru_remove id (plLru p)) stats) (psLastAccess s).
Proof.
  intros [[Hnd Hin] _] [H1 H2] Ht. destruct (lru_remove_spec id (plLru p) Hnd) as [_ N2]. split; cbn.
  - assert (Hag : forall x, x ∈ lru_remove id (plLru p) -> accessed (<[id := s]> (plSessions p)) x = accessed (plSessions p) x).
    { intros x [_ Hx]%N2. unfold accessed. by rewrite lookup_insert_ne. }
    constructor; [apply (by_access_agree (plSessions p)); [done|by apply sorted_filter]|]. apply Forall_forall. intros x Hx. rewrite Hag by done.
    unfold accessed at 2. rewrite lookup_insert_eq. cbn. unfold accessed. apply N2 in Hx as [Hx _]. apply Hin in Hx as [s' Hs']. rewrite Hs'. cbn. specialize (H2 x s' Hs'). lia.
  - intros x s' Hx. destruct (decide (x = id)) as [->|Hne]; [rewrite lookup_insert_eq in Hx; by injection Hx as ->|]. rewrite lookup_insert_ne in Hx by done.
    specialize (H2 x s' Hx). lia.
Qed.
Lemma recent_same p q t : plSessions q = plSessions p -> plLru q = plLru p -> recent p t -> recent q t.
Proof. unfold recent. by intros -> ->. Qed.
Lemma recent_evict p now t : wf p -> counted p -> recent p t -> recent (evictExpired p now) t.
Proof. intros Hw Hc Hr. destruct (evict_drops p now Hw) as (gone & rest & _ & -> & _). by apply recent_drops. Qed.
Lemma recent_enforce p t : wf p -> counted p -> recent p t -> recent (enforceBounds p) t.
Proof. intros Hw Hc Hr. destruct (bounds_spec _ p eq_refl Hw Hc) as (kept & gone & _ & H2 & _). unfold enforceBounds. rewrite H2. by apply recent_drops. Qed.
Lemma recent_push p id state event now t : lru_is (plSessions p) (plLru p) -> sessions_ok p -> plSessions p !! id = Some state -> recent p t -> t <= now ->
  recent (pushLocked p id state event now).1 now.
Proof.
  intros Hl Hse Hs Hr Ht. destruct (push_spec p id state event now Hl Hse Hs) as (q & st & -> & Hw & Hc & Hq & _ & Hla & _ & Hlru & _). cbn [fst].
  apply recent_enforce; [done..|]. rewrite <- Hla. eapply recent_same; [| |apply (recent_front p id st (plStats p) t)]; try done. by rewrite Hla.
Qed.
Lemma evicted_ok p now t : cache_ok p -> recent p t -> t <= now ->
  wf (evictExpired p now) /\ counted (evictExpired p now) /\ recent (evictExpired p now) now.
Proof. intros (Hw & Hc & _) Hr Ht. destruct (evict_wf p now Hw Hc). split_and!; [done|done|]. eapply recent_weaken; [done|]. by apply recent_evict. Qed.
Lemma recent_pushes p id event now : wf p -> recent p now ->
  recent match plSessions p !! id with
         | Some state => pushLocked p id state event now
         | None => pushLocked (with_sessions p (<[id := mkSession (NewEmptyIC id) [] 0 now]> (plSessions p)) (id :: plLru p) (plStats p)) id
                     (mkSession (NewEmptyIC id) [] 0 now) event now
         end.1 now.
Proof.
  intros [Hl Hse] Hr. destruct (plSessions p !! id) as [st|] eqn:Es; [by eapply recent_push|]. rewrite <- (new_lru _ _ id Hl Es).
  eapply recent_push; cbn; [by apply front_lru|by apply map_Forall_insert_2|by rewrite lookup_insert_eq| |done].
  by apply (recent_front p id (mkSession (NewEmptyIC id) [] 0 now) (plStats p) now).
Qed.
Lemma recent_access p id now : wf p -> recent p now ->
  recent match plSessions p !! id with None => (p, None) | Some state => (touch p id state now, Some state) end.1 now.
Proof.
  intros Hw Hr. destruct (plSessions p !! id) as [s|] eqn:Es; [|done]. cbn [fst].
  by apply (recent_front p id (mkSession (psIC s) (psRC s) (psResidentBytes s) now) (plStats p) now).
Qed.
Lemma recent_update p params t : cache_ok p -> recent p t -> recent (UpdateRenderParams p params) t.
Proof.
  intros ([[Hnd Hin] Hse] & Hc & Ho) [H1 H2]. unfold UpdateRenderParams. apply recent_enforce; [|apply recount_counted|].
  - split; [split; [done|]|]; cbn.
    + intros x. cbn. rewrite lookup_fmap, fmap_is_Some. apply Hin.
    + unfold sessions_ok. cbn. intros x s Hx. rewrite lookup_fmap in Hx. apply fmap_Some in Hx as (s' & Hs' & ->). by split.
  - split; cbn.
    + apply (by_access_agree (plSessions p)); [|done]. intros x _. unfold accessed. rewrite lookup_fmap. by destruct (plSessions p !! x).
    + intros x s Hx. rewrite lookup_fmap in Hx. apply fmap_Some in Hx as (s' & Hs' & ->). exact (H2 x s' Hs').
Qed.
Lemma recent_replay p id now : wf p -> recent p now ->
  forall state stats, psLastAccess state = now -> session_ok (plRenderParams p) state ->
  recent (enforceBounds (recountResidentBytes (with_sessions p (<[id := state]> (plSessions p))
    (id :: match plSessions p !! id with Some _ => lru_remove id (plLru p) | None => plLru p end) stats))) now.
Proof.
  intros Hw Hr state stats Hla Hok. replace (match plSessions p !! id with Some _ => _ | None => _ end) with (lru_remove id (plLru p)).
  2: { destruct (plSessions p !! id) eqn:Es; [done|]. destruct Hw. by eapply new_lru. }
  apply recent_enforce; [|apply recount_counted|].
  - by apply (front_wf p id state stats).
  - rewrite <- Hla. apply (recent_front p id state stats now); [done|done|lia].
Qed.
Lemma recent_op p op t now : cache_ok p -> recent p t -> t <= now -> recent (run_cache p op now).1 now.
Proof.
  intros Hok Hr Ht. destruct (evicted_ok p now t Hok Hr Ht) as (Hw1 & Hc1 & Hr1). pose proof (recent_weaken p t now Ht Hr) as Hr'. pose proof Hok as (Hw & Hc & _).
  destruct op as [id event|id event|id events|id|id|id| |id| |params|]; cbn [run_cache].
  - unfold PushEvent. pose proof (recent_pushes _ id event now Hw1 Hr1) as H. by destruct (match plSessions (evictExpired p now) !! id with Some _ => _ | None => _ end).
  - unfold PushResidentEvent. pose proof (recent_pushes _ id event now Hw1 Hr1) as H. destruct (plSessions (evictExpired p now) !! id); [|done].
    by destruct (pushLocked _ _ _ _ _).
  - unfold ReplaySession. cbn [fst]. by apply recent_replay.
  - unfold GetRC, access. pose proof (recent_access _ id now Hw1 Hr1) as H. by destruct (plSessions (evictExpired p now) !! id).
  - unfold GetIC, access. pose proof (recent_access _ id now Hw1 Hr1) as H. by destruct (plSessions (evictExpired p now) !! id).
  - unfold HasSession, access. pose proof (recent_access _ id now Hw1 Hr1) as H. by destruct (plSessions (evictExpired p now) !! id).
  - done.
  - by apply recent_drop.
  - unfold DropAll. cbn [fst]. rewrite dropLoop_drops by done. by apply recent_drops.
  - by apply recent_update.
  - done.
Qed.
(** The clock readings of a run never go back. *)
Definition monotone (ops : list (cache_op * Z)) (now : Z) : Prop := StronglySorted Z.le (map snd ops ++ [now]).
Lemma recent_run p h ops t now : cache_ok p -> stores p h -> recent p t -> Forall (fun x => t <= x) (map snd ops ++ [now]) -> monotone ops now ->
  recent (run_caches p ops).1 now.
Proof.
  revert p h t. induction ops as [|[op x] ops IH]; intros p h t Hok Hs Hr Ht Hm.
  { cbn in *. apply Forall_cons in Ht as [Ht _]. by eapply recent_weaken. }
  cbn [map app snd] in *. apply Forall_cons in Ht as [Hx Ht]. inversion Hm as [|? ? Hm' Hall]; subst. destruct (every_op_simulates p h op x Hok Hs) as (h1 & H).
  pose proof (recent_op p op t x Hok Hr Hx) as Hr1. cbn [run_caches]. destruct (run_cache p op x) as [p1 out]. destruct H as (_ & H2 & H3). cbn [fst] in Hr1.
  specialize (IH p1 h1 x H2 H3 Hr1 Hall Hm'). by destruct (run_caches p1 ops).
Qed.
(** under a clock that does not go back, expiry is exact: the sessions a
    reader sees are those whose last access is less than the time to live ago. *)
Theorem expiry_is_exact params options ops now (Hclock : monotone ops now) :
  let p := (run_caches (NewPipelineWithOptions params options) ops).1 in
  forall id, id ∈ (SessionIDs p now).2 <->
    exists s, plSessions p !! id = Some s /\ (0 <= TTL (plOptions p) -> time_sub now (psLastAccess s) < TTL (plOptions p)).
Proof.
  cbv zeta. destruct (new_ok params options) as [N1 N2]. destruct (run_simulates _ _ ops N1 N2) as (h & _ & (Hw & Hc & _) & _).
  assert (exists t, Forall (fun x => t <= x) (map snd ops ++ [now])) as [t Ht].
  { unfold monotone in Hclock. destruct (map snd ops ++ [now]) as [|x l]; [by exists 0|]. exists x. inversion Hclock; subst. constructor; [done|done]. }
  assert (R0 : recent (NewPipelineWithOptions params options) t).
  { split; [constructor|]. intros id s Hs. cbn in Hs. by rewrite lookup_empty in Hs. }
  destruct (recent_run _ _ ops t now N1 N2 R0 Ht Hclock) as [R1 R2].
  set (p := (run_caches _ ops).1) in *. intros id. unfold SessionIDs. cbn [snd]. rewrite elem_of_dom.
  destruct (evict_drops p now Hw) as (gone & rest & G1 & -> & G3). destruct (drops_fields (rev gone) p) as (_ & _ & F3). rewrite F3.
  pose proof Hw as [[Hnd Hin] _]. rewrite G1 in Hnd. apply NoDup_app in Hnd as (_ & Hdisj & _).
  assert (Hrev : forall x, x ∈ rev gone <-> x ∈ gone) by (intros x; rewrite !list_elem_of_In; symmetry; apply in_rev).
  destruct G3 as [[T1 ->]|(T1 & T2 & T3)].
  { rewrite bool_decide_eq_false_2 by (rewrite Hrev; apply not_elem_of_nil). split; [intros [s Hs]; exists s; split; [done|lia]|intros (s & Hs & _); by exists s]. }
  case_bool_decide as Hg; [rewrite Hrev in Hg; split; [by intros [? ?]|]|].
  - intros (s & Hs & Hf). rewrite Forall_forall in T2. destruct (T2 id Hg) as (s' & Hs' & He). simplify_eq. specialize (Hf T1). lia.
  - rewrite Hrev in Hg. split; [|intros (s & Hs & _); by exists s]. intros [s Hs]. exists s. split; [done|]. intros _.
    assert (Hid : id ∈ rest).
    { assert (Hi : id ∈ plLru p) by (apply Hin; by exists s). rewrite G1 in Hi. set_solver. }
    destruct T3 as [->|(r & x & -> & Hx)]; [by apply not_elem_of_nil in Hid|].
    assert (Hix : x ∈ plLru p) by (rewrite G1; set_solver). apply Hin in Hix as [sx Hsx].
    assert (Hle : psLastAccess sx <= psLastAccess s).
    { rewrite G1, <- app_assoc in R1. apply elem_of_app in Hid as [Hid| ->%list_elem_of_singleton]; [|by simplify_eq].
      pose proof (StronglySorted_app_cross _ r ([x] ++ gone) id x R1 Hid ltac:(by left)) as H. unfold accessed in H. by rewrite Hs, Hsx in H. }
    assert (~ TTL (plOptions p) <= time_sub now (psLastAccess sx)) by (intros He; apply Hx; by exists sx). unfold time_sub in *. lia.
Qed.
End refinement.

(** ** A run *)
Definition sizeless : Encoder := {| json_node := fun _ => Some (lit "{}"); json_segment := fun _ => Some (lit "{}"); json_event := fun _ => None |}.
Definition two_sessions : list (cache_op * Z) := [(OpPush (lit "a") sample_message, 0); (OpPush (lit "b") sample_message, 50)].
Definition sample_options : PipelineOptions := mkOptions 0 0 100.
Example a_expires :
  let p := (@run_caches ascii_unicode plain_ascii sizeless (NewPipelineWithOptions (mkParams [] ∅) sample_options) two_sessions).1 in
  plLru p = [lit "b"; lit "a"] /\ (SessionIDs p 120).2 = {[lit "b"]} /\ ResidentBytes (plStats p) = 8.
Proof. vm_compute. split_and!; reflexivity. Qed.
Lemma expiry_is_exact_witness :
  let p := (@run_caches ascii_unicode plain_ascii sizeless (NewPipelineWithOptions (mkParams [] ∅) sample_options) two_sessions).1 in
  lit "b" ∈ (SessionIDs p 120).2 <->
    exists s, plSessions p !! lit "b" = Some s /\ (0 <= TTL (plOptions p) -> time_sub 120 (psLastAccess s) < TTL (plOptions p)).
Proof. apply (@expiry_is_exact ascii_unicode plain_ascii sizeless (mkParams [] ∅) sample_options two_sessions 120). unfold monotone, two_sessions. cbn [map snd app].
  repeat (apply SSorted_cons || apply SSorted_nil || apply Forall_cons_2 || apply Forall_nil_2 || lia). Defined.
