(* ===== verification/TimelineCompose.v ===== *)
(** * Composing the history of a chat session

    Models [internal/chat/timeline/context.go] and [context_source.go], the
    positions of [cursor.go], the data of [checkpoint_source.go] and
    [internal/agent/turn/summary.go]: the rendered segments of a session and
    the turns the bot answered with are merged, under the session's checkpoint,
    into the messages a model reads, as many as the admission of [Admission]
    lets through.  An entry's source is a value here: every entry is built with
    a source of its own, so marking one marks no other. *)

From S2P Require Import Prelude GoStr ContextFrag Admission Timeline TimelineRender.
#[local] Open Scope Z_scope.

(** ** Consumed positions *)
Record DiscussCursorPosition : Type := mkPosition { dpEventCursor : Z; dpSourceCursor : Z }.
Definition Covers (p : DiscussCursorPosition) (seg : RenderedSegment) : bool :=
  if dpSourceCursor p <? sgReceivedAtMs seg then false
  else if (0 <? sgLastEventCursor seg) && (0 <? dpEventCursor p) then sgLastEventCursor seg <=? dpEventCursor p
  else true.
Definition Merge (p other : DiscussCursorPosition) : DiscussCursorPosition :=
  mkPosition (if dpEventCursor p <? dpEventCursor other then dpEventCursor other else dpEventCursor p)
    (if dpSourceCursor p <? dpSourceCursor other then dpSourceCursor other else dpSourceCursor p).
Definition from_self (seg : RenderedSegment) : bool := sgIsMyself seg || sgIsSelfSent seg.
Definition HasUncoveredExternalEvent (rc : RenderedContext) (position : DiscussCursorPosition) : bool :=
  existsb (fun seg => negb (from_self seg) && negb (Covers position seg)) rc.
Definition consume (position : DiscussCursorPosition) (seg : RenderedSegment) : DiscussCursorPosition :=
  mkPosition (if dpEventCursor position <? sgLastEventCursor seg then sgLastEventCursor seg else dpEventCursor position)
    (if dpSourceCursor position <? sgReceivedAtMs seg then sgReceivedAtMs seg else dpSourceCursor position).
Definition ConsumedDiscussCursor (rc : RenderedContext) : DiscussCursorPosition := fold_left consume rc (mkPosition 0 0).

(** ** Summaries *)
Definition summaryPreamble : str :=
  lit "The summary below stands for earlier messages of this conversation that are no longer shown; the messages shown verbatim before it and everything after it take precedence over it.".
Definition SummaryText (summary : str) : str :=
  summaryPreamble ++ [nl] ++ lit "<summary>" ++ [nl] ++ trim_space summary ++ [nl] ++ lit "</summary>".
Definition PlaceSummary {T} (items : list T) (summary : T) (covered : T -> bool) : list T * bool :=
  match find_last covered items with
  | None => (items, false)
  | Some last =>
      (List.concat (imap (fun i item => (if covered item then [] else [item]) ++ (if (i =? last)%nat then [summary] else [])) items), true)
  end.

(** ** The data of a composition *)
Record TurnResponseEntry : Type := mkTurnResponse {
  trRequestedAtMs : Z; trRole : str; trContent : str; trRawContent : str; trSourceMessageID : str; trDiscussStep : bool }.
Record ContextMessage : Type := mkContextMessage {
  cmSource : option ContextMessageSource; cmRole : str; cmContent : str; cmRawContent : str; cmCompactionArtifactID : str;
  cmPinned : bool }.
Record ComposeContextResult : Type := mkComposeResult { crMessages : list ContextMessage; crEstimatedTokens : Z }.
Record CheckpointItem : Type := mkItem { ciSummaryID : str; ciSummary : str; ciMessageID : str; ciResponse : option TurnResponseEntry }.
(** [Messages] keeps of each message whether one of its rows is left raw. *)
Record HistoryCheckpoint : Type := mkCheckpoint { hcItems : list CheckpointItem; hcMessages : gmap str bool }.
Record mergeEntry : Type := mkMergeEntry {
  mgSource : option ContextMessageSource; mgKind : str; mgTime : Z; mgStep : Z; mgPinned : bool;
  mgRCContent : list RenderedContentPiece; mgSummaryContent : str; mgSummaryID : str;
  mgTRRole : str; mgTRContent : str; mgTRRawContent : str }.
Definition composes (c : HistoryCheckpoint) (segment : RenderedSegment) : bool :=
  match hcMessages c !! trim_space (sgMessageID segment) with None => true | Some kept => kept end.

(** ** Merging *)
Definition renderedMessageSource (segment : RenderedSegment) : ContextMessageSource :=
  mkSource (if from_self segment then lit "self" else lit "external") (sgMessageID segment) false.
Definition renderedContextEntry (seg : RenderedSegment) (step : Z) : mergeEntry :=
  mkMergeEntry (Some (renderedMessageSource seg)) (lit "rc") (sgReceivedAtMs seg) step false (sgContent seg) [] [] [] [] [].
Definition turnResponseEntry (tr : TurnResponseEntry) (step : Z) : mergeEntry :=
  mkMergeEntry (Some (mkSource (lit "history") (trSourceMessageID tr) false)) (lit "tr") (trRequestedAtMs tr) step false [] [] []
    (trRole tr) (trContent tr) (trRawContent tr).
Definition appendRenderedContextEntries (entries : list mergeEntry) (rc : RenderedContext) : list mergeEntry :=
  entries ++ imap (fun i seg => renderedContextEntry seg (2 * Z.of_nat i)) rc.
Definition appendTurnResponseEntries (entries : list mergeEntry) (trs : list TurnResponseEntry) : list mergeEntry :=
  entries ++ imap (fun i tr => turnResponseEntry tr (2 * Z.of_nat i)) trs.
Definition mergeKindOrder (kind : str) : Z := if str_eqb kind (lit "rc") then 0 else if str_eqb kind (lit "tr") then 1 else 2.
Definition entry_before (a b : mergeEntry) : bool :=
  if negb (mgTime a =? mgTime b) then mgTime a <? mgTime b
  else
    let leftOrder := mergeKindOrder (mgKind a) in
    let rightOrder := mergeKindOrder (mgKind b) in
    if negb (leftOrder =? rightOrder) then leftOrder <? rightOrder else mgStep a <? mgStep b.
Definition sortMergeEntries (entries : list mergeEntry) : list mergeEntry := stable_sort entry_before entries.
Definition held_items (c : HistoryCheckpoint) : gmap str nat :=
  fold_left (fun held q => if is_empty (ciMessageID q.2) then held else <[ciMessageID q.2 := q.1]> held)
    (imap (fun i item => (i, item)) (hcItems c)) ∅.
(** The segments of held rows, by the position of their item; the last segment
    of an id counts. *)
Definition held_segments (held : gmap str nat) (rc : RenderedContext) : gmap nat RenderedSegment :=
  fold_left (fun segments seg => match held !! trim_space (sgMessageID seg) with Some index => <[index := seg]> segments | None => segments end) rc ∅.
Definition is_rest (c : HistoryCheckpoint) (seg : RenderedSegment) : bool :=
  match held_items c !! trim_space (sgMessageID seg) with Some _ => false | None => composes c seg end.
Definition pin (e : mergeEntry) : mergeEntry :=
  mkMergeEntry (mgSource e) (mgKind e) (mgTime e) (mgStep e) true (mgRCContent e) (mgSummaryContent e) (mgSummaryID e) (mgTRRole e)
    (mgTRContent e) (mgTRRawContent e).
Definition itemEntry (segments : gmap nat RenderedSegment) (i : nat) (item : CheckpointItem) : option mergeEntry :=
  pin <$>
  if negb (is_empty (ciSummaryID item)) then
    Some (mkMergeEntry None (lit "summary") 0 0 false [] (SummaryText (ciSummary item)) (ciSummaryID item) [] [] [])
  else match ciResponse item with
    | Some response => Some (turnResponseEntry response (Z.of_nat i))
    | None => (fun seg => renderedContextEntry seg (Z.of_nat i)) <$> segments !! i
    end.
Definition pinnedEntries (rc : RenderedContext) (c : HistoryCheckpoint) : list mergeEntry :=
  omap id (imap (itemEntry (held_segments (held_items c) rc)) (hcItems c)).
Definition restEntries (rc : RenderedContext) (trs : list TurnResponseEntry) (c : HistoryCheckpoint) : list mergeEntry :=
  appendTurnResponseEntries (appendRenderedContextEntries [] (List.filter (is_rest c) rc)) trs.
Definition composeMergeEntries (rc : RenderedContext) (trs : list TurnResponseEntry) (checkpoint : HistoryCheckpoint) : list mergeEntry :=
  pinnedEntries rc checkpoint ++ sortMergeEntries (restEntries rc trs checkpoint).

(** ** Current entries *)
Definition with_source (e : mergeEntry) (source : option ContextMessageSource) : mergeEntry :=
  mkMergeEntry source (mgKind e) (mgTime e) (mgStep e) (mgPinned e) (mgRCContent e) (mgSummaryContent e) (mgSummaryID e) (mgTRRole e)
    (mgTRContent e) (mgTRRawContent e).
Definition set_current (current : bool) (s : ContextMessageSource) : ContextMessageSource := mkSource (csKind s) (csID s) current.
Definition source_is (kind : str) (e : mergeEntry) : bool := match mgSource e with Some s => str_eqb (csKind s) kind | None => false end.
(** Whether a segment with this id is input the position does not cover. *)
Definition uncovered (rc : RenderedContext) (after : DiscussCursorPosition) (messageID : str) : bool :=
  existsb (fun seg => negb (sgIsMyself seg) && negb (sgIsSelfSent seg) && negb (Covers after seg) && str_eqb (sgMessageID seg) messageID) rc.
Definition markCurrentEntries (entries : list mergeEntry) (rc : RenderedContext) (after : option DiscussCursorPosition) : list mergeEntry :=
  match after with
  | Some after =>
      map (fun e => if source_is (lit "external") e
                    then with_source e ((fun s => set_current (uncovered rc after (csID s)) s) <$> mgSource e) else e) entries
  | None =>
      match find_last (source_is (lit "external")) entries with
      | Some i => alter (fun e => with_source e (set_current true <$> mgSource e)) i entries
      | None => if existsb (source_is (lit "self")) entries then entries else map (fun e => with_source e None) entries
      end
  end.

(** ** Materializing *)
Definition text_pieces (pieces : list RenderedContentPiece) : list str :=
  map rpText (List.filter (fun p => str_eqb (rpType p) (lit "text")) pieces).
Definition pendingText (pieces : list RenderedContentPiece) : str :=
  fold_left (fun pending text => (if is_empty pending then pending else pending ++ [nl]) ++ text) (text_pieces pieces) [].
Definition materializeEntry (e : mergeEntry) : list ContextMessage :=
  if str_eqb (mgKind e) (lit "rc") then
    let text := pendingText (mgRCContent e) in
    if is_empty text then [] else [mkContextMessage (mgSource e) (lit "user") text [] [] (mgPinned e)]
  else if str_eqb (mgKind e) (lit "summary") then [mkContextMessage None (lit "user") (mgSummaryContent e) [] (mgSummaryID e) true]
  else if str_eqb (mgKind e) (lit "tr")
    then [mkContextMessage (mgSource e) (mgTRRole e) (mgTRContent e) (mgTRRawContent e) [] (mgPinned e)]
  else [].
Definition materializeMergeEntries (entries : list mergeEntry) : list ContextMessage := flat_map materializeEntry entries.
Definition mergeEntries (entries : list mergeEntry) : list ContextMessage := materializeMergeEntries (markCurrentEntries entries [] None).
Definition byte_len (s : str) : Z := Z.of_nat (length s).
Definition mergeEntryTokens (e : mergeEntry) : Z :=
  if str_eqb (mgKind e) (lit "rc") then
    TokensFromBytes (fold_left (fun n text => (if 0 <? n then n + 1 else n) + byte_len text) (text_pieces (mgRCContent e)) 0)
  else if str_eqb (mgKind e) (lit "tr") then
    TokensFromBytes (byte_len (if is_empty (mgTRRawContent e) then mgTRContent e else mgTRRawContent e))
  else TokensFromBytes (byte_len (mgSummaryContent e)).
Definition estimateMessageTokens (m : ContextMessage) : Z :=
  TokensFromBytes (byte_len (if is_empty (cmRawContent m) then cmContent m else cmRawContent m)).
Definition estimateMessagesTokens (messages : list ContextMessage) : Z := fold_right (fun m n => estimateMessageTokens m + n) 0 messages.
Definition ComposeContextWithCheckpoint (rc : RenderedContext) (trs : list TurnResponseEntry) (checkpoint : HistoryCheckpoint)
  : option ComposeContextResult :=
  match mergeEntries (composeMergeEntries rc trs checkpoint) with
  | [] => None
  | allMessages => Some (mkComposeResult allMessages (estimateMessagesTokens allMessages))
  end.

(** ** Composing under a budget *)
Record ComposeBudget : Type := mkBudget { cbAfter : option DiscussCursorPosition; cbMaxTokens : Z }.
Record ComposeAdmission : Type := mkAdmission {
  caEstimatedTokens : Z; caSelectedTokens : Z; caCurrentTokens : Z; caOmittedSources : list ContextMessageSource; caTotalEntries : Z;
  caDroppedEntries : Z; caProtectedOverflow : bool }.
Section budgeted.
Context {U : Unicode}.
Definition admissionEntry (e : mergeEntry) : AdmissionEntry :=
  mkEntry (mgSource e) (mergeEntryTokens e) (mgPinned e) (str_eqb (mgKind e) (lit "tr") && equal_fold (trim_space (mgTRRole e)) (lit "tool")).
(** The elements whose flag is set. *)
Definition flagged_of {A} (flags : list bool) (l : list A) : list A := map fst (List.filter snd (zip l flags)).
Definition omittedSources (entries : list mergeEntry) (current selected : list bool) : list ContextMessageSource :=
  omap mgSource (flagged_of (zip_with (fun c s => c && negb s) current selected) entries).
Definition ComposeContextWithCheckpointBudgeted (rc : RenderedContext) (trs : list TurnResponseEntry) (checkpoint : HistoryCheckpoint)
    (budget : ComposeBudget) : option ComposeContextResult * ComposeAdmission :=
  match composeMergeEntries rc trs checkpoint with
  | [] => (None, mkAdmission 0 0 0 [] 0 0 false)
  | entries =>
      let entries := markCurrentEntries entries rc (cbAfter budget) in
      let admitted := map admissionEntry entries in
      let decision := AdmitContextEntries admitted (cbMaxTokens budget) in
      let currentTokens := fold_right (fun e n => aeCost e + n) 0 (flagged_of (ProtectedAdmissionEntries admitted (cbMaxTokens budget)) admitted) in
      let admission omitted := mkAdmission (adEstimatedTokens decision) (adSelectedTokens decision) currentTokens omitted
          (Z.of_nat (length entries)) (adDroppedEntries decision) (adProtectedOverflow decision) in
      if adProtectedOverflow decision then (None, admission [])
      else
        let selected := adSelected decision in
        let admission := admission (omittedSources entries (CurrentAdmissionEntries admitted) selected) in
        let kept := if 0 <? adDroppedEntries decision then flagged_of selected entries else entries in
        match materializeMergeEntries kept with
        | [] => (None, admission)
        | messages => (Some (mkComposeResult messages (adSelectedTokens decision)), admission)
        end
  end.
End budgeted.

(** ** What a consumed position proves *)
Lemma consume_max rc p : let q := fold_left consume rc p in
  dpEventCursor p <= dpEventCursor q /\ dpSourceCursor p <= dpSourceCursor q /\
  Forall (fun seg => sgLastEventCursor seg <= dpEventCursor q /\ sgReceivedAtMs seg <= dpSourceCursor q) rc.
Proof.
  cbv zeta. revert p. induction rc as [|seg rc IH]; intros p; cbn [fold_left]; [split_and!; [lia|lia|constructor]|].
  destruct (IH (consume p seg)) as (H1 & H2 & H3).
  assert (He : dpEventCursor (consume p seg) = Z.max (dpEventCursor p) (sgLastEventCursor seg) /\
               dpSourceCursor (consume p seg) = Z.max (dpSourceCursor p) (sgReceivedAtMs seg)).
  { unfold consume. cbn. split; case_if; bool_hyps; lia. }
  destruct He as [E1 E2]. rewrite E1 in H1. rewrite E2 in H2. split_and!; [lia|lia|]. constructor; [lia|done].
Qed.
Lemma merge_max p q : dpEventCursor (Merge p q) = Z.max (dpEventCursor p) (dpEventCursor q) /\
  dpSourceCursor (Merge p q) = Z.max (dpSourceCursor p) (dpSourceCursor q).
Proof. unfold Merge. cbn. split; case_if; bool_hyps; lia. Qed.
Lemma covers_iff p seg : Covers p seg = true <-> sgReceivedAtMs seg <= dpSourceCursor p /\
  (0 < sgLastEventCursor seg -> 0 < dpEventCursor p -> sgLastEventCursor seg <= dpEventCursor p).
Proof.
  unfold Covers. destruct (Z.ltb_spec (dpSourceCursor p) (sgReceivedAtMs seg)); [split; [done|lia]|].
  destruct (Z.ltb_spec 0 (sgLastEventCursor seg)); cbn [andb]; [|split; [lia|done]]. destruct (Z.ltb_spec 0 (dpEventCursor p)); [|split; [lia|done]].
  rewrite Z.leb_le. lia.
Qed.
Lemma uncovered_iff rc p : HasUncoveredExternalEvent rc p = true <-> exists seg, seg ∈ rc /\ from_self seg = false /\ Covers p seg = false.
Proof.
  unfold HasUncoveredExternalEvent. rewrite existsb_exists. setoid_rewrite list_elem_of_In. setoid_rewrite andb_true_iff. setoid_rewrite negb_true_iff. done.
Qed.
Section wakes.
Context {U : Unicode} {P : Printable}.
Lemma segment_of n params : sgReceivedAtMs (renderNode n params) = GetReceivedAtMs n /\ sgLastEventCursor (renderNode n params) = node_cursor n.
Proof. destruct n as [m|e]; [|done]. cbn. unfold renderMessage. cbv zeta. by destruct (imDeleted m). Qed.
Lemma segment_self m params : from_self (renderMessage m params) = is_user (prBotUserID params) (imSender m) || imIsSelfSent m.
Proof. unfold renderMessage. cbv zeta. by destruct (imDeleted m). Qed.
Lemma render_in ic params seg : seg ∈ Render ic params <-> exists n, n ∈ icNodes ic /\ seg = renderNode n params.
Proof. unfold Render. rewrite list_elem_of_fmap. naive_solver. Qed.
Lemma consumed_covers rc p seg : seg ∈ rc -> Covers (Merge p (ConsumedDiscussCursor rc)) seg = true.
Proof.
  intros Hs. destruct (consume_max rc (mkPosition 0 0)) as (_ & _ & H). rewrite Forall_forall in H. specialize (H seg Hs).
  apply covers_iff. destruct (merge_max p (ConsumedDiscussCursor rc)) as [-> ->]. unfold ConsumedDiscussCursor. lia.
Qed.
(** Nodes before and after a message that is already there: the same times and cursors. *)
Lemma merged_nodes ic e : findMessageIndex (icNodes ic) (meMessageID e) <> None ->
  Forall2 (fun n n' => GetReceivedAtMs n' = GetReceivedAtMs n /\ node_cursor n' = node_cursor n) (icNodes ic) (icNodes (reduceMessage ic e)).
Proof.
  intros H. unfold reduceMessage. destruct (findMessageIndex _ _) as [i|]; [|done]. cbn [with_nodes icNodes]. apply Forall2_same_length_lookup.
  split; [by rewrite length_alter|]. intros j n n' Hn Hn'. destruct (decide (j = i)) as [->|Hj].
  - rewrite list_lookup_alter_eq, Hn in Hn'. cbn in Hn'. injection Hn' as <-. by destruct n.
  - rewrite list_lookup_alter_ne in Hn' by done. by simplify_eq.
Qed.

(** a reply consumes exactly what it answers.  With the position consumed
    from a timeline, whatever it is merged into, nothing in that timeline is
    new, nor is a message delivered again; a later message of someone else is,
    and so is an edit of such a message that is stamped after the position. *)
Theorem consumption_tracks_events ic params (before : DiscussCursorPosition) :
  let position := Merge before (ConsumedDiscussCursor (Render ic params)) in
  HasUncoveredExternalEvent (Render ic params) position = false /\
  (forall e, findMessageIndex (icNodes ic) (meMessageID e) <> None ->
     HasUncoveredExternalEvent (Render (Reduce ic (EvMessage e)) params) position = false) /\
  (forall e, findMessageIndex (icNodes ic) (meMessageID e) = None -> is_user (prBotUserID params) (meSender e) = false -> meIsSelfSent e = false ->
     dpSourceCursor position < meReceivedAtMs e -> HasUncoveredExternalEvent (Render (Reduce ic (EvMessage e)) params) position = true) /\
  (forall e m, find_message (icNodes ic) (eeMessageID e) = Some m -> is_user (prBotUserID params) (imSender m) = false -> imIsSelfSent m = false ->
     0 < dpEventCursor position < sanitizedEventCursor (eeEventCursor e) ->
     HasUncoveredExternalEvent (Render (Reduce ic (EvEdit e)) params) position = true).
Proof.
  cbv zeta. set (position := Merge before _). assert (Hcov : forall n, n ∈ icNodes ic -> Covers position (renderNode n params) = true).
  { intros n Hn. apply consumed_covers, render_in. by exists n. }
  split_and!.
  - apply not_true_iff_false. intros (seg & (n & Hn & ->)%render_in & _ & Hc)%uncovered_iff. by rewrite Hcov in Hc.
  - intros e He. apply not_true_iff_false. intros (seg & (n' & Hn' & ->)%render_in & _ & Hc)%uncovered_iff. pose proof (merged_nodes ic e He) as H.
    apply list_elem_of_lookup in Hn' as [i Hn']. destruct (Forall2_lookup_r _ _ _ _ _ H Hn') as (n & Hn & H1 & H2).
    apply list_elem_of_lookup_2, Hcov in Hn. apply not_true_iff_false in Hc. apply Hc. rewrite covers_iff in *.
    destruct (segment_of n params) as [S1 S2], (segment_of n' params) as [S3 S4]. rewrite S3, S4, H1, H2. by rewrite S1, S2 in Hn.
  - intros e He Hu Hself Ht. apply uncovered_iff. cbn [Reduce]. unfold reduceMessage. rewrite He.
    eexists. split; [apply render_in; cbn [icNodes]; eexists; split; [apply elem_of_app; right; by left|reflexivity]|].
    set (m := newMessage _ e). assert (Hm : imSender m = meSender e /\ imReceivedAtMs m = meReceivedAtMs e /\ imIsSelfSent m = meIsSelfSent e) by done.
    destruct Hm as (M1 & M2 & M3). split; [cbn [renderNode]; rewrite segment_self, M1, M3, Hu; done|]. apply not_true_iff_false. rewrite covers_iff.
    destruct (segment_of (NMessage m) params) as [-> _]. cbn [GetReceivedAtMs]. lia.
  - intros e m Hm Hu Hself Ht. apply uncovered_iff. cbn [Reduce]. unfold find_message in Hm.
    destruct (findMessageIndex (icNodes ic) (eeMessageID e)) as [i|] eqn:Efind; [|done]. cbn in Hm. unfold message_at in Hm.
    destruct (icNodes ic !! i) as [[m'|]|] eqn:Ei; try done. injection Hm as ->. exists (renderNode (NMessage (edited e m)) params).
    split.
    { apply render_in. exists (NMessage (edited e m)). split; [|done].
      unfold reduceEdit, update_message. rewrite Efind. cbn [with_nodes icNodes]. apply (list_elem_of_lookup_2 _ i). rewrite list_lookup_alter_eq.
      by rewrite Ei. }
    split.
    { cbn [renderNode]. rewrite segment_self. change (imSender (edited e m)) with (imSender m). change (imIsSelfSent (edited e m)) with (imIsSelfSent m).
      by rewrite Hu, Hself. }
    apply not_true_iff_false. rewrite covers_iff.
    destruct (segment_of (NMessage (edited e m)) params) as [_ ->]. cbn [node_cursor edited imLastEventCursor]. unfold raise_cursor. cbv zeta.
    destruct (Z.ltb_spec (imLastEventCursor m) (sanitizedEventCursor (eeEventCursor e))); lia.
Qed.
End wakes.

(** ** The order of entries *)
Lemma before_asym a b : entry_before a b = true -> entry_before b a = false.
Proof.
  unfold entry_before. cbv zeta. rewrite (Z.eqb_sym (mgTime b)), (Z.eqb_sym (mergeKindOrder (mgKind b))).
  destruct (mgTime a =? mgTime b) eqn:E1; cbn [negb]; [|bool_hyps; lia].
  destruct (mergeKindOrder (mgKind a) =? mergeKindOrder (mgKind b)) eqn:E2; cbn [negb]; intros H; bool_hyps; apply Z.ltb_ge; lia.
Qed.
Lemma not_before a b : entry_before b a = false <-> mgTime a < mgTime b \/ (mgTime a = mgTime b /\
  (mergeKindOrder (mgKind a) < mergeKindOrder (mgKind b) \/ mergeKindOrder (mgKind a) = mergeKindOrder (mgKind b) /\ mgStep a <= mgStep b)).
Proof.
  unfold entry_before. cbv zeta. destruct (Z.eqb_spec (mgTime b) (mgTime a)); cbn [negb]; [|rewrite Z.ltb_ge; lia].
  destruct (Z.eqb_spec (mergeKindOrder (mgKind b)) (mergeKindOrder (mgKind a))); cbn [negb]; rewrite Z.ltb_ge; lia.
Qed.
Lemma before_trans a b c : le_of entry_before a b -> le_of entry_before b c -> le_of entry_before a c.
Proof. unfold le_of. rewrite !not_before. lia. Qed.
Lemma sorted_entries l : StronglySorted (le_of entry_before) (sortMergeEntries l).
Proof. apply stable_sort_sorted; [apply before_asym|apply before_trans]. Qed.

(** ** The kinds of entries *)
Definition ordinary (e : mergeEntry) : Prop := mgKind e = lit "rc" \/ mgKind e = lit "tr" \/ mgKind e = lit "summary".
Lemma imap_elem {A B} (f : nat -> A -> B) l y : y ∈ imap f l -> exists i x, l !! i = Some x /\ y = f i x.
Proof. intros [i Hi]%list_elem_of_lookup. rewrite list_lookup_imap in Hi. destruct (l !! i) as [x|] eqn:E; [|done]. injection Hi as <-. by exists i, x. Qed.
Lemma rest_elem rc trs c e : e ∈ restEntries rc trs c -> mgPinned e = false /\ ordinary e.
Proof.
  unfold restEntries, appendTurnResponseEntries, appendRenderedContextEntries, ordinary. cbn [app].
  intros [(i & x & _ & ->)%imap_elem|(i & x & _ & ->)%imap_elem]%elem_of_app; cbn; split; auto.
Qed.
Lemma pinned_elem rc c e : e ∈ pinnedEntries rc c -> mgPinned e = true /\ ordinary e.
Proof.
  unfold pinnedEntries. intros (o & Ho & He)%list_elem_of_omap. apply imap_elem in Ho as (i & item & _ & ->). cbn in He. unfold itemEntry in He.
  apply fmap_Some in He as (e' & He & ->). split; [done|]. unfold ordinary. cbn.
  destruct (negb _); [injection He as <-; auto|]. destruct (ciResponse item); [injection He as <-; auto|]. apply fmap_Some in He as (seg & _ & ->). auto.
Qed.
Lemma composed_ordinary rc trs c e : e ∈ composeMergeEntries rc trs c -> ordinary e.
Proof.
  unfold composeMergeEntries. intros [H|H]%elem_of_app; [by eapply pinned_elem|]. unfold sortMergeEntries in H. rewrite stable_sort_perm in H.
  by eapply rest_elem.
Qed.
(** a composition is what the checkpoint holds, in its order and pinned,
    and then by time, segments before answers of the same time, every segment
    the checkpoint neither holds nor folds and every turn response, each once. *)
Theorem composition_shape rc trs c :
  let entries := composeMergeEntries rc trs c in
  let pinned := length (pinnedEntries rc c) in
  take pinned entries = pinnedEntries rc c /\ Forall (fun e => mgPinned e = true) (take pinned entries) /\
  Forall (fun e => mgPinned e = false) (drop pinned entries) /\
  StronglySorted (le_of entry_before) (drop pinned entries) /\
  drop pinned entries ≡ₚ imap (fun i seg => renderedContextEntry seg (2 * Z.of_nat i)) (List.filter (is_rest c) rc) ++
                         imap (fun i tr => turnResponseEntry tr (2 * Z.of_nat i)) trs /\
  (forall seg, seg ∈ rc -> composes c seg = true -> held_items c !! trim_space (sgMessageID seg) = None -> seg ∈ List.filter (is_rest c) rc).
Proof.
  cbv zeta. unfold composeMergeEntries. rewrite take_app_length, drop_app_length. split_and!.
  - done.
  - apply Forall_forall. intros e He. by eapply pinned_elem.
  - apply Forall_forall. intros e He. unfold sortMergeEntries in He. rewrite stable_sort_perm in He. by eapply rest_elem.
  - apply sorted_entries.
  - apply stable_sort_perm.
  - intros seg Hs Hc Hh. apply elem_of_filter_bool. split; [done|]. unfold is_rest. by rewrite Hh.
Qed.

(** ** Marking changes sources only *)
Definition unmarked (e e' : mergeEntry) : Prop :=
  with_source e' None = with_source e None /\ (csID <$> mgSource e' = csID <$> mgSource e \/ mgSource e' = None).
Lemma mark_unmarked entries rc after : Forall2 unmarked entries (markCurrentEntries entries rc after).
Proof.
  assert (Hrefl : Forall2 unmarked entries entries).
  { apply Forall2_same_length_lookup. split; [done|]. intros i x y Hx Hy. simplify_eq. split; auto. }
  unfold markCurrentEntries. destruct after as [after|].
  - apply Forall2_same_length_lookup. split; [by rewrite length_map|]. intros i e e' He He'. rewrite list_lookup_fmap, He in He'. injection He' as <-.
    destruct (source_is _ e); [|split; auto]. split; [done|]. left. by destruct (mgSource e).
  - destruct (find_last _ entries) as [i|].
    + apply Forall2_same_length_lookup. split; [by rewrite length_alter|]. intros j e e' He He'. destruct (decide (j = i)) as [->|Hj].
      * rewrite list_lookup_alter_eq, He in He'. injection He' as <-. split; [done|]. left. by destruct (mgSource e).
      * rewrite list_lookup_alter_ne in He' by done. simplify_eq. split; auto.
    + destruct (existsb _ entries); [done|]. apply Forall2_same_length_lookup. split; [by rewrite length_map|]. intros j e e' He He'.
      rewrite list_lookup_fmap, He in He'. injection He' as <-. split; auto.
Qed.
Lemma unmarked_fields e e' : unmarked e e' -> mgKind e' = mgKind e /\ mgPinned e' = mgPinned e /\ mgRCContent e' = mgRCContent e /\
  mgSummaryContent e' = mgSummaryContent e /\ mgSummaryID e' = mgSummaryID e /\ mgTRRole e' = mgTRRole e /\ mgTRContent e' = mgTRContent e /\
  mgTRRawContent e' = mgTRRawContent e.
Proof. intros [H _]. unfold with_source in H. by injection H. Qed.

(** ** What is estimated is what is sent *)
Lemma pending_length texts pending : byte_len (fold_left (fun pending text => (if is_empty pending then pending else pending ++ [nl]) ++ text) texts pending) =
  fold_left (fun n text => (if 0 <? n then n + 1 else n) + byte_len text) texts (byte_len pending).
Proof.
  revert pending. induction texts as [|t texts IH]; intros pending; [done|]. cbn [fold_left]. rewrite IH. f_equal. unfold byte_len.
  destruct pending as [|c r]; [done|]. cbn [is_empty]. rewrite !length_app. cbn [length]. destruct (Z.ltb_spec 0 (Z.of_nat (S (length r)))); lia.
Qed.
Lemma byte_tokens_nonneg n : 0 <= TokensFromBytes n.
Proof. unfold TokensFromBytes. case_if; [done|]. bool_hyps. apply Z.div_pos; [lia|done]. Qed.
Lemma materialized_tokens e : ordinary e -> estimateMessagesTokens (materializeEntry e) = mergeEntryTokens e.
Proof.
  intros [H|[H|H]]; unfold materializeEntry, mergeEntryTokens; rewrite H; cbn -[TokensFromBytes pendingText]; rewrite ?Z.add_0_r.
  - assert (Hp := pending_length (text_pieces (mgRCContent e)) []). fold (pendingText (mgRCContent e)) in Hp. change (byte_len []) with 0 in Hp. rewrite <- Hp.
    destruct (pendingText (mgRCContent e)) eqn:Ep; [done|]. apply Z.add_0_r.
  - apply Z.add_0_r.
  - apply Z.add_0_r.
Qed.
Lemma estimate_app a b : estimateMessagesTokens (a ++ b) = estimateMessagesTokens a + estimateMessagesTokens b.
Proof. induction a as [|m a IH]; [done|]. cbn [app estimateMessagesTokens fold_right]. fold (estimateMessagesTokens (a ++ b)) (estimateMessagesTokens a). lia. Qed.
Section budgets.
Context {U : Unicode}.
Lemma materialized_total entries : Forall ordinary entries ->
  estimateMessagesTokens (materializeMergeEntries entries) = total_cost (map admissionEntry entries).
Proof.
  induction 1 as [|e l He _ IH]; [done|]. unfold materializeMergeEntries in *. cbn [flat_map map total_cost fold_right].
  rewrite estimate_app, IH, materialized_tokens by done. done.
Qed.
(** *** Selecting by flags *)
Lemma flagged_of_cons {A} b flags (x : A) l : flagged_of (b :: flags) (x :: l) = (if b then [x] else []) ++ flagged_of flags l.
Proof. unfold flagged_of. cbn. by destruct b. Qed.
Lemma flagged_of_elem {A} flags (l : list A) x : x ∈ flagged_of flags l <-> exists i, l !! i = Some x /\ flags !! i = Some true.
Proof.
  unfold flagged_of. rewrite list_elem_of_fmap. setoid_rewrite elem_of_filter_bool. split.
  - intros ([y b] & -> & Hin & Hb). cbn in Hb. subst b. apply list_elem_of_lookup in Hin as [i Hi]. apply lookup_zip_with_Some in Hi as (? & ? & [= <- <-] & H1 & H2).
    by exists i.
  - intros (i & H1 & H2). exists (x, true). split_and!; [done| |done]. apply (list_elem_of_lookup_2 _ i). apply lookup_zip_with_Some. by exists x, true.
Qed.
Lemma flagged_of_sub {A} flags (l : list A) : flagged_of flags l `sublist_of` l.
Proof.
  revert l. induction flags as [|b flags IH]; intros [|x l]; try apply sublist_nil_l. rewrite flagged_of_cons. destruct b; cbn; by constructor.
Qed.
Lemma flagged_of_cost entries flags : length flags = length entries -> flagged entries flags = total_cost (flagged_of flags entries).
Proof.
  revert flags. unfold flagged. induction entries as [|e l IH]; intros [|b flags] H; try done. cbn [zip_with]. rewrite cost_where_cons, flagged_of_cons, IH by by injection H.
  destruct b; done.
Qed.
Lemma flagged_of_all {A} flags (l : list A) : length flags = length l -> countb negb flags = 0%nat -> flagged_of flags l = l.
Proof.
  revert l. induction flags as [|b flags IH]; intros [|x l] H Hc; try done. rewrite flagged_of_cons. destruct b; [|done].
  cbn. f_equal. apply IH; [by injection H|done].
Qed.
Lemma flagged_of_map {A B} (f : A -> B) flags l : flagged_of flags (map f l) = map f (flagged_of flags l).
Proof. revert l. induction flags as [|b flags IH]; intros [|x l]; try done. cbn [map]. rewrite !flagged_of_cons, IH. by destruct b. Qed.
(** *** The kept entries *)
Lemma cost_nonneg entries : Forall (fun e => 0 <= aeCost e) (map admissionEntry entries).
Proof.
  apply Forall_forall. intros a (e & -> & _)%list_elem_of_fmap. cbn. unfold mergeEntryTokens. repeat case_if; apply byte_tokens_nonneg.
Qed.
Definition marked (rc : RenderedContext) (trs : list TurnResponseEntry) (c : HistoryCheckpoint) (budget : ComposeBudget) : list mergeEntry :=
  markCurrentEntries (composeMergeEntries rc trs c) rc (cbAfter budget).
Definition decide_on (entries : list mergeEntry) (budget : ComposeBudget) : AdmissionDecision :=
  AdmitContextEntries (map admissionEntry entries) (cbMaxTokens budget).
(** What the budgeted composition returns, once the decision is made. *)
Lemma budgeted_spec rc trs c budget : let entries := marked rc trs c budget in let d := decide_on entries budget in
  let '(result, admission) := ComposeContextWithCheckpointBudgeted rc trs c budget in
  caProtectedOverflow admission = adProtectedOverflow d /\
  (adProtectedOverflow d = true -> result = None) /\
  (adProtectedOverflow d = false -> length (adSelected d) = length entries /\
     caOmittedSources admission = omittedSources entries (CurrentAdmissionEntries (map admissionEntry entries)) (adSelected d) /\
     adSelectedTokens d = total_cost (map admissionEntry (flagged_of (adSelected d) entries)) /\
     result = match materializeMergeEntries (flagged_of (adSelected d) entries) with
              | [] => None | messages => Some (mkComposeResult messages (adSelectedTokens d)) end).
Proof.
  cbv zeta. unfold ComposeContextWithCheckpointBudgeted, marked, decide_on. destruct (composeMergeEntries rc trs c) as [|e0 es] eqn:Ec.
  { assert (Hm : markCurrentEntries [] rc (cbAfter budget) = []) by (by destruct (cbAfter budget)). rewrite Hm. cbn. split_and!; [done|done|]. intros _. by split_and!. }
  set (entries := markCurrentEntries _ rc _). assert (Hne : map admissionEntry entries <> []).
  { pose proof (Forall2_length _ _ _ (mark_unmarked (e0 :: es) rc (cbAfter budget))) as Hl. fold entries in Hl. by destruct entries. }
  destruct (admit_spec (map admissionEntry entries) (cbMaxTokens budget) Hne) as [_ H]. cbv zeta.
  set (d := AdmitContextEntries _ _) in *. destruct (adProtectedOverflow d) eqn:Eo; [by split_and!|].
  destruct H as ((w & m & Hl & _) & Ht & Hd & _). rewrite length_map in Hl.
  assert (Hkept : (if 0 <? adDroppedEntries d then flagged_of (adSelected d) entries else entries) = flagged_of (adSelected d) entries).
  { rewrite Hd. destruct (Z.ltb_spec 0 (Z.of_nat (countb negb (adSelected d)))); [done|]. symmetry. apply flagged_of_all; [done|lia]. }
  rewrite Hkept. rewrite flagged_of_cost, flagged_of_map in Ht by by rewrite length_map.
  destruct (materializeMergeEntries _); (split_and!; [done|done|]; intros _; by split_and!).
Qed.
Lemma marked_ordinary rc trs c budget : Forall ordinary (marked rc trs c budget).
Proof.
  apply Forall_forall. intros e' [i He']%list_elem_of_lookup. destruct (Forall2_lookup_r _ _ _ _ _ (mark_unmarked _ rc (cbAfter budget)) He') as (e & He & Hu).
  destruct (unmarked_fields _ _ Hu) as (Hk & _). unfold ordinary. rewrite Hk. eapply composed_ordinary, list_elem_of_lookup_2, He.
Qed.
Lemma materialize_sub a b : a `sublist_of` b -> materializeMergeEntries a `sublist_of` materializeMergeEntries b.
Proof.
  unfold materializeMergeEntries. induction 1 as [|x a b _ IH|x a b _ IH]; [done|by apply sublist_app|]. cbn [flat_map]. by apply sublist_inserts_l.
Qed.
Lemma decision_ok entries budget : entries <> [] -> adProtectedOverflow (decide_on entries budget) = false ->
  (0 < cbMaxTokens budget -> adSelectedTokens (decide_on entries budget) <= cbMaxTokens budget) /\
  (forall i e, entries !! i = Some e -> mgPinned e = true -> adSelected (decide_on entries budget) !! i = Some true).
Proof.
  intros Hne Ho. destruct (admit_spec (map admissionEntry entries) (cbMaxTokens budget)) as [_ H]; [by destruct entries|]. cbv zeta in H.
  fold (decide_on entries budget) in H. rewrite Ho in H. destruct H as ((w & m & Hl & Hf & _) & _ & _ & Hb). split; [intros Hp; apply Hb; [apply cost_nonneg|done]|].
  intros i e He Hp. pose proof (protected_length (map admissionEntry entries) (cbMaxTokens budget)) as Hlp.
  destruct (lookup_lt_is_Some_2 (ProtectedAdmissionEntries (map admissionEntry entries) (cbMaxTokens budget)) i) as [p Hpi].
  { rewrite Hlp, length_map. by eapply lookup_lt_Some. }
  rewrite (Hf i (admissionEntry e) p); [unfold flag_at; cbn; by rewrite Hp| |done]. by rewrite list_lookup_fmap, He.
Qed.
Lemma in_materialized e l m : e ∈ l -> m ∈ materializeEntry e -> m ∈ materializeMergeEntries l.
Proof. intros He Hm. unfold materializeMergeEntries. apply list_elem_of_In, in_flat_map. exists e. by rewrite <- !list_elem_of_In. Qed.
Lemma mark_nonempty rc trs c budget e : e ∈ marked rc trs c budget -> marked rc trs c budget <> [].
Proof. intros He Hn. rewrite Hn in He. by apply not_elem_of_nil in He. Qed.

(** what is composed under a budget is a part of the whole composition in
    its order, holds everything the checkpoint pins, costs what the decision
    was made on, and that is within the budget. *)
Theorem composition_fits_budget rc trs c budget :
  let entries := marked rc trs c budget in
  match ComposeContextWithCheckpointBudgeted rc trs c budget with
  | (Some r, admission) =>
      crEstimatedTokens r = estimateMessagesTokens (crMessages r) /\
      (0 < cbMaxTokens budget -> crEstimatedTokens r <= cbMaxTokens budget) /\
      crMessages r `sublist_of` materializeMergeEntries entries /\
      (forall e m, e ∈ entries -> mgPinned e = true -> m ∈ materializeEntry e -> m ∈ crMessages r)
  | (None, admission) => caProtectedOverflow admission = true \/ forall e, e ∈ entries -> mgPinned e = true -> materializeEntry e = []
  end.
Proof.
  cbv zeta. pose proof (budgeted_spec rc trs c budget) as H. cbv zeta in H. destruct (ComposeContextWithCheckpointBudgeted rc trs c budget) as [result admission].
  destruct H as (Ho & Hov & Hok). set (entries := marked rc trs c budget) in *. destruct (adProtectedOverflow (decide_on entries budget)) eqn:Eo.
  { rewrite (Hov eq_refl). by left. }
  destruct (Hok eq_refl) as (Hl & _ & Ht & Hr). set (kept := flagged_of _ entries) in *.
  assert (Hpin : forall e, e ∈ entries -> mgPinned e = true -> e ∈ kept).
  { intros e He Hp. pose proof (mark_nonempty _ _ _ _ _ He) as Hne. apply list_elem_of_lookup in He as [i Hi]. apply flagged_of_elem. exists i.
    split; [done|]. by eapply decision_ok. }
  destruct (materializeMergeEntries kept) as [|m0 ms] eqn:Em; subst result.
  { right. intros e He Hp. destruct (materializeEntry e) as [|m l] eqn:Ee; [done|]. exfalso. apply (not_elem_of_nil m). rewrite <- Em.
    apply (in_materialized e); [by apply Hpin|]. rewrite Ee. by left. }
  cbn [crMessages crEstimatedTokens]. rewrite <- Em. split_and!.
  - rewrite materialized_total; [done|]. apply Forall_forall. intros e He. pose proof (marked_ordinary rc trs c budget) as Hor. rewrite Forall_forall in Hor.
    apply Hor. unfold kept in He. by eapply elem_of_sublist, flagged_of_sub.
  - destruct (decide (entries = [])) as [He|Hne]; [|by apply decision_ok]. unfold kept in Em. rewrite He in Em. by destruct (adSelected _).
  - apply materialize_sub, flagged_of_sub.
  - intros e m He Hp Hm. apply (in_materialized e); [by apply Hpin|done].
Qed.
(** *** Current input *)
Definition current_source (seg : RenderedSegment) : ContextMessageSource := mkSource (lit "external") (sgMessageID seg) true.
Lemma rest_entry rc trs c seg : seg ∈ rc -> is_rest c seg = true -> exists step, renderedContextEntry seg step ∈ composeMergeEntries rc trs c.
Proof.
  intros Hs Hr. assert (Hf : seg ∈ List.filter (is_rest c) rc) by (by apply elem_of_filter_bool). apply list_elem_of_lookup in Hf as [i Hi].
  exists (2 * Z.of_nat i). unfold composeMergeEntries. apply elem_of_app. right. unfold sortMergeEntries. rewrite stable_sort_perm.
  unfold restEntries, appendTurnResponseEntries, appendRenderedContextEntries. cbn [app]. apply elem_of_app. left.
  apply (list_elem_of_lookup_2 _ i). by rewrite list_lookup_imap, Hi.
Qed.
(** An entry of a segment, marked: its source is current, its text its own. *)
Definition shows (seg : RenderedSegment) (e : mergeEntry) : Prop :=
  exists pinned, mgSource e = Some (current_source seg) /\
    materializeEntry e = if is_empty (pendingText (sgContent seg)) then []
      else [mkContextMessage (Some (current_source seg)) (lit "user") (pendingText (sgContent seg)) [] [] pinned].
Lemma entry_marked rc trs c pos max seg e : seg ∈ rc -> from_self seg = false -> Covers pos seg = false ->
  e ∈ composeMergeEntries rc trs c -> (exists step, e = renderedContextEntry seg step \/ e = pin (renderedContextEntry seg step)) ->
  exists i e', marked rc trs c (mkBudget (Some pos) max) !! i = Some e' /\ shows seg e' /\ mgPinned e' = mgPinned e.
Proof.
  intros Hs Hself Hc [i Hi]%list_elem_of_lookup (step & He). assert (Hu : uncovered rc pos (sgMessageID seg) = true).
  { unfold uncovered. apply existsb_exists. exists seg. split; [by apply list_elem_of_In|]. unfold from_self in Hself. apply orb_false_iff in Hself as [-> ->].
    by rewrite Hc, str_eqb_refl. }
  unfold marked. cbn [cbAfter markCurrentEntries]. exists i. eexists. rewrite list_lookup_fmap, Hi. cbn [fmap option_fmap option_map]. split; [reflexivity|].
  destruct He as [-> | ->]; unfold source_is, pin, renderedContextEntry, renderedMessageSource; rewrite Hself; cbn [mgSource csKind]; rewrite str_eqb_refl;
    cbn -[pendingText]; rewrite Hu; (split; [|done]); [exists false|exists true]; (split; [done|]); unfold materializeEntry;
    match goal with |- context[str_eqb ?a (lit "rc")] => replace (str_eqb a (lit "rc")) with true by done end;
    cbn -[pendingText]; by destruct (pendingText (sgContent seg)).
Qed.
(** *** What the checkpoint holds *)
(** An item that holds a message is neither a summary nor an answer. *)
Definition item_ok (item : CheckpointItem) : Prop := ciMessageID item <> [] -> ciSummaryID item = [] /\ ciResponse item = None.
Lemma held_item c k i : held_items c !! k = Some i -> exists item, hcItems c !! i = Some item /\ ciMessageID item = k /\ k <> [].
Proof.
  unfold held_items. assert (Hall : forall q, q ∈ imap (fun i item => (i, item)) (hcItems c) -> hcItems c !! q.1 = Some q.2).
  { intros [j item] (n & x & E & Hn)%elem_of_lookup_imap. cbn in E. by injection E as -> ->. }
  revert Hall. generalize (imap (fun i item => (i, item)) (hcItems c)) as l. intros l Hall.
  assert (H0 : forall k i, (∅ : gmap str nat) !! k = Some i -> exists item, hcItems c !! i = Some item /\ ciMessageID item = k /\ k <> []) by (by intros ? ?; rewrite lookup_empty).
  revert H0 k i. generalize (∅ : gmap str nat) as m. induction l as [|[j item] l IH]; intros m Hm k i; cbn [fold_left]; [apply Hm|]. cbn [snd fst].
  apply IH; [intros q Hq; apply Hall; by right|]. intros k' i'. destruct (is_empty (ciMessageID item)) eqn:E; [apply Hm|].
  rewrite lookup_insert_Some. intros [[<- <-]|[_ H]]; [|by apply Hm]. exists item. apply is_empty_false in E. split_and!; [|done..].
  apply (Hall (j, item)). by left.
Qed.
Lemma held_segment c rc seg i : seg ∈ rc -> held_items c !! trim_space (sgMessageID seg) = Some i ->
  (forall other, other ∈ rc -> trim_space (sgMessageID other) = trim_space (sgMessageID seg) -> other = seg) ->
  held_segments (held_items c) rc !! i = Some seg.
Proof.
  intros Hs Hi Honce. assert (Hkey : forall other, other ∈ rc -> held_items c !! trim_space (sgMessageID other) = Some i -> other = seg).
  { intros other Ho Hoi. apply Honce; [done|]. apply held_item in Hi as (item & H1 & <- & _), Hoi as (item' & H1' & <- & _). congruence. }
  clear Honce. unfold held_segments. assert (Hor : seg ∈ rc \/ (∅ : gmap nat RenderedSegment) !! i = Some seg) by by left. clear Hs.
  revert Hor. generalize (∅ : gmap nat RenderedSegment) as m. induction rc as [|x l IH]; intros m Hor; cbn [fold_left].
  - by destruct Hor as [H%not_elem_of_nil|H].
  - apply IH; [intros other Ho; apply Hkey; by right|]. destruct (held_items c !! trim_space (sgMessageID x)) as [j|] eqn:E.
    + destruct (decide (j = i)) as [->|Hne].
      * right. rewrite (Hkey x) by (done || by left). apply lookup_insert_eq.
      * rewrite lookup_insert_ne by done. destruct Hor as [[->|H]%elem_of_cons|H]; [congruence|by left|by right].
    + destruct Hor as [[->|H]%elem_of_cons|H]; [congruence|by left|by right].
Qed.
Lemma held_entry rc trs c seg i : seg ∈ rc -> held_items c !! trim_space (sgMessageID seg) = Some i -> (forall item, item ∈ hcItems c -> item_ok item) ->
  (forall other, other ∈ rc -> trim_space (sgMessageID other) = trim_space (sgMessageID seg) -> other = seg) ->
  pin (renderedContextEntry seg (Z.of_nat i)) ∈ composeMergeEntries rc trs c.
Proof.
  intros Hs Hi Hok Honce. destruct (held_item _ _ _ Hi) as (item & Hitem & Hid & Hne).
  destruct (Hok item) as [Hsum Hresp]; [by eapply list_elem_of_lookup_2|by rewrite Hid|].
  unfold composeMergeEntries. apply elem_of_app. left. unfold pinnedEntries. apply list_elem_of_omap.
  exists (itemEntry (held_segments (held_items c) rc) i item). split; [apply elem_of_lookup_imap; by exists i, item|].
  unfold itemEntry. rewrite Hsum, Hresp. cbn. by rewrite (held_segment c rc seg i).
Qed.
Lemma summary_entry rc trs c item : item ∈ hcItems c -> ciSummaryID item <> [] -> exists e, e ∈ composeMergeEntries rc trs c /\ mgPinned e = true /\
  mgSource e = None /\ mgKind e = lit "summary" /\ mgSummaryContent e = SummaryText (ciSummary item).
Proof.
  intros [i Hi]%list_elem_of_lookup Hne. eexists. split.
  - unfold composeMergeEntries. apply elem_of_app. left. unfold pinnedEntries. apply list_elem_of_omap.
    exists (itemEntry (held_segments (held_items c) rc) i item). split; [apply elem_of_lookup_imap; by exists i, item|].
    unfold itemEntry. apply is_empty_false in Hne. rewrite Hne. reflexivity.
  - done.
Qed.
Lemma source_known entries i e s : entries !! i = Some e -> mgSource e = Some s ->
  CurrentAdmissionEntries (map admissionEntry entries) !! i = Some (csCurrent s).
Proof.
  intros He Hs. unfold CurrentAdmissionEntries.
  replace (existsb _ _) with true.
  - rewrite list_lookup_fmap, list_lookup_fmap, He. cbn. unfold source_current. cbn. by rewrite Hs.
  - symmetry. apply existsb_exists. exists (admissionEntry e). split; [apply in_map, list_elem_of_In; by eapply list_elem_of_lookup_2|].
    apply bool_decide_eq_true. cbn. rewrite Hs. by eexists.
Qed.
(** A message of an entry that is kept is in the result. *)
Lemma kept_message entries i e m flags result tokens : entries !! i = Some e -> flags !! i = Some true -> m ∈ materializeEntry e ->
  result = match materializeMergeEntries (flagged_of flags entries) with [] => None | messages => Some (mkComposeResult messages tokens) end ->
  exists r, result = Some r /\ m ∈ crMessages r.
Proof.
  intros He Hf Hm ->. assert (Hin : m ∈ materializeMergeEntries (flagged_of flags entries)).
  { apply (in_materialized e); [|done]. apply flagged_of_elem. by exists i. }
  destruct (materializeMergeEntries _) as [|m0 ms]; [by apply not_elem_of_nil in Hin|]. by eexists.
Qed.
(** C18: no unread input is lost in silence. A segment of someone else past the
    consumed position, the only one of its message, is among the composed
    messages with its text - at its place when the checkpoint holds it - or its
    source is listed as omitted, or the checkpoint folds its message and all
    the summaries of the checkpoint are composed, or the composition is
    refused. *)
Theorem no_input_lost rc trs c pos max seg (Hseg : seg ∈ rc) (Hself : from_self seg = false) (Hnew : Covers pos seg = false)
    (Htext : pendingText (sgContent seg) <> []) (Hitems : forall item, item ∈ hcItems c -> item_ok item)
    (Honce : forall other, other ∈ rc -> trim_space (sgMessageID other) = trim_space (sgMessageID seg) -> other = seg) :
  let '(result, admission) := ComposeContextWithCheckpointBudgeted rc trs c (mkBudget (Some pos) max) in
  let composed := fun source content => exists r m, result = Some r /\ m ∈ crMessages r /\ cmSource m = source /\ cmContent m = content in
  caProtectedOverflow admission = true \/ current_source seg ∈ caOmittedSources admission \/
  composed (Some (current_source seg)) (pendingText (sgContent seg)) \/
  (hcMessages c !! trim_space (sgMessageID seg) = Some false /\
   forall item, item ∈ hcItems c -> ciSummaryID item <> [] -> composed None (SummaryText (ciSummary item))).
Proof.
  set (budget := mkBudget (Some pos) max). pose proof (budgeted_spec rc trs c budget) as H. cbv zeta in H.
  destruct (ComposeContextWithCheckpointBudgeted rc trs c budget) as [result admission]. destruct H as (Ho & _ & Hok). cbv zeta.
  set (entries := marked rc trs c budget) in *. destruct (adProtectedOverflow (decide_on entries budget)) eqn:Eo; [by left|]. right.
  destruct (Hok eq_refl) as (Hl & Hom & _ & Hr). clear Hok.
  assert (Hpinned : forall i e, entries !! i = Some e -> mgPinned e = true -> adSelected (decide_on entries budget) !! i = Some true).
  { intros i e He. assert (Hne : entries <> []) by (by intros Hn; rewrite Hn in He). by apply (decision_ok entries budget Hne Eo). }
  assert (Hshown : forall e, e ∈ composeMergeEntries rc trs c -> (exists step, e = renderedContextEntry seg step \/ e = pin (renderedContextEntry seg step)) ->
    current_source seg ∈ caOmittedSources admission \/ exists r m, result = Some r /\ m ∈ crMessages r /\ cmSource m = Some (current_source seg) /\
      cmContent m = pendingText (sgContent seg)).
  { intros e He Hstep. destruct (entry_marked rc trs c pos max seg e Hseg Hself Hnew He Hstep) as (i & e' & Hi & (pinned & Hs & Hm) & _).
    fold budget entries in Hi. destruct (lookup_lt_is_Some_2 (adSelected (decide_on entries budget)) i) as [b Hb]; [rewrite Hl; by eapply lookup_lt_Some|].
    apply is_empty_false in Htext. rewrite Htext in Hm. destruct b; [right|left].
    - edestruct (kept_message entries i e') as (r & Hres & Hin); [done|exact Hb|rewrite Hm; by left|exact Hr|]. eexists _, _. split; [exact Hres|by split].
    - pose proof (source_known entries i e' _ Hi Hs) as Hcur. rewrite Hom. unfold omittedSources. apply list_elem_of_omap. exists e'. split; [|done].
      apply flagged_of_elem. exists i. split; [done|]. apply lookup_zip_with_Some. exists true, false. by rewrite Hcur, Hb. }
  destruct (held_items c !! trim_space (sgMessageID seg)) as [i|] eqn:Eh.
  { destruct (Hshown (pin (renderedContextEntry seg (Z.of_nat i)))) as [?|?]; [by apply held_entry|by eauto|by left|by right; left]. }
  destruct (is_rest c seg) eqn:Er.
  { destruct (rest_entry rc trs c seg Hseg Er) as [step He]. destruct (Hshown _ He) as [?|?]; [by eauto|by left|by right; left]. }
  right. right. unfold is_rest in Er. rewrite Eh in Er. unfold composes in Er. destruct (hcMessages c !! _) as [[]|]; try done. split; [done|].
  intros item Hitem Hne. destruct (summary_entry rc trs c item Hitem Hne) as (e & [i Hi]%list_elem_of_lookup & Hp & Hsrc & Hk & Hcontent).
  assert (He : entries !! i = Some e).
  { unfold entries, marked. cbn [budget cbAfter markCurrentEntries]. rewrite list_lookup_fmap, Hi. cbn. unfold source_is. by rewrite Hsrc. }
  edestruct (kept_message entries i e) as (r & Hres & Hin); [done|by apply (Hpinned i e)| |exact Hr|].
  { unfold materializeEntry. rewrite Hk. cbn. by left. }
  eexists _, _. split; [exact Hres|]. split; [exact Hin|]. by rewrite Hcontent.
Qed.
(** *** An omitted entry has a source *)
Lemma protect_newest limit rows i e : rows !! i = Some (e, true) -> aePinned e = false ->
  (forall j r, (j < i)%nat -> rows !! j = Some r -> r.2 = false \/ aePinned r.1 = true) -> protectLoop limit 0 rows !! i = Some true.
Proof.
  revert i. induction rows as [|[x c] rows IH]; intros i Hi Hp Hb; [done|]. cbn [protectLoop]. destruct i as [|i].
  - injection Hi as -> ->. by rewrite Hp.
  - assert (Hx : negb c || aePinned x = true).
    { destruct (Hb 0%nat (x, c)) as [Hc|Hc]; [lia|done| |]; cbn in Hc; rewrite Hc; [done|apply orb_true_r]. }
    rewrite Hx. cbn. apply IH; [done|done|]. intros j r Hj Hr. apply (Hb (S j)); [lia|done].
Qed.
Lemma newest_protected entries budget i e : newestRawEntry entries = Some i -> entries !! i = Some e ->
  CurrentAdmissionEntries entries !! i = Some true -> (forall j, j <> i -> CurrentAdmissionEntries entries !! j <> Some true) -> aePinned e = false ->
  ProtectedAdmissionEntries entries budget !! i = Some true.
Proof.
  intros Hn He Hc Hother Hp. unfold ProtectedAdmissionEntries. cbv zeta. repeat case_if; try done. apply lookup_lt_Some in He as Hlt.
  set (rows := zip entries (CurrentAdmissionEntries entries)). assert (Hlr : length rows = length entries) by apply zip_length, current_length.
  apply reverse_lookup_Some. rewrite protectLoop_length, length_reverse, Hlr. split; [|done].
  assert (Hri : rows !! i = Some (e, true)) by (apply lookup_zip_with_Some; by exists e, true).
  apply (protect_newest _ _ _ e); [|done|].
  - apply reverse_lookup_Some. rewrite Hlr. split; [|lia]. by replace (length entries - S (length entries - S i))%nat with i by lia.
  - intros j r Hj Hr. apply reverse_lookup_Some in Hr as [Hr Hjl]. rewrite Hlr in Hr. apply lookup_zip_with_Some in Hr as (x & c & -> & _ & Hcur).
    left. cbn. destruct c; [|done]. exfalso. apply (Hother (length entries - S j)%nat); [lia|done].
Qed.
Lemma omitted_has_source rc trs c budget e : let entries := marked rc trs c budget in
  adProtectedOverflow (decide_on entries budget) = false ->
  e ∈ flagged_of (zip_with (fun c s => c && negb s) (CurrentAdmissionEntries (map admissionEntry entries)) (adSelected (decide_on entries budget))) entries ->
  is_Some (mgSource e).
Proof.
  cbv zeta. set (entries := marked rc trs c budget). intros Ho (i & Hi & Hf)%flagged_of_elem. destruct (mgSource e) as [s|] eqn:Es; [by exists s|]. exfalso.
  apply lookup_zip_with_Some in Hf as (cur & sel & Hcs & Hcur & Hsel). symmetry in Hcs. apply andb_true_iff in Hcs as [-> Hn]. destruct sel; [done|].
  set (admitted := map admissionEntry entries) in *. assert (Hai : admitted !! i = Some (admissionEntry e)) by (unfold admitted; by rewrite list_lookup_fmap, Hi).
  assert (Hex : existsb (fun e => bool_decide (is_Some (aeSource e))) admitted = false).
  { apply not_true_iff_false. intros Hex. unfold CurrentAdmissionEntries in Hcur. rewrite Hex, list_lookup_fmap, Hai in Hcur. cbn in Hcur.
    unfold source_current in Hcur. cbn in Hcur. by rewrite Es in Hcur. }
  assert (Hc : forall j, CurrentAdmissionEntries admitted !! j = Some true -> newestRawEntry admitted = Some j).
  { intros j Hj. unfold CurrentAdmissionEntries in Hj. rewrite Hex, list_lookup_imap in Hj. destruct (admitted !! j); [|done]. cbn in Hj. injection Hj as Hj.
    by apply bool_decide_eq_true in Hj. }
  pose proof (Hc i Hcur) as Hnew. assert (Hp : mgPinned e = false).
  { unfold newestRawEntry in Hnew. apply find_last_Some in Hnew as (x & Hx & Hp). rewrite Hai in Hx. injection Hx as <-. cbn in Hp. by destruct (mgPinned e). }
  assert (Hne : admitted <> []) by (intros Hn'; by rewrite Hn' in Hai).
  destruct (admit_spec admitted (cbMaxTokens budget) Hne) as [_ H]. cbv zeta in H. change (AdmitContextEntries admitted (cbMaxTokens budget)) with (decide_on entries budget) in H.
  rewrite Ho in H. destruct H as ((w & m & _ & Hflag & Hcut & _) & _).
  pose proof (newest_protected admitted (cbMaxTokens budget) i _ Hnew Hai Hcur ltac:(intros j Hj Hcj; apply Hj; apply Hc in Hcj; congruence) Hp) as Hprot.
  rewrite (Hflag i _ true Hai Hprot) in Hsel. injection Hsel as Hsel. unfold flag_at in Hsel. cbn in Hsel. rewrite Hp, orb_true_r, andb_true_r in Hsel. cbn in Hsel.
  apply bool_decide_eq_false in Hsel. destruct (Hcut i _ true Hai Hprot Hp ltac:(apply orb_true_r)) as [Hc1 _]. destruct Hc1 as [_ ?]; [lia|done].
Qed.
End budgets.

(** ** Placing a summary *)
Lemma find_last_snoc {A} (p : A -> bool) l x : find_last p (l ++ [x]) = if p x then Some (length l) else find_last p l.
Proof.
  unfold find_last. rewrite rev_app_distr. cbn [rev app find_idx]. destruct (p x); [by rewrite length_app; cbn; f_equal; lia|].
  destruct (find_idx p (rev l)) as [[i y]|]; [|done]. rewrite length_app. cbn. f_equal. lia.
Qed.
Lemma find_last_split {A} (p : A -> bool) l i : find_last p l = Some i ->
  exists a x b, l = a ++ x :: b /\ length a = i /\ p x = true /\ Forall (fun y => p y = false) b.
Proof.
  induction l as [|y l IH] using rev_ind; [done|]. rewrite find_last_snoc. destruct (p y) eqn:Ey.
  - intros [= <-]. exists l, y, []. by split_and!.
  - intros (a & x & b & -> & Ha & Hx & Hb)%IH. exists a, x, (b ++ [y]). split_and!; [by rewrite <- app_assoc|done|done|]. apply Forall_app_2; [done|]. by constructor.
Qed.
Lemma place_loop {T} (covered : T -> bool) (summary : T) last l k : (forall i, (i < length l)%nat -> (k + i)%nat <> last) ->
  List.concat (imap (fun i item => (if covered item then [] else [item]) ++ (if (k + i =? last)%nat then [summary] else [])) l) =
  List.filter (fun x => negb (covered x)) l.
Proof.
  revert k. induction l as [|x l IH]; intros k Hk; [done|]. cbn [imap List.concat List.filter]. rewrite (proj2 (Nat.eqb_neq _ _)) by (apply Hk; cbn; lia).
  rewrite app_nil_r. rewrite (imap_ext _ (fun i item => (if covered item then [] else [item]) ++ (if (S k + i =? last)%nat then [summary] else []))).
  2: { intros i y _. cbn. by rewrite Nat.add_succ_r. }
  rewrite IH; [by destruct (covered x)|]. intros i Hi. specialize (Hk (S i) ltac:(cbn; lia)). lia.
Qed.
(** a summary takes the place of what it covers: every other item stays, in
    its order, and the summary stands right behind the last covered one, so
    the items the span holds but the summary does not cover come before it;
    without a covered item nothing is placed. *)
Theorem summary_takes_place {T} (items : list T) summary covered :
  (PlaceSummary items summary covered = (items, false) /\ Forall (fun x => covered x = false) items) \/
  exists before last after, items = before ++ last :: after /\ covered last = true /\ Forall (fun x => covered x = false) after /\
    PlaceSummary items summary covered = (List.filter (fun x => negb (covered x)) before ++ summary :: after, true).
Proof.
  unfold PlaceSummary. destruct (find_last covered items) as [i|] eqn:E; [|left; split; [done|by apply find_last_None]]. right.
  apply find_last_split in E as (a & x & b & -> & Ha & Hx & Hb). exists a, x, b. split_and!; [done|done|done|]. f_equal.
  rewrite imap_app, concat_app. cbn [imap List.concat]. rewrite Hx, Nat.add_0_r, Ha, Nat.eqb_refl. cbn [app]. f_equal.
  - apply (place_loop covered summary i a 0). lia.
  - f_equal. rewrite (imap_ext _ (fun j item => (if covered item then [] else [item]) ++ (if (S i + j =? i)%nat then [summary] else []))).
    2: { intros j y _. cbn. by rewrite Nat.add_succ_r. }
    rewrite place_loop by lia. apply filter_id_forall. eapply Forall_impl; [exact Hb|]. intros y Hy. by rewrite Hy.
Qed.

(** ** A composition *)
Definition text_segment (id text : str) (t cursor : Z) (self : bool) : RenderedSegment :=
  mkSegment id t cursor 0 (textPiece text) self false false false [].
Definition sample_timeline : RenderedContext :=
  [text_segment (lit "m1") (lit "old question") 10 1 false; text_segment (lit "m2") (lit "kept question") 20 2 false;
   text_segment (lit "m3") (lit "new question") 30 3 false].
Definition sample_checkpoint : HistoryCheckpoint :=
  mkCheckpoint [mkItem (lit "s1") (lit " what was said ") [] None; mkItem [] [] (lit "m2") None] {[lit "m1" := false]}.
Definition sample_answer : TurnResponseEntry := mkTurnResponse 25 (lit "assistant") (lit "an answer") [] (lit "r1") false.
Example sample_composition :
  match @ComposeContextWithCheckpointBudgeted ascii_unicode sample_timeline [sample_answer] sample_checkpoint (mkBudget (Some (mkPosition 2 20)) 0) with
  | (Some r, a) => (map cmPinned (crMessages r), map cmContent (tail (crMessages r)), caOmittedSources a)
  | _ => ([], [], [])
  end = ([true; true; false; false], map lit ["kept question"; "an answer"; "new question"]%string, []).
Proof. vm_compute. reflexivity. Qed.
Lemma no_input_lost_witness :
  let seg := text_segment (lit "m3") (lit "new question") 30 3 false in
  let '(result, admission) := @ComposeContextWithCheckpointBudgeted ascii_unicode sample_timeline [sample_answer] sample_checkpoint
      (mkBudget (Some (mkPosition 2 20)) 200) in
  let composed := fun source content => exists r m, result = Some r /\ m ∈ crMessages r /\ cmSource m = source /\ cmContent m = content in
  caProtectedOverflow admission = true \/ current_source seg ∈ caOmittedSources admission \/
  composed (Some (current_source seg)) (pendingText (sgContent seg)) \/
  (hcMessages sample_checkpoint !! trim_space (sgMessageID seg) = Some false /\
   forall item, item ∈ hcItems sample_checkpoint -> ciSummaryID item <> [] -> composed None (SummaryText (ciSummary item))).
Proof.
  apply (@no_input_lost ascii_unicode sample_timeline [sample_answer] sample_checkpoint (mkPosition 2 20) 200);
    [right; right; left|vm_compute; reflexivity..|discriminate| |].
  - intros item [->|[->|[]%not_elem_of_nil]%elem_of_cons]%elem_of_cons; [by intros []|done].
  - intros other [->|[->|[->|[]%not_elem_of_nil]%elem_of_cons]%elem_of_cons]%elem_of_cons; vm_compute; done.
Defined.
