(* ===== verification/EditTool.v ===== *)
(** * The edit tool

    Models [internal/agent/tool/fsops.go], the replacement the edit tool makes
    in a file: the old text is looked for as it is, then with typographic
    quotes, dashes and blanks and with trailing white space evened out; line
    endings and the byte-order mark are kept.  From [edit_diff.go] the texts a
    change is shown with; the diff itself is a third-party library's. *)

From S2P Require Import Prelude GoStr.
#[local] Open Scope Z_scope.

(** ** Package [strings] *)
Definition cr : ascii := "013"%char.
Fixpoint replace_crlf (s : str) : str :=
  match s with
  | [] => []
  | c :: r => match r with
              | d :: r' => if Ascii.eqb c cr && Ascii.eqb d nl then nl :: replace_crlf r' else c :: replace_crlf r
              | [] => [c]
              end
  end.
(** [strings.Count]: disjoint occurrences from the left, one more than the
    runes for an empty text. *)
Fixpoint count_from (fuel : nat) (p s : str) : Z :=
  match fuel with
  | O => 0
  | S fuel => match index s p with Some i => 1 + count_from fuel p (drop (Z.to_nat i + length p) s) | None => 0 end
  end.
Definition Count (s p : str) : Z := if is_empty p then rune_count s + 1 else count_from (length s) p s.
(** [strings.Map] *)
Definition map_runes (f : Z -> Z) (s : str) : str := encode (f <$> runes s).

(** ** Line endings *)
Definition bom : str := ["239"; "187"; "191"]%char.
Definition stripBOM (content : str) : str * str := if has_prefix content bom then (bom, drop 3 content) else ([], content).
Definition crlf : str := [cr; nl].
Definition detectLineEnding (content : str) : str :=
  match index content [nl], index content crlf with
  | Some lfIdx, Some crlfIdx => if crlfIdx <? lfIdx then crlf else [nl]
  | _, _ => [nl]
  end.
Definition normalizeToLF (text : str) : str := map (fun c => if Ascii.eqb c cr then nl else c) (replace_crlf text).
Definition restoreLineEndings (text ending : str) : str :=
  if str_eqb ending crlf then flat_map (fun c => if Ascii.eqb c nl then crlf else [c]) text else text.

(** ** Matching *)
Definition in_runes (r : Z) (l : list Z) : bool := existsb (Z.eqb r) l.
Definition fuzzy_rune (r : Z) : Z :=
  if in_range 8216 8219 r then 39
  else if in_range 8220 8223 r then 34
  else if in_range 8208 8213 r || (r =? 8722) then 45
  else if (r =? 160) || in_range 8194 8202 r || in_runes r [8239; 8287; 12288] then 32
  else r.
Definition normalizeForFuzzyMatch (text : str) : str :=
  map_runes fuzzy_rune (join [nl] (map (trim_runes_right is_space) (split_byte nl text))).
Record fuzzyMatchResult : Type := mkMatch { fmIndex : Z; fmMatchLength : nat; fmContentForReplacement : str }.
(** [None] is a result that is not [Found]. *)
Definition fuzzyFindText (content oldText : str) : option fuzzyMatchResult :=
  match index content oldText with
  | Some exactIndex => Some (mkMatch exactIndex (length oldText) content)
  | None =>
      let fuzzyContent := normalizeForFuzzyMatch content in
      let fuzzyOld := normalizeForFuzzyMatch oldText in
      (fun fuzzyIndex => mkMatch fuzzyIndex (length fuzzyOld) fuzzyContent) <$> index fuzzyContent fuzzyOld
  end.
Inductive EditError : Type := TextNotFound (filePath : str) | TextNotUnique (occurrences : Z) (filePath : str) | NothingChanged (filePath : str).
Definition applyEdit (raw filePath oldText newText : str) : result EditError str :=
  let '(mark, content) := stripBOM raw in
  let originalEnding := detectLineEnding content in
  let normalizedContent := normalizeToLF content in
  let normalizedOld := normalizeToLF oldText in
  let normalizedNew := normalizeToLF newText in
  match fuzzyFindText normalizedContent normalizedOld with
  | None => Err (TextNotFound filePath)
  | Some m =>
      let occurrences := Count (normalizeForFuzzyMatch normalizedContent) (normalizeForFuzzyMatch normalizedOld) in
      if 1 <? occurrences then Err (TextNotUnique occurrences filePath)
      else
        let baseContent := fmContentForReplacement m in
        let i := Z.to_nat (fmIndex m) in
        let updated := take i baseContent ++ normalizedNew ++ drop (i + fmMatchLength m) baseContent in
        if str_eqb baseContent updated then Err (NothingChanged filePath)
        else Ok (mark ++ restoreLineEndings updated originalEnding)
  end.

(** ** The texts a change is shown with *)
Definition diffDisplayText (content : str) : str := normalizeToLF (stripBOM content).2.
Definition trimPhantomLine (lines : list str) : list str :=
  match last lines with Some l => if is_empty l || str_eqb l [nl] then removelast lines else lines | None => lines end.
Definition editDiffContextLines : Z := 3.
Definition maxUIDiffBytes : Z := 64 * 1024.
Definition largeFileThreshold : Z := 512 * 1024.
(** [difflib], a third-party package. *)
Class DiffLib : Type := {
  SplitLines : str -> list str;
  GetUnifiedDiffString : list str -> list str -> str -> str -> Z -> result str str }.
Definition contextDiffBetween {D : DiffLib} (fromPath toPath before after : str) : result str str :=
  if (largeFileThreshold <? slen before) || (largeFileThreshold <? slen after) then Ok []
  else
    let before := diffDisplayText before in
    let after := diffDisplayText after in
    if str_eqb before after then Ok []
    else
      let side text := if is_empty text then [] else trimPhantomLine (SplitLines text) in
      let header letter path := lit letter ++ trim_prefix path (lit "/") in
      diff <-? GetUnifiedDiffString (side before) (side after) (header "a/"%string fromPath) (header "b/"%string toPath) editDiffContextLines;;
      let diff := trim_suffix diff [nl] in
      if maxUIDiffBytes <? slen diff then Ok [] else Ok diff.
Definition editContextDiff {D : DiffLib} (filePath before after : str) : result str str := contextDiffBetween filePath filePath before after.

(** ** The first occurrence *)
Definition occurs_at (s p : str) (i : nat) : Prop := exists pre post, s = pre ++ p ++ post /\ length pre = i.
Lemma index_from_spec p i s : match index_from p i s with
  | Some k => exists n, k = i + Z.of_nat n /\ occurs_at s p n /\ forall m, (m < n)%nat -> ~ occurs_at s p m
  | None => forall n, ~ occurs_at s p n end.
Proof.
  assert (Hhd : forall s, has_prefix s p = true <-> occurs_at s p 0).
  { intros s'. rewrite has_prefix_spec. split; [intros [r ->]; by exists [], r|]. intros (pre & post & -> & Hl). destruct pre; [|done]. by exists post. }
  assert (Hsh : forall c s n, occurs_at (c :: s) p (S n) <-> occurs_at s p n).
  { intros c s' n. split; intros (pre & post & Hs & Hl).
    - destruct pre as [|x pre]; [done|]. injection Hs as -> ->. exists pre, post. split; [done|]. by injection Hl.
    - exists (c :: pre), post. split; [by rewrite Hs|]. cbn. by rewrite Hl. }
  revert i. induction s as [|c s IH]; intros i; cbn [index_from]; destruct (has_prefix _ p) eqn:E.
  - apply Hhd in E. exists 0%nat. split_and!; [lia|done|lia].
  - intros [|n] H; [apply Hhd in H; congruence|]. destruct H as (pre & post & Hs & Hl). by destruct pre.
  - apply Hhd in E. exists 0%nat. split_and!; [lia|done|lia].
  - assert (H0 : ~ occurs_at (c :: s) p 0) by (rewrite <- Hhd; congruence). specialize (IH (i + 1)). destruct (index_from p (i + 1) s) as [k|].
    + destruct IH as (n & -> & Hn & Hm). exists (S n). split_and!; [lia|by apply Hsh|]. intros [|m] Hmn; [done|]. rewrite Hsh. apply Hm. lia.
    + intros [|n]; [done|]. rewrite Hsh. apply IH.
Qed.
Lemma index_spec s p : match index s p with
  | Some k => exists n, k = Z.of_nat n /\ occurs_at s p n /\ forall m, (m < n)%nat -> ~ occurs_at s p m
  | None => forall n, ~ occurs_at s p n end.
Proof. exact (index_from_spec p 0 s). Qed.
Lemma splice s p i : occurs_at s p i -> s = take i s ++ p ++ drop (i + length p) s.
Proof. intros (pre & post & -> & <-). rewrite take_app_length, app_assoc, <- length_app, drop_app_length. by rewrite app_assoc. Qed.
(** The text an edit works on, and what it looks for there: as they are when
    that is found, evened out otherwise. *)
Definition edit_base (content old base p : str) : Prop :=
  ((exists i, occurs_at content old i) /\ base = content /\ p = old) \/
  ((forall i, ~ occurs_at content old i) /\ base = normalizeForFuzzyMatch content /\ p = normalizeForFuzzyMatch old).
Lemma fuzzy_spec content old : match fuzzyFindText content old with
  | Some m => exists base p i, edit_base content old base p /\ m = mkMatch (Z.of_nat i) (length p) base /\ occurs_at base p i /\
      forall j, (j < i)%nat -> ~ occurs_at base p j
  | None => (forall i, ~ occurs_at content old i) /\ forall i, ~ occurs_at (normalizeForFuzzyMatch content) (normalizeForFuzzyMatch old) i end.
Proof.
  unfold fuzzyFindText. pose proof (index_spec content old) as H1. destruct (index content old) as [k|].
  - destruct H1 as (n & -> & H2 & H3). exists content, old, n. split_and!; [left; by eauto|done|done|done].
  - cbv zeta. pose proof (index_spec (normalizeForFuzzyMatch content) (normalizeForFuzzyMatch old)) as H2.
    destruct (index (normalizeForFuzzyMatch content) _) as [k|]; cbn; [|done]. destruct H2 as (n & -> & H3 & H4).
    exists (normalizeForFuzzyMatch content), (normalizeForFuzzyMatch old), n. split_and!; [by right|done|done|done].
Qed.

(** what an edit does on every branch: it fails when the old text is found
    neither as it is nor evened out, when it is found more than once, and when
    the replacement changes nothing; otherwise it replaces the first
    occurrence and restores the mark and the line endings. *)
Theorem edit_is_a_replacement raw filePath oldText newText :
  let content := normalizeToLF (stripBOM raw).2 in
  let old := normalizeToLF oldText in
  let new := normalizeToLF newText in
  let found := Count (normalizeForFuzzyMatch content) (normalizeForFuzzyMatch old) in
  match applyEdit raw filePath oldText newText with
  | Ok out => found <= 1 /\ exists base p pre post, edit_base content old base p /\ base = pre ++ p ++ post /\
      (forall j, (j < length pre)%nat -> ~ occurs_at base p j) /\ pre ++ p ++ post <> pre ++ new ++ post /\
      out = (stripBOM raw).1 ++ restoreLineEndings (pre ++ new ++ post) (detectLineEnding (stripBOM raw).2)
  | Err (TextNotFound _) => (forall i, ~ occurs_at content old i) /\ forall i, ~ occurs_at (normalizeForFuzzyMatch content) (normalizeForFuzzyMatch old) i
  | Err (TextNotUnique n _) => n = found /\ 1 < found
  | Err (NothingChanged _) => exists base p pre post, edit_base content old base p /\ base = pre ++ p ++ post /\ pre ++ p ++ post = pre ++ new ++ post
  end.
Proof.
  cbv zeta. unfold applyEdit. destruct (stripBOM raw) as [mark content]. cbn [fst snd]. cbv zeta. set (c := normalizeToLF content). set (o := normalizeToLF oldText).
  pose proof (fuzzy_spec c o) as H. destruct (fuzzyFindText c o) as [m|]; [|done]. destruct H as (base & p & i & Hb & -> & Hi & Hfirst).
  cbn [fmIndex fmMatchLength fmContentForReplacement]. rewrite Nat2Z.id. destruct (Z.ltb_spec 1 (Count (normalizeForFuzzyMatch c) (normalizeForFuzzyMatch o))); [done|].
  pose proof (splice _ _ _ Hi) as Hs. set (pre := take i base) in *. set (post := drop (i + length p) base) in *.
  destruct (str_eqb base (pre ++ normalizeToLF newText ++ post)) eqn:E.
  - apply str_eqb_true in E. exists base, p, pre, post. split_and!; [done|done|]. by rewrite <- Hs.
  - apply str_eqb_false in E. split; [done|]. exists base, p, pre, post. split_and!; [done|done| |by rewrite <- Hs|done].
    intros j Hj. apply Hfirst. unfold pre in Hj. rewrite length_take in Hj. lia.
Qed.

(** ** What an edit leaves alone *)
Lemma restore_app a b e : restoreLineEndings (a ++ b) e = restoreLineEndings a e ++ restoreLineEndings b e.
Proof. unfold restoreLineEndings. case_if; [apply flat_map_app|done]. Qed.
Lemma crlf_neq : str_eqb [nl] crlf = false.
Proof. done. Qed.
Lemma replace_crlf_plain s : cr ∉ s -> replace_crlf s = s.
Proof.
  induction s as [|c s IH]; intros H; [done|]. apply not_elem_of_cons in H as [Hc Hs]. specialize (IH Hs). cbn [replace_crlf]. destruct s as [|d s]; [done|].
  destruct (Ascii.eqb_spec c cr) as [->|_]; [done|]. cbn [andb]. by rewrite IH.
Qed.
Lemma no_cr_left s : cr ∉ s -> map (fun c => if Ascii.eqb c cr then nl else c) s = s.
Proof.
  induction s as [|c s IH]; intros H; [done|]. apply not_elem_of_cons in H as [Hc Hs]. cbn [map]. destruct (Ascii.eqb_spec c cr) as [->|_]; [done|]. by rewrite IH.
Qed.
Lemma normalize_plain s : cr ∉ s -> normalizeToLF s = s.
Proof. intros H. unfold normalizeToLF. by rewrite replace_crlf_plain, no_cr_left. Qed.
Lemma crlf_replaced s : cr ∉ s -> replace_crlf (flat_map (fun c => if Ascii.eqb c nl then crlf else [c]) s) = s.
Proof.
  induction s as [|c s IH]; intros H; [done|]. apply not_elem_of_cons in H as [Hc Hs]. specialize (IH Hs). cbn [flat_map].
  destruct (Ascii.eqb_spec c nl) as [->|Hn]; [cbn; by rewrite IH|]. cbn [app]. destruct (flat_map _ s) as [|d r]; cbn [replace_crlf]; [cbn in IH; by rewrite <- IH|].
  destruct (Ascii.eqb_spec c cr) as [->|_]; [done|]. cbn [andb]. f_equal. exact IH.
Qed.
Lemma normalize_restored s e : cr ∉ s -> normalizeToLF (restoreLineEndings s e) = s.
Proof.
  intros H. unfold restoreLineEndings. destruct (str_eqb e crlf); [|by apply normalize_plain]. unfold normalizeToLF. rewrite crlf_replaced by done.
  by apply no_cr_left.
Qed.
Lemma occurs_in s p i c : occurs_at s p i -> c ∈ p -> c ∈ s.
Proof. intros (pre & post & -> & _) Hc. set_solver. Qed.
Lemma detect_lf s : cr ∉ s -> detectLineEnding s = [nl].
Proof.
  intros H. unfold detectLineEnding. pose proof (index_spec s crlf) as Hi. destruct (index s [nl]), (index s crlf) as [k|]; try done.
  exfalso. destruct Hi as (n & _ & Ho & _). apply H. eapply occurs_in; [exact Ho|]. unfold crlf. by left.
Qed.
Lemma detect_crlf s : cr ∉ s -> nl ∈ s -> detectLineEnding (restoreLineEndings s crlf) = crlf.
Proof.
  intros Hcr Hnl. assert (exists a b, s = a ++ nl :: b /\ nl ∉ a) as (a & b & -> & Ha).
  { clear Hcr. induction s as [|c s IH]; [by apply not_elem_of_nil in Hnl|]. destruct (decide (c = nl)) as [->|Hne]; [exists [], s; split; [done|apply not_elem_of_nil]|].
    apply elem_of_cons in Hnl as [Hx|Hnl]; [by destruct Hne|]. destruct (IH Hnl) as (a & b & -> & Ha). exists (c :: a), b. split; [done|]. by apply not_elem_of_cons. }
  rewrite restore_app. assert (Hra : restoreLineEndings a crlf = a).
  { unfold restoreLineEndings. rewrite str_eqb_refl. clear -Ha. induction a as [|c a IH]; [done|]. apply not_elem_of_cons in Ha as [Hc Ha]. cbn [flat_map].
    destruct (Ascii.eqb_spec c nl) as [->|_]; [done|]. cbn [app]. by rewrite IH. }
  rewrite Hra. assert (Hrb : exists r, restoreLineEndings (nl :: b) crlf = cr :: nl :: r) by (unfold restoreLineEndings; rewrite str_eqb_refl; cbn; by eexists).
  destruct Hrb as [r ->]. set (t := a ++ cr :: nl :: r). unfold detectLineEnding. pose proof (index_spec t [nl]) as H1. pose proof (index_spec t crlf) as H2.
  assert (O2 : occurs_at t crlf (length a)) by (by exists a, r). assert (O1 : occurs_at t [nl] (S (length a))).
  { exists (a ++ [cr]), r. unfold t. split; [by rewrite <- app_assoc|]. rewrite length_app. cbn. lia. }
  destruct (index t [nl]) as [k1|]; [|by destruct (H1 _ O1)]. destruct (index t crlf) as [k2|]; [|by destruct (H2 _ O2)].
  destruct H1 as (n1 & -> & (pre & post & Hs & Hl) & _), H2 as (n2 & -> & _ & F2).
  assert (Hn2 : (n2 <= length a)%nat) by (destruct (decide (length a < n2)%nat) as [Hlt|]; [by destruct (F2 _ Hlt)|lia]).
  assert (Hn1 : t !! n1 = Some nl) by (rewrite Hs, lookup_app_r, Hl, Nat.sub_diag by lia; done).
  destruct (decide (n1 < length a)%nat) as [Hlt|Hge].
  { exfalso. apply Ha. unfold t in Hn1. rewrite lookup_app_l in Hn1 by done. by eapply list_elem_of_lookup_2. }
  destruct (decide (n1 = length a)) as [->|Hne]; [unfold t in Hn1; by rewrite list_lookup_middle in Hn1|].
  destruct (Z.ltb_spec (Z.of_nat n2) (Z.of_nat n1)); [done|lia].
Qed.
(** A file with one kind of line ending, and perhaps a byte-order mark. *)
Definition uniform_file (mark text ending : str) : Prop :=
  (mark = bom \/ mark = [] /\ has_prefix (restoreLineEndings text ending) bom = false) /\ cr ∉ text /\ (ending = [nl] \/ ending = crlf /\ nl ∈ text).
Lemma uniform_parts mark text ending : uniform_file mark text ending -> stripBOM (mark ++ restoreLineEndings text ending) = (mark, restoreLineEndings text ending) /\
  detectLineEnding (restoreLineEndings text ending) = ending.
Proof.
  intros (Hm & Hcr & He). split.
  - destruct Hm as [->|[-> Hp]]; [unfold stripBOM; by rewrite (proj2 (has_prefix_spec _ bom)) by by eexists|]. cbn [app]. unfold stripBOM. by rewrite Hp.
  - destruct He as [->|[-> Hnl]]; [|by apply detect_crlf]. unfold restoreLineEndings. rewrite crlf_neq. by apply detect_lf.
Qed.

(** an edit keeps the rest of the file byte for byte: in a file whose lines
    end alike, an edit that finds the old text as it is and succeeds writes the
    new text, with the line ending of the file, in the place of the first
    occurrence, and everything before and after it stays. *)
Theorem edit_keeps_the_rest mark ending filePath pre old post newText (Hfile : uniform_file mark (pre ++ old ++ post) ending)
    (Hfirst : forall j, (j < length pre)%nat -> ~ occurs_at (pre ++ old ++ post) old j)
    (Hok : is_ok (applyEdit (mark ++ restoreLineEndings (pre ++ old ++ post) ending) filePath old newText) = true) :
  applyEdit (mark ++ restoreLineEndings (pre ++ old ++ post) ending) filePath old newText =
  Ok (mark ++ restoreLineEndings pre ending ++ restoreLineEndings (normalizeToLF newText) ending ++ restoreLineEndings post ending).
Proof.
  destruct (uniform_parts _ _ _ Hfile) as [H1 H2]. destruct Hfile as (_ & Hcr & _). unfold applyEdit in *. rewrite H1 in *. cbv zeta in *. rewrite H2 in *.
  rewrite (normalize_restored _ ending Hcr) in *. rewrite (normalize_plain old) in * by set_solver. set (s := pre ++ old ++ post) in *.
  assert (Hocc : occurs_at s old (length pre)) by (by exists pre, post).
  assert (Hidx : index s old = Some (Z.of_nat (length pre))).
  { pose proof (index_spec s old) as Hi. destruct (index s old) as [k|]; [|by destruct (Hi _ Hocc)]. destruct Hi as (n & -> & Hn & Hf).
    destruct (lt_eq_lt_dec n (length pre)) as [[Hlt| ->]|Hgt]; [by destruct (Hfirst n Hlt)|done|by destruct (Hf _ Hgt)]. }
  unfold fuzzyFindText in *. rewrite Hidx in *. cbn [fmIndex fmMatchLength fmContentForReplacement] in *. rewrite Nat2Z.id in *.
  destruct (1 <? _); [done|]. assert (Ht : take (length pre) s = pre) by (unfold s; apply take_app_length).
  assert (Hd : drop (length pre + length old) s = post) by (unfold s; rewrite app_assoc, <- length_app; apply drop_app_length). rewrite Ht, Hd in *.
  destruct (str_eqb s _); [done|]. by rewrite !restore_app.
Qed.
Lemma edit_keeps_the_rest_witness : let raw := bom ++ lit "a" ++ crlf ++ lit "b" ++ crlf in
  uniform_file bom (lit "a" ++ [nl] ++ lit "b" ++ [nl]) crlf /\
  applyEdit raw (lit "f") (lit "b") (lit "c" ++ [nl] ++ lit "d") = Ok (bom ++ lit "a" ++ crlf ++ lit "c" ++ crlf ++ lit "d" ++ crlf).
Proof.
  assert (H : uniform_file bom (lit "a" ++ [nl] ++ lit "b" ++ [nl]) crlf).
  { split_and!; [by left|by apply (bool_decide_unpack _); vm_compute|]. right. split; [done|]. by apply (bool_decide_unpack _); vm_compute. }
  split; [exact H|]. apply (edit_keeps_the_rest bom crlf (lit "f") (lit "a" ++ [nl]) (lit "b") [nl] (lit "c" ++ [nl] ++ lit "d")); [exact H| |by vm_compute].
  intros j Hj (p & q & Hs & Hl). destruct p as [|? [|? p]]; cbn in *; [done|done|lia].
Defined.
