(* ===== verification/FoldRetain.v ===== *)
(** * What a compaction event keeps

    Models the data of [internal/agent/context/compaction] ([fold.go],
    [types.go]), what messages and summaries cost ([summary.go] and the
    envelope prices of [internal/agent/context/fragment/tokens.go]) and, from
    [fold_plan.go], the budgets of an event and what it keeps verbatim.

    Sums of tokens are far from the bounds of an [int]; they are integers
    here.  A map from indices to [true] is the set of them. *)

From S2P Require Import Prelude GoStr GoTrim ContextFrag Admission Timeline TimelineCompose.
#[local] Open Scope Z_scope.

(** ** Requests

    What the code uses of the model SDK: the fields of a request, a tool
    definition with its JSON, if it can be encoded. *)
Record ToolDefinition : Type := mkTool { tdName : str; tdDescription : str; tdJSON : option str }.
Record Request : Type := mkRequest { rqSystem : str; rqMessages : list Message; rqTools : list ToolDefinition; rqMaxTokens : option Z }.
Definition with_messages (r : Request) (messages : list Message) : Request :=
  mkRequest (rqSystem r) messages (rqTools r) (rqMaxTokens r).
Class SDK : Type := {
  UserMessage : str -> Message;                 (** [sdk.UserMessage] *)
  json_of_message : Message -> option str;      (** [json.Marshal] of a message, if it succeeds *)
  UserMessage_text : forall text, UserMessage text = mkMessage MessageRoleUser [TextPart text] }.

Record Source : Type := mkFoldSource { Sources : list ContextMessageSource; Anchor : bool }.
Definition noSource : Source := mkFoldSource [] false.
Inductive AnchorPolicy : Type := AnchorsCapped | AnchorsFirst.
Definition source_key (s : ContextMessageSource) : str * str := (csKind s, csID s).
(** [turn.ContextMessageSource{Kind: s.Kind, ID: s.ID}] *)
Definition bare (s : ContextMessageSource) : ContextMessageSource := mkSource (csKind s) (csID s) false.
Record retention : Type := mkRetention {
  rtCut : nat; rtAnchors : gset (str * str); rtKeptGroups : Z; rtLatestGroupTokens : Z }.
Record Event : Type := mkEvent {
  evRequest : Request; evSources : list Source; evCurrent : list Message; evAnchorPolicy : AnchorPolicy;
  evWindow : Z; evMaxOutputTokens : Z; evAllowance : Z; evFixedOutput : bool; evRetention : retention }.
Definition with_retention (ev : Event) (r : retention) : Event :=
  mkEvent (evRequest ev) (evSources ev) (evCurrent ev) (evAnchorPolicy ev) (evWindow ev) (evMaxOutputTokens ev)
    (evAllowance ev) (evFixedOutput ev) r.
Definition messages_of (ev : Event) : list Message := rqMessages (evRequest ev).
Definition source_at (ev : Event) (i : nat) : Source := default noSource (evSources ev !! i).
Definition evCut (ev : Event) : nat := rtCut (evRetention ev).
Definition sourceless (s : Source) : bool := match Sources s with [] => true | _ => false end.
Definition isSummarySource (source : Source) : bool :=
  match Sources source with s :: _ => str_eqb (csKind s) (lit "summary") | [] => false end.

(** ** Reasons *)
Inductive Reason : Type :=
  | ReasonSummarizerFailed | ReasonTruncated | ReasonEmpty | ReasonIneffective | ReasonStaleSource
  | ReasonInputOverflow | ReasonStillOver | ReasonProtectedOverflow.
Inductive FoldError : Type :=
  | NoSummaryRoom (allowance room : Z) | SummaryOverRoom (replay room : Z)
  | IneffectivePlan (replaced : Z) | IneffectiveSummary (replay replaced : Z)
  | NoPrefixAnswers (window : Z) | GroupDoesNotFit (start : nat) (capTokens : Z)
  | StaleCheckpoint | SummarizerError (err : str) | CalledTools (n : Z) | EmptySummary | IncompleteSummary (finish : str) (maxTokens : option Z)
  | SourcesMismatch | RowsLeft | StoreError (err : str).
(** An error with the reason the event reports for it, if it reports one. *)
Record EventError : Type := failed_with { eeReason : option Reason; eeErr : FoldError }.
Definition failed (reason : Reason) (err : FoldError) : EventError := failed_with (Some reason) err.
Definition ReasonOf (err : EventError) : option Reason := eeReason err.

(** ** Prices *)
Section pricing.
Context {X : Externals} {K : SDK}.
Definition ToolDefTokens (tool : ToolDefinition) : Z :=
  let size := match tdJSON tool with Some data => slen data | None => slen (tdName tool) + slen (tdDescription tool) end in
  Z.max (TokensFromBytes size) (ProviderBudgetTokensFromBytes size).
Definition messageTokens (message : Message) : Z :=
  let '(bytes, images) := sdkMessageEstimate message in ProviderBudgetTokensFromBytes bytes + images * EstimateImageTokens.
Definition sum (l : list Z) : Z := fold_right Z.add 0 l.
Definition ProviderEnvelopeTokens (system : str) (messages : list Message) (tools : list ToolDefinition) : Z :=
  ProviderBudgetTokensFromBytes (slen system) + sum (messageTokens <$> messages) + sum (ToolDefTokens <$> tools).
Definition forkTokens (req : Request) : Z := ProviderEnvelopeTokens (rqSystem req) (rqMessages req) (rqTools req).
Definition messagesTokens (messages : list Message) : Z := forkTokens (mkRequest [] messages [] None).
Definition envelopeTokens (ev : Event) (messages : list Message) : Z :=
  forkTokens (mkRequest (rqSystem (evRequest ev)) messages (rqTools (evRequest ev)) None).
Definition instructionTokens (instruction : str) : Z := messagesTokens [UserMessage instruction].

Definition SummaryMessage (summary : str) : Message := UserMessage (SummaryText summary).
Definition summaryReplayTokens (summary : str) : Z := messagesTokens [SummaryMessage summary].
Definition xs (n : Z) : str := repeat "x"%char (Z.to_nat n).
Fixpoint outputLimitLoop (fuel : nat) (replayBudget low high : Z) : Z :=
  match fuel with
  | O => low
  | S fuel =>
      if low <? high then
        let mid := (low + high + 1) / 2 in
        if summaryReplayTokens (xs ((mid + 1) * EstimateBytesPerToken)) <=? replayBudget
        then outputLimitLoop fuel replayBudget mid high
        else outputLimitLoop fuel replayBudget low (mid - 1)
      else low
  end.
Definition summaryOutputLimit (replayBudget modelLimit : Z) : Z :=
  let high := Z.min modelLimit replayBudget in outputLimitLoop (Z.to_nat high) replayBudget 0 high.

(** ** Budgets *)
Definition roomShare : Z := 4.
Definition verbatimCapTokens : Z := 32000.
Definition minForkOutputTokens : Z := 1024.
Definition instructionNumberSlack : Z := 8.
Definition forkInstructionReserve : Z := 1024.
Definition minSummaryTokens : Z := 32.
(** The messages at the indices that satisfy a test. *)
Definition pick (p : nat -> bool) (messages : list Message) : list Message :=
  List.concat (imap (fun i m => if p i then [m] else []) messages).
Definition fixedRoom (ev : Event) : Z :=
  evAllowance ev - envelopeTokens ev (pick (fun i => sourceless (source_at ev i)) (messages_of ev)).
Definition verbatimBudget (ev : Event) : Z := Z.min verbatimCapTokens (Z.quot (fixedRoom ev) roomShare).
Definition summaryBudget (ev : Event) : Z := Z.quot (fixedRoom ev) roomShare.
Definition keepTokens (message : Message) : Z :=
  let tokens := messagesTokens [message] in
  match json_of_message message with Some encoded => Z.max tokens (TokensFromBytes (slen encoded)) | None => tokens end.

Definition leastOutput (ev : Event) : Z :=
  if evFixedOutput ev then evMaxOutputTokens ev else Z.min (evMaxOutputTokens ev) minForkOutputTokens.

(** ** What an event keeps verbatim *)
Definition keeps (r : retention) (source : Source) : bool :=
  Anchor source && existsb (fun s => bool_decide (source_key s ∈ rtAnchors r)) (Sources source).
Definition is_result (part : MessagePart) : bool := match part with ToolResultPart _ _ _ _ => true | _ => false end.
Definition foldBoundary (messages : list Message) (end_ : nat) : bool :=
  if (end_ =? 0)%nat || (length messages <? end_)%nat then false
  else match messages !! end_ with Some m => negb (existsb is_result (msgContent m)) | None => true end.

Section retain.
Context (ev : Event) (unfoldable : gset nat).
Definition unfolds (i : nat) : bool := bool_decide (i ∈ unfoldable).
Definition fixed (i : nat) : bool := sourceless (source_at ev i) || unfolds i.
Definition message_cost (i : nat) : Z :=
  if fixed i then 0 else match messages_of ev !! i with Some m => keepTokens m | None => 0 end.
Definition cost (from to : nat) : Z := sum (message_cost <$> seq from (to - from)).
(** What the messages that no context row holds take. *)
Definition unfoldableTokens : Z :=
  sum (imap (fun i m => if negb (sourceless (source_at ev i)) && unfolds i then keepTokens m else 0) (messages_of ev)).
Fixpoint inputCut (n : nat) : nat :=
  match n with
  | O => O
  | S k => if fixed k || Anchor (source_at ev k) then inputCut k else n
  end.
Fixpoint keepAnchors (anchorBudget : Z) (n : nat) (used : Z) (anchors : gset (str * str)) : Z * gset (str * str) :=
  match n with
  | O => (used, anchors)
  | S i =>
      if negb (Anchor (source_at ev i)) || fixed i then keepAnchors anchorBudget i used anchors
      else
        let tokens := cost i (S i) in
        if anchorBudget <? used + tokens then (used, anchors)
        else keepAnchors anchorBudget i (used + tokens) (anchors ∪ list_to_set (source_key <$> Sources (source_at ev i)))
  end.
Fixpoint groupStart (start : nat) : nat :=
  match start with
  | O => O
  | S k => if foldBoundary (messages_of ev) start then start else groupStart k
  end.
Definition group_stops (r : retention) (i : nat) : bool :=
  negb (fixed i || keeps r (source_at ev i)) && (isSummarySource (source_at ev i) || Anchor (source_at ev i)).
Definition group_counts (r : retention) (i : nat) : bool :=
  negb (fixed i || keeps r (source_at ev i)) && negb (isSummarySource (source_at ev i) || Anchor (source_at ev i)).
Fixpoint keepGroups (fuel at_ : nat) (r : retention) (budget : Z) (latest : bool) : retention :=
  match fuel with
  | O => r
  | S fuel =>
      if (at_ =? 0)%nat then r
      else
        let start := groupStart (at_ - 1) in
        let span := seq start (at_ - start) in
        if existsb (group_stops r) span then r
        else if existsb (group_counts r) span then
          let tokens := cost start at_ in
          let latestTokens := if latest then tokens else rtLatestGroupTokens r in
          if budget <? tokens then mkRetention (rtCut r) (rtAnchors r) (rtKeptGroups r) latestTokens
          else keepGroups fuel start (mkRetention start (rtAnchors r) (rtKeptGroups r + 1) latestTokens) (budget - tokens) false
        else keepGroups fuel start r budget latest
  end.
Definition retain : retention :=
  let n := length (messages_of ev) in
  let budget := verbatimBudget ev - unfoldableTokens in
  let '(cut, budget) := match evAnchorPolicy ev with
                        | AnchorsCapped => let cut := inputCut n in (cut, budget - cost cut n)
                        | AnchorsFirst => (n, budget)
                        end in
  let anchorBudget := match evAnchorPolicy ev with
                      | AnchorsFirst => let room := fixedRoom ev in room - Z.quot room 10
                      | AnchorsCapped => budget
                      end in
  let '(used, anchors) := keepAnchors anchorBudget cut 0 ∅ in
  keepGroups cut cut (mkRetention cut anchors 0 0) (budget - used) true.
End retain.
End pricing.

(** ** Prices are sums *)
Section prices.
Context {X : Externals} {K : SDK}.
Lemma prices_app a b : sum (a ++ b) = sum a + sum b.
Proof. unfold sum. induction a as [|x a IH]; cbn [app fold_right]; [lia|]. rewrite IH. lia. Qed.
Lemma prices_nonneg l : Forall (fun x => 0 <= x) l -> 0 <= sum l.
Proof. unfold sum. induction 1; cbn [fold_right]; lia. Qed.
Lemma budget_tokens_mono a b : a <= b -> ProviderBudgetTokensFromBytes a <= ProviderBudgetTokensFromBytes b.
Proof.
  intros H. unfold ProviderBudgetTokensFromBytes, EstimateBytesPerToken, ProviderBudgetSafetyFactorPercent. cbv zeta.
  destruct (Z.leb_spec a 0), (Z.leb_spec b 0); try lia.
  - apply Z.div_pos; [|lia]. destruct (negb _); assert (0 <= b / 4) by (apply Z.div_pos; lia); lia.
  - apply Z.div_le_mono; [lia|]. apply Z.mul_le_mono_nonneg_r; [lia|]. assert (a / 4 <= b / 4) by (apply Z.div_le_mono; lia).
    destruct (negb (a mod 4 =? 0)) eqn:Ea, (negb (b mod 4 =? 0)) eqn:Eb; bool_hyps; try lia.
    rewrite (Z.div_mod a 4), (Z.div_mod b 4) in H by lia. pose proof (Z.mod_pos_bound a 4). lia.
Qed.
Lemma budget_tokens_nonneg a : 0 <= ProviderBudgetTokensFromBytes a.
Proof. transitivity (ProviderBudgetTokensFromBytes (Z.min a 0)); [unfold ProviderBudgetTokensFromBytes; by rewrite (proj2 (Z.leb_le (Z.min a 0) 0)) by lia|apply budget_tokens_mono; lia]. Qed.
Lemma partsEstimate_nonneg content : 0 <= (partsEstimate content).1 /\ 0 <= (partsEstimate content).2.
Proof.
  induction content as [|part content IH]; [done|]. cbn [partsEstimate]. destruct (partsEstimate content) as [b i]. cbn [fst snd] in *.
  destruct part; try (destruct (json_of_part _)); unfold slen; cbn [fst snd]; lia.
Qed.
Lemma messageTokens_nonneg m : 0 <= messageTokens m.
Proof.
  unfold messageTokens, sdkMessageEstimate, EstimateImageTokens. pose proof (partsEstimate_nonneg (msgContent m)). destruct (partsEstimate (msgContent m)) as [b i].
  cbn [fst snd] in *. pose proof (budget_tokens_nonneg b). lia.
Qed.
Lemma messagesTokens_sum ms : messagesTokens ms = sum (messageTokens <$> ms).
Proof. change (0 + sum (messageTokens <$> ms) + 0 = sum (messageTokens <$> ms)). lia. Qed.
Lemma messagesTokens_app a b : messagesTokens (a ++ b) = messagesTokens a + messagesTokens b.
Proof. rewrite !messagesTokens_sum. by rewrite fmap_app, prices_app. Qed.
Lemma messagesTokens_nonneg ms : 0 <= messagesTokens ms.
Proof. rewrite messagesTokens_sum. apply prices_nonneg, Forall_forall. intros z Hz. apply list_elem_of_fmap in Hz as (m & -> & _). apply messageTokens_nonneg. Qed.
Lemma ToolDefTokens_nonneg t : 0 <= ToolDefTokens t.
Proof. unfold ToolDefTokens. cbv zeta. pose proof (budget_tokens_nonneg match tdJSON t with Some data => slen data | None => slen (tdName t) + slen (tdDescription t) end). lia. Qed.
Lemma envelope_sum ev ms : envelopeTokens ev ms = envelopeTokens ev [] + messagesTokens ms.
Proof. rewrite messagesTokens_sum. unfold envelopeTokens, forkTokens, ProviderEnvelopeTokens. cbn [rqSystem rqMessages rqTools]. change (sum (messageTokens <$> [])) with 0. lia. Qed.
Lemma forkTokens_nonneg r : 0 <= forkTokens r.
Proof.
  unfold forkTokens, ProviderEnvelopeTokens. pose proof (budget_tokens_nonneg (slen (rqSystem r))). rewrite <- messagesTokens_sum. pose proof (messagesTokens_nonneg (rqMessages r)).
  assert (0 <= sum (ToolDefTokens <$> rqTools r)) by (apply prices_nonneg, Forall_forall; intros z Hz; apply list_elem_of_fmap in Hz as (t & -> & _); apply ToolDefTokens_nonneg). lia.
Qed.
Lemma keepTokens_nonneg m : 0 <= keepTokens m.
Proof. unfold keepTokens. cbv zeta. pose proof (messagesTokens_nonneg [m]). destruct (json_of_message m); lia. Qed.
Lemma text_tokens text : messagesTokens [UserMessage text] = ProviderBudgetTokensFromBytes (slen text).
Proof. rewrite messagesTokens_sum, UserMessage_text. unfold messageTokens, sdkMessageEstimate. cbn [fmap list_fmap msgContent partsEstimate sum fold_right]. by rewrite Z.mul_0_l, !Z.add_0_r. Qed.

(** ** How long a summary may be *)
Definition summaryEnvelope : Z := slen (SummaryText []).
Lemma summary_length s : slen (SummaryText s) = summaryEnvelope + slen (trim_space s).
Proof. unfold summaryEnvelope, SummaryText, slen. rewrite !length_app. change (length (trim_space [])) with 0%nat. lia. Qed.
Lemma replay_tokens s : summaryReplayTokens s = ProviderBudgetTokensFromBytes (summaryEnvelope + slen (trim_space s)).
Proof. unfold summaryReplayTokens, SummaryMessage. by rewrite text_tokens, summary_length. Qed.
Lemma xs_length n : 0 <= n -> slen (xs n) = n.
Proof. intros H. unfold slen, xs. rewrite repeat_length. lia. Qed.
Lemma trim_units_id l : Forall (fun q => is_space q.1 = false) l -> trim_units l = l.
Proof.
  intros H. unfold trim_units. rewrite drop_while_id; [|by destruct H]. apply drop_while_end_id. destruct (last l) as [q|] eqn:E; [|done].
  apply last_Some_elem_of in E. rewrite Forall_forall in H. by apply H.
Qed.
Lemma trim_space_xs n : trim_space (xs n) = xs n.
Proof.
  assert (Hx : Forall (fun c => c = "x"%char) (xs n)) by (apply Forall_forall; intros c Hc; unfold xs in Hc; apply list_elem_of_In in Hc; by apply repeat_spec in Hc).
  rewrite trim_space_units, trim_units_id; [apply undecode_decode|]. rewrite decode_ascii by (eapply Forall_impl; [exact Hx|by intros ? ->]).
  apply Forall_fmap. eapply Forall_impl; [exact Hx|]. by intros ? ->.
Qed.
Lemma trim_space_shorter s : slen (trim_space s) <= slen s.
Proof.
  rewrite trim_space_units. rewrite <- (undecode_decode s) at 2. unfold trim_units. destruct (drop_while_split space_unit (decode s)) as (k & Hk & _).
  destruct (drop_while_end_split space_unit (drop_while space_unit (decode s))) as (k' & Hk' & _). rewrite Hk at 2. rewrite undecode_app, slen_app. rewrite Hk' at 2.
  rewrite undecode_app, slen_app. pose proof (slen_nonneg (undecode k)). pose proof (slen_nonneg (undecode k')). lia.
Qed.
Lemma replay_xs n s : slen s <= n -> summaryReplayTokens s <= summaryReplayTokens (xs n).
Proof. intros H. rewrite !replay_tokens, trim_space_xs. apply budget_tokens_mono. pose proof (trim_space_shorter s). pose proof (slen_nonneg s). rewrite xs_length by lia. lia. Qed.
Definition limit_ok (b m : Z) : Prop := summaryReplayTokens (xs ((m + 1) * EstimateBytesPerToken)) <= b.
Lemma limit_ok_down b m m' : 0 <= m' <= m -> limit_ok b m -> limit_ok b m'.
Proof. intros H Hm. unfold limit_ok, EstimateBytesPerToken in *. etransitivity; [apply replay_xs|exact Hm]. rewrite xs_length by lia. lia. Qed.
Lemma output_limit_loop b fuel low high : 0 <= low -> (low <= high -> high - low <= Z.of_nat fuel) -> (0 < low -> limit_ok b low) ->
  let n := outputLimitLoop fuel b low high in low <= n /\ (n = low \/ n <= high) /\ (0 < n -> limit_ok b n) /\ forall m, n < m <= high -> ~ limit_ok b m.
Proof.
  revert low high. induction fuel as [|fuel IH]; intros low high Hl Hf Hok; cbn [outputLimitLoop]; [split_and!; [lia|by left|done|lia]|].
  destruct (Z.ltb_spec low high) as [H|H]; [|split_and!; [lia|by left|done|lia]]. set (mid := (low + high + 1) / 2).
  assert (Hm : low < mid <= high). { unfold mid. Z.div_mod_to_equations. lia. }
  cbv zeta.
  destruct (Z.leb_spec (summaryReplayTokens (xs ((mid + 1) * EstimateBytesPerToken))) b) as [Hle|Hgt].
  - destruct (IH mid high) as (H1 & H2 & H3 & H4); [lia|lia|done|]. split_and!; [lia|lia|done|done].
  - destruct (IH low (mid - 1)) as (H1 & H2 & H3 & H4); [lia|lia|done|]. split_and!; [lia|lia|done|]. intros m Hm' Hm2.
    destruct (Z.le_gt_cases m (mid - 1)); [by apply (H4 m); [lia|]|]. apply (limit_ok_down _ _ mid) in Hm2; [unfold limit_ok in Hm2; lia|lia].
Qed.

(** the length a summary is asked to stay within is the longest that
    helps: any summary of that many tokens fits the budget as a request
    carries it, with a token to spare, and none of the longer lengths the
    model could write is certain to. *)
Theorem summary_limit_is_longest replayBudget modelLimit :
  let n := summaryOutputLimit replayBudget modelLimit in
  0 <= n /\ (n = 0 \/ n <= Z.min modelLimit replayBudget) /\
  (0 < n -> forall summary, slen summary <= (n + 1) * EstimateBytesPerToken -> summaryReplayTokens summary <= replayBudget) /\
  forall m, n < m <= Z.min modelLimit replayBudget ->
    exists summary, slen summary = (m + 1) * EstimateBytesPerToken /\ replayBudget < summaryReplayTokens summary.
Proof.
  cbv zeta. unfold summaryOutputLimit. cbv zeta. set (high := Z.min modelLimit replayBudget).
  destruct (output_limit_loop replayBudget (Z.to_nat high) 0 high) as (H1 & H2 & H3 & H4); [lia|lia|lia|]. split_and!; [done|done| |].
  - intros Hn summary Hs. etransitivity; [by apply replay_xs|]. by apply H3.
  - intros m Hm. exists (xs ((m + 1) * EstimateBytesPerToken)). split; [apply xs_length; unfold EstimateBytesPerToken; lia|].
    destruct (Z.lt_ge_cases replayBudget (summaryReplayTokens (xs ((m + 1) * EstimateBytesPerToken)))) as [|Hc]; [done|]. by destruct (H4 m Hm).
Qed.
End prices.

(** ** What an event keeps *)
Section retained.
Context {X : Externals} {K : SDK} (ev : Event) (unf : gset nat).
Notation msg_cost := (message_cost ev unf).
(** An anchor the event may keep, one it has to fold or keep as history. *)
Definition old_anchor (i : nat) : bool := Anchor (source_at ev i) && negb (fixed ev unf i).
Definition anchorCost (from to : nat) : Z := sum ((fun i => if old_anchor i then msg_cost i else 0) <$> seq from (to - from)).
Definition anchorKeys (from to : nat) : gset (str * str) :=
  ⋃ ((fun i => if old_anchor i then list_to_set (source_key <$> Sources (source_at ev i)) else ∅) <$> seq from (to - from)).
(** What the messages between two places take that are not kept anchors. *)
Definition groupCost (r : retention) (from to : nat) : Z := sum ((fun i => if keeps r (source_at ev i) then 0 else msg_cost i) <$> seq from (to - from)).

Lemma message_cost_nonneg i : 0 <= msg_cost i.
Proof. unfold message_cost. case_if; [done|]. destruct (messages_of ev !! i); [apply keepTokens_nonneg|done]. Qed.
Lemma seq_cut a b c : (a <= b <= c)%nat -> seq a (c - a) = seq a (b - a) ++ seq b (c - b).
Proof. intros H. replace (c - a)%nat with (b - a + (c - b))%nat by lia. rewrite seq_app. by replace (a + (b - a))%nat with b by lia. Qed.
Lemma sum_seq_cut f a b c : (a <= b <= c)%nat -> sum (f <$> seq a (c - a)) = sum (f <$> seq a (b - a)) + sum (f <$> seq b (c - b)).
Proof. intros H. rewrite (seq_cut a b c H), fmap_app. apply prices_app. Qed.
Lemma sum_seq_le f g a n : (forall i, f i <= g i) -> sum (f <$> seq a n) <= sum (g <$> seq a n).
Proof. intros H. revert a. induction n as [|n IH]; intros a; [done|]. specialize (H a). specialize (IH (S a)). cbn [seq fmap list_fmap]. unfold sum in *. cbn [fold_right]. lia. Qed.
Lemma sum_seq_zero f a n : (forall i, (a <= i < a + n)%nat -> f i = 0) -> sum (f <$> seq a n) = 0.
Proof. revert a. induction n as [|n IH]; intros a H; [done|]. change (f a + sum (f <$> seq (S a) n) = 0). rewrite H by lia. apply IH. intros i Hi. apply H. lia. Qed.
Lemma sum_seq_last f a n : sum (f <$> seq a (S n)) = sum (f <$> seq a n) + f (a + n)%nat.
Proof. rewrite seq_S, fmap_app, prices_app. cbn [fmap list_fmap]. unfold sum at 2. cbn [fold_right]. lia. Qed.

Lemma inputCut_le n : (inputCut ev unf n <= n)%nat.
Proof. induction n as [|n IH]; cbn; [done|]. case_if; lia. Qed.
Lemma inputCut_above n i : (inputCut ev unf n <= i < n)%nat -> fixed ev unf i || Anchor (source_at ev i) = true.
Proof.
  induction n as [|n IH]; cbn [inputCut]; [lia|]. destruct (fixed ev unf n || Anchor (source_at ev n)) eqn:E; intros H; [|lia]. destruct (decide (i = n)) as [->|]; [done|]. apply IH. lia.
Qed.
Lemma sum_seq_S f a b : (a <= b)%nat -> sum (f <$> seq a (S b - a)) = sum (f <$> seq a (b - a)) + f b.
Proof. intros H. replace (S b - a)%nat with (S (b - a)) by lia. rewrite sum_seq_last. by replace (a + (b - a))%nat with b by lia. Qed.
Lemma anchorKeys_S a b : (a <= b)%nat ->
  anchorKeys a (S b) = anchorKeys a b ∪ (if old_anchor b then list_to_set (source_key <$> Sources (source_at ev b)) else ∅).
Proof.
  intros H. unfold anchorKeys. replace (S b - a)%nat with (S (b - a)) by lia. rewrite seq_S, fmap_app, union_list_app_L. replace (a + (b - a))%nat with b by lia.
  cbn [fmap list_fmap union_list]. set_solver.
Qed.
Lemma keepAnchors_spec b n used acc : exists o, (o <= n)%nat /\
  (keepAnchors ev unf b n used acc).1 = used + anchorCost o n /\ (keepAnchors ev unf b n used acc).2 = acc ∪ anchorKeys o n /\
  used + anchorCost o n <= Z.max used b /\ (o = 0%nat \/ exists i, o = S i /\ old_anchor i = true /\ b < used + anchorCost i n).
Proof.
  unfold anchorCost. revert used acc. induction n as [|n IH]; intros used acc; cbn [keepAnchors].
  { exists 0%nat. unfold anchorKeys, sum. cbn. split_and!; [done|lia|set_solver|lia|by left]. }
  assert (Ha : negb (Anchor (source_at ev n)) || fixed ev unf n = negb (old_anchor n)) by (unfold old_anchor; by destruct (Anchor _), (fixed _ _ _)).
  rewrite Ha. destruct (old_anchor n) eqn:E; cbn [negb].
  - assert (Hc : cost ev unf n (S n) = msg_cost n) by (unfold cost; rewrite sum_seq_S, Nat.sub_diag by lia; done). rewrite Hc. cbv zeta.
    destruct (Z.ltb_spec b (used + msg_cost n)).
    + exists (S n). unfold anchorKeys. rewrite Nat.sub_diag. cbn [fst snd seq fmap list_fmap union_list]. change (sum []) with 0. split_and!; [done|lia|set_solver|lia|]. right. exists n.
      rewrite sum_seq_S, E, Nat.sub_diag by lia. cbn. split_and!; [done|done|lia].
    + destruct (IH (used + msg_cost n) (acc ∪ list_to_set (source_key <$> Sources (source_at ev n)))) as (o & Ho & H1 & H2 & H3 & H4).
      pose proof (message_cost_nonneg n). exists o. rewrite sum_seq_S, E by lia. split_and!; [lia|rewrite H1; lia| |lia|].
      * rewrite H2, anchorKeys_S, E by lia. set_solver.
      * destruct H4 as [->|(i & -> & Hi & Hb)]; [by left|]. right. exists i. rewrite sum_seq_S, E by lia. split_and!; [done|done|lia].
  - destruct (IH used acc) as (o & Ho & H1 & H2 & H3 & H4). exists o. rewrite sum_seq_S, E, anchorKeys_S, E, Z.add_0_r by lia. split_and!; [lia|done| |done|].
    + rewrite H2. set_solver.
    + destruct H4 as [->|(i & -> & Hi & Hb)]; [by left|]. right. exists i. rewrite sum_seq_S, E by lia. split_and!; [done|done|lia].
Qed.

(** What the loop over the groups keeps: [top] is where it started. *)
Definition kept_so_far (r : retention) (top at_ : nat) (spent bound : Z) : Prop :=
  (at_ <= rtCut r <= top)%nat /\ (rtCut r = top \/ rtCut r = 0%nat \/ foldBoundary (messages_of ev) (rtCut r) = true) /\
  (forall i, (at_ <= i < top)%nat -> group_stops ev unf r i = false) /\
  groupCost r at_ top <= spent /\ 0 <= spent <= Z.max 0 bound.
Lemma groupStart_spec k : (groupStart ev k <= k)%nat /\ (groupStart ev k = 0%nat \/ foldBoundary (messages_of ev) (groupStart ev k) = true).
Proof. induction k as [|k [H1 H2]]; cbn [groupStart]; [split; [done|by left]|]. destruct (foldBoundary (messages_of ev) (S k)) eqn:E; [split; [lia|by right]|]. split; [lia|done]. Qed.
Lemma existsb_seq p a b : (a <= b)%nat -> existsb p (seq a (b - a)) = false -> forall i, (a <= i < b)%nat -> p i = false.
Proof.
  intros Hab H i Hi. destruct (p i) eqn:E; [|done]. rewrite <- H. symmetry. apply existsb_exists. exists i. split; [|done]. apply in_seq. lia.
Qed.
Lemma groupCost_cut r a b c : (a <= b <= c)%nat -> groupCost r a c = groupCost r a b + groupCost r b c.
Proof. apply sum_seq_cut. Qed.
Lemma groupCost_nonneg r a b : 0 <= groupCost r a b.
Proof. apply prices_nonneg, Forall_forall. intros z Hz. apply list_elem_of_fmap in Hz as (i & -> & _). case_if; [done|apply message_cost_nonneg]. Qed.
Lemma groupCost_le r a b : groupCost r a b <= cost ev unf a b.
Proof. apply sum_seq_le. intros i. pose proof (message_cost_nonneg i). case_if; lia. Qed.
Lemma no_group_free r a b : (a <= b)%nat -> existsb (group_stops ev unf r) (seq a (b - a)) = false -> existsb (group_counts ev unf r) (seq a (b - a)) = false ->
  groupCost r a b = 0.
Proof.
  intros Hab H1 H2. apply sum_seq_zero. intros i Hi. destruct (keeps r (source_at ev i)) eqn:Ek; [done|]. unfold message_cost. destruct (fixed ev unf i) eqn:Ef; [done|]. exfalso.
  pose proof (existsb_seq _ _ _ Hab H1 i ltac:(lia)) as E1. pose proof (existsb_seq _ _ _ Hab H2 i ltac:(lia)) as E2. unfold group_stops, group_counts in *.
  rewrite Ef, Ek in *. cbn in *. rewrite E1 in E2. done.
Qed.
Lemma keepGroups_spec top bound fuel at_ r spent latest : kept_so_far r top at_ spent bound ->
  let r' := keepGroups ev unf fuel at_ r (bound - spent) latest in
  rtAnchors r' = rtAnchors r /\ exists at' spent', kept_so_far r' top at' spent' bound.
Proof.
  revert at_ r spent latest. induction fuel as [|fuel IH]; intros at_ r spent latest Hk; cbn [keepGroups]; [by eauto|]. destruct (Nat.eqb_spec at_ 0); [by eauto|].
  cbv zeta. set (start := groupStart ev (at_ - 1)). destruct (groupStart_spec (at_ - 1)) as [Hs1 Hs2]. fold start in Hs1, Hs2.
  destruct (existsb (group_stops ev unf r) _) eqn:Est; [by eauto|]. destruct Hk as (Hc & Hb & Hns & Hg & Hsp).
  assert (Hns' : forall i, (start <= i < top)%nat -> group_stops ev unf r i = false).
  { intros i Hi. destruct (decide (i < at_)%nat); [|apply Hns; lia]. apply (existsb_seq _ start at_); [lia|done|lia]. }
  destruct (existsb (group_counts ev unf r) _) eqn:Eco.
  - destruct (Z.ltb_spec (bound - spent) (cost ev unf start at_)) as [Hlt|Hle].
    + split; [done|]. exists at_, spent. done.
    + pose proof (groupCost_le r start at_). pose proof (groupCost_nonneg r start at_).
      replace (bound - spent - cost ev unf start at_) with (bound - (spent + cost ev unf start at_)) by lia.
      refine (IH start (mkRetention start (rtAnchors r) _ _) _ false _). split_and!; cbn [rtCut]; [lia|lia|tauto|exact Hns'| |lia|lia].
      change (groupCost _ start top) with (groupCost r start top). rewrite (groupCost_cut r start at_ top) by lia. lia.
  - refine (IH start r spent latest _). split_and!; [lia|lia|done|exact Hns'| |lia|lia]. rewrite (groupCost_cut r start at_ top) by lia. rewrite (no_group_free r start at_) by (done || lia). lia.
Qed.

(** what an event keeps verbatim: the inputs after the newest call group
    when anchors are capped; the other anchors newest first, as many as their
    budget holds; and the newest call groups, whole, within what is left, with
    no summary and no dropped anchor among them. *)
Theorem retention_within_budget :
  let r := retain ev unf in
  let n := length (messages_of ev) in
  let top := match evAnchorPolicy ev with AnchorsCapped => inputCut ev unf n | AnchorsFirst => n end in
  let budget := verbatimBudget ev - unfoldableTokens ev unf - cost ev unf top n in
  let anchorBudget := match evAnchorPolicy ev with AnchorsFirst => fixedRoom ev - Z.quot (fixedRoom ev) 10 | AnchorsCapped => budget end in
  exists oldest, (oldest <= top)%nat /\ rtAnchors r = anchorKeys oldest top /\
    anchorCost oldest top <= Z.max 0 anchorBudget /\
    (oldest = 0%nat \/ exists i, oldest = S i /\ old_anchor i = true /\ anchorBudget < anchorCost i top) /\
    (rtCut r <= top)%nat /\ (rtCut r = top \/ rtCut r = 0%nat \/ foldBoundary (messages_of ev) (rtCut r) = true) /\
    groupCost r (rtCut r) top <= Z.max 0 (budget - anchorCost oldest top) /\
    (forall i, (rtCut r <= i < top)%nat -> fixed ev unf i = true \/ keeps r (source_at ev i) = true \/
       isSummarySource (source_at ev i) = false /\ Anchor (source_at ev i) = false) /\
    (forall i, (top <= i < n)%nat -> fixed ev unf i || Anchor (source_at ev i) = true).
Proof.
  cbv zeta. set (n := length (messages_of ev)). unfold retain. cbv zeta. fold n.
  set (top := match evAnchorPolicy ev with AnchorsCapped => inputCut ev unf n | AnchorsFirst => n end).
  set (budget := verbatimBudget ev - unfoldableTokens ev unf - cost ev unf top n).
  replace (match evAnchorPolicy ev with AnchorsCapped => (inputCut ev unf n, verbatimBudget ev - unfoldableTokens ev unf - cost ev unf (inputCut ev unf n) n)
           | AnchorsFirst => (n, verbatimBudget ev - unfoldableTokens ev unf) end) with (top, budget).
  2: { unfold budget, top. destruct (evAnchorPolicy ev); [done|]. f_equal. unfold cost. rewrite Nat.sub_diag. change (sum _) with 0. lia. }
  replace (match evAnchorPolicy ev with AnchorsCapped => budget | AnchorsFirst => fixedRoom ev - Z.quot (fixedRoom ev) 10 end)
    with (match evAnchorPolicy ev with AnchorsFirst => fixedRoom ev - Z.quot (fixedRoom ev) 10 | AnchorsCapped => budget end) by (by destruct (evAnchorPolicy ev)).
  set (anchorBudget := match evAnchorPolicy ev with AnchorsFirst => _ | AnchorsCapped => budget end).
  destruct (keepAnchors_spec anchorBudget top 0 ∅) as (o & Ho & H1 & H2 & H3 & H4).
  destruct (keepAnchors ev unf anchorBudget top 0 ∅) as [used anchors] eqn:E. cbn [fst snd] in H1, H2. rewrite Z.add_0_l in *. rewrite (union_empty_l_L (anchorKeys o top)) in H2. subst used anchors.
  set (r0 := mkRetention top (anchorKeys o top) 0 0). set (bound := budget - anchorCost o top).
  assert (Hk : kept_so_far r0 top top 0 bound).
  { split_and!; [cbn; lia|cbn; lia|by left|lia| |lia|lia]. unfold groupCost. rewrite Nat.sub_diag. cbn. unfold sum. cbn. lia. }
  destruct (keepGroups_spec top bound top top r0 0 true Hk) as (Ha & at' & spent & Hc & Hb & Hns & Hg & Hsp). rewrite Z.sub_0_r in *.
  set (r := keepGroups ev unf top top r0 bound true) in *. exists o. split_and!; [done|done|done|done|lia|done| | |].
  - rewrite (groupCost_cut r at' (rtCut r) top) in Hg by lia. pose proof (groupCost_nonneg r at' (rtCut r)). lia.
  - intros i Hi. specialize (Hns i ltac:(lia)). unfold group_stops in Hns. destruct (fixed ev unf i); [by left|]. destruct (keeps r (source_at ev i)); [by right; left|].
    right; right. cbn in Hns. by apply orb_false_iff in Hns.
  - intros i Hi. unfold top in Hi. destruct (evAnchorPolicy ev); [by eapply inputCut_above|lia].
Qed.
End retained.
