(* ===== verification/FoldRead.v ===== *)
(** * What a compaction pass reads

    Models [internal/agent/context/compaction/fold_read.go]: the messages a
    pass sends its summarizer.  A call group larger than a fork can read is cut:
    its texts, results and arguments keep their head and tail, until it fits.

    A result and the arguments of a call are values of the model SDK; the class
    [SDKValues] says what the code reads from them and builds. *)

From S2P Require Import Prelude GoStr GoTrim Prune ToolOutput ContextFrag Admission TimelineCompose FoldRetain.
#[local] Open Scope Z_scope.

Class SDKValues : Type := {
  result_string : str -> str;              (** [ToolOutput.String] *)
  result_text : str -> str;                (** [ToolOutput.Text] *)
  result_json : str -> option str;         (** [ToolOutput.JSON], when it [IsJSON] *)
  json_decode : str -> option value;       (** [json.Unmarshal] into an [any] *)
  JSONOutput : value -> option str;        (** [sdk.JSONOutput], if it succeeds *)
  input_string : str -> str;               (** [ToolArguments.String] *)
  input_object : str -> value;             (** [ToolArguments.Object] *)
  input_decode : str -> option value;      (** [ToolArguments.Unmarshal] into an [any] *)
  ParseToolArguments : str -> str }.

Section read.
Context {X : Externals} {K : SDK} {V : SDKValues}.

(** ** Cutting a group *)
Definition partBytes (part : MessagePart) : option Z :=
  match part with
  | TextPart text => Some (slen text)
  | ToolResultPart _ _ result _ => Some (slen (result_string result))
  | ToolCallPart _ _ input => Some (slen (input_string input))
  | _ => None
  end.
Definition sort_sizes (sizes : list Z) : list Z := stable_sort Z.ltb sizes.
Fixpoint shareLoop (sorted : list Z) (left budget : Z) : Z :=
  match sorted with
  | [] => budget
  | size :: r =>
      let share := Z.quot left (Z.of_nat (length sorted)) in
      if share <? size then share else shareLoop r (left - size) budget
  end.
Definition partShare (sizes : list Z) (budget : Z) : Z := shareLoop (sort_sizes sizes) budget budget.
Definition cutOutput (output : str) (limit : ToolOutputLimit) : str :=
  let v := match result_json output with
           | Some json => match json_decode json with Some v => v | None => VString json end
           | None => VString (result_text output)
           end in
  match LimitToolOutput v (lit "tool result") limit with
  | VString text => text_output text
  | limited => match JSONOutput limited with Some document => document | None => text_output (MarshalString limited) end
  end.
(** What is limited was decoded from JSON, so it encodes. *)
Definition cutArguments (arguments : str) (limit : ToolOutputLimit) : str :=
  if negb (EncodedExceeds (input_object arguments) limit) then arguments
  else
    let v := default (VString (input_string arguments)) (input_decode arguments) in
    let limited := LimitToolOutput v (lit "tool call arguments") limit in
    let limited := match limited with VMap _ _ => limited | _ => VMap false [(lit "truncated_arguments", limited)] end in
    ParseToolArguments (MarshalString limited).
Definition cutPart (role : str) (limit : ToolOutputLimit) (part : MessagePart) : list MessagePart :=
  match part with
  | TextPart text => [TextPart (LimitString text (lit "message") limit)]
  | ToolResultPart id name result isError => [ToolResultPart id name (cutOutput result limit) isError]
  | ToolCallPart id name input => [ToolCallPart id name (cutArguments input limit)]
  | ImagePart _ | FilePart _ _ => if negb (str_eqb role MessageRoleTool) then [TextPart (lit "[media]")] else []
  | _ => [part]
  end.
Definition cutParts (message : Message) (limit : ToolOutputLimit) : Message :=
  mkMessage (msgRole message) (flat_map (cutPart (msgRole message) limit) (msgContent message)).
Definition group_sizes (group : list Message) : list Z := flat_map (fun m => omap partBytes (msgContent m)) group.
Definition is_reasoning (part : MessagePart) : bool := match part with ReasoningPart _ => true | _ => false end.
Definition reasoning_of (group : list Message) : list Message :=
  flat_map (fun m => match List.filter is_reasoning (msgContent m) with [] => [] | content => [mkMessage (msgRole m) content] end) group.
Definition cutLimit (sizes : list Z) (budget : Z) : ToolOutputLimit :=
  NormalizedLimit (mkLimit (partShare sizes (Z.quot (budget * 3) 4)) 0).
(** [shortest] is [None] for [math.MaxInt]; [None] is a group no cut fits. *)
Fixpoint cutLoop (fuel : nat) (group : list Message) (sizes : list Z) (capTokens : Z) (shortest : option Z) (budget : Z) : option (list Message) :=
  match fuel with
  | O => None
  | S fuel =>
      let limit := cutLimit sizes budget in
      if match shortest with Some s => s <=? loMaxBytes limit | None => false end then None
      else
        let read := (fun m => cutParts m limit) <$> group in
        let tokens := messagesTokens read in
        if tokens <=? capTokens then Some read
        else cutLoop fuel group sizes capTokens (Some (loMaxBytes limit)) (Z.quot (Z.quot (budget * capTokens) tokens * 9) 10)
  end.
(** The limit shrinks with every cut and never below [minToolOutputMaxBytes]. *)
Definition cutFuel (sizes : list Z) (budget : Z) : nat := S (S (Z.to_nat (loMaxBytes (cutLimit sizes budget)))).
Definition cutGroup (group : list Message) (capTokens : Z) : option (list Message) :=
  let sizes := group_sizes group in
  let reasoning := reasoning_of group in
  let room := match reasoning with [] => capTokens | _ => capTokens - messagesTokens reasoning end in
  if room <=? 0 then None
  else
    let budget := ProviderBudgetBytesForTokens room in
    cutLoop (cutFuel sizes budget) group sizes capTokens None budget.

(** ** Reading a request *)
Definition forkGroupCap (ev : Event) : Z :=
  let fixed := pick (fun i => sourceless (source_at ev i)) (take (evCut ev) (messages_of ev)) in
  Z.max (evWindow ev - envelopeTokens ev fixed - summaryBudget ev - forkInstructionReserve - leastOutput ev) minForkOutputTokens.
(** The first place from [end_] on where a read may end; [messages] ends at one. *)
Fixpoint groupEnd (fuel : nat) (messages : list Message) (end_ : nat) : nat :=
  match fuel with
  | O => end_
  | S fuel => if foldBoundary messages end_ then end_ else groupEnd fuel messages (S end_)
  end.
Definition group_at (ev : Event) (start end_ : nat) : list nat :=
  List.filter (fun i => negb (sourceless (source_at ev i))) (seq start (end_ - start)).
Definition message_at (messages : list Message) (i : nat) : list Message := match messages !! i with Some m => [m] | None => [] end.
(** [read[i] = cut[j]] for the indices of a group. *)
Definition write_back (read : list Message) (at_ : list nat) (cut : list Message) : list Message :=
  fold_left (fun read ic => <[ic.1 := ic.2]> read) (zip at_ cut) read.
Fixpoint readLoop (fuel : nat) (ev : Event) (capTokens : Z) (messages : list Message) (start : nat) (read : list Message) : result EventError (list Message) :=
  match fuel with
  | O => Ok read
  | S fuel =>
      if (length messages <=? start)%nat then Ok read
      else
        let end_ := groupEnd (length messages) messages (S start) in
        let at_ := group_at ev start end_ in
        let group := flat_map (message_at messages) at_ in
        if capTokens <? messagesTokens group then
          match cutGroup group capTokens with
          | None => Err (failed ReasonInputOverflow (GroupDoesNotFit start capTokens))
          | Some cut => readLoop fuel ev capTokens messages end_ (write_back read at_ cut)
          end
        else readLoop fuel ev capTokens messages end_ read
  end.
Definition forkRead (ev : Event) : result EventError (list Message) :=
  let messages := take (evCut ev) (messages_of ev) in
  readLoop (length messages) ev (forkGroupCap ev) messages 0 messages.
End read.

(** ** Sharing a budget *)
Definition share_cost (s : Z) (sizes : list Z) : Z := sum ((fun x => Z.min x s) <$> sizes).
Lemma share_cost_perm s l k : l ≡ₚ k -> share_cost s l = share_cost s k.
Proof. unfold share_cost, sum. intros H. induction H; cbn in *; lia. Qed.
Lemma sorted_sizes l : Sorted Z.le (sort_sizes l).
Proof.
  unfold sort_sizes. induction l as [|x l IH]; cbn [stable_sort]; [constructor|]. induction (stable_sort Z.ltb l) as [|y k IHk]; cbn [insert_stable]; [by repeat constructor|].
  destruct (Z.ltb_spec y x); [|constructor; [done|constructor; lia]]. apply Sorted_inv in IH as [H1 H2]. constructor; [by apply IHk|].
  destruct k as [|z k]; cbn [insert_stable]; [constructor; lia|]. inversion H2; subst. destruct (z <? x); constructor; lia.
Qed.
Lemma share_cost_flat s l : Forall (fun x => s <= x) l -> share_cost s l = s * Z.of_nat (length l).
Proof. unfold share_cost, sum. induction 1 as [|x l Hx _ IH]; cbn [fmap list_fmap fold_right length] in *; [lia|]. rewrite IH. lia. Qed.
Lemma shareLoop_spec sorted left budget : Sorted Z.le sorted -> 0 <= left <= budget -> Forall (fun x => 0 <= x) sorted ->
  let s := shareLoop sorted left budget in
  match sorted with [] => budget | _ => left / Z.of_nat (length sorted) end <= s /\
  (sum sorted <= left /\ Forall (fun x => x <= s) sorted /\ s = budget \/ share_cost s sorted <= left < share_cost (s + 1) sorted).
Proof.
  revert left. induction sorted as [|x l IH]; intros left Hs Hl Hx; cbn [shareLoop].
  { cbn. split; [lia|]. left. split; [unfold sum; cbn; lia|done]. }
  apply Sorted_StronglySorted in Hs as Hss; [|intros a b c; lia]. apply StronglySorted_inv in Hss as [_ Hge]. apply Sorted_inv in Hs as [Hs _]. apply Forall_cons in Hx as [H0 Hx].
  set (k := Z.of_nat (length (x :: l))). assert (Hk : k = Z.of_nat (length l) + 1) by (unfold k; cbn [length]; lia). rewrite Z.quot_div_nonneg by lia. cbv zeta.
  destruct (Z.ltb_spec (left / k) x) as [Hlt|Hle].
  - fold k. split; [lia|]. right.
    assert (Hall : Forall (fun y => left / k + 1 <= y) (x :: l)) by (constructor; [lia|]; eapply Forall_impl; [exact Hge|]; intros y Hy; cbn in Hy; lia).
    rewrite (share_cost_flat (left / k + 1)) by done. rewrite share_cost_flat by (eapply Forall_impl; [exact Hall|]; intros y Hy; cbn in Hy; lia). fold k.
    split; [rewrite Z.mul_comm; apply Z.mul_div_le; lia|]. pose proof (Z.mul_succ_div_gt left k). lia.
  - assert (Hdiv : left / k * k <= left) by (rewrite Z.mul_comm; apply Z.mul_div_le; lia).
    assert (Hgrow : left / k <= match l with [] => budget | _ => (left - x) / Z.of_nat (length l) end).
    { destruct l as [|y l]; [nia|]. replace (Z.of_nat (length (y :: l))) with (k - 1) by lia. apply Z.div_le_lower_bound; [cbn [length] in *; lia|]. nia. }
    destruct (IH (left - x)) as [H1 H2]; [done|nia|done|]. cbv zeta in *. set (s := shareLoop l (left - x) budget) in *.
    fold k. split; [lia|]. assert (Hxs : x <= s) by lia.
    destruct H2 as [(H2 & H3 & H4)|H2]; [left|right].
    + split; [unfold sum in *; cbn; lia|]. by split; [constructor|].
    + unfold share_cost, sum in *. cbn [fmap list_fmap fold_right]. lia.
Qed.
(** the parts of a group share a budget as evenly as they can: cut to the
    share they stay within it, and the share is the largest that does so,
    unless they fit whole. *)
Theorem shares_are_largest sizes budget (Hsizes : Forall (fun x => 0 <= x) sizes) (Hbudget : 0 <= budget) :
  let s := partShare sizes budget in
  share_cost s sizes <= budget /\ (Forall (fun x => x <= s) sizes \/ budget < share_cost (s + 1) sizes).
Proof.
  cbv zeta. unfold partShare. pose proof (stable_sort_perm Z.ltb sizes) as Hp. fold (sort_sizes sizes) in Hp. set (s := shareLoop _ _ _).
  destruct (shareLoop_spec (sort_sizes sizes) budget budget) as [_ H]; [apply sorted_sizes|lia|by rewrite Hp|]. fold s in H. clearbody s.
  rewrite <- !(share_cost_perm _ _ _ Hp). destruct H as [(H1 & H2 & H3)|[H1 H2]]; [|split; [done|by right]]. split; [|left; by rewrite <- Hp].
  etransitivity; [|exact H1]. unfold share_cost, sum. clear -H2. induction H2; cbn in *; lia.
Qed.
Lemma shares_are_largest_witness : partShare [10; 3; 50; 40] 60 = 23 /\
  (let s := partShare [10; 3; 50; 40] 60 in share_cost s [10; 3; 50; 40] <= 60 /\ (Forall (fun x => x <= s) [10; 3; 50; 40] \/ 60 < share_cost (s + 1) [10; 3; 50; 40])).
Proof. split; [by vm_compute|]. apply (shares_are_largest [10; 3; 50; 40] 60); [repeat constructor; lia|lia]. Defined.

(** ** What a cut keeps *)
Section cut.
Context {X : Externals} {K : SDK} {V : SDKValues}.
(** What a provider checks of a message: its role, its calls and results in
    their order, and its reasoning as it was signed. *)
Inductive mark : Type := MCall (id name : str) | MResult (id name : str) (isError : bool) | MReasoning (text : str) | MOther (payload : str).
Definition part_mark (part : MessagePart) : option mark :=
  match part with
  | ToolCallPart id name _ => Some (MCall id name)
  | ToolResultPart id name _ e => Some (MResult id name e)
  | ReasoningPart text => Some (MReasoning text)
  | OtherPart payload => Some (MOther payload)
  | _ => None
  end.
Definition skeleton (m : Message) : str * list mark := (msgRole m, omap part_mark (msgContent m)).
Lemma omap_app' {A B} (f : A -> option B) l k : omap f (l ++ k) = omap f l ++ omap f k.
Proof. induction l as [|x l IH]; [done|]. cbn. destruct (f x); cbn; by rewrite IH. Qed.
Lemma cutParts_skeleton m limit : skeleton (cutParts m limit) = skeleton m.
Proof.
  unfold skeleton, cutParts. cbn [msgRole msgContent]. f_equal. induction (msgContent m) as [|p l IH]; [done|]. cbn [flat_map]. rewrite omap_app', IH.
  destruct p; cbn; try done; by destruct (negb _).
Qed.
Lemma config_limit l : minToolOutputMaxBytes <= loMaxBytes (NormalizedLimit l).
Proof. apply config_MaxBytes. Qed.

Lemma cutLoop_spec fuel group sizes cap shortest budget read : cutLoop fuel group sizes cap shortest budget = Some read ->
  messagesTokens read <= cap /\ skeleton <$> read = skeleton <$> group.
Proof.
  revert shortest budget. induction fuel as [|fuel IH]; intros shortest budget; cbn [cutLoop]; [done|]. cbv zeta. destruct (match shortest with Some _ => _ | None => _ end); [done|].
  destruct (Z.leb_spec (messagesTokens ((fun m => cutParts m (cutLimit sizes budget)) <$> group)) cap) as [H|_]; [|apply IH].
  intros [= <-]. split; [done|]. rewrite <- list_fmap_compose. apply list_fmap_ext. intros i m _. apply cutParts_skeleton.
Qed.
Lemma cutGroup_spec group cap read : cutGroup group cap = Some read -> messagesTokens read <= cap /\ skeleton <$> read = skeleton <$> group.
Proof. unfold cutGroup. cbv zeta. destruct (_ <=? 0); [done|]. apply cutLoop_spec. Qed.
(** Every round cuts shorter than the last: with the fuel there is the loop
    ends by itself. *)
Lemma cutLoop_enough fuel fuel' group sizes cap shortest budget :
  (match shortest with Some s => s | None => loMaxBytes (cutLimit sizes budget) + 1 end <= Z.of_nat fuel) -> (fuel <= fuel')%nat ->
  cutLoop fuel group sizes cap shortest budget = cutLoop fuel' group sizes cap shortest budget.
Proof.
  revert fuel' shortest budget. induction fuel as [|fuel IH]; intros [|fuel'] shortest budget Hf Hle; try done; [|lia|]; cbn [cutLoop]; cbv zeta;
    pose proof (config_limit (mkLimit (partShare sizes (Z.quot (budget * 3) 4)) 0)) as Hc; fold (cutLimit sizes budget) in Hc; unfold minToolOutputMaxBytes in Hc.
  - destruct shortest as [s|]; [|lia]. by rewrite (proj2 (Z.leb_le s _)) by lia.
  - destruct shortest as [s|]; [destruct (Z.leb_spec s (loMaxBytes (cutLimit sizes budget))); [done|]|]; (destruct (_ <=? cap); [done|]; apply IH; lia).
Qed.
(** cutting a group ends, by finding a cut that fits or one that cannot be
    made shorter: more steps than the cut is given change nothing. *)
Theorem cut_ends group capTokens more :
  let sizes := group_sizes group in
  let reasoning := reasoning_of group in
  let room := match reasoning with [] => capTokens | _ => capTokens - messagesTokens reasoning end in
  let budget := ProviderBudgetBytesForTokens room in
  cutGroup group capTokens = if room <=? 0 then None else cutLoop (cutFuel sizes budget + more) group sizes capTokens None budget.
Proof.
  cbv zeta. unfold cutGroup. cbv zeta. destruct (_ <=? 0); [done|]. set (budget := ProviderBudgetBytesForTokens _). apply cutLoop_enough; [|lia]. unfold cutFuel. lia.
Qed.
End cut.

(** ** What a read keeps *)
Lemma message_at_fmap {A} (f : Message -> A) l at_ : f <$> flat_map (message_at l) at_ = omap (fun i => (f <$> l) !! i) at_.
Proof. induction at_ as [|i at_ IH]; [done|]. cbn [flat_map]. rewrite fmap_app, IH. cbn. rewrite list_lookup_fmap. unfold message_at. by destruct (l !! i). Qed.
Lemma write_back_fmap {A} (f : Message -> A) at_ cut read : Forall (fun i => i < length read)%nat at_ ->
  f <$> cut = f <$> flat_map (message_at read) at_ -> f <$> write_back read at_ cut = f <$> read.
Proof.
  unfold write_back. revert cut read. induction at_ as [|i at_ IH]; intros cut read Hlt Hf; [done|]. destruct cut as [|c cut]; [done|]. cbn [zip zip_with fold_left fst snd].
  apply Forall_cons in Hlt as [Hi Hlt]. destruct (lookup_lt_is_Some_2 _ _ Hi) as [m Hm]. rewrite message_at_fmap in Hf. cbn [omap list_omap] in Hf. rewrite list_lookup_fmap, Hm in Hf.
  cbn in Hf. injection Hf as Hc Hf. assert (Hr : f <$> <[i:=c]> read = f <$> read) by (rewrite list_fmap_insert, Hc; apply list_insert_id; by rewrite list_lookup_fmap, Hm).
  rewrite IH; [done|by rewrite length_insert|]. by rewrite message_at_fmap, Hr.
Qed.
Lemma write_back_other at_ cut read i : i ∉ at_ -> write_back read at_ cut !! i = read !! i.
Proof.
  unfold write_back. revert cut read. induction at_ as [|j at_ IH]; intros cut read Hi; [done|]. destruct cut as [|c cut]; [done|]. apply not_elem_of_cons in Hi as [Hij Hi].
  cbn [zip zip_with fold_left fst snd]. rewrite IH by done. by apply list_lookup_insert_ne.
Qed.
Lemma flat_message_at_ext l k at_ : (forall i, i ∈ at_ -> l !! i = k !! i) -> flat_map (message_at l) at_ = flat_map (message_at k) at_.
Proof.
  induction at_ as [|i at_ IH]; intros H; [done|]. cbn [flat_map]. rewrite IH; [|intros j Hj; apply H; by right]. unfold message_at. rewrite H; [done|by left].
Qed.
Lemma write_back_read at_ cut read : NoDup at_ -> Forall (fun i => i < length read)%nat at_ -> length cut = length at_ -> flat_map (message_at (write_back read at_ cut)) at_ = cut.
Proof.
  revert cut read. induction at_ as [|i at_ IH]; intros cut read Hn Hlt Hl; [by destruct cut|]. destruct cut as [|c cut]; [done|]. apply NoDup_cons in Hn as [Hi Hn].
  apply Forall_cons in Hlt as [Hir Hlt]. change (write_back read (i :: at_) (c :: cut)) with (write_back (<[i:=c]> read) at_ cut). cbn [flat_map].
  rewrite IH; [|done|by rewrite length_insert|by injection Hl]. unfold message_at. rewrite write_back_other by done. by rewrite list_lookup_insert_eq.
Qed.
Lemma write_back_length at_ cut read : length (write_back read at_ cut) = length read.
Proof. unfold write_back. revert read. induction (zip at_ cut) as [|p l IH]; intros read; [done|]. cbn [fold_left]. rewrite IH. apply length_insert. Qed.

(** The messages from [a] to [b] are a call group: a read may end before
    either and nowhere between. *)
Definition is_group (messages : list Message) (a b : nat) : Prop :=
  (a = 0%nat \/ foldBoundary messages a = true) /\ (a < b)%nat /\ foldBoundary messages b = true /\ forall c, (a < c < b)%nat -> foldBoundary messages c = false.
Lemma boundary_end messages : messages <> [] -> foldBoundary messages (length messages) = true.
Proof.
  intros H. unfold foldBoundary. destruct messages as [|m l]; [done|]. rewrite (proj2 (Nat.ltb_ge _ _)) by lia. cbn [length Nat.eqb orb]. by rewrite lookup_ge_None_2 by (cbn; lia).
Qed.
Lemma groupEnd_spec fuel messages e : (0 < e)%nat -> (e <= length messages <= e + fuel)%nat ->
  let b := groupEnd fuel messages e in (e <= b <= length messages)%nat /\ foldBoundary messages b = true /\ forall c, (e <= c < b)%nat -> foldBoundary messages c = false.
Proof.
  revert e. induction fuel as [|fuel IH]; intros e H0 He; cbn [groupEnd].
  - assert (e = length messages) as -> by (cbn in He; lia). split_and!; [lia|lia| |intros; lia]. apply boundary_end. destruct messages; [cbn in *; lia|done].
  - destruct (foldBoundary messages e) eqn:E; [split_and!; [lia|lia|done|intros; lia]|]. assert (e <> length messages).
    { intros ->. rewrite boundary_end in E; [done|]. destruct messages; [cbn in *; lia|done]. }
    destruct (IH (S e)) as (H1 & H2 & H3); [lia|lia|]. split_and!; [lia|lia|done|]. intros c Hc. destruct (decide (c = e)) as [->|]; [done|]. apply H3. lia.
Qed.
Lemma group_at_spec ev a b i : i ∈ group_at ev a b <-> (a <= i < b)%nat /\ sourceless (source_at ev i) = false.
Proof. unfold group_at. rewrite list_elem_of_In, filter_In, in_seq, negb_true_iff. split; intros [H1 H2]; (split; [lia|done]). Qed.
Lemma group_at_NoDup ev a b : NoDup (group_at ev a b).
Proof. unfold group_at. apply NoDup_ListNoDup, List.NoDup_filter, NoDup_ListNoDup, NoDup_seq. Qed.

Section forked.
Context {X : Externals} {K : SDK} {V : SDKValues} (ev : Event).
Definition group_of (messages : list Message) (a b : nat) : list Message := flat_map (message_at messages) (group_at ev a b).
(** What a fork reads of the messages before [upto]. *)
Definition faithful_read (cap : Z) (messages read : list Message) (upto : nat) : Prop :=
  skeleton <$> read = skeleton <$> messages /\
  (forall i, (upto <= i)%nat \/ sourceless (source_at ev i) = true -> read !! i = messages !! i) /\
  forall a b, is_group messages a b -> (b <= upto)%nat -> messagesTokens (group_of read a b) <= cap /\
    (group_of read a b = group_of messages a b \/ cap < messagesTokens (group_of messages a b)).
Lemma faithful_step cap messages read start b cut : is_group messages start b -> (b <= length messages)%nat -> faithful_read cap messages read start ->
  let group := group_of messages start b in
  match cut with
  | Some cut => cap < messagesTokens group /\ messagesTokens cut <= cap /\ skeleton <$> cut = skeleton <$> group
  | None => messagesTokens group <= cap
  end ->
  faithful_read cap messages match cut with Some cut => write_back read (group_at ev start b) cut | None => read end b.
Proof.
  intros (Hg1 & Hg2 & Hg3 & Hg4) Hb (R1 & R2 & R3). cbv zeta. intros Hcut. set (at_ := group_at ev start b) in *. set (read' := match cut with Some _ => _ | None => read end).
  assert (Hlen : length read = length messages) by (apply (f_equal length) in R1; by rewrite !length_fmap in R1).
  assert (Hin : Forall (fun i => i < length read)%nat at_) by (apply Forall_forall; intros i Hi; apply group_at_spec in Hi; lia).
  assert (Hsame : flat_map (message_at read) at_ = group_of messages start b) by (apply flat_message_at_ext; intros i Hi; apply group_at_spec in Hi; apply R2; lia).
  assert (Hother : forall i, i ∉ at_ -> read' !! i = read !! i) by (intros i Hi; unfold read'; destruct cut; [by apply write_back_other|done]).
  assert (Hnew : group_of read' start b = match cut with Some cut => cut | None => group_of messages start b end).
  { unfold read'. destruct cut as [cut|]; [|exact Hsame]. apply write_back_read; [apply group_at_NoDup|done|]. destruct Hcut as (_ & _ & Hsk). apply (f_equal length) in Hsk.
    rewrite !length_fmap in Hsk. rewrite Hsk. unfold group_of. fold at_. clear -Hin Hlen. rewrite Hlen in Hin. induction Hin as [|i l Hi _ IH]; [done|]. cbn [flat_map length].
    rewrite length_app, IH. unfold message_at. destruct (lookup_lt_is_Some_2 _ _ Hi) as [m ->]. done. }
  split_and!.
  - unfold read'. destruct cut as [cut|]; [|done]. rewrite write_back_fmap; [done|done|]. rewrite Hsame. apply Hcut.
  - intros i Hi. rewrite Hother; [apply R2; destruct Hi; [left; lia|by right]|]. intros Ha. apply group_at_spec in Ha as [Ha1 Ha2]. destruct Hi as [Hi|Hi]; [lia|congruence].
  - intros a c (G1 & G2 & G3 & G4) Hc. destruct (decide (c <= start)%nat) as [Hle|Hgt].
    + assert (He : group_of read' a c = group_of read a c) by (apply flat_message_at_ext; intros i Hi; apply group_at_spec in Hi; apply Hother; intros Hi'; apply group_at_spec in Hi'; lia).
      rewrite He. by apply R3.
    + assert (a = start) as ->.
      { destruct (lt_eq_lt_dec a start) as [[Hlt|]|Hlt]; [|done|].
        - destruct Hg1 as [|Hg1]; [lia|]. rewrite G4 in Hg1 by lia. done.
        - destruct G1 as [|G1]; [lia|]. rewrite Hg4 in G1 by lia. done. }
      assert (c = b) as -> by (destruct (decide (c = b)) as [|Hne]; [done|]; rewrite Hg4 in G3 by lia; done).
      rewrite Hnew. destruct cut as [cut|]; [|by split; [|left]]. destruct Hcut as (H1 & H2 & _). split; [done|by right].
Qed.
Lemma faithful_all cap messages read start : (length messages <= start)%nat -> faithful_read cap messages read start -> faithful_read cap messages read (length messages).
Proof.
  intros Hge (R1 & R2 & R3). split_and!; [done| |intros a b Hg Hb; apply R3; [done|lia]]. intros i [Hi|Hi]; [|apply R2; by right].
  assert (length read = length messages) by (apply (f_equal length) in R1; by rewrite !length_fmap in R1). by rewrite !lookup_ge_None_2 by lia.
Qed.
Lemma readLoop_spec fuel cap messages start read : (length messages <= start + fuel)%nat -> (start = 0%nat \/ foldBoundary messages start = true) ->
  faithful_read cap messages read start ->
  match readLoop fuel ev cap messages start read with
  | Ok read' => faithful_read cap messages read' (length messages)
  | Err e => eeReason e = Some ReasonInputOverflow /\ exists a b, is_group messages a b /\ cap < messagesTokens (group_of messages a b) /\ cutGroup (group_of messages a b) cap = None
  end.
Proof.
  revert start read. induction fuel as [|fuel IH]; intros start read Hf Hs Hr; cbn [readLoop].
  { apply (faithful_all _ _ _ start); [lia|done]. }
  destruct (Nat.leb_spec (length messages) start) as [Hge|Hlt]; [by apply (faithful_all _ _ _ start)|].
  cbv zeta. destruct (groupEnd_spec (length messages) messages (S start)) as (E1 & E2 & E3); [lia|lia|]. set (b := groupEnd _ _ _) in *.
  assert (Hg : is_group messages start b) by (split_and!; [done|lia|done|intros c Hc; apply E3; lia]).
  fold (group_of messages start b). destruct (Z.ltb_spec cap (messagesTokens (group_of messages start b))) as [Hover|Hfit].
  - destruct (cutGroup (group_of messages start b) cap) as [cut|] eqn:Ec; [|split; [done|]; by exists start, b].
    apply IH; [lia|by right|]. apply cutGroup_spec in Ec as [H1 H2]. by apply (faithful_step cap messages read start b (Some cut)); [|lia|..].
  - apply IH; [lia|by right|]. by apply (faithful_step cap messages read start b None); [|lia|..].
Qed.

(** C10: what a pass sends of the request: every message with its role, calls,
    results and reasoning in their order; runtime context and every group that
    fits untouched; and no group larger than a fork can read.  It fails only
    on a group that no cut brings within that. *)
Theorem fork_reads_faithfully :
  let messages := take (evCut ev) (messages_of ev) in
  match forkRead ev with
  | Ok read => faithful_read (forkGroupCap ev) messages read (length messages)
  | Err e => eeReason e = Some ReasonInputOverflow /\ exists a b, is_group messages a b /\
      forkGroupCap ev < messagesTokens (group_of messages a b) /\ cutGroup (group_of messages a b) (forkGroupCap ev) = None
  end.
Proof.
  cbv zeta. unfold forkRead. apply readLoop_spec; [lia|by left|]. split_and!; [done|done|]. intros a b (_ & Hab & _) Hb. lia.
Qed.
End forked.
