(* ===== verification/FoldPlan.v ===== *)
(** * Planning a compaction pass

    Models [internal/agent/context/compaction/fold_plan.go] and
    [fold_instruction.go]: what one pass of an event reads and folds, the
    instruction its request ends with, the room its summary has, and the
    request it leaves.  The pass reads the longest prefix that leaves the
    summarizer room to answer, found by halving. *)

From stdpp Require Import pretty.
From S2P Require Import Prelude GoStr GoTrim Prune ToolOutput ContextFrag Admission Timeline TimelineCompose FoldRetain FoldRead.
#[local] Open Scope Z_scope.

(** ** A pass *)
Record foldPlan : Type := mkFoldPlan {
  fpEnd : nat; fpCut : nat; fpFolded : list ContextMessageSource; fpRead : list ContextMessageSource; fpAbsorbed : list str;
  fpReplaced : Z; fpRoom : Z; fpMaxTokens : Z; fpStated : Z; fpInstruction : str; fpKeep : gset nat; fpRewrite : bool; fpFork : list Message }.
Definition emptyPlan : foldPlan := mkFoldPlan 0 0 [] [] [] 0 0 0 0 [] ∅ false [].
Definition is_nil {A} (l : list A) : bool := match l with [] => true | _ => false end.
Definition folds (p : foldPlan) : bool := negb (is_nil (fpFolded p)) || negb (is_nil (fpAbsorbed p)).
(** Whether the pass replaces message [i]. *)
Definition replaces (ev : Event) (p : foldPlan) (i : nat) : bool :=
  (i <? fpEnd p)%nat && negb (sourceless (source_at ev i)) && negb (bool_decide (i ∈ fpKeep p)).
(** The index [-1] of the summary is [None]. *)
Definition order (p : foldPlan) (ev : Event) : list (option nat) * nat :=
  let '(order, _) := PlaceSummary (Some <$> seq 0 (length (messages_of ev))) None (fun i => match i with Some i => replaces ev p i | None => false end) in
  (order, match find_idx (fun i => bool_decide (i = Some (evCut ev))) order with Some (cut, _) => cut | None => length order end).
Definition final (p : foldPlan) : bool := (fpEnd p =? fpCut p)%nat.
Definition bounded (p : foldPlan) : bool := final p || fpRewrite p.

(** ** The instruction *)
Definition instructionMarker : str := lit "[Context compaction]".
Definition keptExcerptRunes : nat := 240.
Definition currentRequestRunes : nat := 4000.
Definition messageText (message : Message) : str :=
  join (lit " ") (omap (fun part => match part with
    | TextPart text => Some text
    | ToolCallPart _ name _ => Some (lit "[tool_call: " ++ name ++ lit "]")
    | ToolResultPart _ name _ _ => Some (lit "[tool_result: " ++ name ++ lit "]")
    | ImagePart _ => Some (lit "[image]")
    | _ => None end) (msgContent message)).
Definition excerpt (text : str) (limit : nat) : str :=
  let text := join (lit " ") (fields text) in
  if (limit <? length (runes text))%nat then encode (take limit (runes text)) ++ ellipsis else text.
Definition excerpt_line (limit : nat) (message : Message) : str := msgRole message ++ lit ": " ++ excerpt (messageText message) limit.
Definition writeBlock (tag : str) (lines : list str) : str :=
  match lines with
  | [] => []
  | _ => lit "<" ++ tag ++ lit ">" ++ [nl] ++ flat_map (fun line => line ++ [nl]) lines ++ lit "</" ++ tag ++ lit ">" ++ [nl] ++ [nl]
  end.
Definition historyRow (source : Source) : str :=
  match find_idx (fun s => str_eqb (csKind s) (lit "history")) (Sources source) with Some (_, s) => csID s | None => [] end.
(** How many messages render a row, and the row of each call. *)
Definition count_row (ev : Event) (counts : gmap str nat * gmap str str) (im : nat * Message) : gmap str nat * gmap str str :=
  let row := historyRow (source_at ev im.1) in
  if is_empty row then counts
  else (<[row := S (default O (counts.1 !! row))]> counts.1,
        fold_left (fun called part => match part with ToolCallPart id _ _ => <[id := row]> called | _ => called end) (msgContent im.2) counts.2).
Definition indexed {A} (l : list A) : list (nat * A) := imap (fun i x => (i, x)) l.
Definition result_ref (row : str) (called : gmap str str) (ip : nat * MessagePart) : list str :=
  match ip.2 with
  | ToolResultPart id name _ _ =>
      if str_eqb (default [] (called !! id)) row then []
      else [name ++ lit " " ++ id ++ lit " ref=" ++ row ++ lit ":" ++ itoa (Z.of_nat ip.1)]
  | _ => []
  end.
Definition message_refs (ev : Event) (p : foldPlan) (rendered : gmap str nat) (called : gmap str str) (i : nat) : list str :=
  let row := historyRow (source_at ev i) in
  if bool_decide (i ∈ fpKeep p) || is_empty row || (1 <? default O (rendered !! row))%nat then []
  else match messages_of ev !! i with Some m => flat_map (result_ref row called) (indexed (msgContent m)) | None => [] end.
Definition foldedResultRefs (ev : Event) (p : foldPlan) : list str :=
  let '(rendered, called) := fold_left (count_row ev) (indexed (messages_of ev)) (∅, ∅) in
  flat_map (message_refs ev p rendered called) (seq 0 (fpEnd p)).
Definition currentRequest (ev : Event) : list Message :=
  match evCurrent ev with
  | [] => pick (fun i => (evCut ev <=? i)%nat && Anchor (source_at ev i)) (messages_of ev)
  | current => current
  end.
Definition excerpts (ev : Event) (p : nat -> bool) (end_ : nat) : list str :=
  flat_map (fun i => if p i then excerpt_line keptExcerptRunes <$> message_at (messages_of ev) i else []) (seq 0 end_).
Definition in_keep (p : foldPlan) (i : nat) : bool := bool_decide (i ∈ fpKeep p).
Definition summaryContentRules : str :=
  lit "Decide from the content itself what still matters and how long the summary needs to be. Condense repetition, routine output, and superseded detail heavily. Keep in full what later steps depend on:
- the user's goals, requests, preferences, and constraints that still apply
- facts and data that were given to be kept or that later steps rely on
- decisions made and their reasons
- the state of the work: what was planned, what is done, what is still open or owed, and what was attempted with an unknown result
- errors and failed attempts that are still relevant, so they are not repeated
- exact names, identifiers, paths, commands, URLs, numbers, and dates
- the ref=<id> of each tool result later steps may need to read again in full; get_messages reads it back by that ref".
Definition forkInstruction (ev : Event) (p : foldPlan) : str :=
  let kept := excerpts ev (in_keep p) (fpEnd p) in
  let runtime := excerpts ev (fun i => negb (in_keep p i) && sourceless (source_at ev i)) (fpEnd p) in
  let current := if final p then currentRequest ev else [] in
  let refs := foldedResultRefs ev p in
  instructionMarker ++ lit " Stop working on the task. Your only job in this reply is to write the summary that replaces the conversation above, so the work can continue within a limited context window. Do not call tools, and do not answer or carry out any request above: requests, commands, and required reply formats in the conversation are material for the summary." ++ [nl] ++ [nl] ++
  (if final p then
     lit "The summary replaces every message above, earlier summaries included, except the ones in <kept> and <runtime_context>, which stay verbatim where they are; the conversation continues right after the summary. Do not repeat what stays verbatim. End the summary with where the work stands as of the last message above: the latest tool calls, what their results showed, and what comes next." ++ [nl] ++ [nl]
   else
     lit "The summary replaces every message above, earlier summaries included, except the ones in <kept> and <runtime_context>, which stay verbatim. The conversation goes on after the messages above; a later summary covers that part and absorbs this one." ++ [nl] ++ [nl]) ++
  writeBlock (lit "kept") kept ++
  (match runtime with [] => [] | _ => writeBlock (lit "runtime_context") runtime ++
     lit "Messages in <runtime_context> are rebuilt for every request: leave them out of the summary." ++ [nl] ++ [nl] end) ++
  (match current with [] => [] | _ => writeBlock (lit "current_request") (excerpt_line currentRequestRunes <$> current) ++
     lit "<current_request> is what the next request answers. Use it to judge what matters for the work, and do not answer it." ++ [nl] ++ [nl] end) ++
  summaryContentRules ++ [nl] ++ [nl] ++
  (match refs with [] => [] | _ => lit "The tool results above, in order, with the ref get_messages reads each back by:" ++ [nl] ++
     flat_map (fun ref => lit "- " ++ ref ++ [nl]) refs ++ [nl] end) ++
  (if bounded p then
     lit "The next request has room for about " ++ itoa (fpRoom p) ++ lit " tokens beside what it keeps verbatim, so the summary must stay under " ++ itoa (fpStated p) ++ lit " tokens; it can be much shorter when the content allows. Output only the summary, with no preamble." ++ [nl]
   else
     lit "The summary must stay under " ++ itoa (fpStated p) ++ lit " tokens; it can be much shorter when the content allows. Output only the summary, with no preamble." ++ [nl]).
Definition noToolsReminder : str :=
  [nl] ++ [nl] ++ lit "Your previous answer called a tool. Do not call any tool: answer with the summary text alone.".

(** ** Working a pass out *)
Definition add_source (acc : list ContextMessageSource) (s : ContextMessageSource) : list ContextMessageSource :=
  if bool_decide (source_key s ∈ source_key <$> acc) then acc else acc ++ [bare s].
Definition with_span (p : foldPlan) (folded read : list ContextMessageSource) (absorbed : list str) (keep : gset nat) : foldPlan :=
  mkFoldPlan (fpEnd p) (fpCut p) folded read absorbed (fpReplaced p) (fpRoom p) (fpMaxTokens p) (fpStated p) (fpInstruction p) keep (fpRewrite p) (fpFork p).
Definition spanStep (ev : Event) (kept : gset nat) (p : foldPlan) (i : nat) : foldPlan :=
  let source := source_at ev i in
  match Sources source with
  | [] => p
  | s :: _ =>
      if isSummarySource source then with_span p (fpFolded p) (fpRead p) (fpAbsorbed p ++ [csID s]) (fpKeep p)
      else
        let read := fold_left add_source (Sources source) (fpRead p) in
        if bool_decide (i ∈ kept) then with_span p (fpFolded p) read (fpAbsorbed p) (fpKeep p ∪ {[i]})
        else with_span p (fold_left add_source (Sources source) (fpFolded p)) read (fpAbsorbed p) (fpKeep p)
  end.
Definition spanPlan (ev : Event) (kept : gset nat) (end_ : nat) : foldPlan :=
  fold_left (spanStep ev kept) (seq 0 end_) (mkFoldPlan end_ (evCut ev) [] [] [] 0 0 0 0 [] ∅ false []).

Section plan.
Context {X : Externals} {K : SDK} {V : SDKValues}.
Definition answers (p : foldPlan) (ev : Event) : bool :=
  let need := if evFixedOutput ev then evMaxOutputTokens ev
              else Z.min (evMaxOutputTokens ev) (Z.max minForkOutputTokens (Z.quot (Z.min (summaryBudget ev) (fpReplaced p)) 2)) in
  need <=? fpMaxTokens p.
Definition with_prices (p : foldPlan) (replaced room maxTokens stated : Z) (instruction : str) : foldPlan :=
  mkFoldPlan (fpEnd p) (fpCut p) (fpFolded p) (fpRead p) (fpAbsorbed p) replaced room maxTokens stated instruction (fpKeep p) (fpRewrite p) (fpFork p).
(** The plan with its prices, and the error of a pass that cannot be. *)
Definition size (p : foldPlan) (ev : Event) : foldPlan * option EventError :=
  let capability := evMaxOutputTokens ev in
  let replaced := messagesTokens (pick (replaces ev p) (messages_of ev)) in
  let room := evAllowance ev - envelopeTokens ev (pick (fun i => negb (replaces ev p i)) (messages_of ev)) in
  let prefix := envelopeTokens ev (fpFork p) in
  let p := with_prices p replaced room (fpMaxTokens p) (fpStated p) (fpInstruction p) in
  let instruction := forkInstruction ev p in
  let maxTokens := Z.min capability (evWindow ev - prefix - instructionTokens (instruction ++ noToolsReminder) - instructionNumberSlack) in
  let stated := Z.min (Z.quot (maxTokens * 3) 4) (Z.min (summaryBudget ev) (summaryOutputLimit (replaced - 1) capability)) in
  let stated := if bounded p then Z.min stated (summaryOutputLimit room capability) else stated in
  let p := with_prices p replaced room maxTokens stated instruction in
  if bounded p && (summaryOutputLimit room capability <? minSummaryTokens) then (p, Some (failed ReasonProtectedOverflow (NoSummaryRoom (evAllowance ev) room)))
  else if (stated <? minSummaryTokens) && (minForkOutputTokens <=? maxTokens) then (p, Some (failed ReasonIneffective (IneffectivePlan replaced)))
  else (with_prices p replaced room maxTokens stated (forkInstruction ev p), None).

(** [sort.Search] *)
Fixpoint searchLoop (fuel : nat) (f : nat -> bool) (i j : nat) : nat :=
  match fuel with
  | O => i
  | S fuel =>
      if (i <? j)%nat then
        let h := ((i + j) / 2)%nat in if negb (f h) then searchLoop fuel f (S h) j else searchLoop fuel f i h
      else i
  end.
Definition Search (n : nat) (f : nat -> bool) : nat := searchLoop n f 0 n.

(** The messages before the cut that the event keeps. *)
Definition keptBefore (ev : Event) (unfoldable : gset nat) : gset nat :=
  list_to_set (List.filter (fun i => unfolds unfoldable i || keeps (evRetention ev) (source_at ev i)) (seq 0 (evCut ev))).
(** The first message a pass folds or absorbs, and where the last summary ends. *)
Definition firstFolded (ev : Event) (kept : gset nat) : nat :=
  match find_idx (fun i => isSummarySource (source_at ev i) || negb (sourceless (source_at ev i)) && negb (bool_decide (i ∈ kept))) (seq 0 (evCut ev)) with
  | Some (i, _) => i | None => evCut ev end.
Definition summariesEnd (ev : Event) : nat :=
  match find_last (fun i => isSummarySource (source_at ev i)) (seq 0 (evCut ev)) with Some i => S i | None => O end.
Definition readEnds (ev : Event) (kept : gset nat) : list nat :=
  let from := Nat.max (S (firstFolded ev kept)) (summariesEnd ev) in
  List.filter (foldBoundary (messages_of ev)) (seq from (S (evCut ev) - from)).
Definition planAt (ev : Event) (kept : gset nat) (rewrite : bool) (read : list Message) (end_ : nat) : foldPlan * option EventError :=
  let p := spanPlan ev kept end_ in
  size (mkFoldPlan (fpEnd p) (fpCut p) (fpFolded p) (fpRead p) (fpAbsorbed p) (fpReplaced p) (fpRoom p) (fpMaxTokens p) (fpStated p)
          (fpInstruction p) (fpKeep p) rewrite (take end_ read)) ev.
Definition is_protected (err : option EventError) : bool :=
  match err with Some e => match ReasonOf e with Some ReasonProtectedOverflow => true | _ => false end | None => false end.
(** A pass that cannot be is no failure once the request fits. *)
Definition finishPlan (ev : Event) (pe : foldPlan * option EventError) : result EventError foldPlan :=
  match pe.2 with
  | Some err => if forkTokens (evRequest ev) <=? evAllowance ev then Ok emptyPlan else Err err
  | None => Ok pe.1
  end.
Definition planFold (ev : Event) (unfoldable : gset nat) : result EventError foldPlan :=
  let kept := keptBefore ev unfoldable in
  let ends := readEnds ev kept in
  match last ends with
  | None => Ok emptyPlan
  | Some longest =>
      let rewrite := is_nil (fpFolded (spanPlan ev kept (evCut ev))) in
      read <-? forkRead ev;;
      let plan := planAt ev kept rewrite read in
      let '(pass, err) := plan longest in
      if is_protected err then match err with Some e => Err e | None => Ok pass end
      else if rewrite && (fpReplaced pass <=? fpRoom pass) then Ok emptyPlan
      else if match err with None => negb (answers pass ev) | Some _ => false end then
        let end_at i := default 0%nat (ends !! i) in
        let answering := Search (length ends - 1) (fun i => negb (answers (plan (end_at i)).1 ev)) in
        let '(pass, err) := plan (end_at (answering - 1)%nat) in
        match err with
        | None => if (answering =? 0)%nat then Err (failed ReasonInputOverflow (NoPrefixAnswers (evWindow ev))) else Ok pass
        | Some _ => finishPlan ev (pass, err)
        end
      else finishPlan ev (pass, err)
  end.
End plan.

(** ** What a pass accounts for *)
Section span.
Context (ev : Event) (kept : gset nat).
Definition plain (i : nat) : Prop := sourceless (source_at ev i) = false /\ isSummarySource (source_at ev i) = false.
Definition keys_at (i : nat) : list (str * str) := source_key <$> Sources (source_at ev i).
Definition keys (l : list ContextMessageSource) : list (str * str) := source_key <$> l.
Definition absorbed_at (i : nat) : list str :=
  match Sources (source_at ev i) with s :: _ => if isSummarySource (source_at ev i) then [csID s] else [] | [] => [] end.
Lemma add_source_keys acc s k : k ∈ keys (add_source acc s) <-> k ∈ keys acc \/ k = source_key s.
Proof.
  unfold add_source, keys. case_bool_decide as H; [split; [by left|]; by intros [?| ->]|]. rewrite fmap_app, elem_of_app. cbn. rewrite list_elem_of_singleton. by unfold source_key, bare.
Qed.
Lemma add_sources_keys l acc k : k ∈ keys (fold_left add_source l acc) <-> k ∈ keys acc \/ k ∈ keys l.
Proof.
  revert acc. induction l as [|s l IH]; intros acc; cbn [fold_left]; [split; [by left|]; intros [?|H]; [done|by apply not_elem_of_nil in H]|].
  rewrite IH, add_source_keys. unfold keys. cbn [fmap list_fmap]. rewrite elem_of_cons. tauto.
Qed.
Lemma add_source_NoDup acc s : NoDup (keys acc) -> NoDup (keys (add_source acc s)).
Proof.
  unfold add_source, keys. intros H. case_bool_decide as Hs; [done|]. rewrite fmap_app. apply NoDup_app. split_and!; [done| |apply NoDup_singleton].
  intros k Hk Hk'. apply Hs. cbn in Hk'. apply list_elem_of_singleton in Hk'. by subst.
Qed.
Lemma add_sources_NoDup l acc : NoDup (keys acc) -> NoDup (keys (fold_left add_source l acc)).
Proof. revert acc. induction l as [|s l IH]; intros acc H; [done|]. apply IH. by apply add_source_NoDup. Qed.

(** A pass whose read ends at [upto], worked out for the messages before [e]. *)
Record span_of (upto e : nat) (p : foldPlan) : Prop := mkSpan {
  span_end : fpEnd p = upto;
  span_cut : fpCut p = evCut ev;
  span_keep : forall i, i ∈ fpKeep p <-> (i < e)%nat /\ plain i /\ i ∈ kept;
  span_absorbed : fpAbsorbed p = flat_map absorbed_at (seq 0 e);
  span_read : forall k, k ∈ keys (fpRead p) <-> exists i, (i < e)%nat /\ plain i /\ k ∈ keys_at i;
  span_folded : forall k, k ∈ keys (fpFolded p) <-> exists i, (i < e)%nat /\ plain i /\ i ∉ kept /\ k ∈ keys_at i;
  span_once : NoDup (keys (fpRead p)) /\ NoDup (keys (fpFolded p));
  span_stated : fpStated p = 0 }.
Lemma lt_S_split (P : nat -> Prop) e : (exists i, (i < S e)%nat /\ P i) <-> (exists i, (i < e)%nat /\ P i) \/ P e.
Proof.
  split.
  - intros (i & Hi & H). destruct (decide (i = e)) as [->|]; [by right|left]. exists i. split; [lia|done].
  - intros [(i & Hi & H)|H]; [exists i; split; [lia|done]|]. exists e. split; [lia|done].
Qed.
Lemma span_steps upto e : span_of upto e (fold_left (spanStep ev kept) (seq 0 e) (mkFoldPlan upto (evCut ev) [] [] [] 0 0 0 0 [] ∅ false [])).
Proof.
  induction e as [|e [I1 I2 I3 I4 I5 I6 [I7 I7'] I8]].
  { split; try done; [set_solver by lia| | |by split; apply NoDup_nil_2]; intros k; (split; [by intros H%not_elem_of_nil|]); intros (i & Hi & _); lia. }
  rewrite seq_S, fold_left_app. cbn [fold_left Nat.add]. set (q := fold_left (spanStep ev kept) _ _) in *. remember (spanStep ev kept q e) as p eqn:Hs. clearbody q.
  assert (Habs : flat_map absorbed_at (seq 0 (S e)) = flat_map absorbed_at (seq 0 e) ++ absorbed_at e).
  { rewrite seq_S, flat_map_app. cbn [flat_map Nat.add]. by rewrite app_nil_r. }
  unfold spanStep in Hs. unfold absorbed_at in Habs at 3. assert (Hpl : plain e -> exists s r, Sources (source_at ev e) = s :: r).
  { unfold plain, sourceless. destruct (Sources _); [by intros []|eauto]. }
  destruct (Sources (source_at ev e)) as [|s r] eqn:Esrc.
  { assert (Hnp : ~ plain e) by (intros H; by destruct (Hpl H) as (? & ? & ?)). subst p. split; cbn [with_span fpEnd fpCut fpKeep fpAbsorbed fpRead fpFolded fpStated]; try done.
    - intros i. rewrite I3. split; intros (H1 & H2 & H3); (split_and!; [|done|done]); [lia|]. destruct (decide (i = e)) as [->|]; [done|lia].
    - by rewrite Habs, app_nil_r.
    - intros k. rewrite I5, lt_S_split. split; [by left|]. by intros [?|[? _]].
    - intros k. rewrite I6, lt_S_split. split; [by left|]. by intros [?|[? _]]. }
  destruct (isSummarySource (source_at ev e)) eqn:Esum.
  { assert (Hnp : ~ plain e) by (intros [_ H]; congruence). subst p. split; cbn [with_span fpEnd fpCut fpKeep fpAbsorbed fpRead fpFolded fpStated]; try done.
    - intros i. rewrite I3. split; intros (H1 & H2 & H3); (split_and!; [|done|done]); [lia|]. destruct (decide (i = e)) as [->|]; [done|lia].
    - by rewrite Habs, I4.
    - intros k. rewrite I5, lt_S_split. split; [by left|]. by intros [?|[? _]].
    - intros k. rewrite I6, lt_S_split. split; [by left|]. by intros [?|[? _]]. }
  assert (Hp : plain e) by (split; [unfold sourceless; by rewrite Esrc|done]). assert (Hke : keys_at e = keys (s :: r)) by (unfold keys_at; by rewrite Esrc).
  case_bool_decide as Hk; subst p; split; cbn [with_span fpEnd fpCut fpKeep fpAbsorbed fpRead fpFolded fpStated]; try done.
  - intros i. rewrite elem_of_union, elem_of_singleton, I3. split; [intros [(H1 & H2 & H3)| ->]; split_and!; try done; lia|]. intros (H1 & H2 & H3).
    destruct (decide (i = e)) as [->|]; [by right|left]. split_and!; [lia|done|done].
  - by rewrite Habs, app_nil_r.
  - intros k. rewrite add_sources_keys, I5, lt_S_split, Hke. tauto.
  - intros k. rewrite I6, lt_S_split. split; [by left|]. intros [?|(_ & ? & _)]; done.
  - split; [by apply add_sources_NoDup|done].
  - intros i. rewrite I3. split; intros (H1 & H2 & H3); (split_and!; [|done|done]); [lia|]. destruct (decide (i = e)) as [->|]; [done|lia].
  - by rewrite Habs, app_nil_r.
  - intros k. rewrite add_sources_keys, I5, lt_S_split, Hke. tauto.
  - intros k. rewrite add_sources_keys, I6, lt_S_split, Hke. tauto.
  - split; by apply add_sources_NoDup.
Qed.
Lemma spanPlan_spec e : span_of e e (spanPlan ev kept e).
Proof. apply span_steps. Qed.
End span.

(** ** Prices of what is picked *)
Section picking.
Context {X : Externals} {K : SDK}.
Lemma pick_cons p m ms : pick p (m :: ms) = (if p 0%nat then [m] else []) ++ pick (fun i => p (S i)) ms.
Proof. unfold pick. rewrite imap_cons. cbn [List.concat]. done. Qed.
Lemma messagesTokens_if (b : bool) m : messagesTokens (if b then [m] else []) = if b then messageTokens m else 0.
Proof. rewrite messagesTokens_sum. destruct b; cbn [fmap list_fmap sum fold_right]; lia. Qed.
Lemma pick_mono p q ms : (forall i, p i = true -> q i = true) -> messagesTokens (pick p ms) <= messagesTokens (pick q ms).
Proof.
  revert p q. induction ms as [|m ms IH]; intros p q H; [done|]. rewrite !pick_cons, !messagesTokens_app, !messagesTokens_if. specialize (IH (fun i => p (S i)) (fun i => q (S i)) (fun i => H (S i))).
  specialize (H 0%nat). pose proof (messageTokens_nonneg m). destruct (p 0%nat); [rewrite H by done; lia|]. destruct (q 0%nat); lia.
Qed.
Lemma pick_split p ms : messagesTokens (pick p ms) + messagesTokens (pick (fun i => negb (p i)) ms) = messagesTokens ms.
Proof.
  revert p. induction ms as [|m ms IH]; intros p; [by rewrite !messagesTokens_sum|]. rewrite !pick_cons, !messagesTokens_app, !messagesTokens_if. specialize (IH (fun i => p (S i))). cbn beta in IH.
  change (m :: ms) with ([m] ++ ms). rewrite messagesTokens_app. pose proof (messagesTokens_if true m) as H1. cbn in H1. rewrite H1. destruct (p 0%nat); cbn [negb]; lia.
Qed.
Lemma take_mono a b ms : (a <= b)%nat -> messagesTokens (take a ms) <= messagesTokens (take b ms).
Proof. intros H. replace b with (a + (b - a))%nat by lia. rewrite <- take_take_drop, messagesTokens_app. pose proof (messagesTokens_nonneg (take (b - a) (drop a ms))). lia. Qed.
End picking.

Lemma flat_map_ext_in {A B} (f g : A -> list B) l : (forall x, x ∈ l -> f x = g x) -> flat_map f l = flat_map g l.
Proof. induction l as [|x l IH]; intros H; [done|]. cbn [flat_map]. rewrite IH; [|intros y Hy; apply H; by right]. by rewrite H by left. Qed.

(** ** The instruction grows with what is read *)
Lemma excerpts_prefix ev p q e1 e2 : (e1 <= e2)%nat -> (forall i, (i < e1)%nat -> p i = q i) -> exists l, excerpts ev q e2 = excerpts ev p e1 ++ l.
Proof.
  intros He Hpq. unfold excerpts. replace e2 with (e1 + (e2 - e1))%nat by lia. rewrite seq_app, flat_map_app. eexists. f_equal.
  apply flat_map_ext_in. intros i Hi. apply elem_of_seq in Hi. by rewrite Hpq by lia.
Qed.
Lemma writeBlock_mono tag a b : slen (writeBlock tag a) <= slen (writeBlock tag (a ++ b)).
Proof.
  destruct a as [|x a]; [apply slen_nonneg|]. change ((x :: a) ++ b) with (x :: (a ++ b)). unfold writeBlock. rewrite !slen_app.
  change (flat_map (fun line => line ++ [nl]) (x :: a)) with ((x ++ [nl]) ++ flat_map (fun line => line ++ [nl]) a).
  change (flat_map (fun line => line ++ [nl]) (x :: (a ++ b))) with ((x ++ [nl]) ++ flat_map (fun line => line ++ [nl]) (a ++ b)).
  rewrite flat_map_app, !slen_app. pose proof (slen_nonneg (flat_map (fun line => line ++ [nl]) b)). lia.
Qed.
(** A block that is followed by a remark when there is one. *)
Lemma slen_app_mono a b c d : slen a <= slen c -> slen b <= slen d -> slen (a ++ b) <= slen (c ++ d).
Proof. rewrite !slen_app. lia. Qed.
Lemma remark_mono {A} (f : list A -> str) (a b : list A) : slen (f a) <= slen (f (a ++ b)) ->
  slen (match a with [] => [] | _ => f a end) <= slen (match a ++ b with [] => [] | _ => f (a ++ b) end).
Proof. intros H. destruct a as [|x a]; [apply slen_nonneg|exact H]. Qed.
Lemma flat_mono {A} (f : A -> str) a b : slen (flat_map f a) <= slen (flat_map f (a ++ b)).
Proof. rewrite flat_map_app, slen_app. pose proof (slen_nonneg (flat_map f b)). lia. Qed.
Lemma instruction_mono ev p q : bounded p = false -> bounded q = false -> fpStated p = fpStated q -> (fpEnd p <= fpEnd q)%nat ->
  (forall i, (i < fpEnd p)%nat -> in_keep p i = in_keep q i) -> slen (forkInstruction ev p) <= slen (forkInstruction ev q).
Proof.
  intros Hp Hq Hst He Hk. unfold forkInstruction. rewrite Hp, Hq, Hst. unfold bounded in Hp, Hq. apply orb_false_iff in Hp as [Hp _], Hq as [Hq _]. rewrite Hp, Hq.
  destruct (excerpts_prefix ev (in_keep p) (in_keep q) _ _ He Hk) as [l1 ->].
  destruct (excerpts_prefix ev (fun i => negb (in_keep p i) && sourceless (source_at ev i)) (fun i => negb (in_keep q i) && sourceless (source_at ev i)) _ _ He) as [l2 ->].
  { intros i Hi. by rewrite Hk. }
  assert (Hr : exists l3, foldedResultRefs ev q = foldedResultRefs ev p ++ l3).
  { unfold foldedResultRefs. destruct (fold_left _ _ _) as [rendered called]. replace (fpEnd q) with (fpEnd p + (fpEnd q - fpEnd p))%nat by lia. rewrite seq_app, flat_map_app. eexists. f_equal.
    apply flat_map_ext_in. intros i Hi. apply elem_of_seq in Hi. unfold message_refs. change (bool_decide (i ∈ fpKeep p)) with (in_keep p i). change (bool_decide (i ∈ fpKeep q)) with (in_keep q i). by rewrite Hk by lia. }
  destruct Hr as [l3 ->]. set (kept := excerpts ev (in_keep p) (fpEnd p)). set (rt := excerpts _ _ _). set (refs := foldedResultRefs ev p). cbv zeta.
  repeat apply slen_app_mono; try reflexivity.
  - apply writeBlock_mono.
  - apply (remark_mono (fun l => writeBlock (lit "runtime_context") l ++ _)). rewrite !slen_app. pose proof (writeBlock_mono (lit "runtime_context") rt l2). lia.
  - apply (remark_mono (fun l => _ ++ _ ++ flat_map (fun ref => lit "- " ++ ref ++ [nl]) l ++ [nl])). rewrite !slen_app. pose proof (flat_mono (fun ref => lit "- " ++ ref ++ [nl]) refs l3). lia.
Qed.

(** ** Longer reads answer less *)
Section reads.
Context {X : Externals} {K : SDK} {V : SDKValues} (ev : Event) (kept : gset nat) (rewrite : bool) (read : list Message).
Notation at_ := (planAt ev kept rewrite read).
(** The plan of a read before it is priced. *)
Definition unpriced (e : nat) : foldPlan :=
  let p := spanPlan ev kept e in
  mkFoldPlan (fpEnd p) (fpCut p) (fpFolded p) (fpRead p) (fpAbsorbed p) (fpReplaced p) (fpRoom p) (fpMaxTokens p) (fpStated p) (fpInstruction p) (fpKeep p) rewrite (take e read).
Lemma unpriced_keep e i : in_keep (unpriced e) i = true <-> (i < e)%nat /\ plain ev i /\ i ∈ kept.
Proof. unfold in_keep. rewrite bool_decide_eq_true. cbn [unpriced fpKeep]. by destruct (spanPlan_spec ev kept e). Qed.
Lemma unpriced_end e : fpEnd (unpriced e) = e /\ fpCut (unpriced e) = evCut ev.
Proof. by destruct (spanPlan_spec ev kept e). Qed.
Lemma unpriced_replaces e i : replaces ev (unpriced e) i = true <-> (i < e)%nat /\ sourceless (source_at ev i) = false /\ (isSummarySource (source_at ev i) = true \/ i ∉ kept).
Proof.
  unfold replaces. rewrite (proj1 (unpriced_end e)), !andb_true_iff, !negb_true_iff, Nat.ltb_lt. change (bool_decide (i ∈ fpKeep (unpriced e))) with (in_keep (unpriced e) i).
  rewrite <- (not_true_iff_false (in_keep (unpriced e) i)), unpriced_keep. unfold plain. split.
  - intros [[H1 H2] H3]. split_and!; [done|done|]. destruct (isSummarySource _) eqn:E; [by left|right]. intros Hk. by apply H3.
  - intros (H1 & H2 & H3). split; [done|]. intros (_ & [_ H4] & H5). destruct H3 as [H3|H3]; [congruence|done].
Qed.
(** What pricing does to a plan, error or not. *)
Lemma size_shape p : let q := (size p ev).1 in
  fpEnd q = fpEnd p /\ fpCut q = fpCut p /\ fpFolded q = fpFolded p /\ fpRead q = fpRead p /\ fpAbsorbed q = fpAbsorbed p /\ fpKeep q = fpKeep p /\
  fpRewrite q = fpRewrite p /\ fpFork q = fpFork p /\
  fpReplaced q = messagesTokens (pick (replaces ev p) (messages_of ev)) /\
  fpRoom q = evAllowance ev - envelopeTokens ev (pick (fun i => negb (replaces ev p i)) (messages_of ev)) /\
  fpMaxTokens q = Z.min (evMaxOutputTokens ev) (evWindow ev - envelopeTokens ev (fpFork p) -
    instructionTokens (forkInstruction ev (with_prices p (fpReplaced q) (fpRoom q) (fpMaxTokens p) (fpStated p) (fpInstruction p)) ++ noToolsReminder) - instructionNumberSlack).
Proof. cbv zeta. unfold size. cbv zeta. destruct (_ && _); [done|]. by destruct (_ && _). Qed.
Lemma longer_replaces_more e1 e2 : (e1 <= e2)%nat -> fpReplaced (at_ e1).1 <= fpReplaced (at_ e2).1.
Proof.
  intros He. destruct (size_shape (unpriced e1)) as (_ & _ & _ & _ & _ & _ & _ & _ & R1 & _), (size_shape (unpriced e2)) as (_ & _ & _ & _ & _ & _ & _ & _ & R2 & _).
  fold (at_ e1) in R1. fold (at_ e2) in R2. change (size (unpriced e1) ev) with (at_ e1) in R1. change (size (unpriced e2) ev) with (at_ e2) in R2. rewrite R1, R2.
  apply pick_mono. intros i. rewrite !unpriced_replaces. intros (H1 & H2). split; [lia|done].
Qed.
Lemma longer_leaves_less e1 e2 : rewrite = false -> (e1 <= e2)%nat -> (e2 < evCut ev)%nat -> fpMaxTokens (at_ e2).1 <= fpMaxTokens (at_ e1).1.
Proof.
  intros Hw He Hc. destruct (size_shape (unpriced e1)) as (_ & _ & _ & _ & _ & _ & _ & _ & _ & _ & M1), (size_shape (unpriced e2)) as (_ & _ & _ & _ & _ & _ & _ & _ & _ & _ & M2).
  change (size (unpriced e1) ev) with (at_ e1) in M1. change (size (unpriced e2) ev) with (at_ e2) in M2. rewrite M1, M2. clear M1 M2.
  assert (Hfork : envelopeTokens ev (fpFork (unpriced e1)) <= envelopeTokens ev (fpFork (unpriced e2))).
  { rewrite (envelope_sum ev (fpFork (unpriced e1))), (envelope_sum ev (fpFork (unpriced e2))). pose proof (take_mono e1 e2 read He). cbn [unpriced fpFork]. lia. }
  assert (Hbd : forall e, (e < evCut ev)%nat -> forall a b c d f, bounded (with_prices (unpriced e) a b c d f) = false).
  { intros e He' a b c d f. unfold bounded, final. cbn [with_prices fpRewrite]. change (fpEnd (with_prices (unpriced e) a b c d f)) with (fpEnd (unpriced e)). change (fpCut (with_prices (unpriced e) a b c d f)) with (fpCut (unpriced e)).
    destruct (unpriced_end e) as [-> ->]. rewrite (proj2 (Nat.eqb_neq _ _)) by lia. exact Hw. }
  assert (Hin : forall i1 i2, slen i1 <= slen i2 -> instructionTokens (i1 ++ noToolsReminder) <= instructionTokens (i2 ++ noToolsReminder)).
  { intros i1 i2 H. unfold instructionTokens. rewrite !text_tokens. apply budget_tokens_mono. rewrite !slen_app. lia. }
  enough (slen (forkInstruction ev (with_prices (unpriced e1) (fpReplaced (at_ e1).1) (fpRoom (at_ e1).1) (fpMaxTokens (unpriced e1)) (fpStated (unpriced e1)) (fpInstruction (unpriced e1)))) <=
          slen (forkInstruction ev (with_prices (unpriced e2) (fpReplaced (at_ e2).1) (fpRoom (at_ e2).1) (fpMaxTokens (unpriced e2)) (fpStated (unpriced e2)) (fpInstruction (unpriced e2))))) as Hs by (apply Hin in Hs; lia).
  apply instruction_mono; [apply Hbd; lia|apply Hbd; lia| | |].
  - cbn [with_prices fpStated unpriced]. by destruct (spanPlan_spec ev kept e1) as [_ _ _ _ _ _ _ ->], (spanPlan_spec ev kept e2) as [_ _ _ _ _ _ _ ->].
  - change (fpEnd (unpriced e1) <= fpEnd (unpriced e2))%nat. by rewrite !(proj1 (unpriced_end _)).
  - intros i Hi. change (in_keep (unpriced e1) i = in_keep (unpriced e2) i). change (i < fpEnd (unpriced e1))%nat in Hi. rewrite (proj1 (unpriced_end e1)) in Hi.
    apply eq_true_iff_eq. rewrite !unpriced_keep. split; intros (H1 & H2); (split; [lia|done]).
Qed.
Lemma longer_answers_less e1 e2 : rewrite = false -> (e1 <= e2)%nat -> (e2 < evCut ev)%nat -> answers (at_ e2).1 ev = true -> answers (at_ e1).1 ev = true.
Proof.
  intros Hw He Hc. pose proof (longer_leaves_less e1 e2 Hw He Hc). pose proof (longer_replaces_more e1 e2 He). unfold answers. destruct (evFixedOutput ev); [rewrite !Z.leb_le; lia|].
  assert (Hq : Z.quot (Z.min (summaryBudget ev) (fpReplaced (at_ e1).1)) 2 <= Z.quot (Z.min (summaryBudget ev) (fpReplaced (at_ e2).1)) 2) by (apply Z.quot_le_mono; lia).
  rewrite !Z.leb_le. lia.
Qed.
End reads.

(** ** Binary search *)
Lemma searchLoop_spec fuel f i j : (j - i <= fuel)%nat -> (i <= j)%nat -> (i = 0%nat \/ f (i - 1)%nat = false) ->
  let r := searchLoop fuel f i j in (i <= r <= j)%nat /\ (r = 0%nat \/ f (r - 1)%nat = false) /\ (r = j \/ f r = true).
Proof.
  revert i j. induction fuel as [|fuel IH]; intros i j Hf Hij Hi; cbn [searchLoop]; [split_and!; [lia|lia|done|left; lia]|].
  destruct (Nat.ltb_spec i j) as [Hlt|]; [|split_and!; [lia|lia|done|left; lia]]. cbv zeta. set (h := ((i + j) / 2)%nat).
  assert (Hh : (i <= h < j)%nat) by (unfold h; pose proof (Nat.div_mod (i + j) 2); pose proof (Nat.mod_upper_bound (i + j) 2); lia).
  destruct (f h) eqn:E; cbn [negb].
  - destruct (IH i h) as (H1 & H2 & H3); [lia|lia|done|]. cbv zeta in *. split_and!; [lia|lia|done|]. right. destruct H3 as [->|]; done.
  - destruct (IH (S h) j) as (H1 & H2 & H3); [lia|lia|right; by rewrite Nat.sub_succ, Nat.sub_0_r|]. cbv zeta in *. split_and!; [lia|lia|done|done].
Qed.
Lemma Search_spec n f : let r := Search n f in (r <= n)%nat /\ (r = 0%nat \/ f (r - 1)%nat = false) /\ (r = n \/ f r = true).
Proof. destruct (searchLoop_spec n f 0 n) as (H1 & H2 & H3); [lia|lia|by left|]. cbv zeta in *. unfold Search. split_and!; [lia|done|done]. Qed.

(** ** The pass an event makes *)
Lemma sorted_lookup l i j a b : StronglySorted lt l -> l !! i = Some a -> l !! j = Some b -> (a < b)%nat -> (i < j)%nat.
Proof.
  intros Hs. revert i j. induction Hs as [|x l Hs IH Hx]; intros i j Hi Hj Hab; [by rewrite lookup_nil in Hi|]. rewrite Forall_forall in Hx.
  destruct i as [|i], j as [|j]; cbn in *; simplify_eq; [lia|lia| |].
  - apply list_elem_of_lookup_2, Hx in Hi. lia.
  - apply -> Nat.succ_lt_mono. by apply (IH i j).
Qed.
Lemma sorted_lookup_le l i j a b : StronglySorted lt l -> l !! i = Some a -> l !! j = Some b -> (i <= j)%nat -> (a <= b)%nat.
Proof.
  intros Hs Hi Hj Hij. destruct (decide (b < a)%nat) as [Hlt|]; [|lia]. pose proof (sorted_lookup l j i b a Hs Hj Hi Hlt). lia.
Qed.
Lemma filter_seq_sorted p a n : StronglySorted lt (List.filter p (seq a n)).
Proof.
  revert a. induction n as [|n IH]; intros a; cbn; [constructor|]. destruct (p a); [|apply IH]. constructor; [apply IH|]. apply Forall_forall. intros x Hx.
  apply list_elem_of_In, filter_In in Hx as [Hx _]. apply in_seq in Hx. lia.
Qed.
Lemma readEnds_spec ev kept e : e ∈ readEnds ev kept <->
  (Nat.max (S (firstFolded ev kept)) (summariesEnd ev) <= e <= evCut ev)%nat /\ foldBoundary (messages_of ev) e = true.
Proof. unfold readEnds. rewrite list_elem_of_In, filter_In, in_seq. split; intros [H1 H2]; (split; [lia|done]). Qed.
Lemma firstFolded_spec ev kept : (firstFolded ev kept < evCut ev)%nat -> let i := firstFolded ev kept in
  isSummarySource (source_at ev i) = true \/ sourceless (source_at ev i) = false /\ i ∉ kept.
Proof.
  unfold firstFolded. destruct (find_idx _ _) as [[k i]|] eqn:E; [|lia]. intros Hlt. cbv zeta. apply find_idx_Some in E as [Hk Hp]. apply lookup_seq in Hk as [-> Hk].
  apply orb_true_iff in Hp as [Hp|Hp]; [by left|right]. apply andb_true_iff in Hp as [Hp1 Hp2]. bool_hyps. done.
Qed.
Lemma summary_has_source s : isSummarySource s = true -> sourceless s = false.
Proof. unfold isSummarySource, sourceless. by destruct (Sources s). Qed.

Section pass.
Context {X : Externals} {K : SDK} {V : SDKValues} (ev : Event) (unf : gset nat).
Notation kept := (keptBefore ev unf).
Notation ends := (readEnds ev kept).
Definition rewriteOnly : bool := is_nil (fpFolded (spanPlan ev kept (evCut ev))).
Lemma read_folds rw read e : e ∈ ends -> folds (planAt ev kept rw read e).1 = true.
Proof.
  intros He. apply readEnds_spec in He as [He _]. destruct (size_shape ev (unpriced ev kept rw read e)) as (_ & _ & F & _ & A & _). cbv zeta in F, A.
  change (size (unpriced ev kept rw read e) ev) with (planAt ev kept rw read e) in F, A. unfold folds. rewrite F, A. cbn [unpriced fpFolded fpAbsorbed].
  destruct (spanPlan_spec ev kept e) as [_ _ _ S4 _ S6 _ _]. set (i := firstFolded ev kept) in *. assert (Hi : (i < e)%nat) by lia.
  destruct (isSummarySource (source_at ev i)) eqn:Es.
  - apply orb_true_iff. right. rewrite S4. destruct (flat_map (absorbed_at ev) (seq 0 e)) eqn:Ef; [|done]. exfalso.
    assert (Hin : exists x, x ∈ absorbed_at ev i).
    { unfold absorbed_at. pose proof (summary_has_source _ Es) as Hs. unfold sourceless in Hs. rewrite Es. destruct (Sources _) as [|s r]; [done|]. eexists. by left. }
    destruct Hin as [x Hx]. assert (x ∈ flat_map (absorbed_at ev) (seq 0 e)) as Hn; [|rewrite Ef in Hn; by apply not_elem_of_nil in Hn].
    apply list_elem_of_In, in_flat_map. exists i. split; [apply in_seq; lia|by apply list_elem_of_In].
  - apply orb_true_iff. left. destruct (firstFolded_spec ev kept) as [Hf|[Hf1 Hf2]]; [fold i; lia|fold i in Hf; congruence|]. fold i in Hf1, Hf2.
    destruct (fpFolded (spanPlan ev kept e)) eqn:Ef; [|done]. exfalso. assert (Hs : exists s r, Sources (source_at ev i) = s :: r).
    { unfold sourceless in Hf1. destruct (Sources _) as [|s r]; [done|eauto]. }
    destruct Hs as (s & r & Hs). eapply not_elem_of_nil, (proj2 (S6 (source_key s))). exists i. split_and!; [done|by split|done|]. unfold keys_at. rewrite Hs. by left.
Qed.

(** The branches of [planFold]. *)
Definition planned : Prop :=
  let at_ read := planAt ev kept rewriteOnly read in
  match planFold ev unf with
  | Ok pass =>
      (pass = emptyPlan /\ (ends = [] \/ exists read longest, forkRead ev = Ok read /\ last ends = Some longest /\
         (rewriteOnly = true /\ fpReplaced (at_ read longest).1 <= fpRoom (at_ read longest).1 \/ forkTokens (evRequest ev) <= evAllowance ev))) \/
      exists read, forkRead ev = Ok read /\ fpEnd pass ∈ ends /\ folds pass = true /\ at_ read (fpEnd pass) = (pass, None) /\ answers pass ev = true /\
        (rewriteOnly = false -> forall e, e ∈ ends -> (fpEnd pass < e)%nat -> answers (at_ read e).1 ev = false)
  | Err e => forkRead ev = Err e \/ eeReason e = Some ReasonProtectedOverflow \/
      (exists read, forkRead ev = Ok read /\ e = failed ReasonInputOverflow (NoPrefixAnswers (evWindow ev)) /\
         (rewriteOnly = false -> forall e, e ∈ ends -> answers (at_ read e).1 ev = false)) \/
      evAllowance ev < forkTokens (evRequest ev)
  end.
Lemma planFold_planned : planned.
Proof.
  unfold planned. cbv zeta. unfold planFold. fold rewriteOnly. destruct (last ends) as [longest|] eqn:El; [|left; split; [done|left]; by apply last_None].
  destruct (forkRead ev) as [read|e] eqn:Er; [|by left]. cbn [rbind]. cbv zeta. set (at_ := planAt ev kept rewriteOnly read).
  assert (Hend : forall e, fpEnd (at_ e).1 = e) by (intros e; change (fpEnd (size (unpriced ev kept rewriteOnly read e) ev).1 = e); destruct (size_shape ev (unpriced ev kept rewriteOnly read e)) as (-> & _); by destruct (unpriced_end ev kept rewriteOnly read e)).
  assert (Hsorted : StronglySorted lt ends) by apply filter_seq_sorted. assert (Hlast : ends !! (length ends - 1)%nat = Some longest) by (rewrite <- El, last_lookup; f_equal; lia).
  assert (Hlin : longest ∈ ends) by (by eapply list_elem_of_lookup_2).
  assert (Hfinish : forall pe, match finishPlan ev pe with
    | Ok pass => pass = emptyPlan /\ forkTokens (evRequest ev) <= evAllowance ev \/ pe = (pass, None)
    | Err e => evAllowance ev < forkTokens (evRequest ev) end).
  { intros [p [e|]]; unfold finishPlan; cbn [fst snd]; [|by right]. destruct (Z.leb_spec (forkTokens (evRequest ev)) (evAllowance ev)); [by left|done]. }
  pose proof (Hend longest) as Hel. pose proof (eq_refl (at_ longest)) as Hatl. destruct (at_ longest) as [pass err] eqn:Ep in |- *. rewrite Ep in Hel. cbn [fst] in Hel.
  destruct (is_protected err) eqn:Eprot.
  { destruct err as [e|]; [|done]. right; left. unfold is_protected, ReasonOf in Eprot. by destruct (eeReason e) as [[]|]. }
  destruct (rewriteOnly && (fpReplaced pass <=? fpRoom pass)) eqn:Erw.
  { left. split; [done|right]. apply andb_true_iff in Erw as [E1 E2]. exists read, longest. split_and!; [done|done|left]. change (planAt ev kept rewriteOnly read longest) with (at_ longest). rewrite Ep. bool_hyps. done. }
  destruct (match err with None => negb (answers pass ev) | Some _ => false end) eqn:Ecase.
  - destruct err as [e|]; [done|]. apply negb_true_iff in Ecase. set (f := fun i => negb (answers (at_ (default 0%nat (ends !! i))).1 ev)).
    destruct (Search_spec (length ends - 1) f) as (S1 & S2 & S3). cbv zeta in *. set (r := Search (length ends - 1) f) in *.
    assert (Hshort : rewriteOnly = false -> forall j e, ends !! j = Some e -> (r <= j)%nat -> answers (at_ e).1 ev = false).
    { intros Hw j e Hj Hrj. destruct (decide (e = longest)) as [->|Hne]; [by rewrite Ep|]. assert (Hjl : (j < length ends)%nat) by (by eapply lookup_lt_Some).
      assert (Hel' : (e < longest)%nat) by (pose proof (sorted_lookup_le _ j (length ends - 1) e longest Hsorted Hj Hlast ltac:(lia)); lia).
      pose proof (sorted_lookup _ j (length ends - 1) e longest Hsorted Hj Hlast Hel'). destruct S3 as [->|S3]; [lia|]. unfold f in S3. apply negb_true_iff in S3.
      destruct (lookup_lt_is_Some_2 ends r) as [er Hr]; [lia|]. rewrite Hr in S3. change (default 0%nat (Some er)) with er in S3. pose proof (sorted_lookup_le _ r j er e Hsorted Hr Hj Hrj).
      destruct (answers (at_ e).1 ev) eqn:Ea; [|done]. apply (longer_answers_less ev kept rewriteOnly read er e) in Ea; [change (answers (at_ er).1 ev = true) in Ea; congruence|done|done|].
      apply readEnds_spec in Hlin. lia. }
    destruct (lookup_lt_is_Some_2 ends (r - 1)) as [er Hr]; [apply lookup_lt_Some in Hlast; lia|]. rewrite Hr. change (default 0%nat (Some er)) with er. pose proof (Hend er) as Hee. destruct (at_ er) as [pass' err'] eqn:Ep' in |- *. rewrite Ep' in Hee. cbn [fst] in Hee.
    destruct err' as [e'|].
    + specialize (Hfinish (pass', Some e')). destruct (finishPlan ev (pass', Some e')) as [q|e2]; [|by right; right; right]. destruct Hfinish as [[-> H]|H]; [|done].
      left. split; [done|right]. exists read, longest. split_and!; [done|done|by right].
    + destruct (Nat.eqb_spec r 0) as [Hr0|Hr0].
      * right; right; left. exists read. split_and!; [done|done|]. intros Hw e He. apply list_elem_of_lookup in He as [j Hj]. apply (Hshort Hw j e Hj). lia.
      * right. exists read. rewrite Hee. assert (Hin : er ∈ ends) by (by eapply list_elem_of_lookup_2). split_and!; [done|done| |done| |].
        -- pose proof (read_folds rewriteOnly read er Hin) as Hf. change (planAt ev kept rewriteOnly read er) with (at_ er) in Hf. by rewrite Ep' in Hf.
        -- destruct S2 as [|S2]; [done|]. unfold f in S2. rewrite Hr in S2. change (default 0%nat (Some er)) with er in S2. rewrite Ep' in S2. by apply negb_false_iff in S2.
        -- intros Hw e He Hlt. apply list_elem_of_lookup in He as [j Hj]. apply (Hshort Hw j e Hj). pose proof (sorted_lookup _ _ _ _ _ Hsorted Hr Hj Hlt). lia.
  - specialize (Hfinish (pass, err)). destruct (finishPlan ev (pass, err)) as [q|e2]; [|by right; right; right]. destruct Hfinish as [[-> H]|[= <- ->]].
    + left. split; [done|right]. exists read, longest. split_and!; [done|done|by right].
    + right. exists read. apply negb_false_iff in Ecase. rewrite Hel. split_and!; [done|done| |done|done|].
      * pose proof (read_folds rewriteOnly read longest Hlin) as Hf. change (planAt ev kept rewriteOnly read longest) with (at_ longest) in Hf. by rewrite Ep in Hf.
      * intros Hw e He Hlt. exfalso. apply list_elem_of_lookup in He as [j Hj]. pose proof (sorted_lookup _ _ _ _ _ Hsorted Hlast Hj Hlt). apply lookup_lt_Some in Hj. lia.
Qed.
(** the pass an event makes, on every branch.  It makes none when nothing
    is left to fold, when only summaries are left and they fit, or when no
    summary could help and the request fits already.  Otherwise it folds
    something, ends at a tool-group boundary after the last summary, leaves
    the summarizer room to answer, and reads as much as any pass that does. *)
Theorem plan_is_longest_read :
  let at_ read := planAt ev kept rewriteOnly read in
  match planFold ev unf with
  | Ok pass =>
      (pass = emptyPlan /\ (ends = [] \/ exists read longest, forkRead ev = Ok read /\ last ends = Some longest /\
         (rewriteOnly = true /\ fpReplaced (at_ read longest).1 <= fpRoom (at_ read longest).1 \/ forkTokens (evRequest ev) <= evAllowance ev))) \/
      exists read, forkRead ev = Ok read /\ fpEnd pass ∈ ends /\ folds pass = true /\ at_ read (fpEnd pass) = (pass, None) /\ answers pass ev = true /\
        (rewriteOnly = false -> forall e, e ∈ ends -> (fpEnd pass < e)%nat -> answers (at_ read e).1 ev = false)
  | Err e => forkRead ev = Err e \/ eeReason e = Some ReasonProtectedOverflow \/
      (exists read, forkRead ev = Ok read /\ e = failed ReasonInputOverflow (NoPrefixAnswers (evWindow ev)) /\
         (rewriteOnly = false -> forall e, e ∈ ends -> answers (at_ read e).1 ev = false)) \/
      evAllowance ev < forkTokens (evRequest ev)
  end.
Proof. exact planFold_planned. Qed.
End pass.

(** ** Requests fit the window *)
Lemma pretty_N_go_length k x s : (x < 10 ^ N.of_nat k)%N -> (String.length (pretty_N_go x s) <= k + String.length s)%nat.
Proof.
  revert x s. induction k as [|k IH]; intros x s Hx.
  - cbn in Hx. assert (x = 0%N) as -> by lia. rewrite pretty_N_go_0. lia.
  - destruct (decide (0 < x)%N) as [Hp|]; [|assert (x = 0%N) as -> by lia; rewrite pretty_N_go_0; lia]. rewrite pretty_N_go_step by done.
    etransitivity; [apply IH|cbn; lia]. rewrite Nat2N.inj_succ, N.pow_succ_r' in Hx. apply N.Div0.div_lt_upper_bound. lia.
Qed.
Lemma lit_length s : slen (lit s) = Z.of_nat (String.length s).
Proof. unfold slen, lit. f_equal. induction s as [|c s IH]; [done|]. cbn. by rewrite IH. Qed.
Lemma pretty_N_length x : (x < 10 ^ 19)%N -> (String.length (pretty x) <= 19)%nat.
Proof. intros H. unfold pretty, pretty_N. case_decide; [cbn; lia|]. pose proof (pretty_N_go_length 19 x "" H) as Hl. cbn [String.length] in Hl. lia. Qed.
Lemma itoa_length z : - 2 ^ 63 <= z < 2 ^ 63 -> slen (itoa z) <= 20.
Proof.
  intros H. unfold itoa. rewrite lit_length. destruct z as [|x|x]; [cbn; lia| |].
  - pose proof (pretty_N_length (N.pos x)) as Hl. change (pretty (Z.pos x)) with (pretty (N.pos x)). lia.
  - pose proof (pretty_N_length (N.pos x)) as Hl. change (pretty (Z.neg x)) with (String "-" (pretty (N.pos x))). cbn [String.length]. lia.
Qed.
Lemma budget_tokens_slack a b : a <= b + 19 -> 0 <= b -> ProviderBudgetTokensFromBytes a <= ProviderBudgetTokensFromBytes b + 8.
Proof.
  intros H Hb. etransitivity; [by apply (budget_tokens_mono a (b + 19))|]. unfold ProviderBudgetTokensFromBytes, EstimateBytesPerToken, ProviderBudgetSafetyFactorPercent. cbv zeta.
  rewrite (proj2 (Z.leb_gt (b + 19) 0)) by lia. destruct (Z.leb_spec b 0).
  - assert (b = 0) as -> by lia. by vm_compute.
  - destruct (negb ((b + 19) mod 4 =? 0)) eqn:E1, (negb (b mod 4 =? 0)) eqn:E2; bool_hyps; Z.div_mod_to_equations; lia.
Qed.
Lemma instruction_stated ev p r rm a b st i j :
  slen (forkInstruction ev (with_prices p r rm a st i)) = slen (forkInstruction ev (with_prices p r rm b 0 j)) + slen (itoa st) - 1.
Proof.
  unfold forkInstruction. change (final (with_prices p r rm a st i)) with (final p). change (final (with_prices p r rm b 0 j)) with (final p).
  change (bounded (with_prices p r rm a st i)) with (bounded p). change (bounded (with_prices p r rm b 0 j)) with (bounded p).
  change (in_keep (with_prices p r rm a st i)) with (in_keep p). change (in_keep (with_prices p r rm b 0 j)) with (in_keep p).
  change (foldedResultRefs ev (with_prices p r rm a st i)) with (foldedResultRefs ev p). change (foldedResultRefs ev (with_prices p r rm b 0 j)) with (foldedResultRefs ev p).
  cbn [with_prices fpEnd fpRoom fpStated]. cbv zeta. assert (Hz : slen (itoa 0) = 1) by done. destruct (bounded p); rewrite !slen_app, Hz; lia.
Qed.
Section window.
Context {X : Externals} {K : SDK} {V : SDKValues}.
Lemma size_window p ev q reminder : size p ev = (q, None) -> fpStated p = 0 -> - 2 ^ 63 <= fpStated q < 2 ^ 63 -> reminder = [] \/ reminder = noToolsReminder ->
  envelopeTokens ev (fpFork q ++ [UserMessage (fpInstruction q ++ reminder)]) + fpMaxTokens q <= evWindow ev.
Proof.
  intros Hs Hp Hq Hr. unfold size in Hs. cbv zeta in Hs. rewrite Hp in Hs. set (rep := messagesTokens (pick _ _)) in Hs. set (room := evAllowance ev - _) in Hs.
  set (i0 := forkInstruction ev (with_prices p rep room (fpMaxTokens p) 0 (fpInstruction p))) in Hs.
  set (mx := Z.min (evMaxOutputTokens ev) _) in Hs. set (st := if bounded _ then Z.min _ _ else _) in Hs.
  destruct (_ && _) in Hs; [done|]. destruct (_ && _) in Hs; [done|]. apply (f_equal fst) in Hs. cbn [fst] in Hs. subst q.
  change (- 2 ^ 63 <= st < 2 ^ 63) in Hq. change (envelopeTokens ev (fpFork p ++ [UserMessage (forkInstruction ev (with_prices p rep room mx st i0) ++ reminder)]) + mx <= evWindow ev).
  assert (Hi : slen (forkInstruction ev (with_prices p rep room mx st i0)) <= slen i0 + 19).
  { unfold i0. rewrite (instruction_stated ev p rep room mx (fpMaxTokens p) st _ (fpInstruction p)). pose proof (itoa_length st Hq). lia. }
  rewrite envelope_sum, messagesTokens_app, text_tokens, slen_app. pose proof (envelope_sum ev (fpFork p)).
  assert (Hm : mx <= evWindow ev - envelopeTokens ev (fpFork p) - instructionTokens (i0 ++ noToolsReminder) - instructionNumberSlack) by (unfold mx; lia).
  unfold instructionTokens in Hm. rewrite text_tokens, slen_app in Hm. unfold instructionNumberSlack in Hm.
  assert (Hrem : slen reminder <= slen noToolsReminder) by (destruct Hr as [->| ->]; [apply slen_nonneg|lia]).
  pose proof (slen_nonneg i0). pose proof (slen_nonneg noToolsReminder).
  pose proof (budget_tokens_slack (slen (forkInstruction ev (with_prices p rep room mx st i0)) + slen reminder) (slen i0 + slen noToolsReminder) ltac:(lia) ltac:(lia)). lia.
Qed.

(** C9: every request a pass makes fits the summarizer's window beside the
    output it asks for: the instruction is priced before the numbers it states
    are known, with the reminder a second request carries.  A summarizer whose
    output is fixed gets all of it. *)
Theorem every_request_fits_window ev unf pass reminder (Hpass : planFold ev unf = Ok pass) (Hfolds : folds pass = true)
    (Hint : - 2 ^ 63 <= fpStated pass < 2 ^ 63) (Hreminder : reminder = [] \/ reminder = noToolsReminder) :
  envelopeTokens ev (fpFork pass ++ [UserMessage (fpInstruction pass ++ reminder)]) +
    (if evFixedOutput ev then evMaxOutputTokens ev else fpMaxTokens pass) <= evWindow ev.
Proof.
  pose proof (planFold_planned ev unf) as H. unfold planned in H. rewrite Hpass in H. destruct H as [[-> _]|(read & _ & _ & _ & Hs & Ha & _)]; [done|].
  pose proof (size_window (unpriced ev (keptBefore ev unf) (rewriteOnly ev unf) read (fpEnd pass)) ev pass reminder Hs) as Hw.
  specialize (Hw ltac:(by destruct (spanPlan_spec ev (keptBefore ev unf) (fpEnd pass))) Hint Hreminder). unfold answers in Ha. destruct (evFixedOutput ev); [|done].
  apply Z.leb_le in Ha. lia.
Qed.
End window.

(** ** Examples *)
Definition plain_sdk : SDK := {| UserMessage := fun t => mkMessage MessageRoleUser [TextPart t]; json_of_message := fun _ => None; UserMessage_text := fun _ => eq_refl |}.
Definition plain_values : SDKValues :=
  {| result_string := id; result_text := id; result_json := fun _ => None; json_decode := fun _ => None; JSONOutput := fun _ => None;
     input_string := id; input_object := VString; input_decode := fun _ => None; ParseToolArguments := id |}.
Definition plain_externals : Externals :=
  {| json_of_part := fun p => match p with ToolCallPart _ _ i => Some i | ToolResultPart _ _ r _ => Some r | _ => None end;
     json_tool_name := fun _ => []; canonical_hash := fun _ => None; hex_sha256 := id; text_output := id |}.
Definition row (id : string) : Source := mkFoldSource [mkSource (lit "history") (lit id) false] false.
Definition said (role : str) (text : str) : Message := mkMessage role [TextPart text].
(** A request of two long turns and the input it answers. *)
Definition long_event : Event :=
  mkEvent (mkRequest (lit "be brief") [said MessageRoleUser (xs 900); said MessageRoleAssistant (xs 500); said MessageRoleUser (lit "go on")] [] None)
    [row "r1"; row "r2"; mkFoldSource [mkSource (lit "history") (lit "r3") false] true] [] AnchorsCapped 4000 40 600 false (mkRetention 2 ∅ 0 0).
Definition long_pass : foldPlan :=
  Eval vm_compute in match @planFold plain_externals plain_sdk plain_values long_event ∅ with Ok pass => pass | Err _ => emptyPlan end.
Lemma every_request_fits_window_witness :
  (fpEnd long_pass, fpMaxTokens long_pass, csID <$> fpFolded long_pass) = (2%nat, 40, [lit "r1"; lit "r2"]) /\
  @envelopeTokens plain_externals long_event (fpFork long_pass ++ [@UserMessage plain_sdk (fpInstruction long_pass ++ noToolsReminder)]) + fpMaxTokens long_pass <= evWindow long_event.
Proof.
  assert (Hp : @planFold plain_externals plain_sdk plain_values long_event ∅ = Ok long_pass) by (by vm_compute). split; [by vm_compute|].
  apply (@every_request_fits_window plain_externals plain_sdk plain_values long_event ∅ long_pass noToolsReminder); [exact Hp|by vm_compute|by split; vm_compute|by right].
Defined.
