(* ===== verification/FoldRun.v ===== *)
(** * Running a compaction event

    Models [internal/agent/context/compaction/fold.go], the passes of an event
    and what one pass commits, the splice of [synthesize.go], and from
    [internal/chat/checkpoint] the checkpoint a pass commits ([checkpoint.go],
    [commit.go]).

    The database, the summarizer and the clock are the operations of [Env],
    over a state the model does not look into. *)

From S2P Require Import Prelude GoStr GoTrim Prune ToolOutput ContextFrag Admission Timeline TimelineCompose FoldRetain FoldRead FoldPlan.
#[local] Open Scope Z_scope.

(** ** Checkpoints *)
Record HistoryPosition : Type := mkPos { hpTurn : Z; hpSeq : Z }.
Definition Before (p other : HistoryPosition) : bool := (hpTurn p <? hpTurn other) || ((hpTurn p =? hpTurn other) && (hpSeq p <? hpSeq other)).
(** One row kept by reference or one summary with its text. *)
Record Item : Type := mkCkItem { itRowID : str; itSummaryID : str; itSummary : str }.
Record Checkpoint : Type := mkCk { ckID : str; ckParentID : str; ckPosition : HistoryPosition; ckItems : list Item }.
Definition RowIDs (c : Checkpoint) : list str := List.filter (fun id => negb (is_empty id)) (itRowID <$> ckItems c).
Definition SummaryIDs (c : Checkpoint) : list str := List.filter (fun id => negb (is_empty id)) (itSummaryID <$> ckItems c).
Record Row : Type := mkRow { rwID : str; rwPosition : HistoryPosition }.
Record Fold : Type := mkFold { fdParent : Checkpoint; fdSummaryID : str; fdSummary : str; fdFolded : list Row; fdRead : list str }.
(** How far the checkpoint of a fold accounts for the history, and what it
    holds of the rows up to there. *)
Definition commitThrough (fold : Fold) : HistoryPosition :=
  fold_left (fun through row => if Before through (rwPosition row) then rwPosition row else through) (fdFolded fold) (ckPosition (fdParent fold)).
Definition rowItem (id : str) : Item := mkCkItem id [] [].
Definition summaryItem (fold : Fold) : Item := mkCkItem [] (fdSummaryID fold) (fdSummary fold).
Definition is_folded (fold : Fold) (id : str) : bool := existsb (fun row => str_eqb (rwID row) id) (fdFolded fold).
Definition is_read (fold : Fold) (id : str) : bool := existsb (str_eqb id) (fdRead fold).
Definition commitItems (fold : Fold) (span : list str) : list Item :=
  (rowItem <$> List.filter (fun id => negb (is_folded fold id) && is_read fold id) span) ++ [summaryItem fold] ++
  (rowItem <$> List.filter (fun id => negb (is_folded fold id) && negb (is_read fold id)) span).
Inductive StoreFailure : Type := ErrMoved | ErrStale | ErrNoRows | StoreFailed (err : str).
(** The queries of a commit. *)
Record CommitDB (W : Type) : Type := mkCommitDB {
  ParseUUID : str -> option str;
  ListHistoryCheckpointSpanRows : W -> HistoryPosition -> HistoryPosition -> list str -> result StoreFailure (list str);
  CreateHistoryCheckpoint : W -> str -> HistoryPosition -> list Item -> W * result StoreFailure Checkpoint;
  SetHistoryCheckpoint : W -> str -> str -> W * result StoreFailure Z }.
Arguments ParseUUID {W}. Arguments ListHistoryCheckpointSpanRows {W}. Arguments CreateHistoryCheckpoint {W}. Arguments SetHistoryCheckpoint {W}.
Section commit.
Context {W : Type} (db : CommitDB W).
Definition create (w : W) (parent : Checkpoint) (position : HistoryPosition) (items : list Item) : W * result StoreFailure Checkpoint :=
  match CreateHistoryCheckpoint db w (ckID parent) position items with
  | (w, Err ErrNoRows) => (w, Err ErrMoved)
  | (w, Err e) => (w, Err e)
  | (w, Ok created) =>
      match SetHistoryCheckpoint db w (ckID created) (ckID parent) with
      | (w, Err e) => (w, Err e)
      | (w, Ok moved) => if negb (moved =? 1) then (w, Err ErrMoved) else (w, Ok (mkCk (ckID created) (ckParentID created) (ckPosition created) items))
      end
  end.
Definition Commit (w : W) (fold : Fold) : W * result StoreFailure Checkpoint :=
  let through := commitThrough fold in
  match mapM (ParseUUID db) ((rwID <$> fdFolded fold) ++ RowIDs (fdParent fold)) with
  | None => (w, Err (StoreFailed (lit "invalid UUID")))
  | Some ids =>
      match ListHistoryCheckpointSpanRows db w (ckPosition (fdParent fold)) through ids with
      | Err e => (w, Err e)
      | Ok span => create w (fdParent fold) through (commitItems fold span)
      end
  end.
End commit.

(** ** Rows of a request *)
Definition requestRows : Type := gmap (str * str) (list Row).
Definition rows_at (rows : requestRows) (s : ContextMessageSource) : list Row := default [] (rows !! source_key s).
Definition unfoldable (rows : requestRows) (ev : Event) : gset nat :=
  list_to_set (List.filter (fun i => negb (isSummarySource (source_at ev i)) && existsb (fun s => is_nil (rows_at rows s)) (Sources (source_at ev i))) (seq 0 (length (evSources ev)))).
Definition add_row (acc : list Row) (row : Row) : list Row := if existsb (fun r => str_eqb (rwID r) (rwID row)) acc then acc else acc ++ [row].
Definition rows_of (rows : requestRows) (sources : list ContextMessageSource) : list Row := fold_left add_row (flat_map (rows_at rows) sources) [].
Definition rendersCheckpoint (ev : Event) (parent : Checkpoint) : option EventError :=
  let rendered : gset str := list_to_set (omap (fun s => if str_eqb (csKind s) (lit "summary") then Some (csID s) else None) (flat_map Sources (evSources ev))) in
  let held := SummaryIDs parent in
  if (base.size rendered =? length held)%nat && forallb (fun id => bool_decide (id ∈ rendered)) held then None
  else Some (failed ReasonStaleSource StaleCheckpoint).

(** ** One pass *)
Record Pass : Type := mkPass { psSummaryID : str; psSummary : str; psOrder : list (option nat); psCut : nat; psMore : bool }.
Definition splice (messages : list Message) (sources : list Source) (summary : Message) (summaryID : str) (order : list (option nat)) : list Message * list Source :=
  (flat_map (fun i => match i with Some i => message_at messages i | None => [summary] end) order,
   (fun i => match i with Some i => default noSource (sources !! i) | None => mkFoldSource [mkSource (lit "summary") summaryID false] false end) <$> order).
Record ModelResult : Type := mkModelResult { mrText : str; mrToolCalls : Z; mrStop : bool; mrFinishReason : str }.
Definition staleSource (e : StoreFailure) : EventError :=
  match e with
  | ErrMoved | ErrStale | ErrNoRows => failed ReasonStaleSource (StoreError [])
  | StoreFailed err => failed_with None (StoreError err)
  end.
(** What a pass uses of the service: the active checkpoint, the pass's log,
    the summarizer behind its retries, whether the context is done, and the
    transaction that commits a fold and completes the log. *)
Record Env (W : Type) : Type := mkEnv {
  eActive : W -> result StoreFailure Checkpoint;
  eOpenLog : W -> W * result StoreFailure str;
  eFailLog : W -> str -> EventError -> W;
  eAsk : W -> Request -> W * result str ModelResult;
  eDone : W -> option str;
  eCommit : W -> Fold -> W * option StoreFailure;
  eRows : W -> Event -> result StoreFailure requestRows }.
Arguments eActive {W}. Arguments eOpenLog {W}. Arguments eFailLog {W}. Arguments eAsk {W}. Arguments eDone {W}. Arguments eCommit {W}. Arguments eRows {W}.

Section run.
Context {X : Externals} {K : SDK} {V : SDKValues} {W : Type} (env : Env W).
Definition plain_error (e : StoreFailure) : EventError := failed_with None (StoreError match e with StoreFailed err => err | _ => [] end).
Definition with_instruction (request : Request) (fork : list Message) (instruction : str) : Request :=
  with_messages request (fork ++ [UserMessage instruction]).
Definition forkRequest (ev : Event) (plan : foldPlan) (instruction : str) : Request :=
  let r := with_instruction (evRequest ev) (fpFork plan) instruction in
  mkRequest (rqSystem r) (rqMessages r) (rqTools r) (if evFixedOutput ev then rqMaxTokens r else Some (fpMaxTokens plan)).
Definition summarize (w : W) (ev : Event) (plan : foldPlan) : W * result EventError ModelResult :=
  let '(w, answer) := eAsk env w (forkRequest ev plan (fpInstruction plan)) in
  let '(w, answer) := match answer with
                      | Ok r => if 0 <? mrToolCalls r then eAsk env w (forkRequest ev plan (fpInstruction plan ++ noToolsReminder)) else (w, answer)
                      | Err _ => (w, answer)
                      end in
  (w, match answer with
      | Err err => match eDone env w with Some ctxErr => Err (failed_with None (SummarizerError ctxErr)) | None => Err (failed ReasonSummarizerFailed (SummarizerError err)) end
      | Ok r =>
          if 0 <? mrToolCalls r then Err (failed ReasonSummarizerFailed (CalledTools (mrToolCalls r)))
          else if blank (mrText r) then Err (failed ReasonEmpty EmptySummary)
          else if negb (mrStop r) then Err (failed ReasonTruncated (IncompleteSummary (mrFinishReason r) (Some (fpMaxTokens plan))))
          else Ok r
      end).
(** [Ok None] is a pass that had nothing to fold. *)
Definition foldPass (w : W) (ev : Event) (rows : requestRows) : W * result EventError (option Pass) :=
  match eActive env w with
  | Err e => (w, Err (plain_error e))
  | Ok parent =>
      match rendersCheckpoint ev parent with
      | Some e => (w, Err e)
      | None =>
          match planFold ev (unfoldable rows ev) with
          | Err e => (w, Err e)
          | Ok plan =>
              if negb (folds plan) then (w, Ok None)
              else
                let '(w, log) := eOpenLog env w in
                match log with
                | Err e => (w, Err (staleSource e))
                | Ok logID =>
                    let fail w e := (eFailLog env w logID e, Err e) in
                    let '(w, answer) := summarize w ev plan in
                    match answer with
                    | Err e => fail w e
                    | Ok answer =>
                        let summary := trim_space (mrText answer) in
                        let replay := summaryReplayTokens summary in
                        if fpReplaced plan <=? replay then fail w (failed ReasonIneffective (IneffectiveSummary replay (fpReplaced plan)))
                        else if bounded plan && (fpRoom plan <? replay) then fail w (failed ReasonStillOver (SummaryOverRoom replay (fpRoom plan)))
                        else
                          let '(w, committed) := eCommit env w (mkFold parent logID summary (rows_of rows (fpFolded plan)) (rwID <$> rows_of rows (fpRead plan))) in
                          match committed with
                          | Some e => fail w (staleSource e)
                          | None => let '(order, cut) := order plan ev in (w, Ok (Some (mkPass logID summary order cut (negb (final plan)))))
                          end
                    end
                end
          end
      end
  end.

(** ** An event *)
Definition apply_pass (ev : Event) (pass : Pass) : Event :=
  let '(messages, sources) := splice (messages_of ev) (evSources ev) (SummaryMessage (psSummary pass)) (psSummaryID pass) (psOrder pass) in
  let r := evRetention ev in
  mkEvent (with_messages (evRequest ev) messages) sources (evCurrent ev) (evAnchorPolicy ev) (evWindow ev) (evMaxOutputTokens ev) (evAllowance ev)
    (evFixedOutput ev) (mkRetention (psCut pass) (rtAnchors r) (rtKeptGroups r) (rtLatestGroupTokens r)).
(** [None] is a loop out of fuel; the event, as its last pass left it, is
    returned for the caller, whose request it holds. *)
Fixpoint passLoop (fuel : nat) (w : W) (ev : Event) (rows : requestRows) (passes : list Pass) : option (W * Event * list Pass * option EventError) :=
  match fuel with
  | O => None
  | S fuel =>
      let '(w, result) := foldPass w ev rows in
      match result with
      | Err e => Some (w, ev, passes, Some e)
      | Ok None => Some (w, ev, passes, None)
      | Ok (Some pass) =>
          let ev := apply_pass ev pass in
          if negb (psMore pass) then Some (w, ev, passes ++ [pass], None) else passLoop fuel w ev rows (passes ++ [pass])
      end
  end.
Definition passesOf (w : W) (ev : Event) : option (W * Event * list Pass * option EventError) :=
  if negb (length (evSources ev) =? length (messages_of ev))%nat then Some (w, ev, [], Some (failed_with None SourcesMismatch))
  else match eRows env w ev with
  | Err e => Some (w, ev, [], Some (plain_error e))
  | Ok rows =>
      let ev := with_retention ev (retain ev (unfoldable rows ev)) in
      passLoop (S (Z.to_nat (forkTokens (evRequest ev)))) w ev rows []
  end.
End run.

(** ** The order a pass leaves *)
Section orders.
Context {X : Externals} {K : SDK}.
Lemma pick_seq p ms : pick p ms = flat_map (fun i => if p i then message_at ms i else []) (seq 0 (length ms)).
Proof.
  revert p. induction ms as [|m ms IH] using rev_ind; intros p; [done|]. rewrite length_app, Nat.add_comm. cbn [length Nat.add]. rewrite seq_S, flat_map_app. cbn [flat_map Nat.add]. rewrite app_nil_r.
  unfold pick. rewrite imap_app, concat_app. cbn [imap List.concat]. rewrite app_nil_r, Nat.add_0_r. f_equal.
  - fold (pick p ms). rewrite IH. apply flat_map_ext_in. intros i Hi. apply elem_of_seq in Hi. destruct (p i); [|done]. unfold message_at. by rewrite lookup_app_l by lia.
  - unfold message_at. by rewrite list_lookup_middle.
Qed.
Lemma flat_map_filter {A B} (p : A -> bool) (f : A -> list B) l : flat_map f (List.filter p l) = flat_map (fun x => if p x then f x else []) l.
Proof. induction l as [|x l IH]; [done|]. cbn [List.filter flat_map]. destruct (p x); cbn [flat_map]; by rewrite IH. Qed.
Lemma filter_map {A B} (p : B -> bool) (f : A -> B) l : List.filter p (f <$> l) = f <$> List.filter (fun x => p (f x)) l.
Proof. induction l as [|x l IH]; [done|]. cbn. destruct (p (f x)); cbn; by rewrite IH. Qed.
Lemma filter_last {A} (p : A -> bool) a x b : p x = false -> Forall (fun y => p y = true) b -> List.filter p (a ++ x :: b) = List.filter p a ++ b.
Proof. intros Hx Hb. rewrite List.filter_app. cbn [List.filter]. rewrite Hx. f_equal. induction Hb as [|y b Hy _ IH]; [done|]. cbn. by rewrite Hy, IH. Qed.

Context (ev : Event) (p : foldPlan).
Notation n := (length (messages_of ev)).
Definition stays : list nat := List.filter (fun i => negb (replaces ev p i)) (seq 0 n).
(** A pass that replaces something puts its summary behind some of what stays. *)
Lemma order_split : (exists i, (i < n)%nat /\ replaces ev p i = true) ->
  exists before after last, (order p ev).1 = (Some <$> before) ++ None :: (Some <$> after) /\ before ++ after = stays /\
    replaces ev p last = true /\ after = seq (S last) (n - S last).
Proof.
  intros (i & Hi & Hr). unfold order. set (cov := fun o => match o with Some i => replaces ev p i | None => false end).
  destruct (summary_takes_place (Some <$> seq 0 n) None cov) as [[_ Hall]|(b & x & a & Hs & Hx & Ha & HP)].
  { exfalso. rewrite Forall_forall in Hall. specialize (Hall (Some i)). cbn in Hall. rewrite Hall in Hr; [done|]. apply list_elem_of_fmap. exists i. split; [done|]. apply elem_of_seq. lia. }
  rewrite HP. cbn [fst]. apply fmap_app_inv in Hs as (b' & r & Hb & Hr' & Hseq). symmetry in Hr'. apply fmap_cons_inv in Hr' as (j & a' & -> & -> & ->). subst b.
  assert (Hall : List.filter (fun o => negb (cov o)) (Some <$> b') = Some <$> List.filter (fun i => negb (replaces ev p i)) b') by apply (filter_map (fun o => negb (cov o)) Some b').
  exists (List.filter (fun i => negb (replaces ev p i)) b'), a', j. split_and!; [by rewrite Hall| |done|].
  - unfold stays. rewrite Hseq. symmetry. apply filter_last; [cbn in Hx; by rewrite Hx|]. apply Forall_fmap in Ha. eapply Forall_impl; [exact Ha|]. intros y Hy. cbn in Hy. by rewrite Hy.
  - assert (Hj : j = length b').
    { assert (Hl : seq 0 n !! length b' = Some j) by (rewrite Hseq; apply list_lookup_middle; done). apply lookup_seq in Hl as [-> _]. lia. }
    apply (f_equal (drop (S (length b')))) in Hseq. rewrite skipn_seq in Hseq. rewrite drop_app_ge in Hseq by lia. replace (S (length b') - length b')%nat with 1%nat in Hseq by lia. cbn [drop] in Hseq. rewrite drop_0 in Hseq. rewrite Hj. symmetry. exact Hseq.
Qed.
Lemma order_messages summary id sources : (exists i, (i < n)%nat /\ replaces ev p i = true) ->
  messagesTokens (splice (messages_of ev) sources summary id (order p ev).1).1 =
  messagesTokens (pick (fun i => negb (replaces ev p i)) (messages_of ev)) + messagesTokens [summary].
Proof.
  intros H. destruct (order_split H) as (b & a & last & -> & Hs & _). unfold splice. cbn [fst]. rewrite flat_map_app. cbn [flat_map].
  assert (Hf : forall l, flat_map (fun i => match i with Some i => message_at (messages_of ev) i | None => [summary] end) (Some <$> l) = flat_map (message_at (messages_of ev)) l).
  { induction l as [|x l IH]; [done|]. cbn. by rewrite IH. }
  rewrite !Hf, pick_seq, <- flat_map_filter. fold stays. rewrite <- Hs, flat_map_app, !messagesTokens_app. lia.
Qed.
End orders.

Section runs.
Context {X : Externals} {K : SDK} {V : SDKValues}.
(** What a pass that folds something is. *)
Lemma plan_facts ev unf plan : planFold ev unf = Ok plan -> folds plan = true ->
  exists read, plan = (planAt ev (keptBefore ev unf) (rewriteOnly ev unf) read (fpEnd plan)).1 /\ fpEnd plan ∈ readEnds ev (keptBefore ev unf).
Proof.
  intros Hp Hf. pose proof (planFold_planned ev unf) as H. unfold planned in H. rewrite Hp in H. destruct H as [[-> _]|(read & _ & He & _ & Hs & _)]; [done|].
  exists read. split; [by rewrite Hs|done].
Qed.
Lemma plan_numbers ev unf plan : planFold ev unf = Ok plan -> folds plan = true ->
  fpReplaced plan = messagesTokens (pick (replaces ev plan) (messages_of ev)) /\
  fpRoom plan = evAllowance ev - envelopeTokens ev (pick (fun i => negb (replaces ev plan i)) (messages_of ev)) /\
  (fpEnd plan <= evCut ev)%nat /\ fpCut plan = evCut ev /\
  (forall i, replaces ev plan i = true <-> (i < fpEnd plan)%nat /\ sourceless (source_at ev i) = false /\ (isSummarySource (source_at ev i) = true \/ i ∉ keptBefore ev unf)) /\
  (forall k, k ∈ keys (fpFolded plan) <-> exists i, (i < fpEnd plan)%nat /\ plain ev i /\ i ∉ keptBefore ev unf /\ k ∈ keys_at ev i) /\
  (exists i, (i < fpEnd plan)%nat /\ replaces ev plan i = true).
Proof.
  intros Hp Hf. destruct (plan_facts ev unf plan Hp Hf) as (read & Hplan & He). set (kept := keptBefore ev unf) in *. set (e := fpEnd plan) in *.
  destruct (size_shape ev (unpriced ev kept (rewriteOnly ev unf) read e)) as (S1 & S2 & S3 & _ & _ & S6 & _ & _ & S9 & S10 & _). cbv zeta in *.
  change (size (unpriced ev kept (rewriteOnly ev unf) read e) ev) with (planAt ev kept (rewriteOnly ev unf) read e) in *. rewrite <- Hplan in *.
  assert (Hrep : forall i, replaces ev plan i = replaces ev (unpriced ev kept (rewriteOnly ev unf) read e) i) by (intros i; unfold replaces; by rewrite S1, S6).
  destruct (unpriced_end ev kept (rewriteOnly ev unf) read e) as [U1 U2].
  assert (Hpick : forall (f g : nat -> bool) ms, (forall i, f i = g i) -> pick f ms = pick g ms) by (intros f g ms Hfg; rewrite !pick_seq; apply flat_map_ext; intros i; by rewrite Hfg).
  assert (Hiff : forall i, replaces ev plan i = true <-> (i < e)%nat /\ sourceless (source_at ev i) = false /\ (isSummarySource (source_at ev i) = true \/ i ∉ kept)) by (intros i; rewrite Hrep; apply unpriced_replaces).
  apply readEnds_spec in He as [He _]. split_and!.
  - rewrite S9. f_equal. symmetry. by apply Hpick.
  - rewrite S10. do 2 f_equal. symmetry. apply Hpick. intros i. by rewrite Hrep.
  - lia.
  - by rewrite S2.
  - exact Hiff.
  - intros k. rewrite S3. cbn [unpriced fpFolded]. by destruct (spanPlan_spec ev kept e).
  - exists (firstFolded ev kept). split; [lia|]. apply Hiff. split; [lia|]. destruct (firstFolded_spec ev kept) as [H|[H1 H2]]; [lia| |by split; [|right]].
    split; [by apply summary_has_source|by left].
Qed.
End runs.

(** ** What a pass commits *)
Section passes.
Context {X : Externals} {K : SDK} {V : SDKValues} {W : Type} (env : Env W).
(** A pass that was made: its plan, the fold it committed and the summary. *)
Record made (w w' : W) (ev : Event) (rows : requestRows) (pass : Pass) (plan : foldPlan) (fold : Fold) : Prop := mkMade {
  md_plan : planFold ev (unfoldable rows ev) = Ok plan;
  md_folds : folds plan = true;
  md_parent : eActive env w = Ok (fdParent fold) /\ rendersCheckpoint ev (fdParent fold) = None;
  md_fold : fold = mkFold (fdParent fold) (psSummaryID pass) (psSummary pass) (rows_of rows (fpFolded plan)) (rwID <$> rows_of rows (fpRead plan));
  md_commit : exists w1, eCommit env w1 fold = (w', None);
  md_shorter : summaryReplayTokens (psSummary pass) < fpReplaced plan;
  md_fits : bounded plan = true -> summaryReplayTokens (psSummary pass) <= fpRoom plan;
  md_order : order plan ev = (psOrder pass, psCut pass);
  md_more : psMore pass = negb (final plan) }.
Lemma foldPass_made w w' ev rows pass : foldPass env w ev rows = (w', Ok (Some pass)) -> exists plan fold, made w w' ev rows pass plan fold.
Proof.
  unfold foldPass. destruct (eActive env w) as [parent|e] eqn:Ea; [|done]. destruct (rendersCheckpoint ev parent) eqn:Er; [done|].
  destruct (planFold ev (unfoldable rows ev)) as [plan|e] eqn:Ep; [|done]. destruct (folds plan) eqn:Ef; cbn [negb]; [|done].
  destruct (eOpenLog env w) as [w1 [logID|e]]; [|done]. destruct (summarize env w1 ev plan) as [w2 [answer|e]]; [|done]. cbv zeta. set (summary := trim_space (mrText answer)).
  destruct (Z.leb_spec (fpReplaced plan) (summaryReplayTokens summary)) as [|Hlt]; [done|]. destruct (bounded plan && (fpRoom plan <? summaryReplayTokens summary)) eqn:Eb; [done|].
  destruct (eCommit env w2 _) as [w3 [e|]] eqn:Ec; [done|]. destruct (order plan ev) as [ord cut] eqn:Eo. intros [= <- <-].
  exists plan, (mkFold parent logID summary (rows_of rows (fpFolded plan)) (rwID <$> rows_of rows (fpRead plan))).
  apply mkMade; [done|done|by split|done|by exists w2|done| |done|done]. intros Hb. rewrite Hb in Eb. cbn [andb] in Eb. bool_hyps. done.
Qed.
Lemma made_prices w w' ev rows pass plan fold : made w w' ev rows pass plan fold ->
  forkTokens (evRequest (apply_pass ev pass)) = forkTokens (evRequest ev) - fpReplaced plan + summaryReplayTokens (psSummary pass) /\
  evAllowance ev - fpRoom plan = forkTokens (evRequest ev) - fpReplaced plan.
Proof.
  intros [Hp Hf _ _ _ _ _ Ho _]. destruct (plan_numbers ev _ plan Hp Hf) as (Hr & Hm & _ & _ & _ & _ & (i & Hi & Hri)).
  assert (Hin : exists i, (i < length (messages_of ev))%nat /\ replaces ev plan i = true).
  { exists i. split; [|done]. destruct (plan_facts ev _ plan Hp Hf) as (read & _ & He). apply readEnds_spec in He as [He Hb]. unfold foldBoundary in Hb.
    destruct (Nat.ltb_spec (length (messages_of ev)) (fpEnd plan)); [|lia]. by rewrite orb_true_r in Hb. }
  pose proof (order_messages ev plan (SummaryMessage (psSummary pass)) (psSummaryID pass) (evSources ev) Hin) as Hs. rewrite Ho in Hs. cbn [fst] in Hs.
  pose proof (pick_split (replaces ev plan) (messages_of ev)) as Hall. pose proof (envelope_sum ev (pick (fun i => negb (replaces ev plan i)) (messages_of ev))) as He.
  assert (Hreq : forall ms, forkTokens (with_messages (evRequest ev) ms) = envelopeTokens ev ms) by done.
  unfold apply_pass. destruct (splice _ _ _ _ _) as [ms ss]. cbn [fst evRequest] in *. rewrite Hreq. change (forkTokens (evRequest ev)) with (envelopeTokens ev (messages_of ev)).
  rewrite (envelope_sum ev ms), (envelope_sum ev (messages_of ev)), Hs, Hm, He. unfold summaryReplayTokens. lia.
Qed.

(** every pass makes the request smaller, and the request it leaves fits
    the caller's allowance when the pass reads up to what the event keeps. *)
Theorem pass_shrinks_request w w' ev rows pass (Hpass : foldPass env w ev rows = (w', Ok (Some pass))) :
  let ev' := apply_pass ev pass in
  forkTokens (evRequest ev') < forkTokens (evRequest ev) /\ (psMore pass = false -> forkTokens (evRequest ev') <= evAllowance ev).
Proof.
  cbv zeta. destruct (foldPass_made w w' ev rows pass Hpass) as (plan & fold & H). pose proof (made_prices _ _ _ _ _ _ _ H) as [H1 H2]. destruct H as [_ _ _ _ _ Hs Hb _ Hm]. split; [lia|].
  intros Hmore. rewrite Hm in Hmore. apply negb_false_iff in Hmore. unfold bounded in Hb. rewrite Hmore in Hb. specialize (Hb eq_refl). lia.
Qed.

Lemma add_row_in acc row r : r ∈ rwID <$> add_row acc row <-> r ∈ rwID <$> acc \/ r = rwID row.
Proof.
  unfold add_row. destruct (existsb (fun r' => str_eqb (rwID r') (rwID row)) acc) eqn:E.
  - split; [by left|]. intros [H| ->]; [done|]. apply existsb_exists in E as (x & Hx & He). apply str_eqb_true in He. rewrite <- He. apply list_elem_of_fmap. exists x. split; [done|by apply list_elem_of_In].
  - rewrite fmap_app, elem_of_app. cbn. by rewrite list_elem_of_singleton.
Qed.
Lemma rows_of_in rows sources r : r ∈ rwID <$> rows_of rows sources <-> exists s, s ∈ sources /\ r ∈ rwID <$> rows_at rows s.
Proof.
  unfold rows_of. assert (Hg : forall l acc, r ∈ rwID <$> fold_left add_row l acc <-> r ∈ rwID <$> acc \/ r ∈ rwID <$> l).
  { induction l as [|x l IH]; intros acc; cbn [fold_left]; [split; [by left|]; intros [?|H]; [done|by apply not_elem_of_nil in H]|].
    rewrite IH, add_row_in. cbn [fmap list_fmap]. rewrite elem_of_cons. tauto. }
  rewrite Hg. split.
  - intros [H|H]; [by apply not_elem_of_nil in H|]. apply list_elem_of_fmap in H as (x & -> & Hx). apply list_elem_of_In, in_flat_map in Hx as (s & Hs & Hx). exists s.
    split; [by apply list_elem_of_In|]. apply list_elem_of_fmap. exists x. split; [done|by apply list_elem_of_In].
  - intros (s & Hs & H). right. apply list_elem_of_fmap in H as (x & -> & Hx). apply list_elem_of_fmap. exists x. split; [done|]. apply list_elem_of_In, in_flat_map. exists s. by split; apply list_elem_of_In.
Qed.
Lemma keptBefore_spec ev unf i : i ∈ keptBefore ev unf <-> (i < evCut ev)%nat /\ (i ∈ unf \/ keeps (evRetention ev) (source_at ev i) = true).
Proof.
  unfold keptBefore. rewrite elem_of_list_to_set, list_elem_of_In, filter_In, in_seq, orb_true_iff. unfold unfolds. rewrite bool_decide_eq_true. split; intros [H1 H2]; (split; [lia|done]).
Qed.
Lemma unfoldable_spec rows ev i : (i < length (evSources ev))%nat ->
  i ∈ unfoldable rows ev <-> isSummarySource (source_at ev i) = false /\ exists s, s ∈ Sources (source_at ev i) /\ rows_at rows s = [].
Proof.
  intros Hi. unfold unfoldable. rewrite elem_of_list_to_set, list_elem_of_In, filter_In, in_seq, andb_true_iff, negb_true_iff, existsb_exists. split.
  - intros (_ & H1 & s & Hs & Hn). split; [done|]. exists s. split; [by apply list_elem_of_In|]. by destruct (rows_at rows s).
  - intros (H1 & s & Hs & Hn). split; [lia|]. split; [done|]. exists s. split; [by apply list_elem_of_In|]. by rewrite Hn.
Qed.

(** C7: a pass loses nothing of the request.  What it leaves out is, message
    by message, a summary or history before the cut that the event keeps
    neither as an anchor nor for want of a row, and every row such a message
    renders is among the rows the commit is told are folded; the summary
    takes one place, and everything else stays in its order. *)
Theorem pass_loses_nothing w w' ev rows pass (Hlen : length (evSources ev) = length (messages_of ev))
    (Hpass : foldPass env w ev rows = (w', Ok (Some pass))) :
  exists fold w1, eCommit env w1 fold = (w', None) /\ fdSummary fold = psSummary pass /\
    (exists before after, psOrder pass = (Some <$> before) ++ None :: (Some <$> after) /\ StronglySorted lt (before ++ after)) /\
    (forall i, (i < length (messages_of ev))%nat -> Some i ∈ psOrder pass \/
       (i < evCut ev)%nat /\ sourceless (source_at ev i) = false /\
       (isSummarySource (source_at ev i) = true \/
        keeps (evRetention ev) (source_at ev i) = false /\
        forall s, s ∈ Sources (source_at ev i) -> rows_at rows s <> [] /\ forall r, r ∈ rows_at rows s -> rwID r ∈ rwID <$> fdFolded fold)).
Proof.
  destruct (foldPass_made w w' ev rows pass Hpass) as (plan & fold & [Hp Hf _ Hfold (w1 & Hc) _ _ Ho _]). exists fold, w1. split; [done|]. split; [by rewrite Hfold|].
  destruct (plan_numbers ev _ plan Hp Hf) as (_ & _ & Hend & _ & Hrep & Hfolded & (i0 & Hi0 & Hri0)). destruct (plan_facts ev _ plan Hp Hf) as (read & _ & He). apply readEnds_spec in He as [_ Hb].
  assert (Hn : (fpEnd plan <= length (messages_of ev))%nat) by (unfold foldBoundary in Hb; destruct (Nat.ltb_spec (length (messages_of ev)) (fpEnd plan)); [by rewrite orb_true_r in Hb|lia]).
  destruct (order_split ev plan) as (b & a & last & Hsplit & Hstays & _); [exists i0; split; [lia|done]|]. rewrite Ho in Hsplit. cbn [fst] in Hsplit. split.
  { exists b, a. split; [done|]. rewrite Hstays. apply filter_seq_sorted. }
  intros i Hi. destruct (replaces ev plan i) eqn:Er.
  - right. apply Hrep in Er as (E1 & E2 & E3). split_and!; [lia|done|]. destruct (isSummarySource (source_at ev i)) eqn:Es; [by left|right]. destruct E3 as [|E3]; [done|].
    rewrite keptBefore_spec in E3. split; [destruct (keeps _ _); [|done]; exfalso; apply E3; split; [lia|by right]|]. intros s Hs. split.
    + intros Hno. apply E3. split; [lia|left]. apply unfoldable_spec; [lia|]. split; [done|by exists s].
    + intros r Hr. rewrite Hfold. cbn [fdFolded]. apply rows_of_in.
      assert (Hk : source_key s ∈ keys (fpFolded plan)) by (apply Hfolded; exists i; split_and!; [lia|by split|by rewrite keptBefore_spec|apply list_elem_of_fmap; by exists s]).
      apply list_elem_of_fmap in Hk as (s' & Hks & Hs'). exists s'. split; [done|]. unfold rows_at. rewrite <- Hks. apply list_elem_of_fmap. by exists r.
  - left. rewrite Hsplit. assert (Hin : i ∈ b ++ a) by (rewrite Hstays; apply list_elem_of_In, filter_In; split; [apply in_seq; lia|by rewrite Er]).
    apply elem_of_app in Hin as [Hin|Hin]; apply elem_of_app; [left|right; right]; by apply (list_elem_of_fmap_2 Some).
Qed.
End passes.

(** ** An event ends *)
Section events.
Context {X : Externals} {K : SDK} {V : SDKValues} {W : Type} (env : Env W).
Lemma apply_allowance ev pass : evAllowance (apply_pass ev pass) = evAllowance ev.
Proof. unfold apply_pass. by destruct (splice _ _ _ _ _). Qed.
Lemma made_shrinks w w' ev rows pass : foldPass env w ev rows = (w', Ok (Some pass)) ->
  forkTokens (evRequest (apply_pass ev pass)) < forkTokens (evRequest ev) /\
  (psMore pass = false -> forkTokens (evRequest (apply_pass ev pass)) <= evAllowance ev).
Proof.
  intros Hpass. destruct (foldPass_made env w w' ev rows pass Hpass) as (plan & fold & H). pose proof (made_prices _ _ _ _ _ _ _ _ H) as [H1 H2].
  destruct H as [_ _ _ _ _ Hs Hb _ Hm]. split; [lia|]. intros Hmore. rewrite Hm in Hmore. apply negb_false_iff in Hmore. unfold bounded in Hb. rewrite Hmore in Hb. specialize (Hb eq_refl). lia.
Qed.
Lemma passLoop_ends fuel w ev rows passes : forkTokens (evRequest ev) < Z.of_nat fuel ->
  exists w' ev' new err, passLoop env fuel w ev rows passes = Some (w', ev', passes ++ new, err) /\
    forkTokens (evRequest ev') + Z.of_nat (length new) <= forkTokens (evRequest ev) /\
    (forall pass, last new = Some pass -> psMore pass = false -> forkTokens (evRequest ev') <= evAllowance ev).
Proof.
  revert w ev passes. induction fuel as [|fuel IH]; intros w ev passes Hf; [pose proof (forkTokens_nonneg (evRequest ev)); lia|]. cbn [passLoop].
  destruct (foldPass env w ev rows) as [w1 [[pass|]|e]] eqn:E.
  - pose proof (made_shrinks _ _ _ _ _ E) as [Hs Hfit]. cbv zeta. destruct (psMore pass) eqn:Em; cbn [negb].
    + destruct (IH w1 (apply_pass ev pass) (passes ++ [pass])) as (w' & ev' & new & err & H1 & H2 & H3); [lia|]. rewrite apply_allowance in H3.
      exists w', ev', (pass :: new), err. split_and!; [by rewrite H1, <- app_assoc|cbn [length]; lia|]. intros q Hq. destruct new as [|x new]; [|by apply H3]. injection Hq as <-. congruence.
    + exists w1, (apply_pass ev pass), [pass], None. split_and!; [done|cbn [length]; lia|]. intros q _ _. by apply Hfit.
  - exists w1, ev, [], None. rewrite app_nil_r. split_and!; [done|cbn; lia|done].
  - exists w1, ev, [], (Some e). rewrite app_nil_r. split_and!; [done|cbn; lia|done].
Qed.

(** C8: an event ends, whatever the summarizer answers and the database does:
    every pass takes at least a token from the request, and when the last one
    reads up to what the event keeps the request fits the allowance. *)
Theorem event_ends w ev : exists w' ev' passes err, passesOf env w ev = Some (w', ev', passes, err) /\
  forkTokens (evRequest ev') + Z.of_nat (length passes) <= forkTokens (evRequest ev) /\
  (forall pass, last passes = Some pass -> psMore pass = false -> forkTokens (evRequest ev') <= evAllowance ev).
Proof.
  unfold passesOf. destruct (negb _); [exists w, ev, [], (Some (failed_with None SourcesMismatch)); split_and!; [done|cbn; lia|done]|].
  destruct (eRows env w ev) as [rows|e]; [|exists w, ev, [], (Some (plain_error e)); split_and!; [done|cbn; lia|done]]. cbv zeta.
  set (ev0 := with_retention ev _). destruct (passLoop_ends (S (Z.to_nat (forkTokens (evRequest ev0)))) w ev0 rows []) as (w' & ev' & new & err & H1 & H2 & H3); [pose proof (forkTokens_nonneg (evRequest ev0)); lia|].
  exists w', ev', new, err. done.
Qed.
End events.

(** ** Where a checkpoint puts its summary *)
Lemma Before_spec p q : Before p q = true <-> hpTurn p < hpTurn q \/ hpTurn p = hpTurn q /\ hpSeq p < hpSeq q.
Proof. unfold Before. rewrite orb_true_iff, andb_true_iff, !Z.ltb_lt, Z.eqb_eq. done. Qed.
Lemma Before_trans p q r : Before p q = true -> Before q r = true -> Before p r = true.
Proof. rewrite !Before_spec. lia. Qed.
Definition Reaches (p q : HistoryPosition) : bool := negb (Before q p).
Lemma Reaches_spec p q : Reaches p q = true <-> hpTurn p < hpTurn q \/ hpTurn p = hpTurn q /\ hpSeq p <= hpSeq q.
Proof. unfold Reaches. rewrite negb_true_iff, <- not_true_iff_false, Before_spec. lia. Qed.
Lemma place_behind {T} (pre post : list T) x S covered : covered x = true -> Forall (fun y => covered y = false) post ->
  PlaceSummary (pre ++ x :: post) S covered = (List.filter (fun y => negb (covered y)) pre ++ S :: post, true).
Proof.
  intros Hx Hpost. destruct (summary_takes_place (pre ++ x :: post) S covered) as [[_ Hall]|(b & y & a & Hs & Hy & Ha & ->)].
  { rewrite Forall_app, Forall_cons in Hall. destruct Hall as (_ & Hx' & _). congruence. }
  assert (pre = b /\ post = a) as [-> ->]; [|done]. revert b Hs. induction pre as [|z pre IH]; intros [|z' b] Hs; cbn in Hs; injection Hs as -> Hs.
  - done.
  - exfalso. subst post. rewrite Forall_app, Forall_cons in Hpost. destruct Hpost as (_ & Hy' & _). congruence.
  - exfalso. subst a. rewrite Forall_app, Forall_cons in Ha. destruct Ha as (_ & Hx' & _). congruence.
  - destruct (IH b Hs) as [-> ->]. done.
Qed.
Lemma through_spec fold : let t := commitThrough fold in
  (t = ckPosition (fdParent fold) \/ exists r, r ∈ fdFolded fold /\ t = rwPosition r) /\
  Reaches (ckPosition (fdParent fold)) t = true /\ forall r, r ∈ fdFolded fold -> Reaches (rwPosition r) t = true.
Proof.
  cbv zeta. unfold commitThrough. assert (Hg : forall l p, let t := fold_left (fun through row => if Before through (rwPosition row) then rwPosition row else through) l p in
    (t = p \/ exists r, r ∈ l /\ t = rwPosition r) /\ Reaches p t = true /\ forall r, r ∈ l -> Reaches (rwPosition r) t = true).
  { induction l as [|x l IH]; intros p; cbv zeta; cbn [fold_left]; [split_and!; [by left|apply Reaches_spec; lia|intros r Hr; by apply not_elem_of_nil in Hr]|].
    destruct (IH (if Before p (rwPosition x) then rwPosition x else p)) as (H1 & H2 & H3). cbv zeta in *. set (t := fold_left _ l _) in *.
    assert (Hp : Reaches p t = true /\ Reaches (rwPosition x) t = true).
    { destruct (Before p (rwPosition x)) eqn:Eb; [apply Before_spec in Eb|apply not_true_iff_false in Eb; rewrite Before_spec in Eb]; rewrite !Reaches_spec in *; lia. }
    split_and!; [|apply Hp|intros r [->|Hr]%elem_of_cons; [apply Hp|by apply H3]].
    destruct H1 as [->|(r & Hr & ->)]; [|right; exists r; split; [by right|done]]. destruct (Before p (rwPosition x)); [right; exists x; split; [by left|done]|by left]. }
  apply Hg.
Qed.

(** A request built on a checkpoint: the rows the checkpoint keeps, its
    summary, and the rows after its position, in the order of the history. *)
Record renders (parent : Checkpoint) (kept later : list Row) (summaries : list Item) : Prop := mkRenders {
  rn_sorted : StronglySorted (fun a b => Before (rwPosition a) (rwPosition b) = true) (kept ++ later);
  rn_kept : forall r, r ∈ kept -> Reaches (rwPosition r) (ckPosition parent) = true;
  rn_later : forall r, r ∈ later -> Before (ckPosition parent) (rwPosition r) = true;
  rn_ids : NoDup (rwID <$> kept ++ later) /\ Forall (fun r => rwID r <> []) (kept ++ later);
  rn_summaries : Forall (fun i => itRowID i = []) summaries;
  rn_first : summaries = [] -> kept = [] }.
Definition rendered (kept later : list Row) (summaries : list Item) : list Item :=
  (rowItem ∘ rwID <$> kept) ++ summaries ++ (rowItem ∘ rwID <$> later).
(** What a fold replaces of it: the summaries and the rows it folds. *)
Definition covers (fold : Fold) (i : Item) : bool := is_empty (itRowID i) || is_folded fold (itRowID i).
Definition within (fold : Fold) (r : Row) : bool := Reaches (rwPosition r) (commitThrough fold).

Lemma sorted_suffix {A} (R : A -> A -> Prop) a b : StronglySorted R (a ++ b) -> StronglySorted R b.
Proof. induction a as [|x a IH]; intros Hs; [done|]. cbn in Hs. apply StronglySorted_inv in Hs as [Hs _]. by apply IH. Qed.
Lemma sorted_prefix fold l : StronglySorted (fun a b => Before (rwPosition a) (rwPosition b) = true) l ->
  l = List.filter (within fold) l ++ List.filter (fun r => negb (within fold r)) l.
Proof.
  induction 1 as [|x l Hs IH Hx]; [done|]. cbn [List.filter]. destruct (within fold x) eqn:E; cbn [negb app]; [by rewrite <- IH|].
  assert (Hno : forall l', Forall (fun b => Before (rwPosition x) (rwPosition b) = true) l' -> List.filter (within fold) l' = [] /\ List.filter (fun r => negb (within fold r)) l' = l').
  { induction 1 as [|y l' Hy _ [IH1 IH2]]; [done|]. cbn [List.filter]. assert (within fold y = false) as ->; [|cbn [negb]; by rewrite IH1, IH2].
    unfold within in *. apply not_true_iff_false. apply not_true_iff_false in E. rewrite Reaches_spec in *. apply Before_spec in Hy. lia. }
  destruct (Hno l Hx) as [-> ->]. done.
Qed.
Lemma covers_row fold r : rwID r <> [] -> covers fold (rowItem (rwID r)) = is_folded fold (rwID r).
Proof. intros H. unfold covers. cbn [rowItem itRowID]. by rewrite (proj2 (is_empty_false _) H). Qed.
Lemma uncovered_rows fold l : Forall (fun r => rwID r <> []) l ->
  List.filter (fun i => negb (covers fold i)) (rowItem ∘ rwID <$> l) = rowItem <$> List.filter (fun id => negb (is_folded fold id)) (rwID <$> l).
Proof.
  induction 1 as [|r l Hr _ IH]; [done|]. cbn [fmap list_fmap List.filter compose]. rewrite covers_row by done. destruct (is_folded fold (rwID r)); cbn [negb]; [exact IH|]. cbn [fmap list_fmap]. f_equal. exact IH.
Qed.

Section placing.
Context (fold : Fold) (kept later : list Row) (summaries : list Item).
Context (Hrenders : renders (fdParent fold) kept later summaries).
Context (Hfolded : forall r, r ∈ fdFolded fold -> r ∈ kept ++ later).
Notation R1 := (List.filter (within fold) later).
Notation R2 := (List.filter (fun r => negb (within fold r)) later).
Lemma folded_row r : r ∈ kept ++ later -> is_folded fold (rwID r) = true -> r ∈ fdFolded fold.
Proof.
  intros Hr Hf. apply existsb_exists in Hf as (f & Hf & He). apply list_elem_of_In in Hf. apply str_eqb_true in He. destruct (rn_ids _ _ _ _ Hrenders) as [Hn _].
  pose proof (Hfolded f Hf) as Hf'. apply list_elem_of_lookup in Hr as [i Hi]. apply list_elem_of_lookup in Hf' as [j Hj].
  assert (i = j) as ->; [|by rewrite Hi in Hj; injection Hj as ->].
  eapply (NoDup_lookup _ i j (rwID r) Hn); rewrite list_lookup_fmap; [by rewrite Hi|]. rewrite Hj. cbn. by rewrite He.
Qed.
Lemma folded_within r : r ∈ fdFolded fold -> within fold r = true.
Proof. intros H. destruct (through_spec fold) as (_ & _ & Ht). by apply Ht. Qed.
Lemma later_uncovered : Forall (fun i => covers fold i = false) (rowItem ∘ rwID <$> R2).
Proof.
  apply Forall_fmap, Forall_forall. intros r Hr. apply list_elem_of_In, filter_In in Hr as [Hr Hw]. apply list_elem_of_In in Hr. destruct (rn_ids _ _ _ _ Hrenders) as [_ Hne]. rewrite Forall_forall in Hne.
  cbn [compose]. rewrite covers_row by (apply Hne, elem_of_app; by right). destruct (is_folded fold (rwID r)) eqn:E; [|done]. apply folded_row, folded_within in E; [by rewrite E in Hw|apply elem_of_app; by right].
Qed.
Lemma kept_within : List.filter (within fold) kept = kept.
Proof.
  destruct (through_spec fold) as (_ & Hp & _). pose proof (rn_kept _ _ _ _ Hrenders) as Hk. clear Hrenders Hfolded. induction kept as [|r l IH]; [done|]. cbn [List.filter].
  assert (within fold r = true) as ->.
  { specialize (Hk r ltac:(by left)). unfold within. rewrite Reaches_spec in *. lia. }
  f_equal. apply IH. intros r' Hr'. apply Hk. by right.
Qed.
(** The last row the checkpoint accounts for is one it folds. *)
Lemma last_within_folded l x : R1 = l ++ [x] -> is_folded fold (rwID x) = true.
Proof.
  intros HR. assert (Hx : x ∈ R1) by (rewrite HR; apply elem_of_app; right; by left). apply list_elem_of_In, filter_In in Hx as [Hx Hw]. apply list_elem_of_In in Hx.
  pose proof (rn_later _ _ _ _ Hrenders x Hx) as Hlate. unfold within in Hw. destruct (through_spec fold) as ([Ht|(f & Hf & Ht)] & _ & _).
  - exfalso. rewrite Ht, Reaches_spec in Hw. apply Before_spec in Hlate. lia.
  - rewrite Ht in Hw. apply existsb_exists. exists f. split; [by apply list_elem_of_In|]. apply str_eqb_true. f_equal.
    destruct (proj1 (elem_of_app _ _ _) (Hfolded f Hf)) as [Hk|Hl].
    { exfalso. apply (rn_kept _ _ _ _ Hrenders) in Hk. rewrite Reaches_spec in *. apply Before_spec in Hlate. lia. }
    assert (Hf1 : f ∈ R1) by (apply list_elem_of_In, filter_In; split; [by apply list_elem_of_In|by apply folded_within]). rewrite HR in Hf1. apply elem_of_app in Hf1 as [Hf1|Hf1]; [|by apply list_elem_of_singleton in Hf1].
    exfalso. pose proof (rn_sorted _ _ _ _ Hrenders) as Hs. rewrite (sorted_prefix fold later) in Hs.
    2: by apply sorted_suffix in Hs.
    rewrite HR in Hs. apply list_elem_of_In, in_split in Hf1 as (a & b & ->). rewrite <- !app_assoc in Hs. cbn [app] in Hs.
    rewrite app_assoc in Hs. apply sorted_suffix in Hs as Hs'.
    apply StronglySorted_inv in Hs' as [_ Hs']. rewrite Forall_forall in Hs'. specialize (Hs' x). cbn beta in Hs'. rewrite Before_spec in Hs'. rewrite Reaches_spec in Hw.
    assert (x ∈ b ++ x :: R2) by (apply elem_of_app; right; by left). specialize (Hs' ltac:(done)). lia.
Qed.
End placing.

(** C11: a checkpoint puts its summary where the request has it: the rows a
    fold keeps of those it accounts for, in history order, then the summary,
    then the rows it does not account for: what the request of the pass
    holds after the summary took its place. *)
Theorem checkpoint_orders_like_request parent fold kept later summaries span
    (Hparent : fdParent fold = parent) (Hrenders : renders parent kept later summaries)
    (Hfolded : forall r, r ∈ fdFolded fold -> r ∈ kept ++ later)
    (Hsome : fdFolded fold <> [] \/ summaries <> [])
    (Hspan : span = rwID <$> List.filter (within fold) (kept ++ later))
    (Hread : forall id, id ∈ span -> is_read fold id = true) :
  PlaceSummary (rendered kept later summaries) (summaryItem fold) (covers fold) =
    (commitItems fold span ++ (rowItem ∘ rwID <$> List.filter (fun r => negb (within fold r)) later), true).
Proof.
  subst parent span. set (R1 := List.filter (within fold) later). set (R2 := List.filter (fun r => negb (within fold r)) later).
  assert (Hlater : later = R1 ++ R2).
  { apply sorted_prefix. pose proof (rn_sorted _ _ _ _ Hrenders) as Hs. by apply sorted_suffix in Hs. }
  destruct (rn_ids _ _ _ _ Hrenders) as [_ Hne]. apply Forall_app in Hne as [HneK HneL]. assert (HneR1 : Forall (fun r => rwID r <> []) R1) by (rewrite Hlater in HneL; apply Forall_app in HneL as [HneL _]; done).
  pose proof (later_uncovered fold kept later summaries Hrenders Hfolded) as Hun. fold R2 in Hun.
  rewrite List.filter_app, (kept_within fold kept later summaries Hrenders) in *. fold R1 in Hread |- *.
  assert (Hitems : commitItems fold (rwID <$> kept ++ R1) = (rowItem <$> List.filter (fun id => negb (is_folded fold id)) (rwID <$> kept ++ R1)) ++ [summaryItem fold]).
  { unfold commitItems. set (sp := rwID <$> kept ++ R1) in *. clearbody sp. assert (Hf : List.filter (fun id => negb (is_folded fold id) && is_read fold id) sp = List.filter (fun id => negb (is_folded fold id)) sp /\
      List.filter (fun id => negb (is_folded fold id) && negb (is_read fold id)) sp = []).
    { induction sp as [|id sp IH]; [done|]. cbn [List.filter]. rewrite (Hread id) by (by left). assert (Hread' : forall i, i ∈ sp -> is_read fold i = true) by (intros i Hi; apply Hread; by right). specialize (IH Hread'). destruct IH as [-> ->]. by destruct (is_folded fold id). }
    destruct Hf as [-> ->]. by rewrite app_nil_r. }
  rewrite Hitems, fmap_app, List.filter_app, fmap_app, <- !uncovered_rows by done. unfold rendered. rewrite Hlater at 1. rewrite fmap_app.
  assert (HnoS : List.filter (fun i => negb (covers fold i)) summaries = []).
  { pose proof (rn_summaries _ _ _ _ Hrenders) as Hs. clear -Hs. induction Hs as [|i l Hi _ IH]; [done|]. cbn. unfold covers at 1. rewrite Hi. exact IH. }
  destruct R1 as [|x0 R1'] eqn:ER using rev_ind.
  - cbn [fmap list_fmap app]. destruct summaries as [|z ss _] using rev_ind.
    + exfalso. pose proof (rn_first _ _ _ _ Hrenders eq_refl) as ->. destruct Hsome as [Hs|Hs]; [|done]. destruct (fdFolded fold) as [|f l] eqn:Ef; [done|].
      assert (Hf : f ∈ later) by (apply (Hfolded f); by left). assert (Hw : within fold f = true) by (apply folded_within; rewrite Ef; by left).
      assert (f ∈ List.filter (within fold) later) as Hin by (apply list_elem_of_In, filter_In; split; [by apply list_elem_of_In|done]). fold R1 in Hin. rewrite ER in Hin. by apply not_elem_of_nil in Hin.
    + rewrite List.filter_app in HnoS. apply app_eq_nil in HnoS as [HnoS _]. rewrite <- app_assoc. cbn [app]. rewrite app_assoc, place_behind; [|unfold covers; pose proof (rn_summaries _ _ _ _ Hrenders) as Hs; apply Forall_app in Hs as [_ Hs]; apply Forall_cons in Hs as [-> _]; done|done].
      rewrite List.filter_app, HnoS, !app_nil_r, <- app_assoc. done.
  - clear IHR1'. assert (Hx : is_folded fold (rwID x0) = true) by (eapply last_within_folded; [exact Hrenders|exact Hfolded|exact ER]).
    apply Forall_app in HneR1 as [_ Hx0]. apply Forall_cons in Hx0 as [Hx0 _]. assert (Hcov : covers fold (rowItem (rwID x0)) = true) by (by rewrite covers_row).
    rewrite fmap_app. cbn [fmap list_fmap]. rewrite List.filter_app. cbn [List.filter compose]. rewrite Hcov. cbn [negb]. rewrite app_nil_r.
    rewrite <- app_assoc. cbn [app]. rewrite !app_assoc, place_behind by done. rewrite !List.filter_app, HnoS, app_nil_r, <- !app_assoc. done.
Qed.

(** ** Examples *)
Definition first_checkpoint : Checkpoint := mkCk [] [] (mkPos 0 0) [].
(** A service whose summarizer calls a tool first and then answers. *)
Definition plain_env : Env nat :=
  {| eActive := fun _ => Ok first_checkpoint; eOpenLog := fun w => (S w, Ok (lit "log")); eFailLog := fun w _ _ => w;
     eAsk := fun w _ => (S w, Ok (if (w =? 1)%nat then mkModelResult [] 1 true (lit "stop") else mkModelResult (lit " they said x ") 0 true (lit "stop")));
     eDone := fun _ => None; eCommit := fun w _ => (S w, None); eRows := fun _ _ => Ok ∅ |}.
Definition plain_rows : requestRows :=
  list_to_map ((fun n => ((lit "history", lit "r" ++ itoa n), [mkRow (lit "r" ++ itoa n) (mkPos n 0)])) <$> [1; 2; 3]).
Definition run_pass : nat * result EventError (option Pass) := Eval vm_compute in @foldPass plain_externals plain_sdk plain_values nat plain_env 0%nat long_event plain_rows.
Definition made_pass : Pass := match run_pass.2 with Ok (Some pass) => pass | _ => mkPass [] [] [] 0 false end.
Lemma pass_shrinks_request_witness :
  psOrder made_pass = [None; Some 2%nat] /\ psMore made_pass = false /\
  (let ev' := @apply_pass plain_sdk long_event made_pass in
   @forkTokens plain_externals (evRequest ev') < @forkTokens plain_externals (evRequest long_event) /\
   (psMore made_pass = false -> @forkTokens plain_externals (evRequest ev') <= evAllowance long_event)).
Proof.
  split; [by vm_compute|]. split; [by vm_compute|].
  apply (@pass_shrinks_request plain_externals plain_sdk plain_values nat plain_env 0%nat 4%nat long_event plain_rows made_pass). by vm_compute.
Defined.
Lemma pass_loses_nothing_witness :
  exists fold w1, eCommit plain_env w1 fold = (4%nat, None) /\ fdSummary fold = psSummary made_pass /\
    (exists before after, psOrder made_pass = (Some <$> before) ++ None :: (Some <$> after) /\ StronglySorted lt (before ++ after)).
Proof.
  destruct (@pass_loses_nothing plain_externals plain_sdk plain_values nat plain_env 0%nat 4%nat long_event plain_rows made_pass) as (fold & w1 & H1 & H2 & H3 & _);
    [by vm_compute|by vm_compute|]. exists fold, w1. exact (conj H1 (conj H2 H3)).
Defined.
(** A checkpoint that keeps row 1 beside its summary, and a fold of rows 2 and
    4 that keeps row 3. *)
Definition sample_row (n : Z) : Row := mkRow (lit "r" ++ itoa n) (mkPos n 0).
Definition sample_parent : Checkpoint := mkCk (lit "c1") [] (mkPos 1 5) [rowItem (lit "r1"); mkCkItem [] (lit "s1") (lit "earlier")].
Definition sample_fold : Fold := mkFold sample_parent (lit "s2") (lit "so far") [sample_row 2; sample_row 4] [lit "r1"; lit "r2"; lit "r3"; lit "r4"].
Lemma checkpoint_orders_like_request_witness :
  let later := sample_row <$> [2; 3; 4; 5] in
  let summaries := [mkCkItem [] (lit "s1") (lit "earlier")] in
  let span := [lit "r1"; lit "r2"; lit "r3"; lit "r4"] in
  commitItems sample_fold span = [rowItem (lit "r1"); rowItem (lit "r3"); summaryItem sample_fold] /\
  PlaceSummary (rendered [sample_row 1] later summaries) (summaryItem sample_fold) (covers sample_fold) =
    (commitItems sample_fold span ++ (rowItem ∘ rwID <$> List.filter (fun r => negb (within sample_fold r)) later), true).
Proof.
  cbv zeta. split; [by vm_compute|]. apply (checkpoint_orders_like_request sample_parent); [done| | |by left|by vm_compute|].
  - split; [by repeat (constructor || vm_compute)| | |split; [by apply (bool_decide_unpack _); vm_compute|by repeat constructor]|by repeat constructor|done].
    + intros r Hr. apply list_elem_of_singleton in Hr as ->. by vm_compute.
    + intros r Hr. cbn in Hr. repeat (apply elem_of_cons in Hr as [->|Hr]; [by vm_compute|]). by apply not_elem_of_nil in Hr.
  - intros r Hr. cbn in Hr. repeat (apply elem_of_cons in Hr as [->|Hr]; [apply list_elem_of_In; cbn; tauto|]). by apply not_elem_of_nil in Hr.
  - intros id Hid. repeat (apply elem_of_cons in Hid as [->|Hid]; [by vm_compute|]). by apply not_elem_of_nil in Hid.
Defined.
