(* ===== verification/Background.v ===== *)
(** * Background tasks

    Models [internal/agent/background]: the tasks of a manager
    ([types.go]), their registration and their ends for commands
    ([manager.go]), in-process jobs ([managed_task.go]), subagents and batches
    of them ([spawn_task.go]) and videos ([video_task.go]), the wait for a
    task and the watchdog of stalled commands.

    Fields of a Go [Task] that are only set when it is created form
    [TaskInfo].  What happens under [task.mu] is one definition on [Task]; the
    operation of the manager looks the task up, applies it and emits the event.
    [changed] is the number of channels closed before the present one, so
    closing it is adding one.  [now] is the clock while the task is locked,
    [later] the clock when the event is emitted. *)

From S2P Require Import Prelude GoStr GoPath ToolPath ToolOutput.
#[local] Open Scope Z_scope.

(** ** Package [time] *)
Definition Millisecond : Z := 1000000.
Definition Second : Z := 1000 * Millisecond.
Definition lessThanHalf (x y : Z) : bool := x + x <? y.
(** [Duration.Round] *)
Definition Round (d m : Z) : Z :=
  if m <=? 0 then d
  else
    let r := Z.rem d m in
    if d <? 0 then
      let r := - r in
      if lessThanHalf r m then d + r else if d - m + r <? min_int64 then min_int64 else d - m + r
    else if lessThanHalf r m then d - r
    else if max_int64 <? d + m - r then max_int64 else d + m - r.
(** [fmtFrac]: the digits of [v] below the point, without trailing zeros. *)
Fixpoint fmtFrac (prec : nat) (v : Z) (print : bool) (acc : str) : str * Z :=
  match prec with
  | O => (if print then lit "." ++ acc else acc, v)
  | S prec =>
      let digit := v mod 10 in
      let print := print || negb (digit =? 0) in
      fmtFrac prec (v / 10) print (if print then itoa digit ++ acc else acc)
  end.
Definition with_unit (u : Z) (prec : nat) (unit : str) : str :=
  let '(frac, u) := fmtFrac prec u false [] in itoa u ++ frac ++ unit.
(** [Duration.String] *)
Definition Duration_String (d : Z) : str :=
  let u := Z.abs d in
  (if d <? 0 then lit "-" else []) ++
  (if u =? 0 then lit "0s"
   else if u <? 1000 then with_unit u 0 (lit "ns")
   else if u <? Millisecond then with_unit u 3 (["194"; "181"]%char ++ lit "s")
   else if u <? Second then with_unit u 6 (lit "ms")
   else
     let '(frac, u) := fmtFrac 9 u false [] in
     let seconds := itoa (u mod 60) ++ frac ++ lit "s" in
     let u := u / 60 in
     if u =? 0 then seconds
     else
       let minutes := itoa (u mod 60) ++ lit "m" in
       let u := u / 60 in
       if u =? 0 then minutes ++ seconds else itoa u ++ lit "h" ++ minutes ++ seconds).

(** ** Contexts: what the manager reads of one is its deadline and whether it
    is cancelled. *)
Record Ctx : Type := mkCtx { cxDeadline : option Z; cxCancelled : bool }.
Definition WithoutCancel (_ : Ctx) : Ctx := mkCtx None false.
Definition WithDeadline (ctx : Ctx) (deadline : Z) : Ctx :=
  mkCtx (Some (match cxDeadline ctx with Some d => Z.min d deadline | None => deadline end)) (cxCancelled ctx).
Definition cancelled (ctx : Ctx) : Ctx := mkCtx (cxDeadline ctx) true.
Definition detachedTaskContext (parent : Ctx) : Ctx :=
  match cxDeadline parent with Some deadline => WithDeadline (WithoutCancel parent) deadline | None => WithoutCancel parent end.
Definition detachedContextWithTimeout (parent : Ctx) (timeout now : Z) : Ctx :=
  let deadline := now + timeout in
  let deadline := match cxDeadline parent with Some d => if d <? deadline then d else deadline | None => deadline end in
  WithDeadline (WithoutCancel parent) deadline.
(** The context of [bound] while neither of its two has ended. *)
Definition bound (ctx budget : Ctx) : Ctx :=
  let ctx' := match cxDeadline budget with Some deadline => WithDeadline ctx deadline | None => ctx end in
  if cxCancelled budget then cancelled ctx' else ctx'.

(** ** Data *)
Inductive TaskStatus : Type := TaskQueued | TaskRunning | TaskCompleted | TaskFailed | TaskKilled | TaskUnknown.
Inductive TaskKind : Type := KindExec | KindSpawn | KindAgent | KindVideo | KindDependency.
#[export] Instance TaskStatus_eq_dec : EqDecision TaskStatus. Proof. solve_decision. Defined.
#[export] Instance TaskKind_eq_dec : EqDecision TaskKind. Proof. solve_decision. Defined.
Definition status_is (a b : TaskStatus) : bool := bool_decide (a = b).
Definition kind_is (a b : TaskKind) : bool := bool_decide (a = b).
Record SpawnBranch : Type := mkBranch {
  sbTask : str; sbChildSessionID : str; sbStatus : TaskStatus; sbReport : str; sbError : str }.
Record TaskInfo : Type := mkInfo {
  tiID : str; tiKind : TaskKind; tiBotID : str; tiSessionID : str; tiCommand : str; tiDescription : str;
  tiAgentID : str; tiAgentSessionID : str; tiWorkDir : str; tiOutputFile : str; tiStartedAt : Z; tiDeadlineAt : Z }.
Record AgentFields : Type := mkAgent {
  agMessage : str; agReport : str; agError : str; agModelID : str; agProvider : str; agFork : bool }.
(** [cancel] is the context its function cancels; [CompletedAt] and
    [lastOutputAt] are 0 while unset. *)
Record Task : Type := mkTask {
  tkInfo : TaskInfo; tkAgent : AgentFields; tkStatus : TaskStatus; tkExitCode : Z; tkResult : gmap str value; tkError : str;
  tkCompletedAt : Z; tkCancel : option Ctx; tkStopRequested : bool; tkStalled : bool; tkChanged : Z; tkOutput : str;
  tkLastLivenessAt : Z; tkLastOutputAt : Z; tkBranches : list SpawnBranch }.
Definition no_agent : AgentFields := mkAgent [] [] [] [] [] false.
(** A task as its constructors create it. *)
Definition newTask (info : TaskInfo) (agent : AgentFields) (status : TaskStatus) (cancel : option Ctx) : Task :=
  mkTask info agent status 0 ∅ [] 0 cancel false false 0 [] 0 0 [].
Definition with_cancel (t : Task) (cancel : option Ctx) : Task :=
  mkTask (tkInfo t) (tkAgent t) (tkStatus t) (tkExitCode t) (tkResult t) (tkError t) (tkCompletedAt t) cancel
    (tkStopRequested t) (tkStalled t) (tkChanged t) (tkOutput t) (tkLastLivenessAt t) (tkLastOutputAt t) (tkBranches t).
Definition with_status (t : Task) (status : TaskStatus) (exitCode completedAt : Z) (error : str) : Task :=
  mkTask (tkInfo t) (tkAgent t) status exitCode (tkResult t) error completedAt (tkCancel t)
    (tkStopRequested t) (tkStalled t) (tkChanged t) (tkOutput t) (tkLastLivenessAt t) (tkLastOutputAt t) (tkBranches t).
Definition with_agent (t : Task) (agent : AgentFields) : Task :=
  mkTask (tkInfo t) agent (tkStatus t) (tkExitCode t) (tkResult t) (tkError t) (tkCompletedAt t) (tkCancel t)
    (tkStopRequested t) (tkStalled t) (tkChanged t) (tkOutput t) (tkLastLivenessAt t) (tkLastOutputAt t) (tkBranches t).
Definition with_result (t : Task) (result : gmap str value) : Task :=
  mkTask (tkInfo t) (tkAgent t) (tkStatus t) (tkExitCode t) result (tkError t) (tkCompletedAt t) (tkCancel t)
    (tkStopRequested t) (tkStalled t) (tkChanged t) (tkOutput t) (tkLastLivenessAt t) (tkLastOutputAt t) (tkBranches t).
Definition with_branches (t : Task) (branches : list SpawnBranch) : Task :=
  mkTask (tkInfo t) (tkAgent t) (tkStatus t) (tkExitCode t) (tkResult t) (tkError t) (tkCompletedAt t) (tkCancel t)
    (tkStopRequested t) (tkStalled t) (tkChanged t) (tkOutput t) (tkLastLivenessAt t) (tkLastOutputAt t) branches.
Definition with_output (t : Task) (output : str) (now : Z) : Task :=
  mkTask (tkInfo t) (tkAgent t) (tkStatus t) (tkExitCode t) (tkResult t) (tkError t) (tkCompletedAt t) (tkCancel t)
    (tkStopRequested t) (tkStalled t) (tkChanged t) output (tkLastLivenessAt t) now (tkBranches t).
Definition with_liveness (t : Task) (at_ : Z) : Task :=
  mkTask (tkInfo t) (tkAgent t) (tkStatus t) (tkExitCode t) (tkResult t) (tkError t) (tkCompletedAt t) (tkCancel t)
    (tkStopRequested t) (tkStalled t) (tkChanged t) (tkOutput t) at_ (tkLastOutputAt t) (tkBranches t).
Definition request_stop (t : Task) : Task :=
  mkTask (tkInfo t) (tkAgent t) (tkStatus t) (tkExitCode t) (tkResult t) (tkError t) (tkCompletedAt t) (tkCancel t)
    true (tkStalled t) (tkChanged t) (tkOutput t) (tkLastLivenessAt t) (tkLastOutputAt t) (tkBranches t).
Definition signalChangedLocked (t : Task) : Task :=
  mkTask (tkInfo t) (tkAgent t) (tkStatus t) (tkExitCode t) (tkResult t) (tkError t) (tkCompletedAt t) (tkCancel t)
    (tkStopRequested t) (tkStalled t) (tkChanged t + 1) (tkOutput t) (tkLastLivenessAt t) (tkLastOutputAt t) (tkBranches t).
(** [Task.MarkStalled]; [None] when the task is marked already. *)
Definition MarkStalled (t : Task) : option Task :=
  if tkStalled t then None
  else Some (signalChangedLocked (mkTask (tkInfo t) (tkAgent t) (tkStatus t) (tkExitCode t) (tkResult t) (tkError t) (tkCompletedAt t)
    (tkCancel t) (tkStopRequested t) true (tkChanged t) (tkOutput t) (tkLastLivenessAt t) (tkLastOutputAt t) (tkBranches t))).
Definition Cancel (t : Task) : Task := with_cancel t (cancelled <$> tkCancel t).

(** ** Output tail *)
Definition maxTailBytes : nat := 4096.
(** [s[len(s)-n:]] *)
Definition suffix_of (n : nat) (s : str) : str := drop (length s - n) s.
Definition appendOutput (output s : str) : str :=
  let output := output ++ s in
  if (maxTailBytes * 2 <? length output)%nat then
    (if (maxTailBytes <? length output)%nat then suffix_of maxTailBytes output else output)
  else output.
Definition appendOutputLocked (t : Task) (s : str) (now : Z) : Task := with_output t (appendOutput (tkOutput t) s) now.
Definition AppendOutput (t : Task) (s : str) (now : Z) : Task := appendOutputLocked t s now.
Definition outputTailLocked (output : str) : str :=
  if (maxTailBytes <? length output)%nat then suffix_of maxTailBytes output else output.
Definition OutputTail (t : Task) : str := outputTailLocked (tkOutput t).

(** ** Snapshots *)
Record TaskSnapshot : Type := mkSnapshot {
  ssInfo : TaskInfo; ssAgent : AgentFields; ssStatus : TaskStatus; ssExitCode : Z; ssOutputTail : str; ssResult : gmap str value;
  ssError : str; ssBranches : list SpawnBranch; ssCompletedAt : Z; ssLastOutputAt : Z; ssLastLivenessAt : Z; ssDuration : Z;
  ssStalled : bool }.
Definition Task_Snapshot (t : Task) (now : Z) : TaskSnapshot :=
  let duration := if time_is_zero (tkCompletedAt t) then time_sub now (tiStartedAt (tkInfo t))
                  else time_sub (tkCompletedAt t) (tiStartedAt (tkInfo t)) in
  mkSnapshot (tkInfo t) (tkAgent t) (tkStatus t) (tkExitCode t) (OutputTail t) (tkResult t) (tkError t) (tkBranches t)
    (tkCompletedAt t) (tkLastOutputAt t) (tkLastLivenessAt t) duration (tkStalled t && status_is (tkStatus t) TaskRunning).

(** ** The manager and its events *)
Inductive TaskEventType : Type :=
  TaskEventQueued | TaskEventStarted | TaskEventOutput | TaskEventCompleted | TaskEventFailed | TaskEventKilled | TaskEventUnknown | TaskEventStalled.
#[export] Instance TaskEventType_eq_dec : EqDecision TaskEventType. Proof. solve_decision. Defined.
Record TaskEvent : Type := mkEvent {
  evEvent : TaskEventType; evTaskID : str; evKind : TaskKind; evBotID : str; evSessionID : str; evCommand : str; evAgentID : str;
  evAgentSessionID : str; evStatus : TaskStatus; evStream : str; evChunk : str; evTail : str; evOutputFile : str; evExitCode : Z;
  evDuration : str; evStalled : bool }.
(** [emitted] is what the callback was called with, when there is one. *)
Record Manager : Type := mkManager { tasks : gmap str Task; eventFunc : bool; emitted : list TaskEvent }.
Definition New : Manager := mkManager ∅ false [].
Definition SetEventFunc (m : Manager) (registered : bool) : Manager := mkManager (tasks m) registered (emitted m).
Definition emitEvent (m : Manager) (e : TaskEvent) : Manager :=
  if eventFunc m then mkManager (tasks m) (eventFunc m) (emitted m ++ [e]) else m.
Definition event_command (t : Task) : str :=
  if is_empty (tiCommand (tkInfo t)) then (if is_empty (tiDescription (tkInfo t)) then agMessage (tkAgent t) else tiDescription (tkInfo t))
  else tiCommand (tkInfo t).
Definition taskEvent (t : Task) (event : TaskEventType) (stream chunk : str) (later : Z) : TaskEvent :=
  let info := tkInfo t in
  mkEvent event (tiID info) (tiKind info) (tiBotID info) (tiSessionID info) (event_command t) (tiAgentID info) (tiAgentSessionID info)
    (tkStatus t) stream chunk (OutputTail t) (tiOutputFile info) (tkExitCode t)
    (let duration := Duration_String (Round (time_sub later (tiStartedAt info)) Millisecond) in
     if bool_decide (event ∈ [TaskEventCompleted; TaskEventFailed; TaskEventStalled]) then trim_space duration else duration)
    (bool_decide (event = TaskEventStalled)).
Definition emitTaskEvent (m : Manager) (t : Task) (event : TaskEventType) (stream chunk : str) (later : Z) : Manager :=
  emitEvent m (taskEvent t event stream chunk later).
(** The task is changed where the map refers to it. *)
Definition put (m : Manager) (id : str) (t : Task) : Manager := mkManager (<[id := t]> (tasks m)) (eventFunc m) (emitted m).
Definition Get (m : Manager) (taskID : str) : option Task := tasks m !! taskID.
(** A range over the map; Go's order is unspecified. *)
Definition range (m : Manager) : list Task := (map_to_list (tasks m)).*2.

(** ** Identifiers *)
Definition EncodeToString (buf : str) : str := flat_map (fun c => [hex_digit (byte_val c / 16); hex_digit (byte_val c mod 16)]) buf.
(** [shortRandHex] of [buf], the bytes [rand.Read] gave. *)
Definition shortRandHex (buf : str) : str := EncodeToString buf.
Definition taskID_of (botID buf : str) : str := lit "bg_" ++ take 8 botID ++ lit "_" ++ shortRandHex buf.
(** [draws] are the bytes of the rounds; [None] when the loop is still drawing
    after them. *)
Fixpoint newTaskIDLocked (known : gmap str Task) (botID : str) (draws : list str) : option str :=
  match draws with
  | [] => None
  | buf :: draws => let id := taskID_of botID buf in if bool_decide (known !! id = None) then Some id else newTaskIDLocked known botID draws
  end.

(** ** Commands ([manager.go]) *)
Definition OutputLogDir : str := lit "/tmp/memoh-bg".
Definition BackgroundExecTimeout : Z := 7200.
Definition backgroundOutputFile (outputDir taskID : str) : str :=
  let outputDir := trim_space outputDir in
  path_join (if is_empty outputDir then OutputLogDir else outputDir) (taskID ++ lit ".log").
(** Registers a task that runs and emits its first event. *)
Definition register (m : Manager) (t : Task) (event : TaskEventType) (later : Z) : Manager :=
  emitTaskEvent (put m (tiID (tkInfo t)) t) t event [] [] later.
Definition Spawn (m : Manager) (parentCtx : Ctx) (botID sessionID command workDir description : str) (draws : list str) (now later : Z)
    : option (Manager * str * str) :=
  taskID ← newTaskIDLocked (tasks m) botID draws;
  let outputFile := OutputLogDir ++ lit "/" ++ taskID ++ lit ".log" in
  let info := mkInfo taskID KindExec botID sessionID command description [] [] workDir outputFile now 0 in
  let cancel := Some (detachedContextWithTimeout parentCtx (BackgroundExecTimeout * Second) now) in
  Some (register m (with_cancel (newTask info no_agent TaskRunning None) cancel) TaskEventStarted later, taskID, outputFile).
(** [deadline] is that of the options, 0 for none; without options it is the
    default budget from now. *)
Definition SpawnAdopt (m : Manager) (parentCtx : Ctx) (botID sessionID command workDir description outputDir : str) (option_ : option Z)
    (draws : list str) (now later : Z) : option (Manager * str * str) :=
  let deadline := default (now + BackgroundExecTimeout * Second) option_ in
  let ctx := if time_is_zero deadline then WithoutCancel parentCtx else WithDeadline (WithoutCancel parentCtx) deadline in
  taskID ← newTaskIDLocked (tasks m) botID draws;
  let outputFile := backgroundOutputFile outputDir taskID in
  let info := mkInfo taskID KindExec botID sessionID command description [] [] workDir outputFile now deadline in
  Some (register m (newTask info no_agent TaskRunning (Some ctx)) TaskEventStarted later, taskID, outputFile).
Definition RecordOutput (m : Manager) (taskID stream chunk : str) (now later : Z) : Manager :=
  let chunk := trim_suffix chunk ["000"%char] in
  if blank taskID || is_empty chunk then m
  else
    match Get m taskID with
    | None => m
    | Some task =>
        let task := AppendOutput task chunk now in
        emitTaskEvent (put m taskID task) task TaskEventOutput stream chunk later
    end.
Definition error_line (message : str) : str := lit "[error] " ++ message ++ [nl].
Definition unconfirmed : str := lit "Execution stopped without a confirmed exit. Check the saved output before retrying.".
(** [completeTask] under [task.mu]; [None] when the task was killed. *)
Definition completeTaskLocked (t : Task) (stdout stderr : str) (execErr : option str) (exitCode : Z) (exitKnown adopted : bool) (now : Z)
    : option Task :=
  if status_is (tkStatus t) TaskKilled then None
  else
    let lost := bool_decide (is_Some execErr) && negb exitKnown in
    let errorMessage := if lost && adopted then unconfirmed else default [] execErr in
    let t :=
      match execErr with
      | Some _ => appendOutputLocked t (error_line errorMessage) now
      | None => let t := appendOutputLocked t stdout now in if is_empty stderr then t else appendOutputLocked t stderr now
      end in
    let '(status, exitCode) :=
      if lost then (if adopted then TaskUnknown else TaskFailed, -1)
      else match execErr with
           | Some _ => (TaskFailed, exitCode)
           | None => (if exitCode =? 0 then TaskCompleted else TaskFailed, exitCode)
           end in
    Some (signalChangedLocked (with_status t status exitCode now (tkError t))).
(** The error the unit of work ends with. *)
Definition unit_error (execErr : option str) (exitKnown ctxEnded : bool) : option str :=
  match execErr with
  | Some e => if exitKnown || ctxEnded then None else Some (lit "execute background command: " ++ e)
  | None => None
  end.
Definition completeTask (m : Manager) (taskID stdout stderr : str) (execErr : option str) (exitCode : Z) (exitKnown adopted ctxEnded : bool)
    (now later : Z) : Manager * option str :=
  match Get m taskID with
  | None => (m, None)
  | Some task =>
      match completeTaskLocked task stdout stderr execErr exitCode exitKnown adopted now with
      | None => (m, None)
      | Some task =>
          let event := if status_is (tkStatus task) TaskFailed || status_is (tkStatus task) TaskUnknown then TaskEventFailed else TaskEventCompleted in
          (emitTaskEvent (put m taskID task) task event [] [] later, unit_error execErr exitKnown ctxEnded)
      end
  end.
(** [run]: [executed] is what [execFn] gave, [sentinel] the exit file when
    there is a way to read it. *)
Record ExecResult : Type := mkExec { exStdout : str; exStderr : str; exExitCode : Z }.
Definition wrappedCmd (command outputFile : str) : str :=
  lit "{ { ( " ++ command ++ lit " ) ; echo $? >&3 ; } 2>&1 | tee " ++ outputFile ++ lit " ; } 3>" ++ outputFile ++ lit ".exit".
Definition int32 (z : Z) : Z := (z + 2 ^ 31) mod 2 ^ 32 - 2 ^ 31.
Definition readSentinelExitCode (data : option str) : option Z := d ← data; ec ← Atoi (trim_space d); Some (int32 ec).
Definition recovered (executed : option ExecResult) (err : option str) (sentinel : option (option str)) : option ExecResult * option str :=
  match sentinel ≫= readSentinelExitCode with
  | Some ec => (Some (mkExec [] [] ec), None)
  | None => (executed, err)
  end.
Definition run (m : Manager) (taskID : str) (executed : option ExecResult) (err : option str) (sentinel : option (option str)) (ctxEnded : bool)
    (now later : Z) : Manager * option str :=
  let '(result, err) := recovered executed err sentinel in
  let r := default (mkExec [] [] 0) result in
  completeTask m taskID (exStdout r) (exStderr r) err (exExitCode r) (bool_decide (is_Some result)) false ctxEnded now later.
(** [runAdopt]: the stream's result, with whether the context has ended by the
    time it is recorded, or the error the context ended with first and the
    result that came within five seconds after it. *)
Record AdoptResult : Type := mkAdopt {
  arStdout : str; arStderr : str; arExitCode : Z; arExitReceived : bool; arErr : option str; arOutputRecorded : bool }.
Definition adopted_outcome : Type := AdoptResult * bool + str * option AdoptResult.
Definition awaited (o : adopted_outcome) : AdoptResult * bool :=
  match o with
  | inl r => r
  | inr (ctxErr, Some r) =>
      (mkAdopt (arStdout r) (arStderr r) (arExitCode r) (arExitReceived r) (Some (default ctxErr (arErr r))) (arOutputRecorded r), true)
  | inr (ctxErr, None) => (mkAdopt [] [] 0 false (Some ctxErr) false, true)
  end.
Definition combineOutput (stdout stderr : str) : str :=
  if is_empty stderr then stdout else if is_empty stdout then stderr else stdout ++ [nl] ++ lit "--- stderr ---" ++ [nl] ++ stderr.
Definition appendLogError (output : str) (err : option str) : str :=
  match err with
  | None => output
  | Some e =>
      let line := lit "[error] " ++ e ++ [nl] in
      if is_empty output then line else if has_suffix output [nl] then output ++ line else output ++ [nl] ++ line
  end.
(** What is written to the output log; [None] when nothing is. *)
Definition adopt_log (r : AdoptResult) : option str :=
  let combined := appendLogError (combineOutput (arStdout r) (arStderr r)) (arErr r) in
  if is_empty combined && bool_decide (arErr r = None) then None else Some combined.
(** The context is cancelled where it ended first, and again when the unit
    returns. *)
Definition cancel_task (m : Manager) (taskID : str) : Manager :=
  match Get m taskID with Some t => put m taskID (Cancel t) | None => m end.
Definition runAdopt (m : Manager) (taskID : str) (o : adopted_outcome) (now later : Z) : Manager * option str :=
  let m := match o with inr _ => cancel_task m taskID | inl _ => m end in
  let '(r, ctxEnded) := awaited o in
  let '(stdout, stderr) := if arOutputRecorded r then ([], []) else (arStdout r, arStderr r) in
  let '(m, e) := completeTask m taskID stdout stderr (arErr r) (arExitCode r) (arExitReceived r) true ctxEnded now later in
  (cancel_task m taskID, e).

(** ** Stopping *)
Definition not_found (taskID : str) : str := lit "task " ++ taskID ++ lit " not found".
Definition status_text (s : TaskStatus) : str :=
  match s with
  | TaskQueued => lit "queued" | TaskRunning => lit "running" | TaskCompleted => lit "completed"
  | TaskFailed => lit "failed" | TaskKilled => lit "killed" | TaskUnknown => lit "unknown"
  end.
Definition live (s : TaskStatus) : bool := status_is s TaskRunning || status_is s TaskQueued.
Definition stops_later (t : Task) : bool :=
  (kind_is (tiKind (tkInfo t)) KindAgent || kind_is (tiKind (tkInfo t)) KindDependency) && status_is (tkStatus t) TaskRunning.
Definition Kill (m : Manager) (taskID : str) (now later : Z) : Manager * option str :=
  match Get m taskID with
  | None => (m, Some (not_found taskID))
  | Some task =>
      if negb (live (tkStatus task)) then
        (m, Some (lit "task " ++ taskID ++ lit " is not running (status: " ++ status_text (tkStatus task) ++ lit ")"))
      else if stops_later task then
        if tkStopRequested task then (m, Some (lit "task " ++ taskID ++ lit " stop already requested"))
        else (put m taskID (Cancel (request_stop task)), None)
      else
        let task := Cancel (signalChangedLocked (with_status task TaskKilled (tkExitCode task) now (tkError task))) in
        (emitTaskEvent (put m taskID task) task TaskEventKilled [] [] later, None)
  end.
Definition AgentTaskStopRequested (m : Manager) (taskID : str) : bool :=
  match Get m taskID with Some task => kind_is (tiKind (tkInfo task)) KindAgent && tkStopRequested task | None => false end.
Definition in_session (botID sessionID : str) (t : Task) : bool :=
  str_eqb (tiBotID (tkInfo t)) botID && str_eqb (tiSessionID (tkInfo t)) sessionID.
Definition GetForSession (m : Manager) (botID sessionID taskID : str) : option Task :=
  task ← Get m taskID; if in_session botID sessionID task then Some task else None.
Definition KillForSession (m : Manager) (botID sessionID taskID : str) (now later : Z) : Manager * option str :=
  match GetForSession m botID sessionID taskID with
  | None => (m, Some (not_found taskID))
  | Some _ => Kill m taskID now later
  end.
Definition ListForSession (m : Manager) (botID sessionID : str) : list Task := List.filter (in_session botID sessionID) (range m).
Definition started_after (a b : TaskSnapshot) : bool := tiStartedAt (ssInfo b) <? tiStartedAt (ssInfo a).
(** [now] is the clock of all the snapshots. *)
Definition ListSnapshotsForSession (m : Manager) (botID sessionID : str) (now : Z) : list TaskSnapshot :=
  stable_sort started_after ((fun t => Task_Snapshot t now) <$> List.filter (in_session botID sessionID) (range m)).

(** ** Waiting *)
Inductive WaitOutcome : Type := WaitCompleted | WaitFailed | WaitKilled | WaitUnknown | WaitStalled | WaitIdle.
#[export] Instance WaitOutcome_eq_dec : EqDecision WaitOutcome. Proof. solve_decision. Defined.
(** One round of [WaitForSessionTask]: an outcome, or what it waits for: the
    channel and, for an idle command, the rest of the threshold. *)
Definition waitRound (idleThreshold now : Z) (t : Task) : WaitOutcome + Z * option Z :=
  match tkStatus t with
  | TaskCompleted => inl WaitCompleted
  | TaskFailed => inl WaitFailed
  | TaskKilled => inl WaitKilled
  | TaskUnknown => inl WaitUnknown
  | status =>
      if tkStalled t && status_is status TaskRunning then inl WaitStalled
      else if (0 <? idleThreshold) && kind_is (tiKind (tkInfo t)) KindExec && status_is status TaskRunning then
        let lastOutputAt := if time_is_zero (tkLastOutputAt t) then tiStartedAt (tkInfo t) else tkLastOutputAt t in
        let remaining := time_sub (lastOutputAt + idleThreshold) now in
        if remaining <=? 0 then inl WaitIdle else inr (tkChanged t, Some remaining)
      else inr (tkChanged t, None)
  end.
(** The loop, [wakes] the task and the clock at each wake-up: [inl] an outcome
    of the wait, [inr] the context's error when it ends first. *)
Fixpoint waitLoop (idleThreshold : Z) (t : Task) (now : Z) (wakes : list (Task * Z * option str)) : option (TaskSnapshot * (WaitOutcome + str)) :=
  match waitRound idleThreshold now t with
  | inl outcome => Some (Task_Snapshot t now, inl outcome)
  | inr _ =>
      match wakes with
      | [] => None
      | (t, now, Some ctxErr) :: _ => Some (Task_Snapshot t now, inr ctxErr)
      | (t, now, None) :: wakes => waitLoop idleThreshold t now wakes
      end
  end.
Definition WaitForSessionTask (m : Manager) (botID sessionID taskID : str) (idleThreshold now : Z) (wakes : list (Task * Z * option str))
    : result str (option (TaskSnapshot * (WaitOutcome + str))) :=
  match GetForSession m botID sessionID taskID with
  | None => Err (not_found taskID)
  | Some task => Ok (waitLoop idleThreshold task now wakes)
  end.

(** ** What is running, and what is kept *)
Definition truncate_text (s : str) (n : nat) : str := if (length s <=? n)%nat then s else take n s ++ lit "...".
Definition joinLines (lines : list str) : str := match lines with [] => [] | _ => join [nl] lines ++ [nl] end.
Definition running_in (botID sessionID : str) (t : Task) : bool := in_session botID sessionID t && status_is (tkStatus t) TaskRunning.
Definition summary_line (now : Z) (t : Task) : str :=
  let info := tkInfo t in
  let desc := if is_empty (tiDescription info) then truncate_text (tiCommand info) 80 else tiDescription info in
  lit "- [" ++ tiID info ++ lit "] " ++ desc ++ lit " (started " ++ Duration_String (Round (time_sub now (tiStartedAt info)) Second) ++ lit " ago" ++
  (if is_empty (tiOutputFile info) then [] else lit ", output: " ++ tiOutputFile info) ++ lit ")".
Definition RunningTasksSummary (m : Manager) (botID sessionID : str) (now : Z) : str :=
  match summary_line now <$> List.filter (running_in botID sessionID) (range m) with
  | [] => []
  | lines => lit "Currently running background tasks:" ++ [nl] ++ joinLines lines ++
             lit "Use wait_until(task_id) to wait for a task, then get_background_status(task_id) to inspect its result." ++ [nl]
  end.
Definition terminal_status (s : TaskStatus) : bool := bool_decide (s ∈ [TaskCompleted; TaskFailed; TaskKilled; TaskUnknown]).
Definition removable (cutoff : Z) (t : Task) : bool :=
  terminal_status (tkStatus t) && (negb (time_is_zero (tkCompletedAt t)) && (tkCompletedAt t <? cutoff)).
Definition Cleanup (m : Manager) (maxAge now : Z) : Manager :=
  mkManager (filter (fun kt => removable (now - maxAge) kt.2 = false) (tasks m)) (eventFunc m) (emitted m).
Definition RecordLiveness (m : Manager) (taskID : str) (at_ : Z) : Manager :=
  match Get m taskID with
  | None => m
  | Some task =>
      if status_is (tkStatus task) TaskRunning && (tkLastLivenessAt task <? at_) then put m taskID (with_liveness task at_) else m
  end.

(** ** In-process jobs ([managed_task.go]) *)
Definition SpawnManaged (m : Manager) (parentCtx : Ctx) (botID sessionID description : str) (draws : list str) (now later : Z)
    : option (Manager * str) :=
  taskID ← newTaskIDLocked (tasks m) botID draws;
  let info := mkInfo taskID KindDependency botID sessionID [] description [] [] [] [] now 0 in
  Some (register m (newTask info no_agent TaskRunning (Some (WithoutCancel parentCtx))) TaskEventStarted later, taskID).
(** An error and what [errors.Is] says of it. *)
Record RunError : Type := mkRunError { reText : str; reOutcomeUnknown : bool; reCanceled : bool }.
Inductive RunEnd : Type := Returned (err : option RunError) | Panicked (shown : str).
Definition callManaged (run : option RunEnd) : option RunError :=
  match run with
  | None => Some (mkRunError (lit "background: managed task has no run function") false false)
  | Some (Panicked shown) => Some (mkRunError (lit "background: managed task panicked: " ++ shown) false false)
  | Some (Returned err) => err
  end.
Definition completeManagedLocked (t : Task) (runErr : option RunError) (now : Z) : option Task :=
  if status_is (tkStatus t) TaskKilled then None
  else
    Some (signalChangedLocked
      match runErr with
      | None => with_status t TaskCompleted 0 now (tkError t)
      | Some e =>
          let text := trim_space (reText e) in
          if reOutcomeUnknown e then with_status t TaskUnknown (-1) now text
          else if tkStopRequested t && reCanceled e then with_status t TaskKilled 1 now (tkError t)
          else appendOutputLocked (with_status t TaskFailed 1 now text) (error_line text) now
      end).
Definition completeManaged (m : Manager) (taskID : str) (runErr : option RunError) (now later : Z) : Manager :=
  match Get m taskID with
  | None => m
  | Some task =>
      match completeManagedLocked task runErr now with
      | None => m
      | Some task =>
          let event := match tkStatus task with
                       | TaskFailed => TaskEventFailed | TaskKilled => TaskEventKilled | TaskUnknown => TaskEventUnknown
                       | _ => TaskEventCompleted
                       end in
          emitTaskEvent (put m taskID task) task event [] [] later
      end
  end.
Definition runManaged (m : Manager) (taskID : str) (run : option RunEnd) (now later : Z) : Manager :=
  cancel_task (completeManaged m taskID (callManaged run) now later) taskID.

(** ** Subagents ([spawn_task.go]) *)
Definition MaxRunningSpawnTasks : nat := 3.
Definition spawnReportMaxBytes : nat := 2048.
Definition spawnBranchTaskMaxBytes : nat := 200.
Definition spawnBranchErrorMaxBytes : nat := 512.
(** An [AgentTaskResult]; [None] is an empty status. *)
Record AgentTaskResult : Type := mkAgentResult {
  atrMessage : str; atrModelID : str; atrProvider : str; atrFork : bool; atrStatus : option TaskStatus; atrReport : str; atrError : str }.
(** With the identifier the context of a task that runs. *)
Definition StartAgentTask (m : Manager) (parentCtx : Ctx) (botID sessionID agentID agentSessionID message description : str) (queued : bool)
    (draws : list str) (now later : Z) : option (Manager * str * option Ctx) :=
  let ctx := if queued then None else Some (detachedTaskContext parentCtx) in
  taskID ← newTaskIDLocked (tasks m) botID draws;
  let info := mkInfo taskID KindAgent botID sessionID [] description agentID agentSessionID [] [] now 0 in
  let task := newTask info (mkAgent message [] [] [] [] false) (if queued then TaskQueued else TaskRunning) ctx in
  Some (register m task (if queued then TaskEventQueued else TaskEventStarted) later, taskID, ctx).
Definition MarkAgentTaskRunning (m : Manager) (parentCtx : Ctx) (taskID : str) (later : Z) : Manager * result str (option Ctx) :=
  match Get m taskID with
  | None => (m, Err (lit "agent task " ++ taskID ++ lit " not found"))
  | Some task =>
      if negb (kind_is (tiKind (tkInfo task)) KindAgent) then (m, Err (lit "agent task " ++ taskID ++ lit " not found"))
      else match tkStatus task with
           | TaskKilled => (m, Ok None)
           | TaskQueued =>
               let ctx := detachedTaskContext parentCtx in
               let task := signalChangedLocked (with_cancel (with_status task TaskRunning (tkExitCode task) (tkCompletedAt task) (tkError task)) (Some ctx)) in
               (emitTaskEvent (put m taskID task) task TaskEventStarted [] [] later, Ok (Some ctx))
           | status => (m, Err (lit "agent task " ++ taskID ++ lit " is not queued (status: " ++ status_text status ++ lit ")"))
           end
  end.
Definition result_status (r : AgentTaskResult) : TaskStatus :=
  default (if is_empty (atrError r) then TaskCompleted else TaskFailed) (atrStatus r).
Definition completeAgentLocked (t : Task) (r : AgentTaskResult) (now : Z) : option Task :=
  if status_is (tkStatus t) TaskKilled then None
  else
    let message := if is_empty (atrMessage r) then agMessage (tkAgent t) else atrMessage r in
    let t := with_status t (result_status r) (tkExitCode t) now (tkError t) in
    Some (signalChangedLocked (with_agent t (mkAgent message (atrReport r) (atrError r) (atrModelID r) (atrProvider r) (atrFork r)))).
(** The operation on a task of the kind, after which its context is released. *)
Definition complete_kind (m : Manager) (taskID : str) (kind : TaskKind) (f : Task -> Manager -> Manager) : Manager :=
  match Get m taskID with
  | Some task => if kind_is (tiKind (tkInfo task)) kind then cancel_task (f task m) taskID else m
  | None => m
  end.
Definition CompleteAgentTask (m : Manager) (taskID : str) (r : AgentTaskResult) (now later : Z) : Manager :=
  complete_kind m taskID KindAgent (fun task m =>
    match completeAgentLocked task r now with
    | None => m
    | Some task =>
        let event := match tkStatus task with TaskKilled => TaskEventKilled | TaskCompleted => TaskEventCompleted | _ => TaskEventFailed end in
        emitTaskEvent (put m taskID task) task event [] [] later
    end).
Definition clampBranch (b : SpawnBranch) : SpawnBranch :=
  mkBranch (truncate_text (sbTask b) spawnBranchTaskMaxBytes) (sbChildSessionID b) (sbStatus b)
    (if (spawnReportMaxBytes <? length (sbReport b))%nat then suffix_of spawnReportMaxBytes (sbReport b) else sbReport b)
    (truncate_text (sbError b) spawnBranchErrorMaxBytes).
Definition clampSpawnBranches (branches : list SpawnBranch) : list SpawnBranch := map clampBranch branches.
Definition join_status (branches : list SpawnBranch) : TaskStatus :=
  if forallb (fun b => status_is (sbStatus b) TaskCompleted) branches then TaskCompleted else TaskFailed.
(** Under the lock: the branches are set even when the task was killed. *)
Definition completeSpawnLocked (t : Task) (branches : list SpawnBranch) (now : Z) : Task + Task :=
  let t := with_branches t branches in
  if status_is (tkStatus t) TaskKilled then inl t
  else inr (signalChangedLocked (with_status t (join_status branches) (tkExitCode t) now (tkError t))).
Definition CompleteSpawnTask (m : Manager) (taskID : str) (branches : list SpawnBranch) (now later : Z) : Manager :=
  complete_kind m taskID KindSpawn (fun task m =>
    match completeSpawnLocked task (clampSpawnBranches branches) now with
    | inl task => put m taskID task
    | inr task =>
        emitTaskEvent (put m taskID task) task (if status_is (tkStatus task) TaskFailed then TaskEventFailed else TaskEventCompleted) [] [] later
    end).
Definition running_spawn (botID sessionID : str) (t : Task) : bool :=
  kind_is (tiKind (tkInfo t)) KindSpawn && in_session botID sessionID t && status_is (tkStatus t) TaskRunning.
Definition runningSpawnCountLocked (m : Manager) (botID sessionID : str) : nat := countb (running_spawn botID sessionID) (range m).
Definition spawn_limit : str :=
  lit "spawn limit reached: max " ++ itoa (Z.of_nat MaxRunningSpawnTasks) ++ lit " concurrently running background spawn tasks per session".
Definition StartSpawnTask (m : Manager) (parentCtx : Ctx) (botID sessionID description : str) (draws : list str) (now later : Z)
    : option (Manager * result str (str * Ctx)) :=
  let ctx := detachedTaskContext parentCtx in
  if (MaxRunningSpawnTasks <=? runningSpawnCountLocked m botID sessionID)%nat then Some (m, Err spawn_limit)
  else
    taskID ← newTaskIDLocked (tasks m) botID draws;
    let info := mkInfo taskID KindSpawn botID sessionID [] description [] [] [] [] now 0 in
    Some (register m (newTask info no_agent TaskRunning (Some ctx)) TaskEventStarted later, Ok (taskID, ctx)).

(** ** Videos ([video_task.go]) *)
Definition StartVideoTask (m : Manager) (parentCtx : Ctx) (botID sessionID description : str) (budgets : option Z) (draws : list str) (now later : Z)
    : option (Manager * str * Ctx) :=
  let budget := match budgets with Some b => if 0 <? b then b else 7200 * Second | None => 7200 * Second end in
  let ctx := detachedContextWithTimeout parentCtx budget now in
  taskID ← newTaskIDLocked (tasks m) botID draws;
  let info := mkInfo taskID KindVideo botID sessionID [] description [] [] [] [] now 0 in
  Some (register m (newTask info no_agent TaskRunning (Some ctx)) TaskEventStarted later, taskID, ctx).
Definition RecordVideoTaskProgress (m : Manager) (taskID : str) (result : gmap str value) (outputLine : str) (now later : Z) : Manager * bool :=
  match Get m taskID with
  | None => (m, false)
  | Some task =>
      let outputLine := trim_space outputLine in
      if negb (kind_is (tiKind (tkInfo task)) KindVideo) || negb (status_is (tkStatus task) TaskRunning) then (m, false)
      else
        let task := with_result task (result ∪ tkResult task) in
        let task := if is_empty outputLine then task else appendOutputLocked task (outputLine ++ [nl]) now in
        let task := signalChangedLocked task in
        let m := put m taskID task in
        (if is_empty outputLine then m else emitTaskEvent m task TaskEventOutput (lit "video") (outputLine ++ [nl]) later, true)
  end.
(** The status a video task ends with; [None] is an empty one. *)
Definition video_status (status : option TaskStatus) (errorMessage : str) : TaskStatus :=
  let status := default (if blank errorMessage then TaskCompleted else TaskFailed) status in
  if bool_decide (status ∈ [TaskCompleted; TaskFailed; TaskUnknown]) then status else TaskFailed.
Definition completeVideoLocked (t : Task) (status : TaskStatus) (result : gmap str value) (errorMessage : str) (now : Z) : option Task :=
  if status_is (tkStatus t) TaskKilled then None
  else
    let error := trim_space errorMessage in
    let t := with_status t status (tkExitCode t) now error in
    let t := if bool_decide (result = ∅) then t else with_result t result in
    let t := if negb (is_empty error) then appendOutputLocked t (error_line error) now
             else if status_is status TaskCompleted then appendOutputLocked t (lit "Video generation completed." ++ [nl]) now
             else t in
    Some (signalChangedLocked t).
Definition CompleteVideoTask (m : Manager) (taskID : str) (status : option TaskStatus) (result : gmap str value) (errorMessage : str)
    (now later : Z) : Manager :=
  complete_kind m taskID KindVideo (fun task m =>
    match completeVideoLocked task (video_status status errorMessage) result errorMessage now with
    | None => m
    | Some task =>
        let event := if status_is (tkStatus task) TaskFailed || status_is (tkStatus task) TaskUnknown then TaskEventFailed else TaskEventCompleted in
        emitTaskEvent (put m taskID task) task event [] [] later
    end).

(** ** The watchdog of stalled commands *)
Definition lower_byte (c : ascii) : Z := if ascii_upper (byte_val c) then byte_val c + 32 else byte_val c.
(** Reads a pattern, given in lower case, without regard to case; the long s
    folds to an s as well. *)
Fixpoint eat (p s : str) : option str :=
  match p, s with
  | [], _ => Some s
  | _, [] => None
  | a :: p, c :: s' =>
      if lower_byte c =? byte_val a then eat p s'
      else match s' with
           | d :: s'' => if Ascii.eqb a "s"%char && (byte_val c =? 197) && (byte_val d =? 191) then eat p s'' else None
           | [] => None
           end
  end.
Definition eats (p s : str) : bool := bool_decide (is_Some (eat p s)).
Fixpoint suffixes (s : str) : list str := s :: match s with [] => [] | _ :: r => suffixes r end.
Fixpoint first_line (s : str) : str := match s with [] => [] | c :: r => if Ascii.eqb c nl then [] else c :: first_line r end.
Definition regexp_space (c : ascii) : bool := in_cutset ([tab; nl; "012"%char; cr] ++ lit " ") c.
(** [c ?$] *)
Definition ends_with_prompt (c : str) (s : str) : bool := str_eqb s c || str_eqb s (c ++ lit " ").
(** [p\s*:] *)
Definition asks_for (p s : str) : bool :=
  match eat p s with Some r => has_prefix (drop_while regexp_space r) (lit ":") | None => false end.
(** The alternatives of [promptPatterns] at the beginning of a text. *)
Definition prompt_at (s : str) : bool :=
  ends_with_prompt (lit "$") s || ends_with_prompt (lit ">") s || ends_with_prompt (lit "#") s ||
  asks_for (lit "password") s || asks_for (lit "passphrase") s || eats (lit "y/n]") s || eats (lit "yes/no)") s ||
  match eat (lit "enter ") s with Some r => contains (first_line r) (lit ":") | None => false end ||
  match eat (lit "press ") s with Some r => existsb (eats (lit " to continue")) (suffixes (first_line r)) | None => false end ||
  eats (lit "are you sure") s || eats (lit "continue?") s || eats (lit "proceed?") s.
Definition promptPatterns (s : str) : bool := existsb prompt_at (suffixes s).
Definition stallThreshold : Z := 45 * Second.
(** The variables of [stallWatchdog]; [wdStalledSince] is 0 while unset. *)
Record Watch : Type := mkWatch { wdLastLen : nat; wdStalledSince : Z }.
Definition watch0 : Watch := mkWatch 0 0.
(** One tick: the watchdog returns, goes on, or finds the task stalled. *)
Inductive Tick : Type := TickReturn | TickContinue (w : Watch) | TickStalled.
Definition watchTick (w : Watch) (t : Task) (now : Z) : Tick :=
  if negb (status_is (tkStatus t) TaskRunning) then TickReturn
  else
    let currentLen := length (tkOutput t) in
    if negb (currentLen =? wdLastLen w)%nat then TickContinue (mkWatch currentLen 0)
    else if time_is_zero (wdStalledSince w) then TickContinue (mkWatch (wdLastLen w) now)
    else if time_sub now (wdStalledSince w) <? stallThreshold then TickContinue w
    else if negb (promptPatterns (OutputTail t)) then TickContinue w
    else TickStalled.
(** The loop over the ticks: the tick at which it finds the task stalled. *)
Fixpoint stallWatchdog (w : Watch) (ticks : list (Task * Z)) : option (Task * Z) :=
  match ticks with
  | [] => None
  | (t, now) :: ticks =>
      match watchTick w t now with
      | TickReturn => None
      | TickContinue w => stallWatchdog w ticks
      | TickStalled => Some (t, now)
      end
  end.
(** What follows: the lock is taken again. *)
Definition markStalled (m : Manager) (taskID : str) (later : Z) : Manager :=
  match Get m taskID with
  | None => m
  | Some task => match MarkStalled task with
                 | None => m
                 | Some task => emitTaskEvent (put m taskID task) task TaskEventStalled [] [] later
                 end
  end.
