(* ===== verification/BackgroundCorrect.v ===== *)
(** * What background tasks guarantee

    [op] lists the operations of a manager, [run_op] runs one, and [step] adds
    what the code that calls them keeps: an execution ends the task it was
    started for, a subagent's outcome is a final status, the clock is past 0.
    [change] is what an operation may do to a task; every step is shown to be
    one, and the theorems follow from it. *)

From S2P Require Import Prelude GoStr ToolOutput Background.
#[local] Open Scope Z_scope.

(** ** Operations and steps *)
Inductive op : Type :=
  | OSetEventFunc (registered : bool)
  | OSpawn (parentCtx : Ctx) (botID sessionID command workDir description : str) (draws : list str) (now later : Z)
  | OSpawnAdopt (parentCtx : Ctx) (botID sessionID command workDir description outputDir : str) (deadline : option Z) (draws : list str) (now later : Z)
  | ORecordOutput (taskID stream chunk : str) (now later : Z)
  | ORun (taskID : str) (executed : option ExecResult) (err : option str) (sentinel : option (option str)) (ctxEnded : bool) (now later : Z)
  | ORunAdopt (taskID : str) (o : adopted_outcome) (now later : Z)
  | OKill (taskID : str) (now later : Z)
  | OCleanup (maxAge now : Z)
  | ORecordLiveness (taskID : str) (at_ : Z)
  | OStall (taskID : str) (later : Z)
  | OSpawnManaged (parentCtx : Ctx) (botID sessionID description : str) (draws : list str) (now later : Z)
  | ORunManaged (taskID : str) (run : option RunEnd) (now later : Z)
  | OStartAgentTask (parentCtx : Ctx) (botID sessionID agentID agentSessionID message description : str) (queued : bool) (draws : list str) (now later : Z)
  | OMarkAgentTaskRunning (parentCtx : Ctx) (taskID : str) (later : Z)
  | OCompleteAgentTask (taskID : str) (r : AgentTaskResult) (now later : Z)
  | OStartSpawnTask (parentCtx : Ctx) (botID sessionID description : str) (draws : list str) (now later : Z)
  | OCompleteSpawnTask (taskID : str) (branches : list SpawnBranch) (now later : Z)
  | OStartVideoTask (parentCtx : Ctx) (botID sessionID description : str) (budget : option Z) (draws : list str) (now later : Z)
  | ORecordVideoTaskProgress (taskID : str) (result : gmap str value) (outputLine : str) (now later : Z)
  | OCompleteVideoTask (taskID : str) (status : option TaskStatus) (result : gmap str value) (errorMessage : str) (now later : Z).

Definition run_op (m : Manager) (o : op) : Manager :=
  match o with
  | OSetEventFunc registered => SetEventFunc m registered
  | OSpawn ctx bot sid cmd dir desc draws now later => from_option (fun r => r.1.1) m (Spawn m ctx bot sid cmd dir desc draws now later)
  | OSpawnAdopt ctx bot sid cmd dir desc out dl draws now later =>
      from_option (fun r => r.1.1) m (SpawnAdopt m ctx bot sid cmd dir desc out dl draws now later)
  | ORecordOutput id stream chunk now later => RecordOutput m id stream chunk now later
  | ORun id executed err sentinel ended now later => (run m id executed err sentinel ended now later).1
  | ORunAdopt id o now later => (runAdopt m id o now later).1
  | OKill id now later => (Kill m id now later).1
  | OCleanup maxAge now => Cleanup m maxAge now
  | ORecordLiveness id at_ => RecordLiveness m id at_
  | OStall id later => markStalled m id later
  | OSpawnManaged ctx bot sid desc draws now later => from_option fst m (SpawnManaged m ctx bot sid desc draws now later)
  | ORunManaged id run now later => runManaged m id run now later
  | OStartAgentTask ctx bot sid aid asid msg desc queued draws now later =>
      from_option (fun r => r.1.1) m (StartAgentTask m ctx bot sid aid asid msg desc queued draws now later)
  | OMarkAgentTaskRunning ctx id later => (MarkAgentTaskRunning m ctx id later).1
  | OCompleteAgentTask id r now later => CompleteAgentTask m id r now later
  | OStartSpawnTask ctx bot sid desc draws now later => from_option fst m (StartSpawnTask m ctx bot sid desc draws now later)
  | OCompleteSpawnTask id branches now later => CompleteSpawnTask m id branches now later
  | OStartVideoTask ctx bot sid desc budget draws now later =>
      from_option (fun r => r.1.1) m (StartVideoTask m ctx bot sid desc budget draws now later)
  | ORecordVideoTaskProgress id result line now later => (RecordVideoTaskProgress m id result line now later).1
  | OCompleteVideoTask id status result e now later => CompleteVideoTask m id status result e now later
  end.
(** The clock of an operation that creates or ends a task. *)
Definition op_now (o : op) : option Z :=
  match o with
  | OSpawn _ _ _ _ _ _ _ now _ | OSpawnAdopt _ _ _ _ _ _ _ _ _ now _ | ORun _ _ _ _ _ now _ | ORunAdopt _ _ now _ | OKill _ now _
  | OSpawnManaged _ _ _ _ _ now _ | ORunManaged _ _ now _ | OStartAgentTask _ _ _ _ _ _ _ _ _ now _ | OCompleteAgentTask _ _ now _
  | OStartSpawnTask _ _ _ _ _ now _ | OCompleteSpawnTask _ _ now _ | OStartVideoTask _ _ _ _ _ _ now _ | OCompleteVideoTask _ _ _ _ now _ => Some now
  | _ => None
  end.
(** The kind of task whose execution an operation ends, and which one. *)
Definition ends (o : op) : option (str * TaskKind) :=
  match o with
  | ORun id _ _ _ _ _ _ | ORunAdopt id _ _ _ => Some (id, KindExec)
  | ORunManaged id _ _ _ => Some (id, KindDependency)
  | OCompleteAgentTask id _ _ _ => Some (id, KindAgent)
  | OCompleteSpawnTask id _ _ _ => Some (id, KindSpawn)
  | OCompleteVideoTask id _ _ _ _ _ => Some (id, KindVideo)
  | _ => None
  end.
(** The operations on subagents their provider drives. *)
Definition starts_agent (o : op) : bool := match o with OStartAgentTask _ _ _ _ _ _ _ _ _ _ _ => true | _ => false end.
Definition agent_op (o : op) : bool :=
  starts_agent o || match o with OMarkAgentTaskRunning _ _ _ | OCompleteAgentTask _ _ _ _ => true | _ => false end.
Definition caller_keeps (m : Manager) (o : op) : Prop :=
  (forall now, op_now o = Some now -> 0 < now) /\
  (forall id kind t, ends o = Some (id, kind) -> Get m id = Some t -> tiKind (tkInfo t) = kind) /\
  (forall id r now later, o = OCompleteAgentTask id r now later -> terminal_status (result_status r) = true).
Definition step (m : Manager) (o : op) (m' : Manager) : Prop := caller_keeps m o /\ m' = run_op m o.
Inductive reachable : Manager -> Prop :=
  | reachable_new : reachable New
  | reachable_step m o m' : reachable m -> step m o m' -> reachable m'.

(** ** What a step does to a task *)
Inductive change (o : op) (id : str) (t t' : Task) : list TaskEventType -> Prop :=
  | quiet es :
      tkInfo t' = tkInfo t -> tkStatus t' = tkStatus t -> tkCompletedAt t' = tkCompletedAt t -> tkStalled t' = tkStalled t ->
      tkChanged t <= tkChanged t' -> Forall (eq TaskEventOutput) es -> change o id t t' es
  | flagged :
      tkInfo t' = tkInfo t -> tkStatus t' = tkStatus t -> tkCompletedAt t' = tkCompletedAt t -> tkStalled t = false -> tkStalled t' = true ->
      tkChanged t < tkChanged t' -> change o id t t' [TaskEventStalled]
  | promoted ctx later :
      o = OMarkAgentTaskRunning ctx id later -> tkInfo t' = tkInfo t -> tiKind (tkInfo t) = KindAgent ->
      tkStatus t = TaskQueued -> tkStatus t' = TaskRunning ->
      tkCompletedAt t' = tkCompletedAt t -> tkStalled t' = tkStalled t -> tkChanged t < tkChanged t' -> change o id t t' [TaskEventStarted]
  | ended e now :
      op_now o = Some now -> tkInfo t' = tkInfo t -> tkStatus t <> TaskKilled -> terminal_status (tkStatus t') = true -> tkCompletedAt t' = now ->
      tkChanged t < tkChanged t' -> tkStalled t' = tkStalled t ->
      ends o = Some (id, tiKind (tkInfo t)) \/
      (exists later, o = OKill id now later) /\ stops_later t = false /\ live (tkStatus t) = true /\ tkStatus t' = TaskKilled ->
      e ∈ [TaskEventCompleted; TaskEventFailed; TaskEventKilled; TaskEventUnknown] ->
      change o id t t' [e].
(** A new task. *)
Record fresh (t : Task) : Prop := {
  fr_live : live (tkStatus t) = true; fr_completed : tkCompletedAt t = 0; fr_stalled : tkStalled t = false;
  fr_queued : tkStatus t = TaskQueued -> tiKind (tkInfo t) = KindAgent }.
Definition events_of (m m' : Manager) (es : list TaskEvent) : Prop := emitted m' = emitted m ++ (if eventFunc m then es else []).
Inductive effect (m : Manager) (o : op) (m' : Manager) : Prop :=
  | untouched : tasks m' = tasks m -> emitted m' = emitted m -> effect m o m'
  | changed id t t' es :
      Get m id = Some t -> tasks m' = <[id := t']> (tasks m) -> change o id t t' (evEvent <$> es) ->
      Forall (fun e => evTaskID e = tiID (tkInfo t) /\ evStatus e = tkStatus t') es -> events_of m m' es -> effect m o m'
  | created id t e :
      Get m id = None -> tiID (tkInfo t) = id -> fresh t -> tasks m' = <[id := t]> (tasks m) -> events_of m m' [e] ->
      (tiKind (tkInfo t) = KindSpawn -> (runningSpawnCountLocked m (tiBotID (tkInfo t)) (tiSessionID (tkInfo t)) < MaxRunningSpawnTasks)%nat) ->
      (tiKind (tkInfo t) = KindAgent -> starts_agent o = true) -> effect m o m'
  | cleaned maxAge now : o = OCleanup maxAge now -> m' = Cleanup m maxAge now -> effect m o m'.

(** ** Every step is such an effect *)
Lemma status_is_true a b : status_is a b = true <-> a = b.
Proof. apply bool_decide_eq_true. Qed.
Lemma status_is_false a b : status_is a b = false <-> a <> b.
Proof. apply bool_decide_eq_false. Qed.
Lemma kind_is_true a b : kind_is a b = true <-> a = b.
Proof. apply bool_decide_eq_true. Qed.
#[local] Hint Rewrite status_is_true status_is_false kind_is_true : goeq.
Lemma newTaskID_fresh known botID draws id : newTaskIDLocked known botID draws = Some id -> known !! id = None.
Proof. induction draws as [|buf draws IH]; [done|]. cbn. case_bool_decide; [by intros [= <-]|done]. Qed.
Lemma emit_tasks m t e s c later : tasks (emitTaskEvent m t e s c later) = tasks m.
Proof. unfold emitTaskEvent, emitEvent. by destruct (eventFunc m). Qed.
Lemma emit_events m t e s c later : emitted (emitTaskEvent m t e s c later) = emitted m ++ (if eventFunc m then [taskEvent t e s c later] else []).
Proof. unfold emitTaskEvent, emitEvent. destruct (eventFunc m); cbn; [done|by rewrite app_nil_r]. Qed.
Lemma register_effect m o t event later :
  Get m (tiID (tkInfo t)) = None -> fresh t ->
  (tiKind (tkInfo t) = KindSpawn -> (runningSpawnCountLocked m (tiBotID (tkInfo t)) (tiSessionID (tkInfo t)) < MaxRunningSpawnTasks)%nat) ->
  (tiKind (tkInfo t) = KindAgent -> starts_agent o = true) -> effect m o (register m t event later).
Proof. intros Hn Hf Hs Ha. eapply created; [exact Hn|done|exact Hf| | |exact Hs|exact Ha]; unfold register, events_of; [by rewrite emit_tasks|by rewrite emit_events]. Qed.
(** The effect of an operation that reaches a task. *)
Definition acts (m : Manager) (o : op) (id : str) (m' : Manager) : Prop :=
  exists t t' es, Get m id = Some t /\ tasks m' = <[id := t']> (tasks m) /\ change o id t t' (evEvent <$> es) /\
    Forall (fun e => evTaskID e = tiID (tkInfo t) /\ evStatus e = tkStatus t') es /\ events_of m m' es /\ eventFunc m' = eventFunc m.
Lemma acts_effect m o id m' : acts m o id m' -> effect m o m'.
Proof. intros (t & t' & es & H1 & H2 & H3 & H4 & H5 & _). by eapply changed. Qed.
Lemma acts_put m o id t t' : Get m id = Some t -> change o id t t' [] -> acts m o id (put m id t').
Proof.
  intros Hg Hc. exists t, t', []. split_and!; [done|done|exact Hc|by constructor| |done]. unfold events_of. cbn. by destruct (eventFunc m); rewrite app_nil_r.
Qed.
Lemma acts_emit m o id t t' e s c later :
  Get m id = Some t -> change o id t t' [e] -> tkInfo t' = tkInfo t -> acts m o id (emitTaskEvent (put m id t') t' e s c later).
Proof.
  intros Hg Hc Hi. exists t, t', [taskEvent t' e s c later]. split_and!; [done|by rewrite emit_tasks|done| | |].
  - constructor; [|done]. cbn. by rewrite Hi.
  - unfold events_of. by rewrite emit_events.
  - unfold emitTaskEvent, emitEvent. by destruct (eventFunc (put m id t')) eqn:E.
Qed.
Lemma change_cancel o id t t' es : change o id t t' es -> change o id t (Cancel t') es.
Proof. intros [?|?|?|?]; [by apply quiet|by apply flagged|by eapply promoted|by eapply ended]. Qed.
Lemma change_from_cancel o id t t' es : change o id (Cancel t) t' es -> change o id t t' es.
Proof. intros [?|?|?|?]; [by apply quiet|by apply flagged|by eapply promoted|by eapply ended]. Qed.
Lemma quiet_id o id t : change o id t t [].
Proof. by apply quiet. Qed.
Lemma acts_cancel m o id m' : acts m o id m' -> acts m o id (cancel_task m' id).
Proof.
  intros (t & t' & es & H1 & H2 & H3 & H4 & H5 & H6). unfold cancel_task, Get. rewrite H2, lookup_insert_eq.
  exists t, (Cancel t'), es. split_and!; [done| |by apply change_cancel|done|done|done]. cbn. by rewrite H2, insert_insert_eq.
Qed.
Lemma acts_after_cancel m o id m' : acts (cancel_task m id) o id m' -> acts m o id m'.
Proof.
  unfold cancel_task. destruct (Get m id) as [t|] eqn:Hg; [|done]. intros (t0 & t' & es & H1 & H2 & H3 & H4 & H5 & H6).
  unfold Get in H1. cbn in H1. rewrite lookup_insert_eq in H1. injection H1 as <-.
  exists t, t', es. split_and!; [done| |by apply change_from_cancel|done|done|done]. rewrite H2. cbn. by rewrite insert_insert_eq.
Qed.
Lemma cancel_acts m o id t : Get m id = Some t -> acts m o id (cancel_task m id).
Proof. intros Hg. unfold cancel_task. rewrite Hg. eapply acts_put; [exact Hg|]. apply change_cancel, quiet_id. Qed.
(** What an execution that ends records. *)
Record settles (now : Z) (t t' : Task) : Prop := {
  se_info : tkInfo t' = tkInfo t; se_before : tkStatus t <> TaskKilled; se_after : terminal_status (tkStatus t') = true;
  se_completed : tkCompletedAt t' = now; se_changed : tkChanged t < tkChanged t'; se_stalled : tkStalled t' = tkStalled t }.
Ltac not_killed Hk := match goal with |- context [status_is ?s TaskKilled] => destruct (status_is s TaskKilled) eqn:Hk; [done|apply status_is_false in Hk] end.
Lemma completeTask_settles t stdout stderr err code known adopted now t' :
  completeTaskLocked t stdout stderr err code known adopted now = Some t' -> settles now t t'.
Proof.
  unfold completeTaskLocked. not_killed Hk.
  destruct err as [e|]; cbn; destruct known, adopted; cbn; try destruct (code =? 0), (is_empty stderr); intros [= <-]; split; cbn; by (done || lia).
Qed.
Lemma completeManaged_settles t err now t' : completeManagedLocked t err now = Some t' -> settles now t t'.
Proof.
  unfold completeManagedLocked. not_killed Hk.
  intros [= <-]. destruct err as [e|]; [|split; cbn; by (done || lia)].
  destruct (reOutcomeUnknown e); [|destruct (tkStopRequested t && reCanceled e)]; split; cbn; by (done || lia).
Qed.
Lemma completeAgent_settles t r now t' : terminal_status (result_status r) = true -> completeAgentLocked t r now = Some t' -> settles now t t'.
Proof.
  intros Hr. unfold completeAgentLocked. not_killed Hk.
  intros [= <-]. split; cbn; by (done || lia).
Qed.
Lemma completeSpawn_settles t branches now t' : completeSpawnLocked t branches now = inr t' -> settles now t t'.
Proof.
  unfold completeSpawnLocked. cbn. not_killed Hk.
  intros [= <-]. split; cbn; try by (done || lia). unfold join_status. by destruct (forallb _ branches).
Qed.
Lemma video_status_terminal status e : terminal_status (video_status status e) = true.
Proof. unfold video_status. destruct status as [[]|]; cbn; [done..|by destruct (blank e)]. Qed.
Lemma completeVideo_settles t status result e now t' :
  terminal_status status = true -> completeVideoLocked t status result e now = Some t' -> settles now t t'.
Proof.
  intros Hs. unfold completeVideoLocked. not_killed Hk.
  intros [= <-]. case_bool_decide; destruct (is_empty (trim_space e)), (status_is status TaskCompleted); split; cbn; by (done || lia).
Qed.
Lemma settles_acts m o id t t' now e s c later :
  Get m id = Some t -> settles now t t' -> op_now o = Some now -> ends o = Some (id, tiKind (tkInfo t)) ->
  e ∈ [TaskEventCompleted; TaskEventFailed; TaskEventKilled; TaskEventUnknown] ->
  acts m o id (emitTaskEvent (put m id t') t' e s c later).
Proof.
  intros Hg [H1 H2 H3 H4 H5 H6] Hnow Hends He. apply acts_emit with t; [done| |done]. apply ended with now; [done..|by left|done].
Qed.
Ltac member := apply list_elem_of_In; cbn; tauto.
Lemma completeTask_acts m o id t now later stdout stderr err code known adopted ctxEnded :
  Get m id = Some t -> op_now o = Some now -> ends o = Some (id, tiKind (tkInfo t)) ->
  let m' := (completeTask m id stdout stderr err code known adopted ctxEnded now later).1 in m' = m \/ acts m o id m'.
Proof.
  intros Hg Hnow Hends. unfold completeTask. rewrite Hg. destruct (completeTaskLocked _ _ _ _ _ _ _ _) as [t'|] eqn:E; [right|by left].
  cbn [fst]. apply completeTask_settles in E. eapply settles_acts; [done..|]. case_if; member.
Qed.
Lemma acts_of_cancelled m o id m' t : Get m id = Some t -> m' = m \/ acts m o id m' -> acts m o id (cancel_task m' id).
Proof. intros Hg [->|H]; [by eapply cancel_acts|by apply acts_cancel]. Qed.
Lemma complete_kind_effect m o id kind f :
  (forall t, Get m id = Some t -> tiKind (tkInfo t) = kind -> f t m = m \/ acts m o id (f t m)) -> effect m o (complete_kind m id kind f).
Proof.
  intros Hf. unfold complete_kind. destruct (Get m id) as [t|] eqn:Hg; [|by apply untouched].
  destruct (kind_is _ _) eqn:Hk; [|by apply untouched]. apply kind_is_true in Hk.
  apply acts_effect with id. eapply acts_of_cancelled; [done|]. by apply Hf.
Qed.

Lemma live_killed_effect s : live s = true -> s <> TaskKilled.
Proof. by destruct s. Qed.
Lemma RecordOutput_effect m o id stream chunk now later : effect m o (RecordOutput m id stream chunk now later).
Proof.
  unfold RecordOutput. case_if; [by apply untouched|]. destruct (Get m id) as [t|] eqn:Hg; [|by apply untouched].
  apply acts_effect with id. apply acts_emit with t; [done| |done]. apply quiet; try done. by constructor.
Qed.
Lemma Kill_effect m id now later : effect m (OKill id now later) (Kill m id now later).1.
Proof.
  unfold Kill. destruct (Get m id) as [t|] eqn:Hg; [|by apply untouched]. destruct (live (tkStatus t)) eqn:Hl; cbn [negb]; [|by apply untouched].
  destruct (stops_later t) eqn:Hs.
  - destruct (tkStopRequested t); [by apply untouched|]. apply acts_effect with id. apply acts_put with t; [done|]. by apply quiet.
  - apply acts_effect with id. apply acts_emit with t; [done| |done].
    apply ended with now; [done|done|by apply live_killed_effect|done|done|cbn; lia|done| |member]. right. eauto.
Qed.
Lemma markStalled_effect m o id later : effect m o (markStalled m id later).
Proof.
  unfold markStalled. destruct (Get m id) as [t|] eqn:Hg; [|by apply untouched]. unfold MarkStalled.
  destruct (tkStalled t) eqn:Hs; [by apply untouched|]. apply acts_effect with id. apply acts_emit with t; [done| |done].
  apply flagged; try done. cbn. lia.
Qed.
Lemma RecordLiveness_effect m o id at_ : effect m o (RecordLiveness m id at_).
Proof.
  unfold RecordLiveness. destruct (Get m id) as [t|] eqn:Hg; [|by apply untouched]. case_if; [|by apply untouched].
  apply acts_effect with id. apply acts_put with t; [done|]. by apply quiet.
Qed.
Lemma MarkAgentTaskRunning_effect m ctx id later : effect m (OMarkAgentTaskRunning ctx id later) (MarkAgentTaskRunning m ctx id later).1.
Proof.
  unfold MarkAgentTaskRunning. destruct (Get m id) as [t|] eqn:Hg; [|by apply untouched].
  destruct (kind_is _ _) eqn:Hk; cbn [negb]; [|by apply untouched]. apply kind_is_true in Hk.
  destruct (tkStatus t) eqn:Hs; try by apply untouched.
  apply acts_effect with id. apply acts_emit with t; [done| |done]. eapply promoted; try done. cbn. lia.
Qed.
Lemma RecordVideo_effect m o id result line now later : effect m o (RecordVideoTaskProgress m id result line now later).1.
Proof.
  unfold RecordVideoTaskProgress. destruct (Get m id) as [t|] eqn:Hg; [|by apply untouched]. case_if; [by apply untouched|].
  cbn [fst]. apply acts_effect with id. destruct (is_empty (trim_space line)).
  - apply acts_put with t; [done|]. apply quiet; cbn; by (done || lia).
  - apply acts_emit with t; [done| |done]. apply quiet; cbn; try by (done || lia). by constructor.
Qed.
Lemma get_cancel_task m id t : Get m id = Some t -> Get (cancel_task m id) id = Some (Cancel t).
Proof. intros Hg. unfold cancel_task. rewrite Hg. unfold Get. cbn. by rewrite lookup_insert_eq. Qed.
Lemma adopted_acts m o id out t now later :
  Get m id = Some t -> op_now o = Some now -> ends o = Some (id, tiKind (tkInfo t)) ->
  let '(r, ctxEnded) := awaited out in
  let '(stdout, stderr) := if arOutputRecorded r then ([], []) else (arStdout r, arStderr r) in
  acts m o id (cancel_task (completeTask m id stdout stderr (arErr r) (arExitCode r) (arExitReceived r) true ctxEnded now later).1 id).
Proof.
  intros Hg Hnow Hends. destruct (awaited out) as [r ctxEnded]. destruct (if arOutputRecorded r then _ else _) as [stdout stderr].
  eapply acts_of_cancelled; [exact Hg|]. by eapply completeTask_acts.
Qed.
Lemma runAdopt_effect m id out now later :
  (forall t, Get m id = Some t -> ends (ORunAdopt id out now later) = Some (id, tiKind (tkInfo t))) ->
  effect m (ORunAdopt id out now later) (runAdopt m id out now later).1.
Proof.
  intros Hends. unfold runAdopt. destruct (Get m id) as [t|] eqn:Hg.
  - apply acts_effect with id. destruct out as [out|out].
    + pose proof (adopted_acts m (ORunAdopt id (inl out) now later) id (inl out) t now later Hg eq_refl (Hends t eq_refl)) as H.
      destruct (awaited (inl out)) as [r ended]. destruct (if arOutputRecorded r then _ else _) as [x y]. by destruct (completeTask _ _ _ _ _ _ _ _ _ _ _).
    + apply acts_after_cancel.
      pose proof (adopted_acts (cancel_task m id) (ORunAdopt id (inr out) now later) id (inr out) (Cancel t) now later
                    (get_cancel_task m id t Hg) eq_refl (Hends t eq_refl)) as H.
      destruct (awaited (inr out)) as [r ended]. destruct (if arOutputRecorded r then _ else _) as [x y]. by destruct (completeTask _ _ _ _ _ _ _ _ _ _ _).
  - assert (Hc : cancel_task m id = m) by (unfold cancel_task; by rewrite Hg).
    replace (match out with inr _ => cancel_task m id | inl _ => m end) with m by (by destruct out).
    destruct (awaited out) as [r ended]. destruct (if arOutputRecorded r then _ else _) as [x y].
    unfold completeTask. rewrite Hg. cbn. rewrite Hc. by apply untouched.
Qed.
Lemma runManaged_effect m id r now later :
  (forall t, Get m id = Some t -> ends (ORunManaged id r now later) = Some (id, tiKind (tkInfo t))) ->
  effect m (ORunManaged id r now later) (runManaged m id r now later).
Proof.
  intros Hends. unfold runManaged, completeManaged. destruct (Get m id) as [t|] eqn:Hg; [|unfold cancel_task; rewrite Hg; by apply untouched].
  apply acts_effect with id. eapply acts_of_cancelled; [exact Hg|]. destruct (completeManagedLocked _ _ _) as [t'|] eqn:E; [right|by left].
  apply completeManaged_settles in E. eapply settles_acts; [done..|by apply Hends|]. destruct (tkStatus t'); member.
Qed.
Lemma step_effect m o m' : step m o m' -> effect m o m'.
Proof.
  intros [(Hclock & Hkind & Hagent) ->].
  assert (Hends : forall id kind t, ends o = Some (id, kind) -> Get m id = Some t -> ends o = Some (id, tiKind (tkInfo t))).
  { intros id kind t He Hg. by rewrite (Hkind id kind t He Hg). }
  destruct o; cbn [run_op].
  - by apply untouched.
  - unfold Spawn. destruct (newTaskIDLocked _ _ _) as [id|] eqn:E; [|by apply untouched]. cbn. apply newTaskID_fresh in E. by apply register_effect.
  - unfold SpawnAdopt. destruct (newTaskIDLocked _ _ _) as [id|] eqn:E; [|by apply untouched]. cbn. apply newTaskID_fresh in E. by apply register_effect.
  - apply RecordOutput_effect.
  - unfold run. destruct (recovered _ _ _) as [result e]. destruct (Get m taskID) as [t|] eqn:Hg; [|by unfold completeTask; rewrite Hg; apply untouched].
    edestruct (completeTask_acts m (ORun taskID executed err sentinel ctxEnded now later) taskID t now later) as [->|H]; [done|done|by eapply Hends|by apply untouched|by eapply acts_effect].
  - apply runAdopt_effect. intros t Hg. by eapply Hends.
  - apply Kill_effect.
  - by eapply cleaned.
  - apply RecordLiveness_effect.
  - apply markStalled_effect.
  - unfold SpawnManaged. destruct (newTaskIDLocked _ _ _) as [id|] eqn:E; [|by apply untouched]. cbn. apply newTaskID_fresh in E. by apply register_effect.
  - apply runManaged_effect. intros t Hg. by eapply Hends.
  - unfold StartAgentTask. destruct (newTaskIDLocked _ _ _) as [id|] eqn:E; [|by apply untouched]. cbn. apply newTaskID_fresh in E.
    apply register_effect; [done| |done|done]. by destruct queued.
  - apply MarkAgentTaskRunning_effect.
  - apply complete_kind_effect. intros t Hg Hk. destruct (completeAgentLocked t r now) as [t'|] eqn:E; [right|by left].
    apply completeAgent_settles in E; [|by eapply Hagent]. eapply settles_acts; [done..|by eapply Hends|]. destruct (tkStatus t'); member.
  - unfold StartSpawnTask. case_if; [by apply untouched|]. destruct (newTaskIDLocked _ _ _) as [id|] eqn:E; [|by apply untouched]. cbn. apply newTaskID_fresh in E.
    apply register_effect; [done|done| |done]. intros _. cbn. apply Nat.leb_gt. done.
  - apply complete_kind_effect. intros t Hg Hk. destruct (completeSpawnLocked _ _ _) as [t'|t'] eqn:E; right.
    + unfold completeSpawnLocked in E. case_if; [|done]. injection E as <-. apply acts_put with t; [done|]. by apply quiet.
    + apply completeSpawn_settles in E. eapply settles_acts; [done..|by eapply Hends|]. case_if; member.
  - unfold StartVideoTask. destruct (newTaskIDLocked _ _ _) as [id|] eqn:E; [|by apply untouched]. cbn. apply newTaskID_fresh in E. by apply register_effect.
  - apply RecordVideo_effect.
  - apply complete_kind_effect. intros t Hg Hk. destruct (completeVideoLocked _ _ _ _ _) as [t'|] eqn:E; [right|by left].
    apply completeVideo_settles in E; [|apply video_status_terminal]. eapply settles_acts; [done..|by eapply Hends|]. case_if; member.
Qed.

(** ** One task across a step *)
Lemma Get_Cleanup m maxAge now id t :
  Get (Cleanup m maxAge now) id = Some t <-> Get m id = Some t /\ removable (now - maxAge) t = false.
Proof. unfold Get, Cleanup. cbn. by rewrite map_lookup_filter_Some. Qed.
Lemma task_step m o m' id t t' :
  step m o m' -> Get m id = Some t -> Get m' id = Some t' ->
  exists es, change o id t t' (evEvent <$> es) /\
    ((tasks m' !! id = tasks m !! id /\ es = []) \/
     (Forall (fun e => evTaskID e = tiID (tkInfo t) /\ evStatus e = tkStatus t') es /\ events_of m m' es)).
Proof.
  intros Hs Hg Hg'. assert (Hsame : t' = t -> exists es, change o id t t' (evEvent <$> es) /\
    ((tasks m' !! id = tasks m !! id /\ es = []) \/
     (Forall (fun e => evTaskID e = tiID (tkInfo t) /\ evStatus e = tkStatus t') es /\ events_of m m' es))).
  { intros ->. exists []. split; [by apply quiet|left]. split; [|done]. unfold Get in *. by rewrite Hg, Hg'. }
  unfold Get in *. destruct (step_effect _ _ _ Hs) as [Ht _|id0 t0 t1 es Hg0 Ht Hc He Hev|id0 t0 e Hn Hid Hf Ht Hev _ _|maxAge now -> Hm].
  - apply Hsame. congruence.
  - destruct (decide (id0 = id)) as [->|Hne].
    + unfold Get in Hg0. rewrite Hg in Hg0. injection Hg0 as <-. rewrite Ht, lookup_insert_eq in Hg'. injection Hg' as <-.
      exists es. split; [done|]. by right.
    + apply Hsame. rewrite Ht, lookup_insert_ne in Hg' by done. congruence.
  - unfold Get in Hn. destruct (decide (id0 = id)) as [->|Hne]; [congruence|]. apply Hsame. rewrite Ht, lookup_insert_ne in Hg' by done. congruence.
  - apply Hsame. subst m'. apply (Get_Cleanup m maxAge now) in Hg' as [Hg' _]. unfold Get in Hg'. congruence.
Qed.
(** A task that appears in a step is a fresh one. *)
Lemma task_appears m o m' id t' : step m o m' -> Get m id = None -> Get m' id = Some t' -> fresh t' /\ tiID (tkInfo t') = id.
Proof.
  intros Hs Hg Hg'. unfold Get in *. destruct (step_effect _ _ _ Hs) as [Ht _|id0 t0 t1 es Hg0 Ht _ _ _|id0 t0 e Hn Hid Hf Ht _ _ _|maxAge now -> Hm].
  - congruence.
  - unfold Get in Hg0. destruct (decide (id0 = id)) as [->|Hne]; [congruence|]. rewrite Ht, lookup_insert_ne in Hg' by done. congruence.
  - destruct (decide (id0 = id)) as [->|Hne]; [|rewrite Ht, lookup_insert_ne in Hg' by done; congruence].
    rewrite Ht, lookup_insert_eq in Hg'. by injection Hg' as <-.
  - subst m'. apply (Get_Cleanup m maxAge now) in Hg' as [Hg' _]. unfold Get in Hg'. congruence.
Qed.

(** ** The state of a task *)
Record task_ok (id : str) (t : Task) : Prop := {
  ok_id : tiID (tkInfo t) = id; ok_completed : tkCompletedAt t = 0 <-> live (tkStatus t) = true; ok_clock : 0 <= tkCompletedAt t;
  ok_queued : tkStatus t = TaskQueued -> tiKind (tkInfo t) = KindAgent }.
Lemma live_terminal s : live s = negb (terminal_status s).
Proof. by destruct s. Qed.
Lemma terminal_not_live s : terminal_status s = true -> live s = false.
Proof. by destruct s. Qed.
Lemma change_ok o id t t' es :
  (forall now, op_now o = Some now -> 0 < now) -> change o id t t' es -> task_ok id t -> task_ok id t'.
Proof.
  intros Hclock [es' Hi Hs Hc _ _ _|Hi Hs Hc _ _ _|ctx later _ Hi Hk Hs Hs' Hc _ _|e now Hnow Hi _ Hterm Hc _ _ _ _] [H1 H2 H3 H4].
  - split; rewrite ?Hi, ?Hs, ?Hc; done.
  - split; rewrite ?Hi, ?Hs, ?Hc; done.
  - split; rewrite ?Hi, ?Hc, ?Hs'; try done. by rewrite H2, Hs.
  - specialize (Hclock now Hnow). apply terminal_not_live in Hterm as Hl. split; rewrite ?Hi, ?Hc; [done| |lia|].
    + rewrite Hl. split; [lia|done].
    + intros Hq. by rewrite Hq in Hterm.
Qed.
Lemma reachable_task_ok m id t : reachable m -> Get m id = Some t -> task_ok id t.
Proof.
  intros Hr. revert id t. induction Hr as [|m o m' Hr IH Hs]; intros id t Hg; [unfold Get, New in Hg; cbn in Hg; by rewrite lookup_empty in Hg|].
  destruct (Get m id) as [t0|] eqn:Hg0.
  - destruct (task_step m o m' id t0 t Hs Hg0 Hg) as (es & Hc & _). eapply change_ok; [|done|by apply IH]. apply Hs.
  - destruct (task_appears m o m' id t Hs Hg0 Hg) as [[F1 F2 F3 F4] Hid]. split; [done| |lia|done]. by rewrite F2, F1.
Qed.

(** In every reachable manager a task is filed under its identifier, it
    has an end time exactly when its status is final, and only agent tasks wait
    in a queue; so a cleanup removes exactly the tasks that ended before the
    cutoff and none that is queued or running. *)
Theorem cleanup_removes_only_ended (m : Manager) (maxAge now : Z) (id : str) (t : Task) :
  reachable m -> Get m id = Some t ->
  task_ok id t /\
  (Get (Cleanup m maxAge now) id = None <-> live (tkStatus t) = false /\ tkCompletedAt t < now - maxAge).
Proof.
  intros Hr Hg. pose proof (reachable_task_ok m id t Hr Hg) as [H1 H2 H3 H4]. split; [by split|].
  assert (Hrem : removable (now - maxAge) t = true <-> live (tkStatus t) = false /\ tkCompletedAt t < now - maxAge).
  { unfold removable, time_is_zero. rewrite live_terminal in *. rewrite !andb_true_iff, !negb_true_iff, Z.eqb_neq, Z.ltb_lt, negb_false_iff.
    destruct (terminal_status (tkStatus t)); cbn in *; intuition (done || lia). }
  rewrite <- Hrem. destruct (Get (Cleanup m maxAge now) id) as [t'|] eqn:E.
  - apply Get_Cleanup in E as [E1 E2]. replace t' with t in * by congruence. rewrite E2. done.
  - destruct (removable (now - maxAge) t) eqn:R; [done|]. by rewrite (proj2 (Get_Cleanup m maxAge now id t)) in E.
Qed.

(** ** The life of a task *)
(** An execution of several operations, with the managers after each. *)
Inductive execution : Manager -> list Manager -> Manager -> Prop :=
  | execution_nil m : execution m [] m
  | execution_cons m o m1 ms m' : step m o m1 -> execution m1 ms m' -> execution m (m1 :: ms) m'.
Lemma change_final o id t t' es : change o id t t' es -> terminal_status (tkStatus t) = true ->
  tkInfo t' = tkInfo t /\ terminal_status (tkStatus t') = true /\ (tkStatus t = TaskKilled -> tkStatus t' = TaskKilled).
Proof. intros [? Hi Hs|Hi Hs|? ? _ Hi _ Hs|? ? _ Hi] Ht; try (rewrite Hs; done); try done. by rewrite Hs in Ht. Qed.
(** A task whose status is final keeps a final status for as long as the
    manager knows it, whatever is called in whatever order, and a killed one
    stays killed. *)
Theorem settled_task_stays (m m' : Manager) (ms : list Manager) (id : str) (t t' : Task) :
  execution m ms m' -> Get m id = Some t -> terminal_status (tkStatus t) = true -> Get m' id = Some t' ->
  Forall (fun m1 => is_Some (Get m1 id)) ms ->
  tkInfo t' = tkInfo t /\ terminal_status (tkStatus t') = true /\ (tkStatus t = TaskKilled -> tkStatus t' = TaskKilled).
Proof.
  intros Hx. revert t. induction Hx as [m|m o m1 ms m' Hs Hx IH]; intros t Hg Ht Hg' Hall; [replace t' with t by congruence; done|].
  apply Forall_cons in Hall as [[t1 Hg1] Hall]. destruct (task_step m o m1 id t t1 Hs Hg Hg1) as (es & Hc & _).
  destruct (change_final _ _ _ _ _ Hc Ht) as (Hi & Ht1 & Hk). destruct (IH t1 Hg1 Ht1 Hg' Hall) as (Hi' & Ht' & Hk').
  split_and!; [congruence|done|]. intros Hkt. by apply Hk', Hk.
Qed.
(** C12: A task settles only because its own execution ended or because it was
    asked to stop, which does not settle a subagent or an in-process job that
    runs; exactly one event tells of it, with the task's new status. *)
Theorem settles_once_for_a_reason (m : Manager) (o : op) (m' : Manager) (id : str) (t t' : Task) :
  reachable m -> step m o m' -> Get m id = Some t -> Get m' id = Some t' -> live (tkStatus t) = true -> terminal_status (tkStatus t') = true ->
  (ends o = Some (id, tiKind (tkInfo t)) \/
   (exists now later, o = OKill id now later) /\ stops_later t = false /\ tkStatus t' = TaskKilled) /\
  exists e, emitted m' = emitted m ++ (if eventFunc m then [e] else []) /\ evTaskID e = id /\ evStatus e = tkStatus t' /\
    evEvent e ∈ [TaskEventCompleted; TaskEventFailed; TaskEventKilled; TaskEventUnknown].
Proof.
  intros Hr Hs Hg Hg' Hl Ht. pose proof (reachable_task_ok m id t Hr Hg) as [Hid _ _ _].
  assert (Hne : tkStatus t' <> tkStatus t) by (intros E; rewrite E in Ht; by destruct (tkStatus t)).
  destruct (task_step m o m' id t t' Hs Hg Hg') as (es & Hc & Hev).
  remember (evEvent <$> es) as kinds eqn:Ek. destruct Hc as [? _ E|_ E|? ? _ _ _ _ E|e now Hnow Hi _ _ _ _ _ Hwhy He]; [congruence|congruence|by rewrite E in Ht|].
  destruct es as [|ev [|? ?]]; try done. injection Ek as ->. destruct Hev as [[_ Hn]|[Hall Hev]]; [done|]. apply Forall_cons in Hall as [[E1 E2] _].
  split; [destruct Hwhy as [Hw|[[later Hk] (Hst & _ & Hkl)]]; [by left|right; eauto]|]. exists ev. rewrite E1. done.
Qed.

(** ** Waiting *)
(** A waiter that blocks on a task is woken by every operation that makes
    the wait return: the operation closes the channel the waiter holds. *)
Theorem no_missed_wakeup (m : Manager) (o : op) (m' : Manager) (id : str) (t t' : Task) (idle now channel : Z) (timer : option Z) :
  reachable m -> step m o m' -> Get m id = Some t -> Get m' id = Some t' ->
  waitRound idle now t = inr (channel, timer) ->
  (exists outcome, waitRound idle now t' = inl outcome /\ outcome <> WaitIdle) -> channel < tkChanged t'.
Proof.
  intros Hr Hs Hg Hg' Hw (outcome & Hw' & Hidle). pose proof (reachable_task_ok m id t Hr Hg) as [_ _ _ Hq].
  assert (Hch : channel = tkChanged t) by (unfold waitRound in Hw; destruct (tkStatus t); cbn in Hw; repeat case_match; congruence).
  subst channel. destruct (task_step m o m' id t t' Hs Hg Hg') as (es & Hc & _).
  destruct Hc as [es' Hi E1 _ E2 _ _|_ _ _ _ _ H|ctx later _ _ _ _ _ _ _ H|e n _ _ _ _ _ H _ _ _]; try done.
  exfalso. unfold waitRound in Hw, Hw'. rewrite E1, E2, Hi in Hw'. destruct (tkStatus t); try done; cbn in Hw, Hw'; repeat case_match; congruence.
Qed.

(** What a waiter that holds a channel sees of the managers after it, with the
    clock at each: it looks at the task whenever the channel is closed. *)
Fixpoint woken (id : str) (held : Z) (later : list (Manager * Z)) : list (Task * Z * option str) :=
  match later with
  | [] => []
  | (m, now) :: later =>
      match Get m id with
      | None => []
      | Some t => if held <? tkChanged t then (t, now, None) :: woken id (tkChanged t) later else woken id held later
      end
  end.
Lemma change_channel o id t t' es : change o id t t' es -> tkChanged t < tkChanged t' \/ tkChanged t = tkChanged t' /\ tkStatus t' = tkStatus t.
Proof. intros [? ? ? ? ? H|? ? ? ? ? H|? ? ? ? ? ? ? ? ? H|? ? ? ? ? ? ? H]; [|by left..]. destruct (decide (tkChanged t = tkChanged t')); [by right|left; lia]. Qed.
Lemma blocked_live idle now t r : waitRound idle now t = inr r -> terminal_status (tkStatus t) = false.
Proof. unfold waitRound. by destruct (tkStatus t). Qed.
Lemma wait_ends_from idle later : forall m m' id t seen now t',
  execution m later.*1 m' -> Get m id = Some t -> tkStatus seen = tkStatus t -> tkChanged seen = tkChanged t ->
  Forall (fun m1 => is_Some (Get m1 id)) later.*1 -> Get m' id = Some t' -> terminal_status (tkStatus t') = true ->
  is_Some (waitLoop idle seen now (woken id (tkChanged seen) later)).
Proof.
  induction later as [|[m1 now1] later IH]; intros m m' id t seen now t' Hx Hg Hst Hch Hall Hg' Ht'; cbn [woken].
  - invc Hx. replace t' with t in Ht' by congruence. destruct (waitRound idle now seen) as [outcome|r] eqn:E; [cbn; rewrite E; eauto|].
    apply blocked_live in E. congruence.
  - cbn in Hx, Hall. apply Forall_cons in Hall as [[t1 Hg1] Hall]. inversion Hx as [|? o ? ? ? Hs Hx']; subst.
    rewrite Hg1. destruct (task_step m o m1 id t t1 Hs Hg Hg1) as (es & Hc & _). rewrite Hch.
    destruct (change_channel _ _ _ _ _ Hc) as [Hlt|[Heq Hss]].
    + rewrite (proj2 (Z.ltb_lt _ _) Hlt). cbn [waitLoop]. destruct (waitRound idle now seen); [eauto|]. by eapply (IH m1 m' id t1 t1 now1).
    + rewrite Heq, Z.ltb_irrefl, <- Heq, <- Hch. eapply (IH m1 m' id t1); [done|done|congruence|congruence|done..].
Qed.
(** C17: A wait for a task that settles ends: whatever happens to the manager
    after the waiter looked, if the task has a final status by the end, the wait
    has returned. *)
Theorem wait_ends (m m' : Manager) (later : list (Manager * Z)) (botID sessionID id : str) (t t' : Task) (idle now : Z) :
  execution m later.*1 m' -> GetForSession m botID sessionID id = Some t ->
  Forall (fun m1 => is_Some (Get m1 id)) later.*1 -> Get m' id = Some t' -> terminal_status (tkStatus t') = true ->
  exists snapshot outcome, WaitForSessionTask m botID sessionID id idle now (woken id (tkChanged t) later) = Ok (Some (snapshot, outcome)).
Proof.
  intros Hx Hg Hall Hg' Ht. unfold WaitForSessionTask. rewrite Hg. unfold GetForSession in Hg. destruct (Get m id) as [t0|] eqn:E; [|done].
  cbn in Hg. destruct (in_session botID sessionID t0); [injection Hg as ->|done].
  destruct (wait_ends_from idle later m m' id t t now t') as [[snapshot outcome] Hw]; [done..|]. rewrite Hw. eauto.
Qed.

(** ** The cap on batches of subagents *)
Definition where_ (p : Task -> bool) (m : Manager) : gmap str Task := filter (fun kt => p kt.2 = true) (tasks m).
Lemma countb_values (p : Task -> bool) (ts : gmap str Task) : countb p (map_to_list ts).*2 = size (filter (fun kt => p kt.2 = true) ts).
Proof.
  induction ts as [|id t ts Hn _ IH] using map_first_key_ind; [by rewrite map_to_list_empty, map_filter_empty, map_size_empty|].
  rewrite (countb_perm p _ (((id, t) :: map_to_list ts).*2)) by (apply fmap_Permutation, map_to_list_insert, Hn). cbn [fmap list_fmap]. rewrite countb_cons, IH.
  destruct (p t) eqn:E.
  - rewrite map_filter_insert_True by done. rewrite map_size_insert_None; [cbn [snd]; rewrite E; done|]. apply map_lookup_filter_None. by left.
  - rewrite map_filter_insert_False by (cbn; by rewrite E). rewrite delete_id by done. cbn [snd]. by rewrite E.
Qed.
Lemma count_where m bot sid : runningSpawnCountLocked m bot sid = size (where_ (running_spawn bot sid) m).
Proof. unfold runningSpawnCountLocked, range. apply countb_values. Qed.
Lemma where_size p m m' : (forall id t', Get m' id = Some t' -> p t' = true -> exists t, Get m id = Some t /\ p t = true) ->
  (size (where_ p m') <= size (where_ p m))%nat.
Proof.
  intros H. rewrite <- !size_dom. apply subseteq_size. intros id Hid. apply elem_of_dom in Hid as [t' Hid]. apply map_lookup_filter_Some in Hid as [Hg Hp].
  destruct (H id t' Hg Hp) as (t & Hg' & Hp'). apply elem_of_dom. exists t. by apply map_lookup_filter_Some.
Qed.
(** A change never makes a batch run that did not. *)
Lemma change_spawn o id t t' es bot sid : change o id t t' es -> running_spawn bot sid t' = true -> running_spawn bot sid t = true.
Proof.
  unfold running_spawn, in_session. intros [es' Hi Hs|Hi Hs|? ? _ Hi Hk|e n _ Hi _ Ht] Hr; rewrite Hi in Hr; [by rewrite Hs in Hr|by rewrite Hs in Hr| |].
  - by rewrite Hk in Hr.
  - apply andb_true_iff in Hr as [_ Hr]. apply status_is_true in Hr. by rewrite Hr in Ht.
Qed.
(** However sessions start and end their work, no session ever has more
    than three batches of subagents running. *)
Theorem spawn_batches_capped (m : Manager) (botID sessionID : str) :
  reachable m -> (runningSpawnCountLocked m botID sessionID <= MaxRunningSpawnTasks)%nat.
Proof.
  intros Hr. induction Hr as [|m o m' Hr IH Hs]; [rewrite count_where; by vm_compute; lia|].
  destruct (step_effect _ _ _ Hs) as [Ht _|id t t' es Hg Ht Hc _ _|id t e Hn Hid Hf Ht _ Hcap _|maxAge now _ ->].
  - unfold runningSpawnCountLocked, range in *. by rewrite Ht.
  - etransitivity; [|exact IH]. rewrite !count_where. apply where_size. intros id1 t1 H1 Hp. unfold Get in *. rewrite Ht in H1.
    destruct (decide (id1 = id)) as [->|Hne]; [rewrite lookup_insert_eq in H1; injection H1 as <-; exists t; split; [done|by eapply change_spawn]|].
    rewrite lookup_insert_ne in H1 by done. eauto.
  - destruct (running_spawn botID sessionID t) eqn:E.
    + pose proof E as Ek. unfold running_spawn, in_session in Ek. apply andb_true_iff in Ek as [[Ek [Eb Es]%andb_true_iff]%andb_true_iff _].
      apply kind_is_true in Ek. apply str_eqb_true in Eb, Es. specialize (Hcap Ek). rewrite Eb, Es in Hcap.
      rewrite count_where in *. unfold where_ in *. rewrite Ht, map_filter_insert_True by done.
      rewrite map_size_insert_None; [lia|]. apply map_lookup_filter_None. by left.
    + etransitivity; [|exact IH]. rewrite !count_where. apply where_size. intros id1 t1 H1 Hp. unfold Get in *. rewrite Ht in H1.
      destruct (decide (id1 = id)) as [->|Hne]; [rewrite lookup_insert_eq in H1; injection H1 as <-; congruence|].
      rewrite lookup_insert_ne in H1 by done. eauto.
  - etransitivity; [|exact IH]. rewrite !count_where. apply where_size. intros id1 t1 H1 Hp. apply (Get_Cleanup m maxAge now) in H1 as [H1 _]. eauto.
Qed.

(** ** The output tail *)
Lemma suffix_of_length n s : (n <= length s)%nat -> length (suffix_of n s) = n.
Proof. intros H. unfold suffix_of. rewrite length_drop. lia. Qed.
Lemma suffix_of_app n s t : (n <= length t)%nat -> suffix_of n (s ++ t) = suffix_of n t.
Proof. intros H. unfold suffix_of. rewrite length_app, drop_app_ge by lia. f_equal. lia. Qed.
Lemma suffix_of_suffix n k s : (n <= k)%nat -> (k <= length s)%nat -> suffix_of n (suffix_of k s) = suffix_of n s.
Proof. intros H1 H2. unfold suffix_of. rewrite drop_drop, length_drop. f_equal. lia. Qed.
(** The last [n] bytes, or all of them. *)
Definition last_bytes (n : nat) (s : str) : str := suffix_of n s.
(** A buffer holds all that was written or a suffix longer than a tail. *)
Definition holds (buffer written : str) : Prop :=
  buffer = written \/ (maxTailBytes <= length buffer <= length written)%nat /\ buffer = suffix_of (length buffer) written.
Lemma append_holds buffer written s : holds buffer written -> holds (appendOutput buffer s) (written ++ s).
Proof.
  intros H. assert (H' : holds (buffer ++ s) (written ++ s)).
  { destruct H as [->|[Hl Hb]]; [by left|]. right. rewrite !length_app. split; [lia|]. rewrite Hb at 1.
    unfold suffix_of. rewrite length_app, drop_app_le by lia. do 2 f_equal. lia. }
  unfold appendOutput. destruct (maxTailBytes * 2 <? length (buffer ++ s))%nat eqn:E1; [|done].
  destruct (maxTailBytes <? length (buffer ++ s))%nat eqn:E2; [|done]. apply Nat.ltb_lt in E2.
  destruct H' as [E|[Hl Hb]].
  - right. rewrite suffix_of_length by lia. rewrite E in *. split; [lia|done].
  - right. rewrite suffix_of_length by lia. split; [lia|]. rewrite Hb at 1. apply suffix_of_suffix; lia.
Qed.
Lemma holds_tail buffer written : holds buffer written -> outputTailLocked buffer = suffix_of maxTailBytes written.
Proof.
  intros H. unfold outputTailLocked. destruct H as [->|[Hl Hb]].
  - destruct (maxTailBytes <? length written)%nat eqn:E; [done|]. apply Nat.ltb_ge in E. unfold suffix_of. by replace (length written - maxTailBytes)%nat with 0%nat by lia.
  - destruct (maxTailBytes <? length buffer)%nat eqn:E.
    + rewrite Hb at 1. apply suffix_of_suffix; lia.
    + apply Nat.ltb_ge in E. rewrite Hb at 1. f_equal. lia.
Qed.
(** However its output arrives, the tail of a task is exactly the last 4096
    bytes of all that was written, and the buffer behind it stays within twice
    that. *)
Theorem tail_is_last_bytes (t : Task) (chunks : list (str * Z)) :
  tkOutput t = [] ->
  let t' := foldl (fun t c => AppendOutput t c.1 c.2) t chunks in
  OutputTail t' = last_bytes maxTailBytes (List.concat chunks.*1) /\ (length (tkOutput t') <= 2 * maxTailBytes)%nat /\
  tkStatus t' = tkStatus t /\ tkChanged t' = tkChanged t.
Proof.
  intros H0. cbv zeta.
  assert (Hinv : let t' := foldl (fun t c => AppendOutput t c.1 c.2) t chunks in
    holds (tkOutput t') (List.concat chunks.*1) /\ (length (tkOutput t') <= 2 * maxTailBytes)%nat /\ tkStatus t' = tkStatus t /\ tkChanged t' = tkChanged t).
  { cbv zeta. induction chunks as [|[c now] chunks IH] using rev_ind; [change (foldl _ t []) with t; rewrite H0; split_and!; [by left|cbn; lia|done..]|].
    rewrite foldl_snoc, fmap_app, concat_app. cbn [fmap list_fmap List.concat fst snd]. rewrite app_nil_r. destruct IH as (I1 & I2 & I3 & I4).
    unfold AppendOutput, appendOutputLocked. cbn [tkOutput tkStatus tkChanged with_output]. split_and!; [by apply append_holds| |done|done].
    unfold appendOutput. destruct (maxTailBytes * 2 <? _)%nat eqn:E1; [|apply Nat.ltb_ge in E1; lia].
    destruct (maxTailBytes <? _)%nat eqn:E2; [|apply Nat.ltb_ge in E2; lia]. apply Nat.ltb_lt in E2. rewrite suffix_of_length; lia. }
  destruct Hinv as (I1 & I2 & I3 & I4). split_and!; [by apply holds_tail|done..].
Qed.

(** ** How a command ends *)
(** A command that was not killed ends with its real exit code whenever it
    is known, from the exit file or else from the stream, and is completed
    exactly when that is 0 and no error stands; without an exit code it failed
    with -1 and the error is returned unless the context has ended. *)
Theorem command_ends_with_its_exit_code (m : Manager) (id : str) (t : Task) (executed : option ExecResult) (err : option str)
    (sentinel : option (option str)) (ctxEnded : bool) (now later : Z) :
  Get m id = Some t -> tkStatus t <> TaskKilled -> (executed = None -> is_Some err) ->
  exists t', Get (run m id executed err sentinel ctxEnded now later).1 id = Some t' /\ tkCompletedAt t' = now /\
  let returned := (run m id executed err sentinel ctxEnded now later).2 in
  match sentinel ≫= readSentinelExitCode, executed, err with
  | Some code, _, _ => tkExitCode t' = code /\ tkStatus t' = (if code =? 0 then TaskCompleted else TaskFailed) /\ returned = None
  | None, Some r, None => tkExitCode t' = exExitCode r /\ tkStatus t' = (if exExitCode r =? 0 then TaskCompleted else TaskFailed) /\ returned = None
  | None, Some r, Some _ => tkExitCode t' = exExitCode r /\ tkStatus t' = TaskFailed /\ returned = None
  | None, None, _ => tkExitCode t' = -1 /\ tkStatus t' = TaskFailed /\ (is_Some returned <-> ctxEnded = false)
  end.
Proof.
  intros Hg Hk Hsome. unfold run, recovered. destruct (sentinel ≫= readSentinelExitCode) as [code|]; [|destruct executed as [r|]]; cbn [default bool_decide];
    unfold completeTask; rewrite Hg; unfold completeTaskLocked; rewrite (proj2 (status_is_false _ _) Hk).
  - cbn. destruct (code =? 0) eqn:E; cbn; eexists; unfold Get; rewrite emit_tasks; cbn; rewrite lookup_insert_eq; cbn; done.
  - destruct err as [e|]; cbn; eexists; unfold Get; rewrite emit_tasks; cbn; rewrite lookup_insert_eq; try done.
  - destruct (Hsome eq_refl) as [e ->]. cbn. eexists. unfold Get. rewrite emit_tasks. cbn. rewrite lookup_insert_eq. cbn. split_and!; try done.
    by destruct ctxEnded.
Qed.

(** ** The watchdog *)
(** The variables say how long the output has had the length they hold. *)
Definition watching (w : Watch) (seen : list (Task * Z)) : Prop :=
  Forall (fun tn => tkStatus tn.1 = TaskRunning) seen /\
  (wdStalledSince w = 0 \/ exists before quiet_ t0, seen = before ++ (t0, wdStalledSince w) :: quiet_ /\
     Forall (fun tn => length (tkOutput tn.1) = wdLastLen w) ((t0, wdStalledSince w) :: quiet_)).
Lemma watching_step w seen t now w' : watching w seen -> watchTick w t now = TickContinue w' -> watching w' (seen ++ [(t, now)]).
Proof.
  unfold watchTick. intros [Hrun Hw]. destruct (status_is (tkStatus t) TaskRunning) eqn:Hs; [|done]. apply status_is_true in Hs. cbn [negb].
  assert (Hrun' : Forall (fun tn => tkStatus tn.1 = TaskRunning) (seen ++ [(t, now)])) by (apply Forall_app; split; [done|by constructor]).
  destruct (length (tkOutput t) =? wdLastLen w)%nat eqn:El; cbn [negb]; [|by intros [= <-]; split; [done|by left]]. apply Nat.eqb_eq in El.
  assert (Hext : watching w (seen ++ [(t, now)])).
  { split; [done|]. destruct Hw as [Hz|(before & q & t0 & -> & Hq)]; [by left|right]. exists before, (q ++ [(t, now)]), t0.
    rewrite <- app_assoc. split; [done|]. apply Forall_cons in Hq as [H1 H2]. apply Forall_cons. split; [done|]. apply Forall_app. split; [done|]. by constructor. }
  destruct (time_is_zero (wdStalledSince w)).
  - intros [= <-]. split; [done|right]. exists seen, [], t. split; [done|]. by constructor.
  - destruct (_ <? stallThreshold); [by intros [= <-]|]. by destruct (negb _); [intros [= <-]|].
Qed.
Lemma stalls_from w seen ticks t now : watching w seen -> stallWatchdog w ticks = Some (t, now) ->
  exists ticks1 ticks2 w', ticks = ticks1 ++ (t, now) :: ticks2 /\ watching w' (seen ++ ticks1) /\ watchTick w' t now = TickStalled.
Proof.
  revert w seen. induction ticks as [|[t1 now1] ticks IH]; intros w seen Hw; [done|]. cbn [stallWatchdog].
  destruct (watchTick w t1 now1) as [|w1|] eqn:E; [done| |].
  - intros H. destruct (IH w1 (seen ++ [(t1, now1)])) as (a & b & w' & -> & Hw' & Ht); [by eapply watching_step|done|].
    exists ((t1, now1) :: a), b, w'. rewrite <- app_assoc in Hw'. done.
  - intros [= -> ->]. exists [], ticks, w. rewrite app_nil_r. done.
Qed.
(** The watchdog calls a task stalled only while it runs, after its buffered
    output has had the same length at every tick of at least 45 seconds, and
    when the tail looks like a prompt. *)
Theorem stalled_means_quiet_prompt (ticks : list (Task * Z)) (t : Task) (now : Z) :
  stallWatchdog watch0 ticks = Some (t, now) ->
  tkStatus t = TaskRunning /\ promptPatterns (OutputTail t) = true /\
  exists before t0 since quiet_ after, ticks = before ++ ((t0, since) :: quiet_) ++ (t, now) :: after /\ stallThreshold <= time_sub now since /\
    Forall (fun tn => tkStatus tn.1 = TaskRunning /\ length (tkOutput tn.1) = length (tkOutput t)) ((t0, since) :: quiet_).
Proof.
  intros H. destruct (stalls_from watch0 [] ticks t now) as (a & b & w & -> & [Hrun Hw] & Ht); [split; [done|by left]|done|]. cbn [app] in Hrun, Hw.
  unfold watchTick in Ht. destruct (status_is (tkStatus t) TaskRunning) eqn:Hs; [|done]. apply status_is_true in Hs. cbn [negb] in Ht.
  destruct (length (tkOutput t) =? wdLastLen w)%nat eqn:El; [|done]. apply Nat.eqb_eq in El. cbn [negb] in Ht.
  destruct (time_is_zero (wdStalledSince w)) eqn:Ez; [done|]. unfold time_is_zero in Ez. apply Z.eqb_neq in Ez.
  destruct (time_sub now (wdStalledSince w) <? stallThreshold) eqn:Eq; [done|]. apply Z.ltb_ge in Eq.
  destruct (promptPatterns (OutputTail t)); [|done]. split_and!; [done|done|].
  destruct Hw as [?|(before & q & t0 & -> & Hq)]; [done|]. exists before, t0, (wdStalledSince w), q, b. rewrite <- app_assoc. split_and!; [done|done|].
  apply Forall_app in Hrun as [_ Hrun]. rewrite El. apply Forall_and. done.
Qed.
(** Output may grow between two ticks and leave the buffer as long as it was,
    which the watchdog takes for silence. *)
Theorem growth_can_look_quiet (buffer first second : str) :
  length buffer = (2 * maxTailBytes)%nat -> length first = 1%nat -> length second = maxTailBytes ->
  length (appendOutput (appendOutput buffer first) second) = length buffer.
Proof.
  intros H1 H2 H3. assert (E : length (appendOutput buffer first) = maxTailBytes).
  { unfold appendOutput. rewrite length_app. destruct (maxTailBytes * 2 <? _)%nat eqn:E1; [|apply Nat.ltb_ge in E1; unfold maxTailBytes in *; lia].
    destruct (maxTailBytes <? _)%nat eqn:E2; [|apply Nat.ltb_ge in E2; unfold maxTailBytes in *; lia]. apply suffix_of_length. rewrite length_app. lia. }
  unfold appendOutput at 1. rewrite length_app, E. destruct (maxTailBytes * 2 <? _)%nat eqn:E1; [apply Nat.ltb_lt in E1; lia|]. rewrite length_app, E. lia.
Qed.

(** ** Examples *)
Definition ctx0 : Ctx := mkCtx None false.
Definition bg0 : Manager := run_op New (OSetEventFunc true).
Definition spawn_op : op := OSpawn ctx0 (lit "bot") (lit "s") (lit "serve") (lit "/w") [] [["001"; "255"]%char] 5 6.
Definition bg_id : str := Eval vm_compute in taskID_of (lit "bot") ["001"; "255"]%char.
Definition bg1 : Manager := Eval vm_compute in run_op bg0 spawn_op.
Definition bg2 : Manager := Eval vm_compute in run_op bg1 (OKill bg_id 7 8).
Definition bg3 : Manager := Eval vm_compute in run_op bg2 (ORecordOutput bg_id (lit "stdout") (lit "x") 9 9).
Definition task_in (m : Manager) : Task := default (newTask (mkInfo [] KindExec [] [] [] [] [] [] [] [] 0 0) no_agent TaskRunning None) (Get m bg_id).
Definition bg_task1 : Task := Eval vm_compute in task_in bg1.
Definition bg_task2 : Task := Eval vm_compute in task_in bg2.
Definition bg_task3 : Task := Eval vm_compute in task_in bg3.
Lemma caller_keeps_plain m o : (forall now, op_now o = Some now -> 0 < now) -> ends o = None -> caller_keeps m o.
Proof. intros H1 H2. split_and!; [done|intros; congruence|intros; subst; done]. Qed.
Lemma step_bg1 : step bg0 spawn_op bg1.
Proof. split; [apply caller_keeps_plain; [by intros now [= <-]|done]|by vm_compute]. Qed.
Lemma step_bg2 : step bg1 (OKill bg_id 7 8) bg2.
Proof. split; [apply caller_keeps_plain; [by intros now [= <-]|done]|by vm_compute]. Qed.
Lemma step_bg3 : step bg2 (ORecordOutput bg_id (lit "stdout") (lit "x") 9 9) bg3.
Proof. split; [by apply caller_keeps_plain|by vm_compute]. Qed.
Lemma reachable_bg1 : reachable bg1.
Proof.
  eapply reachable_step; [|apply step_bg1]. apply (reachable_step New (OSetEventFunc true)); [apply reachable_new|]. split; [by apply caller_keeps_plain|done].
Qed.
Lemma reachable_bg2 : reachable bg2.
Proof. eapply reachable_step; [apply reachable_bg1|apply step_bg2]. Qed.
Lemma cleanup_removes_only_ended_witness : Get (Cleanup bg2 10 18) bg_id = None /\ Get (Cleanup bg1 10 18) bg_id <> None.
Proof.
  split.
  - apply (cleanup_removes_only_ended bg2 10 18 bg_id bg_task2 reachable_bg2); [by vm_compute|]. by vm_compute.
  - intros H. apply (cleanup_removes_only_ended bg1 10 18 bg_id bg_task1 reachable_bg1) in H as [H _]; [|by vm_compute]. by vm_compute in H.
Defined.
Lemma settled_task_stays_witness : tkInfo bg_task3 = tkInfo bg_task2 /\ terminal_status (tkStatus bg_task3) = true /\
  (tkStatus bg_task2 = TaskKilled -> tkStatus bg_task3 = TaskKilled).
Proof.
  apply (settled_task_stays bg2 bg3 [bg3] bg_id bg_task2 bg_task3); [|by vm_compute..|].
  - eapply execution_cons; [apply step_bg3|constructor].
  - constructor; [by apply (bool_decide_unpack _); vm_compute|constructor].
Defined.
Lemma settles_once_for_a_reason_witness :
  terminal_status (tkStatus bg_task2) = true /\
  exists e, emitted bg2 = emitted bg1 ++ (if eventFunc bg1 then [e] else []) /\ evTaskID e = bg_id /\ evStatus e = tkStatus bg_task2 /\
    evEvent e ∈ [TaskEventCompleted; TaskEventFailed; TaskEventKilled; TaskEventUnknown].
Proof.
  split; [by vm_compute|].
  apply (settles_once_for_a_reason bg1 (OKill bg_id 7 8) bg2 bg_id bg_task1 bg_task2 reachable_bg1 step_bg2); by vm_compute.
Defined.
Lemma no_missed_wakeup_witness : waitRound 0 6 bg_task1 = inr (0, None) /\ 0 < tkChanged bg_task2.
Proof.
  split; [by vm_compute|].
  apply (no_missed_wakeup bg1 (OKill bg_id 7 8) bg2 bg_id bg_task1 bg_task2 0 6 0 None reachable_bg1 step_bg2); [by vm_compute..|].
  exists WaitKilled. by split; [vm_compute|].
Defined.
Lemma wait_ends_witness : exists snapshot outcome,
  WaitForSessionTask bg1 (lit "bot") (lit "s") bg_id 0 6 (woken bg_id (tkChanged bg_task1) [(bg2, 9)]) = Ok (Some (snapshot, outcome)).
Proof.
  apply (wait_ends bg1 bg2 [(bg2, 9)] (lit "bot") (lit "s") bg_id bg_task1 bg_task2 0 6); [|by vm_compute| |by vm_compute..].
  - cbn. eapply execution_cons; [apply step_bg2|constructor].
  - constructor; [by apply (bool_decide_unpack _); vm_compute|constructor].
Defined.
Lemma spawn_batches_capped_witness : (runningSpawnCountLocked bg1 (lit "bot") (lit "s") <= MaxRunningSpawnTasks)%nat.
Proof. apply spawn_batches_capped, reachable_bg1. Defined.
Lemma tail_is_last_bytes_witness :
  OutputTail (AppendOutput (AppendOutput bg_task1 (lit "ab") 8) (lit "c") 9) = last_bytes maxTailBytes (lit "abc").
Proof. apply (tail_is_last_bytes bg_task1 [(lit "ab", 8); (lit "c", 9)]). by vm_compute. Defined.
Lemma command_ends_with_its_exit_code_witness :
  exists t', Get (run bg1 bg_id None (Some (lit "stream closed")) (Some (Some (lit " 3"))) false 7 8).1 bg_id = Some t' /\ tkExitCode t' = 3 /\ tkStatus t' = TaskFailed.
Proof.
  destruct (command_ends_with_its_exit_code bg1 bg_id bg_task1 None (Some (lit "stream closed")) (Some (Some (lit " 3"))) false 7 8) as (t' & H1 & _ & H2);
    [by vm_compute|by vm_compute|by eexists|].
  exists t'. replace (Some (Some (lit " 3")) ≫= readSentinelExitCode) with (Some 3) in H2 by (by vm_compute). destruct H2 as (H2 & H3 & _). exact (conj H1 (conj H2 H3)).
Defined.
Definition asking : Task := Eval vm_compute in AppendOutput bg_task1 (lit "Password: ") 7.
Lemma stalled_means_quiet_prompt_witness :
  stallWatchdog watch0 [(asking, 10); (asking, 20); (asking, 20 + stallThreshold)] = Some (asking, 20 + stallThreshold) /\
  promptPatterns (OutputTail asking) = true.
Proof.
  assert (H : stallWatchdog watch0 [(asking, 10); (asking, 20); (asking, 20 + stallThreshold)] = Some (asking, 20 + stallThreshold)) by (by vm_compute).
  split; [exact H|]. apply (stalled_means_quiet_prompt _ _ _ H).
Defined.
