(* ===== verification/Subagent.v ===== *)
(** * Managed subagents

    Models the part of [internal/agent/tool/subagent.go] and
    [subagent_admission.go] that decides: the identifiers of agents, the
    coordinator that gives every agent one run at a time and queues the rest,
    how a run's outcome is named, and the attempts within a run.  The background
    tasks it drives are those of [Background].

    The state of the provider is the coordinator, the manager of background
    tasks and the goroutines that serve agents ([activity]).  What happens under
    [coord.mu] is one step, and so is each call of the manager, so stops and
    cleanups may come between them. *)

From S2P Require Import Prelude GoStr ToolOutput Background BackgroundCorrect.
#[local] Open Scope Z_scope.

(** ** Identifiers *)
Section with_unicode.
Context {U : Unicode}.
Definition slug_start (c : ascii) : bool := in_range 97 122 (byte_val c).
Definition slug_byte (c : ascii) : bool := slug_start c || in_range 48 57 (byte_val c) || in_cutset (lit "_-") c.
(** [agentIDPattern] *)
Definition agentIDPattern (s : str) : bool :=
  match s with c :: r => slug_start c && forallb slug_byte r && (length r <=? 31)%nat | [] => false end.
Inductive IDError : Type := IDRequired | IDInvalid.
Definition normalizeAgentID (raw : str) : result IDError str :=
  let id := to_lower (trim_space raw) in
  if is_empty id then Err IDRequired else if agentIDPattern id then Ok id else Err IDInvalid.
Definition agent_n (i : Z) : str := lit "agent_" ++ itoa i.
(** The loop from [i]; [None] when it is still looking after [fuel] rounds. *)
Fixpoint freeAgentID (fuel : nat) (used : list str) (i : Z) : option str :=
  match fuel with
  | O => None
  | S fuel => if bool_decide (agent_n i ∈ used) then freeAgentID fuel used (i + 1) else Some (agent_n i)
  end.
(** [agents] are the identifiers of [listAgentRecords]. *)
Definition resolveNewAgentID (agents : list str) (raw : str) : option (result IDError str) :=
  if negb (blank raw) then Some (normalizeAgentID raw) else Ok <$> freeAgentID (S (length agents)) agents 1.
End with_unicode.
Inductive SessionError : Type := BotIDRequired | SessionIDRequired.
Definition validateParentSession (botID sessionID : str) : option SessionError :=
  if blank botID then Some BotIDRequired else if blank sessionID then Some SessionIDRequired else None.

(** ** Data *)
Record SubagentConfig : Type := mkSubConfig { scModelID : str; scProviderName : str; scForked : bool }.
Record agentRequest : Type := mkRequest {
  rqTaskID : str; rqAgentID : str; rqAgentSessionID : str; rqMessage : str; rqConfig : SubagentConfig }.
Inductive SpawnAttemptDisposition : Type := SpawnAttemptFailure | SpawnAttemptRetry | SpawnAttemptAbort | SpawnAttemptCompleted.
#[export] Instance Disposition_eq_dec : EqDecision SpawnAttemptDisposition. Proof. solve_decision. Defined.
(** [rrOutcome] is [None] while the attempt is not resolved; an empty status is
    [None] too. *)
Record agentRunResult : Type := mkRunResult {
  rrAgentID : str; rrSessionID : str; rrTaskID : str; rrModelID : str; rrProvider : str; rrFork : bool; rrStatus : option TaskStatus;
  rrMessage : str; rrText : str; rrCode : str; rrError : str; rrOutcome : option SpawnAttemptDisposition }.
Definition result_for (req : agentRequest) (status : option TaskStatus) : agentRunResult :=
  mkRunResult (rqAgentID req) (rqAgentSessionID req) (rqTaskID req) (scModelID (rqConfig req)) (scProviderName (rqConfig req))
    (scForked (rqConfig req)) status (rqMessage req) [] [] [] None.
Definition with_outcome (r : agentRunResult) (outcome : SpawnAttemptDisposition) : agentRunResult :=
  mkRunResult (rrAgentID r) (rrSessionID r) (rrTaskID r) (rrModelID r) (rrProvider r) (rrFork r) (rrStatus r) (rrMessage r) (rrText r) (rrCode r)
    (rrError r) (Some outcome).
Definition with_state (r : agentRunResult) (status : option TaskStatus) (error : str) : agentRunResult :=
  mkRunResult (rrAgentID r) (rrSessionID r) (rrTaskID r) (rrModelID r) (rrProvider r) (rrFork r) status (rrMessage r) (rrText r) (rrCode r)
    error (rrOutcome r).
Definition with_text (r : agentRunResult) (text : str) : agentRunResult :=
  mkRunResult (rrAgentID r) (rrSessionID r) (rrTaskID r) (rrModelID r) (rrProvider r) (rrFork r) (rrStatus r) (rrMessage r) text (rrCode r)
    (rrError r) (rrOutcome r).
(** An error as the provider reads it: the code and detail [fail] finds for it
    in the catalog, and what [errors.Is] says of it. *)
Record RunErr : Type := mkRunErr { erCode : str; erDetail : str; erWatchdog : bool; erBusy : bool; erDuplicate : bool }.
Definition fail (r : agentRunResult) (e : RunErr) : agentRunResult :=
  mkRunResult (rrAgentID r) (rrSessionID r) (rrTaskID r) (rrModelID r) (rrProvider r) (rrFork r) (rrStatus r) (rrMessage r) (rrText r)
    (erCode e) (erDetail e) (rrOutcome r).
Definition subagentAdmissionMessage (cause : RunErr) : option str :=
  if erBusy cause then Some (lit "agent is already running a turn; wait for it to report back, then send the message again")
  else if erDuplicate cause then Some (lit "this task was already started; use get_background_status(task_id) to read its result")
  else None.
Definition rejectedAgentRun (req : agentRequest) (cause : RunErr) : agentRunResult :=
  let res := result_for req None in
  match subagentAdmissionMessage cause with Some message => with_state res None message | None => fail res cause end.

(** ** Attempts *)
Definition subagentMaxRetries : nat := 3.
(** What the context of the run says: cancelled by its owner, or ended for
    another reason. *)
Inductive CtxState : Type := CtxLive | CtxCanceled | CtxEnded (cause : RunErr).
Definition subagentAttemptDisposition (ctx : CtxState) (err : RunErr) (stepPersisted attemptsRemain : bool) : SpawnAttemptDisposition :=
  match ctx with
  | CtxCanceled => SpawnAttemptAbort
  | CtxEnded _ => SpawnAttemptFailure
  | CtxLive => if negb stepPersisted && attemptsRemain && erWatchdog err then SpawnAttemptRetry else SpawnAttemptFailure
  end.
(** What a callback of an attempt finds when it is called: whether a stop was
    asked for, the run's context, and whether a step has been saved. *)
Record Moment : Type := mkMoment { moStopRequested : bool; moCtx : CtxState; moStepPersisted : bool }.
(** [ResolveAttempt], and the arm of the loop that does the same. *)
Definition ResolveAttempt (now : Moment) (err : RunErr) (attempt : nat) : SpawnAttemptDisposition :=
  if moStopRequested now then SpawnAttemptAbort
  else subagentAttemptDisposition (moCtx now) err (moStepPersisted now) (attempt <? subagentMaxRetries)%nat.
Definition ResolveCompletion (now : Moment) : SpawnAttemptDisposition :=
  match moCtx now with
  | CtxCanceled => SpawnAttemptAbort
  | CtxEnded _ => if moStopRequested now then SpawnAttemptAbort else SpawnAttemptFailure
  | CtxLive => if moStopRequested now then SpawnAttemptAbort else SpawnAttemptCompleted
  end.
(** [attemptDisposition] and [dispositionResolved], and the callbacks that set
    them. *)
Record AttemptVars : Type := mkVars { avDisposition : SpawnAttemptDisposition; avResolved : bool }.
Definition freshVars : AttemptVars := mkVars SpawnAttemptFailure false.
Inductive Callback : Type :=
  | CallResolveAttempt (now : Moment) (err : RunErr)
  | CallResolveCompletion (now : Moment)
  | CallReconcileTerminal (outcome : SpawnAttemptDisposition).
Definition callback (attempt : nat) (v : AttemptVars) (c : Callback) : AttemptVars :=
  match c with
  | CallResolveAttempt now err => mkVars (ResolveAttempt now err attempt) true
  | CallResolveCompletion now => mkVars (ResolveCompletion now) true
  | CallReconcileTerminal outcome => mkVars outcome true
  end.
(** What a runtime answers with. *)
Record SpawnResult : Type := mkSpawnResult { spText : str; spPersisted : bool }.
(** One attempt: the callbacks the runtime called, in order, what it answered
    (a result or an error), what holds once it has returned, and the error of
    the write the provider makes for a result that was not saved, if it makes
    one and it fails. *)
Record Attempt : Type := mkAttempt {
  atCalls : list Callback; atGenerated : result RunErr SpawnResult; atNow : Moment; atPersist : option RunErr }.
Definition varsAfter (attempt : nat) (a : Attempt) : AttemptVars := fold_left (callback attempt) (atCalls a) freshVars.
Definition cancelled_by_parent (res : agentRunResult) : agentRunResult := with_state (with_outcome res SpawnAttemptAbort) (rrStatus res) (lit "parent cancelled").
Definition run_failed : RunErr := mkRunErr (lit "runtime_run_failed") (lit "The response could not be completed. Please try again.") false false false.
Definition saved_note : str := lit " (progress from this attempt is saved; send a follow-up message to continue)".
(** One attempt: a result, or [inr] its error when the loop goes on after it. *)
Definition attemptStep (res : agentRunResult) (attempt : nat) (a : Attempt) : agentRunResult + RunErr :=
  let v := varsAfter attempt a in
  match atGenerated a with
  | Ok generated =>
      let disposition := if avResolved v then avDisposition v else ResolveCompletion (atNow a) in
      match disposition, (if spPersisted generated then None else atPersist a) with
      | SpawnAttemptCompleted, Some persistErr => inl (fail (with_outcome res SpawnAttemptFailure) persistErr)
      | SpawnAttemptCompleted, None => inl (with_text (with_outcome res SpawnAttemptCompleted) (spText generated))
      | SpawnAttemptAbort, _ => inl (cancelled_by_parent res)
      | d, _ => inl (fail (with_outcome res d) (match moCtx (atNow a) with CtxEnded cause => cause | _ => run_failed end))
      end
  | Err err =>
      let disposition := if avResolved v then avDisposition v else ResolveAttempt (atNow a) err attempt in
      match disposition with
      | SpawnAttemptRetry => inr err
      | SpawnAttemptAbort => inl (cancelled_by_parent res)
      | d => let failed := fail (with_outcome res d) err in
             inl (if moStepPersisted (atNow a) then with_state failed (rrStatus failed) (rrError failed ++ saved_note) else failed)
      end
  end.
(** The loop; before every attempt but the first there is a delay, in which the
    context may end.  [world] gives the delay and the attempt of each round; the
    result comes with the number of attempts made. *)
Fixpoint attempts (left_ : nat) (res : agentRunResult) (attempt : nat) (lastErr : option RunErr) (world : nat -> CtxState * Attempt)
    : agentRunResult * nat :=
  match left_ with
  | O => (fail res (default run_failed lastErr), attempt)
  | S left_ =>
      let '(delay, a) := world attempt in
      match (if bool_decide (attempt = 0%nat) then CtxLive else delay) with
      | CtxLive => match attemptStep res attempt a with
                   | inl res => (res, S attempt)
                   | inr err => attempts left_ res (S attempt) (Some err) world
                   end
      | CtxCanceled => (cancelled_by_parent res, attempt)
      | CtxEnded _ => (with_state (with_outcome res SpawnAttemptFailure) (rrStatus res) (lit "parent cancelled"), attempt)
      end
  end.
Definition runAttempts (res : agentRunResult) (world : nat -> CtxState * Attempt) : agentRunResult * nat :=
  attempts (S subagentMaxRetries) res 0 None world.

(** ** How a run's outcome is named *)
(** The end of [runAgentRequest]: [runDead] and [taskAlive] are
    [runCtx.Err() != nil] and [ctx.Err() == nil], [canceled] whether the run's
    context ended with a cancellation. *)
Definition stopped (r : agentRunResult) : agentRunResult := with_state r (Some TaskKilled) (lit "stopped by the user").
Definition killed_result (r : agentRunResult) : bool := bool_decide (rrStatus r = Some TaskKilled).
Definition nameOutcome (r : agentRunResult) (stopRequested runDead taskAlive canceled : bool) : agentRunResult :=
  match rrOutcome r with
  | Some SpawnAttemptAbort =>
      let r := if stopRequested then stopped r else r in
      if negb (killed_result r) && runDead && taskAlive then stopped r else r
  | None =>
      let r := if stopRequested then stopped r else r in
      if negb (killed_result r) && runDead && taskAlive && canceled then stopped r else r
  | Some _ => r
  end.
(** [completeAgentRequest] up to the call of the manager. *)
Definition closingStatus (r : agentRunResult) : TaskStatus * agentRunResult :=
  if killed_result r then (TaskKilled, r)
  else if negb (is_empty (rrError r)) then (TaskFailed, with_state r (Some TaskFailed) (rrError r))
  else (TaskCompleted, with_state r (Some TaskCompleted) (rrError r)).
Definition taskResult (req : agentRequest) (r : agentRunResult) : AgentTaskResult :=
  mkAgentResult (rqMessage req) (scModelID (rqConfig req)) (scProviderName (rqConfig req)) (scForked (rqConfig req)) (Some (closingStatus r).1)
    (rrText r) (rrError r).

(** ** The coordinator *)
Record agentState : Type := mkAgentState { asSessionID : str; asRunning : str; asQueue : list agentRequest; asLast : option agentRunResult }.
Definition agentStateKey (botID parentSessionID agentID : str) : str := botID ++ ["000"%char] ++ parentSessionID ++ ["000"%char] ++ agentID.
Definition idle_state (agentSessionID : str) : agentState := mkAgentState agentSessionID [] [] None.
Definition ensure (states : gmap str agentState) (key agentSessionID : str) : agentState :=
  match states !! key with
  | Some st => if is_empty (asSessionID st) then mkAgentState agentSessionID (asRunning st) (asQueue st) (asLast st) else st
  | None => idle_state agentSessionID
  end.
(** What serves an agent: a goroutine that runs a request, one that has closed
    its task and will hand the queue on, one that will start the next request. *)
Inductive activity : Type :=
  | Running (key : str) (req : agentRequest)
  | Finishing (key : str) (req : agentRequest) (r : agentRunResult)
  | Promoting (key : str) (req : agentRequest).
Record Provider : Type := mkProvider { prStates : gmap str agentState; prTasks : Manager; prActive : list activity }.
Inductive Submitted : Type := SubmittedQueued (taskID : str) (position : nat) | SubmittedStarted (taskID : str).
(** [submitAgentTask] from [coord.mu.Lock] on. *)
Definition submitAgentTask (p : Provider) (parentCtx : Ctx) (botID sessionID : str) (req : agentRequest) (description : str) (draws : list str)
    (now later : Z) : option (Provider * Submitted) :=
  let key := agentStateKey botID sessionID (rqAgentID req) in
  let st := ensure (prStates p) key (rqAgentSessionID req) in
  let busy := negb (is_empty (asRunning st)) in
  '(bg, taskID, _) ← StartAgentTask (prTasks p) parentCtx botID sessionID (rqAgentID req) (rqAgentSessionID req) (rqMessage req) description busy draws now later;
  let req := mkRequest taskID (rqAgentID req) (rqAgentSessionID req) (rqMessage req) (rqConfig req) in
  if busy then
    let queue := asQueue st ++ [req] in
    Some (mkProvider (<[key := mkAgentState (asSessionID st) (asRunning st) queue (asLast st)]> (prStates p)) bg (prActive p),
          SubmittedQueued taskID (length queue))
  else
    Some (mkProvider (<[key := mkAgentState (asSessionID st) taskID (asQueue st) (asLast st)]> (prStates p)) bg (prActive p ++ [Running key req]),
          SubmittedStarted taskID).
(** The end of a run: its task is closed. *)
Definition completeAgentRequest (p : Provider) (req : agentRequest) (r : agentRunResult) (now later : Z) : Manager * agentRunResult :=
  (CompleteAgentTask (prTasks p) (rqTaskID req) (taskResult req r) now later, (closingStatus r).2).
(** The loop of [finishAgentRequest] over the queue. *)
Definition was_killed (bg : Manager) (req : agentRequest) : bool :=
  match Get bg (rqTaskID req) with Some task => status_is (tkStatus task) TaskKilled | None => false end.
Fixpoint nextRequest (bg : Manager) (queue : list agentRequest) : option agentRequest * list agentRequest :=
  match queue with
  | [] => (None, [])
  | candidate :: queue => if was_killed bg candidate then nextRequest bg queue else (Some candidate, queue)
  end.
(** [finishAgentRequest] under [coord.mu]. *)
Definition finishAgentRequest (states : gmap str agentState) (bg : Manager) (key : str) (r : agentRunResult)
    : gmap str agentState * option agentRequest :=
  match states !! key with
  | None => (states, None)
  | Some st =>
      let '(next, queue) := nextRequest bg (asQueue st) in
      (<[key := mkAgentState (asSessionID st) (from_option rqTaskID [] next) queue (Some r)]> states, next)
  end.
(** What it does with the answer of [MarkAgentTaskRunning]: run the request, or
    finish it as killed or failed. *)
Definition promoted_activity (key : str) (req : agentRequest) (answer : result str (option Ctx)) : activity :=
  match answer with
  | Ok (Some _) => Running key req
  | Ok None => Finishing key req (result_for req (Some TaskKilled))
  | Err _ => Finishing key req (fail (result_for req (Some TaskFailed)) run_failed)
  end.
Definition snapshot (p : Provider) (botID parentSessionID agentID : str) : str * list str * option agentRunResult :=
  match prStates p !! agentStateKey botID parentSessionID agentID with
  | Some st => (asRunning st, rqTaskID <$> asQueue st, asLast st)
  | None => ([], [], None)
  end.
(** The status of an agent in [execListAgents]. *)
Definition agent_status (p : Provider) (botID parentSessionID agentID : str) : str :=
  let '(running, queued, last) := snapshot p botID parentSessionID agentID in
  if negb (is_empty running) then lit "running"
  else if negb (bool_decide (queued = [])) then lit "queued"
  else from_option status_text (lit "idle") (last ≫= rrStatus).

(** ** Tools a subagent is denied ([subagent_policy.go]) *)
Definition blocked_tools : list str :=
  lit <$> ["ask_user"; "send"; "react"; "spawn_agent"; "send_message"; "list_agents"; "list_models"]%string.
Definition FilterSubagentTools (toolList : list str) : list str := List.filter (fun name => negb (bool_decide (name ∈ blocked_tools))) toolList.
