(* ===== verification/SubagentCorrect.v ===== *)
(** * What managed subagents guarantee

    [pstep] is one critical section of the coordinator, of a goroutine that
    serves an agent, or any operation on another background task, a stop or a
    cleanup included.  Every reachable provider keeps the invariant [served]:
    one goroutine serves an agent that is busy, the task that runs is the one
    the coordinator names, and a queued task is in its agent's queue. *)

From S2P Require Import Prelude GoStr ToolOutput Background BackgroundCorrect Subagent.
#[local] Open Scope Z_scope.

(** ** Steps *)
Definition act_key (a : activity) : str := match a with Running key _ | Finishing key _ _ | Promoting key _ => key end.
Definition act_req (a : activity) : agentRequest := match a with Running _ req | Finishing _ req _ | Promoting _ req => req end.
Definition submitted_id (r : Submitted) : str := match r with SubmittedQueued id _ | SubmittedStarted id => id end.
(** Whether a request that is queued or about to start has the identifier. *)
Definition held (p : Provider) (id : str) : Prop :=
  (exists key st req, prStates p !! key = Some st /\ req ∈ asQueue st /\ rqTaskID req = id) \/
  (exists key req, Promoting key req ∈ prActive p /\ rqTaskID req = id).
Inductive label : Type := LSubmit (key : str) | LServe (key : str) | LOther.
(** A submission draws an identifier that no waiting request has, as one drawn
    at random; a run ends with any result. *)
Inductive pstep : Provider -> label -> Provider -> Prop :=
  | p_submit p ctx botID sessionID req description draws now later p' r :
      0 < now -> submitAgentTask p ctx botID sessionID req description draws now later = Some (p', r) -> ~ held p (submitted_id r) ->
      pstep p (LSubmit (agentStateKey botID sessionID (rqAgentID req))) p'
  | p_complete p i key req r now later bg r' :
      0 < now -> prActive p !! i = Some (Running key req) -> completeAgentRequest p req r now later = (bg, r') ->
      pstep p (LServe key) (mkProvider (prStates p) bg (<[i := Finishing key req r']> (prActive p)))
  | p_finish p i key req r states next :
      prActive p !! i = Some (Finishing key req r) -> finishAgentRequest (prStates p) (prTasks p) key r = (states, next) ->
      pstep p (LServe key)
        (mkProvider states (prTasks p) (match next with Some next => <[i := Promoting key next]> (prActive p) | None => delete i (prActive p) end))
  | p_promote p i key req ctx later bg answer :
      prActive p !! i = Some (Promoting key req) -> MarkAgentTaskRunning (prTasks p) ctx (rqTaskID req) later = (bg, answer) ->
      pstep p (LServe key) (mkProvider (prStates p) bg (<[i := promoted_activity key req answer]> (prActive p)))
  | p_other p o bg : agent_op o = false -> step (prTasks p) o bg -> pstep p LOther (mkProvider (prStates p) bg (prActive p)).
Definition new_provider : Provider := mkProvider ∅ New [].
Inductive preachable : Provider -> Prop :=
  | preachable_new : preachable new_provider
  | preachable_step p l p' : preachable p -> pstep p l p' -> preachable p'.

(** ** The invariant *)
Definition agent_key (t : Task) : str := agentStateKey (tiBotID (tkInfo t)) (tiSessionID (tkInfo t)) (tiAgentID (tkInfo t)).
Definition is_agent (t : Task) : Prop := tiKind (tkInfo t) = KindAgent.
Record served (p : Provider) : Prop := {
  sv_tasks : reachable (prTasks p);
  sv_one : NoDup (act_key <$> prActive p);
  sv_named : forall a, a ∈ prActive p -> exists st, prStates p !! act_key a = Some st /\ asRunning st = rqTaskID (act_req a);
  sv_ids : forall a, a ∈ prActive p -> rqTaskID (act_req a) <> [];
  sv_queue_ids : forall key st req, prStates p !! key = Some st -> req ∈ asQueue st -> rqTaskID req <> [];
  sv_busy : forall key st, prStates p !! key = Some st -> asRunning st <> [] -> exists a, a ∈ prActive p /\ act_key a = key;
  sv_idle : forall key st, prStates p !! key = Some st -> asRunning st = [] -> asQueue st = [];
  sv_running : forall id t, Get (prTasks p) id = Some t -> is_agent t -> tkStatus t = TaskRunning ->
    exists req, Running (agent_key t) req ∈ prActive p /\ rqTaskID req = id;
  sv_queued : forall id t, Get (prTasks p) id = Some t -> is_agent t -> tkStatus t = TaskQueued ->
    (exists st, prStates p !! agent_key t = Some st /\ id ∈ rqTaskID <$> asQueue st) \/
    (exists req, Promoting (agent_key t) req ∈ prActive p /\ rqTaskID req = id);
  sv_runs : forall key req, Running key req ∈ prActive p ->
    exists t, Get (prTasks p) (rqTaskID req) = Some t /\ is_agent t /\ agent_key t = key /\ tkStatus t = TaskRunning;
  sv_waits : forall key req t, (Promoting key req ∈ prActive p \/ exists st, prStates p !! key = Some st /\ req ∈ asQueue st) ->
    Get (prTasks p) (rqTaskID req) = Some t -> is_agent t -> agent_key t = key }.
Lemma served_new : served new_provider.
Proof.
  assert (Hact : forall a, a ∈ prActive new_provider -> False) by (intros a; apply not_elem_of_nil).
  assert (Hst : forall key st, prStates new_provider !! key = Some st -> False) by (intros key st; cbn; by rewrite lookup_empty).
  assert (Htask : forall id t, Get (prTasks new_provider) id = Some t -> False) by (intros id t; unfold Get; cbn; by rewrite lookup_empty).
  split; try (intros; exfalso; eauto; fail); [apply reachable_new|apply NoDup_nil_2].
Qed.

(** ** Lists of activities with one per agent *)
Lemma same_position (l : list activity) i a x :
  l !! i = Some a -> NoDup (act_key <$> l) -> x ∈ l -> act_key x = act_key a -> x = a.
Proof.
  intros Hi Hnd Hx Hk. apply list_elem_of_lookup in Hx as [j Hj].
  assert (Hij : i = j) by (eapply (NoDup_lookup _ i j (act_key a)); [exact Hnd| |]; rewrite list_lookup_fmap; [by rewrite Hi|rewrite Hj; cbn; by rewrite Hk]).
  subst j. congruence.
Qed.
Lemma replaced (l : list activity) i a a' x :
  l !! i = Some a -> NoDup (act_key <$> l) -> act_key a' = act_key a ->
  x ∈ <[i := a']> l <-> x = a' \/ (x ∈ l /\ act_key x <> act_key a).
Proof.
  intros Hi Hnd Hk. assert (Hlt : (i < length l)%nat) by (by eapply lookup_lt_Some). split.
  - intros Hx. apply list_elem_of_lookup in Hx as [j Hj]. destruct (decide (i = j)) as [->|Hne]; [rewrite list_lookup_insert_eq in Hj by done; by injection Hj as <-; left|].
    rewrite list_lookup_insert_ne in Hj by done. right. split; [by eapply list_elem_of_lookup_2|]. intros E. apply Hne.
    eapply (NoDup_lookup _ i j (act_key a)); [exact Hnd| |]; rewrite list_lookup_fmap; [by rewrite Hi|rewrite Hj; cbn; by rewrite E].
  - intros [->|[Hx Hne]]; [by apply list_elem_of_lookup; exists i; apply list_lookup_insert_eq|].
    apply list_elem_of_lookup in Hx as [j Hj]. apply list_elem_of_lookup. exists j. rewrite list_lookup_insert_ne; [done|]. intros ->. congruence.
Qed.
Lemma removed (l : list activity) i a x :
  l !! i = Some a -> NoDup (act_key <$> l) -> x ∈ delete i l <-> x ∈ l /\ act_key x <> act_key a.
Proof.
  intros Hi Hnd. pose proof (delete_Permutation l i a Hi) as Hp. rewrite Hp in Hnd. cbn in Hnd. apply NoDup_cons in Hnd as [Hna _].
  assert (Hne : forall y, y ∈ delete i l -> act_key y <> act_key a) by (intros y Hy E; apply Hna; rewrite <- E; by apply list_elem_of_fmap_2).
  split.
  - intros Hx. split; [by eapply list_elem_of_delete_inv|by apply Hne].
  - intros [Hx Hk]. rewrite Hp in Hx. apply elem_of_cons in Hx as [->|Hx]; done.
Qed.
Lemma keys_replaced (l : list activity) i a a' : l !! i = Some a -> act_key a' = act_key a -> act_key <$> <[i := a']> l = act_key <$> l.
Proof. intros Hi Hk. rewrite list_fmap_insert, Hk. apply list_insert_id. by rewrite list_lookup_fmap, Hi. Qed.
Lemma keys_removed (l : list activity) i : NoDup (act_key <$> l) -> NoDup (act_key <$> delete i l).
Proof. intros H. eapply sublist_NoDup; [exact H|]. apply sublist_fmap, sublist_delete. Qed.

(** ** Agent tasks across the operations of a manager *)
Lemma change_agent o id t t' es :
  change o id t t' es -> is_agent t ->
  tkInfo t' = tkInfo t /\
  (tkStatus t' = tkStatus t \/
   (exists ctx later, o = OMarkAgentTaskRunning ctx id later) /\ tkStatus t = TaskQueued /\ tkStatus t' = TaskRunning \/
   terminal_status (tkStatus t') = true /\ (tkStatus t = TaskRunning -> exists r now later, o = OCompleteAgentTask id r now later)).
Proof.
  intros [es' Hi Hs|Hi Hs|ctx later Ho Hi _ Hs Hs'|e now Hnow Hi _ Ht _ _ _ Hwhy _] Ha; [by split; [|left]|by split; [|left]| |].
  - split; [done|right; left]. eauto.
  - split; [done|right; right]. split; [done|]. intros Hr. destruct Hwhy as [Hw|(_ & Hst & _ & _)].
    + unfold is_agent in Ha. rewrite Ha in Hw. destruct o; try done. injection Hw as ->. eauto.
    + unfold stops_later in Hst. unfold is_agent in Ha. by rewrite Ha, Hr in Hst.
Qed.
Lemma agent_step m o m' id t t' :
  step m o m' -> Get m id = Some t -> Get m' id = Some t' -> is_agent t ->
  tkInfo t' = tkInfo t /\
  (tkStatus t' = tkStatus t \/
   (exists ctx later, o = OMarkAgentTaskRunning ctx id later) /\ tkStatus t = TaskQueued /\ tkStatus t' = TaskRunning \/
   terminal_status (tkStatus t') = true /\ (tkStatus t = TaskRunning -> exists r now later, o = OCompleteAgentTask id r now later)).
Proof. intros Hs Hg Hg' Ha. destruct (task_step m o m' id t t' Hs Hg Hg') as (es & Hc & _). by eapply change_agent. Qed.
(** A task that is not an agent's never becomes one. *)
Lemma agent_before m o m' id t t' : step m o m' -> Get m id = Some t -> Get m' id = Some t' -> is_agent t' -> is_agent t.
Proof.
  intros Hs Hg Hg' Ha. destruct (task_step m o m' id t t' Hs Hg Hg') as (es & Hc & _). unfold is_agent in *.
  by destruct Hc as [? Hi|Hi|? ? _ Hi|? ? _ Hi]; rewrite <- Hi.
Qed.
Lemma agent_new m o m' id t' : step m o m' -> Get m id = None -> Get m' id = Some t' -> is_agent t' -> starts_agent o = true.
Proof.
  intros Hs Hg Hg' Ha. unfold Get in *. destruct (step_effect _ _ _ Hs) as [Ht _|id0 t0 t1 es Hg0 Ht _ _ _|id0 t0 e Hn _ _ Ht _ _ Hag|maxAge now -> Hm].
  - congruence.
  - unfold Get in Hg0. destruct (decide (id0 = id)) as [->|Hne]; [congruence|]. rewrite Ht, lookup_insert_ne in Hg' by done. congruence.
  - destruct (decide (id0 = id)) as [->|Hne]; [|rewrite Ht, lookup_insert_ne in Hg' by done; congruence].
    rewrite Ht, lookup_insert_eq in Hg'. injection Hg' as <-. by apply Hag.
  - subst m'. apply (Get_Cleanup m maxAge now) in Hg' as [Hg' _]. unfold Get in Hg'. congruence.
Qed.
Lemma running_stays m o m' id t :
  step m o m' -> Get m id = Some t -> is_agent t -> tkStatus t = TaskRunning -> (forall r now later, o <> OCompleteAgentTask id r now later) ->
  exists t', Get m' id = Some t' /\ tkInfo t' = tkInfo t /\ tkStatus t' = TaskRunning.
Proof.
  intros Hs Hg Ha Hr Hno. destruct (Get m' id) as [t'|] eqn:Hg'.
  - exists t'. split; [done|]. destruct (agent_step m o m' id t t' Hs Hg Hg' Ha) as [Hi [E|[(_ & E & _)|[Ht Hw]]]]; [split; congruence|congruence|].
    destruct (Hw Hr) as (r & now & later & ->). by destruct (Hno r now later).
  - exfalso. unfold Get in *. destruct (step_effect _ _ _ Hs) as [Ht _|id0 t0 t1 es Hg0 Ht _ _ _|id0 t0 e Hn _ _ Ht _ _ _|maxAge now -> Hm].
    + congruence.
    + rewrite Ht in Hg'. destruct (decide (id0 = id)) as [->|Hne]; [by rewrite lookup_insert_eq in Hg'|]. rewrite lookup_insert_ne in Hg' by done. congruence.
    + rewrite Ht in Hg'. destruct (decide (id0 = id)) as [->|Hne]; [by rewrite lookup_insert_eq in Hg'|]. rewrite lookup_insert_ne in Hg' by done. congruence.
    + subst m'. pose proof (proj2 (Get_Cleanup m maxAge now id t)) as Hc. unfold Get in Hc. rewrite Hg' in Hc.
      assert (Hrem : removable (now - maxAge) t = false) by (unfold removable; by rewrite Hr). by specialize (Hc (conj Hg Hrem)).
Qed.

(** What the invariant needs of a change of the manager: no agent task appears,
    and one that is queued or running was so before. *)
Definition keeps_agents (m m' : Manager) : Prop :=
  forall id t', Get m' id = Some t' -> is_agent t' ->
    exists t, Get m id = Some t /\ is_agent t /\ tkInfo t = tkInfo t' /\ (live (tkStatus t') = true -> tkStatus t = tkStatus t').
Lemma agent_key_info t t' : tkInfo t = tkInfo t' -> agent_key t = agent_key t'.
Proof. unfold agent_key. by intros ->. Qed.
Lemma step_keeps_agents m o m' :
  step m o m' -> starts_agent o = false -> (forall ctx id later, o <> OMarkAgentTaskRunning ctx id later) -> keeps_agents m m'.
Proof.
  intros Hs Hno Hmark id t' Hg' Ha. destruct (Get m id) as [t|] eqn:Hg.
  - pose proof (agent_before m o m' id t t' Hs Hg Hg' Ha) as Ha0. exists t. destruct (agent_step m o m' id t t' Hs Hg Hg' Ha0) as [Hi Hst].
    split_and!; [done|done|done|]. intros Hl. destruct Hst as [E|[((ctx & later & E) & _)|[Ht _]]]; [done|by destruct (Hmark ctx id later)|].
    apply terminal_not_live in Ht. congruence.
  - pose proof (agent_new m o m' id t' Hs Hg Hg' Ha). congruence.
Qed.
Lemma other_not_mark o : agent_op o = false -> starts_agent o = false /\ (forall ctx id later, o <> OMarkAgentTaskRunning ctx id later) /\
  (forall id r now later, o <> OCompleteAgentTask id r now later).
Proof. intros H. by destruct o. Qed.
(** The parts of the invariant about tasks that wait follow. *)
Lemma queued_kept p m' t' id :
  served p -> keeps_agents (prTasks p) m' -> Get m' id = Some t' -> is_agent t' -> tkStatus t' = TaskQueued ->
  (exists st, prStates p !! agent_key t' = Some st /\ id ∈ rqTaskID <$> asQueue st) \/
  (exists req, Promoting (agent_key t') req ∈ prActive p /\ rqTaskID req = id).
Proof.
  intros Hv Hk Hg Ha Hs. destruct (Hk id t' Hg Ha) as (t & Hg0 & Ha0 & Hi & Hl). rewrite Hs in Hl. rewrite <- (agent_key_info t t' Hi).
  by apply (sv_queued p Hv id t Hg0 Ha0), Hl.
Qed.
Lemma running_kept p m' t' id :
  served p -> keeps_agents (prTasks p) m' -> Get m' id = Some t' -> is_agent t' -> tkStatus t' = TaskRunning ->
  exists req, Running (agent_key t') req ∈ prActive p /\ rqTaskID req = id.
Proof.
  intros Hv Hk Hg Ha Hs. destruct (Hk id t' Hg Ha) as (t & Hg0 & Ha0 & Hi & Hl). rewrite Hs in Hl. rewrite <- (agent_key_info t t' Hi).
  by apply (sv_running p Hv id t Hg0 Ha0), Hl.
Qed.
Lemma waits_kept p m' key req t' :
  served p -> keeps_agents (prTasks p) m' ->
  (Promoting key req ∈ prActive p \/ exists st, prStates p !! key = Some st /\ req ∈ asQueue st) ->
  Get m' (rqTaskID req) = Some t' -> is_agent t' -> agent_key t' = key.
Proof.
  intros Hv Hk Hw Hg Ha. destruct (Hk _ t' Hg Ha) as (t & Hg0 & Ha0 & Hi & _). rewrite <- (agent_key_info t t' Hi).
  by apply (sv_waits p Hv key req t Hw Hg0).
Qed.
Lemma served_other p o bg : served p -> agent_op o = false -> step (prTasks p) o bg -> served (mkProvider (prStates p) bg (prActive p)).
Proof.
  intros Hv Hno Hs. destruct (other_not_mark o Hno) as (H1 & H2 & H3). pose proof (step_keeps_agents _ _ _ Hs H1 H2) as Hk.
  split; try apply Hv; cbn.
  - eapply reachable_step; [apply (sv_tasks p Hv)|exact Hs].
  - intros id t. by apply running_kept.
  - intros id t. by apply queued_kept.
  - intros key req Hr. destruct (sv_runs p Hv key req Hr) as (t & Hg & Ha & Hkey & Hst).
    destruct (running_stays _ _ _ _ t Hs Hg Ha Hst) as (t' & Hg' & Hi & Hst'); [intros r now later; apply H3|].
    exists t'. split_and!; [done|unfold is_agent in *; by rewrite Hi|by rewrite (agent_key_info t' t Hi)|done].
  - intros key req t. by apply waits_kept.
Qed.
Lemma closing_terminal r : terminal_status (closingStatus r).1 = true.
Proof. unfold closingStatus. case_if; [done|]. by case_if. Qed.
Lemma Get_emit_put m id t t2 e s c later : Get (emitTaskEvent (put m id t) t2 e s c later) id = Some t.
Proof. unfold Get. rewrite emit_tasks. cbn. by rewrite lookup_insert_eq. Qed.
Lemma complete_ends_task m id r now later t :
  Get m id = Some t -> is_agent t -> tkStatus t = TaskRunning -> terminal_status (result_status r) = true ->
  exists t', Get (CompleteAgentTask m id r now later) id = Some t' /\ terminal_status (tkStatus t') = true.
Proof.
  intros Hg Ha Hr Ht. unfold CompleteAgentTask, complete_kind. rewrite Hg. unfold is_agent in Ha. rewrite Ha. cbn [kind_is bool_decide].
  unfold completeAgentLocked. rewrite Hr. cbn [status_is bool_decide].
  eexists. split; [apply get_cancel_task, Get_emit_put|done].
Qed.
Lemma served_complete p i key req r now later bg r' :
  served p -> 0 < now -> prActive p !! i = Some (Running key req) -> completeAgentRequest p req r now later = (bg, r') ->
  served (mkProvider (prStates p) bg (<[i := Finishing key req r']> (prActive p))).
Proof.
  intros Hv Hnow Hi Hc. injection Hc as Hbg _. pose proof (sv_one p Hv) as Hone.
  assert (Hin : Running key req ∈ prActive p) by (by eapply list_elem_of_lookup_2).
  destruct (sv_runs p Hv key req Hin) as (t & Hg & Ha & Hkey & Hst).
  assert (Hs : step (prTasks p) (OCompleteAgentTask (rqTaskID req) (taskResult req r) now later) bg).
  { split; [|by rewrite <- Hbg]. split_and!; [by intros n [= <-]| |].
    - intros id kind t0 [= <- <-] Hg0. replace t0 with t by congruence. exact Ha.
    - intros id r0 n l [= _ <- _ _]. apply closing_terminal. }
  pose proof (step_keeps_agents _ _ _ Hs eq_refl ltac:(done)) as Hk.
  assert (Hrep : forall x, x ∈ <[i := Finishing key req r']> (prActive p) <-> x = Finishing key req r' \/ (x ∈ prActive p /\ act_key x <> key)).
  { intros x. exact (replaced _ _ _ (Finishing key req r') x Hi Hone eq_refl). }
  split; cbn.
  - eapply reachable_step; [apply (sv_tasks p Hv)|exact Hs].
  - by rewrite (keys_replaced _ _ _ (Finishing key req r') Hi eq_refl).
  - intros a [->|[Ha1 _]]%Hrep; [by apply (sv_named p Hv (Running key req))|by apply (sv_named p Hv)].
  - intros a [->|[Ha1 _]]%Hrep; [by apply (sv_ids p Hv (Running key req))|by apply (sv_ids p Hv)].
  - apply (sv_queue_ids p Hv).
  - intros k st Hk1 Hr. destruct (sv_busy p Hv k st Hk1 Hr) as (a & Ha1 & <-). destruct (decide (act_key a = key)) as [E|E].
    + exists (Finishing key req r'). split; [apply Hrep; by left|by rewrite E].
    + exists a. split; [apply Hrep; by right|done].
  - apply (sv_idle p Hv).
  - intros id t' Hg' Ha' Hst'. destruct (running_kept p bg t' id Hv Hk Hg' Ha' Hst') as (req2 & Hr2 & Hid). exists req2. split; [|done].
    apply Hrep. right. split; [done|]. cbn. intros E. rewrite E in Hr2.
    pose proof (same_position _ _ _ _ Hi Hone Hr2 eq_refl) as Heq. injection Heq as ->.
    destruct (complete_ends_task _ _ (taskResult req r) now later t Hg Ha Hst (closing_terminal r)) as (t2 & Hg2 & Ht2).
    rewrite Hbg, Hid in Hg2. replace t' with t2 in Hst' by congruence. by rewrite Hst' in Ht2.
  - intros id t' Hg' Ha' Hst'. destruct (queued_kept p bg t' id Hv Hk Hg' Ha' Hst') as [Hq|(req2 & Hr2 & Hid)]; [by left|right].
    exists req2. split; [|done]. apply Hrep. right. split; [done|]. cbn. intros E. rewrite E in Hr2.
    by pose proof (same_position _ _ _ _ Hi Hone Hr2 eq_refl).
  - intros k req2 [E|[Hr2 Hne]]%Hrep; [done|]. destruct (sv_runs p Hv k req2 Hr2) as (t2 & Hg2 & Ha2 & Hk2 & Hst2).
    destruct (running_stays _ _ _ _ t2 Hs Hg2 Ha2 Hst2) as (t3 & Hg3 & Hi3 & Hst3).
    { intros r0 n l E. injection E as E _ _ _. rewrite E, Hg2 in Hg. injection Hg as ->. apply Hne. cbn. congruence. }
    exists t3. split_and!; [done|unfold is_agent in *; by rewrite Hi3|by rewrite (agent_key_info t3 t2 Hi3)|done].
  - intros k req2 t' Hw. apply waits_kept with p; [done|done|]. destruct Hw as [Hp|Hq]; [left|by right].
    apply Hrep in Hp as [E|[Hp _]]; [done|exact Hp].
Qed.
Lemma nextRequest_spec bg queue :
  let '(next, rest) := nextRequest bg queue in
  exists skipped, queue = skipped ++ (match next with Some req => [req] | None => [] end) ++ rest /\
    Forall (fun req => was_killed bg req = true) skipped /\
    match next with Some req => was_killed bg req = false | None => rest = [] end.
Proof.
  induction queue as [|req queue IH]; cbn; [by exists []|]. destruct (was_killed bg req) eqn:E; [|by exists []].
  destruct (nextRequest bg queue) as [next rest]. destruct IH as (skipped & -> & Hs & Hn). exists (req :: skipped). split_and!; [done|by constructor|done].
Qed.
Lemma served_finish p i key req r states next :
  served p -> prActive p !! i = Some (Finishing key req r) -> finishAgentRequest (prStates p) (prTasks p) key r = (states, next) ->
  served (mkProvider states (prTasks p) (match next with Some next => <[i := Promoting key next]> (prActive p) | None => delete i (prActive p) end)).
Proof.
  intros Hv Hi Hf. pose proof (sv_one p Hv) as Hone.
  destruct (sv_named p Hv (Finishing key req r)) as (st & Hst & _); [by eapply list_elem_of_lookup_2|]. cbn in Hst.
  unfold finishAgentRequest in Hf. rewrite Hst in Hf. pose proof (nextRequest_spec (prTasks p) (asQueue st)) as Hq.
  destruct (nextRequest (prTasks p) (asQueue st)) as [next' rest]. injection Hf as <- <-. destruct Hq as (skipped & Hq & Hskip & Hnext).
  set (active := match next' with Some next => _ | None => _ end).
  assert (Hrep : forall x, x ∈ active <-> (exists nx, next' = Some nx /\ x = Promoting key nx) \/ (x ∈ prActive p /\ act_key x <> key)).
  { intros x. unfold active. destruct next' as [nx|].
    - rewrite (replaced _ _ _ (Promoting key nx) x Hi Hone eq_refl). split; [intros [->|?]; [left; eauto|by right]|intros [(? & [= <-] & ->)|?]; [by left|by right]].
    - rewrite (removed _ _ _ x Hi Hone). split; [by right|by intros [(? & [=] & _)|?]]. }
  assert (Hsub : forall q, q ∈ rest \/ next' = Some q -> q ∈ asQueue st).
  { intros q Hin. rewrite Hq. apply elem_of_app. right. apply elem_of_app. destruct Hin as [Hin| ->]; [by right|left; by left]. }
  split; cbn.
  - apply (sv_tasks p Hv).
  - unfold active. destruct next' as [nx|]; [by rewrite (keys_replaced _ _ _ (Promoting key nx) Hi eq_refl)|by apply keys_removed].
  - intros a [(nx & -> & ->)|[Ha Hne]]%Hrep; [cbn; rewrite lookup_insert_eq; by eexists|]. rewrite lookup_insert_ne by done. by apply (sv_named p Hv).
  - intros a [(nx & E & ->)|[Ha _]]%Hrep; [|by apply (sv_ids p Hv)]. cbn. apply (sv_queue_ids p Hv key st nx Hst). apply Hsub. by right.
  - intros k s q Hk Hin. destruct (decide (k = key)) as [->|Hne]; [|rewrite lookup_insert_ne in Hk by done; by eapply (sv_queue_ids p Hv)].
    rewrite lookup_insert_eq in Hk. injection Hk as <-. cbn in Hin. apply (sv_queue_ids p Hv key st q Hst). apply Hsub. by left.
  - intros k s Hk Hr. destruct (decide (k = key)) as [->|Hne].
    + rewrite lookup_insert_eq in Hk. injection Hk as <-. cbn in Hr. destruct next' as [nx|]; [|done]. exists (Promoting key nx). split; [apply Hrep; left; eauto|done].
    + rewrite lookup_insert_ne in Hk by done. destruct (sv_busy p Hv k s Hk Hr) as (a & Ha & <-). exists a. split; [apply Hrep; by right|done].
  - intros k s Hk Hr. destruct (decide (k = key)) as [->|Hne]; [|rewrite lookup_insert_ne in Hk by done; by eapply (sv_idle p Hv)].
    rewrite lookup_insert_eq in Hk. injection Hk as <-. cbn in *. destruct next' as [nx|]; [|done].
    exfalso. apply (sv_queue_ids p Hv key st nx Hst); [apply Hsub; by right|done].
  - intros id t Hg Ha Hs. destruct (sv_running p Hv id t Hg Ha Hs) as (q & Hin & Hid). exists q. split; [|done]. apply Hrep. right. split; [done|].
    intros E. by pose proof (same_position _ _ _ _ Hi Hone Hin E).
  - intros id t Hg Ha Hs. destruct (sv_queued p Hv id t Hg Ha Hs) as [(s & Hk & Hin)|(q & Hin & Hid)].
    + destruct (decide (agent_key t = key)) as [E|Hne]; [|left; rewrite lookup_insert_ne by done; by eexists].
      rewrite E in *. replace s with st in Hin by congruence. rewrite Hq, !fmap_app in Hin. apply elem_of_app in Hin as [Hin|[Hin|Hin]%elem_of_app].
      * exfalso. apply list_elem_of_fmap in Hin as (q & Hid & Hin). rewrite Forall_forall in Hskip. specialize (Hskip q Hin). unfold was_killed in Hskip.
        rewrite <- Hid, Hg in Hskip. apply status_is_true in Hskip. congruence.
      * right. destruct next' as [nx|]; [|by apply not_elem_of_nil in Hin]. apply list_elem_of_singleton in Hin as ->. exists nx. split; [apply Hrep; left; eauto|done].
      * left. rewrite lookup_insert_eq. by eexists.
    + right. exists q. split; [|done]. apply Hrep. right. split; [done|]. intros E. by pose proof (same_position _ _ _ _ Hi Hone Hin E).
  - intros k q [(? & _ & E)|[Hin _]]%Hrep; [done|]. by apply (sv_runs p Hv).
  - intros k q t Hw. apply (sv_waits p Hv k q t). destruct Hw as [[(nx & -> & [= -> ->])|[Hin _]]%Hrep|(s & Hk & Hin)].
    + right. exists st. split; [done|]. apply Hsub. by right.
    + by left.
    + right. destruct (decide (k = key)) as [->|Hne]; [|rewrite lookup_insert_ne in Hk by done; by eexists].
      rewrite lookup_insert_eq in Hk. injection Hk as <-. exists st. split; [done|]. apply Hsub. by left.
Qed.

Lemma mark_cases m ctx id later bg answer :
  MarkAgentTaskRunning m ctx id later = (bg, answer) ->
  (bg = m /\ (forall c, answer <> Ok (Some c)) /\ forall t, Get m id = Some t -> is_agent t -> tkStatus t <> TaskQueued) \/
  (exists t t' c, answer = Ok (Some c) /\ Get m id = Some t /\ is_agent t /\ tkStatus t = TaskQueued /\
     tasks bg = <[id := t']> (tasks m) /\ tkInfo t' = tkInfo t /\ tkStatus t' = TaskRunning).
Proof.
  unfold MarkAgentTaskRunning. destruct (Get m id) as [t|] eqn:Hg; [|by intros [= <- <-]; left].
  destruct (kind_is _ _) eqn:Hk; cbn [negb]; [|intros [= <- <-]; left; split_and!; [done|done|]; intros t0 [= <-] Ha; unfold is_agent in Ha; by rewrite Ha in Hk].
  apply kind_is_true in Hk.
  destruct (tkStatus t) eqn:Hs; intros [= <- <-]; [|left; split_and!; [done|done|]; intros t0 [= <-]; by rewrite Hs..].
  right. exists t. do 2 eexists. split_and!; [done|done|done|done|by rewrite emit_tasks|done|done].
Qed.
Lemma promoted_key key req answer : act_key (promoted_activity key req answer) = key /\ act_req (promoted_activity key req answer) = req.
Proof. by destruct answer as [[c|]|]. Qed.
Lemma served_promote p i key req ctx later bg answer :
  served p -> prActive p !! i = Some (Promoting key req) -> MarkAgentTaskRunning (prTasks p) ctx (rqTaskID req) later = (bg, answer) ->
  served (mkProvider (prStates p) bg (<[i := promoted_activity key req answer]> (prActive p))).
Proof.
  intros Hv Hi Hm. pose proof (sv_one p Hv) as Hone. destruct (promoted_key key req answer) as [Hkey Hreq].
  set (a' := promoted_activity key req answer) in *.
  assert (Hin : Promoting key req ∈ prActive p) by (by eapply list_elem_of_lookup_2).
  assert (Hrep : forall x, x ∈ <[i := a']> (prActive p) <-> x = a' \/ (x ∈ prActive p /\ act_key x <> key)) by (intros x; exact (replaced _ _ _ a' x Hi Hone Hkey)).
  assert (Hreach : reachable bg).
  { eapply reachable_step; [apply (sv_tasks p Hv)|]. split; [by apply (caller_keeps_plain _ (OMarkAgentTaskRunning ctx (rqTaskID req) later))|].
    cbn. by rewrite Hm. }
  assert (Hcases : forall id t', Get bg id = Some t' -> is_agent t' -> exists t, Get (prTasks p) id = Some t /\ is_agent t /\ tkInfo t = tkInfo t' /\
            (tkStatus t' = tkStatus t \/ id = rqTaskID req /\ a' = Running key req /\ tkStatus t' = TaskRunning) /\ (id = rqTaskID req -> tkStatus t' <> TaskQueued)).
  { intros id t' Hg Ha. destruct (mark_cases _ _ _ _ _ _ Hm) as [(-> & _ & Hnq)|(t & t1 & c & Hans & Hg0 & Ha0 & Hs0 & Ht & Hi1 & Hs1)].
    - exists t'. split_and!; [done|done|done|by left|]. intros ->. by apply Hnq.
    - unfold Get in *. rewrite Ht in Hg. destruct (decide (rqTaskID req = id)) as [<-|Hne].
      + rewrite lookup_insert_eq in Hg. injection Hg as <-. exists t. split_and!; [done|done|done|right; unfold a'; by rewrite Hans|by rewrite Hs1].
      + rewrite lookup_insert_ne in Hg by done. exists t'. split_and!; [done|done|done|by left|done]. }
  assert (Hother : forall x, x ∈ prActive p -> x <> Promoting key req -> act_key x <> key).
  { intros x Hx Hne E. apply Hne. by apply (same_position _ _ _ _ Hi Hone Hx). }
  split; cbn.
  - exact Hreach.
  - by rewrite (keys_replaced _ _ _ a' Hi Hkey).
  - intros a [->|[Ha _]]%Hrep; [rewrite Hkey, Hreq; by apply (sv_named p Hv (Promoting key req))|by apply (sv_named p Hv)].
  - intros a [->|[Ha _]]%Hrep; [rewrite Hreq; by apply (sv_ids p Hv (Promoting key req))|by apply (sv_ids p Hv)].
  - apply (sv_queue_ids p Hv).
  - intros k st Hk Hr. destruct (sv_busy p Hv k st Hk Hr) as (a & Ha & <-). destruct (decide (act_key a = key)) as [E|E].
    + exists a'. split; [apply Hrep; by left|congruence].
    + exists a. split; [apply Hrep; by right|done].
  - apply (sv_idle p Hv).
  - intros id t' Hg Ha Hs. destruct (Hcases id t' Hg Ha) as (t & Hg0 & Ha0 & Hi0 & [E|(-> & Ea & _)] & _).
    + rewrite Hs in E. destruct (sv_running p Hv id t Hg0 Ha0 (eq_sym E)) as (q & Hq & Hid). rewrite <- (agent_key_info t t' Hi0). exists q. split; [|done].
      apply Hrep. right. split; [done|]. apply (Hother _ Hq). done.
    + exists req. split; [|done]. rewrite <- (agent_key_info t t' Hi0), (sv_waits p Hv key req t (or_introl Hin) Hg0 Ha0). apply Hrep. left. by rewrite Ea.
  - intros id t' Hg Ha Hs. destruct (Hcases id t' Hg Ha) as (t & Hg0 & Ha0 & Hi0 & [E|(_ & _ & E)] & Hnq); [|by rewrite Hs in E].
    rewrite Hs in E. rewrite <- (agent_key_info t t' Hi0). destruct (sv_queued p Hv id t Hg0 Ha0 (eq_sym E)) as [Hq|(q & Hq & Hid)]; [by left|right].
    exists q. split; [|done]. apply Hrep. right. split; [done|]. apply (Hother _ Hq). intros [= E1 E2]. subst q. by apply (Hnq (eq_sym Hid)).
  - intros k q Hq. apply Hrep in Hq. destruct (mark_cases _ _ _ _ _ _ Hm) as [(-> & Hno & _)|(t & t1 & c & Hans & Hg0 & Ha0 & Hs0 & Ht & Hi1 & Hs1)].
    + destruct Hq as [E|[Hq _]]; [|by apply (sv_runs p Hv)]. exfalso. unfold a' in E. destruct answer as [[c|]|]; [by apply (Hno c)|done..].
    + destruct Hq as [E|[Hq Hne]].
      * unfold a' in E. rewrite Hans in E. injection E as -> ->. exists t1. unfold Get. rewrite Ht, lookup_insert_eq. split_and!; [done|unfold is_agent in *; by rewrite Hi1| |done].
        rewrite (agent_key_info t1 t Hi1). by apply (sv_waits p Hv key req t (or_introl Hin)).
      * destruct (sv_runs p Hv k q Hq) as (t2 & Hg2 & Ha2 & Hk2 & Hs2). exists t2. unfold Get in *. rewrite Ht. rewrite lookup_insert_ne; [done|]. intros E. congruence.
  - intros k q t' Hw Hg Ha. destruct (Hcases _ t' Hg Ha) as (t & Hg0 & Ha0 & Hi0 & _). rewrite <- (agent_key_info t t' Hi0). apply (sv_waits p Hv k q t); [|done|done].
    destruct Hw as [Hw|Hw]; [left|by right]. apply Hrep in Hw as [E|[Hw _]]; [|done]. exfalso. unfold a' in E. by destruct answer as [[c|]|].
Qed.
(** A registered agent task. *)
Lemma start_agent_spec m ctx bot sid aid asid msg desc queued draws now later bg id c :
  StartAgentTask m ctx bot sid aid asid msg desc queued draws now later = Some (bg, id, c) ->
  exists t, Get m id = None /\ id <> [] /\ tasks bg = <[id := t]> (tasks m) /\ is_agent t /\ agent_key t = agentStateKey bot sid aid /\
    tkStatus t = (if queued then TaskQueued else TaskRunning).
Proof.
  unfold StartAgentTask. destruct (newTaskIDLocked _ _ _) as [id'|] eqn:E; [|done]. cbn. intros [= <- <- _]. eexists.
  split; [by apply (newTaskID_fresh _ _ _ _ E)|]. split; [|split; [unfold register; rewrite emit_tasks; reflexivity|by split_and!]].
  clear -E. intros ->. induction draws as [|b draws IH]; [done|]. cbn in E. case_bool_decide; [done|by apply IH].
Qed.
Lemma ensure_spec p key asid : served p ->
  asRunning (ensure (prStates p) key asid) = from_option asRunning [] (prStates p !! key) /\
  asQueue (ensure (prStates p) key asid) = from_option asQueue [] (prStates p !! key).
Proof. intros _. unfold ensure. destruct (prStates p !! key) as [st|]; [|done]. by destruct (is_empty (asSessionID st)). Qed.
Lemma keys_appended (l : list activity) a : NoDup (act_key <$> l) -> (forall x, x ∈ l -> act_key x <> act_key a) -> NoDup (act_key <$> (l ++ [a])).
Proof.
  intros Hn Hne. rewrite fmap_app. apply NoDup_app. split_and!; [done| |apply NoDup_singleton].
  intros k Hk Hk'. cbn in Hk'. apply list_elem_of_singleton in Hk' as ->. apply list_elem_of_fmap in Hk as (x & E & Hx). by apply (Hne x Hx).
Qed.
Section submission.
Context (p : Provider) (bot sid : str) (req : agentRequest) (bg : Manager) (id : str) (t : Task).
Let key : str := agentStateKey bot sid (rqAgentID req).
Context (Hv : served p) (Hreach : reachable bg) (Hnew : Get (prTasks p) id = None) (Hid : id <> []) (Hheld : ~ held p id).
Context (Htasks : tasks bg = <[id := t]> (tasks (prTasks p))) (Ha : is_agent t) (Hkey : agent_key t = key).
Let req' : agentRequest := mkRequest id (rqAgentID req) (rqAgentSessionID req) (rqMessage req) (rqConfig req).
Lemma bg_cases id0 t0 : Get bg id0 = Some t0 -> id0 = id /\ t0 = t \/ id0 <> id /\ Get (prTasks p) id0 = Some t0.
Proof.
  unfold Get. rewrite Htasks. destruct (decide (id0 = id)) as [->|Hne]; [rewrite lookup_insert_eq; intros [= <-]; by left|].
  rewrite lookup_insert_ne by done. by right.
Qed.
Lemma bg_old id0 t0 : Get (prTasks p) id0 = Some t0 -> Get bg id0 = Some t0.
Proof. intros Hg. unfold Get in *. rewrite Htasks, lookup_insert_ne; [done|]. intros ->. congruence. Qed.
Lemma runs_kept k q : Running k q ∈ prActive p -> exists t0, Get bg (rqTaskID q) = Some t0 /\ is_agent t0 /\ agent_key t0 = k /\ tkStatus t0 = TaskRunning.
Proof. intros Hq. destruct (sv_runs p Hv k q Hq) as (t0 & Hg & H1 & H2 & H3). exists t0. split_and!; [by apply bg_old|done..]. Qed.
Lemma not_waiting k q : (Promoting k q ∈ prActive p \/ exists st, prStates p !! k = Some st /\ q ∈ asQueue st) -> rqTaskID q <> id.
Proof. intros Hw E. apply Hheld. destruct Hw as [Hw|(st & H1 & H2)]; [right; eauto|left; eauto 6]. Qed.
Lemma served_queued st :
  prStates p !! key = Some st -> asRunning st <> [] -> tkStatus t = TaskQueued -> forall st', asRunning st' = asRunning st -> asQueue st' = asQueue st ++ [req'] ->
  served (mkProvider (<[key := st']> (prStates p)) bg (prActive p)).
Proof.
  intros Hst Hbusy Hs st' Hr' Hq'.
  assert (Hold : forall k s, <[key := st']> (prStates p) !! k = Some s -> k = key /\ s = st' \/ k <> key /\ prStates p !! k = Some s).
  { intros k s. destruct (decide (k = key)) as [->|Hne]; [rewrite lookup_insert_eq; intros [= <-]; by left|rewrite lookup_insert_ne by done; by right]. }
  split; cbn.
  - exact Hreach.
  - apply (sv_one p Hv).
  - intros a Hin. destruct (sv_named p Hv a Hin) as (s & E1 & E2). destruct (decide (act_key a = key)) as [E|Hne].
    + rewrite E, lookup_insert_eq. exists st'. split; [done|]. rewrite Hr'. congruence.
    + rewrite lookup_insert_ne by done. by exists s.
  - apply (sv_ids p Hv).
  - intros k s q [[-> ->]|[Hne Hk]]%Hold Hin; [|by eapply (sv_queue_ids p Hv)]. rewrite Hq' in Hin.
    apply elem_of_app in Hin as [Hin|Hin]; [by eapply (sv_queue_ids p Hv)|]. by apply list_elem_of_singleton in Hin as ->.
  - intros k s [[-> ->]|[Hne Hk]]%Hold Hr; [|by eapply (sv_busy p Hv)]. by apply (sv_busy p Hv key st).
  - intros k s [[-> ->]|[Hne Hk]]%Hold Hr; [congruence|by eapply (sv_idle p Hv)].
  - intros id0 t0 [[-> ->]|[Hne Hg]]%bg_cases Ha0 Hs0; [congruence|by apply (sv_running p Hv)].
  - intros id0 t0 [[-> ->]|[Hne Hg]]%bg_cases Ha0 Hs0.
    + left. rewrite Hkey, lookup_insert_eq. exists st'. split; [done|]. rewrite Hq', fmap_app. apply elem_of_app. right. by left.
    + destruct (sv_queued p Hv id0 t0 Hg Ha0 Hs0) as [(s & E1 & E2)|Hp]; [left|by right]. destruct (decide (agent_key t0 = key)) as [E|Hne0].
      * rewrite E, lookup_insert_eq. exists st'. split; [done|]. rewrite Hq', fmap_app. apply elem_of_app. left. congruence.
      * rewrite lookup_insert_ne by done. by exists s.
  - apply runs_kept.
  - intros k q t0 Hw Hg Ha0.
    assert (Hcase : (k = key /\ q = req') \/ (Promoting k q ∈ prActive p \/ exists s, prStates p !! k = Some s /\ q ∈ asQueue s)).
    { destruct Hw as [Hw|(s & [[-> ->]|[Hne Hk]]%Hold & Hin)]; [by right; left| |right; right; eauto].
      rewrite Hq' in Hin. apply elem_of_app in Hin as [Hin|Hin]; [right; right; eauto|]. apply list_elem_of_singleton in Hin as ->. by left. }
    destruct (bg_cases _ _ Hg) as [[E ->]|[Hne Hg0]].
    + destruct Hcase as [[-> _]|Hcase]; [done|]. by destruct (not_waiting k q Hcase).
    + destruct Hcase as [[-> ->]|Hcase]; [done|]. by apply (sv_waits p Hv k q t0).
Qed.
Lemma served_started :
  from_option asRunning [] (prStates p !! key) = [] -> tkStatus t = TaskRunning -> forall st', asRunning st' = id -> asQueue st' = [] ->
  served (mkProvider (<[key := st']> (prStates p)) bg (prActive p ++ [Running key req'])).
Proof.
  intros Hidle Hs st' Hr' Hq'.
  assert (Hold : forall k s, <[key := st']> (prStates p) !! k = Some s -> k = key /\ s = st' \/ k <> key /\ prStates p !! k = Some s).
  { intros k s. destruct (decide (k = key)) as [->|Hne]; [rewrite lookup_insert_eq; intros [= <-]; by left|rewrite lookup_insert_ne by done; by right]. }
  assert (Hno : forall a, a ∈ prActive p -> act_key a <> key).
  { intros a Hin E. destruct (sv_named p Hv a Hin) as (s & E1 & E2). rewrite E in E1. rewrite E1 in Hidle. cbn in Hidle. apply (sv_ids p Hv a Hin). congruence. }
  assert (Hin' : forall x, x ∈ prActive p ++ [Running key req'] <-> x ∈ prActive p \/ x = Running key req') by (intros x; by rewrite elem_of_app, list_elem_of_singleton).
  split; cbn.
  - exact Hreach.
  - by apply keys_appended; [apply (sv_one p Hv)|].
  - intros a [Hin| ->]%Hin'; [rewrite lookup_insert_ne by (intros E; by apply (Hno a Hin)); by apply (sv_named p Hv)|]. cbn. rewrite lookup_insert_eq. by exists st'.
  - intros a [Hin| ->]%Hin'; [by apply (sv_ids p Hv)|done].
  - intros k s q [[-> ->]|[Hne Hk]]%Hold Hin; [rewrite Hq' in Hin; by apply not_elem_of_nil in Hin|by eapply (sv_queue_ids p Hv)].
  - intros k s [[-> ->]|[Hne Hk]]%Hold Hr; [exists (Running key req'); split; [apply Hin'; by right|done]|].
    destruct (sv_busy p Hv k s Hk Hr) as (a & H1 & H2). exists a. split; [apply Hin'; by left|done].
  - intros k s [[-> ->]|[Hne Hk]]%Hold Hr; [congruence|by eapply (sv_idle p Hv)].
  - intros id0 t0 [[-> ->]|[Hne Hg]]%bg_cases Ha0 Hs0; [exists req'; rewrite Hkey; split; [apply Hin'; by right|done]|].
    destruct (sv_running p Hv id0 t0 Hg Ha0 Hs0) as (q & H1 & H2). exists q. split; [apply Hin'; by left|done].
  - intros id0 t0 [[-> ->]|[Hne Hg]]%bg_cases Ha0 Hs0; [congruence|].
    destruct (sv_queued p Hv id0 t0 Hg Ha0 Hs0) as [(s & E1 & E2)|(q & H1 & H2)]; [left|right; exists q; split; [apply Hin'; by left|done]].
    destruct (decide (agent_key t0 = key)) as [E|Hne0]; [|rewrite lookup_insert_ne by done; by exists s].
    exfalso. rewrite E in E1. rewrite E1 in Hidle. cbn in Hidle. rewrite (sv_idle p Hv key s E1 Hidle) in E2. by apply not_elem_of_nil in E2.
  - intros k q [Hin|E]%Hin'; [by apply runs_kept|]. injection E as -> ->. exists t. unfold Get. rewrite Htasks. cbn. by rewrite lookup_insert_eq.
  - intros k q t0 Hw Hg Ha0.
    assert (Hcase : Promoting k q ∈ prActive p \/ exists s, prStates p !! k = Some s /\ q ∈ asQueue s).
    { destruct Hw as [[Hw|E]%Hin'|(s & [[-> ->]|[Hne Hk]]%Hold & Hin)]; [by left|done|rewrite Hq' in Hin; by apply not_elem_of_nil in Hin|right; eauto]. }
    destruct (bg_cases _ _ Hg) as [[E ->]|[Hne Hg0]]; [by destruct (not_waiting k q Hcase)|]. by apply (sv_waits p Hv k q t0).
Qed.
End submission.
Lemma served_submit p ctx bot sid req desc draws now later p' r :
  served p -> 0 < now -> submitAgentTask p ctx bot sid req desc draws now later = Some (p', r) -> ~ held p (submitted_id r) -> served p'.
Proof.
  intros Hv Hnow Hsub Hheld. unfold submitAgentTask in Hsub.
  set (st := ensure (prStates p) _ _) in *. destruct (ensure_spec p (agentStateKey bot sid (rqAgentID req)) (rqAgentSessionID req) Hv) as [Er Eq]. fold st in Er, Eq.
  destruct (StartAgentTask _ _ _ _ _ _ _ _ _ _ _ _) as [[[bg id] c]|] eqn:E; [|done]. cbn in Hsub.
  assert (Hreach : reachable bg).
  { eapply reachable_step; [apply (sv_tasks p Hv)|].
    split; [apply (caller_keeps_plain _ (OStartAgentTask ctx bot sid (rqAgentID req) (rqAgentSessionID req) (rqMessage req) desc (negb (is_empty (asRunning st))) draws now later)); [by intros n [= <-]|done]|].
    cbn. by rewrite E. }
  apply start_agent_spec in E as (t & Hnew & Hid & Ht & Ha & Hkey & Hs).
  destruct (is_empty (asRunning st)) eqn:Eb; cbn [negb] in *; injection Hsub as <- <-; cbn in Hheld.
  - apply is_empty_true in Eb. rewrite Eb in Er. eapply served_started; try done. cbn. rewrite Eq. destruct (prStates p !! _) as [s|] eqn:El; [|done]. by eapply (sv_idle p Hv).
  - apply is_empty_false in Eb. destruct (prStates p !! _) as [s|] eqn:El; cbn in Er, Eq; [|done].
    apply (served_queued p bot sid req bg id t Hv Hreach Hnew Hid Hheld Ht Hkey s El); [congruence|done|done|]. cbn. by rewrite Eq.
Qed.
Lemma served_step p l p' : served p -> pstep p l p' -> served p'.
Proof.
  intros Hv Hs. destruct Hs; [by eapply served_submit|by eapply served_complete|by eapply served_finish|by eapply served_promote|by eapply served_other].
Qed.
Lemma preachable_served p : preachable p -> served p.
Proof. induction 1 as [|p l p' _ IH Hs]; [apply served_new|by eapply served_step]. Qed.

(** ** One run at a time, and nothing forgotten *)
(** C13: Whatever is submitted, stopped, cleaned up or ended and in whatever
    order, every subagent task that runs is the one the coordinator names for
    its agent, so an agent never has two runs at once. *)
Theorem one_run_per_agent (p : Provider) (botID sessionID agentID id1 id2 : str) (t1 t2 : Task) :
  preachable p -> let key := agentStateKey botID sessionID agentID in
  Get (prTasks p) id1 = Some t1 -> is_agent t1 -> agent_key t1 = key -> tkStatus t1 = TaskRunning ->
  (snapshot p botID sessionID agentID).1.1 = id1 /\
  (Get (prTasks p) id2 = Some t2 -> is_agent t2 -> agent_key t2 = key -> tkStatus t2 = TaskRunning -> id2 = id1).
Proof.
  intros Hp%preachable_served key Hg Ha Hk Hs.
  assert (Hname : forall id t, Get (prTasks p) id = Some t -> is_agent t -> agent_key t = key -> tkStatus t = TaskRunning -> (snapshot p botID sessionID agentID).1.1 = id).
  { intros id t Hg' Ha' Hk' Hs'. destruct (sv_running p Hp id t Hg' Ha' Hs') as (req & Hin & Hid). destruct (sv_named p Hp _ Hin) as (st & E1 & E2). cbn in E1, E2.
    unfold snapshot. rewrite Hk' in E1. fold key. rewrite E1. cbn. congruence. }
  split; [by eapply Hname|]. intros Hg2 Ha2 Hk2 Hs2. rewrite <- (Hname id1 t1 Hg Ha Hk Hs). symmetry. by eapply Hname.
Qed.
(** C14: A subagent task that waits is never forgotten: it is in the queue of its
    agent or about to start, and a goroutine is serving that agent. *)
Theorem no_request_forgotten (p : Provider) (id : str) (t : Task) :
  preachable p -> Get (prTasks p) id = Some t -> is_agent t -> tkStatus t = TaskQueued ->
  exists a, a ∈ prActive p /\ act_key a = agent_key t /\
    (a = Promoting (agent_key t) (act_req a) /\ rqTaskID (act_req a) = id \/
     exists st, prStates p !! agent_key t = Some st /\ asRunning st = rqTaskID (act_req a) /\ id ∈ rqTaskID <$> asQueue st).
Proof.
  intros Hp%preachable_served Hg Ha Hs. destruct (sv_queued p Hp id t Hg Ha Hs) as [(st & E & Hin)|(req & Hin & Hid)].
  - destruct (decide (asRunning st = [])) as [E0|E0].
    + rewrite (sv_idle p Hp _ st E E0) in Hin. by apply not_elem_of_nil in Hin.
    + destruct (sv_busy p Hp _ st E E0) as (a & Ha1 & Hk). exists a. split_and!; [done|done|right]. exists st. split_and!; [done| |done].
      destruct (sv_named p Hp a Ha1) as (st' & E1 & E2). rewrite Hk in E1. congruence.
  - exists (Promoting (agent_key t) req). split_and!; [done|done|]. by left.
Qed.

(** ** The queue drains *)
(** The steps left until the agent rests: three for each request that waits,
    and those of the goroutine that serves it. *)
Definition act_weight (a : activity) : nat := match a with Promoting _ _ => 3 | Running _ _ => 2 | Finishing _ _ _ => 1 end.
Definition queue_of (p : Provider) (key : str) : list agentRequest := from_option asQueue [] (prStates p !! key).
Definition key_weight (key : str) (l : list activity) : nat := foldr (fun a n => ((if decide (act_key a = key) then act_weight a else 0) + n)%nat) 0%nat l.
Definition weight (p : Provider) (key : str) : nat := (key_weight key (prActive p) + 3 * length (queue_of p key))%nat.
#[local] Instance key_weight_perm key : Proper ((≡ₚ) ==> eq) (key_weight key).
Proof. intros l l' H. unfold key_weight. induction H; cbn [foldr]; lia. Qed.
Lemma key_weight_split key l i a : l !! i = Some a ->
  key_weight key l = ((if decide (act_key a = key) then act_weight a else 0) + key_weight key (delete i l))%nat.
Proof. intros Hi. exact (key_weight_perm key _ _ (delete_Permutation l i a Hi)). Qed.
Lemma key_weight_insert key l i a b : l !! i = Some a ->
  key_weight key (<[i := b]> l) = ((if decide (act_key b = key) then act_weight b else 0) + key_weight key (delete i l))%nat.
Proof.
  intros Hi. assert (Hp : <[i := b]> l ≡ₚ b :: delete i l); [|exact (key_weight_perm key _ _ Hp)].
  rewrite insert_take_drop by (by eapply lookup_lt_Some). rewrite delete_take_drop. symmetry. apply Permutation_middle.
Qed.
Lemma key_weight_app key l l' : key_weight key (l ++ l') = (key_weight key l + key_weight key l')%nat.
Proof. unfold key_weight. induction l as [|a l IH]; cbn [app foldr]; [done|]. rewrite IH. lia. Qed.
Lemma queue_of_insert states bg active key st k :
  queue_of (mkProvider (<[key := st]> states) bg active) k = if decide (k = key) then asQueue st else from_option asQueue [] (states !! k).
Proof. unfold queue_of. cbn. destruct (decide (k = key)) as [->|Hne]; [by rewrite lookup_insert_eq|by rewrite lookup_insert_ne]. Qed.
(** Serving an agent makes its weight smaller and leaves the others'; nothing
    but a submission to an agent makes its weight larger. *)
Lemma weight_step p l p' key :
  served p -> pstep p l p' ->
  (l = LServe key -> (weight p' key < weight p key)%nat) /\ (l <> LServe key -> l <> LSubmit key -> weight p' key = weight p key).
Proof.
  intros Hv Hs. destruct Hs as [p ctx bot sid req desc draws now later p' r _ Hsub _|p i k req r now later bg r' _ Hi _|p i k req r states next Hi Hf|p i k req ctx later bg answer Hi _|p o bg _ _].
  - split; [done|]. intros _ Hne. assert (Hk : key <> agentStateKey bot sid (rqAgentID req)) by congruence.
    unfold submitAgentTask in Hsub. destruct (StartAgentTask _ _ _ _ _ _ _ _ _ _ _ _) as [[[bg id] c]|]; [|done]. cbn in Hsub.
    destruct (is_empty _); injection Hsub as <- _; unfold weight; rewrite queue_of_insert; cbn [prActive]; rewrite decide_False by done; [|done].
    rewrite key_weight_app. cbn [key_weight foldr act_key]. rewrite decide_False by congruence. unfold queue_of. lia.
  - unfold weight. cbn [prActive]. change (queue_of (mkProvider (prStates p) bg _) key) with (queue_of p key).
    rewrite (key_weight_split key _ i _ Hi), (key_weight_insert key _ i _ _ Hi). cbn [act_key]. split.
    + intros [= ->]. rewrite !decide_True by done. cbn. lia.
    + intros Hne _. rewrite !decide_False by congruence. done.
  - destruct (sv_named p Hv (Finishing k req r)) as (st & Hst & _); [by eapply list_elem_of_lookup_2|]. cbn in Hst.
    unfold finishAgentRequest in Hf. rewrite Hst in Hf. pose proof (nextRequest_spec (prTasks p) (asQueue st)) as Hq.
    destruct (nextRequest _ _) as [next' rest]. injection Hf as <- <-. destruct Hq as (skipped & Hq & _ & Hn). unfold weight. rewrite queue_of_insert. cbn [prActive].
    rewrite (key_weight_split key _ i _ Hi). cbn [act_key]. split.
    + intros [= ->]. rewrite !decide_True by done. unfold queue_of. rewrite Hst. cbn [from_option]. rewrite Hq, !length_app.
      destruct next' as [nx|]; [rewrite (key_weight_insert key _ i _ _ Hi); cbn [act_key]; rewrite decide_True by done; cbn; lia|subst rest; cbn; lia].
    + intros Hne _. rewrite !decide_False by congruence. fold (queue_of p key).
      destruct next' as [nx|]; [rewrite (key_weight_insert key _ i _ _ Hi); cbn [act_key]; rewrite decide_False by congruence|]; done.
  - unfold weight. cbn [prActive]. change (queue_of (mkProvider (prStates p) bg _) key) with (queue_of p key).
    destruct (promoted_key k req answer) as [Hk _].
    rewrite (key_weight_split key _ i _ Hi), (key_weight_insert key _ i _ _ Hi), Hk. cbn [act_key]. split.
    + intros [= ->]. rewrite !decide_True by done. destruct answer as [[c|]|]; cbn; lia.
    + intros Hne _. rewrite !decide_False by congruence. done.
  - by split.
Qed.

Lemma progress_serve p key : served p -> (0 < weight p key)%nat -> exists p', pstep p (LServe key) p'.
Proof.
  intros Hv Hw. assert (Hex : exists a, a ∈ prActive p /\ act_key a = key).
  { destruct (decide (Exists (fun a => act_key a = key) (prActive p))) as [He|He]; [by apply Exists_exists in He as (a & ? & ?); eauto|]. exfalso.
    assert (Hz : key_weight key (prActive p) = 0%nat).
    { induction (prActive p) as [|a l IH]; [done|]. rewrite Exists_cons in He. cbn. rewrite decide_False by tauto. apply IH. tauto. }
    unfold weight, queue_of in Hw. rewrite Hz in Hw. destruct (prStates p !! key) as [st|] eqn:E; [|cbn in Hw; lia]. cbn in Hw.
    destruct (decide (asRunning st = [])) as [E0|E0]; [rewrite (sv_idle p Hv key st E E0) in Hw; cbn in Hw; lia|].
    destruct (sv_busy p Hv key st E E0) as (a & Ha & Hk). apply He, Exists_exists. eauto. }
  destruct Hex as (a & [i Hi]%list_elem_of_lookup & Hk). destruct a as [k req|k req r|k req]; cbn in Hk; subst k.
  - eexists. eapply (p_complete p i key req (result_for req None) 1 1); [lia|exact Hi|reflexivity].
  - destruct (finishAgentRequest (prStates p) (prTasks p) key r) as [states next] eqn:E. eexists. eapply p_finish; [exact Hi|exact E].
  - destruct (MarkAgentTaskRunning (prTasks p) (mkCtx None false) (rqTaskID req) 0) as [bg answer] eqn:E. eexists. eapply p_promote; [exact Hi|exact E].
Qed.
Inductive pexecution : Provider -> list label -> Provider -> Prop :=
  | pexecution_nil p : pexecution p [] p
  | pexecution_cons p l p1 ls p' : pstep p l p1 -> pexecution p1 ls p' -> pexecution p (l :: ls) p'.
#[export] Instance label_eq_dec : EqDecision label. Proof. solve_decision. Defined.
Definition serves (key : str) (l : label) : bool := bool_decide (l = LServe key).
(** C15: The queue of an agent drains: between submissions to it, its goroutine
    takes at most three steps for each waiting request and three more, in any
    interleaving, and as long as a request waits or runs it has a step to
    take. *)
Theorem agent_queue_drains (p p' : Provider) (ls : list label) (key : str) :
  preachable p -> pexecution p ls p' -> LSubmit key ∉ ls ->
  (countb (serves key) ls + weight p' key <= weight p key)%nat /\
  ((0 < weight p' key)%nat -> exists p'', pstep p' (LServe key) p'') /\
  (weight p' key = 0%nat -> queue_of p' key = [] /\ (forall a, a ∈ prActive p' -> act_key a <> key)).
Proof.
  intros Hp%preachable_served Hx. induction Hx as [p|p l p1 ls p' Hs Hx IH]; intros Hno.
  - split_and!; [cbn; lia|by apply progress_serve|]. unfold weight. intros Hz. split; [apply length_zero_iff_nil; lia|].
    intros a [i Hi]%list_elem_of_lookup E. rewrite (key_weight_split key _ i a Hi), decide_True in Hz by done. destruct a; cbn in Hz; lia.
  - apply not_elem_of_cons in Hno as [Hl Hno]. destruct (IH (served_step _ _ _ Hp Hs) Hno) as (H1 & H2 & H3). split_and!; [|exact H2|exact H3].
    destruct (weight_step _ _ _ key Hp Hs) as [Hw1 Hw2]. rewrite countb_cons. unfold serves at 1. case_bool_decide as E; [specialize (Hw1 E); lia|].
    rewrite <- (Hw2 E); [lia|congruence].
Qed.
(** The coordinator takes the first request of the queue that was not killed
    while it waited, skips only killed ones, and loses none of the rest; without
    such a request the agent is idle. *)
Theorem next_is_first_not_killed (states : gmap str agentState) (bg : Manager) (key : str) (r : agentRunResult) (st : agentState) :
  states !! key = Some st ->
  let '(states', next) := finishAgentRequest states bg key r in
  exists skipped rest st', states' = <[key := st']> states /\ asQueue st' = rest /\ asLast st' = Some r /\
    Forall (fun req => was_killed bg req = true) skipped /\
    match next with
    | Some req => asQueue st = skipped ++ req :: rest /\ was_killed bg req = false /\ asRunning st' = rqTaskID req
    | None => asQueue st = skipped /\ rest = [] /\ asRunning st' = []
    end.
Proof.
  intros Hst. unfold finishAgentRequest. rewrite Hst. pose proof (nextRequest_spec bg (asQueue st)) as Hq.
  destruct (nextRequest bg (asQueue st)) as [next rest]. destruct Hq as (skipped & Hq & Hs & Hn). exists skipped, rest. eexists.
  split; [reflexivity|]. split_and!; [done|done|done|]. destruct next as [req|]; [done|]. subst rest. by rewrite !app_nil_r in Hq.
Qed.

(** ** Identifiers of new agents *)
Lemma agent_n_inj i j : agent_n i = agent_n j -> i = j.
Proof.
  unfold agent_n, itoa, lit. intros H. apply app_inv_head in H.
  apply (f_equal string_of_list_ascii) in H. rewrite !string_of_list_ascii_of_string in H. by apply (inj _) in H.
Qed.
Lemma freeAgentID_spec fuel used i :
  match freeAgentID fuel used i with
  | Some id => exists j, i <= j /\ id = agent_n j /\ id ∉ used /\ forall k, i <= k < j -> agent_n k ∈ used
  | None => forall k, i <= k < i + Z.of_nat fuel -> agent_n k ∈ used
  end.
Proof.
  revert i. induction fuel as [|fuel IH]; intros i; cbn [freeAgentID]; [intros k Hk; lia|]. case_bool_decide as Hin.
  - specialize (IH (i + 1)). destruct (freeAgentID fuel used (i + 1)) as [id|].
    + destruct IH as (j & H1 & H2 & H3 & H4). exists j. split_and!; [lia|done|done|]. intros k Hk. destruct (decide (k = i)) as [->|]; [done|]. apply H4. lia.
    + intros k Hk. destruct (decide (k = i)) as [->|]; [done|]. apply IH. lia.
  - exists i. split_and!; [lia|done|done|]. intros k Hk. lia.
Qed.
(** The search for the identifier of a new agent ends, and finds the first
    of agent_1, agent_2, ... that no agent of the session has. *)
Theorem new_agent_id_is_first_free {U : Unicode} (agents : list str) (raw : str) :
  blank raw = true ->
  exists j, 1 <= j /\ resolveNewAgentID agents raw = Some (Ok (agent_n j)) /\ agent_n j ∉ agents /\ forall k, 1 <= k < j -> agent_n k ∈ agents.
Proof.
  intros Hb. unfold resolveNewAgentID. rewrite Hb. cbn [negb]. pose proof (freeAgentID_spec (S (length agents)) agents 1) as Hf.
  destruct (freeAgentID _ _ _) as [id|]; [destruct Hf as (j & H1 & -> & H3 & H4); by exists j|]. exfalso.
  assert (Hsub : (agent_n ∘ Z.of_nat <$> seq 1 (S (length agents))) ⊆+ agents).
  { apply NoDup_submseteq.
    - apply NoDup_fmap_2_strong; [|apply NoDup_seq]. intros x y _ _ E. apply agent_n_inj in E. lia.
    - intros x Hx. apply list_elem_of_fmap in Hx as (n & -> & Hn). apply elem_of_seq in Hn. apply Hf. lia. }
  apply submseteq_length in Hsub. rewrite length_fmap, length_seq in Hsub. lia.
Qed.

(** ** Examples *)
Definition sub_config : SubagentConfig := mkSubConfig (lit "m") (lit "p") false.
Definition sub_request (message : str) : agentRequest := mkRequest [] (lit "agent_1") (lit "child") message sub_config.
Definition submit_to (p : Provider) (message : str) (draw : str) (now : Z) : Provider * Submitted :=
  default (p, SubmittedStarted []) (submitAgentTask p ctx0 (lit "bot") (lit "s") (sub_request message) [] [draw] now now).
Definition prov1 : Provider := Eval vm_compute in (submit_to new_provider (lit "one") ["001"%char] 5).1.
Definition prov2 : Provider := Eval vm_compute in (submit_to prov1 (lit "two") ["002"%char] 6).1.
Definition sub_key : str := Eval vm_compute in agentStateKey (lit "bot") (lit "s") (lit "agent_1").
Definition sub_id1 : str := Eval vm_compute in taskID_of (lit "bot") ["001"%char].
Definition sub_id2 : str := Eval vm_compute in taskID_of (lit "bot") ["002"%char].
Definition sub_task (id : str) : Task := default bg_task1 (Get (prTasks prov2) id).
Definition sub_task1 : Task := Eval vm_compute in sub_task sub_id1.
Definition sub_task2 : Task := Eval vm_compute in sub_task sub_id2.
Lemma nothing_held_first ctx bot sid req desc draws now later p' r id :
  submitAgentTask new_provider ctx bot sid req desc draws now later = Some (p', r) -> ~ held p' id.
Proof.
  unfold submitAgentTask, ensure. cbn [prStates new_provider]. rewrite lookup_empty. cbn [asRunning idle_state is_empty negb].
  destruct (StartAgentTask _ _ _ _ _ _ _ _ _ _ _ _) as [[[bg id'] c]|]; [|done]. cbn. intros [= <- _].
  intros [(k & st & q & H & Hq & _)|(k & q & H & _)]; cbn in H.
  - apply lookup_insert_Some in H as [[_ <-]|[_ H]]; [by apply not_elem_of_nil in Hq|by rewrite lookup_empty in H].
  - by apply list_elem_of_singleton in H.
Qed.
Lemma submitted1 : submitAgentTask new_provider ctx0 (lit "bot") (lit "s") (sub_request (lit "one")) [] [["001"%char]] 5 5 = Some (prov1, SubmittedStarted sub_id1).
Proof. by vm_compute. Qed.
Lemma submitted2 : submitAgentTask prov1 ctx0 (lit "bot") (lit "s") (sub_request (lit "two")) [] [["002"%char]] 6 6 = Some (prov2, SubmittedQueued sub_id2 1).
Proof. by vm_compute. Qed.
Lemma preachable_prov2 : preachable prov2.
Proof.
  eapply preachable_step; [eapply preachable_step; [apply preachable_new|]|].
  - eapply p_submit; [|exact submitted1|]; [lia|].
    intros [(k & st & q & H & _)|(k & q & H & _)]; [cbn in H; by rewrite lookup_empty in H|by apply not_elem_of_nil in H].
  - eapply p_submit; [|exact submitted2|]; [lia|]. eapply nothing_held_first, submitted1.
Qed.
Lemma one_run_per_agent_witness :
  tkStatus sub_task1 = TaskRunning /\ (snapshot prov2 (lit "bot") (lit "s") (lit "agent_1")).1.1 = sub_id1.
Proof.
  split; [by vm_compute|].
  apply (one_run_per_agent prov2 (lit "bot") (lit "s") (lit "agent_1") sub_id1 sub_id1 sub_task1 sub_task1 preachable_prov2); by vm_compute.
Defined.
Lemma no_request_forgotten_witness :
  exists a, a ∈ prActive prov2 /\ act_key a = agent_key sub_task2 /\
    (a = Promoting (agent_key sub_task2) (act_req a) /\ rqTaskID (act_req a) = sub_id2 \/
     exists st, prStates prov2 !! agent_key sub_task2 = Some st /\ asRunning st = rqTaskID (act_req a) /\ sub_id2 ∈ rqTaskID <$> asQueue st).
Proof. apply (no_request_forgotten prov2 sub_id2 sub_task2 preachable_prov2); by vm_compute. Defined.
Lemma agent_queue_drains_witness : weight prov2 sub_key = 5%nat /\ exists p'', pstep prov2 (LServe sub_key) p''.
Proof.
  split; [by vm_compute|].
  apply (agent_queue_drains prov2 prov2 [] sub_key preachable_prov2); [constructor|apply not_elem_of_nil|by vm_compute; lia].
Defined.
Lemma next_is_first_not_killed_witness :
  exists st, prStates prov2 !! sub_key = Some st /\
  let '(states', next) := finishAgentRequest (prStates prov2) (prTasks prov2) sub_key (result_for (sub_request []) None) in
  exists st', states' = <[sub_key := st']> (prStates prov2) /\ from_option rqTaskID [] next = asRunning st'.
Proof.
  destruct (prStates prov2 !! sub_key) as [st|] eqn:E; [|by vm_compute in E]. exists st. split; [done|].
  pose proof (next_is_first_not_killed (prStates prov2) (prTasks prov2) sub_key (result_for (sub_request []) None) st E) as H.
  destruct (finishAgentRequest _ _ _ _) as [states' next]. destruct H as (skipped & rest & st' & H1 & _ & _ & _ & H2). exists st'. split; [done|].
  by destruct next as [req|]; [destruct H2 as (_ & _ & ->)|destruct H2 as (_ & _ & ->)].
Defined.
Lemma new_agent_id_is_first_free_witness :
  exists j, 1 <= j /\ @resolveNewAgentID ascii_unicode [lit "agent_1"; lit "x"] (lit " ") = Some (Ok (agent_n j)).
Proof.
  destruct (@new_agent_id_is_first_free ascii_unicode [lit "agent_1"; lit "x"] (lit " ")) as (j & H1 & H2 & _); [by vm_compute|]. by exists j.
Defined.
