(* ===== verification/SpawnAdapter.v ===== *)
(** * The native runtime of a spawned agent

    Models [GenerateWithWatchdog] of [internal/agent/runtime/native/spawn_adapter.go]
    with [observeSpawnAttemptFailure], and the observer it publishes to
    ([SubagentRunObserver] of [internal/agent/application/subagent_step_commit.go]):
    how the stream of one attempt becomes a result or an error, which callbacks
    of the provider it calls, in which order, and which events the session sees.
    Then the attempts of a run ([Subagent.runAttempts]) over this runtime.

    The provider sets every callback of the configuration, so the arms for a
    callback that is missing are left out.  The stream, the answers of the
    session runtime and the naming of a failure are parameters; messages, usage and the context lifecycle, which are copied,
    are left out. *)

From S2P Require Import Prelude GoStr ToolOutput LiveQueue RunState Background Subagent.
#[local] Open Scope Z_scope.

(** ** Events and observations *)
Inductive StreamEvent : Type :=
  | EventError (Cause : option RunErr)
  | EventAgentAbort
  | EventAgentEnd
  | EventTextDelta (Delta : str)
  | EventRetry (Attempt MaxAttempt : Z)
  | EventOther.
Record SpawnRunObservation : Type := mkObservation { TerminalResolved : bool; TerminalOutcome : SpawnAttemptDisposition }.
Definition noObservation : SpawnRunObservation := mkObservation false SpawnAttemptFailure.
(** What the session runtime answers to an event: the status of the run, or an
    error and whether it says that the run is owned elsewhere. *)
Definition Runtime : Type := list StreamEvent -> StreamEvent -> result bool str.
(** The variables of an observer: the events that reached the session, oldest
    first, and [lost]. *)
Record ObserverState : Type := mkObserver { obPublished : list StreamEvent; obLost : bool }.
Definition freshObserver : ObserverState := mkObserver [] false.
Definition isTerminal (event : StreamEvent) : bool := match event with EventAgentEnd | EventAgentAbort => true | _ => false end.
Definition SubagentRunObserver (HandleAgentEventWithStatus : Runtime) (o : ObserverState) (event : StreamEvent) : ObserverState * SpawnRunObservation :=
  if obLost o then (o, noObservation)
  else match HandleAgentEventWithStatus (obPublished o) event with
  | Err lost => (mkObserver (obPublished o) lost, noObservation)
  | Ok status =>
      let o := mkObserver (obPublished o ++ [event]) false in
      (o, if negb (isTerminal event) then noObservation
          else if str_eqb status RunStatusCompleted then mkObservation true SpawnAttemptCompleted
          else if str_eqb status RunStatusAborted then mkObservation true SpawnAttemptAbort
          else if str_eqb status RunStatusErrored then mkObservation true SpawnAttemptFailure
          else noObservation)
  end.
(** [observe] is [None] for a run that nothing observes. *)
Definition observeSpawnEvent (observe : option Runtime) (o : ObserverState) (event : StreamEvent) : ObserverState * SpawnRunObservation :=
  match observe with Some handle => SubagentRunObserver handle o event | None => (o, noObservation) end.
Definition observeSpawnEvents (observe : option Runtime) (o : ObserverState) (events : list StreamEvent) : ObserverState :=
  fold_left (fun o event => (observeSpawnEvent observe o event).1) events o.

(** ** The stream *)
(** The variables of the loop over the stream. *)
Record StreamState : Type := mkStream {
  ssObserver : ObserverState; ssText : str; ssLastFailure : option StreamEvent; ssCompleted : bool;
  ssAbortEvent : option StreamEvent; ssEndEvent : option StreamEvent; ssPendingErrors : list StreamEvent }.
Definition freshStream : StreamState := mkStream freshObserver [] None false None None [].
Definition streamStep (observe : option Runtime) (s : StreamState) (evt : StreamEvent) : StreamState :=
  match evt with
  | EventError _ =>
      mkStream (ssObserver s) (ssText s) (Some evt) (ssCompleted s) (ssAbortEvent s) (ssEndEvent s) (ssPendingErrors s ++ [evt])
  | EventAgentAbort => mkStream (ssObserver s) (ssText s) (ssLastFailure s) false (Some evt) (ssEndEvent s) (ssPendingErrors s)
  | EventAgentEnd => mkStream (ssObserver s) (ssText s) (ssLastFailure s) true (ssAbortEvent s) (Some evt) []
  | _ =>
      mkStream (observeSpawnEvent observe (ssObserver s) evt).1 (match evt with EventTextDelta delta => ssText s ++ delta | _ => ssText s end)
        (ssLastFailure s) (ssCompleted s) (ssAbortEvent s) (ssEndEvent s) (ssPendingErrors s)
  end.
Definition streamRun (observe : option Runtime) (events : list StreamEvent) : StreamState := fold_left (streamStep observe) events freshStream.

(** ** One attempt *)
Section adapter.
(** [s.failure], when it is set. *)
Variable failure : option (StreamEvent -> option RunErr).
Definition attemptFailure (event : StreamEvent) : option RunErr :=
  match (match failure with Some f => f event | None => None end) with
  | Some err => Some err
  | None => match event with EventError cause => cause | _ => None end
  end.
(** [errSpawnAgentAborted] and [context.Canceled], as the provider reads them. *)
Definition errSpawnAgentAborted : RunErr := run_failed.
Definition contextCanceled : RunErr := run_failed.
(** What happens around one attempt: its stream, who observes it, the cause with
    which its own context had ended when the stream ended and when it returned,
    what the provider's callback finds, whether the steps are saved as they are
    made, and the error of saving the result before it is published. *)
Record NativeRun : Type := mkNative {
  nrStream : list StreamEvent; nrObserve : option Runtime; nrCause : option RunErr; nrCauseAfter : option RunErr; nrNow : Moment;
  nrPersisted : bool; nrBeforeTerminal : option RunErr }.
(** [runErr]: the error of a stream that did not end cleanly. *)
Definition streamError (r : NativeRun) (s : StreamState) : option RunErr :=
  if ssCompleted s then None
  else match nrCause r with
       | Some cause => Some cause
       | None => match ssLastFailure s ≫= attemptFailure with Some err => Some err | None => Some errSpawnAgentAborted end
       end.
Definition reconcile (disposition : SpawnAttemptDisposition) (observation : SpawnRunObservation) : SpawnAttemptDisposition :=
  if TerminalResolved observation then TerminalOutcome observation else disposition.
(** The disposition is the provider's, which has just been asked. *)
Definition observeSpawnAttemptFailure (observe : option Runtime) (o : ObserverState) (cfgAttempt cfgMaxAttempts : Z) (abortEvent : option StreamEvent)
    (pendingErrors : list StreamEvent) (disposition : SpawnAttemptDisposition) : ObserverState * SpawnAttemptDisposition :=
  let publish_abort o :=
    match abortEvent with
    | Some abort => let '(o, observation) := observeSpawnEvent observe o abort in (o, reconcile disposition observation)
    | None => (o, disposition)
    end in
  match observe with
  | None => (o, disposition)
  | Some _ =>
      match disposition with
      | SpawnAttemptRetry =>
          let attempt := if cfgAttempt <=? 0 then 1 else cfgAttempt in
          let maxAttempts := if cfgMaxAttempts <? attempt then attempt else cfgMaxAttempts in
          ((observeSpawnEvent observe o (EventRetry attempt maxAttempts)).1, disposition)
      | SpawnAttemptAbort => publish_abort o
      | _ =>
          let o := observeSpawnEvents observe o pendingErrors in
          publish_abort (if bool_decide (pendingErrors = []) then (observeSpawnEvent observe o (EventError (Some errSpawnAgentAborted))).1 else o)
      end
  end.
(** What an attempt leaves: what the session saw, the callbacks it called, and
    its answer. *)
Definition NativeAnswer : Type := ObserverState * list Callback * result RunErr SpawnResult.
Definition finishFailure (attempt : nat) (r : NativeRun) (s : StreamState) (runErr : RunErr) : NativeAnswer :=
  let '(o, outcome) := observeSpawnAttemptFailure (nrObserve r) (ssObserver s) (Z.of_nat attempt + 1) (Z.of_nat subagentMaxRetries + 1)
    (ssAbortEvent s) (ssPendingErrors s) (ResolveAttempt (nrNow r) runErr attempt) in
  (o, [CallResolveAttempt (nrNow r) runErr; CallReconcileTerminal outcome], Err runErr).
Definition finishCompletion (r : NativeRun) (s : StreamState) : NativeAnswer :=
  let disposition := ResolveCompletion (nrNow r) in
  let completed := bool_decide (disposition = SpawnAttemptCompleted) in
  let saves := completed && negb (nrPersisted r) in
  match (if saves then nrBeforeTerminal r else None) with
  | Some persistErr => (ssObserver s, [CallResolveCompletion (nrNow r); CallReconcileTerminal SpawnAttemptFailure], Err persistErr)
  | None =>
      let o := if negb completed && negb (bool_decide (disposition = SpawnAttemptAbort))
               then (observeSpawnEvent (nrObserve r) (ssObserver s) (EventError (Some errSpawnAgentAborted))).1 else ssObserver s in
      let '(o, observation) := observeSpawnEvent (nrObserve r) o (if completed then EventAgentEnd else EventAgentAbort) in
      let disposition := reconcile disposition observation in
      (o, CallResolveCompletion (nrNow r) :: (if TerminalResolved observation then [CallReconcileTerminal disposition] else []),
       match disposition with
       | SpawnAttemptCompleted => Ok (mkSpawnResult (ssText s) (nrPersisted r || saves))
       | SpawnAttemptAbort => Err (default contextCanceled (nrCauseAfter r))
       | _ => Err (default errSpawnAgentAborted (nrCauseAfter r))
       end)
  end.
Definition GenerateWithWatchdog (attempt : nat) (r : NativeRun) : NativeAnswer :=
  let s := streamRun (nrObserve r) (nrStream r) in
  match streamError r s with
  | Some runErr => finishFailure attempt r s runErr
  | None => finishCompletion r s
  end.

(** ** The attempts of a run *)
(** The agent that runs an attempt: the native one, or one that calls none of
    the callbacks. *)
Inductive SpawnAgent : Type :=
  | NativeAgent (r : NativeRun)
  | PlainAgent (generated : result RunErr SpawnResult).
(** An attempt of such an agent, with what holds after it and the error of the
    provider's own write. *)
Record Trial : Type := mkTrial { trAgent : SpawnAgent; trNow : Moment; trPersist : option RunErr }.
Definition attempt_of (attempt : nat) (t : Trial) : Attempt :=
  match trAgent t with
  | NativeAgent r => let '(_, calls, generated) := GenerateWithWatchdog attempt r in mkAttempt calls generated (trNow t) (trPersist t)
  | PlainAgent generated => mkAttempt [] generated (trNow t) (trPersist t)
  end.
(** [world] gives the delay before and the trial of each round. *)
Definition runTrials (res : agentRunResult) (world : nat -> CtxState * Trial) : agentRunResult * nat :=
  runAttempts res (fun attempt => ((world attempt).1, attempt_of attempt (world attempt).2)).

(** ** What is retried *)
Definition quiet (now : Moment) : Prop := moStopRequested now = false /\ moCtx now = CtxLive /\ moStepPersisted now = false.
(** Events that end a run for those who watch it. *)
Definition closes_run (event : StreamEvent) : Prop := match event with EventError _ | EventAgentAbort | EventAgentEnd => True | _ => False end.
(** Why an attempt is followed by another: its stream did not end cleanly, what
    ended it is the watchdog, nothing had been saved, nobody had asked to stop,
    the run was live, and the session has seen no failure and no end. *)
Definition retried_in_silence (attempt : nat) (t : Trial) : Prop :=
  match trAgent t with
  | NativeAgent r =>
      exists err, streamError r (streamRun (nrObserve r) (nrStream r)) = Some err /\ erWatchdog err = true /\ quiet (nrNow r) /\
        Forall (fun event => ~ closes_run event) (obPublished (GenerateWithWatchdog attempt r).1.1)
  | PlainAgent generated => exists err, generated = Err err /\ erWatchdog err = true /\ quiet (trNow t)
  end.
Lemma retry_reason now err n : ResolveAttempt now err n = SpawnAttemptRetry -> quiet now /\ erWatchdog err = true.
Proof.
  unfold ResolveAttempt, quiet. destruct (moStopRequested now); [done|]. unfold subagentAttemptDisposition. destruct (moCtx now); [|done..].
  destruct (moStepPersisted now); [done|]. destruct (n <? subagentMaxRetries)%nat; [|done]. by destruct (erWatchdog err).
Qed.
Lemma completion_no_retry now : ResolveCompletion now <> SpawnAttemptRetry.
Proof. unfold ResolveCompletion. by destruct (moCtx now), (moStopRequested now). Qed.
(** The session runtime never asks for a retry. *)
Lemma observed_no_retry observe o event : TerminalResolved (observeSpawnEvent observe o event).2 = true ->
  TerminalOutcome (observeSpawnEvent observe o event).2 <> SpawnAttemptRetry.
Proof.
  unfold observeSpawnEvent. destruct observe as [handle|]; [|done]. unfold SubagentRunObserver. destruct (obLost o); [done|].
  destruct (handle _ _) as [status|]; [|done]. cbn. destruct (isTerminal event); [|done]. cbn. by repeat case_match.
Qed.
Lemma reconcile_no_retry observe o event disposition : disposition <> SpawnAttemptRetry ->
  reconcile disposition (observeSpawnEvent observe o event).2 <> SpawnAttemptRetry.
Proof.
  intros Hd. unfold reconcile. pose proof (observed_no_retry observe o event). destruct (TerminalResolved _); [by auto|done].
Qed.
Lemma published_open observe o event : ~ closes_run event -> Forall (fun event => ~ closes_run event) (obPublished o) ->
  Forall (fun event => ~ closes_run event) (obPublished (observeSpawnEvent observe o event).1).
Proof.
  intros He Ho. unfold observeSpawnEvent. destruct observe as [handle|]; [|done]. unfold SubagentRunObserver. destruct (obLost o); [done|].
  destruct (handle _ _); [|done]. cbn. apply Forall_app. by repeat constructor.
Qed.
Lemma stream_open observe events s : Forall (fun event => ~ closes_run event) (obPublished (ssObserver s)) ->
  Forall (fun event => ~ closes_run event) (obPublished (ssObserver (fold_left (streamStep observe) events s))).
Proof.
  revert s. induction events as [|evt events IH]; intros s Hs; [done|]. cbn [fold_left]. apply IH.
  destruct evt; cbn -[observeSpawnEvent]; try exact Hs; (apply published_open; [by intros []|exact Hs]).
Qed.
Lemma abort_no_retry observe abort o d : d <> SpawnAttemptRetry ->
  (match abort with
   | Some event => let '(o, observation) := observeSpawnEvent observe o event in (o, reconcile d observation)
   | None => (o, d)
   end).2 <> SpawnAttemptRetry.
Proof.
  intros Hd. destruct abort as [event|]; [|done]. pose proof (reconcile_no_retry observe o event d Hd) as H.
  destruct (observeSpawnEvent observe o event). exact H.
Qed.
(** An attempt that failed is retried only when the provider says so, and then
    the session has seen nothing that closes the run. *)
Lemma failure_outcome observe o n max abort pending disposition :
  let r := observeSpawnAttemptFailure observe o n max abort pending disposition in
  r.2 = SpawnAttemptRetry -> disposition = SpawnAttemptRetry /\
    (Forall (fun event => ~ closes_run event) (obPublished o) -> Forall (fun event => ~ closes_run event) (obPublished r.1)).
Proof.
  cbv zeta. unfold observeSpawnAttemptFailure. destruct observe as [handle|]; [|cbn; by intros ->]. cbv beta zeta.
  destruct disposition; try (intros H; exfalso; revert H; by apply abort_no_retry). intros _. split; [done|]. intros Ho. apply published_open; [by intros []|exact Ho].
Qed.
Lemma completion_resolved attempt r s : let '(_, calls, _) := finishCompletion r s in
  let v := fold_left (callback attempt) calls freshVars in avResolved v = true /\ avDisposition v <> SpawnAttemptRetry.
Proof.
  unfold finishCompletion. cbv zeta. destruct (if _ && _ then nrBeforeTerminal r else None); [done|].
  set (o := if negb _ && negb _ then _ else _). set (event := if bool_decide _ then EventAgentEnd else EventAgentAbort).
  pose proof (reconcile_no_retry (nrObserve r) o event _ (completion_no_retry (nrNow r))) as H. pose proof (completion_no_retry (nrNow r)).
  destruct (observeSpawnEvent (nrObserve r) o event) as [o' observation]. cbn [snd] in H. by destruct (TerminalResolved observation).
Qed.
Lemma attemptStep_again res n t err : attemptStep res n (attempt_of n t) = inr err -> retried_in_silence n t.
Proof.
  unfold attemptStep, attempt_of, retried_in_silence. destruct (trAgent t) as [r|generated].
  - unfold GenerateWithWatchdog. set (s := streamRun (nrObserve r) (nrStream r)). destruct (streamError r s) as [runErr|].
    + unfold finishFailure. pose proof (failure_outcome (nrObserve r) (ssObserver s) (Z.of_nat n + 1) (Z.of_nat subagentMaxRetries + 1)
        (ssAbortEvent s) (ssPendingErrors s) (ResolveAttempt (nrNow r) runErr n)) as Hf.
      destruct (observeSpawnAttemptFailure _ _ _ _ _ _ _) as [o outcome]. cbn [fst snd] in *. unfold varsAfter. cbn -[subagentMaxRetries].
      intros H. destruct (Hf ltac:(by destruct outcome)) as [[Hq Hw]%retry_reason Ho]. exists runErr. split_and!; [done..|].
      apply Ho, stream_open. constructor.
    + pose proof (completion_resolved n r s) as Hc. destruct (finishCompletion r s) as [[o calls] generated]. cbv zeta in Hc. unfold varsAfter. cbn [atCalls atGenerated].
      destruct Hc as [-> Hd]. intros H. exfalso. destruct generated; [by repeat case_match|]. by destruct (avDisposition _).
  - unfold varsAfter. cbn. destruct generated as [g|e]; [by repeat case_match|]. intros H. exists e.
    assert (Hd : ResolveAttempt (trNow t) e n = SpawnAttemptRetry) by by destruct (ResolveAttempt _ _ _).
    apply retry_reason in Hd as [? ?]. by split_and!.
Qed.
Lemma trials_spec left_ res n lastErr world r total :
  attempts left_ res n lastErr (fun attempt => ((world attempt).1, attempt_of attempt (world attempt).2)) = (r, total) ->
  (n <= total <= n + left_)%nat /\ forall k, (n <= k)%nat -> (S k < total)%nat -> retried_in_silence k (world k).2.
Proof.
  revert n lastErr. induction left_ as [|left_ IH]; intros n lastErr; cbn [attempts]; [intros [= _ <-]; split; [lia|intros; lia]|].
  destruct (if bool_decide (n = 0%nat) then CtxLive else (world n).1).
  - destruct (attemptStep res n _) as [res'|err] eqn:Es; [intros [= _ <-]; split; [lia|intros; lia]|].
    intros H. apply IH in H as [H1 H2]. split; [lia|]. intros k Hk Hlt. destruct (decide (k = n)) as [->|Hne]; [|apply H2; lia].
    by eapply attemptStep_again.
  - intros [= _ <-]. split; [lia|intros; lia].
  - intros [= _ <-]. split; [lia|intros; lia].
Qed.
(** C16: A subagent's run makes at most four attempts, and one is followed by
    another only when the watchdog ended it in silence: with the native runtime,
    whatever its stream, its observer and the session runtime answer, nothing of
    the attempt had been saved, nobody had asked to stop, the run was live, and
    the session has seen no failure and no end of the run. An agent that calls
    none of the callbacks is judged by what holds when it returns. *)
Theorem only_silence_is_retried (res : agentRunResult) (world : nat -> CtxState * Trial) :
  ((runTrials res world).2 <= S subagentMaxRetries)%nat /\
  forall k, (S k < (runTrials res world).2)%nat -> retried_in_silence k (world k).2.
Proof.
  destruct (runTrials res world) as [r total] eqn:E. unfold runTrials, runAttempts in E. apply trials_spec in E as [H1 H2]. cbn [snd].
  split; [lia|]. intros k Hk. apply H2; lia.
Qed.
End adapter.

(** ** A run, evaluated *)
Section examples.
Definition live_now : Moment := mkMoment false CtxLive false.
Definition saved_now : Moment := mkMoment false CtxLive true.
Definition silence : RunErr := mkRunErr (lit "agent_response_timeout") (lit "The agent stopped responding.") true false false.
Definition running : Runtime := fun seen event => match event with
  | EventAgentEnd => Ok RunStatusCompleted
  | EventAgentAbort => Ok (if existsb (fun e => match e with EventError _ => true | _ => false end) seen then RunStatusErrored else RunStatusAborted)
  | _ => Ok RunStatusRunning end.
(** Silent from the start, then an answer. *)
Definition silent_run (now : Moment) : NativeRun :=
  mkNative [EventOther; EventAgentAbort] (Some running) (Some silence) (Some silence) now false None.
Definition answering_run : NativeRun := mkNative [EventTextDelta (lit "all "); EventTextDelta (lit "done"); EventAgentEnd] (Some running) None None live_now false None.
Definition trials (now : Moment) (n : nat) : CtxState * Trial :=
  (CtxLive, mkTrial (NativeAgent (if (n =? 0)%nat then silent_run now else answering_run)) now None).
Definition empty_result : agentRunResult := mkRunResult [] [] [] [] [] false None [] [] [] [] None.
Example silence_then_answer : let '(r, total) := runTrials None empty_result (trials live_now) in (rrText r, rrOutcome r, total) =
  (lit "all done", Some SpawnAttemptCompleted, 2%nat).
Proof. vm_compute. reflexivity. Qed.
(** The session sees the retry, and no failure. *)
Example silence_as_seen : obPublished (GenerateWithWatchdog None 0 (silent_run live_now)).1.1 = [EventOther; EventRetry 1 4].
Proof. vm_compute. reflexivity. Qed.
(** With a step saved the same silence ends the run. *)
Example silence_after_a_step : let '(r, total) := runTrials None empty_result (trials saved_now) in (rrOutcome r, rrCode r, total) =
  (Some SpawnAttemptFailure, lit "agent_response_timeout", 1%nat).
Proof. vm_compute. reflexivity. Qed.
End examples.
