(* ===== verification/CommandSyntax.v ===== *)
(** * The syntax of slash commands

    [internal/commandsyntax]: the tokenizer and flag sweep of [parser.go], and
    the addressing-aware reading of one channel message of [invocation.go].
    Positions are byte offsets into the text, as in the code. *)
From S2P Require Import Prelude GoStr GoTrim.
#[local] Open Scope Z_scope.

(** ** parser.go *)
Definition squote : ascii := "'"%char.
Definition slash : ascii := "/"%char.
Definition at_sign : ascii := "@"%char.

Record ParsedCommand : Type := mkParsed {
  pcResource : str; pcAction : str; pcArgs : list str;
  pcPage : Z; pcProv : Z; pcSelectID : str; pcRange : str;
}.
Record parsedFlags : Type := mkFlags { pfPage : Z; pfProv : Z; pfRangeKey : str; pfSelectID : str }.

(** The errors of [Parse] and [ParseInvocation]. *)
Inductive SyntaxError : Type :=
  | ErrMustStartWithSlash | ErrEmptyCommand | ErrNotCommand | ErrCommandForOtherBot.
#[export] Instance SyntaxError_eq : EqDecision SyntaxError.
Proof. solve_decision. Defined.

(** [Tokenize]: [inQuote] and [quoteChar] are one [option]. *)
Fixpoint tokenizeFrom (tokens : list str) (current : str) (quote : option ascii) (input : str) : list str :=
  match input with
  | [] => if is_empty current then tokens else tokens ++ [current]
  | ch :: input =>
      match quote with
      | Some quoteChar =>
          if Ascii.eqb ch quoteChar then tokenizeFrom tokens current None input
          else tokenizeFrom tokens (current ++ [ch]) quote input
      | None =>
          if Ascii.eqb ch dquote || Ascii.eqb ch squote then tokenizeFrom tokens current (Some ch) input
          else if Ascii.eqb ch " "%char || Ascii.eqb ch tab then
            if is_empty current then tokenizeFrom tokens current None input
            else tokenizeFrom (tokens ++ [current]) [] None input
          else tokenizeFrom tokens (current ++ [ch]) None input
      end
  end.
Definition Tokenize (input : str) : list str := tokenizeFrom [] [] None input.

Definition noFlags : parsedFlags := mkFlags 0 (-1) [] [].
Definition intFlag (t : str) : bool := str_eqb t (lit "--page") || str_eqb t (lit "--prov").
Definition setIntFlag (t v : str) (flags : parsedFlags) : parsedFlags :=
  match Atoi v with
  | Some n =>
      if n <? 0 then flags
      else if str_eqb t (lit "--page") then mkFlags n (pfProv flags) (pfRangeKey flags) (pfSelectID flags)
      else mkFlags (pfPage flags) n (pfRangeKey flags) (pfSelectID flags)
  | None => flags
  end.
Fixpoint extractFrom (out : list str) (flags : parsedFlags) (tokens : list str) : list str * parsedFlags :=
  match tokens with
  | [] => (out, flags)
  | t :: rest =>
      match rest with
      | v :: rest' =>
          if str_eqb t (lit "--range") then
            extractFrom out (mkFlags (pfPage flags) (pfProv flags) v (pfSelectID flags)) rest'
          else if str_eqb t (lit "--id") then
            extractFrom out (mkFlags (pfPage flags) (pfProv flags) (pfRangeKey flags) v) rest'
          else if intFlag t then
            if has_prefix v (lit "--") then extractFrom out flags rest
            else extractFrom out (setIntFlag t v flags) rest'
          else extractFrom (out ++ [t]) flags rest
      | [] => if intFlag t then (out, flags) else (out ++ [t], flags)
      end
  end.
Definition extractFlags (tokens : list str) : list str * parsedFlags := extractFrom [] noFlags tokens.

Definition shouldExtractGlobalFlags (resource action : str) : bool :=
  negb (str_eqb resource (lit "schedule") && (str_eqb action (lit "create") || str_eqb action (lit "update"))).

(** [ExtractCommandText] *)
Definition ExtractCommandText (text : str) : str :=
  let trimmed := trim_space text in
  if has_prefix trimmed (lit "/") then trimmed
  else match index trimmed (lit " /") with
       | Some idx => trim_space (drop (Z.to_nat (idx + 1)) trimmed)
       | None => []
       end.

Section commandsyntax.
Context {U : Unicode}.

(** The resource without the [@botname] suffix, and the action. *)
Definition stripBotName (resource : str) : str :=
  match index_byte resource at_sign with
  | Some idx => if 0 <? idx then take (Z.to_nat idx) resource else resource
  | None => resource
  end.
Definition resourceOf (tokens : list str) : str := stripBotName (to_lower (default [] (head tokens))).
Definition actionOf (tokens : list str) : str := match tokens with _ :: a :: _ => to_lower a | _ => [] end.

Definition Parse (text : str) : result SyntaxError ParsedCommand :=
  let text := trim_space text in
  if negb (has_prefix text (lit "/")) then Err ErrMustStartWithSlash
  else
    let tokens := Tokenize (drop 1 text) in
    if bool_decide (tokens = []) then Err ErrEmptyCommand
    else
      let '(tokens, flags) :=
        if shouldExtractGlobalFlags (resourceOf tokens) (actionOf tokens) then extractFlags tokens else (tokens, noFlags) in
      if bool_decide (tokens = []) then Err ErrEmptyCommand
      else Ok (mkParsed (resourceOf tokens) (actionOf tokens) (drop 2 tokens)
                 (pfPage flags) (pfProv flags) (pfSelectID flags) (pfRangeKey flags)).

(** ** invocation.go *)
Record invocationToken : Type := mkToken { tkStart : Z; tkEnd : Z; tkValue : str; tkQuoted : bool }.
Record textRange : Type := mkRange { trStart : Z; trEnd : Z }.
Record InvocationInput : Type := mkInput { iiText : str; iiBotAliases : list str; iiDirected : bool }.
Record Invocation : Type := mkInvocation {
  ivRawText : str; ivCommandText : str; ivSelector : str; ivRest : str; ivParsed : ParsedCommand;
  ivDirected : bool; ivAddressed : bool; ivAddressing : list str;
}.

(** [text[a:b]] *)
Definition sub (text : str) (a b : Z) : str := take (Z.to_nat (b - a)) (drop (Z.to_nat a) text).

(** [lexInvocationTokens]: [start] is -1 and [quote] is 0 between tokens. *)
Record lexer : Type := mkLexer { lxTokens : list invocationToken; lxStart : Z; lxQuoted : bool; lxQuote : Z; lxValue : str }.
Definition lexFlush (end_ : Z) (s : lexer) : lexer :=
  if lxStart s <? 0 then s
  else mkLexer (lxTokens s ++ [mkToken (lxStart s) end_ (lxValue s) (lxQuoted s)]) (-1) false (lxQuote s) [].
Definition lexWrite (r : Z) (s : lexer) : lexer :=
  mkLexer (lxTokens s) (lxStart s) (lxQuoted s) (lxQuote s) (lxValue s ++ encode_rune r).
Definition quoteRune (r : Z) : bool := (r =? 39) || (r =? 34).
Definition lexStep (pos r : Z) (s : lexer) : lexer :=
  if negb (lxQuote s =? 0) then
    if r =? lxQuote s then mkLexer (lxTokens s) (lxStart s) (lxQuoted s) 0 (lxValue s) else lexWrite r s
  else if is_space r then lexFlush pos s
  else
    let start := if lxStart s <? 0 then pos else lxStart s in
    if quoteRune r then mkLexer (lxTokens s) start true r (lxValue s)
    else lexWrite r (mkLexer (lxTokens s) start (lxQuoted s) (lxQuote s) (lxValue s)).
Fixpoint lexFrom (pos : Z) (units : list (Z * str)) (s : lexer) : list invocationToken :=
  match units with
  | [] => lxTokens (lexFlush pos s)
  | (r, b) :: units => lexFrom (pos + slen b) units (lexStep pos r s)
  end.
Definition lexInvocationTokens (input : str) : list invocationToken :=
  lexFrom 0 (decode input) (mkLexer [] (-1) false 0 []).

(** [isMentionDelimiter]: ASCII and full-width punctuation. *)
Definition isMentionDelimiter (r : Z) : bool :=
  bool_decide (r ∈ [44; 46; 58; 59; 33; 63; 65292; 12290; 65306; 65307; 65281; 65311]).
Definition mentionDelimiterSuffix (value : str) : bool := forallb isMentionDelimiter (runes value).
Definition mentionOpen : str := lit "<@".
Definition isMentionToken (value : str) : bool :=
  let value := trim_space value in
  if has_prefix value mentionOpen then
    match index_byte value ">"%char with
    | Some end_ => (2 <? end_) && mentionDelimiterSuffix (drop (Z.to_nat (end_ + 1)) value)
    | None => false
    end
  else if negb (has_prefix value (lit "@")) then false
  else negb (is_empty (trim_runes_right isMentionDelimiter (trim_prefix value (lit "@")))).

Definition normalizeInvocationAlias (value : str) : str :=
  let value := trim_space value in
  if has_prefix value mentionOpen && has_suffix value (lit ">") then
    trim_space (trim_prefix (trim_suffix (trim_prefix value mentionOpen) (lit ">")) (lit "!"))
  else trim (trim_space value) (lit "@").

(** The identity of a "<@id>" mention, when there is one. *)
Definition bracketIdentity (value : str) : option str :=
  if has_prefix value mentionOpen then
    end_ ← index_byte value ">"%char;
    if (2 <? end_) && mentionDelimiterSuffix (drop (Z.to_nat (end_ + 1)) value) then
      let identity := trim_space (trim_prefix (sub value 2 end_) (lit "!")) in
      if is_empty identity then None else Some identity
    else None
  else None.
Definition normalizeInvocationMentionCandidates (value : str) : list str :=
  let value := trim_space value in
  match bracketIdentity value with
  | Some identity => [identity]
  | None =>
      let identity := normalizeInvocationAlias value in
      if is_empty identity then []
      else
        let withoutDelimiter := trim_runes_right isMentionDelimiter identity in
        if has_prefix value (lit "@") && negb (is_empty withoutDelimiter) && negb (str_eqb withoutDelimiter identity)
        then [identity; withoutDelimiter] else [identity]
  end.
Definition aliasMatchesInvocation (value : str) (aliases : list str) : bool :=
  let candidates := normalizeInvocationMentionCandidates value in
  existsb (fun alias =>
    let normalized := normalizeInvocationAlias alias in
    negb (is_empty normalized) && existsb (fun candidate => equal_fold candidate normalized) candidates) aliases.

(** [mentionRemovalRange]: the whitespace after the mention goes with it, and
    the whitespace before it when nothing follows. *)
Definition spacesAfter (text : str) (end_ : Z) : Z :=
  let rest := drop (Z.to_nat end_) text in slen rest - slen (undecode (drop_while space_unit (decode rest))).
Definition spacesBefore (text : str) (start : Z) : Z :=
  let before := take (Z.to_nat start) text in slen before - slen (undecode (drop_while_end space_unit (decode before))).
Definition mentionRemovalRange (text : str) (token : invocationToken) : textRange :=
  let end_ := tkEnd token + spacesAfter text (tkEnd token) in
  if end_ =? slen text then mkRange (tkStart token - spacesBefore text (tkStart token)) end_
  else mkRange (tkStart token) end_.

(** [removeTextRanges]; the starts are distinct, so that the order of
    [sort.Slice] is the order of a stable sort. *)
Fixpoint removeFrom (text : str) (cursor : Z) (ranges : list textRange) : str :=
  match ranges with
  | [] => drop (Z.to_nat cursor) text
  | item :: ranges =>
      if (trStart item <? cursor) || (trStart item <? 0) || (slen text <? trEnd item) || (trEnd item <=? trStart item)
      then removeFrom text cursor ranges
      else sub text cursor (trStart item) ++ removeFrom text (trEnd item) ranges
  end.
Definition removeTextRanges (text : str) (ranges : list textRange) : str :=
  if bool_decide (length ranges = 0%nat) then text
  else removeFrom text 0 (stable_sort (key_lt trStart) ranges).

(** What the message says about who is meant. *)
Record address : Type := mkAddress { adAddressed : bool; adAddressing : list str }.
Definition noAddress : address := mkAddress false [].
Definition addressedBy (value : str) (a : address) : address := mkAddress true (adAddressing a ++ [value]).

(** The first loop: the head token, whether it is the first token, and the
    address the mentions before it make. *)
Fixpoint findCommand (aliases : list str) (first : bool) (a : address) (tokens : list invocationToken) :
    result SyntaxError (invocationToken * bool * address) :=
  match tokens with
  | [] => Err ErrNotCommand
  | token :: tokens =>
      if has_prefix (tkValue token) (lit "/") then Ok (token, first, a)
      else if tkQuoted token || negb (isMentionToken (tkValue token)) then Err ErrNotCommand
      else findCommand aliases false
             (if aliasMatchesInvocation (tkValue token) aliases then addressedBy (tkValue token) a else a) tokens
  end.

(** [strings.Cut] at an at sign *)
Definition cutAt (selector : str) : option (str * str) :=
  i ← index_byte selector at_sign; Some (take (Z.to_nat i) selector, drop (Z.to_nat (i + 1)) selector).
(** The head token: its selector, with the range of a matching suffix. *)
Definition readHead (aliases : list str) (head : invocationToken) (a : address) :
    result SyntaxError (str * list textRange * address) :=
  let selector := trim_prefix (tkValue head) (lit "/") in
  match cutAt selector with
  | Some (before, after) =>
      if is_empty before || negb (aliasMatchesInvocation after aliases) then Err ErrCommandForOtherBot
      else Ok (before, [mkRange (tkStart head + default 0 (index_byte (tkValue head) at_sign)) (tkEnd head)],
               addressedBy (at_sign :: after) a)
  | None => Ok (selector, [], a)
  end.

(** [strings.LastIndexByte(value, '@')] *)
Definition lastAt (value : str) : option Z :=
  i ← find_last (Ascii.eqb at_sign) value; Some (Z.of_nat i).
(** The range an argument token loses, with what it says of the address. *)
Definition argumentRemoval (commandText : str) (aliases : list str) (token : invocationToken) : option (textRange * str) :=
  if tkQuoted token then None
  else if isMentionToken (tkValue token) && aliasMatchesInvocation (tkValue token) aliases then
    Some (mentionRemovalRange commandText token, tkValue token)
  else at_ ← lastAt (tkValue token);
       let suffix := drop (Z.to_nat (at_ + 1)) (tkValue token) in
       if (0 <? at_) && aliasMatchesInvocation suffix aliases then
         Some (mkRange (tkStart token + at_) (tkEnd token), at_sign :: suffix)
       else None.
Fixpoint argumentRemovals (commandText : str) (aliases : list str) (removals : list textRange) (a : address)
    (tokens : list invocationToken) : list textRange * address :=
  match tokens with
  | [] => (removals, a)
  | token :: tokens =>
      match argumentRemoval commandText aliases token with
      | Some (item, value) => argumentRemovals commandText aliases (removals ++ [item]) (addressedBy value a) tokens
      | None => argumentRemovals commandText aliases removals a tokens
      end
  end.

Definition restOf (commandText : str) : str :=
  match lexInvocationTokens commandText with
  | t :: _ => if tkEnd t <? slen commandText then trim_space (drop (Z.to_nat (tkEnd t)) commandText) else []
  | [] => []
  end.

(** What follows the choice of the head: [commandText] starts at it. *)
Definition readCommand (input : InvocationInput) (raw commandText : str) (a : address) : result SyntaxError Invocation :=
  let aliases := iiBotAliases input in
  match lexInvocationTokens commandText with
  | [] => Err ErrNotCommand
  | head :: arguments =>
      if negb (has_prefix (tkValue head) (lit "/")) then Err ErrNotCommand
      else
        h <-? readHead aliases head a ;;
        let '(selector, removals, a) := h in
        if is_empty selector then Err ErrNotCommand
        else
          let '(removals, a) := argumentRemovals commandText aliases removals a arguments in
          let commandText := trim_space (removeTextRanges commandText removals) in
          parsed <-? Parse commandText ;;
          Ok (mkInvocation raw commandText selector (restOf commandText) parsed
                (iiDirected input || adAddressed a) (adAddressed a) (adAddressing a))
  end.
Definition ParseInvocation (input : InvocationInput) : result SyntaxError Invocation :=
  let raw := trim_space (iiText input) in
  if is_empty raw then Err ErrNotCommand
  else
    c <-? findCommand (iiBotAliases input) true noAddress (lexInvocationTokens raw) ;;
    let '(token, first, a) := c in
    if negb first && negb (adAddressed a) then Err ErrCommandForOtherBot
    else readCommand input raw (trim_space (drop (Z.to_nat (tkStart token)) raw)) a.
End commandsyntax.
