(* ===== verification/CommandSyntaxCorrect.v ===== *)
(** * What the command syntax guarantees

    The lexer cuts a message into tokens separated by white space, so that a
    removed mention takes only itself and the white space around it; flags
    leave the arguments; quoting and tokenizing are inverse. *)
From S2P Require Import Prelude GoStr GoTrim CommandSyntax.
#[local] Open Scope Z_scope.

(** ** The tokens of a message *)
Definition ulen (l : list (Z * str)) : Z := slen (undecode l).
Lemma ulen_app l1 l2 : ulen (l1 ++ l2) = ulen l1 + ulen l2.
Proof. unfold ulen. by rewrite undecode_app, slen_app. Qed.
Lemma ulen_nonneg l : 0 <= ulen l.
Proof. apply slen_nonneg. Qed.
Lemma ulen_snoc l r b : ulen (l ++ [(r, b)]) = ulen l + slen b.
Proof. rewrite ulen_app. unfold ulen at 2, undecode. simpl. by rewrite app_nil_r. Qed.

Definition starts_text (l : list (Z * str)) : Prop := exists q, head l = Some q /\ space_unit q = false.
Definition ends_text (l : list (Z * str)) : Prop := exists q, last l = Some q /\ space_unit q = false.
Definition ends_word (l : list (Z * str)) : Prop := match l with [] => True | q :: _ => space_unit q = true end.

(** What a token says of the units it was read from. *)
Definition reads (t : invocationToken) (body : list (Z * str)) : Prop :=
  starts_text body /\ tkEnd t = tkStart t + ulen body /\
  (tkQuoted t = false -> tkValue t = encode body.*1 /\ Forall (fun q => space_unit q = false) body).
Inductive Lexed : Z -> list (Z * str) -> list invocationToken -> Prop :=
  | Lexed_end pos gap : Forall (fun q => space_unit q = true) gap -> Lexed pos gap []
  | Lexed_token pos gap body rest t toks :
      Forall (fun q => space_unit q = true) gap -> reads t body -> tkStart t = pos + ulen gap ->
      ends_text body \/ rest = [] -> ends_word rest -> Lexed (tkEnd t) rest toks ->
      Lexed pos (gap ++ body ++ rest) (t :: toks).

(** A token being read. *)
Definition reading (s : lexer) (body : list (Z * str)) : Prop :=
  0 <= lxStart s /\ starts_text body /\ (lxQuote s = 0 -> ends_text body) /\
  (lxQuote s <> 0 -> lxQuoted s = true /\ quoteRune (lxQuote s) = true) /\
  (lxQuoted s = false -> lxValue s = encode body.*1 /\ Forall (fun q => space_unit q = false) body).
Definition idle (s : lexer) : Prop := lxStart s = -1 /\ lxQuote s = 0 /\ lxQuoted s = false /\ lxValue s = [].

Lemma starts_text_snoc l q : starts_text l -> starts_text (l ++ [q]).
Proof. intros (x & Hx & Hs). exists x. split; [|done]. by destruct l. Qed.
Lemma ends_text_snoc l q : space_unit q = false -> ends_text (l ++ [q]).
Proof. intros H. exists q. by rewrite last_snoc. Qed.
Lemma encode_snoc l r : encode (l ++ [r]) = encode l ++ encode_rune r.
Proof. unfold encode. rewrite flat_map_app. simpl. by rewrite app_nil_r. Qed.

Lemma quoteRune_text r : quoteRune r = true -> is_space r = false.
Proof. unfold quoteRune. intros H. apply orb_true_iff in H as [H|H]; apply Z.eqb_eq in H; by subst. Qed.

(** One more rune of the token. *)
Lemma reading_step s body pos r b :
  reading s body -> lxQuote s <> 0 \/ is_space r = false ->
  reading (lexStep pos r s) (body ++ [(r, b)]) /\ lxTokens (lexStep pos r s) = lxTokens s /\
  lxStart (lexStep pos r s) = lxStart s.
Proof.
  intros (H0 & Hst & Hend & Hq & Hv) Hr. unfold lexStep. destruct (lxQuote s =? 0) eqn:E; bool_hyps; simpl.
  - destruct Hr as [?|Hr]; [lia|]. rewrite Hr. rewrite (proj2 (Z.ltb_ge _ _) H0).
    destruct (quoteRune r) eqn:Eq; simpl.
    + split_and!; [|done..]. unfold reading; simpl. split_and!; [done|by apply starts_text_snoc| |done|done].
      intros _. by apply ends_text_snoc.
    + split_and!; [|done..]. unfold reading; simpl. split_and!; [done|by apply starts_text_snoc|by intros; apply ends_text_snoc|done|].
      intros Hn. destruct (Hv Hn) as [-> Hb]. rewrite fmap_app; simpl. rewrite encode_snoc. split; [done|]. apply Forall_app_2; [done|]. by repeat constructor.
  - destruct (Hq E) as [Hqd Hqr]. destruct (r =? lxQuote s) eqn:Er; bool_hyps; simpl.
    + split_and!; [|done..]. unfold reading; simpl. split_and!; [done|by apply starts_text_snoc| |done|congruence].
      intros _. apply ends_text_snoc. subst r. by apply quoteRune_text.
    + split_and!; [|done..]. unfold reading; simpl. split_and!; [done|by apply starts_text_snoc|lia|done|congruence].
Qed.

Lemma ulen_cons r b l : ulen ((r, b) :: l) = slen b + ulen l.
Proof. unfold ulen, undecode. simpl. by rewrite slen_app. Qed.
Lemma Lexed_space pos r b units toks : is_space r = true -> Lexed (pos + slen b) units toks -> Lexed pos ((r, b) :: units) toks.
Proof.
  intros Hr HL. inversion HL as [? gap Hg|? gap body rest t toks' Hg Hrd Hs He Hw HL']; subst.
  - apply Lexed_end. by constructor.
  - apply (Lexed_token pos ((r, b) :: gap) body rest t toks'); try done; [by constructor|]. rewrite ulen_cons. lia.
Qed.
(** The first rune of a token. *)
Lemma idle_step s pos r b : idle s -> is_space r = false -> 0 <= pos ->
  reading (lexStep pos r s) [(r, b)] /\ lxTokens (lexStep pos r s) = lxTokens s /\ lxStart (lexStep pos r s) = pos.
Proof.
  intros (E1 & E2 & E3 & E4) Hr Hp. unfold lexStep. rewrite E2, Hr, E1. simpl.
  assert (starts_text [(r, b)]) by (by exists (r, b)). assert (ends_text [(r, b)]) by (by exists (r, b)).
  destruct (quoteRune r) eqn:Eq; simpl; (split_and!; [|done..]); unfold reading; simpl; split_and!; auto; [congruence..|].
  intros _. rewrite E4. split; [by rewrite app_nil_r|by repeat constructor].
Qed.
(** White space after a token ends it. *)
Lemma reading_space s body pos r : reading s body -> lxQuote s = 0 -> is_space r = true -> pos = lxStart s + ulen body ->
  exists t, idle (lexStep pos r s) /\ lxTokens (lexStep pos r s) = lxTokens s ++ [t] /\ reads t body /\ tkStart t = lxStart s /\ tkEnd t = pos.
Proof.
  intros (H0 & Hst & _ & _ & Hv) Hq Hr Hp. unfold lexStep, lexFlush. rewrite Hq, Hr, (proj2 (Z.ltb_ge _ _) H0). simpl.
  exists (mkToken (lxStart s) pos (lxValue s) (lxQuoted s)). unfold reads, idle; simpl. by split_and!; auto.
Qed.
Lemma lex_spec units : forall pos s, 0 <= pos ->
  (idle s -> exists toks, lexFrom pos units s = lxTokens s ++ toks /\ Lexed pos units toks) /\
  (forall body, reading s body -> pos = lxStart s + ulen body -> exists t toks body' rest,
     body ++ units = body' ++ rest /\ lexFrom pos units s = lxTokens s ++ t :: toks /\
     reads t body' /\ tkStart t = lxStart s /\ (ends_text body' \/ rest = []) /\ ends_word rest /\ Lexed (tkEnd t) rest toks).
Proof.
  induction units as [|[r b] units IH]; intros pos s Hpos; simpl.
  - split.
    + intros (E & _). unfold lexFlush. rewrite E. exists []. simpl. rewrite app_nil_r. split; [done|]. by apply Lexed_end.
    + intros body (H0 & Hst & _ & _ & Hv) Hp. unfold lexFlush. rewrite (proj2 (Z.ltb_ge _ _) H0). simpl.
      exists (mkToken (lxStart s) pos (lxValue s) (lxQuoted s)), [], body, []. unfold reads; simpl.
      split_and!; auto. by apply Lexed_end.
  - pose proof (slen_nonneg b) as Hb. destruct (IH (pos + slen b) (lexStep pos r s) ltac:(lia)) as [IHi IHr]. split.
    + intros Hi. destruct (is_space r) eqn:Er.
      * destruct Hi as (E1 & E2 & E3 & E4).
        assert (lexStep pos r s = s) as Es by (unfold lexStep, lexFlush; by rewrite E2, Er, E1). rewrite Es in *.
        destruct IHi as (toks & -> & HL); [done|]. exists toks. split; [done|]. by apply Lexed_space.
      * destruct (idle_step s pos r b Hi Er Hpos) as (Hr' & Ht & Hs').
        destruct (IHr _ Hr') as (t & toks & body' & rest & Hu & Hl & Hrd & Hs & He & Hw & HL).
        { rewrite Hs', ulen_cons. unfold ulen, undecode; simpl. unfold slen; simpl. lia. }
        exists (t :: toks). rewrite Hl, Ht. split; [done|].
        change ((r, b) :: units) with ([(r, b)] ++ units). rewrite Hu. change (body' ++ rest) with ([] ++ body' ++ rest).
        apply Lexed_token; try done. rewrite Hs, Hs'. unfold ulen, slen; simpl. lia.
    + intros body Hr Hp. destruct (decide (lxQuote s <> 0 \/ is_space r = false)) as [Hc|Hc].
      * destruct (reading_step s body pos r b Hr Hc) as (Hr' & Ht & Hs').
        destruct (IHr _ Hr') as (t & toks & body' & rest & Hu & Hl & Hrd & Hs & He & Hw & HL).
        { rewrite Hs', ulen_snoc. lia. }
        exists t, toks, body', rest. rewrite Hl, Ht, Hs, Hs'. rewrite <- app_assoc in Hu. by split_and!.
      * apply Decidable.not_or in Hc as [Hq Hsp]; apply Z.eq_dne in Hq. apply not_false_is_true in Hsp.
        destruct (reading_space s body pos r Hr Hq Hsp Hp) as (t & Hi & Ht & Hrd & Hs & He).
        destruct (IHi Hi) as (toks & Hl & HL). exists t, toks, body, ((r, b) :: units).
        rewrite Hl, Ht, <- app_assoc. split_and!; try done.
        -- left. destruct Hr as (_ & _ & Hend & _). by apply Hend.
        -- rewrite He. by apply Lexed_space.
Qed.
Lemma lexed s : Lexed 0 (decode s) (lexInvocationTokens s).
Proof. destruct (lex_spec (decode s) 0 (mkLexer [] (-1) false 0 [])) as [H _]; [lia|]. destruct H as (toks & Hl & HL); [done|]. unfold lexInvocationTokens. by rewrite Hl. Qed.

(** ** Where a removed range lies *)
Definition last_end (pos : Z) (l : list invocationToken) : Z := match last l with Some t => tkEnd t | None => pos end.
Definition next_start (hi : Z) (l : list invocationToken) : Z := match l with t :: _ => tkStart t | [] => hi end.

Lemma last_end_cons pos t l : last_end pos (t :: l) = last_end (tkEnd t) l.
Proof. unfold last_end. by destruct l as [|t' l _] using rev_ind; [|rewrite app_comm_cons, !last_snoc]. Qed.
Lemma ends_text_app l1 l2 : ends_text l2 -> ends_text (l1 ++ l2).
Proof. intros (q & Hq & Hs). exists q. split; [|done]. rewrite last_app. by rewrite Hq. Qed.
Lemma starts_text_len l : starts_text l -> l <> [].
Proof. by intros (q & Hq & _) ->. Qed.
Lemma Lexed_split l1 : forall pos units l2, Lexed pos units (l1 ++ l2) -> l2 <> [] -> exists u1 u2,
  units = u1 ++ u2 /\ Lexed (last_end pos l1) u2 l2 /\ pos + ulen u1 = last_end pos l1 /\ (u1 = [] \/ ends_text u1).
Proof.
  induction l1 as [|t l1 IH]; intros pos units l2 HL Hne.
  - exists [], units. unfold ulen, undecode, last_end; simpl. split_and!; try done; [unfold slen; simpl; lia|by left].
  - inversion HL as [|? gap body rest ? toks Hg (Hst & Hen & Hv) Hs He Hw HL']; subst.
    destruct (IH _ _ _ HL' Hne) as (u1 & u2 & -> & HL2 & Hp & Hu). exists (gap ++ body ++ u1), u2.
    rewrite last_end_cons, <- !app_assoc. split_and!; try done.
    + rewrite !ulen_app. lia.
    + right. apply ends_text_app. destruct Hu as [->|Hu]; [|by apply ends_text_app]. rewrite app_nil_r.
      destruct He as [He|He]; [done|]. simpl in He. subst. inversion HL2; subst; [done|].
      match goal with H : _ ++ _ ++ _ = [] |- _ => apply app_nil in H as [_ [H _]%app_nil]; subst end.
      match goal with H : reads _ [] |- _ => by destruct H as ((? & ? & _) & _) end.
Qed.
(** The text around one of its tokens. *)
Lemma Lexed_at s l1 t l2 : lexInvocationTokens s = l1 ++ t :: l2 -> exists u1 gap body rest,
  decode s = u1 ++ gap ++ body ++ rest /\ Forall (fun q => space_unit q = true) gap /\ (u1 = [] \/ ends_text u1) /\
  ulen u1 = last_end 0 l1 /\ tkStart t = ulen u1 + ulen gap /\ reads t body /\ Lexed (tkEnd t) rest l2.
Proof.
  intros E. pose proof (lexed s) as HL. rewrite E in HL. apply Lexed_split in HL as (u1 & u2 & Hd & HL & Hp & Hu); [|done].
  inversion HL as [|? gap body rest ? toks Hg Hr Hs He Hw HL']; subst. exists u1, gap, body, rest. rewrite Z.add_0_l in Hp.
  rewrite <- Hp in Hs. by split_and!.
Qed.
Lemma slen_decode s l1 l2 : decode s = l1 ++ l2 -> slen s = ulen l1 + ulen l2.
Proof. intros H. unfold ulen. rewrite <- slen_app, <- undecode_app, <- H. by rewrite undecode_decode. Qed.
Lemma drop_undecode s l1 l2 : decode s = l1 ++ l2 -> drop (Z.to_nat (ulen l1)) s = undecode l2.
Proof.
  intros H. rewrite <- (undecode_decode s), H, undecode_app. unfold ulen, slen. rewrite Nat2Z.id. apply drop_app_length.
Qed.
Lemma take_undecode s l1 l2 : decode s = l1 ++ l2 -> take (Z.to_nat (ulen l1)) s = undecode l1.
Proof.
  intros H. rewrite <- (undecode_decode s), H, undecode_app. unfold ulen, slen. rewrite Nat2Z.id. apply take_app_length.
Qed.
Lemma spaces_after s l1 l2 : decode s = l1 ++ l2 -> spacesAfter s (ulen l1) = ulen l2 - ulen (drop_while space_unit l2).
Proof. intros H. unfold spacesAfter. rewrite (drop_undecode _ _ _ H). by rewrite (decode_suffix _ _ _ H). Qed.
Lemma spaces_before s l1 l2 : decode s = l1 ++ l2 -> spacesBefore s (ulen l1) = ulen l1 - ulen (drop_while_end space_unit l1).
Proof. intros H. unfold spacesBefore. rewrite (take_undecode _ _ _ H). by rewrite (decode_prefix _ _ _ H). Qed.

Lemma unit_nonempty s q : q ∈ decode s -> 0 < slen q.2.
Proof.
  intros Hq. pose proof (decode_units s) as Hf. rewrite Forall_forall in Hf. destruct (Hf q Hq) as [Hv|[_ Hi]].
  - destruct q.2 as [|c b] eqn:E; [|unfold slen; simpl; lia]. destruct Hv as [Hv _]. specialize (Hv []). by rewrite E in Hv.
  - unfold slen. lia.
Qed.
Lemma starts_text_pos s l1 l2 l3 : decode s = l1 ++ l2 ++ l3 -> starts_text l2 -> 0 < ulen l2.
Proof.
  intros Hd (q & Hq & _). destruct l2 as [|[r b] l2]; [done|]. rewrite ulen_cons. pose proof (ulen_nonneg l2).
  assert ((r, b) ∈ decode s) as Hin by (rewrite Hd; set_solver). apply unit_nonempty in Hin. simpl in Hin. lia.
Qed.

(** A mention takes the white space up to the next token, and when it is the
    last token the white space before it as well, and nothing else. *)
Lemma mention_range_at s l1 t l2 : lexInvocationTokens s = l1 ++ t :: l2 ->
  mentionRemovalRange s t =
  if bool_decide (l2 = []) then mkRange (last_end 0 l1) (slen s) else mkRange (tkStart t) (next_start (slen s) l2).
Proof.
  intros E. destruct (Lexed_at _ _ _ _ E) as (u1 & gap & body & rest & Hd & Hg & Hu & Hp & Hs & (Hst & Hen & Hv) & HL).
  assert (Hd2 : decode s = (u1 ++ gap ++ body) ++ rest) by (by rewrite <- !app_assoc).
  assert (Ha : tkEnd t = ulen (u1 ++ gap ++ body)) by (rewrite !ulen_app; lia).
  assert (Hd1 : decode s = (u1 ++ gap) ++ body ++ rest) by (by rewrite <- !app_assoc).
  assert (Hb : tkStart t = ulen (u1 ++ gap)) by (rewrite !ulen_app; lia).
  unfold mentionRemovalRange. rewrite Ha, (spaces_after _ _ _ Hd2), <- Ha, (slen_decode _ _ _ Hd2), <- Ha.
  rewrite Hb, (spaces_before _ _ _ Hd1), <- Hb.
  assert (drop_while_end space_unit (u1 ++ gap) = u1) as ->.
  { rewrite drop_while_end_app_all by done. apply drop_while_end_id. destruct Hu as [->|(q & -> & Hq)]; done. }
  inversion HL as [? gap2 Hg2|? gap2 body2 rest2 t2 l2' Hg2 (Hst2 & Hen2 & _) Hs2 He2 Hw2 HL2]; subst; simpl.
  - rewrite drop_while_all by done. replace (ulen []) with 0 by done. rewrite Z.sub_0_r, Z.eqb_refl.
    f_equal. rewrite Hb, ulen_app, <- Hp. lia.
  - rewrite drop_while_app_all by done. rewrite drop_while_id.
    2:{ destruct Hst2 as (q & Hq & Hsp). destruct body2; [done|]. by injection Hq as ->. }
    rewrite !ulen_app. pose proof (ulen_nonneg rest2).
    assert (0 < ulen body2) by (apply (starts_text_pos s (u1 ++ gap ++ body ++ gap2) _ rest2); [by rewrite Hd, <- !app_assoc|done]).
    rewrite (proj2 (Z.eqb_neq _ _)) by lia. f_equal. lia.
Qed.

Lemma Lexed_start pos units b t c : Lexed pos units (b ++ t :: c) -> pos <= tkStart t.
Proof.
  intros HL. apply Lexed_split in HL as (u1 & u2 & _ & HL & Hp & _); [|done]. inversion HL; subst.
  pose proof (ulen_nonneg u1). pose proof (ulen_nonneg gap). lia.
Qed.
Lemma tokens_ordered s a t1 b t2 c : lexInvocationTokens s = a ++ t1 :: b ++ t2 :: c -> tkEnd t1 <= tkStart t2.
Proof. intros E. destruct (Lexed_at _ _ _ _ E) as (_ & _ & _ & rest & _ & _ & _ & _ & _ & _ & HL). by apply Lexed_start in HL. Qed.
Lemma token_within s l1 t l2 : lexInvocationTokens s = l1 ++ t :: l2 ->
  0 <= last_end 0 l1 <= tkStart t /\ tkStart t < tkEnd t /\ tkEnd t <= next_start (slen s) l2 /\ tkEnd t <= slen s.
Proof.
  intros E. destruct (Lexed_at _ _ _ _ E) as (u1 & gap & body & rest & Hd & _ & _ & Hp & Hs & (Hst & Hen & _) & HL).
  pose proof (ulen_nonneg u1). pose proof (ulen_nonneg gap). pose proof (ulen_nonneg rest).
  assert (0 < ulen body) by (by apply (starts_text_pos s (u1 ++ gap) body rest); [rewrite <- app_assoc|]).
  pose proof (slen_decode s u1 (gap ++ body ++ rest) Hd) as Hl. rewrite !ulen_app in Hl.
  destruct l2 as [|t2 l2]; simpl; [lia|]. apply (Lexed_start _ _ [] t2 l2) in HL. lia.
Qed.

Section removal.
Context {U : Unicode}.
Lemma find_last_bound {A} (p : A -> bool) (l : list A) i : find_last p l = Some i -> (i < length l)%nat.
Proof using Type. intros H. apply find_last_Some in H as (x & Hx & _). by apply lookup_lt_Some in Hx. Qed.
(** What an argument loses lies between the tokens around it. *)
Lemma removal_between s aliases l1 t l2 r v : lexInvocationTokens s = l1 ++ t :: l2 ->
  argumentRemoval s aliases t = Some (r, v) -> last_end 0 l1 <= trStart r /\ trEnd r <= next_start (slen s) l2.
Proof using Type.
  intros E H. pose proof (token_within _ _ _ _ E). unfold argumentRemoval in H.
  destruct (tkQuoted t); [done|]. destruct (isMentionToken (tkValue t) && _).
  - injection H as <- <-. rewrite (mention_range_at _ _ _ _ E). case_bool_decide; subst; simpl in *; lia.
  - destruct (lastAt (tkValue t)) as [at_|] eqn:El; simpl in H; [|done]. case_if; [|done]. injection H as <- <-. simpl.
    bool_hyps. lia.
Qed.
(** So a token that loses nothing keeps clear of every range. *)
Lemma removal_apart s aliases t q r v : t ∈ lexInvocationTokens s -> q ∈ lexInvocationTokens s ->
  argumentRemoval s aliases t = Some (r, v) -> argumentRemoval s aliases q = None ->
  trEnd r <= tkStart q \/ tkEnd q <= trStart r.
Proof using Type.
  intros Ht Hq Hr Hn. apply list_elem_of_split in Ht as (l1 & l2 & E).
  pose proof (removal_between _ _ _ _ _ _ _ E Hr) as [H1 H2]. rewrite E in Hq.
  apply elem_of_app in Hq as [Hq|Hq]; [right|apply elem_of_cons in Hq as [->|Hq]; [congruence|left]].
  - apply list_elem_of_split in Hq as (a & b & ->). rewrite <- app_assoc in E. simpl in E.
    enough (tkEnd q <= last_end 0 (a ++ q :: b)) by lia.
    destruct b as [|t' b _] using rev_ind.
    + unfold last_end. rewrite last_app. simpl. lia.
    + unfold last_end. rewrite last_app. simpl. rewrite app_comm_cons, last_snoc.
      assert (E' : lexInvocationTokens s = a ++ q :: b ++ t' :: t :: l2) by (rewrite E; simpl; by rewrite <- !app_assoc).
      pose proof (tokens_ordered _ _ _ _ _ _ E') as Ho. rewrite app_comm_cons, app_assoc in E'.
      pose proof (token_within _ _ _ _ E'). lia.
  - apply list_elem_of_split in Hq as (a & b & ->). destruct a as [|t' a]; simpl in *; [lia|].
    pose proof (tokens_ordered s (l1 ++ [t]) t' a q b) as Ho. rewrite <- app_assoc in Ho. specialize (Ho E).
    pose proof (token_within s (l1 ++ [t]) t' (a ++ q :: b)) as Hw. rewrite <- app_assoc in Hw. specialize (Hw E). lia.
Qed.
End removal.

(** ** Removing ranges *)
Lemma sub_split s a b c : 0 <= a -> a <= b -> b <= c -> sub s a c = sub s a b ++ sub s b c.
Proof.
  intros Ha Hb Hc. unfold sub. replace (Z.to_nat (c - a)) with (Z.to_nat (b - a) + Z.to_nat (c - b))%nat by lia.
  rewrite <- take_take_drop, drop_drop. do 3 f_equal. lia.
Qed.
Lemma sub_drop s a b : 0 <= a -> a <= b -> drop (Z.to_nat a) s = sub s a b ++ drop (Z.to_nat b) s.
Proof.
  intros Ha Hb. unfold sub. rewrite <- (take_drop (Z.to_nat (b - a)) (drop (Z.to_nat a) s)) at 1.
  rewrite drop_drop. do 2 f_equal. lia.
Qed.
(** A stretch of the text no range touches is in the result as it is. *)
Lemma remove_keeps text ranges s e : forall cursor,
  0 <= cursor <= s -> s <= e ->
  Forall (fun r => trEnd r <= s \/ e <= trStart r) ranges -> exists a b, removeFrom text cursor ranges = a ++ sub text s e ++ b.
Proof.
  induction ranges as [|r ranges IH]; intros cursor Hc Hse HF; simpl.
  - exists (sub text cursor s), (drop (Z.to_nat e) text). rewrite <- sub_drop by lia. by rewrite <- sub_drop by lia.
  - inversion HF as [|? ? Hr HF']; subst. case_if; [by apply IH|]. bool_hyps.
    destruct (decide (trEnd r <= s)) as [Hs|Hs].
    + destruct (IH (trEnd r)) as (a & b & ->); [lia..|done|]. exists (sub text cursor (trStart r) ++ a), b. by rewrite <- !app_assoc.
    + assert (e <= trStart r) by (destruct Hr; lia).
      exists (sub text cursor s), (sub text e (trStart r) ++ removeFrom text (trEnd r) ranges).
      rewrite (sub_split text cursor s (trStart r)), (sub_split text s e (trStart r)) by lia. by rewrite <- !app_assoc.
Qed.
Lemma removeTextRanges_keeps text ranges s e : 0 <= s -> s <= e ->
  Forall (fun r => trEnd r <= s \/ e <= trStart r) ranges -> exists a b, removeTextRanges text ranges = a ++ sub text s e ++ b.
Proof.
  intros Hs He HF. unfold removeTextRanges. case_bool_decide as Hl.
  - exists (take (Z.to_nat s) text), (drop (Z.to_nat e) text). rewrite <- sub_drop by lia. by rewrite take_drop.
  - apply remove_keeps; [lia..|]. by rewrite stable_sort_perm.
Qed.

(** The bytes outside every range. *)
Definition covered (ranges : list textRange) (p : Z) : bool := existsb (fun r => (trStart r <=? p) && (p <? trEnd r)) ranges.
Fixpoint keepOutside (ranges : list textRange) (pos : Z) (s : str) : str :=
  match s with
  | [] => []
  | c :: s => if covered ranges pos then keepOutside ranges (pos + 1) s else c :: keepOutside ranges (pos + 1) s
  end.
Lemma covered_perm l1 l2 p : l1 ≡ₚ l2 -> covered l1 p = covered l2 p.
Proof.
  intros H. unfold covered. induction H; simpl; [done|by rewrite IHPermutation| |by etrans].
  by rewrite !orb_assoc, (orb_comm (_ && _)).
Qed.
Lemma keepOutside_app ranges s1 : forall pos s2,
  keepOutside ranges pos (s1 ++ s2) = keepOutside ranges pos s1 ++ keepOutside ranges (pos + slen s1) s2.
Proof.
  induction s1 as [|c s1 IH]; intros pos s2; simpl; [by rewrite Z.add_0_r|]. rewrite IH.
  replace (pos + slen (c :: s1)) with (pos + 1 + slen s1) by (unfold slen; simpl; lia). by case_if.
Qed.
Lemma keepOutside_all ranges s : forall pos, (forall p, pos <= p < pos + slen s -> covered ranges p = false) -> keepOutside ranges pos s = s.
Proof.
  induction s as [|c s IH]; intros pos H; simpl; [done|]. rewrite H by (unfold slen; simpl; lia). f_equal. apply IH.
  intros p Hp. apply H. unfold slen in *; simpl; lia.
Qed.
Lemma keepOutside_none ranges s : forall pos, (forall p, pos <= p < pos + slen s -> covered ranges p = true) -> keepOutside ranges pos s = [].
Proof.
  induction s as [|c s IH]; intros pos H; simpl; [done|]. rewrite H by (unfold slen; simpl; lia). apply IH.
  intros p Hp. apply H. unfold slen in *; simpl; lia.
Qed.
Lemma covered_false ranges p : covered ranges p = false <-> forall r, r ∈ ranges -> ~ trStart r <= p < trEnd r.
Proof.
  unfold covered. induction ranges as [|r ranges IH]; simpl; [split; [intros _ r H; by apply not_elem_of_nil in H|done]|].
  rewrite orb_false_iff, IH, andb_false_iff, Z.leb_gt, Z.ltb_ge. split.
  - intros [H1 H2] r' [->|Hr']%elem_of_cons; [lia|by apply H2].
  - intros H. split; [|by intros r' Hr'; apply H; constructor]. specialize (H r ltac:(constructor)). lia.
Qed.
Lemma slen_sub s a b : 0 <= a -> a <= b -> b <= slen s -> slen (sub s a b) = b - a.
Proof. unfold sub, slen. intros Ha Hab Hb. rewrite length_take, length_drop. lia. Qed.
Lemma covered_true ranges p r : r ∈ ranges -> trStart r <= p < trEnd r -> covered ranges p = true.
Proof. intros Hr Hp. destruct (covered ranges p) eqn:E; [done|]. apply covered_false with (r := r) in E; [done|done]. Qed.
Lemma removeFrom_filter text all L : forall cursor,
  0 <= cursor <= slen text -> (forall r, r ∈ L -> r ∈ all) -> (forall r, r ∈ all -> r ∈ L \/ trEnd r <= cursor) ->
  StronglySorted (le_of (key_lt trStart)) L -> NoDup L ->
  Forall (fun r => cursor <= trStart r < trEnd r /\ trEnd r <= slen text) L ->
  (forall r r', r ∈ L -> r' ∈ L -> r = r' \/ trEnd r <= trStart r' \/ trEnd r' <= trStart r) ->
  removeFrom text cursor L = keepOutside all cursor (drop (Z.to_nat cursor) text).
Proof.
  induction L as [|r L IH]; intros cursor Hc Hin Hall HS HN HF HD; simpl.
  - symmetry. apply keepOutside_all. intros p Hp. apply covered_false. intros r Hr. apply Hall in Hr as [Hr|Hr]; [by apply not_elem_of_nil in Hr|lia].
  - inversion HS as [|? ? HS' Hle]; subst. inversion HN as [|? ? Hnin HN']; subst. inversion HF as [|? ? [Hr1 Hr2] HF']; subst.
    assert (Hafter : Forall (fun r' => trEnd r <= trStart r') L).
    { rewrite Forall_forall in Hle, HF' |- *. intros r' Hr'. specialize (Hle r' Hr'). unfold le_of, key_lt in Hle. bool_hyps.
      specialize (HF' r' Hr'). destruct (HD r r' ltac:(constructor) ltac:(by constructor)) as [->|?]; [done|lia]. }
    rewrite !(proj2 (Z.ltb_ge _ _)), (proj2 (Z.leb_gt _ _)) by lia. simpl.
    rewrite (sub_drop text cursor (trStart r)), (sub_drop text (trStart r) (trEnd r)) by lia.
    rewrite !keepOutside_app, !slen_sub by lia.
    replace (cursor + (trStart r - cursor) + (trEnd r - trStart r)) with (trEnd r) by lia.
    replace (cursor + (trStart r - cursor)) with (trStart r) by lia.
    rewrite (keepOutside_all all (sub text cursor (trStart r))).
    2:{ rewrite slen_sub by lia. intros p Hp. apply covered_false. intros r' Hr'. apply Hall in Hr' as [[->|Hr']%elem_of_cons|Hr']; [lia| |lia].
        rewrite Forall_forall in Hafter. specialize (Hafter r' Hr'). lia. }
    rewrite (keepOutside_none all (sub text (trStart r) (trEnd r))).
    2:{ rewrite slen_sub by lia. intros p Hp. apply (covered_true all p r); [|lia]. apply Hin. constructor. }
    simpl. f_equal. apply IH; try done; [lia| | | |].
    + intros r' Hr'. apply Hin. by constructor.
    + intros r' Hr'. apply Hall in Hr' as [[->|?]%elem_of_cons|?]; [right; lia|by left|right; lia].
    + rewrite Forall_forall in HF', Hafter |- *. intros r' Hr'. specialize (HF' r' Hr'). specialize (Hafter r' Hr'). lia.
    + intros r1 r2 H1 H2. apply HD; by constructor.
Qed.
Definition disjoint (ranges : list textRange) : Prop :=
  NoDup ranges /\ forall r r', r ∈ ranges -> r' ∈ ranges -> r = r' \/ trEnd r <= trStart r' \/ trEnd r' <= trStart r.

(** removing disjoint ranges of the text, in any order they were found in,
    gives exactly the bytes outside them: [removeTextRanges] is the filter of
    the text by position. *)
Theorem removal_is_a_filter text ranges :
  disjoint ranges -> Forall (fun r => 0 <= trStart r < trEnd r /\ trEnd r <= slen text) ranges ->
  removeTextRanges text ranges = keepOutside ranges 0 text.
Proof.
  intros [HN HD] HF. unfold removeTextRanges. case_bool_decide as Hl.
  { destruct ranges; [|done]. symmetry. by apply keepOutside_all. }
  assert (HP := stable_sort_perm (key_lt trStart) ranges).
  rewrite (removeFrom_filter text ranges).
  - done.
  - pose proof (slen_nonneg text). lia.
  - intros r. by rewrite HP.
  - intros r Hr. left. by rewrite HP.
  - apply stable_sort_sorted; [apply key_lt_asym|apply key_le_trans].
  - by rewrite HP.
  - by rewrite HP.
  - intros r r' Hr Hr'. rewrite HP in Hr, Hr'. by apply HD.
Qed.

(** ** Reading a message *)
Section invocation.
Context {U : Unicode}.

Lemma argumentRemovals_spec text aliases toks : forall removals a,
  Forall (fun r => r ∈ removals \/ exists t v, t ∈ toks /\ argumentRemoval text aliases t = Some (r, v))
    (argumentRemovals text aliases removals a toks).1.
Proof using Type.
  induction toks as [|t toks IH]; intros removals a; simpl; [by apply Forall_forall; left|].
  destruct (argumentRemoval text aliases t) as [[r v]|] eqn:E;
    (eapply Forall_impl; [apply IH|]); intros r' [Hr' | (t' & v' & Ht' & Hr')]; try (right; exists t', v'; split; [by constructor|done]).
  - apply elem_of_app in Hr' as [?|Hr']; [by left|]. apply list_elem_of_singleton in Hr' as ->. right. exists t, v. split; [constructor|done].
  - by left.
Qed.
Lemma readHead_range aliases head a selector removals a' : readHead aliases head a = Ok (selector, removals, a') ->
  Forall (fun r => trEnd r = tkEnd head) removals.
Proof using Type.
  unfold readHead. destruct (cutAt _) as [[before after]|]; [case_if; [done|]|]; intros [= <- <- <-]; by repeat constructor.
Qed.

(** The steps of a message that was read. *)
Lemma readCommand_inv input raw text a inv : readCommand input raw text a = Ok inv -> exists head arguments selector removals0 a0,
  lexInvocationTokens text = head :: arguments /\ has_prefix (tkValue head) (lit "/") = true /\
  readHead (iiBotAliases input) head a = Ok (selector, removals0, a0) /\ selector <> [] /\
  let '(removals, a') := argumentRemovals text (iiBotAliases input) removals0 a0 arguments in
  let text' := trim_space (removeTextRanges text removals) in
  Parse text' = Ok (ivParsed inv) /\
  inv = mkInvocation raw text' selector (restOf text') (ivParsed inv) (iiDirected input || adAddressed a') (adAddressed a') (adAddressing a').
Proof using Type.
  unfold readCommand. destruct (lexInvocationTokens text) as [|head arguments] eqn:E; [done|]. case_if; [done|].
  destruct (readHead _ head a) as [[[selector removals0] a0]|] eqn:Eh; cbn [rbind]; [|done]. case_if; [done|].
  destruct (argumentRemovals _ _ _ _ _) as [removals a'] eqn:Ea. destruct (Parse _) as [parsed|] eqn:Ep; simpl; [|done].
  intros [= <-]. str_hyps. exists head, arguments, selector, removals0, a0. rewrite Ea. by split_and!.
Qed.
Lemma ParseInvocation_inv input inv : ParseInvocation input = Ok inv -> exists token first a,
  findCommand (iiBotAliases input) true noAddress (lexInvocationTokens (trim_space (iiText input))) = Ok (token, first, a) /\
  (first = false -> adAddressed a = true) /\
  readCommand input (trim_space (iiText input)) (trim_space (drop (Z.to_nat (tkStart token)) (trim_space (iiText input)))) a = Ok inv.
Proof using Type.
  unfold ParseInvocation. case_if; [done|]. destruct (findCommand _ _ _ _) as [[[token first] a]|] eqn:E; simpl; [|done].
  case_if; [done|]. intros H. exists token, first, a. split_and!; [done| |done]. intros ->. by destruct (adAddressed a).
Qed.

(** An argument without an at sign loses nothing. *)
Lemma lastAt_None value : at_sign ∉ value -> lastAt value = None.
Proof using Type.
  intros H. unfold lastAt. destruct (find_last _ value) as [i|] eqn:E; [|done]. apply find_last_Some in E as (x & Hx & Hp).
  apply Ascii.eqb_eq in Hp as <-. by apply list_elem_of_lookup_2 in Hx.
Qed.
Lemma mention_has_at value : isMentionToken value = true -> at_sign ∈ value.
Proof using Type.
  unfold isMentionToken. assert (Hin : forall c, c ∈ trim_space value -> c ∈ value).
  { intros c Hc. rewrite trim_space_units in Hc. unfold trim_units in Hc.
    destruct (drop_while_split space_unit (decode value)) as (k & Hk & _).
    destruct (drop_while_end_split space_unit (drop_while space_unit (decode value))) as (k' & Hk' & _).
    rewrite <- (undecode_decode value), Hk, Hk', !undecode_app. set_solver. }
  destruct (has_prefix (trim_space value) mentionOpen) eqn:E1.
  - intros _. apply Hin. apply has_prefix_spec in E1 as [r ->]. apply elem_of_app. left. apply list_elem_of_further, list_elem_of_here.
  - destruct (has_prefix (trim_space value) (lit "@")) eqn:E2; simpl; [|done]. intros _. apply Hin.
    apply has_prefix_spec in E2 as [r ->]. apply elem_of_app. left. constructor.
Qed.
Lemma plain_argument text aliases q : tkQuoted q = true \/ at_sign ∉ tkValue q -> argumentRemoval text aliases q = None.
Proof using Type.
  unfold argumentRemoval. destruct (tkQuoted q); [done|]. intros [?|H]; [done|]. rewrite lastAt_None by done.
  destruct (isMentionToken (tkValue q)) eqn:E; [|done]. by apply mention_has_at in E.
Qed.

(** C27: quoted mentions are data. Whatever the names of the bot, an argument
    that is quoted, or that has no at sign, is in the command that is run,
    byte for byte as the message has it. *)
Theorem quoted_arguments_survive input inv : ParseInvocation input = Ok inv -> exists text removals,
  (exists k, text = trim_space (drop k (ivRawText inv))) /\
  ivCommandText inv = trim_space (removeTextRanges text removals) /\
  forall q, q ∈ tail (lexInvocationTokens text) -> tkQuoted q = true \/ at_sign ∉ tkValue q ->
    exists before after, removeTextRanges text removals = before ++ sub text (tkStart q) (tkEnd q) ++ after.
Proof using Type.
  intros H. apply ParseInvocation_inv in H as (token & first & a & _ & _ & H).
  apply readCommand_inv in H as (head & arguments & selector & removals0 & a0 & El & _ & Eh & _ & H).
  set (text := trim_space (drop _ _)) in *. pose proof (argumentRemovals_spec text (iiBotAliases input) arguments removals0 a0) as HF.
  destruct (argumentRemovals _ _ _ _ _) as [removals a']. destruct H as [_ ->]. simpl in *. exists text, removals.
  split_and!; [by eexists|done|]. intros q Hq Hp. rewrite El in Hq. simpl in Hq.
  pose proof (plain_argument text (iiBotAliases input) q Hp) as Hn.
  apply list_elem_of_split in Hq as (l1 & l2 & Earg). assert (El' : lexInvocationTokens text = (head :: l1) ++ q :: l2) by (by rewrite El, Earg).
  pose proof (token_within _ _ _ _ El'). apply removeTextRanges_keeps; [lia..|]. eapply Forall_impl; [exact HF|].
  intros r [Hr|(t & v & Ht & Hr)].
  - apply readHead_range in Eh. rewrite Forall_forall in Eh. specialize (Eh r Hr). left.
    pose proof (tokens_ordered text [] head l1 q l2 El'). lia.
  - apply (removal_apart text (iiBotAliases input) t q r v); [|by rewrite El'; set_solver|done|done].
    rewrite El. by constructor.
Qed.
End invocation.

(** ** Tokens and quotes *)
(** A piece of text that [Tokenize] reads as one token. *)
Definition plain (c : ascii) : Prop := c <> dquote /\ c <> squote /\ c <> " "%char /\ c <> tab.
Inductive renders : str -> str -> Prop :=
  | renders_bare t : t <> [] -> Forall plain t -> renders t t
  | renders_quoted t : t <> [] -> dquote ∉ t -> renders (dquote :: t ++ [dquote]) t.

Lemma tokenize_bare t : forall tokens current input, Forall plain t ->
  tokenizeFrom tokens current None (t ++ input) = tokenizeFrom tokens (current ++ t) None input.
Proof.
  induction t as [|c t IH]; intros tokens current input Hp; simpl; [by rewrite app_nil_r|].
  inversion Hp as [|? ? (H1 & H2 & H3 & H4) Hp']; subst.
  rewrite !(proj2 (Ascii.eqb_neq _ _)) by done. simpl. rewrite IH by done. by rewrite <- app_assoc.
Qed.
Lemma tokenize_quoted_text t : forall tokens current input, dquote ∉ t ->
  tokenizeFrom tokens current (Some dquote) (t ++ dquote :: input) = tokenizeFrom tokens (current ++ t) None input.
Proof.
  induction t as [|c t IH]; intros tokens current input Hp; simpl; [by rewrite app_nil_r|].
  apply not_elem_of_cons in Hp as [Hc Hp]. rewrite (proj2 (Ascii.eqb_neq c dquote)) by done. rewrite IH by done. by rewrite <- app_assoc.
Qed.
Lemma tokenize_piece p t tokens input : renders p t -> tokenizeFrom tokens [] None (p ++ input) = tokenizeFrom tokens t None input.
Proof. intros [u Hu Hp|u Hu Hp]; simpl; [by rewrite tokenize_bare|]. rewrite <- app_assoc. simpl. by rewrite tokenize_quoted_text. Qed.
Lemma renders_nonempty p t : renders p t -> t <> [].
Proof. by intros []. Qed.
Lemma tokenize_end tokens t : t <> [] -> tokenizeFrom tokens t None [] = tokens ++ [t].
Proof. by destruct t. Qed.
Lemma tokenize_space tokens t input : t <> [] -> tokenizeFrom tokens t None (" "%char :: input) = tokenizeFrom (tokens ++ [t]) [] None input.
Proof. by destruct t. Qed.
Lemma tokenize_pieces ps ts : Forall2 renders ps ts -> forall tokens, tokenizeFrom tokens [] None (join (lit " ") ps) = tokens ++ ts.
Proof.
  induction 1 as [|p t ps ts Hr HF IH]; intros tokens; [by rewrite app_nil_r|].
  pose proof (renders_nonempty _ _ Hr). destruct HF as [|p' t' ps' ts' Hr' HF].
  - change (join (lit " ") [p]) with p. rewrite <- (app_nil_r p), (tokenize_piece p t) by done. by apply tokenize_end.
  - rewrite join_cons by done. rewrite (tokenize_piece p t) by done. change (lit " " ++ ?x) with (" "%char :: x).
    rewrite tokenize_space by done. rewrite IH. by rewrite <- app_assoc.
Qed.

(** ** Flags *)
Definition flagName (t : str) : bool := intFlag t || str_eqb t (lit "--range") || str_eqb t (lit "--id").
(** Only a value flag with nothing after it can stay. *)
Fixpoint swept (l : list str) : Prop :=
  match l with [] => True | [t] => intFlag t = false | t :: l => flagName t = false /\ swept l end.
Definition in_bounds (f : parsedFlags) : Prop := 0 <= pfPage f /\ -1 <= pfProv f.
Lemma setIntFlag_bounds t v f : in_bounds f -> in_bounds (setIntFlag t v f).
Proof.
  unfold in_bounds, setIntFlag. intros [? ?]. destruct (Atoi v); [|done]. case_if; [done|]. bool_hyps. case_if; simpl; lia.
Qed.
Lemma swept_cons t l : flagName t = false -> swept l -> swept (t :: l).
Proof. intros Ht Hl. simpl. destruct l; [|done]. unfold flagName in Ht. by bool_hyps. Qed.
Lemma extractFrom_step out flags t v rest : extractFrom out flags (t :: v :: rest) =
  if str_eqb t (lit "--range") then extractFrom out (mkFlags (pfPage flags) (pfProv flags) v (pfSelectID flags)) rest
  else if str_eqb t (lit "--id") then extractFrom out (mkFlags (pfPage flags) (pfProv flags) (pfRangeKey flags) v) rest
  else if intFlag t then
    if has_prefix v (lit "--") then extractFrom out flags (v :: rest) else extractFrom out (setIntFlag t v flags) rest
  else extractFrom (out ++ [t]) flags (v :: rest).
Proof. reflexivity. Qed.
Lemma extract_spec n : forall tokens out flags, (length tokens <= n)%nat -> in_bounds flags ->
  exists kept flags', extractFrom out flags tokens = (out ++ kept, flags') /\ sublist kept tokens /\ swept kept /\ in_bounds flags'.
Proof.
  induction n as [|n IH]; intros tokens out flags Hn Hb.
  { destruct tokens; [|simpl in Hn; lia]. exists [], flags. by rewrite app_nil_r. }
  destruct tokens as [|t [|v rest]]; simpl in Hn.
  - exists [], flags. by rewrite app_nil_r.
  - simpl. destruct (intFlag t) eqn:Et; [exists [], flags; rewrite app_nil_r; split_and!; [done|apply sublist_nil_l|done..]|].
    exists [t], flags. by split_and!.
  - rewrite extractFrom_step. assert (Hskip : forall f, in_bounds f -> exists kept flags', extractFrom out f rest = (out ++ kept, flags') /\
      sublist kept (t :: v :: rest) /\ swept kept /\ in_bounds flags').
    { intros f Hf. destruct (IH rest out f) as (kept & f' & -> & Hs & Hk & Hf'); [lia|done|].
      exists kept, f'. split_and!; try done. by do 2 apply sublist_cons. }
    destruct (str_eqb t (lit "--range")) eqn:E1; [by apply Hskip|].
    destruct (str_eqb t (lit "--id")) eqn:E2; [by apply Hskip|].
    destruct (intFlag t) eqn:E3.
    + case_if; [|by apply Hskip, setIntFlag_bounds].
      destruct (IH (v :: rest) out flags) as (kept & f' & -> & Hs & Hk & Hf'); [simpl; lia|done|].
      exists kept, f'. split_and!; try done. by apply sublist_cons.
    + destruct (IH (v :: rest) (out ++ [t]) flags) as (kept & f' & E & Hs & Hk & Hf'); [simpl; lia|done|].
      exists (t :: kept), f'. rewrite E, <- app_assoc. split_and!; try done; [by apply sublist_skip|].
      apply swept_cons; [|done]. unfold flagName. by rewrite E1, E2, E3.
Qed.
Lemma extract_swept l : forall out flags, swept l -> extractFrom out flags l = (out ++ l, flags).
Proof.
  induction l as [|t l IH]; intros out flags Hs; [by rewrite app_nil_r|]. destruct l as [|v l]; [simpl in *; by rewrite Hs|].
  rewrite extractFrom_step.
  destruct Hs as [Ht Hs]. unfold flagName in Ht. bool_hyps.
  rewrite H, H0, H1, IH by done. by rewrite <- app_assoc.
Qed.
Lemma swept_flag l : forall l1 t l2, swept l -> l = l1 ++ t :: l2 -> flagName t = true -> l2 = [] /\ intFlag t = false.
Proof.
  induction l as [|x l IH]; intros l1 t l2 Hs E Ht; [by destruct l1|]. destruct l1 as [|y l1]; injection E as -> E.
  - destruct l as [|v l]; [by subst|]. destruct Hs as [Hs _]. congruence.
  - destruct l as [|v l]; [by destruct l1|]. destruct Hs as [_ Hs]. by apply (IH l1 t l2).
Qed.

(** flags do not leak into the arguments. The sweep keeps arguments in
    their order and takes out every "--page" and "--prov" with its value; a
    "--range" or "--id" stays only as the very last word, where it has no
    value; a second sweep finds nothing; and whatever numbers were written,
    the page is never negative and the provider never below -1. *)
Theorem flags_leave_the_arguments tokens : exists out flags, extractFlags tokens = (out, flags) /\
  sublist out tokens /\ extractFlags out = (out, noFlags) /\ 0 <= pfPage flags /\ -1 <= pfProv flags /\
  forall l1 t l2, out = l1 ++ t :: l2 -> flagName t = true -> l2 = [] /\ intFlag t = false.
Proof.
  destruct (extract_spec (length tokens) tokens [] noFlags) as (out & flags & E & Hs & Hk & Hb); [done|by unfold in_bounds; simpl|].
  exists out, flags. unfold extractFlags. rewrite E, (extract_swept out [] noFlags Hk). split_and!; try done; try apply Hb.
  intros l1 t l2. by apply swept_flag.
Qed.

(** ** A plain command *)
(** A word without quotes, at signs or white space. *)
Definition word_char (c : ascii) : Prop := byte_val c < 128 /\ is_space (byte_val c) = false /\ plain c /\ c <> at_sign.
Definition word (w : str) : Prop := w <> [] /\ Forall word_char w.
Definition separated (s : str) : Prop := match s with [] => True | c :: _ => c = " "%char \/ c = tab end.

Lemma word_ascii w : Forall word_char w -> Forall (fun c => byte_val c < 128) w.
Proof. intros H. eapply Forall_impl; [exact H|]. by intros c (? & _). Qed.
Lemma word_units w : Forall word_char w -> decode w = (fun c => (byte_val c, [c])) <$> w.
Proof. intros H. by apply decode_ascii, word_ascii. Qed.
Lemma trim_word w : word w -> trim_space w = w.
Proof.
  intros [Hne Hw]. rewrite trim_space_units, (word_units _ Hw). unfold trim_units.
  assert (Hu : undecode ((fun c => (byte_val c, [c])) <$> w) = w) by (rewrite <- (word_units _ Hw); apply undecode_decode).
  rewrite drop_while_id, drop_while_end_id; [done| |].
  - destruct w as [|c w _] using rev_ind; [done|]. rewrite fmap_app. simpl. rewrite last_snoc. apply Forall_app in Hw as [_ Hw].
    inversion Hw as [|? ? (_ & Hs & _)]. exact Hs.
  - destruct w as [|c w]; [done|]. inversion Hw as [|? ? (_ & Hs & _)]. exact Hs.
Qed.
(** Trimming does not touch a leading word. *)
Lemma trim_separated w s : word w -> separated s -> exists s', trim_space (w ++ s) = w ++ s' /\ separated s'.
Proof.
  intros Hw Hs. destruct w as [|c m]; [by destruct Hw|]. destruct Hw as [Hne Hw].
  pose proof (word_ascii _ Hw) as Ha. assert (Hc : is_space (byte_val c) = false) by (by inversion Hw as [|? ? (_ & ? & _)]).
  destruct (decide (trim_space s = [])) as [E|E].
  - exists []. rewrite app_nil_r. change ((c :: m) ++ s) with (c :: m ++ s). rewrite trim_space_lead_blank by done.
    split; [|done]. by apply trim_word.
  - destruct (trim_space_app_lead m c s Ha Hc E) as [Ht Hr]. exists (trim_space_right s). split; [done|].
    destruct (drop_while_end_split space_unit (decode s)) as (k & Hk & _ & _).
    assert (Es : s = trim_space_right s ++ undecode k).
    { unfold trim_space_right. rewrite <- undecode_app, <- Hk. by rewrite undecode_decode. }
    destruct (trim_space_right s) as [|d r]; [done|]. rewrite Es in Hs. exact Hs.
Qed.

(** The lexer reads the word as its first token. *)
Lemma lex_word w : forall pos rest s, Forall word_char w -> 0 <= lxStart s -> lxQuote s = 0 ->
  lexFrom pos (((fun c => (byte_val c, [c])) <$> w) ++ rest) s =
  lexFrom (pos + slen w) rest (mkLexer (lxTokens s) (lxStart s) (lxQuoted s) 0 (lxValue s ++ w)).
Proof.
  induction w as [|c w IH]; intros pos rest s Hw H0 Hq.
  - rewrite Z.add_0_r, app_nil_r. destruct s; simpl in *. by subst.
  - inversion Hw as [|? ? (Hc & Hs & (H1 & H2 & _) & _) Hw']; subst. rewrite fmap_cons. simpl.
    assert (Hqr : quoteRune (byte_val c) = false).
    { clear -H1 H2. by destruct c as [[] [] [] [] [] [] [] []]. }
    assert (He : encode_rune (byte_val c) = [c]).
    { clear -Hc. by destruct c as [[] [] [] [] [] [] [] []]. }
    unfold lexStep at 1. rewrite Hq, Hs, Hqr, (proj2 (Z.ltb_ge _ _) H0). simpl. rewrite IH; [|done..]. unfold lexWrite. simpl.
    rewrite He, <- app_assoc. simpl. f_equal. unfold slen. simpl. lia.
Qed.
Lemma lexFrom_tokens units : forall pos s, exists toks, lexFrom pos units s = lxTokens s ++ toks.
Proof.
  induction units as [|[r b] units IH]; intros pos s; simpl.
  - unfold lexFlush. case_if; [exists []; by rewrite app_nil_r|by eexists].
  - destruct (IH (pos + slen b) (lexStep pos r s)) as [toks ->]. unfold lexStep, lexFlush, lexWrite.
    repeat case_if; simpl; rewrite <- ?app_assoc; by eexists.
Qed.
Lemma lex_first w s : word w -> separated s -> exists toks, lexInvocationTokens (w ++ s) = mkToken 0 (slen w) w false :: toks.
Proof.
  intros [Hne Hw] Hs. unfold lexInvocationTokens.
  assert (Hd : decode (w ++ s) = ((fun c => (byte_val c, [c])) <$> w) ++ decode s).
  { rewrite <- (word_units _ Hw). apply decode_app_ascii. destruct s as [|c s]; [done|]. by destruct Hs; subst. }
  rewrite Hd. destruct w as [|c w]; [done|]. inversion Hw as [|? ? (Hc & Hsp & (H1 & H2 & _) & _) Hw']; subst.
  rewrite fmap_cons. simpl. unfold lexStep. simpl. rewrite Hsp.
  assert (Hqr : quoteRune (byte_val c) = false) by (clear -H1 H2; by destruct c as [[] [] [] [] [] [] [] []]).
  assert (He : encode_rune (byte_val c) = [c]) by (clear -Hc; by destruct c as [[] [] [] [] [] [] [] []]).
  rewrite Hqr. unfold lexWrite. simpl. rewrite He. rewrite lex_word by done. simpl.
  replace (0 + slen [c] + slen w) with (slen (c :: w)) by (unfold slen; simpl; lia).
  destruct s as [|d s]; [by exists []|].
  assert (Hdec : exists u, decode (d :: s) = (byte_val d, [d]) :: u /\ is_space (byte_val d) = true).
  { destruct Hs as [-> | ->]; (eexists; split; reflexivity). }
  destruct Hdec as (u & -> & Hds). simpl. unfold lexStep. simpl. rewrite Hds.
  match goal with |- context [lexFrom ?p u ?st] => destruct (lexFrom_tokens u p st) as [toks ->] end. simpl. by exists toks.
Qed.

(** Ranges that start after the head, or go from its end to the end. *)
Lemma remove_at_end text ranges : removeFrom text (slen text) ranges = [].
Proof.
  induction ranges as [|r ranges IH]; simpl; [apply drop_ge; unfold slen; lia|]. case_if; [done|]. bool_hyps. lia.
Qed.
Lemma remove_after w s ranges : forall cursor, 0 <= cursor <= slen w -> separated s ->
  Forall (fun r => slen w < trStart r \/ trStart r = slen w /\ trEnd r = slen (w ++ s)) ranges ->
  exists s', removeFrom (w ++ s) cursor ranges = sub w cursor (slen w) ++ s' /\ separated s'.
Proof.
  intros cursor Hc Hs HF. revert cursor Hc.
  assert (Hsub : forall a, 0 <= a <= slen w -> sub (w ++ s) a (slen w) = sub w a (slen w)).
  { intros a Ha. unfold sub, slen in *. rewrite drop_app_le by lia. rewrite take_app_le; [done|]. rewrite length_drop. lia. }
  assert (Hdrop : drop (Z.to_nat (slen w)) (w ++ s) = s) by (unfold slen; rewrite Nat2Z.id; apply drop_app_length).
  induction HF as [|r ranges Hr HF IH]; intros cursor Hc; simpl.
  - exists s. split; [|done]. rewrite (sub_drop _ cursor (slen w)) by lia. by rewrite Hsub, Hdrop.
  - case_if; [by apply IH|]. bool_hyps. destruct Hr as [Hr|[Hr1 Hr2]].
    + exists (sub (w ++ s) (slen w) (trStart r) ++ removeFrom (w ++ s) (trEnd r) ranges).
      rewrite (sub_split (w ++ s) cursor (slen w) (trStart r)) by lia. rewrite Hsub, <- app_assoc by lia. split; [done|].
      unfold sub. rewrite Hdrop. destruct s as [|c s]; [rewrite app_nil_r in *; lia|].
      destruct (Z.to_nat (trStart r - slen w)) eqn:En; [lia|]. exact Hs.
    + exists []. rewrite Hr1, Hr2, remove_at_end, Hsub by lia. done.
Qed.

Section plain_command.
Context {U : Unicode}.
(** An argument starts after the white space that ends the head. *)
Lemma argument_start w s toks t : lexInvocationTokens (w ++ s) = mkToken 0 (slen w) w false :: toks -> t ∈ toks -> slen w < tkStart t.
Proof using Type.
  intros E Ht. pose proof (lexed (w ++ s)) as HL. rewrite E in HL. inversion HL as [|? gap body rest ? ? _ _ _ _ Hw HL']; subst.
  match goal with H : _ ++ _ = decode _ |- _ => rename H into Hd end.
  simpl in HL'. apply list_elem_of_split in Ht as (b & c & ->). destruct b as [|t' b].
  - inversion HL' as [|? gap2 body2 rest2 ? ? Hg2 (Hst & _) Hs2 _ _ _]; subst. destruct gap2 as [|[r x] gap2].
    + destruct Hst as (q & Hq & Hsp). destruct body2 as [|q' body2]; [done|]. injection Hq as ->. simpl in Hw. congruence.
    + rewrite ulen_cons in Hs2. pose proof (ulen_nonneg gap2).
      assert ((r, x) ∈ decode (w ++ s)) as Hin by (rewrite <- Hd; set_solver). apply unit_nonempty in Hin. simpl in Hin. lia.
  - pose proof (Lexed_start _ _ [] t' (b ++ t :: c) HL') as H1.
    pose proof (tokens_ordered (w ++ s) [mkToken 0 (slen w) w false] t' b t c E) as H2.
    pose proof (token_within (w ++ s) [mkToken 0 (slen w) w false] t' (b ++ t :: c) E) as H3. lia.
Qed.
Lemma arguments_after w s aliases toks r t v :
  lexInvocationTokens (w ++ s) = mkToken 0 (slen w) w false :: toks -> t ∈ toks ->
  argumentRemoval (w ++ s) aliases t = Some (r, v) ->
  slen w < trStart r \/ trStart r = slen w /\ trEnd r = slen (w ++ s).
Proof using Type.
  intros E Ht Hr. pose proof (argument_start w s toks) as Hgap. pose proof (Hgap t E Ht) as Hst.
  apply list_elem_of_split in Ht as (l1 & l2 & ->).
  set (hd := mkToken 0 (slen w) w false) in *. assert (E' : lexInvocationTokens (w ++ s) = (hd :: l1) ++ t :: l2) by done.
  unfold argumentRemoval in Hr. destruct (tkQuoted t); [done|]. destruct (isMentionToken _ && _).
  - injection Hr as <- <-. rewrite (mention_range_at _ _ _ _ E'). case_bool_decide; [|left; done]. simpl. rewrite last_end_cons.
    destruct l1 as [|t' l1 _] using rev_ind; [by right|]. left. unfold last_end. rewrite last_snoc.
    pose proof (Hgap t' E ltac:(set_solver)). rewrite <- app_assoc, app_comm_cons in E. pose proof (token_within _ _ _ _ E). lia.
  - destruct (lastAt _) as [i|]; simpl in Hr; [|done]. case_if; [|done]. injection Hr as <- <-. simpl. bool_hyps. lia.
Qed.

Lemma tokenizeFrom_app input : forall tokens current quote,
  tokenizeFrom tokens current quote input = tokens ++ tokenizeFrom [] current quote input.
Proof using Type.
  induction input as [|c input IH]; intros tokens current quote; simpl.
  - destruct (is_empty current); [by rewrite app_nil_r|done].
  - destruct quote as [q|]; repeat case_if; try apply IH.
    rewrite IH, (IH [current]). by rewrite <- app_assoc.
Qed.
Lemma tokenize_word name s : name <> [] -> Forall word_char name -> separated s -> exists tokens, Tokenize (name ++ s) = name :: tokens.
Proof using Type.
  intros Hne Hw Hs. unfold Tokenize. rewrite tokenize_bare by (eapply Forall_impl; [exact Hw|]; by intros c (_ & _ & ? & _)).
  simpl. destruct s as [|d s]; [exists []; by rewrite tokenize_end|]. destruct name as [|c name]; [done|].
  destruct Hs as [-> | ->]; simpl; rewrite tokenizeFrom_app; by eexists.
Qed.
Lemma extractFrom_out tokens : forall out flags, exists kept flags', extractFrom out flags tokens = (out ++ kept, flags').
Proof using Type.
  induction tokens as [tokens IH] using (induction_ltof1 _ length). intros out flags. unfold ltof in IH.
  destruct tokens as [|t [|v rest]].
  - exists [], flags. simpl. by rewrite app_nil_r.
  - simpl. case_if; [exists [], flags; by rewrite app_nil_r|by exists [t], flags].
  - rewrite extractFrom_step. repeat case_if; try (apply IH; simpl; lia).
    destruct (IH (v :: rest) ltac:(simpl; lia) (out ++ [t]) flags) as (kept & f & ->). exists (t :: kept), f. by rewrite <- app_assoc.
Qed.
Lemma extract_head name tokens : flagName name = false -> exists kept flags, extractFlags (name :: tokens) = (name :: kept, flags).
Proof using Type.
  intros Hf. unfold flagName in Hf. bool_hyps. unfold extractFlags. destruct tokens as [|v tokens].
  - simpl. rewrite H. by exists [], noFlags.
  - rewrite extractFrom_step. rewrite H, H0, H1. destruct (extractFrom_out (v :: tokens) ([] ++ [name]) noFlags) as (kept & f & ->). by exists kept, f.
Qed.
(** Lower case keeps a word free of at signs. *)
Lemma lower_word name : Forall word_char name -> at_sign ∉ to_lower name.
Proof using Type.
  unfold to_lower, runes. intros Hw. rewrite (word_units _ Hw). induction Hw as [|c name (Hc & _ & _ & Hat) Hw IH]; [by apply not_elem_of_nil|].
  rewrite !fmap_cons. unfold encode. simpl. intros [Hin|Hin]%elem_of_app; [|by apply IH]. revert Hin.
  clear -Hc Hat. destruct c as [[] [] [] [] [] [] [] []]; try done; intros [Hin|Hin]%elem_of_cons; try done; by apply not_elem_of_nil in Hin.
Qed.
Lemma index_byte_None c s : c ∉ s -> index_byte s c = None.
Proof using Type.
  unfold index_byte, index. generalize 0. induction s as [|d s IH]; intros i Hs; simpl; [done|].
  apply not_elem_of_cons in Hs as [Hd Hs]. rewrite (proj2 (Ascii.eqb_neq _ _)) by done. simpl. by apply IH.
Qed.
Lemma resource_word name tokens : Forall word_char name -> resourceOf (name :: tokens) = to_lower name.
Proof using Type. intros Hw. unfold resourceOf, stripBotName. simpl. by rewrite index_byte_None by by apply lower_word. Qed.
Lemma Parse_word name s : word (slash :: name) -> name <> [] -> flagName name = false -> separated s -> trim_space (slash :: name ++ s) = slash :: name ++ s ->
  exists p, Parse (slash :: name ++ s) = Ok p /\ pcResource p = to_lower name.
Proof using Type.
  intros [_ Hw] Hne Hf Hs Ht. inversion Hw as [|? ? _ Hw']; subst. unfold Parse. rewrite Ht.
  rewrite (has_prefix_app (lit "/") (name ++ s) : has_prefix (slash :: name ++ s) _ = true). simpl. rewrite drop_0.
  destruct (tokenize_word name s Hne Hw' Hs) as [tokens ->]. simpl.
  destruct (shouldExtractGlobalFlags _ _).
  - destruct (extract_head name tokens Hf) as (kept & flags & ->). simpl. eexists. split; [done|]. simpl. by apply resource_word.
  - simpl. eexists. split; [done|]. simpl. by apply resource_word.
Qed.

Lemma argumentRemovals_rest w s aliases toks : lexInvocationTokens (w ++ s) = mkToken 0 (slen w) w false :: toks -> separated s ->
  exists s', removeTextRanges (w ++ s) (argumentRemovals (w ++ s) aliases [] noAddress toks).1 = w ++ s' /\ separated s'.
Proof using Type.
  intros Hl Hs. unfold removeTextRanges. case_bool_decide; [by exists s|].
  destruct (remove_after w s (stable_sort (key_lt trStart) (argumentRemovals (w ++ s) aliases [] noAddress toks).1) 0) as (s' & E & Hs').
  - pose proof (slen_nonneg w). lia.
  - done.
  - rewrite stable_sort_perm. eapply Forall_impl; [apply argumentRemovals_spec|].
    intros r [Hr|(t & v & Ht & Hr)]; [by apply not_elem_of_nil in Hr|by apply (arguments_after w s aliases toks r t v)].
  - exists s'. rewrite E. split; [|done]. f_equal. unfold sub, slen. rewrite Z.sub_0_r, Nat2Z.id. simpl. by rewrite firstn_all.
Qed.

Lemma read_plain_command name s aliases directed :
  word (slash :: name) -> name <> [] -> flagName name = false -> separated s ->
  exists inv rest, ParseInvocation (mkInput (slash :: name ++ s) aliases directed) = Ok inv /\
    ivSelector inv = name /\ pcResource (ivParsed inv) = to_lower name /\
    ivCommandText inv = slash :: name ++ rest /\ separated rest.
Proof using Type.
  intros Hw Hne Hf Hs. destruct (trim_separated _ s Hw Hs) as (s1 & Ht & Hs1).
  pose proof (trim_space_idem ((slash :: name) ++ s)) as Hti. rewrite Ht in Hti.
  destruct (lex_first _ s1 Hw Hs1) as [toks Hl]. unfold ParseInvocation. simpl iiText. change (slash :: name ++ s) with ((slash :: name) ++ s).
  rewrite Ht, Hl. simpl is_empty. unfold findCommand. simpl tkValue.
  assert (Hp : has_prefix (slash :: name) (lit "/") = true) by apply (has_prefix_app (lit "/") name). rewrite Hp. simpl.
  change (slash :: name ++ s1) with ((slash :: name) ++ s1). rewrite Hti.
  unfold readCommand. rewrite Hl. simpl tkValue. rewrite Hp. simpl negb. cbv iota.
  assert (Hat : at_sign ∉ name).
  { destruct Hw as [_ Hw]. inversion Hw as [|? ? _ Hw']; subst. rewrite Forall_forall in Hw'. intros Hin. by destruct (Hw' _ Hin) as (_ & _ & _ & ?). }
  unfold readHead, cutAt. simpl tkValue. change (trim_prefix (slash :: name) (lit "/")) with (trim_prefix (lit "/" ++ name) (lit "/")).
  unfold trim_prefix. rewrite (proj2 (cut_prefix_Some _ _ name) eq_refl). simpl default.
  rewrite (index_byte_None at_sign name Hat). cbv beta iota delta [rbind mbind option_bind]. rewrite (proj2 (is_empty_false name) Hne). simpl iiBotAliases.
  destruct (argumentRemovals_rest (slash :: name) s1 aliases toks Hl Hs1) as (s2 & Hr & Hs2).
  destruct (argumentRemovals _ _ _ _ _) as [removals a']. simpl fst in Hr.
  change (removeTextRanges _ removals) with (removeTextRanges ((slash :: name) ++ s1) removals). rewrite Hr.
  destruct (trim_separated _ s2 Hw Hs2) as (s3 & Ht3 & Hs3). pose proof (trim_space_idem ((slash :: name) ++ s2)) as Hti3.
  rewrite Ht3 in Hti3 |- *. destruct (Parse_word name s3 Hw Hne Hf Hs3 Hti3) as (p & Hp3 & Hres).
  change ((slash :: name) ++ s3) with (slash :: name ++ s3). rewrite Hp3. cbn [rbind]. eexists _, s3. split; [reflexivity|]. by split_and!.
Qed.
(** C26: a plain command is read as what it says. A message that starts with a
    slash and a name - letters, digits and signs, no white space, quote or at
    sign, and not the name of a flag - with a blank, a tab or nothing after the
    name is always read, whatever mentions, quotes and flags come then: the
    selector is the name, the resource is the name in lower case, and the text
    of the command still starts with it. After a line break it is not: see
    [line_break_hides_the_command]. *)
Theorem plain_command_is_read name s aliases directed :
  word (slash :: name) -> name <> [] -> flagName name = false -> separated s ->
  exists inv rest, ParseInvocation (mkInput (slash :: name ++ s) aliases directed) = Ok inv /\
    ivSelector inv = name /\ pcResource (ivParsed inv) = to_lower name /\
    ivCommandText inv = slash :: name ++ rest /\ separated rest.
Proof using Type. apply read_plain_command. Qed.
End plain_command.

(** ** Who is addressed *)
Section addressing.
Context {U : Unicode} (aliases : list str).
(** A name of this bot, as written. *)
Definition names_bot (v : str) : Prop := exists w, (v = w \/ v = at_sign :: w) /\ aliasMatchesInvocation w aliases = true.
Definition address_ok (a : address) : Prop :=
  adAddressed a = negb (bool_decide (adAddressing a = [])) /\ Forall names_bot (adAddressing a).
Lemma addressedBy_ok v a : names_bot v -> address_ok a -> address_ok (addressedBy v a).
Proof using Type.
  intros Hv [_ Ha]. split; simpl; [|by apply Forall_app_2; [|repeat constructor]].
  rewrite bool_decide_false; [done|]. by destruct (adAddressing a).
Qed.
Lemma findCommand_ok toks : forall first a token first' a', address_ok a ->
  findCommand aliases first a toks = Ok (token, first', a') -> address_ok a'.
Proof using Type.
  induction toks as [|t toks IH]; intros first a token first' a' Ha; simpl; [done|]. case_if; [by intros [= <- <- <-]|].
  case_if; [done|]. apply IH. destruct (aliasMatchesInvocation (tkValue t) aliases) eqn:E; [|done].
  apply addressedBy_ok; [|done]. exists (tkValue t). by split; [left|].
Qed.
Lemma readHead_ok head a selector removals a' : address_ok a -> readHead aliases head a = Ok (selector, removals, a') -> address_ok a'.
Proof using Type.
  intros Ha. unfold readHead. destruct (cutAt _) as [[before after]|]; [|by intros [= <- <- <-]].
  case_if; [done|]. intros [= <- <- <-]. bool_hyps. apply addressedBy_ok; [|done]. exists after. by split; [right|].
Qed.
Lemma argumentRemovals_ok text toks : forall removals a, address_ok a -> address_ok (argumentRemovals text aliases removals a toks).2.
Proof using Type.
  induction toks as [|t toks IH]; intros removals a Ha; simpl; [done|].
  destruct (argumentRemoval text aliases t) as [[r v]|] eqn:E; apply IH; [|done]. apply addressedBy_ok; [|done].
  unfold argumentRemoval in E. destruct (tkQuoted t); [done|]. destruct (isMentionToken _) eqn:Em; simpl in E.
  - destruct (aliasMatchesInvocation (tkValue t) aliases) eqn:Ea; [injection E as _ <-; exists (tkValue t); by split; [left|]|].
    destruct (lastAt _) as [i|]; simpl in E; [|done]. case_if; [|done]. injection E as _ <-. bool_hyps. eexists. split; [by right|done].
  - destruct (lastAt _) as [i|]; simpl in E; [|done]. case_if; [|done]. injection E as _ <-. bool_hyps. eexists. split; [by right|done].
Qed.
End addressing.

Lemma invocation_address `{Unicode} input inv : ParseInvocation input = Ok inv ->
  ivAddressed inv = negb (bool_decide (ivAddressing inv = [])) /\
  ivDirected inv = iiDirected input || ivAddressed inv /\
  Forall (names_bot (iiBotAliases input)) (ivAddressing inv).
Proof.
  intros H1. apply ParseInvocation_inv in H1 as (token & first & a & Hf & _ & H1).
  apply readCommand_inv in H1 as (head & arguments & selector & removals0 & a0 & _ & _ & Eh & _ & H1).
  set (text := trim_space _) in H1.
  assert (Ha : address_ok (iiBotAliases input) a) by (by eapply findCommand_ok; [|exact Hf]).
  apply (readHead_ok _ _ _ _ _ _ Ha) in Eh.
  pose proof (argumentRemovals_ok (iiBotAliases input) text arguments removals0 a0 Eh) as Ho.
  destruct (argumentRemovals _ _ _ _ _) as [removals a']. destruct H1 as [_ ->]. destruct Ho as [Ho HF]. by split_and!.
Qed.
(** a message addresses the bot exactly when it contains one of the bot's
    own names, and every name it is said to be addressed by is one: mentions
    of others never count. A message that is not for the bot is directed only
    when the channel says so. *)
Theorem only_this_bot_is_addressed `{Unicode} input inv : ParseInvocation input = Ok inv ->
  ivAddressed inv = negb (bool_decide (ivAddressing inv = [])) /\
  ivDirected inv = iiDirected input || ivAddressed inv /\
  Forall (names_bot (iiBotAliases input)) (ivAddressing inv).
Proof. apply invocation_address. Qed.

(** ** Concrete messages *)
Definition bot_message (text : string) : InvocationInput := mkInput (lit text) [lit "bot"] false.
Definition read_text (r : result SyntaxError Invocation) : option (str * str) :=
  match r with Ok inv => Some (ivCommandText inv, ivSelector inv) | Err _ => None end.

Lemma removal_is_a_filter_witness :
  removeTextRanges (lit "/a @b c") [mkRange 5 6; mkRange 2 5] = keepOutside [mkRange 5 6; mkRange 2 5] 0 (lit "/a @b c").
Proof.
  apply removal_is_a_filter.
  - split.
    + apply NoDup_cons. split; [|apply NoDup_singleton]. intros E. apply list_elem_of_singleton in E. congruence.
    + intros r r' [-> | ->%list_elem_of_singleton]%elem_of_cons [-> | ->%list_elem_of_singleton]%elem_of_cons; simpl; auto; right; lia.
  - repeat constructor; simpl; unfold slen; simpl; lia.
Defined.
Definition quoted_message : InvocationInput := bot_message "/a 'x @bot' @bot".
Definition quoted_read : Invocation := Eval vm_compute in
  match ParseInvocation (U := ascii_unicode) quoted_message with Ok inv => inv | Err _ => mkInvocation [] [] [] [] (mkParsed [] [] [] 0 0 [] []) false false [] end.
Lemma quoted_arguments_survive_witness : exists text removals,
  (exists k, text = trim_space (drop k (ivRawText quoted_read))) /\
  ivCommandText quoted_read = trim_space (removeTextRanges text removals) /\
  forall q, q ∈ tail (lexInvocationTokens text) -> tkQuoted q = true \/ at_sign ∉ tkValue q ->
    exists before after, removeTextRanges text removals = before ++ sub text (tkStart q) (tkEnd q) ++ after.
Proof. apply (quoted_arguments_survive (U := ascii_unicode) quoted_message). vm_compute. reflexivity. Defined.
Lemma only_this_bot_is_addressed_witness : ivAddressing quoted_read = [lit "@bot"] /\
  ivAddressed quoted_read = negb (bool_decide (ivAddressing quoted_read = [])).
Proof.
  split; [reflexivity|]. apply (@only_this_bot_is_addressed ascii_unicode quoted_message quoted_read). vm_compute. reflexivity.
Defined.
Lemma plain_command_is_read_witness : exists inv rest,
  ParseInvocation (U := ascii_unicode) (mkInput (lit "/New chat @bot") [lit "bot"] false) = Ok inv /\
  ivSelector inv = lit "New" /\ pcResource (ivParsed inv) = to_lower (U := ascii_unicode) (lit "New") /\
  ivCommandText inv = slash :: lit "New" ++ rest /\ separated rest.
Proof.
  apply (plain_command_is_read (U := ascii_unicode) (lit "New") (lit " chat @bot")); [|done|reflexivity|by left].
  split; [done|]. repeat (constructor; [unfold word_char, plain; repeat split; (done || lia)|]). constructor.
Defined.

(** of two mentions at the end the second stays. The range of the last
    mention reaches back over the blank that the range of the one before it
    already took, so that the two overlap and [removeTextRanges] skips the
    last: the bot's own name is left behind as the action of the command. *)
Theorem second_trailing_mention_stays :
  read_text (ParseInvocation (U := ascii_unicode) (bot_message "/new @bot @bot")) = Some (lit "/new @bot", lit "new") /\
  read_text (ParseInvocation (U := ascii_unicode) (bot_message "/new @bot x @bot")) = Some (lit "/new x", lit "new").
Proof. by vm_compute. Qed.
(** a suffix behind a quoted head cuts the name. The at sign is looked up
    in the unquoted value and its offset applied to the quoted text, so that the
    selector and the command that runs differ. *)
Theorem quoted_head_is_cut_short :
  match ParseInvocation (U := ascii_unicode) (mkInput (slash :: dquote :: lit "new" ++ dquote :: lit "@bot") [lit "bot"] false) with
  | Ok inv => ivSelector inv = lit "new" /\ pcResource (ivParsed inv) = lit "ne"
  | Err _ => False
  end.
Proof. by vm_compute. Qed.
(** C0: a line break hides the command. The selector ends at any white space,
    the resource only at a blank or a tab. *)
Theorem line_break_hides_the_command :
  match ParseInvocation (U := ascii_unicode) (mkInput (lit "/new" ++ nl :: lit "hello") [] true) with
  | Ok inv => ivSelector inv = lit "new" /\ pcResource (ivParsed inv) = lit "new" ++ nl :: lit "hello"
  | Err _ => False
  end.
Proof. by vm_compute. Qed.
