(* ===== verification/Slash.v ===== *)
(** * Deciding what a slash message is

    [internal/slash]: [classifier.go] sorts a message of a channel or of the
    web composer into chat, command, skill activation or refusal;
    [metadata.go] refuses client metadata with the reserved skill keys. *)
From S2P Require Import Prelude GoStr GoTrim CommandSyntax CommandSyntaxCorrect.
#[local] Open Scope Z_scope.

(** ** classifier.go *)
Inductive Surface : Type := SurfaceChannel | SurfaceWebWS.
Inductive DecisionKind : Type :=
  | DecisionNormalChat | DecisionRejectNoop | DecisionCommandAction | DecisionUnsupportedCommand
  | DecisionSkillIntent | DecisionUnknownSlash | DecisionReject.
(** The catalog codes the classifier and the metadata check answer with. *)
Inductive SlashCode : Type :=
  | NoCode | CodeUnknownSlash | CodeUnsupportedWebCommand | CodeInvalidSkillSlashSyntax
  | CodeSlashAttachmentsUnsupported | CodeReservedSkillMetadata.
#[export] Instance Surface_eq : EqDecision Surface.
Proof. solve_decision. Defined.
#[export] Instance DecisionKind_eq : EqDecision DecisionKind.
Proof. solve_decision. Defined.
Record Command : Type := mkCommand { cmResource : str; cmAction : str; cmRaw : str }.
Record SkillIntent : Type := mkSkillIntent { siNames : list str; siPrompt : str }.
Record SlashDecision : Type := mkDecision {
  sdKind : DecisionKind; sdCode : SlashCode; sdDirected : bool; sdCommand : option Command;
  sdSkillIntent : option SkillIntent; sdInvocation : option Invocation;
}.
Record ClassifyInput : Type := mkClassify {
  ciText : str; ciHasAttachments : bool; ciSurface : Surface; ciIsGroup : bool; ciDirected : bool;
  ciBotAliases : list str; ciKnownCommand : option (str -> bool); ciWebActionSupported : option (str -> str -> bool);
}.

Definition isKnown (fn : option (str -> bool)) (resource : str) : bool := match fn with Some fn => fn resource | None => false end.
Definition isRemovedModeCommand (resource : str) : bool :=
  bool_decide (resource ∈ [lit "now"; lit "btw"; lit "next"; lit "followup"]).
Definition letter (c : ascii) : bool := in_range 97 122 (byte_val c) || in_range 65 90 (byte_val c).
Definition digit (c : ascii) : bool := in_range 48 57 (byte_val c).
Fixpoint commandChars (first : bool) (name : str) : bool :=
  match name with
  | [] => true
  | c :: name => (letter c || negb first && (digit c || Ascii.eqb c "_"%char || Ascii.eqb c "-"%char)) && commandChars false name
  end.
Definition isCommandName (name : str) : bool := negb (is_empty name || (32 <? slen name)) && commandChars true name.
Definition selectorChar (c : ascii) : bool :=
  letter c || digit c || Ascii.eqb c "-"%char || Ascii.eqb c "_"%char || Ascii.eqb c "."%char.
Definition isValidSkillSelector (name : str) : bool :=
  if is_empty name || str_eqb name (lit ".") || str_eqb name (lit "..") then false
  else if has_prefix name (lit ".") || contains name (lit "..") then false
  else forallb selectorChar name.

Section classify.
Context {U : Unicode}.
(** The decisions about a message that was read. *)
Definition classifyInvocation (input : ClassifyInput) (invocation : Invocation) : SlashDecision :=
  let directed := ivDirected invocation in
  let parsed := ivParsed invocation in
  let decide_ kind code command intent := mkDecision kind code directed command intent (Some invocation) in
  if bool_decide (ciSurface input = SurfaceChannel) && ciIsGroup input && negb directed then
    mkDecision DecisionRejectNoop NoCode false None None (Some invocation)
  else if str_eqb (pcResource parsed) (lit "skill") && str_eqb (pcAction parsed) (lit "use") then
    decide_ DecisionReject CodeInvalidSkillSlashSyntax None None
  else if bool_decide (ciSurface input = SurfaceChannel) && isRemovedModeCommand (pcResource parsed) then
    decide_ DecisionReject CodeUnknownSlash None None
  else if isCommandName (ivSelector invocation) && isKnown (ciKnownCommand input) (pcResource parsed) then
    let cmd := Some (mkCommand (pcResource parsed) (pcAction parsed) (ivCommandText invocation)) in
    if bool_decide (ciSurface input = SurfaceWebWS) then
      if match ciWebActionSupported input with Some fn => fn (pcResource parsed) (pcAction parsed) | None => false end
      then decide_ DecisionCommandAction NoCode cmd None
      else decide_ DecisionUnsupportedCommand CodeUnsupportedWebCommand cmd None
    else decide_ DecisionCommandAction NoCode cmd None
  else if isValidSkillSelector (ivSelector invocation) then
    if ciHasAttachments input then decide_ DecisionReject CodeSlashAttachmentsUnsupported None None
    else decide_ DecisionSkillIntent NoCode None (Some (mkSkillIntent [ivSelector invocation] (trim_space (ivRest invocation))))
  else decide_ DecisionNormalChat NoCode None None.
Definition Classify (input : ClassifyInput) : SlashDecision :=
  let text := trim_space (ciText input) in
  let chat := mkDecision DecisionNormalChat NoCode (ciDirected input) None None None in
  if is_empty text then chat
  else match ParseInvocation (mkInput text (ciBotAliases input) (ciDirected input)) with
       | Err err =>
           if bool_decide (ciSurface input = SurfaceChannel) && bool_decide (err = ErrCommandForOtherBot)
           then mkDecision DecisionRejectNoop NoCode false None None None else chat
       | Ok invocation => classifyInvocation input invocation
       end.

(** ** metadata.go *)
(** A value decoded from JSON: the kinds the check tells apart. *)
Inductive MetaValue : Type :=
  | MetaMap (entries : list (str * MetaValue))
  | MetaList (items : list MetaValue)
  | MetaMaps (items : list (list (str * MetaValue)))
  | MetaOther.
Definition metadataSeparator (r : Z) : bool := (r =? 95) || (r =? 45) || (r =? 46).
Definition normalizeMetadataKey (key : str) : str :=
  encode (List.filter (fun r => negb (metadataSeparator r)) (runes (to_lower (trim_space key)))).
Definition reservedMetadataKeys : list str :=
  normalizeMetadataKey ∘ lit <$>
    ["requested_skills"; "requestedSkills"; "model_requested_skills"; "modelRequestedSkills"; "applied_skills";
     "model_used_skills"; "model_context_skills"; "loaded_skills"; "user_message_kind"; "userMessageKind";
     "skill_activation"; "skillActivation"; "skill_activation_prompt"; "skillActivationPrompt";
     "skill_activation_skills"; "skillActivationSkills"; "audit_requested_skills"]%string.
Definition IsReservedMetadataKey (key : str) : bool := bool_decide (normalizeMetadataKey key ∈ reservedMetadataKeys).
(** [RejectReservedSkillMetadataValue]: whether the value is refused. *)
Fixpoint RejectReservedSkillMetadataValue (value : MetaValue) : bool :=
  let rejectMap := existsb (fun '(key, nested) => IsReservedMetadataKey key || RejectReservedSkillMetadataValue nested) in
  match value with
  | MetaMap entries => rejectMap entries
  | MetaList items => existsb RejectReservedSkillMetadataValue items
  | MetaMaps items => existsb rejectMap items
  | MetaOther => false
  end.
Definition RejectReservedSkillMetadataShallow (metadata : list (str * MetaValue)) : bool :=
  existsb (fun '(key, _) => IsReservedMetadataKey key) metadata.
End classify.

(** ** The decisions *)
Lemma commandChars_selector name : forall first, commandChars first name = true -> forallb selectorChar name = true.
Proof.
  induction name as [|c name IH]; intros first H; simpl in *; [done|]. apply andb_true_iff in H as [Hc Hn].
  apply andb_true_iff. split; [|by apply (IH false)]. unfold selectorChar.
  destruct (letter c), (digit c), (Ascii.eqb c "_"%char), (Ascii.eqb c "-"%char); simpl in *; try done; by rewrite ?orb_true_r in *; destruct first.
Qed.
Lemma commandChars_plain name : forall first, commandChars first name = true -> Forall word_char name /\ "."%char ∉ name.
Proof.
  induction name as [|c name IH]; intros first H; simpl in *; [split; [constructor|apply not_elem_of_nil]|].
  apply andb_true_iff in H as [Hc Hn]. destruct (IH false Hn) as [Hw Hd].
  assert (Hok : word_char c /\ c <> "."%char).
  { clear -Hc. unfold word_char, plain. destruct first, c as [[] [] [] [] [] [] [] []]; vm_compute in Hc; try discriminate Hc; repeat split; done. }
  destruct Hok as [? ?]. split; [by constructor|]. by apply not_elem_of_cons.
Qed.
Lemma isCommandName_word name : isCommandName name = true -> word (slash :: name) /\ name <> [] /\ flagName name = false /\ "."%char ∉ name.
Proof.
  unfold isCommandName. intros H. bool_hyps. destruct (commandChars_plain _ _ H0) as [Hw Hd]. destruct name as [|c name]; [done|].
  split_and!; [split; [done|]|done| |done].
  - constructor; [|done]. by unfold word_char, plain.
  - simpl in H0. apply andb_true_iff in H0 as [Hc _]. rewrite orb_false_r in Hc. unfold flagName, intFlag.
    apply orb_false_iff. split; [apply orb_false_iff; split; [apply orb_false_iff; split|]|];
      apply str_eqb_false; intros [= -> _]; by vm_compute in Hc.
Qed.
Lemma index_elem p s : forall i j, index_from p i s = Some j -> p <> [] -> exists c, head p = Some c /\ c ∈ s.
Proof.
  induction s as [|d s IH]; intros i j H Hp; simpl in H; [by destruct p|]. destruct p as [|c p]; [done|].
  destruct (has_prefix (d :: s) (c :: p)) eqn:E.
  - apply has_prefix_spec in E as [r [= -> _]]. exists c. split; [done|constructor].
  - simpl in E. rewrite E in H. destruct (IH _ _ H Hp) as (c' & Hc & Hin). exists c'. split; [done|by constructor].
Qed.

Lemma command_selector name : isCommandName name = true -> isValidSkillSelector name = true.
Proof.
  intros H. destruct (isCommandName_word _ H) as (_ & Hne & _ & Hd). unfold isCommandName in H. bool_hyps.
  unfold isValidSkillSelector. rewrite (proj2 (is_empty_false name) Hne).
  assert (Hdot : forall r, name <> "."%char :: r) by (intros r ->; apply Hd; constructor).
  rewrite !(proj2 (str_eqb_false _ _)) by apply Hdot. cbn [orb]. destruct (has_prefix name (lit ".")) eqn:E.
  { apply has_prefix_spec in E as [r E]. by destruct (Hdot r). }
  destruct (contains name (lit "..")) eqn:E2; [|by apply (commandChars_selector name true)].
  unfold contains, index in E2. apply bool_decide_eq_true in E2 as [j E2]. apply index_elem in E2 as (c & [= <-] & Hin); done.
Qed.
(** every name a command could have is also one a skill could have, so
    that a token that falls through to the model has a character neither of
    them can carry. *)
Theorem command_names_are_selectors name : isCommandName name = true -> isValidSkillSelector name = true.
Proof. apply command_selector. Qed.

Section decisions.
Context {U : Unicode}.
Lemma Classify_cases input : let d := Classify input in
  (sdInvocation d = None /\ (sdKind d = DecisionNormalChat \/ sdKind d = DecisionRejectNoop)) \/
  exists inv, ParseInvocation (mkInput (trim_space (ciText input)) (ciBotAliases input) (ciDirected input)) = Ok inv /\
    sdInvocation d = Some inv /\ d = classifyInvocation input inv.
Proof using Type.
  simpl. unfold Classify. case_if; [left; by auto|]. destruct (ParseInvocation _) as [inv|err].
  - right. exists inv. split_and!; try done. unfold classifyInvocation. by repeat case_if.
  - left. case_if; by auto.
Qed.

(** C28: in a group the bot acts only when it is meant. A group message of a
    channel that gets anything but silence or plain chat without a slash
    reading was directed at the bot by the channel, or contains one of the
    bot's own names. *)
Theorem group_commands_must_address input d : Classify input = d ->
  ciSurface input = SurfaceChannel -> ciIsGroup input = true -> sdInvocation d <> None -> sdKind d <> DecisionRejectNoop ->
  sdDirected d = true /\
  (ciDirected input = true \/ exists inv v, sdInvocation d = Some inv /\ v ∈ ivAddressing inv /\ names_bot (ciBotAliases input) v).
Proof using Type.
  intros Hd Hs Hg Hi Hk. destruct (Classify_cases input) as [[E _]|(inv & Hp & E & Ec)]; rewrite Hd in E; [done|].
  rewrite Hd in Ec. assert (Hdir : ivDirected inv = true /\ sdDirected d = ivDirected inv).
  { subst d. rewrite Ec in Hk |- *. unfold classifyInvocation in *. rewrite Hs, Hg in *. rewrite bool_decide_true in * by done.
    destruct (ivDirected inv) eqn:Ed; simpl in *; [|done]. split; [done|]. by repeat case_if. }
  destruct Hdir as [Hdir ->]. split; [done|]. apply invocation_address in Hp as (Ha & Hb & HF).
  simpl in *. destruct (ciDirected input); [by left|right]. simpl in Hb. rewrite Hdir, Ha in Hb.
  destruct (ivAddressing inv) as [|v l] eqn:Ev; [done|]. exists inv, v. rewrite Ev. split_and!; [done|constructor|by inversion HF].
Qed.

(** every decision is justified by the message. A command runs only when
    its name is known and, on the web, its action supported; a skill is
    activated only without attachments and never in place of a known command;
    a slash text reaches the model only when no command and no skill could have
    its first word; silence is for channels only; and [unknown_slash] is never
    decided at all. *)
Theorem decisions_are_justified input : let d := Classify input in
  match sdKind d with
  | DecisionCommandAction => exists inv cmd, sdInvocation d = Some inv /\ sdCommand d = Some cmd /\
      cmResource cmd = pcResource (ivParsed inv) /\ isCommandName (ivSelector inv) = true /\
      isKnown (ciKnownCommand input) (cmResource cmd) = true /\
      (ciSurface input = SurfaceWebWS -> exists fn, ciWebActionSupported input = Some fn /\ fn (cmResource cmd) (cmAction cmd) = true)
  | DecisionUnsupportedCommand => ciSurface input = SurfaceWebWS /\ sdCode d = CodeUnsupportedWebCommand
  | DecisionSkillIntent => exists inv intent, sdInvocation d = Some inv /\ sdSkillIntent d = Some intent /\
      ciHasAttachments input = false /\ siNames intent = [ivSelector inv] /\ isValidSkillSelector (ivSelector inv) = true /\
      (isCommandName (ivSelector inv) = false \/ isKnown (ciKnownCommand input) (pcResource (ivParsed inv)) = false)
  | DecisionNormalChat => forall inv, sdInvocation d = Some inv ->
      isValidSkillSelector (ivSelector inv) = false /\ isCommandName (ivSelector inv) = false
  | DecisionRejectNoop => ciSurface input = SurfaceChannel /\ sdDirected d = false
  | DecisionReject => sdCode d <> NoCode
  | DecisionUnknownSlash => False
  end.
Proof using Type.
  simpl. unfold Classify. case_if; [done|]. destruct (ParseInvocation _) as [inv|err].
  2:{ destruct (ciSurface input) eqn:Es; simpl; [case_if|]; done. }
  unfold classifyInvocation. set (s := ivSelector inv). set (p := ivParsed inv). destruct (ciSurface input) eqn:Es; simpl.
  - destruct (ciIsGroup input && negb (ivDirected inv)); [done|]. case_if; [done|]. case_if; [done|].
    destruct (isCommandName s && isKnown _ _) eqn:Ek; simpl; [bool_hyps; eexists _, _; by split_and!|].
    destruct (isValidSkillSelector s) eqn:Ev; [case_if; simpl; [done|]; eexists _, _; split_and!; try done; by apply andb_false_iff|].
    simpl. intros i [= <-]. split; [done|]. destruct (isCommandName s) eqn:Ec; [|done].
    apply command_selector in Ec. unfold s in *. congruence.
  - case_if; [done|].
    destruct (isCommandName s && isKnown _ _) eqn:Ek; simpl.
    { bool_hyps. destruct (ciWebActionSupported input) as [fn|] eqn:Ew; [|done]. destruct (fn _ _) eqn:Ef; [|done].
      simpl. eexists _, _. split_and!; try done. intros _. by exists fn. }
    destruct (isValidSkillSelector s) eqn:Ev; [case_if; simpl; [done|]; eexists _, _; split_and!; try done; by apply andb_false_iff|].
    simpl. intros i [= <-]. split; [done|]. destruct (isCommandName s) eqn:Ec; [|done].
    apply command_selector in Ec. unfold s in *. congruence.
Qed.

(** a known command of a channel is executed. A message to the bot that
    starts with a slash and a known name, followed by a blank or by nothing,
    is that command, whatever its attachments, the mentions and the flags
    after it. *)
Theorem known_command_is_executed input name s :
  ciText input = slash :: name ++ s -> isCommandName name = true -> separated s ->
  ciSurface input = SurfaceChannel -> ciIsGroup input = false \/ ciDirected input = true ->
  isKnown (ciKnownCommand input) (to_lower name) = true ->
  to_lower name <> lit "skill" -> isRemovedModeCommand (to_lower name) = false ->
  sdKind (Classify input) = DecisionCommandAction /\
  exists cmd, sdCommand (Classify input) = Some cmd /\ cmResource cmd = to_lower name.
Proof using Type.
  intros Ht Hn Hs Hc Hg Hk Hsk Hr. destruct (isCommandName_word _ Hn) as (Hw & Hne & Hf & _).
  destruct (trim_separated _ s Hw Hs) as (s1 & E1 & Hs1).
  destruct (read_plain_command name s1 (ciBotAliases input) (ciDirected input) Hw Hne Hf Hs1) as (inv & rest & Hp & Hsel & Hres & _ & _).
  unfold Classify. rewrite Ht. change (slash :: name ++ s) with ((slash :: name) ++ s). rewrite E1. cbn [is_empty app].
  cbn [app] in Hp. rewrite Hp. apply invocation_address in Hp as (_ & Hd & _). simpl in Hd. unfold classifyInvocation.
  rewrite Hc, Hsel, Hres, Hn, Hk, Hr. rewrite (proj2 (str_eqb_false _ _) Hsk). rewrite bool_decide_true by done. simpl.
  assert (ciIsGroup input && negb (ivDirected inv) = false) as ->; [|by eauto].
  destruct Hg as [-> | Hg]; [done|]. rewrite Hd, Hg. simpl. apply andb_false_r.
Qed.
End decisions.

(** ** Metadata *)
Section metadata.
Context {U : Unicode}.
(** A key somewhere inside a value. *)
Inductive key_in (k : str) : MetaValue -> Prop :=
  | key_here entries v : (k, v) ∈ entries -> key_in k (MetaMap entries)
  | key_below entries k' v : (k', v) ∈ entries -> key_in k v -> key_in k (MetaMap entries)
  | key_item items v : v ∈ items -> key_in k v -> key_in k (MetaList items)
  | key_map items m : m ∈ items -> key_in k (MetaMap m) -> key_in k (MetaMaps items).
Section meta_ind.
Context (P : MetaValue -> Prop).
Context (Hmap : forall entries, Forall (fun kv => P kv.2) entries -> P (MetaMap entries)).
Context (Hlist : forall items, Forall P items -> P (MetaList items)).
Context (Hmaps : forall items, Forall (Forall (fun kv => P kv.2)) items -> P (MetaMaps items)).
Context (Hother : P MetaOther).
Fixpoint meta_ind (v : MetaValue) : P v :=
  let entries_ind := fix go (l : list (str * MetaValue)) : Forall (fun kv => P kv.2) l :=
    match l with [] => Forall_nil_2 _ | (k, v) :: l => Forall_cons_2 _ (k, v) l (meta_ind v) (go l) end in
  match v with
  | MetaMap entries => Hmap entries (entries_ind entries)
  | MetaList items => Hlist items ((fix go (l : list MetaValue) : Forall P l := match l with [] => Forall_nil_2 _ | v :: l => Forall_cons_2 _ v l (meta_ind v) (go l) end) items)
  | MetaMaps items => Hmaps items ((fix go (l : list (list (str * MetaValue))) : Forall (Forall (fun kv => P kv.2)) l :=
                              match l with [] => Forall_nil_2 _ | m :: l => Forall_cons_2 _ m l (entries_ind m) (go l) end) items)
  | MetaOther => Hother
  end.
End meta_ind.

Lemma existsb_exists' {A} (p : A -> bool) l : existsb p l = true <-> exists x, x ∈ l /\ p x = true.
Proof using Type.
  induction l as [|y l IH]; simpl; [split; [done|by intros (x & Hx & _); apply not_elem_of_nil in Hx]|]. rewrite orb_true_iff, IH. split.
  - intros [H|(x & Hx & H)]; [exists y; by split; [constructor|]|exists x; by split; [constructor|]].
  - intros (x & Hx & H). apply elem_of_cons in Hx as [-> |Hx]; [by left|right; by exists x].
Qed.
Lemma reject_map entries : RejectReservedSkillMetadataValue (MetaMap entries) = true <->
  exists k v, (k, v) ∈ entries /\ (IsReservedMetadataKey k = true \/ RejectReservedSkillMetadataValue v = true).
Proof using Type.
  simpl. rewrite existsb_exists'. split.
  - intros ([k v] & Hin & H). exists k, v. split; [done|]. by apply orb_true_iff.
  - intros (k & v & Hin & H). exists (k, v). split; [done|]. by apply orb_true_iff.
Qed.
(** metadata is refused exactly when a reserved key, in any spelling of
    case and separators, is somewhere inside it, at any depth of maps and
    lists. *)
Theorem metadata_check_is_deep v :
  RejectReservedSkillMetadataValue v = true <-> exists k, key_in k v /\ IsReservedMetadataKey k = true.
Proof using Type.
  split.
  - induction v as [entries IH|items IH|items IH|] using meta_ind; intros H; [| | |done].
    + apply reject_map in H as (k & v & Hin & [H|H]); [exists k; split; [by eapply key_here|done]|].
      rewrite Forall_forall in IH. destruct (IH (k, v) Hin H) as (k' & Hk & Hr). exists k'. split; [by eapply key_below|done].
    + simpl in H. apply existsb_exists' in H as (v & Hin & H). rewrite Forall_forall in IH. destruct (IH v Hin H) as (k & Hk & Hr).
      exists k. split; [by eapply key_item|done].
    + simpl in H. apply existsb_exists' in H as (m & Hin & H). rewrite Forall_forall in IH. specialize (IH m Hin).
      apply (reject_map m) in H as (k & v & Hkv & [H|H]); [exists k; split; [by eapply key_map; [done|eapply key_here]|done]|].
      rewrite Forall_forall in IH. destruct (IH (k, v) Hkv H) as (k' & Hk & Hr). exists k'. split; [by eapply key_map; [done|eapply key_below]|done].
  - intros (k & Hk & Hr). induction Hk as [entries v Hin|entries k' v Hin _ IH|items v Hin _ IH|items m Hin _ IH].
    + apply reject_map. exists k, v. by split; [|left].
    + apply reject_map. exists k', v. by split; [|right].
    + simpl. apply existsb_exists'. by exists v.
    + simpl. apply existsb_exists'. by exists m.
Qed.
End metadata.

(** ** Concrete messages *)
Definition knows_new (r : str) : bool := str_eqb r (lit "new").
Definition channel_message (text : str) (group directed : bool) : ClassifyInput :=
  mkClassify text false SurfaceChannel group directed [lit "bot"] (Some knows_new) None.

Definition group_message : ClassifyInput := channel_message (lit "@bot /new") true false.
Lemma group_commands_must_address_witness :
  sdDirected (Classify (U := ascii_unicode) group_message) = true /\
  (ciDirected group_message = true \/ exists inv v, sdInvocation (Classify (U := ascii_unicode) group_message) = Some inv /\
     v ∈ ivAddressing inv /\ names_bot (U := ascii_unicode) (ciBotAliases group_message) v).
Proof.
  apply (group_commands_must_address (U := ascii_unicode) group_message _ eq_refl); [reflexivity|reflexivity|..]; vm_compute; discriminate.
Defined.
Lemma command_names_are_selectors_witness : isCommandName (lit "reset_2") = true /\ isValidSkillSelector (lit "reset_2") = true.
Proof. split; [reflexivity|]. apply command_names_are_selectors. reflexivity. Defined.
Definition plain_message : ClassifyInput := channel_message (lit "/New chat") false false.
Lemma known_command_is_executed_witness : sdKind (Classify (U := ascii_unicode) plain_message) = DecisionCommandAction /\
  exists cmd, sdCommand (Classify (U := ascii_unicode) plain_message) = Some cmd /\ cmResource cmd = to_lower (U := ascii_unicode) (lit "New").
Proof.
  apply (known_command_is_executed (U := ascii_unicode) plain_message (lit "New") (lit " chat")); try reflexivity; [by left|by left|].
  vm_compute. discriminate.
Defined.

(** a known command followed by a line break is taken for a skill. The
    resource the command table is asked about runs on to the next blank, the
    selector a skill is activated by does not. *)
Theorem line_break_makes_a_skill :
  let d := Classify (U := ascii_unicode) (channel_message (lit "/new" ++ nl :: lit "hello") false true) in
  sdKind d = DecisionSkillIntent /\ (siNames <$> sdSkillIntent d) = Some [lit "new"] /\ knows_new (lit "new") = true.
Proof. by vm_compute. Qed.
