(* ===== verification/CommandCallback.v ===== *)
(** * Buttons that run commands

    [internal/command/callback.go]: the payload of an interactive button, its
    decoding, the bounded table for arguments that do not fit, and the command
    a tap runs, with the quoting of [fallback.go]. *)
From S2P Require Import Prelude GoStr CommandSyntax.
#[local] Open Scope Z_scope.

(** ** The standard library's query escaping *)
Definition unreserved (c : ascii) : bool :=
  let x := byte_val c in
  in_range 97 122 x || in_range 65 90 x || in_range 48 57 x || (x =? 45) || (x =? 95) || (x =? 46) || (x =? 126).
Definition hexDigit (n : Z) : ascii := byte_of (if n <? 10 then 48 + n else 55 + n).
Definition hexValue (c : ascii) : option Z :=
  let x := byte_val c in
  if in_range 48 57 x then Some (x - 48)
  else if in_range 97 102 x then Some (x - 87)
  else if in_range 65 70 x then Some (x - 55) else None.
Definition percent : ascii := "%"%char.
Definition plus : ascii := "+"%char.
Definition escapeByte (c : ascii) : str :=
  if unreserved c then [c]
  else if Ascii.eqb c " "%char then [plus]
  else [percent; hexDigit (Z.shiftr (byte_val c) 4); hexDigit (Z.land (byte_val c) 15)].
Definition QueryEscape (s : str) : str := flat_map escapeByte s.
(** [None] is the error of a malformed escape. *)
Fixpoint QueryUnescape (s : str) : option str :=
  match s with
  | [] => Some []
  | c :: s =>
      if Ascii.eqb c percent then
        match s with
        | a :: b :: s => x ← hexValue a; y ← hexValue b; r ← QueryUnescape s; Some (byte_of (Z.lor (Z.shiftl x 4) y) :: r)
        | _ => None
        end
      else r ← QueryUnescape s; Some ((if Ascii.eqb c plus then " "%char else c) :: r)
  end.

(** [strings.SplitN(s, sep, n)] for a positive [n] *)
Fixpoint splitN (n : nat) (sep : ascii) (s : str) : list str :=
  match n with
  | S (S _ as n) =>
      match index_byte s sep with
      | Some i => take (Z.to_nat i) s :: splitN n sep (drop (Z.to_nat (i + 1)) s)
      | None => [s]
      end
  | _ => [s]
  end.

(** [fnv.New64a] and [strconv.FormatUint(h, 36)]: 13 digits are enough for 64 bits. *)
Definition fnvOffset : Z := 14695981039346656037.
Definition fnvPrime : Z := 1099511628211.
Definition fnv64a (s : str) : Z := fold_left (fun h c => (Z.lxor h (byte_val c) * fnvPrime) mod 2 ^ 64) s fnvOffset.
Definition digit36 (n : Z) : ascii := byte_of (if n <? 10 then 48 + n else 87 + n).
Fixpoint format36 (fuel : nat) (n : Z) (acc : str) : str :=
  match fuel with
  | O => acc
  | S fuel => if n <? 36 then digit36 n :: acc else format36 fuel (n / 36) (digit36 (n mod 36) :: acc)
  end.
Definition shortHash (s : str) : str := format36 13 (fnv64a s) [].

(** ** The table of long arguments *)
Record Stash : Type := mkStash { argsStash : gmap str str; argsStashOrder : list str }.
Definition emptyStash : Stash := mkStash ∅ [].
Definition argsStashLimit : Z := 256.
Definition stashArgs (args : str) (st : Stash) : str * Stash :=
  let token := shortHash args in
  match argsStash st !! token with
  | Some _ => (token, st)
  | None =>
      let stash := <[token := args]> (argsStash st) in
      let order := argsStashOrder st ++ [token] in
      if argsStashLimit <? Z.of_nat (length order) then
        match order with
        | oldest :: order => (token, mkStash (delete oldest stash) order)
        | [] => (token, mkStash stash order)
        end
      else (token, mkStash stash order)
  end.

(** ** Payloads *)
Definition callbackNamespace : str := lit "m~".
Definition telegramCallbackLimit : Z := 64.
Inductive CallbackKind : Type :=
  | ListPage | ModelProvider | ModelSelect | RangeKind | ConfirmNew | SkillActivate | Dismiss | Noop.
Record ParsedCallback : Type := mkCallback {
  cbKind : CallbackKind; cbResource : str; cbAction : str; cbArgs : list str;
  cbPage : Z; cbProviderIndex : Z; cbSelectID : str; cbRange : str;
}.
Definition IsInteractiveCallback (data : str) : bool := has_prefix data callbackNamespace.

Definition DismissCallback : str := callbackNamespace ++ lit "x".
Definition NoopCallback : str := callbackNamespace ++ lit "noop".
Definition encodeArgs (args : list str) : str :=
  join (lit " ") (QueryEscape <$> List.filter (fun a => negb (is_empty a)) (trim_space <$> args)).
(** A payload, or its stash token when it is too long. *)
Definition inlineOrStash (base argsStr : str) (st : Stash) : str * Stash :=
  if slen (base ++ argsStr) <=? telegramCallbackLimit then (base ++ argsStr, st)
  else let '(token, st) := stashArgs argsStr st in (base ++ lit "#" ++ token, st).
Definition EncodeListCallback (resource action : str) (args : list str) (page : Z) (st : Stash) : str * Stash :=
  let base := callbackNamespace ++ lit "lp~" ++ resource ++ lit "~" ++ action ++ lit "~" ++ itoa page ++ lit "~" in
  let argsStr := encodeArgs args in
  if is_empty argsStr then (base, st) else inlineOrStash base argsStr st.
Definition EncodeModelProviderCallback (providerIndex page : Z) : str :=
  callbackNamespace ++ lit "mpl~" ++ itoa providerIndex ++ lit "~" ++ itoa page.
Definition EncodeModelSelectCallback (modelDBID : str) : str :=
  callbackNamespace ++ lit "ms~" ++ QueryEscape (trim_space modelDBID).
Definition EncodeRangeCallback (resource action rangeKey : str) : str :=
  callbackNamespace ++ lit "rg~" ++ resource ++ lit "~" ++ action ++ lit "~" ++ rangeKey.
Definition EncodeSkillActivateCallback (name : str) (st : Stash) : str * Stash :=
  inlineOrStash (callbackNamespace ++ lit "sk~") (QueryEscape (trim_space name)) st.
Definition EncodeConfirmNewCallback (mode : str) : str := callbackNamespace ++ lit "cn~" ++ mode.

(** ** Decoding *)
Definition decodeArgs (s : str) : list str :=
  if blank s then []
  else List.filter (fun a => negb (is_empty a)) ((fun f => trim_space (default f (QueryUnescape f))) <$> fields s).
(** The text behind a token; a forgotten token is the empty text. *)
Definition resolveToken (st : Stash) (token : str) : str :=
  match cut_prefix token (lit "#") with
  | Some hash => default [] (argsStash st !! hash)
  | None => token
  end.
Definition decodeArgsToken (st : Stash) (token : str) : list str :=
  if is_empty token then [] else decodeArgs (resolveToken st token).

Definition tilde : ascii := "~"%char.
Definition simpleCallback (kind : CallbackKind) : ParsedCallback := mkCallback kind [] [] [] 0 0 [] [].
Definition decodeList (st : Stash) (body : str) : option ParsedCallback :=
  match splitN 4 tilde body with
  | resource :: action :: page :: rest =>
      n ← Atoi page;
      if n <? 0 then None
      else Some (mkCallback ListPage resource action (match rest with [t] => decodeArgsToken st t | _ => [] end) n 0 [] [])
  | _ => None
  end.
Definition decodeProvider (body : str) : option ParsedCallback :=
  match splitN 2 tilde body with
  | [prov; page] =>
      p ← Atoi prov; n ← Atoi page;
      if (p <? 0) || (n <? 0) then None else Some (mkCallback ModelProvider [] [] [] n p [] [])
  | _ => None
  end.
(** A query-escaped identifier that is not blank. *)
Definition decodeId (kind : CallbackKind) (token : str) : option ParsedCallback :=
  id ← QueryUnescape token;
  if blank id then None else Some (mkCallback kind [] [] [] 0 0 (trim_space id) []).
Definition decodeRange (body : str) : option ParsedCallback :=
  match splitN 3 tilde body with
  | [resource; action; range] => if is_empty range then None else Some (mkCallback RangeKind resource action [] 0 0 [] range)
  | _ => None
  end.
Definition DecodeCallback (st : Stash) (data : str) : option ParsedCallback :=
  body ← cut_prefix data callbackNamespace;
  if str_eqb body (lit "x") then Some (simpleCallback Dismiss)
  else if str_eqb body (lit "noop") then Some (simpleCallback Noop)
  else if has_prefix body (lit "lp~") then decodeList st (trim_prefix body (lit "lp~"))
  else if has_prefix body (lit "mpl~") then decodeProvider (trim_prefix body (lit "mpl~"))
  else if has_prefix body (lit "ms~") then decodeId ModelSelect (trim_prefix body (lit "ms~"))
  else if has_prefix body (lit "rg~") then decodeRange (trim_prefix body (lit "rg~"))
  else if has_prefix body (lit "cn~") then
    let mode := trim_prefix body (lit "cn~") in
    if is_empty mode then None else Some (mkCallback ConfirmNew [] mode [] 0 0 [] [])
  else if has_prefix body (lit "sk~") then decodeId SkillActivate (resolveToken st (trim_prefix body (lit "sk~")))
  else None.

(** ** The command of a tap *)
Definition requoteByte (c : ascii) : ascii :=
  if Ascii.eqb c nl || Ascii.eqb c cr then " "%char else if Ascii.eqb c dquote then squote else c.
Definition quoteArgIfNeeded (arg : str) : str :=
  if contains_any arg [" "%char; tab; nl; cr] then dquote :: (requoteByte <$> arg) ++ [dquote] else arg.
Definition formatSlashCommand (resource action : str) (args : list str) (quote : bool) : str :=
  let resource := trim_space resource in
  let action := trim_space action in
  if is_empty resource || is_empty action then []
  else lit "/" ++ resource ++ lit " " ++ action ++
       flat_map (fun arg => let trimmed := trim_space arg in
                            if is_empty trimmed then []
                            else lit " " ++ (if quote then quoteArgIfNeeded trimmed else trimmed)) args.
Definition SyntheticCommand (p : ParsedCallback) : str :=
  match cbKind p with
  | ListPage =>
      let base := formatSlashCommand (cbResource p) (cbAction p) (cbArgs p) true in
      if is_empty base then [] else base ++ lit " --page " ++ itoa (cbPage p)
  | ModelProvider => lit "/model list --prov " ++ itoa (cbProviderIndex p) ++ lit " --page " ++ itoa (cbPage p)
  | ModelSelect => lit "/model set --id " ++ cbSelectID p
  | RangeKind => lit "/" ++ cbResource p ++ lit " " ++ cbAction p ++ lit " --range " ++ cbRange p
  | ConfirmNew => lit "/new " ++ cbAction p ++ lit " --confirm"
  | SkillActivate => let name := trim_space (cbSelectID p) in if is_empty name then [] else lit "/" ++ name
  | Dismiss | Noop => []
  end.
