(* ===== verification/CallbackCorrect.v ===== *)
(** * What a button guarantees

    A payload decodes to what it was made from, within the limit of the
    transport; the table of long arguments is bounded; a tap runs the command
    the button stands for, as long as its arguments can be quoted. *)
From stdpp Require Import pretty.
From S2P Require Import Prelude GoStr GoTrim CommandSyntax CommandSyntaxCorrect CommandCallback.
#[local] Open Scope Z_scope.

(** ** Numbers *)
Definition digit_char (c : ascii) : Prop := 48 <= byte_val c <= 57.
Lemma pretty_char x : (x < 10)%N -> byte_val (pretty_N_char x) = 48 + Z.of_N x.
Proof. intros H. destruct (decide (x ∈ [0;1;2;3;4;5;6;7;8;9]%N)) as [Hin|Hn]; [|exfalso; apply Hn; set_unfold; lia]. set_unfold in Hin. naive_solver. Qed.
Lemma digits_go x : forall s, digits 0 (lit (pretty_N_go x s)) = digits (Z.of_N x) (lit s).
Proof.
  induction (N.lt_wf_0 x) as [x _ IH]; intros s. assert (x = 0 \/ 0 < x)%N as [->|Hx] by lia; [by rewrite pretty_N_go_0|].
  rewrite pretty_N_go_step by done. rewrite IH by (by apply N.div_lt). unfold lit. simpl.
  pose proof (N.mod_lt x 10 ltac:(done)) as Hm. rewrite pretty_char by done. unfold in_range.
  pose proof (N.div_mod x 10 ltac:(done)) as Hx'. revert Hm Hx'. generalize (x `mod` 10)%N (x `div` 10)%N. intros m q Hm Hx'.
  rewrite !(proj2 (Z.leb_le _ _)) by lia. simpl. f_equal. lia.
Qed.
Lemma pretty_go_digits x s : Forall digit_char (lit s) -> Forall digit_char (lit (pretty_N_go x s)).
Proof.
  revert s. induction (N.lt_wf_0 x) as [x _ IH]; intros s Hs. assert (x = 0 \/ 0 < x)%N as [->|Hx] by lia; [by rewrite pretty_N_go_0|].
  rewrite pretty_N_go_step by done. apply IH; [by apply N.div_lt|]. unfold lit. simpl. constructor; [|done].
  pose proof (N.mod_lt x 10 ltac:(done)). unfold digit_char. rewrite pretty_char by done.
  revert H. generalize (x `mod` 10)%N. lia.
Qed.
Lemma itoa_N n : 0 <= n -> itoa n = lit (pretty (Z.to_N n)).
Proof. intros H. by destruct n. Qed.
Lemma itoa_digits n : 0 <= n -> Forall digit_char (itoa n) /\ itoa n <> [].
Proof.
  intros H. rewrite itoa_N by done. unfold pretty, pretty_N. case_decide; [by repeat constructor|]. split; [by apply pretty_go_digits; constructor|].
  intros E. assert (digits 0 (lit (pretty_N_go (Z.to_N n) "")) = digits 0 []) as Hd by (by rewrite E). rewrite digits_go in Hd. simpl in Hd. injection Hd as Hd. lia.
Qed.
Lemma digits_itoa n : 0 <= n -> digits 0 (itoa n) = Some n.
Proof.
  intros H. rewrite itoa_N by done. unfold pretty, pretty_N. case_decide as E; [|rewrite digits_go; simpl; f_equal; lia].
  change (Some 0 = Some n). f_equal. lia.
Qed.
Lemma digit_not c d : digit_char c -> ~ digit_char d -> c <> d.
Proof. by intros Hc Hd ->. Qed.
Lemma Atoi_itoa n : 0 <= n <= max_int64 -> Atoi (itoa n) = Some n.
Proof.
  intros H. destruct (itoa_digits n ltac:(lia)) as [Hd Hne]. pose proof (digits_itoa n ltac:(lia)) as E. unfold Atoi.
  destruct (itoa n) as [|c r]; [done|]. inversion Hd as [|? ? Hc _]; subst.
  rewrite !(proj2 (Ascii.eqb_neq _ _)) by (apply digit_not; [done|]; intros [Hd1 _]; vm_compute in Hd1; by apply Hd1). simpl is_empty. cbv iota.
  rewrite E. simpl. unfold in_range. rewrite !(proj2 (Z.leb_le _ _)) by (unfold min_int64; lia). simpl. f_equal. lia.
Qed.

(** ** Escapes *)
Lemma unescape_byte c s : QueryUnescape (escapeByte c ++ s) = (r ← QueryUnescape s; Some (c :: r)).
Proof. destruct c as [[] [] [] [] [] [] [] []]; reflexivity. Qed.
Lemma unescape_escape s : QueryUnescape (QueryEscape s) = Some s.
Proof.
  induction s as [|c s IH]; [done|]. change (QueryEscape (c :: s)) with (escapeByte c ++ QueryEscape s).
  rewrite unescape_byte, IH. done.
Qed.
(** An escaped text has no white space and does not look like a token. *)
Definition token_char (c : ascii) : Prop := byte_val c < 128 /\ is_space (byte_val c) = false /\ c <> "#"%char.
Definition token_charb (c : ascii) : bool := (byte_val c <? 128) && negb (is_space (byte_val c)) && negb (Ascii.eqb c "#"%char).
Lemma escape_byte_chars c : forallb token_charb (escapeByte c) = true.
Proof. destruct c as [[] [] [] [] [] [] [] []]; reflexivity. Qed.
Lemma escape_chars s : Forall token_char (QueryEscape s).
Proof.
  assert (H : forallb token_charb (QueryEscape s) = true).
  { unfold QueryEscape. induction s as [|c s IH]; simpl; [done|]. by rewrite forallb_app, escape_byte_chars, IH. }
  apply Forall_forall. intros c Hc. rewrite forallb_forall in H. apply list_elem_of_In, H in Hc. unfold token_charb in Hc. bool_hyps.
  split_and!; try done. by apply Ascii.eqb_neq.
Qed.
Lemma escape_nonempty s : s <> [] -> QueryEscape s <> [].
Proof.
  destruct s as [|c s]; [done|]. intros _ E. pose proof (unescape_escape (c :: s)) as H. by rewrite E in H.
Qed.

(** ** Splitting a payload *)
Lemma index_byte_app s c t : c ∉ s -> index_byte (s ++ c :: t) c = Some (slen s).
Proof.
  unfold index_byte, index. intros Hs. assert (forall i, index_from [c] i (s ++ c :: t) = Some (i + slen s)) as ->; [|done].
  induction s as [|d s IH]; intros i; simpl.
  - rewrite Ascii.eqb_refl. simpl. destruct t; f_equal; unfold slen; simpl; lia.
  - apply not_elem_of_cons in Hs as [Hd Hs]. rewrite (proj2 (Ascii.eqb_neq _ _)) by done. simpl. rewrite IH by done.
    f_equal. unfold slen. simpl. lia.
Qed.
Lemma splitN_cons n sep s t : sep ∉ s -> splitN (S (S n)) sep (s ++ sep :: t) = s :: splitN (S n) sep t.
Proof.
  intros Hs. cbn [splitN]. rewrite index_byte_app by done. unfold slen. rewrite Nat2Z.id, take_app_length.
  replace (Z.to_nat (Z.of_nat (length s) + 1)) with (S (length s)) by lia. f_equal. f_equal.
  rewrite drop_app_ge by lia. replace (S (length s) - length s)%nat with 1%nat by lia. done.
Qed.
Lemma splitN_last sep t : splitN 1 sep t = [t].
Proof. done. Qed.
Lemma splitN_none n sep s : sep ∉ s -> splitN n sep s = [s].
Proof. intros Hs. destruct n as [|[|n]]; try done. cbn [splitN]. by rewrite index_byte_None. Qed.

(** ** Arguments *)
(** Fields of a text joined with blanks. *)
Definition token (w : str) : Prop := w <> [] /\ Forall token_char w.
Lemma fields_token w : forall cur rest, Forall token_char w ->
  fields_from cur (((fun c => (byte_val c, [c])) <$> w) ++ rest) = fields_from (cur ++ w) rest.
Proof.
  induction w as [|c w IH]; intros cur rest Hw; simpl; [by rewrite app_nil_r|]. inversion Hw as [|? ? (_ & Hs & _) Hw']; subst.
  rewrite Hs. change (list_fmap _ _ _ w) with ((fun c => (byte_val c, [c])) <$> w). rewrite IH by done. by rewrite <- app_assoc.
Qed.
Lemma token_units w : Forall token_char w -> decode w = (fun c => (byte_val c, [c])) <$> w.
Proof. intros H. apply decode_ascii. eapply Forall_impl; [exact H|]. by intros c (? & _). Qed.
Lemma fields_space cur l : cur <> [] -> fields_from cur ((32, lit " ") :: l) = cur :: fields_from [] l.
Proof. by destruct cur. Qed.
Lemma fields_join ws : Forall token ws -> fields (join (lit " ") ws) = ws.
Proof.
  unfold fields. induction 1 as [|w ws [Hne Hw] HF IH]; [done|]. destruct HF as [|w' ws Hw' HF].
  - change (join (lit " ") [w]) with w. rewrite (token_units _ Hw), <- (app_nil_r (_ <$> w)), fields_token by done. simpl. by destruct w.
  - rewrite join_cons by done.
    assert (Hd : decode (w ++ lit " " ++ join (lit " ") (w' :: ws)) =
      ((fun c => (byte_val c, [c])) <$> w) ++ (32, lit " ") :: decode (join (lit " ") (w' :: ws))).
    { rewrite <- (token_units _ Hw). by rewrite decode_app_ascii. }
    rewrite Hd, fields_token by done. cbn [app]. rewrite fields_space by done. by rewrite IH.
Qed.
(** An argument as a handler gets it. *)
Definition trimmed (a : str) : Prop := trim_space a = a /\ a <> [].
Lemma encodeArgs_trimmed args : Forall trimmed args -> encodeArgs args = join (lit " ") (QueryEscape <$> args).
Proof.
  intros HF. unfold encodeArgs. do 2 f_equal. induction HF as [|a args [Ht Hne] HF IH]; [done|].
  rewrite fmap_cons. simpl. rewrite Ht, (proj2 (is_empty_false a) Hne). simpl. by rewrite IH.
Qed.
Lemma token_escape a : a <> [] -> token (QueryEscape a).
Proof. intros H. split; [by apply escape_nonempty|apply escape_chars]. Qed.
Lemma token_not_blank w s : token w -> blank (w ++ s) = false.
Proof.
  intros [Hne Hw]. destruct w as [|c w]; [done|]. inversion Hw as [|? ? (Hc & Hs & _) _]; subst. unfold blank.
  change ((c :: w) ++ s) with (c :: w ++ s). by destruct (trim_space_head c (w ++ s) Hc Hs) as [t ->].
Qed.
Lemma decode_encode_args args : Forall trimmed args -> decodeArgs (encodeArgs args) = args.
Proof.
  intros HF. rewrite encodeArgs_trimmed by done. unfold decodeArgs.
  assert (Ht : Forall token (QueryEscape <$> args)) by (apply Forall_fmap; eapply Forall_impl; [exact HF|]; intros a [_ ?]; by apply token_escape).
  assert (Hb : blank (join (lit " ") (QueryEscape <$> args)) = bool_decide (args = [])).
  { destruct HF as [|a args [_ Ha] HF]; [done|]. rewrite fmap_cons. pose proof (token_escape a Ha).
    destruct HF as [|a' args Ha' HF]; [change (join _ _) with (QueryEscape a); rewrite <- (app_nil_r (QueryEscape a))|rewrite fmap_cons, join_cons by done];
      by apply token_not_blank. }
  rewrite Hb. case_bool_decide; [by subst|]. rewrite fields_join by done. clear Hb Ht H.
  induction HF as [|a args [Hta Hne] HF IH]; [done|]. rewrite !fmap_cons, unescape_escape. simpl. rewrite Hta, (proj2 (is_empty_false a) Hne). simpl.
  by rewrite IH.
Qed.

(** ** The table *)
Definition stash_ok (st : Stash) : Prop :=
  NoDup (argsStashOrder st) /\ (forall k, k ∈ argsStashOrder st <-> is_Some (argsStash st !! k)) /\
  Z.of_nat (length (argsStashOrder st)) <= argsStashLimit /\
  (forall k v, argsStash st !! k = Some v -> k = shortHash v).
(** The token is not already taken by other arguments. *)
Definition no_collision (st : Stash) (args : str) : Prop :=
  forall v, argsStash st !! shortHash args = Some v -> v = args.
Lemma emptyStash_ok : stash_ok emptyStash.
Proof.
  split_and!; simpl; [constructor| |done|by intros ? ? []%lookup_empty_Some].
  intros k. rewrite lookup_empty. split; [intros []%not_elem_of_nil|by intros [? ?]].
Qed.
(** A fresh text: the order drops its first token when the table is full. *)
Lemma stash_fresh args st : stash_ok st -> argsStash st !! shortHash args = None -> exists dropped order,
  argsStashOrder st = dropped ++ order /\
  (dropped = [] /\ Z.of_nat (length order) < argsStashLimit \/ (exists o, dropped = [o]) /\ Z.of_nat (length order) = argsStashLimit - 1) /\
  argsStashOrder (stashArgs args st).2 = order ++ [shortHash args] /\
  argsStash (stashArgs args st).2 = <[shortHash args := args]> (foldr delete (argsStash st) dropped).
Proof.
  intros (HN & Hd & Hl & _) Hf. unfold stashArgs. rewrite Hf. rewrite length_app. simpl (length [_]).
  destruct (argsStashLimit <? Z.of_nat (length (argsStashOrder st) + 1)) eqn:E; bool_hyps.
  - destruct (argsStashOrder st) as [|o order] eqn:Eo; [by vm_compute in E|].
    exists [o], order. simpl in *. split_and!; try done; [right; split; [by exists o|lia]|].
    rewrite delete_insert_ne; [done|]. intros Heq. assert (is_Some (argsStash st !! o)) as [? ?] by (apply Hd; constructor). congruence.
  - exists [], (argsStashOrder st). split_and!; try done. left. split; [done|lia].
Qed.
Lemma stashArgs_ok args st : stash_ok st -> stash_ok (stashArgs args st).2.
Proof.
  intros Hok. destruct (argsStash st !! shortHash args) as [v|] eqn:Hf; [unfold stashArgs; by rewrite Hf|].
  destruct (stash_fresh args st Hok Hf) as (dropped & order & Eo & Hdrop & E1 & E2).
  destruct Hok as (HN & Hd & Hl & Hk). unfold stash_ok. rewrite E1, E2.
  assert (Hnot : shortHash args ∉ argsStashOrder st) by (intros Hin; apply Hd in Hin as [? ?]; congruence).
  rewrite Eo in HN, Hnot. apply NoDup_app in HN as (HNd & Hdis & HNo).
  assert (Hlook : forall k, foldr delete (argsStash st) dropped !! k = if bool_decide (k ∈ dropped) then None else argsStash st !! k).
  { intros k. destruct Hdrop as [[-> _]|[[o ->] _]]; [done|]. simpl. case_bool_decide as Hk'.
    - apply list_elem_of_singleton in Hk' as ->. apply lookup_delete_eq.
    - apply lookup_delete_ne. intros ->. apply Hk'. constructor. }
  split_and!.
  - apply NoDup_app. split_and!; [done| |apply NoDup_singleton]. intros x Hx ->%list_elem_of_singleton. apply Hnot. set_solver.
  - intros k. destruct (decide (k = shortHash args)) as [-> |Hne].
    + rewrite lookup_insert_eq. split; [by eexists|intros _; set_solver].
    + rewrite lookup_insert_ne, Hlook by done. specialize (Hd k). rewrite Eo in Hd. case_bool_decide as Hin.
      * split; [|by intros [? ?]]. intros Hk'. exfalso. apply elem_of_app in Hk' as [Hk'|Hk'%list_elem_of_singleton]; [by apply (Hdis k)|done].
      * rewrite <- Hd. set_solver.
  - rewrite length_app. simpl. destruct Hdrop as [[_ ?]|[_ ?]]; lia.
  - intros k v. destruct (decide (k = shortHash args)) as [-> |Hne]; [by rewrite lookup_insert_eq; intros [= <-]|].
    rewrite lookup_insert_ne, Hlook by done. case_bool_decide; [done|]. apply Hk.
Qed.
(** An entry with fewer than 255 younger ones outlives one more. *)
Definition youth (st : Stash) (k v : str) (n : nat) : Prop :=
  argsStash st !! k = Some v /\ exists older younger, argsStashOrder st = older ++ k :: younger /\ (length younger <= n)%nat.
Lemma youth_step args st k v n : stash_ok st -> youth st k v n -> Z.of_nat n < argsStashLimit - 1 -> youth (stashArgs args st).2 k v (S n).
Proof.
  intros Hok (Hv & older & younger & Eo & Hn) Hlt. destruct (argsStash st !! shortHash args) as [w|] eqn:Hf.
  { unfold stashArgs. rewrite Hf. split; [done|]. exists older, younger. split; [done|lia]. }
  destruct (stash_fresh args st Hok Hf) as (dropped & order & Eo' & Hdrop & E1 & E2).
  assert (Hne : k <> shortHash args) by congruence. rewrite Eo in Eo'. unfold youth. rewrite E1, E2, lookup_insert_ne by done.
  destruct Hdrop as [[-> _]|[[o ->] Hl]]; simpl in *.
  - split; [done|]. subst order. exists older, (younger ++ [shortHash args]). rewrite <- app_assoc, length_app. simpl. split; [done|lia].
  - destruct older as [|o' older]; simplify_eq/=; [lia|]. split.
    + rewrite lookup_delete_ne; [done|]. intros ->. destruct Hok as (HN & _). rewrite Eo in HN. apply NoDup_cons in HN as [HN _]. set_solver.
    + exists older, (younger ++ [shortHash args]). rewrite <- app_assoc, length_app. simpl. split; [done|lia].
Qed.

(** the table of long arguments is bounded and honest: whatever is
    stashed, in whatever order, it never holds more than 256 entries, each under
    the hash of its own text. *)
Theorem stash_is_bounded texts : let st := foldl (fun st a => (stashArgs a st).2) emptyStash texts in
  Z.of_nat (size (argsStash st)) <= argsStashLimit /\ forall k v, argsStash st !! k = Some v -> k = shortHash v.
Proof.
  simpl. assert (Hok : stash_ok (foldl (fun st a => (stashArgs a st).2) emptyStash texts)).
  { generalize emptyStash_ok. generalize emptyStash. induction texts as [|a texts IH]; intros st Hst; simpl; [done|]. by apply IH, stashArgs_ok. }
  destruct Hok as (HN & Hd & Hl & Hk). split; [|done]. rewrite <- size_dom. etrans; [|exact Hl]. apply inj_le.
  rewrite <- (size_list_to_set (C := gset str)) by exact HN. apply subseteq_size. intros k Hin. apply elem_of_dom, Hd in Hin. by apply elem_of_list_to_set.
Qed.
Lemma youth_steps texts : forall st k v n, stash_ok st -> youth st k v n -> Z.of_nat (n + length texts) <= argsStashLimit - 1 ->
  argsStash (foldl (fun st a => (stashArgs a st).2) st texts) !! k = Some v.
Proof.
  induction texts as [|a texts IH]; intros st k v n Hok Hy Hn; simpl in *; [by destruct Hy|].
  apply (IH _ _ _ (S n)); [by apply stashArgs_ok|apply youth_step; [done|done|lia]|lia].
Qed.
Lemma fresh_base st args : stash_ok st -> argsStash st !! shortHash args = None -> argsStash (stashArgs args st).2 !! shortHash args = Some args.
Proof. intros Hok Hf. destruct (stash_fresh args st Hok Hf) as (dropped & order & _ & _ & _ & E2). by rewrite E2, lookup_insert_eq. Qed.
(** a button that was just stashed works through the next 255 buttons. *)
Theorem fresh_button_survives st args texts : stash_ok st -> argsStash st !! shortHash args = None -> (length texts <= 255)%nat ->
  argsStash (foldl (fun st a => (stashArgs a st).2) (stashArgs args st).2 texts) !! shortHash args = Some args.
Proof.
  intros Hok Hf Hn. apply (youth_steps texts _ _ _ 0); [by apply stashArgs_ok| |unfold argsStashLimit; lia].
  destruct (stash_fresh args st Hok Hf) as (dropped & order & _ & _ & E1 & E2). split; [by rewrite E2, lookup_insert_eq|].
  exists order, []. by rewrite E1.
Qed.

(** ** Round trips *)
Lemma decode_namespaced st body : DecodeCallback st (callbackNamespace ++ body) =
  if str_eqb body (lit "x") then Some (simpleCallback Dismiss)
  else if str_eqb body (lit "noop") then Some (simpleCallback Noop)
  else if has_prefix body (lit "lp~") then decodeList st (trim_prefix body (lit "lp~"))
  else if has_prefix body (lit "mpl~") then decodeProvider (trim_prefix body (lit "mpl~"))
  else if has_prefix body (lit "ms~") then decodeId ModelSelect (trim_prefix body (lit "ms~"))
  else if has_prefix body (lit "rg~") then decodeRange (trim_prefix body (lit "rg~"))
  else if has_prefix body (lit "cn~") then
    let mode := trim_prefix body (lit "cn~") in
    if is_empty mode then None else Some (mkCallback ConfirmNew [] mode [] 0 0 [] [])
  else if has_prefix body (lit "sk~") then decodeId SkillActivate (resolveToken st (trim_prefix body (lit "sk~")))
  else None.
Proof. unfold DecodeCallback. by rewrite (proj2 (cut_prefix_Some _ _ body) eq_refl). Qed.
Lemma trim_prefix_app p s : trim_prefix (p ++ s) p = s.
Proof. unfold trim_prefix. by rewrite (proj2 (cut_prefix_Some _ _ s) eq_refl). Qed.
Lemma itoa_no_tilde n : 0 <= n -> tilde ∉ itoa n.
Proof.
  intros H Hin. destruct (itoa_digits n H) as [Hd _]. rewrite Forall_forall in Hd. destruct (Hd _ Hin) as [_ Hx].
  vm_compute in Hx. by apply Hx.
Qed.
(** The payload behind the fixed part, and the table it is read with. *)
Definition carries (st : Stash) (tok argsStr : str) : Prop :=
  argsStr = [] /\ tok = [] \/ argsStr <> [] /\ tok <> [] /\ resolveToken st tok = argsStr.
Lemma inlineOrStash_carries base argsStr st : stash_ok st -> argsStr <> [] -> Forall token_char (take 1 argsStr) -> no_collision st argsStr ->
  exists tok, (inlineOrStash base argsStr st).1 = base ++ tok /\ carries (inlineOrStash base argsStr st).2 tok argsStr /\
    stash_ok (inlineOrStash base argsStr st).2.
Proof.
  intros Hok Hne Ht Hc. unfold inlineOrStash. case_if.
  - exists argsStr. split_and!; try done. right. split_and!; try done. unfold resolveToken, cut_prefix.
    destruct (has_prefix argsStr (lit "#")) eqn:E; [|done]. apply has_prefix_spec in E as [r ->].
    inversion Ht as [|? ? (_ & _ & Hx)]. by destruct Hx.
  - pose proof (stashArgs_ok argsStr st Hok) as Hok'. destruct (stashArgs argsStr st) as [token st'] eqn:E. simpl in *.
    assert (Hl : token = shortHash argsStr /\ argsStash st' !! shortHash argsStr = Some argsStr).
    { destruct (argsStash st !! shortHash argsStr) as [v|] eqn:Hf.
      - unfold stashArgs in E. rewrite Hf in E. injection E as <- <-. split; [done|]. by rewrite Hf, (Hc v Hf).
      - pose proof (fresh_base st argsStr Hok Hf) as Hx. rewrite E in Hx. simpl in Hx. split; [|done].
        unfold stashArgs in E. rewrite Hf in E. repeat case_match; by injection E as <- <-. }
    destruct Hl as [-> Hl]. exists (lit "#" ++ shortHash argsStr). split_and!; try done. right. split_and!; try done.
    unfold resolveToken. rewrite (proj2 (cut_prefix_Some _ _ (shortHash argsStr)) eq_refl). by rewrite Hl.
Qed.
Lemma decode_list_base st resource action page tok : tilde ∉ resource -> tilde ∉ action -> 0 <= page <= max_int64 ->
  DecodeCallback st ((callbackNamespace ++ lit "lp~" ++ resource ++ lit "~" ++ action ++ lit "~" ++ itoa page ++ lit "~") ++ tok) =
  Some (mkCallback ListPage resource action (decodeArgsToken st tok) page 0 [] []).
Proof.
  intros Hr Ha Hp. rewrite <- !app_assoc, decode_namespaced.
  rewrite (has_prefix_app (lit "lp~")), (trim_prefix_app (lit "lp~")). simpl str_eqb. unfold decodeList.
  assert (Ht : forall x, lit "~" ++ x = tilde :: x) by done. rewrite !Ht. rewrite !splitN_cons, splitN_last by (try done; apply itoa_no_tilde; lia).
  rewrite Atoi_itoa by done. simpl. by rewrite (proj2 (Z.ltb_ge _ _)) by lia.
Qed.
Lemma encodeArgs_nil args : Forall trimmed args -> encodeArgs args = [] -> args = [].
Proof. intros HF E. pose proof (decode_encode_args args HF) as H. rewrite E in H. by subst. Qed.
Lemma Forall_take1 {A} (P : A -> Prop) l : Forall P l -> Forall P (take 1 l).
Proof. intros []; by repeat constructor. Qed.
Lemma encodeArgs_head args : Forall trimmed args -> Forall token_char (take 1 (encodeArgs args)).
Proof.
  intros HF. rewrite encodeArgs_trimmed by done. destruct HF as [|a args [_ Ha] HF]; [by constructor|]. rewrite fmap_cons.
  pose proof (token_escape a Ha) as [Hne Hc]. destruct HF as [|a' args Ha' HF].
  - change (join (lit " ") [QueryEscape a]) with (QueryEscape a). by apply Forall_take1.
  - rewrite fmap_cons, join_cons by done. destruct (QueryEscape a) as [|c w]; [done|]. simpl. rewrite take_0. inversion Hc. constructor; [done|constructor].
Qed.

(** C29: a list button gives back its arguments: its payload decodes to the
    resource, action, page and arguments it was made of, blanks and all,
    whether they fit in the payload or wait in the table, as long as no other
    text has taken their hash. *)
Theorem list_button_round_trip st resource action args page : stash_ok st ->
  tilde ∉ resource -> tilde ∉ action -> 0 <= page <= max_int64 -> Forall trimmed args -> no_collision st (encodeArgs args) ->
  let '(data, st') := EncodeListCallback resource action args page st in
  stash_ok st' /\ DecodeCallback st' data = Some (mkCallback ListPage resource action args page 0 [] []).
Proof.
  intros Hok Hr Ha Hp HF Hc. unfold EncodeListCallback. set (base := callbackNamespace ++ _). pose proof (decode_encode_args args HF) as Hd.
  destruct (is_empty (encodeArgs args)) eqn:E; str_hyps.
  - split; [done|]. apply encodeArgs_nil in E as ->; [|done]. rewrite <- (app_nil_r base). by apply decode_list_base.
  - destruct (inlineOrStash_carries base (encodeArgs args) st Hok E (encodeArgs_head args HF) Hc) as (tok & E1 & Hcar & Hok').
    destruct (inlineOrStash base (encodeArgs args) st) as [data st']. cbn [fst snd] in *. subst data. split; [done|].
    unfold base. rewrite decode_list_base by done. do 2 f_equal. destruct Hcar as [[? _]|(_ & Hne & Hres)]; [done|].
    unfold decodeArgsToken. by rewrite (proj2 (is_empty_false tok) Hne), Hres.
Qed.

(** a skill button gives back its skill, however long the name. *)
Theorem skill_button_round_trip st name : stash_ok st -> trimmed name -> no_collision st (QueryEscape name) ->
  let '(data, st') := EncodeSkillActivateCallback name st in
  stash_ok st' /\ DecodeCallback st' data = Some (mkCallback SkillActivate [] [] [] 0 0 name []) /\
  (SyntheticCommand <$> DecodeCallback st' data) = Some (lit "/" ++ name).
Proof.
  intros Hok [Ht Hne] Hc. unfold EncodeSkillActivateCallback. rewrite Ht.
  destruct (inlineOrStash_carries (callbackNamespace ++ lit "sk~") (QueryEscape name) st Hok (escape_nonempty _ Hne) (Forall_take1 _ _ (escape_chars name)) Hc) as (tok & E1 & Hcar & Hok').
  destruct (inlineOrStash _ _ st) as [data st']. cbn [fst snd] in *. subst data. split; [done|].
  assert (Hd : DecodeCallback st' (callbackNamespace ++ lit "sk~" ++ tok) = Some (mkCallback SkillActivate [] [] [] 0 0 name [])).
  { rewrite decode_namespaced, (has_prefix_app (lit "sk~")), (trim_prefix_app (lit "sk~")). simpl. 
    destruct Hcar as [[Hx _]|(_ & _ & ->)]; [by apply escape_nonempty in Hne|]. unfold decodeId. rewrite unescape_escape. simpl.
    unfold blank. rewrite Ht, (proj2 (is_empty_false name) Hne). done. }
  rewrite <- app_assoc, Hd. split; [done|]. simpl. unfold SyntheticCommand. simpl. by rewrite Ht, (proj2 (is_empty_false name) Hne).
Qed.

Lemma format36_length fuel : forall n acc, (length (format36 fuel n acc) <= fuel + length acc)%nat.
Proof.
  induction fuel as [|fuel IH]; intros n acc; simpl; [lia|]. case_if; simpl; [lia|]. specialize (IH (n / 36) (digit36 (n mod 36) :: acc)). simpl in IH. lia.
Qed.
Lemma stash_token args st : (stashArgs args st).1 = shortHash args.
Proof. unfold stashArgs. repeat case_match; done. Qed.
Lemma inlineOrStash_fits base argsStr st : slen base <= 50 -> slen (inlineOrStash base argsStr st).1 <= telegramCallbackLimit.
Proof.
  intros Hb. unfold inlineOrStash. case_if; [by bool_hyps|]. pose proof (stash_token argsStr st) as Ht.
  destruct (stashArgs argsStr st) as [token st']. simpl in *. subst token. unfold slen in *. rewrite !length_app. 
  pose proof (format36_length 13 (fnv64a argsStr) []) as Hl. fold (shortHash argsStr) in Hl. simpl length in *. unfold telegramCallbackLimit. lia.
Qed.
(** a list button fits the 64 bytes of the transport whenever its fixed
    part leaves room for a token of 14: the arguments never make it too long,
    and a skill button always fits. *)
Theorem buttons_fit_the_transport resource action args page st name :
  (slen resource + slen action + slen (itoa page) <= 42 -> slen (EncodeListCallback resource action args page st).1 <= telegramCallbackLimit) /\
  slen (EncodeSkillActivateCallback name st).1 <= telegramCallbackLimit.
Proof.
  split.
  - intros H. unfold EncodeListCallback. set (base := callbackNamespace ++ _).
    assert (Hb : slen base <= 50) by (unfold base, slen in *; rewrite !length_app; simpl length; lia).
    case_if; [simpl; unfold telegramCallbackLimit; lia|]. by apply inlineOrStash_fits.
  - by apply inlineOrStash_fits.
Qed.

(** An argument the quoting can carry: no double quotes and line breaks, no
    apostrophe unless there is a blank as well, and not a flag. *)
Definition quotable (a : str) : Prop :=
  trimmed a /\ dquote ∉ a /\ nl ∉ a /\ cr ∉ a /\ (squote ∈ a -> " "%char ∈ a \/ tab ∈ a) /\ flagName a = false.
Section taps.
Context {U : Unicode}.
End taps.

(** ** Concrete buttons *)
Lemma empty_no_collision args : no_collision emptyStash args.
Proof. intros v H. unfold emptyStash in H. cbn [argsStash] in H. by apply lookup_empty_Some in H. Qed.
Definition servers : list str := [lit "My Server"; lit "x"].
Lemma servers_quotable : Forall quotable servers.
Proof.
  repeat (constructor; [split_and!; [split; [reflexivity|done]|..|reflexivity]; vm_compute; set_solver|]). constructor.
Qed.
Lemma servers_trimmed : Forall trimmed servers.
Proof. eapply Forall_impl; [apply servers_quotable|]. by intros a (? & _). Qed.
Lemma list_button_round_trip_witness :
  let '(data, st') := EncodeListCallback (lit "mcp") (lit "get") servers 2 emptyStash in
  stash_ok st' /\ DecodeCallback st' data = Some (mkCallback ListPage (lit "mcp") (lit "get") servers 2 0 [] []).
Proof.
  apply (list_button_round_trip emptyStash (lit "mcp") (lit "get") servers 2).
  - apply emptyStash_ok.
  - vm_compute. set_solver.
  - vm_compute. set_solver.
  - by vm_compute.
  - apply servers_trimmed.
  - apply empty_no_collision.
Defined.
Lemma skill_button_round_trip_witness :
  let '(data, st') := EncodeSkillActivateCallback (lit "alpha") emptyStash in
  stash_ok st' /\ DecodeCallback st' data = Some (mkCallback SkillActivate [] [] [] 0 0 (lit "alpha") []) /\
  (SyntheticCommand <$> DecodeCallback st' data) = Some (lit "/" ++ lit "alpha").
Proof.
  apply (skill_button_round_trip emptyStash (lit "alpha")); [apply emptyStash_ok|by split|apply empty_no_collision].
Defined.
Lemma fresh_button_survives_witness :
  argsStash (foldl (fun st a => (stashArgs a st).2) (stashArgs (lit "a") emptyStash).2 [lit "b"; lit "c"]) !! shortHash (lit "a") = Some (lit "a").
Proof. apply (fresh_button_survives emptyStash (lit "a")); [apply emptyStash_ok|reflexivity|simpl; lia]. Defined.
(** an apostrophe in an argument without blanks swallows the rest. Such an
    argument is not quoted, the tokenizer takes its apostrophe for an opening
    quote, and the page flag becomes part of the name. *)
Theorem apostrophe_swallows_the_page :
  Parse (U := ascii_unicode) (SyntheticCommand (mkCallback ListPage (lit "mcp") (lit "get") [lit "bob's"] 2 0 [] [])) =
  Ok (mkParsed (lit "mcp") (lit "get") [lit "bobs --page 2"] 0 (-1) [] []).
Proof. by vm_compute. Qed.
