(* ===== verification/BotAccess.v ===== *)
(** * Who may use a bot

    The rows the access services share, and three services over them: the
    grants of workspace users ([internal/bots/grants.go]), the chat rules of
    channels ([internal/acl]), and link codes with the managers they make
    ([internal/channelaccess]). A query is the SQL of
    [db/postgres/queries], on one team's rows; a query that fails for its
    transport returns its error and changes nothing, and is left out. *)
From S2P Require Import Prelude GoStr.
#[local] Open Scope Z_scope.

Inductive AccessError : Type :=
  | ErrInvalidUUID | NoRows | ConstraintViolation
  | ErrBotNotFound | ErrBotAccessDenied | ErrOwnerUserNotFound
  | ErrGrantNotFound | ErrInvalidPermission | ErrInvalidGrantSubject | ErrGrantUserRequired | ErrGrantOwnerConflict | ErrGrantExists
  | ErrInvalidRuleSubject | ErrInvalidSourceScope | ErrInvalidEffect | ErrUnknownPreset
  | ErrCodeNotFound | ErrCodeExpired | ErrCodeConsumed | ErrInvalidInput.
#[export] Instance AccessError_eq : EqDecision AccessError.
Proof. solve_decision. Defined.

(** [uuid.Parse] of google/uuid, giving the canonical text. *)
Class UUIDs : Type := { uuid_parse : str -> option str }.
Class UUIDLaws `{UUIDs} : Prop := {
  uuid_canonical s u : uuid_parse s = Some u -> uuid_parse u = Some u;
  uuid_filled : uuid_parse [] = None;
  uuid_text s u : uuid_parse s = Some u -> trim_space u = u /\ u <> [];
}.

(** ** Rows *)
Record BotRow : Type := mkBot { botName : str; botOwnerUserID : str; botAclDefaultEffect : str }.
Record GrantRow : Type := mkGrant { grID : str; grBotID : str; grSubjectType : str; grUserID : option str; grPermissions : list str }.
Record RuleRow : Type := mkRule {
  rrID : str; rrBotID : str; rrEnabled : bool; rrDescription : option str; rrEffect : str; rrChannelIdentityID : option str;
  rrSubjectChannelType : option str; rrSourceChannel : option str; rrSourceConversationType : option str;
  rrSourceConversationID : option str; rrSourceThreadID : option str; rrCreatedBy : option str;
}.
Record IdentityRow : Type := mkIdentity { idChannelType : str; idSubjectID : str; idDisplayName : str; idAvatarURL : str }.
Record CodeRow : Type := mkCode {
  cdUserID : str; cdChannelType : str; cdExpiresAt : Z; cdConsumedAt : option Z; cdConsumedBy : option str;
}.
Record Db : Type := mkDb {
  dbUsers : gset str; dbBots : gmap str BotRow; dbGrants : list GrantRow; dbRules : list RuleRow;
  dbIdentities : gmap str IdentityRow; dbOverrides : gmap (str * str) bool; dbBindings : list (str * str); dbCodes : gmap str CodeRow;
}.
Definition set_bots (f : gmap str BotRow -> gmap str BotRow) (d : Db) : Db :=
  mkDb (dbUsers d) (f (dbBots d)) (dbGrants d) (dbRules d) (dbIdentities d) (dbOverrides d) (dbBindings d) (dbCodes d).
Definition set_grants (f : list GrantRow -> list GrantRow) (d : Db) : Db :=
  mkDb (dbUsers d) (dbBots d) (f (dbGrants d)) (dbRules d) (dbIdentities d) (dbOverrides d) (dbBindings d) (dbCodes d).
Definition set_rules (f : list RuleRow -> list RuleRow) (d : Db) : Db :=
  mkDb (dbUsers d) (dbBots d) (dbGrants d) (f (dbRules d)) (dbIdentities d) (dbOverrides d) (dbBindings d) (dbCodes d).
Definition set_overrides (f : gmap (str * str) bool -> gmap (str * str) bool) (d : Db) : Db :=
  mkDb (dbUsers d) (dbBots d) (dbGrants d) (dbRules d) (dbIdentities d) (f (dbOverrides d)) (dbBindings d) (dbCodes d).
Definition set_links (bindings : list (str * str)) (codes : gmap str CodeRow) (d : Db) : Db :=
  mkDb (dbUsers d) (dbBots d) (dbGrants d) (dbRules d) (dbIdentities d) (dbOverrides d) bindings codes.

(** A lookup that must find its row, and a check. *)
Definition found {A} (e : AccessError) (o : option A) : result AccessError A := match o with Some a => Ok a | None => Err e end.
Definition check (ok : bool) (e : AccessError) : result AccessError unit := if ok then Ok tt else Err e.

Section access.
Context {U : Unicode} {I : UUIDs}.
Definition ParseUUID (id : str) : result AccessError str := found ErrInvalidUUID (uuid_parse (trim_space id)).
Definition optionalUUID (value : str) : option str := uuid_parse (trim_space (trim_space value)).
Definition optionalText (value : str) : option str := let value := trim_space value in if is_empty value then None else Some value.

(** ** Grants *)
Definition PermissionChat : str := lit "chat".
Definition PermissionWorkspaceRead : str := lit "workspace_read".
Definition PermissionWorkspaceWrite : str := lit "workspace_write".
Definition PermissionWorkspaceExec : str := lit "workspace_exec".
Definition PermissionManage : str := lit "manage".
Definition GrantSubjectUser : str := lit "user".
Definition GrantSubjectEveryone : str := lit "everyone".
Definition allPermissions : list str :=
  [PermissionChat; PermissionWorkspaceRead; PermissionWorkspaceWrite; PermissionWorkspaceExec; PermissionManage].
Definition isKnownPermission (permission : str) : bool := bool_decide (permission ∈ allPermissions).
Definition permissionKey (p : str) : str := to_lower (trim_space p).
Definition expandPermissionSet (seen : list str) : list str :=
  let seen := if bool_decide (PermissionManage ∈ seen) then seen ++ allPermissions else seen in
  let seen := if bool_decide (PermissionWorkspaceWrite ∈ seen) then seen ++ [PermissionWorkspaceRead] else seen in
  List.filter (fun p => bool_decide (p ∈ seen)) allPermissions.
Definition expandPermissions (perms : list str) : list str := expandPermissionSet (List.filter isKnownPermission (permissionKey <$> perms)).
Definition hasPermission (granted : list str) (required : str) : bool :=
  let required := permissionKey required in
  let required := if is_empty required then PermissionManage else required in
  bool_decide (required ∈ expandPermissions granted).
Definition normalizePermissions (raw : list str) : result AccessError (list str) :=
  let keys := permissionKey <$> raw in
  if forallb (fun key => isKnownPermission key || is_empty key) keys then
    let out := expandPermissionSet (List.filter isKnownPermission keys) in
    if bool_decide (out = []) then Err ErrInvalidPermission else Ok out
  else Err ErrInvalidPermission.
(** The payload of a grant is the list it was encoded from. *)
Definition decodePermissions (perms : list str) : list str := expandPermissions (List.filter isKnownPermission (permissionKey <$> perms)).

Definition ListBotUserGrantsForUser (d : Db) (botID : str) (userID : option str) : list GrantRow :=
  List.filter (fun g => str_eqb (grBotID g) botID &&
    (str_eqb (grSubjectType g) GrantSubjectEveryone ||
     str_eqb (grSubjectType g) GrantSubjectUser && bool_decide (is_Some userID /\ grUserID g = userID))) (dbGrants d).
(** [ResolveUserPermissionsForBot], which [ResolveUserPermissions] calls with the row. *)
Definition ResolveUserPermissionsForBot (d : Db) (botID : str) (bot : BotRow) (userID : str) (isAdmin : bool) : list str :=
  let uid := trim_space userID in
  if isAdmin || str_eqb (botOwnerUserID bot) uid then allPermissions
  else
    let user := if is_empty uid then None else uuid_parse (trim_space uid) in
    expandPermissionSet (g ← ListBotUserGrantsForUser d botID user; decodePermissions (grPermissions g)).
Definition ResolveUserPermissions (d : Db) (botID userID : str) (isAdmin : bool) : result AccessError (list str) :=
  id <-? ParseUUID botID ;;
  bot <-? found ErrBotNotFound (dbBots d !! id) ;;
  Ok (ResolveUserPermissionsForBot d id bot userID isAdmin).
(** [Get] finds a bot by its id or by its name. *)
Definition normalizeName (name : str) : str := to_lower (trim_space name).
Definition GetBot (d : Db) (identifier : str) : option (str * BotRow) :=
  match uuid_parse (trim_space (trim_space identifier)) with
  | Some id => bot ← dbBots d !! id; Some (id, bot)
  | None => list_find (fun kv => botName kv.2 = normalizeName (trim_space identifier)) (map_to_list (dbBots d)) ≫= fun r => Some r.2
  end.
Definition AuthorizeAccessWithPermission (d : Db) (userID botID : str) (isAdmin : bool) (required : str) : result AccessError str :=
  r <-? found ErrBotNotFound (GetBot d botID) ;;
  let '(id, bot) := r in
  if isAdmin || str_eqb (botOwnerUserID bot) (trim_space userID) then Ok id
  else
    perms <-? ResolveUserPermissions d id userID isAdmin ;;
    if hasPermission perms (if is_empty required then PermissionManage else required) then Ok id else Err ErrBotAccessDenied.

(** A grant as the callers of [ListUserGrants] read it. *)
Record UserGrant : Type := mkUserGrant { ugSubjectType : str; ugUserID : str; ugPermissions : list str; ugIsOwner : bool }.
Definition grantOfRow (g : GrantRow) : UserGrant :=
  mkUserGrant (grSubjectType g) (default [] (grUserID g)) (decodePermissions (grPermissions g)) false.
Definition ListBotUserGrants (d : Db) (botID : str) : list GrantRow :=
  let rows := List.filter (fun g => str_eqb (grBotID g) botID) (dbGrants d) in
  List.filter (fun g => str_eqb (grSubjectType g) GrantSubjectUser) rows ++
  List.filter (fun g => negb (str_eqb (grSubjectType g) GrantSubjectUser)) rows.
Definition ListUserGrants (d : Db) (botID : str) : result AccessError (list UserGrant) :=
  id <-? ParseUUID botID ;;
  bot <-? found ErrBotNotFound (dbBots d !! id) ;;
  Ok (mkUserGrant GrantSubjectUser (botOwnerUserID bot) allPermissions true :: (grantOfRow <$> ListBotUserGrants d id)).

(** The unique indexes of the table. *)
Definition grantTaken (d : Db) (botID : str) (user : option str) : bool :=
  existsb (fun g => str_eqb (grBotID g) botID && bool_decide (grUserID g = user)) (dbGrants d).
Definition CreateBotUserGrant (d : Db) (row : GrantRow) : result AccessError Db :=
  if grantTaken d (grBotID row) (grUserID row) then Err ErrGrantExists else Ok (set_grants (fun l => l ++ [row]) d).
Definition CreateUserGrant (d : Db) (newID botID subjectType userID : str) (permissions : list str) : result AccessError Db :=
  id <-? ParseUUID botID ;;
  bot <-? found ErrBotNotFound (dbBots d !! id) ;;
  perms <-? normalizePermissions permissions ;;
  let subject := to_lower (trim_space subjectType) in
  if str_eqb subject GrantSubjectEveryone then CreateBotUserGrant d (mkGrant newID id subject None perms)
  else if str_eqb subject GrantSubjectUser then
    let userID := trim_space userID in
    if is_empty userID then Err ErrGrantUserRequired
    else
      user <-? ParseUUID userID ;;
      if str_eqb (botOwnerUserID bot) userID then Err ErrGrantOwnerConflict
      else _ <-? check (bool_decide (user ∈ dbUsers d)) ErrOwnerUserNotFound ;;
           CreateBotUserGrant d (mkGrant newID id subject (Some user) perms)
  else Err ErrInvalidGrantSubject.
(** The row of a grant, when it is one of the bot. *)
Definition grantOfBot (d : Db) (botID grantID : str) : result AccessError str :=
  id <-? ParseUUID grantID ;;
  g <-? found ErrGrantNotFound (snd <$> find_idx (fun g => str_eqb (grID g) id) (dbGrants d)) ;;
  if str_eqb (grBotID g) (trim_space botID) then Ok id else Err ErrGrantNotFound.
Definition UpdateUserGrant (d : Db) (botID grantID : str) (permissions : list str) : result AccessError Db :=
  id <-? grantOfBot d botID grantID ;;
  perms <-? normalizePermissions permissions ;;
  Ok (set_grants (fmap (fun g => if str_eqb (grID g) id then mkGrant (grID g) (grBotID g) (grSubjectType g) (grUserID g) perms else g)) d).
Definition DeleteUserGrant (d : Db) (botID grantID : str) : result AccessError Db :=
  id <-? grantOfBot d botID grantID ;;
  Ok (set_grants (List.filter (fun g => negb (str_eqb (grID g) id))) d).

(** ** Chat rules *)
Definition EffectAllow : str := lit "allow".
Definition EffectDeny : str := lit "deny".
Record SourceScope : Type := mkScope { ssConversationType : str; ssConversationID : str; ssThreadID : str }.
Record EvaluateRequest : Type := mkRequest { erBotID : str; erChannelIdentityID : str; erChannelType : str; erSourceScope : SourceScope }.
Record RuleRequest : Type := mkRuleRequest {
  rqEnabled : bool; rqDescription : str; rqEffect : str; rqChannelIdentityID : str; rqSubjectChannelType : str;
  rqSourceScope : option SourceScope;
}.
Definition ConversationTypePrivate : str := lit "private".
Definition ConversationTypeGroup : str := lit "group".
Definition ConversationTypeThread : str := lit "thread".
(** [channel.NormalizeConversationType] *)
Definition NormalizeConversationType (raw : str) : str :=
  let t := to_lower (trim_space raw) in
  if bool_decide (t ∈ [[]; lit "p2p"; lit "direct"; ConversationTypePrivate]) then ConversationTypePrivate
  else if str_eqb t ConversationTypeThread then ConversationTypeThread
  else ConversationTypeGroup.
Definition NormalizeScope (s : SourceScope) : SourceScope :=
  let thread := trim_space (ssThreadID s) in
  let type := if blank (ssConversationType s) then [] else NormalizeConversationType (trim_space (ssConversationType s)) in
  mkScope (if negb (is_empty thread) && is_empty type then ConversationTypeThread else type) (trim_space (ssConversationID s)) thread.
Definition IsZeroScope (s : SourceScope) : bool := blank (ssConversationType s) && blank (ssConversationID s) && blank (ssThreadID s).
Definition normalizeSourceScope (s : SourceScope) : result AccessError SourceScope :=
  let n := NormalizeScope s in
  if negb (is_empty (ssThreadID n)) && is_empty (ssConversationID n) then Err ErrInvalidSourceScope else Ok n.
Definition zeroScope : SourceScope := mkScope [] [] [].
Definition normalizeOptionalSourceScope (s : option SourceScope) : result AccessError SourceScope :=
  match s with Some s => normalizeSourceScope s | None => Ok zeroScope end.
Definition validEffect (effect : str) : bool :=
  let effect := trim_space effect in str_eqb effect EffectAllow || str_eqb effect EffectDeny.

(** The query: [r.x IS NULL OR r.x = arg]. *)
Definition matchesText (rule arg : option str) : bool := match rule with None => true | Some _ => bool_decide (rule = arg) end.
Record RuleQuery : Type := mkQuery {
  rqyIdentity : option str; rqyChannelType : option str; rqyConversationType : option str; rqyConversation : option str; rqyThread : option str;
}.
Definition ruleMatches (q : RuleQuery) (r : RuleRow) : bool :=
  matchesText (rrSubjectChannelType r) (rqyChannelType q) && matchesText (rrChannelIdentityID r) (rqyIdentity q) &&
  matchesText (rrSourceConversationType r) (rqyConversationType q) && matchesText (rrSourceConversationID r) (rqyConversation q) &&
  matchesText (rrSourceThreadID r) (rqyThread q).
Definition overrides (bot : BotRow) (botID : str) (q : RuleQuery) (r : RuleRow) : bool :=
  str_eqb (rrBotID r) botID && rrEnabled r && negb (str_eqb (rrEffect r) (botAclDefaultEffect bot)) && ruleMatches q r.
Definition EvaluateBotACLRule (d : Db) (botID : str) (q : RuleQuery) : result AccessError str :=
  bot <-? found NoRows (dbBots d !! botID) ;;
  Ok (match find_idx (overrides bot botID q) (dbRules d) with Some (_, r) => rrEffect r | None => botAclDefaultEffect bot end).

(** The acl service: [ownerOnly] names the channels no third party reaches. *)
Definition OwnerOnlyChannel (ownerOnly : option (str -> bool)) (channelType : str) : bool :=
  match ownerOnly with Some fn => fn (trim_space channelType) | None => false end.
Definition queryOf (req : EvaluateRequest) (scope : SourceScope) : RuleQuery :=
  mkQuery (optionalUUID (trim_space (erChannelIdentityID req))) (optionalText (trim_space (erChannelType req)))
    (optionalText (ssConversationType scope)) (optionalText (ssConversationID scope)) (optionalText (ssThreadID scope)).
Definition Evaluate (ownerOnly : option (str -> bool)) (d : Db) (req : EvaluateRequest) : result AccessError bool :=
  if OwnerOnlyChannel ownerOnly (erChannelType req) then Ok true
  else
    scope <-? normalizeSourceScope (erSourceScope req) ;;
    bot <-? ParseUUID (trim_space (erBotID req)) ;;
    effect <-? EvaluateBotACLRule d bot (queryOf req scope) ;;
    Ok (str_eqb effect EffectAllow).

Definition SetDefaultEffect (d : Db) (botID effect : str) : result AccessError Db :=
  let effect := trim_space effect in
  _ <-? check (str_eqb effect EffectAllow || str_eqb effect EffectDeny) ErrInvalidEffect ;;
  bot <-? ParseUUID botID ;;
  Ok (set_bots (alter (fun b => mkBot (botName b) (botOwnerUserID b) effect) bot) d).
Definition validateTarget (d : Db) (channelIdentityID channelType : str) : result AccessError unit :=
  let identity := trim_space channelIdentityID in
  let channelType := trim_space channelType in
  if is_empty identity then Ok tt
  else
    id <-? ParseUUID identity ;;
    row <-? found NoRows (dbIdentities d !! id) ;;
    check (is_empty channelType || str_eqb (trim_space (idChannelType row)) channelType) ErrInvalidRuleSubject.
Definition resolveSourceChannel (d : Db) (scope : SourceScope) (subjectChannelType channelIdentityID : str) : result AccessError str :=
  if IsZeroScope scope then Ok []
  else if negb (blank subjectChannelType) then Ok (trim_space subjectChannelType)
  else if blank channelIdentityID then Ok []
  else
    id <-? ParseUUID (trim_space channelIdentityID) ;;
    row <-? found NoRows (dbIdentities d !! id) ;;
    Ok (trim_space (idChannelType row)).
(** The checks and the unique key of the table. *)
Definition ruleKey (r : RuleRow) : str * str * option str * option str * option str * option str * option str :=
  (rrBotID r, rrEffect r, rrChannelIdentityID r, rrSubjectChannelType r, rrSourceConversationType r, rrSourceConversationID r, rrSourceThreadID r).
Definition ruleAllowed (others : list RuleRow) (r : RuleRow) : bool :=
  (str_eqb (rrEffect r) EffectAllow || str_eqb (rrEffect r) EffectDeny) &&
  (bool_decide (rrSourceConversationID r = None /\ rrSourceThreadID r = None) || bool_decide (is_Some (rrSourceChannel r))) &&
  (bool_decide (rrSourceThreadID r = None) || bool_decide (is_Some (rrSourceConversationID r))) &&
  bool_decide (rrSourceConversationType r ∈ [None; Some ConversationTypePrivate; Some ConversationTypeGroup; Some ConversationTypeThread]) &&
  negb (existsb (fun o => bool_decide (ruleKey o = ruleKey r)) others).
Definition ruleOf (id botID : str) (req : RuleRequest) (scope : SourceScope) (sourceChannel createdBy : str) : RuleRow :=
  mkRule id botID (rqEnabled req) (optionalText (rqDescription req)) (rqEffect req) (optionalUUID (rqChannelIdentityID req))
    (optionalText (rqSubjectChannelType req)) (optionalText sourceChannel) (optionalText (ssConversationType scope))
    (optionalText (ssConversationID scope)) (optionalText (ssThreadID scope)) (optionalUUID createdBy).
Definition insertRule (d : Db) (row : RuleRow) : result AccessError Db :=
  _ <-? check (bool_decide (is_Some (dbBots d !! rrBotID row)) && bool_decide (rrID row ∉ rrID <$> dbRules d) && ruleAllowed (dbRules d) row)
    ConstraintViolation ;;
  Ok (set_rules (fun l => l ++ [row]) d).
Definition CreateRule (d : Db) (newID botID createdBy : str) (req : RuleRequest) : result AccessError Db :=
  _ <-? check (validEffect (rqEffect req)) ErrInvalidEffect ;;
  _ <-? validateTarget d (rqChannelIdentityID req) (rqSubjectChannelType req) ;;
  scope <-? normalizeOptionalSourceScope (rqSourceScope req) ;;
  channel <-? resolveSourceChannel d scope (rqSubjectChannelType req) (rqChannelIdentityID req) ;;
  bot <-? ParseUUID botID ;;
  insertRule d (ruleOf newID bot req scope channel createdBy).
Definition UpdateRule (d : Db) (ruleID : str) (req : RuleRequest) : result AccessError Db :=
  _ <-? check (validEffect (rqEffect req)) ErrInvalidEffect ;;
  _ <-? validateTarget d (rqChannelIdentityID req) (rqSubjectChannelType req) ;;
  scope <-? normalizeOptionalSourceScope (rqSourceScope req) ;;
  channel <-? resolveSourceChannel d scope (rqSubjectChannelType req) (rqChannelIdentityID req) ;;
  id <-? ParseUUID ruleID ;;
  found_ <-? found NoRows (find_idx (fun r => str_eqb (rrID r) id) (dbRules d)) ;;
  let old := found_.2 in
  let n := ruleOf id (rrBotID old) req scope channel [] in
  let row := mkRule id (rrBotID old) (rrEnabled n) (rrDescription n) (rrEffect n) (rrChannelIdentityID n) (rrSubjectChannelType n)
    (rrSourceChannel n) (rrSourceConversationType n) (rrSourceConversationID n) (rrSourceThreadID n) (rrCreatedBy old) in
  _ <-? check (ruleAllowed (List.filter (fun r => negb (str_eqb (rrID r) id)) (dbRules d)) row) ConstraintViolation ;;
  Ok (set_rules (fmap (fun r => if str_eqb (rrID r) id then row else r)) d).
Definition DeleteRule (d : Db) (ruleID : str) : result AccessError Db :=
  id <-? ParseUUID ruleID ;; Ok (set_rules (List.filter (fun r => negb (str_eqb (rrID r) id))) d).

(** [presets.go] *)
Record Preset : Type := mkPreset { psKey : str; psDefaultEffect : str; psRules : list RuleRequest }.
Definition conversationRule (type : str) : RuleRequest := mkRuleRequest true [] EffectAllow [] [] (Some (mkScope type [] [])).
Definition NormalizePresetKey (raw : str) : str :=
  let value := to_lower (trim_space raw) in if is_empty value then lit "allow_all" else value.
Definition ResolvePreset (raw : str) : result AccessError Preset :=
  let key := NormalizePresetKey raw in
  if str_eqb key (lit "allow_all") then Ok (mkPreset key EffectAllow [])
  else if str_eqb key (lit "private_only") then Ok (mkPreset key EffectDeny [conversationRule (lit "private")])
  else if str_eqb key (lit "group_only") then Ok (mkPreset key EffectDeny [conversationRule (lit "group")])
  else if str_eqb key (lit "group_and_thread_only") then
    Ok (mkPreset key EffectDeny [conversationRule (lit "group"); conversationRule (lit "thread")])
  else if str_eqb key (lit "deny_all") then Ok (mkPreset key EffectDeny [])
  else Err ErrUnknownPreset.
Definition presetSourceChannel (subjectChannelType : str) (scope : SourceScope) : result AccessError str :=
  if IsZeroScope scope then Ok []
  else if is_empty (ssConversationID scope) && is_empty (ssThreadID scope) then Ok []
  else if blank subjectChannelType then Err ErrInvalidRuleSubject
  else Ok (trim_space subjectChannelType).
Definition applyPresetRule (d : Db) (newID botID createdBy : str) (rule : RuleRequest) : result AccessError Db :=
  _ <-? check (validEffect (rqEffect rule)) ErrInvalidEffect ;;
  scope <-? normalizeOptionalSourceScope (rqSourceScope rule) ;;
  channel <-? presetSourceChannel (rqSubjectChannelType rule) scope ;;
  insertRule d (ruleOf newID botID rule scope channel createdBy).
(** The rows stay as far as it came; [newID n] is the id of the n-th new row. *)
Fixpoint applyPresetRules (d : Db) (n : nat) (newID : nat -> str) (botID createdBy : str) (rules : list RuleRequest) : Db * option AccessError :=
  match rules with
  | [] => (d, None)
  | rule :: rules =>
      match applyPresetRule d (newID n) botID createdBy rule with
      | Ok d => applyPresetRules d (S n) newID botID createdBy rules
      | Err e => (d, Some e)
      end
  end.
Definition ApplyPreset (d : Db) (newID : nat -> str) (botID createdBy raw : str) : Db * option AccessError :=
  match (preset <-? ResolvePreset raw ;; bot <-? ParseUUID botID ;; Ok (preset, bot)) with
  | Ok (preset, bot) =>
      let d := set_bots (alter (fun b => mkBot (botName b) (botOwnerUserID b) (psDefaultEffect preset)) bot) d in
      applyPresetRules d 0 newID bot createdBy (psRules preset)
  | Err e => (d, Some e)
  end.

(** ** Link codes *)
Definition tokenAlphabet : str := lit "23456789ABCDEFGHJKLMNPQRSTUVWXYZ".
Definition tokenLength : nat := 8.
Definition defaultCodeTTL : Z := 600 * 10 ^ 9.
(** [generateToken] of the random bytes it read. *)
Definition generateToken (buf : list Z) : str :=
  (fun b => nth (Z.to_nat (b mod slen tokenAlphabet)) tokenAlphabet "2"%char) <$> take tokenLength buf.
(** The tables refer to a user and to an identity that exist. *)
Definition IssueLinkCode (d : Db) (userID channelType : str) (buf : list Z) (now : Z) : result AccessError (str * Db) :=
  _ <-? check (negb (blank userID)) ErrInvalidInput ;;
  user <-? ParseUUID (trim_space userID) ;;
  let token := generateToken buf in
  _ <-? check (bool_decide (user ∈ dbUsers d) && bool_decide (dbCodes d !! token = None)) ConstraintViolation ;;
  Ok (token, set_links (dbBindings d) (<[token := mkCode user (trim_space channelType) (now + defaultCodeTTL) None None]> (dbCodes d)) d).
(** The statement claims the code and writes the binding at once; [now] is the
    clock of the database. *)
Definition RedeemChannelLinkCode (d : Db) (token identity : str) (now : Z) : result AccessError (str * Db) :=
  code <-? found NoRows (dbCodes d !! token) ;;
  _ <-? check (bool_decide (cdConsumedAt code = None) && (now <? cdExpiresAt code)) NoRows ;;
  _ <-? check (bool_decide (is_Some (dbIdentities d !! identity))) ConstraintViolation ;;
  let binding := (cdUserID code, identity) in
  Ok (cdUserID code,
      set_links (if bool_decide (binding ∈ dbBindings d) then dbBindings d else dbBindings d ++ [binding])
        (<[token := mkCode (cdUserID code) (cdChannelType code) (cdExpiresAt code) (Some now) (Some identity)]> (dbCodes d)) d).
Definition classifyRedeemNoRow (d : Db) (token : str) (now : Z) : AccessError :=
  match dbCodes d !! token with
  | None => ErrCodeNotFound
  | Some code =>
      if bool_decide (is_Some (cdConsumedAt code)) then ErrCodeConsumed
      else if negb (now <? cdExpiresAt code) then ErrCodeExpired
      else ErrCodeConsumed
  end.
(** [strings.ToUpper], with [unicode.ToUpper] of the runes above U+007F. *)
Definition to_upper_rune (upper : Z -> Z) (r : Z) : Z := if r <? 128 then (if in_range 97 122 r then r - 32 else r) else upper r.
Definition to_upper (upper : Z -> Z) (s : str) : str := encode (to_upper_rune upper <$> runes s).
Definition normalizeToken (upper : Z -> Z) (token : str) : str := to_upper upper (trim_space token).
(** [clock] is the time of the service. *)
Definition ConsumeLinkCode (upper : Z -> Z) (d : Db) (token channelIdentityID : str) (now clock : Z) : result AccessError (str * Db) :=
  let token := normalizeToken upper token in
  let identity := trim_space channelIdentityID in
  _ <-? check (negb (is_empty token || is_empty identity)) ErrInvalidInput ;;
  id <-? ParseUUID identity ;;
  match RedeemChannelLinkCode d token id now with
  | Err NoRows => Err (classifyRedeemNoRow d token clock)
  | r => r
  end.
Definition Unbind (d : Db) (userID channelIdentityID : str) : result AccessError Db :=
  user <-? ParseUUID (trim_space userID) ;;
  id <-? ParseUUID (trim_space channelIdentityID) ;;
  Ok (set_links (List.filter (fun b => negb (bool_decide (b = (user, id)))) (dbBindings d)) (dbCodes d) d).

(** ** Managers *)
Definition GetManageOverride (d : Db) (botID channelIdentityID : str) : result AccessError (option bool) :=
  bot <-? ParseUUID (trim_space botID) ;;
  id <-? ParseUUID (trim_space channelIdentityID) ;;
  Ok (dbOverrides d !! (bot, id)).
Definition SetManageOverride (d : Db) (botID channelIdentityID : str) (granted : bool) : result AccessError Db :=
  _ <-? check (negb (blank channelIdentityID)) ErrInvalidRuleSubject ;;
  bot <-? ParseUUID (trim_space botID) ;;
  id <-? ParseUUID (trim_space channelIdentityID) ;;
  _ <-? check (bool_decide (is_Some (dbIdentities d !! id))) ErrInvalidRuleSubject ;;
  _ <-? check (bool_decide (is_Some (dbBots d !! bot))) ConstraintViolation ;;
  Ok (set_overrides <[(bot, id) := granted]> d).
Definition DeleteManageOverride (d : Db) (botID channelIdentityID : str) : result AccessError Db :=
  bot <-? ParseUUID (trim_space botID) ;;
  id <-? ParseUUID (trim_space channelIdentityID) ;;
  Ok (set_overrides (delete (bot, id)) d).
Definition ListUserIDsByChannelIdentity (d : Db) (id : str) : list str := fst <$> List.filter (fun b => str_eqb b.2 id) (dbBindings d).
(** A bound user who lost access does not count and does not stop the search. *)
Definition userHasManage (d : Db) (botID userID : str) : result AccessError bool :=
  match ResolveUserPermissions d botID userID false with
  | Ok perms => Ok (hasPermission perms PermissionManage)
  | Err ErrBotNotFound => Ok false
  | Err e => Err e
  end.
Fixpoint anyManage (d : Db) (botID : str) (users : list str) : result AccessError bool :=
  match users with
  | [] => Ok false
  | user :: users =>
      if blank user then anyManage d botID users
      else ok <-? userHasManage d botID user ;; if ok then Ok true else anyManage d botID users
  end.
Definition inheritedManage (d : Db) (botID channelIdentityID : str) : result AccessError bool :=
  id <-? ParseUUID channelIdentityID ;; anyManage d botID (ListUserIDsByChannelIdentity d id).
Definition HasManageGrant (d : Db) (botID channelIdentityID : str) : result AccessError bool :=
  let identity := trim_space channelIdentityID in
  if is_empty identity then Ok false
  else
    override <-? GetManageOverride d botID identity ;;
    match override with Some granted => Ok granted | None => inheritedManage d botID identity end.
(** [BotMemberRoleAdapter.GetMemberRole], with the manage resolver in place. *)
Definition GetMemberRole (d : Db) (botID channelIdentityID : str) : result AccessError str :=
  r <-? found ErrBotNotFound (GetBot d botID) ;;
  if str_eqb (botOwnerUserID r.2) channelIdentityID then Ok (lit "owner")
  else if blank channelIdentityID then Ok []
  else granted <-? HasManageGrant d botID channelIdentityID ;; Ok (if granted then lit "manager" else []).

(** [ListManagers] *)
Record ManagerRow : Type := mkManagerRow {
  mgIdentity : str; mgChannelType : str; mgSubjectID : str; mgDisplayName : str; mgAvatarURL : str;
  mgManage : bool; mgInherited : bool; mgHasOverride : bool; mgBound : bool;
}.
Definition newManager (id : str) : ManagerRow := mkManagerRow id [] [] [] [] false false false false.
Definition orText (a b : str) : str := if is_empty a then b else a.
Definition identityOf (d : Db) (id : str) : IdentityRow := default (mkIdentity [] [] [] []) (dbIdentities d !! id).
Definition mergeManagerBinding (d : Db) (carriesManage : bool) (m : gmap str ManagerRow) (id : str) : gmap str ManagerRow :=
  let r := default (newManager id) (m !! id) in
  let i := identityOf d id in
  <[id := mkManagerRow id (orText (mgChannelType r) (idChannelType i)) (orText (mgSubjectID r) (idSubjectID i))
            (orText (mgDisplayName r) (idDisplayName i)) (orText (mgAvatarURL r) (idAvatarURL i))
            (mgManage r || carriesManage) (mgInherited r || carriesManage) (mgHasOverride r) true]> m.
Definition identitiesOfUser (d : Db) (user : str) : list str := snd <$> List.filter (fun b => str_eqb b.1 user) (dbBindings d).
(** [ListChannelIdentityBindingsForBot] joins the bindings with the grants of single users. *)
Definition identitiesOfBot (d : Db) (botID : option str) : list str :=
  snd <$> List.filter (fun b => existsb (fun g => bool_decide (Some (grBotID g) = botID) && str_eqb (grSubjectType g) GrantSubjectUser &&
                                                  bool_decide (grUserID g = Some b.1)) (dbGrants d)) (dbBindings d).
Definition carriesManage (g : UserGrant) : bool := ugIsOwner g || hasPermission (ugPermissions g) PermissionManage.
Definition mergeGrant (d : Db) (acc : gmap str ManagerRow * bool) (g : UserGrant) : gmap str ManagerRow * bool :=
  let '(m, everyone) := acc in
  if str_eqb (ugSubjectType g) GrantSubjectEveryone then (m, everyone || carriesManage g)
  else if blank (ugUserID g) || negb (str_eqb (ugSubjectType g) GrantSubjectUser) then (m, everyone)
  else match ParseUUID (trim_space (ugUserID g)) with
       | Ok user => (foldl (mergeManagerBinding d (carriesManage g)) m (identitiesOfUser d user), everyone)
       | Err _ => (m, everyone)
       end.
Definition mergeOverride (d : Db) (m : gmap str ManagerRow) (o : str * bool) : gmap str ManagerRow :=
  let '(id, granted) := o in
  let r := default (newManager id) (m !! id) in
  let i := identityOf d id in
  <[id := mkManagerRow id (orText (trim_space (idChannelType i)) (mgChannelType r)) (orText (trim_space (idSubjectID i)) (mgSubjectID r))
            (orText (trim_space (idDisplayName i)) (mgDisplayName r)) (orText (trim_space (idAvatarURL i)) (mgAvatarURL r)) granted (mgInherited r) true (mgBound r)]> m.
Definition overridesOfBot (d : Db) (botID : str) : list (str * bool) :=
  (fun kv => (kv.1.2, kv.2)) <$> List.filter (fun kv => str_eqb kv.1.1 botID) (map_to_list (dbOverrides d)).
Definition managersByIdentity (d : Db) (botID : str) : result AccessError (gmap str ManagerRow) :=
  grants <-? ListUserGrants d botID ;;
  let '(m, everyone) := foldl (mergeGrant d) (∅, false) grants in
  let bot := uuid_parse (trim_space (trim_space botID)) in
  let m := if everyone then foldl (mergeManagerBinding d true) m (identitiesOfBot d bot) else m in
  id <-? ParseUUID (trim_space botID) ;;
  Ok (foldl (mergeOverride d) m (overridesOfBot d id)).
Definition managerLess (a b : ManagerRow) : bool :=
  if str_eqb (mgDisplayName a) (mgDisplayName b) then str_ltb (mgIdentity a) (mgIdentity b) else str_ltb (mgDisplayName a) (mgDisplayName b).
Definition ListManagers (d : Db) (botID : str) : result AccessError (list ManagerRow) :=
  m <-? managersByIdentity d botID ;; Ok (stable_sort managerLess (snd <$> map_to_list m)).

(** ** The operations, in any order *)
Inductive AccessStep (upper : Z -> Z) : Db -> Db -> Prop :=
  | Step_CreateUserGrant d newID bot subject user perms d' : CreateUserGrant d newID bot subject user perms = Ok d' -> AccessStep upper d d'
  | Step_UpdateUserGrant d bot grant perms d' : UpdateUserGrant d bot grant perms = Ok d' -> AccessStep upper d d'
  | Step_DeleteUserGrant d bot grant d' : DeleteUserGrant d bot grant = Ok d' -> AccessStep upper d d'
  | Step_SetDefaultEffect d bot effect d' : SetDefaultEffect d bot effect = Ok d' -> AccessStep upper d d'
  | Step_CreateRule d newID bot createdBy req d' : CreateRule d newID bot createdBy req = Ok d' -> AccessStep upper d d'
  | Step_UpdateRule d rule req d' : UpdateRule d rule req = Ok d' -> AccessStep upper d d'
  | Step_DeleteRule d rule d' : DeleteRule d rule = Ok d' -> AccessStep upper d d'
  | Step_ApplyPreset d newID bot createdBy preset : AccessStep upper d (ApplyPreset d newID bot createdBy preset).1
  | Step_IssueLinkCode d user channel buf now r : IssueLinkCode d user channel buf now = Ok r -> AccessStep upper d r.2
  | Step_ConsumeLinkCode d token identity now clock r : ConsumeLinkCode upper d token identity now clock = Ok r -> AccessStep upper d r.2
  | Step_Unbind d user identity d' : Unbind d user identity = Ok d' -> AccessStep upper d d'
  | Step_SetManageOverride d bot identity granted d' : SetManageOverride d bot identity granted = Ok d' -> AccessStep upper d d'
  | Step_DeleteManageOverride d bot identity d' : DeleteManageOverride d bot identity = Ok d' -> AccessStep upper d d'.
Definition AccessReaches (upper : Z -> Z) : Db -> Db -> Prop := rtc (AccessStep upper).
End access.
