(* ===== verification/BotAccessCorrect.v ===== *)
(** * What the access services guarantee

    A user holds what the grants give and no more; the rules of a bot act only
    against its default, whatever their order; a link code binds one identity
    to the user who asked for it; the managers listed are those the commands
    let in. *)
From S2P Require Import Prelude GoStr GoTrim BotAccess.
#[local] Open Scope Z_scope.

(** A step of a checked operation. *)
Lemma rbind_Ok {E A B} (r : result E A) (k : A -> result E B) b : rbind r k = Ok b -> exists a, r = Ok a /\ k a = Ok b.
Proof. destruct r as [a|e]; [|done]. intros H. by exists a. Qed.
Lemma check_Ok b e u : check b e = Ok u -> b = true.
Proof. by destruct b. Qed.
Lemma found_Ok {A} e (o : option A) a : found e o = Ok a -> o = Some a.
Proof. by destruct o; intros [= ->]. Qed.
Ltac steps :=
  repeat match goal with
  | H : rbind _ _ = Ok _ |- _ => apply rbind_Ok in H as (? & ? & H); cbn beta in H
  | H : check _ _ = Ok _ |- _ => apply check_Ok in H
  | H : found _ _ = Ok _ |- _ => apply found_Ok in H
  | H : Ok _ = Ok _ |- _ => invc H
  | H : Err _ = Ok _ |- _ => discriminate H
  end.

Section access.
Context {U : Unicode} {I : UUIDs} {L : UUIDLaws}.

Definition canonical (u : str) : Prop := uuid_parse u = Some u.
Lemma ParseUUID_canonical u : canonical u -> ParseUUID u = Ok u.
Proof. intros H. unfold ParseUUID. destruct (uuid_text _ _ H) as [-> _]. by rewrite H. Qed.
Lemma ParseUUID_Ok s u : ParseUUID s = Ok u -> canonical u.
Proof. intros H%found_Ok. by eapply uuid_canonical. Qed.
Lemma canonical_trim u : canonical u -> trim_space u = u.
Proof. intros H. by destruct (uuid_text _ _ H). Qed.
Lemma canonical_filled u : canonical u -> u <> [].
Proof. intros H. by destruct (uuid_text _ _ H). Qed.

(** ** Permissions *)
Definition implies (held wanted : str) : Prop :=
  held = wanted \/ held = PermissionManage \/ held = PermissionWorkspaceWrite /\ wanted = PermissionWorkspaceRead.
Lemma isKnown_spec p : isKnownPermission p = true <-> p ∈ allPermissions.
Proof. apply bool_decide_eq_true. Qed.
Lemma known_key p : p ∈ allPermissions -> permissionKey p = p.
Proof. unfold allPermissions. rewrite !elem_of_cons, elem_of_nil. intros [->|[->|[->|[->|[->|[]]]]]]; reflexivity. Qed.
Lemma write_known : PermissionWorkspaceWrite ∈ allPermissions.
Proof. by apply isKnown_spec. Qed.
Lemma elem_of_if_app (b : bool) (l extra : list str) p : p ∈ (if b then l ++ extra else l) <-> p ∈ l \/ b = true /\ p ∈ extra.
Proof. destruct b; [rewrite elem_of_app|]; naive_solver. Qed.
Lemma expand_elem seen p : p ∈ expandPermissionSet seen <-> p ∈ allPermissions /\ exists q, q ∈ seen /\ implies q p.
Proof.
  unfold expandPermissionSet. rewrite elem_of_filter_bool, bool_decide_eq_true, !elem_of_if_app, !bool_decide_eq_true, !elem_of_if_app, !bool_decide_eq_true, list_elem_of_singleton.
  unfold implies. assert (H := write_known). split.
  - intros [Hp Hs]. split; [done|]. naive_solver.
  - intros (Hp & q & Hq & [->|[->|[-> ->]]]); naive_solver.
Qed.
Lemma expand_known seen p : p ∈ expandPermissionSet seen -> p ∈ allPermissions.
Proof. by intros [? _]%expand_elem. Qed.
Lemma implies_trans a b c : implies a b -> implies b c -> implies a c.
Proof. unfold implies. intros [->|[->|[-> ->]]] [<-|[H|[H ->]]]; subst; naive_solver. Qed.
Lemma known_keys l q : q ∈ List.filter isKnownPermission (permissionKey <$> l) <-> q ∈ allPermissions /\ exists r, r ∈ l /\ q = permissionKey r.
Proof. rewrite elem_of_filter_bool, isKnown_spec, list_elem_of_fmap. naive_solver. Qed.
Lemma expandPermissions_elem l p : p ∈ expandPermissions l <-> p ∈ allPermissions /\ exists r, r ∈ l /\ permissionKey r ∈ allPermissions /\ implies (permissionKey r) p.
Proof.
  unfold expandPermissions. rewrite expand_elem. setoid_rewrite known_keys. naive_solver.
Qed.
(** A set written by the service is read back unchanged. *)
Lemma expand_normal l p : (forall q, q ∈ l -> q ∈ allPermissions) -> (forall q r, q ∈ l -> implies q r -> r ∈ allPermissions -> r ∈ l) ->
  p ∈ expandPermissions l <-> p ∈ l.
Proof.
  intros Hk Hc. rewrite expandPermissions_elem. split.
  - intros (Hp & r & Hr & _ & Hi). rewrite known_key in Hi by auto. eauto.
  - intros Hp. split; [auto|]. exists p. rewrite known_key by auto. split_and!; [done|auto|by left].
Qed.
Lemma expand_closed seen q r : q ∈ expandPermissionSet seen -> implies q r -> r ∈ allPermissions -> r ∈ expandPermissionSet seen.
Proof. rewrite !expand_elem. intros (Hq & w & Hw & Hi) Hr Hk. split; [done|]. exists w. split; [done|]. by eapply implies_trans. Qed.
Lemma expand_again seen p : p ∈ expandPermissions (expandPermissionSet seen) <-> p ∈ expandPermissionSet seen.
Proof. apply expand_normal; [apply expand_known|apply expand_closed]. Qed.
Lemma decode_elem l p : p ∈ decodePermissions l <-> p ∈ allPermissions /\ exists r, r ∈ l /\ permissionKey r ∈ allPermissions /\ implies (permissionKey r) p.
Proof.
  unfold decodePermissions. rewrite expandPermissions_elem. setoid_rewrite known_keys. split.
  - intros (Hp & r & (Hr & w & Hw & ->) & _ & Hi). rewrite known_key in Hi by done. naive_solver.
  - intros (Hp & r & Hr & Hk & Hi). split; [done|]. exists (permissionKey r). rewrite (known_key (permissionKey r)) by done. naive_solver.
Qed.

(** The permission a check asks for. *)
Definition asked (required : str) : str := if is_empty (permissionKey required) then PermissionManage else permissionKey required.
Lemma hasPermission_expanded seen required : hasPermission (expandPermissionSet seen) required = true <-> asked required ∈ expandPermissionSet seen.
Proof. unfold hasPermission, asked. by rewrite bool_decide_eq_true, expand_again. Qed.
Lemma all_expanded : expandPermissionSet allPermissions = allPermissions.
Proof. reflexivity. Qed.

(** A grant speaks for a user, or for everyone. *)
Definition speaksFor (g : GrantRow) (botID userID : str) : Prop :=
  grBotID g = botID /\
  (grSubjectType g = GrantSubjectEveryone \/
   grSubjectType g = GrantSubjectUser /\ exists u, trim_space userID <> [] /\ ParseUUID (trim_space userID) = Ok u /\ grUserID g = Some u).
Lemma ParseUUID_trim s : ParseUUID (trim_space s) = ParseUUID s.
Proof. unfold ParseUUID. by rewrite trim_space_idem. Qed.
Lemma uuid_ParseUUID s u : uuid_parse (trim_space s) = Some u <-> ParseUUID s = Ok u.
Proof. unfold ParseUUID. destruct (uuid_parse _); naive_solver. Qed.
Lemma grants_for d botID userID g :
  g ∈ ListBotUserGrantsForUser d botID (if is_empty (trim_space userID) then None else uuid_parse (trim_space (trim_space userID))) <->
  g ∈ dbGrants d /\ speaksFor g botID userID.
Proof.
  unfold ListBotUserGrantsForUser, speaksFor. rewrite elem_of_filter_bool, andb_true_iff, orb_true_iff, andb_true_iff, !str_eqb_true, bool_decide_eq_true.
  setoid_rewrite <- uuid_ParseUUID.
  assert (H : (is_Some (if is_empty (trim_space userID) then None else uuid_parse (trim_space (trim_space userID))) /\
               grUserID g = (if is_empty (trim_space userID) then None else uuid_parse (trim_space (trim_space userID)))) <->
              exists u, trim_space userID <> [] /\ uuid_parse (trim_space (trim_space userID)) = Some u /\ grUserID g = Some u).
  { destruct (is_empty (trim_space userID)) eqn:E; [apply is_empty_true in E|apply is_empty_false in E].
    - split; [by intros [[? [=]] _]|by intros (u & ? & _)].
    - split; [intros [[u Hu] Hg]; exists u; by rewrite Hg, Hu|intros (u & _ & -> & ->); by split; [eexists|]]. }
  by rewrite H.
Qed.
Lemma resolved_spec d botID bot userID isAdmin required :
  hasPermission (ResolveUserPermissionsForBot d botID bot userID isAdmin) required = true <->
  asked required ∈ allPermissions /\
  (isAdmin = true \/ botOwnerUserID bot = trim_space userID \/
   exists g held, g ∈ dbGrants d /\ speaksFor g botID userID /\ held ∈ grPermissions g /\ permissionKey held ∈ allPermissions /\
     implies (permissionKey held) (asked required)).
Proof.
  unfold ResolveUserPermissionsForBot. 
  destruct (isAdmin || str_eqb (botOwnerUserID bot) (trim_space userID)) eqn:E; [apply orb_true_iff in E; rewrite str_eqb_true in E|apply orb_false_iff in E; rewrite str_eqb_false in E].
  - rewrite <- all_expanded, hasPermission_expanded. naive_solver.
  - rewrite hasPermission_expanded, expand_elem. split.
    + intros (Hp & q & Hq & Hi). split; [done|]. right; right. apply list_elem_of_bind in Hq as (g & Hq & Hg).
      apply grants_for in Hg as [Hg Hs]. apply decode_elem in Hq as (_ & r & Hr & Hk & Hi2). exists g, r. split_and!; [done..|]. by eapply implies_trans.
    + intros (Hp & [?|[?|(g & h & Hg & Hs & Hh & Hk & Hi)]]); [by destruct E; subst..|]. split; [done|]. exists (permissionKey h). split; [|done].
      apply list_elem_of_bind. exists g. split; [|by apply grants_for]. apply decode_elem. split; [done|]. exists h. split_and!; [done..|by left].
Qed.

(** ** What the rows satisfy *)
Definition effectOk (e : str) : Prop := e = EffectAllow \/ e = EffectDeny.
Definition botOk (id : str) (b : BotRow) : Prop := canonical id /\ canonical (botOwnerUserID b) /\ effectOk (botAclDefaultEffect b).
Definition closedSet (ps : list str) : Prop :=
  ps <> [] /\ (forall q, q ∈ ps -> q ∈ allPermissions) /\ (forall q r, q ∈ ps -> implies q r -> r ∈ allPermissions -> r ∈ ps).
Definition grantOk (g : GrantRow) : Prop :=
  canonical (grBotID g) /\ closedSet (grPermissions g) /\
  (grSubjectType g = GrantSubjectEveryone /\ grUserID g = None \/
   grSubjectType g = GrantSubjectUser /\ exists u, grUserID g = Some u /\ canonical u).
Definition grantKey (g : GrantRow) : str * option str := (grBotID g, grUserID g).
Definition ruleOk (r : RuleRow) : Prop :=
  effectOk (rrEffect r) /\ (is_Some (rrSourceThreadID r) -> is_Some (rrSourceConversationID r)) /\
  (is_Some (rrSourceConversationID r) -> is_Some (rrSourceChannel r)).
Record DbOk (d : Db) : Prop := mkDbOk {
  ok_bots : map_Forall botOk (dbBots d);
  ok_grants : Forall grantOk (dbGrants d) /\ NoDup (grantKey <$> dbGrants d);
  ok_rules : Forall ruleOk (dbRules d) /\ NoDup (ruleKey <$> dbRules d) /\ NoDup (rrID <$> dbRules d);
  ok_bindings : Forall (fun b => canonical b.1 /\ canonical b.2) (dbBindings d) /\ NoDup (dbBindings d);
  ok_codes : map_Forall (fun _ c => canonical (cdUserID c)) (dbCodes d);
  ok_overrides : map_Forall (fun k (_ : bool) => canonical k.1 /\ canonical k.2) (dbOverrides d);
}.

Lemma normalize_closed raw ps : normalizePermissions raw = Ok ps -> closedSet ps.
Proof.
  unfold normalizePermissions. destruct (forallb _ _); [|done]. case_bool_decide as E; [done|]. intros [= <-].
  split_and!; [done|apply expand_known|apply expand_closed].
Qed.
Lemma grant_taken d bot user : grantTaken d bot user = false <-> (bot, user) ∉ grantKey <$> dbGrants d.
Proof.
  unfold grantTaken. rewrite <- not_true_iff_false, existsb_exists. apply not_iff_compat. rewrite list_elem_of_fmap. unfold grantKey. split.
  - intros (g & Hg & [H1%str_eqb_true H2%bool_decide_eq_true]%andb_true_iff). exists g. apply list_elem_of_In in Hg. by rewrite H1, H2.
  - intros (g & [= -> ->] & Hg). exists g. rewrite <- list_elem_of_In, str_eqb_refl. split; [done|]. by apply bool_decide_eq_true.
Qed.
Lemma nodup_filter {A B} (f : A -> B) (p : A -> bool) l : NoDup (f <$> l) -> NoDup (f <$> List.filter p l).
Proof.
  induction l as [|x l IH]; simpl; [done|]. rewrite NoDup_cons. intros [Hx Hl]. destruct (p x); [|by auto].
  simpl. rewrite NoDup_cons. split; [|by auto]. rewrite list_elem_of_fmap in *. intros (y & E & Hy%elem_of_filter_bool). naive_solver.
Qed.
Lemma Forall_filter_bool {A} (P : A -> Prop) (p : A -> bool) l : Forall P l -> Forall P (List.filter p l).
Proof. rewrite !Forall_forall. intros H x [Hx _]%elem_of_filter_bool. auto. Qed.

(** A change of one table keeps the rest. *)
Lemma grants_change d f : DbOk d -> Forall grantOk (f (dbGrants d)) -> NoDup (grantKey <$> f (dbGrants d)) -> DbOk (set_grants f d).
Proof. intros [] H1 H2. by constructor. Qed.
Lemma rules_change d f : DbOk d -> Forall ruleOk (f (dbRules d)) -> NoDup (ruleKey <$> f (dbRules d)) -> NoDup (rrID <$> f (dbRules d)) -> DbOk (set_rules f d).
Proof. intros [] H1 H2 H3. by constructor. Qed.

Lemma create_grant_ok d row d' : DbOk d -> grantOk row -> CreateBotUserGrant d row = Ok d' -> DbOk d'.
Proof.
  intros Hd Hr. unfold CreateBotUserGrant. destruct (grantTaken _ _ _) eqn:E; [done|]. intros [= <-]. apply grants_change; [done|..].
  - apply Forall_app_2; [apply Hd|by apply Forall_singleton].
  - rewrite fmap_app. apply NoDup_app. split_and!; [apply Hd| |apply NoDup_singleton].
    intros k Hk H. apply list_elem_of_singleton in H as ->. by apply grant_taken in E.
Qed.
Lemma grant_ok_steps d newID bot subject user perms d' : DbOk d -> CreateUserGrant d newID bot subject user perms = Ok d' -> DbOk d'.
Proof.
  intros Hd H. unfold CreateUserGrant in H. steps. apply ParseUUID_Ok in H0. apply normalize_closed in H2.
  destruct (str_eqb (to_lower (trim_space subject)) GrantSubjectEveryone) eqn:E1; [apply str_eqb_true in E1; rewrite E1 in H|].
  { eapply create_grant_ok; [done| |done]. split_and!; [done..|by left]. }
  clear E1. destruct (str_eqb (to_lower (trim_space subject)) GrantSubjectUser) eqn:E2; [apply str_eqb_true in E2; rewrite E2 in H|done].
  destruct (is_empty (trim_space user)); [done|]. steps. apply ParseUUID_Ok in H3. destruct (str_eqb (botOwnerUserID _) _); [done|]. steps.
  eapply create_grant_ok; [done| |done]. split_and!; [done..|right; split; [done|by eexists]].
Qed.
Lemma map_grants_ok d id perms : DbOk d -> closedSet perms ->
  DbOk (set_grants (fmap (fun g => if str_eqb (grID g) id then mkGrant (grID g) (grBotID g) (grSubjectType g) (grUserID g) perms else g)) d).
Proof.
  intros Hd Hp. apply grants_change; [done|..].
  - apply Forall_fmap. eapply Forall_impl; [apply Hd|]. intros g (Hb & Hc & Hs). unfold compose. by destruct (str_eqb _ _).
  - rewrite <- list_fmap_compose. erewrite list_fmap_ext; [apply Hd|]. intros i g _. unfold compose. by destruct (str_eqb _ _).
Qed.
Lemma rule_allowed_ok l r : ruleAllowed l r = true -> ruleOk r /\ ruleKey r ∉ ruleKey <$> l.
Proof.
  unfold ruleAllowed, ruleOk. intros H. bool_hyps. split_and!.
  - apply orb_true_iff in H as [E|E]; apply str_eqb_true in E; [by left|by right].
  - intros [t Ht]. apply orb_true_iff in H2 as [E%bool_decide_eq_true|E%bool_decide_eq_true]; [congruence|done].
  - intros [c Hc]. apply orb_true_iff in H3 as [E%bool_decide_eq_true|E%bool_decide_eq_true]; [destruct E; congruence|done].
  - rewrite list_elem_of_fmap. intros (o & E & Ho). apply not_true_iff_false in H0. apply H0, existsb_exists. exists o.
    rewrite <- list_elem_of_In. split; [done|]. by apply bool_decide_eq_true.
Qed.
Lemma nodup_snoc {A B} (f : A -> B) l x : NoDup (f <$> l) -> f x ∉ f <$> l -> NoDup (f <$> l ++ [x]).
Proof.
  intros Hl Hx. rewrite fmap_app. apply NoDup_app. split_and!; [done| |apply NoDup_singleton].
  intros k Hk E. by apply list_elem_of_singleton in E as ->.
Qed.
Lemma insert_rule_ok d row d' : DbOk d -> insertRule d row = Ok d' -> DbOk d'.
Proof.
  intros Hd H. unfold insertRule in H. steps. bool_hyps.
  match goal with E : ruleAllowed _ _ = true |- _ => apply rule_allowed_ok in E as [Hr Hn] end. apply rules_change; [done|..].
  - apply Forall_app_2; [apply Hd|by apply Forall_singleton].
  - apply nodup_snoc; [apply Hd|done].
  - apply nodup_snoc; [apply Hd|done].
Qed.
Lemma list_fmap_id_Forall {A} (f : A -> A) l : Forall (fun x => f x = x) l -> f <$> l = l.
Proof. induction 1 as [|x l Hx _ IH]; [done|]. by rewrite fmap_cons, Hx, IH. Qed.
Lemma replace_rule id row l : rrID row = id -> NoDup (rrID <$> l) -> NoDup (ruleKey <$> l) ->
  ruleKey row ∉ ruleKey <$> List.filter (fun r => negb (str_eqb (rrID r) id)) l ->
  NoDup (ruleKey <$> ((fun r => if str_eqb (rrID r) id then row else r) <$> l)) /\
  rrID <$> ((fun r => if str_eqb (rrID r) id then row else r) <$> l) = rrID <$> l.
Proof.
  intros Hid. induction l as [|y l IH]; [done|]. cbn [List.filter]. rewrite !fmap_cons, !NoDup_cons. intros [Hy Hl] [Ky Kl] Hx.
  destruct (str_eqb (rrID y) id) eqn:E; cbn [negb] in Hx; [|rewrite fmap_cons in Hx].
  - apply str_eqb_true in E. assert (Hf : Forall (fun r => str_eqb (rrID r) id = false) l).
    { apply Forall_forall. intros z Hz. apply str_eqb_false. intros Ez. apply Hy. rewrite E, <- Ez. by apply list_elem_of_fmap_2. }
    assert (Hno : (fun r => if str_eqb (rrID r) id then row else r) <$> l = l).
    { apply list_fmap_id_Forall. eapply Forall_impl; [exact Hf|]. intros z Hz. cbn beta in Hz |- *. by rewrite Hz. }
    rewrite filter_id_forall in Hx by (eapply Forall_impl; [done|]; intros z Hz; simpl in Hz; by rewrite Hz).
    rewrite Hno. split; [by split|congruence].
  - rewrite not_elem_of_cons in Hx. destruct Hx as [Hx1 Hx2]. destruct (IH Hl Kl Hx2) as [IH1 IH2]. split; [|by rewrite IH2].
    split; [|done]. rewrite !list_elem_of_fmap. intros (z & E1 & Hz). apply list_elem_of_fmap in Hz as (w & -> & Hw).
    destruct (str_eqb (rrID w) id); [congruence|]. apply Ky. rewrite E1. by apply list_elem_of_fmap_2.
Qed.
Lemma bots_effect_ok d id e : DbOk d -> effectOk e -> DbOk (set_bots (alter (fun b => mkBot (botName b) (botOwnerUserID b) e) id) d).
Proof.
  intros [] He. constructor; try done. intros k b. simpl. rewrite lookup_alter_Some. intros [(-> & b0 & Hb & ->)|[_ Hb]]; [|by apply ok_bots0].
  destruct (ok_bots0 _ _ Hb) as (? & ? & _). done.
Qed.
Lemma links_ok d bindings codes : DbOk d -> Forall (fun b => canonical b.1 /\ canonical b.2) bindings -> NoDup bindings ->
  map_Forall (fun _ c => canonical (cdUserID c)) codes -> DbOk (set_links bindings codes d).
Proof. intros [] H1 H2 H3. by constructor. Qed.
Lemma apply_rules_ok d n newID bot createdBy rules : DbOk d -> DbOk (applyPresetRules d n newID bot createdBy rules).1.
Proof.
  revert d n. induction rules as [|r rules IH]; intros d n Hd; simpl; [done|].
  destruct (applyPresetRule _ _ _ _ _) as [d'|e] eqn:E; [|done]. apply IH. unfold applyPresetRule in E. steps. by eapply insert_rule_ok.
Qed.
Lemma update_rule_ok d rule req d' : DbOk d -> UpdateRule d rule req = Ok d' -> DbOk d'.
Proof.
  intros Hd H. unfold UpdateRule in H. steps. apply rule_allowed_ok in H6 as [Hr Hn].
  destruct (ok_rules _ Hd) as (R1 & R2 & R3). edestruct replace_rule as [K1 K2]; [|exact R3|exact R2|exact Hn|]; [done|].
  apply rules_change; [done| |exact K1|rewrite <- K2 in R3; exact R3].
  apply Forall_fmap. eapply Forall_impl; [apply R1|]. intros r Hr0. unfold compose. by destruct (str_eqb _ _).
Qed.
Lemma redeem_Ok d token identity now r : RedeemChannelLinkCode d token identity now = Ok r ->
  exists code, dbCodes d !! token = Some code /\ cdConsumedAt code = None /\ now < cdExpiresAt code /\ is_Some (dbIdentities d !! identity) /\
    r = (cdUserID code, set_links (if bool_decide ((cdUserID code, identity) ∈ dbBindings d) then dbBindings d else dbBindings d ++ [(cdUserID code, identity)])
        (<[token := mkCode (cdUserID code) (cdChannelType code) (cdExpiresAt code) (Some now) (Some identity)]> (dbCodes d)) d).
Proof. intros H. unfold RedeemChannelLinkCode in H. steps. bool_hyps. by eexists. Qed.
Lemma consume_Ok upper d token identity now clock r : ConsumeLinkCode upper d token identity now clock = Ok r ->
  exists id, ParseUUID identity = Ok id /\ RedeemChannelLinkCode d (normalizeToken upper token) id now = Ok r.
Proof.
  intros H. unfold ConsumeLinkCode in H. steps. rewrite ParseUUID_trim in H1. eexists. split; [done|].
  destruct (RedeemChannelLinkCode d (normalizeToken upper token) _ now) as [?|[]]; by rewrite <- H.
Qed.
Lemma consume_ok upper d token identity now clock r : DbOk d -> ConsumeLinkCode upper d token identity now clock = Ok r -> DbOk r.2.
Proof.
  intros Hd (id & Hid%ParseUUID_Ok & (c & Hc & _ & _ & _ & ->)%redeem_Ok)%consume_Ok. destruct (ok_bindings _ Hd) as [B1 B2].
  assert (Hcc := ok_codes _ Hd _ _ Hc). simpl in Hcc. apply links_ok; [done|..].
  - case_bool_decide; [done|]. apply Forall_app_2; [done|]. by apply Forall_singleton.
  - case_bool_decide as E; [done|]. apply NoDup_app. split_and!; [done| |apply NoDup_singleton].
    intros k Hk Ek. by apply list_elem_of_singleton in Ek as ->.
  - intros k w [[<- <-]|[_ Hx]]%lookup_insert_Some; [done|]. by eapply ok_codes in Hx.
Qed.
Lemma issue_ok d user channel buf now r : DbOk d -> IssueLinkCode d user channel buf now = Ok r -> DbOk r.2.
Proof.
  intros Hd H. unfold IssueLinkCode in H. steps. apply ParseUUID_Ok in H1. apply links_ok; [done|apply Hd|apply Hd|].
  intros k w [[<- <-]|[_ Hx]]%lookup_insert_Some; [done|]. by eapply ok_codes in Hx.
Qed.
Lemma step_ok upper d d' : AccessStep upper d d' -> DbOk d -> DbOk d'.
Proof.
  intros [] Hd.
  - by eapply grant_ok_steps.
  - unfold UpdateUserGrant in H. steps. apply map_grants_ok; [done|]. by eapply normalize_closed.
  - unfold DeleteUserGrant in H. steps. apply grants_change; [done|apply Forall_filter_bool, Hd|apply nodup_filter, Hd].
  - unfold SetDefaultEffect in H. steps. apply bots_effect_ok; [done|]. by apply orb_true_iff in H0 as [E|E]; apply str_eqb_true in E; [left|right].
  - unfold CreateRule in H. steps. by eapply insert_rule_ok.
  - by eapply update_rule_ok.
  - unfold DeleteRule in H. steps. apply rules_change; [done|apply Forall_filter_bool, Hd|apply nodup_filter, Hd..].
  - unfold ApplyPreset. destruct (rbind _ _) as [[p b]|e] eqn:E; [|done]. steps. apply apply_rules_ok, bots_effect_ok; [done|].
    unfold ResolvePreset in H. repeat case_if; simplify_eq; (by left) || by right.
  - by eapply issue_ok.
  - by eapply consume_ok.
  - unfold Unbind in H. steps. apply links_ok; [done|apply Forall_filter_bool, Hd| |apply Hd].
    rewrite <- (list_fmap_id (List.filter _ _)). apply nodup_filter. rewrite list_fmap_id. apply Hd.
  - unfold SetManageOverride in H. steps. destruct Hd. constructor; try done. apply ParseUUID_Ok in H1, H2.
    intros k w. cbn. intros [[<- <-]|[_ Hx]]%lookup_insert_Some; [done|]. by apply ok_overrides0 in Hx.
  - unfold DeleteManageOverride in H. steps. destruct Hd. constructor; try done. intros k w. cbn. intros [_ Hx]%lookup_delete_Some. by apply ok_overrides0 in Hx.
Qed.
Lemma reaches_ok upper d d' : AccessReaches upper d d' -> DbOk d -> DbOk d'.
Proof. induction 1; eauto using step_ok. Qed.

(** ** Chat rules *)
(** Every field a rule sets is that of the request. *)
Definition covers (q : RuleQuery) (r : RuleRow) : Prop :=
  (forall v, rrSubjectChannelType r = Some v -> rqyChannelType q = Some v) /\
  (forall v, rrChannelIdentityID r = Some v -> rqyIdentity q = Some v) /\
  (forall v, rrSourceConversationType r = Some v -> rqyConversationType q = Some v) /\
  (forall v, rrSourceConversationID r = Some v -> rqyConversation q = Some v) /\
  (forall v, rrSourceThreadID r = Some v -> rqyThread q = Some v).
Lemma matches_text a b : matchesText a b = true <-> forall v, a = Some v -> b = Some v.
Proof. destruct a as [v|]; simpl; [|naive_solver]. rewrite bool_decide_eq_true. naive_solver. Qed.
Lemma rule_matches q r : ruleMatches q r = true <-> covers q r.
Proof. unfold ruleMatches, covers. rewrite !andb_true_iff, !matches_text. tauto. Qed.
Definition speaks (d : Db) (botID effect : str) (q : RuleQuery) : Prop :=
  exists r, r ∈ dbRules d /\ rrBotID r = botID /\ rrEnabled r = true /\ rrEffect r = effect /\ covers q r.
Lemma overrides_spec bot id q r : overrides bot id q r = true <->
  rrBotID r = id /\ rrEnabled r = true /\ rrEffect r <> botAclDefaultEffect bot /\ covers q r.
Proof. unfold overrides. rewrite !andb_true_iff, rule_matches, str_eqb_true, negb_true_iff, str_eqb_false. tauto. Qed.
Lemma effects_differ : EffectAllow <> EffectDeny.
Proof. done. Qed.
Lemma evaluate_rule d id bot q : Forall ruleOk (dbRules d) -> dbBots d !! id = Some bot -> effectOk (botAclDefaultEffect bot) ->
  exists e, EvaluateBotACLRule d id q = Ok e /\
    (e = EffectAllow <-> if str_eqb (botAclDefaultEffect bot) EffectAllow then ~ speaks d id EffectDeny q else speaks d id EffectAllow q).
Proof.
  intros Hr Hb He. unfold EvaluateBotACLRule. rewrite Hb. cbn [found rbind]. eexists. split; [done|].
  destruct (find_idx _ _) as [[i r]|] eqn:E.
  - apply find_idx_Some in E as [Hi (Hid & Hen & Hne & Hc)%overrides_spec]. apply list_elem_of_lookup_2 in Hi.
    assert (Hre : effectOk (rrEffect r)) by (rewrite Forall_forall in Hr; by apply Hr).
    assert (Hs : speaks d id (rrEffect r) q) by (by exists r).
    destruct He as [He|He]; rewrite He in *; (destruct Hre as [Hre|Hre]; [rewrite Hre in *|rewrite Hre in *]); simpl; try done; by split; intros.
  - apply find_idx_None in E. rewrite Forall_forall in E. destruct He as [He|He]; rewrite He in *; simpl.
    + split; [|done]. intros _ (r & Hr' & Hid & Hen & Hef & Hc). apply E in Hr'. apply not_true_iff_false in Hr'. apply Hr', overrides_spec.
      rewrite Hef, He. by split_and!.
    + split; [done|]. intros (r & Hr' & Hid & Hen & Hef & Hc). exfalso. apply E in Hr'. apply not_true_iff_false in Hr'. apply Hr', overrides_spec.
      rewrite Hef, He. by split_and!.
Qed.
Lemma evaluate_modes ownerOnly d req scope id bot :
  Forall ruleOk (dbRules d) -> OwnerOnlyChannel ownerOnly (erChannelType req) = false ->
  normalizeSourceScope (erSourceScope req) = Ok scope -> ParseUUID (erBotID req) = Ok id -> dbBots d !! id = Some bot -> effectOk (botAclDefaultEffect bot) ->
  exists allowed, Evaluate ownerOnly d req = Ok allowed /\
    (allowed = true <-> if str_eqb (botAclDefaultEffect bot) EffectAllow then ~ speaks d id EffectDeny (queryOf req scope)
                        else speaks d id EffectAllow (queryOf req scope)).
Proof.
  intros Hr Ho Hs Hid Hb He. unfold Evaluate. rewrite Ho, Hs, ParseUUID_trim, Hid. cbn [rbind].
  destruct (evaluate_rule d id bot (queryOf req scope) Hr Hb He) as (e & -> & H). cbn [rbind]. eexists. split; [done|]. by rewrite str_eqb_true.
Qed.

(** *** Presets *)
Definition opensTo (key type : str) : bool :=
  str_eqb key (lit "allow_all") ||
  str_eqb key (lit "private_only") && str_eqb type ConversationTypePrivate ||
  str_eqb key (lit "group_only") && str_eqb type ConversationTypeGroup ||
  str_eqb key (lit "group_and_thread_only") && (str_eqb type ConversationTypeGroup || str_eqb type ConversationTypeThread).
Definition presetRow (id botID createdBy type : str) : RuleRow :=
  mkRule id botID true None EffectAllow None None None (Some type) None None (optionalUUID createdBy).
Definition presetTypes (key : str) : list str :=
  if str_eqb key (lit "private_only") then [ConversationTypePrivate]
  else if str_eqb key (lit "group_only") then [ConversationTypeGroup]
  else if str_eqb key (lit "group_and_thread_only") then [ConversationTypeGroup; ConversationTypeThread]
  else [].
Lemma conversation_rule d newID botID createdBy t : t ∈ [ConversationTypePrivate; ConversationTypeGroup; ConversationTypeThread] ->
  applyPresetRule d newID botID createdBy (conversationRule t) = insertRule d (presetRow newID botID createdBy t).
Proof.
  assert (Hn : optionalUUID [] = None) by apply uuid_filled.
  rewrite !elem_of_cons, elem_of_nil. unfold applyPresetRule, ruleOf, presetRow.
  intros [->|[->|[->|[]]]]; cbn [conversationRule rqChannelIdentityID]; rewrite Hn; reflexivity.
Qed.
Lemma elem_existsb t l : bool_decide (t ∈ l) = existsb (str_eqb t) l.
Proof.
  apply eq_bool_prop_intro. rewrite bool_decide_spec, Is_true_true, existsb_exists. setoid_rewrite str_eqb_true. setoid_rewrite <- list_elem_of_In.
  split; [by exists t|by intros (x & Hx & ->)].
Qed.
Lemma preset_effect raw p : ResolvePreset raw = Ok p ->
  psRules p = conversationRule <$> presetTypes (psKey p) /\
  psDefaultEffect p = (if str_eqb (psKey p) (lit "allow_all") then EffectAllow else EffectDeny) /\
  forall t, opensTo (psKey p) t = str_eqb (psKey p) (lit "allow_all") || bool_decide (t ∈ presetTypes (psKey p)).
Proof.
  unfold ResolvePreset. intros H.
  repeat match type of H with (if str_eqb _ ?key then _ else _) = _ =>
    let E := fresh "E" in destruct (str_eqb (NormalizePresetKey raw) key) eqn:E;
      [apply str_eqb_true in E; rewrite E in H; injection H as <-; cbn [psRules psKey psDefaultEffect]; split_and!; [reflexivity..|]; intros t;
       unfold opensTo; cbn [presetTypes]|clear E] end; [..|done].
  all: rewrite elem_existsb; generalize (str_eqb t); intros f; vm_compute; by repeat match goal with |- context [f ?x] => destruct (f x) end.
Qed.
Definition presetRows (newID : nat -> str) (n : nat) (botID createdBy : str) (types : list str) : list RuleRow :=
  imap (fun i t => presetRow (newID (n + i)%nat) botID createdBy t) types.
Lemma preset_rows_cons newID n botID createdBy t types :
  presetRows newID n botID createdBy (t :: types) = presetRow (newID n) botID createdBy t :: presetRows newID (S n) botID createdBy types.
Proof. unfold presetRows. cbn [imap]. rewrite Nat.add_0_r. f_equal. apply imap_ext. intros i x _. simpl. by rewrite Nat.add_succ_r. Qed.
Lemma insert_preset_row d newID id createdBy t : is_Some (dbBots d !! id) -> newID ∉ rrID <$> dbRules d ->
  t ∈ [ConversationTypePrivate; ConversationTypeGroup; ConversationTypeThread] ->
  (forall r, r ∈ dbRules d -> rrBotID r = id -> rrSourceConversationType r <> Some t) ->
  insertRule d (presetRow newID id createdBy t) = Ok (set_rules (fun l => l ++ [presetRow newID id createdBy t]) d).
Proof.
  intros Hb Hn Ht Hr. unfold insertRule. rewrite !(bool_decide_true _) by done. cbn [andb].
  assert (Ha : ruleAllowed (dbRules d) (presetRow newID id createdBy t) = true); [|by rewrite Ha].
  unfold ruleAllowed. rewrite !andb_true_iff. split_and!; [done|done|done| |].
  - apply bool_decide_eq_true. right. exact (list_elem_of_fmap_2 Some _ _ Ht).
  - apply negb_true_iff, not_true_iff_false. intros (o & Ho & E%bool_decide_eq_true)%existsb_exists. apply list_elem_of_In in Ho.
    unfold ruleKey in E. cbn in E. injection E as E1 E2 E3 E4 E5 E6 E7. by eapply Hr.
Qed.
Lemma apply_preset_rows types : forall d n newID id createdBy, is_Some (dbBots d !! id) -> NoDup types ->
  types ⊆ [ConversationTypePrivate; ConversationTypeGroup; ConversationTypeThread] ->
  (forall i j, newID i = newID j -> i = j) -> (forall i, (n <= i)%nat -> newID i ∉ rrID <$> dbRules d) ->
  (forall r t, r ∈ dbRules d -> rrBotID r = id -> t ∈ types -> rrSourceConversationType r <> Some t) ->
  applyPresetRules d n newID id createdBy (conversationRule <$> types) = (set_rules (fun l => l ++ presetRows newID n id createdBy types) d, None).
Proof.
  induction types as [|t types IH]; intros d n newID id createdBy Hb Hnd Hsub Hinj Hfresh Hr.
  - unfold set_rules, presetRows. cbn. rewrite app_nil_r. by destruct d.
  - rewrite fmap_cons. cbn [applyPresetRules]. rewrite conversation_rule by (apply Hsub; left).
    rewrite insert_preset_row; [|done|by apply Hfresh|apply Hsub; left|intros r H1 H2; apply Hr; [done..|left]].
    apply NoDup_cons in Hnd as [Ht Hnd]. rewrite IH; [|done|done| |done| |].
    + f_equal. rewrite preset_rows_cons. unfold set_rules. cbn. by rewrite <- app_assoc.
    + intros x Hx. apply Hsub. by right.
    + intros i Hi. cbn. rewrite fmap_app, elem_of_app. intros [H|H]; [apply (Hfresh i); [lia|done]|].
      apply list_elem_of_singleton in H. apply Hinj in H. lia.
    + intros r x. cbn. rewrite elem_of_app, list_elem_of_singleton. intros [H|H] H1 H2.
      * apply Hr; [done..|by right].
      * subst r. cbn. intros [= ->]. done.
Qed.
Lemma optional_filled v w : optionalText v = Some w -> w = trim_space v /\ w <> [].
Proof. unfold optionalText. destruct (is_empty _) eqn:E; [done|]. apply is_empty_false in E. intros [= <-]. by split. Qed.
Lemma normalize_type raw : NormalizeConversationType raw ∈ [ConversationTypePrivate; ConversationTypeGroup; ConversationTypeThread].
Proof. unfold NormalizeConversationType. case_bool_decide; [by left|]. destruct (str_eqb _ _); [by do 2 right; left|by right; left]. Qed.
Lemma scope_type s scope : normalizeSourceScope s = Ok scope ->
  ssConversationType scope = [] \/ ssConversationType scope ∈ [ConversationTypePrivate; ConversationTypeGroup; ConversationTypeThread].
Proof.
  unfold normalizeSourceScope, NormalizeScope. cbn. destruct (_ && _); [done|]. intros [= <-]. cbn.
  destruct (blank (ssConversationType s)) eqn:E.
  - destruct (_ && _); [right; by do 2 right; left|by left].
  - destruct (_ && _); [right; by do 2 right; left|right; apply normalize_type].
Qed.
Lemma scope_type_text s scope t : normalizeSourceScope s = Ok scope -> t ∈ [ConversationTypePrivate; ConversationTypeGroup; ConversationTypeThread] ->
  optionalText (ssConversationType scope) = Some t <-> ssConversationType scope = t.
Proof.
  intros Hs Ht. assert (Hid : forall u, u ∈ [ConversationTypePrivate; ConversationTypeGroup; ConversationTypeThread] -> optionalText u = Some u).
  { intros u. rewrite !elem_of_cons, elem_of_nil. by intros [->|[->|[->|[]]]]. }
  destruct (scope_type _ _ Hs) as [E|E]; [rewrite E|rewrite (Hid _ E); naive_solver].
  split; [done|]. intros <-. by apply Hid.
Qed.
Lemma set_rules_ok_bots f d : dbBots (set_rules f d) = dbBots d.
Proof. done. Qed.
Lemma preset_state d newID botID id bot createdBy raw preset : ParseUUID botID = Ok id -> dbBots d !! id = Some bot -> ResolvePreset raw = Ok preset ->
  (forall r, r ∈ dbRules d -> rrBotID r <> id) -> (forall i j, newID i = newID j -> i = j) -> (forall i, newID i ∉ rrID <$> dbRules d) ->
  ApplyPreset d newID botID createdBy raw =
    (set_rules (fun l => l ++ presetRows newID 0 id createdBy (presetTypes (psKey preset)))
       (set_bots (alter (fun b => mkBot (botName b) (botOwnerUserID b) (psDefaultEffect preset)) id) d), None).
Proof.
  intros Hid Hb Hp Hr Hinj Hn. unfold ApplyPreset. rewrite Hp. cbn [rbind]. rewrite Hid. cbn [rbind].
  destruct (preset_effect _ _ Hp) as (Hrules & _ & _). rewrite Hrules. apply apply_preset_rows.
  - cbn. rewrite lookup_alter_eq, Hb. by eexists.
  - unfold presetTypes. repeat case_if; [apply (bool_decide_unpack _); vm_compute; done..|constructor].
  - unfold presetTypes. intros x. repeat case_if; rewrite !elem_of_cons, elem_of_nil; tauto.
  - done.
  - intros i _. apply Hn.
  - intros r t Hin Hbot. by apply Hr in Hin.
Qed.
Lemma in_preset_rows newID n id createdBy types r : r ∈ presetRows newID n id createdBy types <->
  exists i t, types !! i = Some t /\ r = presetRow (newID (n + i)%nat) id createdBy t.
Proof. unfold presetRows. rewrite elem_of_lookup_imap. split; intros (i & t & H1 & H2); by exists i, t. Qed.
Lemma preset_covers newID id createdBy t req scope : normalizeSourceScope (erSourceScope req) = Ok scope ->
  t ∈ [ConversationTypePrivate; ConversationTypeGroup; ConversationTypeThread] ->
  covers (queryOf req scope) (presetRow newID id createdBy t) <-> ssConversationType scope = t.
Proof.
  intros Hs Ht. rewrite <- (scope_type_text _ _ _ Hs Ht). unfold covers. cbn. split.
  - intros (_ & _ & H & _). by apply H.
  - intros H. split_and!; try done. by intros v [= <-].
Qed.
Lemma preset_types_known key t : t ∈ presetTypes key -> t ∈ [ConversationTypePrivate; ConversationTypeGroup; ConversationTypeThread].
Proof. unfold presetTypes. repeat case_if; rewrite !elem_of_cons, elem_of_nil; tauto. Qed.
Lemma preset_speaks d newID id createdBy key req scope e : normalizeSourceScope (erSourceScope req) = Ok scope ->
  (forall r, r ∈ dbRules d -> rrBotID r <> id) ->
  speaks (set_rules (fun l => l ++ presetRows newID 0 id createdBy (presetTypes key)) d) id e (queryOf req scope) <->
  e = EffectAllow /\ ssConversationType scope ∈ presetTypes key.
Proof.
  intros Hs Hr. unfold speaks. cbn. split.
  - intros (r & [Hin|Hin]%elem_of_app & Hid & _ & He & Hc); [by apply Hr in Hin|].
    apply in_preset_rows in Hin as (i & t & Ht & ->). apply list_elem_of_lookup_2 in Ht. cbn in He.
    apply preset_covers in Hc; [|done|by eapply preset_types_known]. by subst.
  - intros [-> Ht]. assert (Hk := preset_types_known _ _ Ht). apply list_elem_of_lookup in Ht as [i Ht].
    eexists. split; [apply elem_of_app; right; apply in_preset_rows; by exists i, (ssConversationType scope)|].
    split_and!; [done..|]. by apply preset_covers.
Qed.
Lemma preset_opens_types d newID botID id bot createdBy raw preset ownerOnly req scope :
  DbOk d -> ParseUUID botID = Ok id -> dbBots d !! id = Some bot -> ResolvePreset raw = Ok preset ->
  (forall r, r ∈ dbRules d -> rrBotID r <> id) -> (forall i j, newID i = newID j -> i = j) -> (forall i, newID i ∉ rrID <$> dbRules d) ->
  OwnerOnlyChannel ownerOnly (erChannelType req) = false -> normalizeSourceScope (erSourceScope req) = Ok scope -> ParseUUID (erBotID req) = Ok id ->
  Evaluate ownerOnly (ApplyPreset d newID botID createdBy raw).1 req = Ok (opensTo (psKey preset) (ssConversationType scope)).
Proof.
  intros Hd Hid Hb Hp Hr Hinj Hn Ho Hs Hreq.
  assert (Hd' := step_ok (fun r => r) _ _ (Step_ApplyPreset _ d newID botID createdBy raw) Hd).
  rewrite (preset_state _ _ _ _ _ _ _ _ Hid Hb Hp Hr Hinj Hn) in *. cbn [fst] in *.
  destruct (preset_effect _ _ Hp) as (_ & Heff & Hopen).
  edestruct (evaluate_modes ownerOnly) as (b & -> & Hmode); [apply Hd'|done|done|exact Hreq|..].
  { cbn. by rewrite lookup_alter_eq, Hb. }
  { cbn. rewrite Heff. destruct (str_eqb _ _); [by left|by right]. }
  cbn [botAclDefaultEffect] in Hmode. rewrite Heff in Hmode. f_equal. rewrite Hopen. apply eq_bool_prop_intro. rewrite !Is_true_true, Hmode.
  destruct (str_eqb (psKey preset) (lit "allow_all")); cbn [orb].
  - change (str_eqb EffectAllow EffectAllow) with true. cbv iota. split; [done|]. intros _ Hsp%preset_speaks; [by destruct Hsp|done..].
  - change (str_eqb EffectDeny EffectAllow) with false. cbv iota. rewrite bool_decide_eq_true, preset_speaks by done. split; [by intros [_ ?]|by split].
Qed.

(** *** The order of the rules *)
Lemma speaks_perm d l id e q : Permutation l (dbRules d) -> speaks (set_rules (fun _ => l) d) id e q <-> speaks d id e q.
Proof. intros H. unfold speaks. cbn. by setoid_rewrite H. Qed.
Lemma evaluate_order ownerOnly d req l : DbOk d -> Permutation l (dbRules d) -> Evaluate ownerOnly (set_rules (fun _ => l) d) req = Evaluate ownerOnly d req.
Proof.
  intros Hd Hl. destruct (OwnerOnlyChannel ownerOnly (erChannelType req)) eqn:Ho; [unfold Evaluate; by rewrite Ho|].
  destruct (normalizeSourceScope (erSourceScope req)) as [scope|e] eqn:Hs; [|unfold Evaluate; by rewrite Ho, Hs].
  destruct (ParseUUID (erBotID req)) as [id|e] eqn:Hid; [|unfold Evaluate; by rewrite Ho, Hs, ParseUUID_trim, Hid].
  destruct (dbBots d !! id) as [bot|] eqn:Hb.
  - destruct (ok_bots _ Hd _ _ Hb) as (_ & _ & He).
    destruct (evaluate_modes ownerOnly d req scope id bot) as (b & -> & E); [apply Hd|done..|].
    destruct (evaluate_modes ownerOnly (set_rules (fun _ => l) d) req scope id bot) as (b' & -> & E'); [|done..|].
    { cbn. rewrite Hl. apply Hd. }
    f_equal. apply eq_bool_prop_intro. rewrite !Is_true_true, E, E'.
    destruct (str_eqb (botAclDefaultEffect bot) EffectAllow); by rewrite speaks_perm.
  - unfold Evaluate, EvaluateBotACLRule. rewrite Ho, Hs, ParseUUID_trim, Hid. cbn. by rewrite Hb.
Qed.

(** ** Link codes *)
(** What happened to a code stays so. *)
Definition spent (d : Db) (token : str) : Prop := exists code t, dbCodes d !! token = Some code /\ cdConsumedAt code = Some t.
Lemma consumed_code_stays upper d token identity now clock r k code t :
  ConsumeLinkCode upper d token identity now clock = Ok r -> dbCodes d !! k = Some code -> cdConsumedAt code = Some t -> dbCodes r.2 !! k = Some code.
Proof.
  intros (id & _ & (c & Hc & Hno & _ & _ & ->)%redeem_Ok)%consume_Ok Hk Ht. cbn. rewrite lookup_insert_ne; [done|].
  intros <-. congruence.
Qed.
Lemma insert_rule_codes d row d' : insertRule d row = Ok d' -> dbCodes d' = dbCodes d.
Proof. intros H. unfold insertRule in H. by steps. Qed.
Lemma apply_rules_codes rules : forall d n newID bot createdBy, dbCodes (applyPresetRules d n newID bot createdBy rules).1 = dbCodes d.
Proof.
  induction rules as [|r rules IH]; intros; cbn [applyPresetRules]; [done|]. destruct (applyPresetRule _ _ _ _ _) as [d'|e] eqn:E; [|done].
  rewrite IH. unfold applyPresetRule in E. steps. by eapply insert_rule_codes.
Qed.
Lemma create_grant_codes d row d' : CreateBotUserGrant d row = Ok d' -> dbCodes d' = dbCodes d.
Proof. unfold CreateBotUserGrant. case_if; [done|]. by intros [= <-]. Qed.
(** Only issuing and redeeming write the codes. *)
Lemma step_codes upper d d' : AccessStep upper d d' ->
  dbCodes d' = dbCodes d \/ (exists user channel buf now r, IssueLinkCode d user channel buf now = Ok r /\ d' = r.2) \/
  (exists token identity now clock r, ConsumeLinkCode upper d token identity now clock = Ok r /\ d' = r.2).
Proof.
  intros []; try (right; left; by eauto 10); try (right; right; by eauto 10); left.
  - unfold CreateUserGrant in H. steps. repeat case_if; steps; by eapply create_grant_codes.
  - unfold UpdateUserGrant in H. by steps.
  - unfold DeleteUserGrant in H. by steps.
  - unfold SetDefaultEffect in H. by steps.
  - unfold CreateRule in H. steps. by eapply insert_rule_codes.
  - unfold UpdateRule in H. by steps.
  - unfold DeleteRule in H. by steps.
  - unfold ApplyPreset. destruct (rbind _ _) as [[p b]|e]; [|done]. by rewrite apply_rules_codes.
  - unfold Unbind in H. by steps.
  - unfold SetManageOverride in H. by steps.
  - unfold DeleteManageOverride in H. by steps.
Qed.
Lemma spent_step upper d d' token : AccessStep upper d d' -> spent d token -> spent d' token.
Proof.
  intros H (code & t & Hc & Ht). destruct (step_codes _ _ _ H) as [E|[(user & ch & buf & now & r & E & ->)|(tok & id & now & clock & r & E & ->)]].
  - exists code, t. by rewrite E.
  - unfold IssueLinkCode in E. steps. exists code, t. cbn [snd set_links dbCodes]. bool_hyps. rewrite lookup_insert_ne; [done|]. intros <-. congruence.
  - exists code, t. split; [|done]. by eapply consumed_code_stays.
Qed.
Lemma spent_reaches upper d d' token : AccessReaches upper d d' -> spent d token -> spent d' token.
Proof. induction 1; eauto using spent_step. Qed.
Lemma consume_spends upper d token identity now clock r : ConsumeLinkCode upper d token identity now clock = Ok r -> spent r.2 (normalizeToken upper token).
Proof. intros (id & _ & (c & Hc & _ & _ & _ & ->)%redeem_Ok)%consume_Ok. eexists _, now. cbn. by rewrite lookup_insert_eq. Qed.
Lemma spent_refused upper d token identity id now clock : spent d (normalizeToken upper token) -> normalizeToken upper token <> [] ->
  ParseUUID identity = Ok id -> ConsumeLinkCode upper d token identity now clock = Err ErrCodeConsumed.
Proof.
  intros (code & t & Hc & Ht) Hn Hid. unfold ConsumeLinkCode.
  assert (Hi : trim_space identity <> []).
  { intros E. unfold ParseUUID in Hid. by rewrite E, uuid_filled in Hid. }
  rewrite (proj2 (is_empty_false _) Hn), (proj2 (is_empty_false _) Hi), ParseUUID_trim, Hid. cbn [orb negb check rbind].
  assert (Hr : RedeemChannelLinkCode d (normalizeToken upper token) id now = Err NoRows).
  { unfold RedeemChannelLinkCode. rewrite Hc. cbn [found rbind]. by rewrite bool_decide_false by (rewrite Ht; done). }
  rewrite Hr. unfold classifyRedeemNoRow. rewrite Hc. by rewrite bool_decide_true by (by exists t).
Qed.
Lemma consume_token upper d token identity now clock r : ConsumeLinkCode upper d token identity now clock = Ok r -> normalizeToken upper token <> [].
Proof.
  intros H. unfold ConsumeLinkCode in H. apply rbind_Ok in H as (? & H%check_Ok & _). apply negb_true_iff, orb_false_iff in H as [H _]. by apply is_empty_false.
Qed.

(** The characters of a code are upper case already, so that what the bot
    reads is what was shown. *)
Definition codeChar (c : ascii) : bool := (byte_val c <? 97) && negb (is_space (byte_val c)).
Lemma alphabet_chars : forallb codeChar tokenAlphabet = true.
Proof. reflexivity. Qed.
Lemma token_chars buf : Forall (fun c => codeChar c = true) (generateToken buf).
Proof.
  unfold generateToken. apply Forall_fmap, Forall_true. intros b. unfold compose. apply (proj1 (forallb_forall _ _) alphabet_chars).
  destruct (nth_in_or_default (Z.to_nat (b mod slen tokenAlphabet)) tokenAlphabet "2"%char) as [H| ->]; [done|by left].
Qed.
Lemma upper_char upper c : codeChar c = true -> encode_rune (to_upper_rune upper (byte_val c)) = [c].
Proof. destruct c as [[] [] [] [] [] [] [] []]; intros H; (discriminate H || reflexivity). Qed.
Lemma normalize_code upper s : Forall (fun c => codeChar c = true) s -> normalizeToken upper s = s.
Proof.
  intros H. assert (Ha : Forall (fun c => byte_val c < 128) s).
  { eapply Forall_impl; [exact H|]. intros c Hc. unfold codeChar in Hc. bool_hyps. lia. }
  assert (Hs : Forall (fun q => space_unit q = false) (decode s)).
  { rewrite decode_ascii by done. apply Forall_fmap. eapply Forall_impl; [exact H|]. intros c Hc. unfold codeChar in Hc. by bool_hyps. }
  assert (Ht : trim_space s = s).
  { rewrite trim_space_units. unfold trim_units. rewrite (drop_while_id _ (decode s)) by (destruct Hs as [|q l Hq Hs]; [done|exact Hq]).
    rewrite drop_while_end_id, undecode_decode; [done|]. destruct (last (decode s)) as [q|] eqn:E; [|done].
    apply last_Some in E as [l E]. rewrite E in Hs. apply Forall_app in Hs as [_ Hs]. by inversion Hs. }
  unfold normalizeToken, to_upper, runes. rewrite Ht, decode_ascii by done. clear Ha Hs Ht.
  induction H as [|c s Hc _ IH]; [done|]. cbn. rewrite upper_char by done. cbn. by f_equal.
Qed.

(** ** The theorems *)
(** C31: a user holds a permission on a bot exactly when the service gives it:
    to an administrator and to the owner everything, to others what a grant of
    that bot, theirs or everyone's, names or implies ([manage] implies every
    permission, [workspace_write] implies [workspace_read]). *)
Theorem permissions_are_the_granted d botID id bot userID isAdmin required :
  ParseUUID botID = Ok id -> dbBots d !! id = Some bot ->
  exists perms, ResolveUserPermissions d botID userID isAdmin = Ok perms /\
    (hasPermission perms required = true <->
     asked required ∈ allPermissions /\
     (isAdmin = true \/ botOwnerUserID bot = trim_space userID \/
      exists g held, g ∈ dbGrants d /\ speaksFor g id userID /\ held ∈ grPermissions g /\ permissionKey held ∈ allPermissions /\
        implies (permissionKey held) (asked required))).
Proof.
  intros Hid Hb. unfold ResolveUserPermissions. rewrite Hid. cbn [rbind]. rewrite Hb. cbn [found rbind]. eexists. split; [done|]. apply resolved_spec.
Qed.
(** whatever the order of operations on grants, rules, codes, bindings and
    overrides, the rows stay well formed: grants name a bot and one subject
    and hold a closed set of permissions, no two grants share a subject and no
    two rules a target, a rule on a thread names its conversation and
    channel, and every id is canonical. *)
Theorem access_rows_stay_wellformed upper d d' : DbOk d -> AccessReaches upper d d' -> DbOk d'.
Proof. intros Hd H. by eapply reaches_ok. Qed.
(** C32: a bot that allows by default refuses exactly the messages an enabled
    deny rule covers, and one that denies by default lets in exactly those an
    enabled allow rule covers; a rule covers a message when every field it
    sets is that of the message. *)
Theorem chat_rules_follow_the_mode ownerOnly d req scope id bot :
  DbOk d -> OwnerOnlyChannel ownerOnly (erChannelType req) = false ->
  normalizeSourceScope (erSourceScope req) = Ok scope -> ParseUUID (erBotID req) = Ok id -> dbBots d !! id = Some bot ->
  exists allowed, Evaluate ownerOnly d req = Ok allowed /\
    (allowed = true <-> if str_eqb (botAclDefaultEffect bot) EffectAllow then ~ speaks d id EffectDeny (queryOf req scope)
                        else speaks d id EffectAllow (queryOf req scope)).
Proof. intros Hd Ho Hs Hid Hb. apply evaluate_modes; try done; [apply Hd|]. by destruct (ok_bots _ Hd _ _ Hb) as (_ & _ & ?). Qed.
(** the query takes any one overriding rule, without an order; the answer
    is the same for every order of the rows. *)
Theorem rule_order_is_irrelevant ownerOnly d req l :
  DbOk d -> Permutation l (dbRules d) -> Evaluate ownerOnly (set_rules (fun _ => l) d) req = Evaluate ownerOnly d req.
Proof. apply evaluate_order. Qed.
(** C33: on a bot without rules a preset lets in exactly the conversations of
    its name, private, group or thread, and reports no error. *)
Theorem preset_opens_its_conversations d newID botID id bot createdBy raw preset :
  DbOk d -> ParseUUID botID = Ok id -> dbBots d !! id = Some bot -> ResolvePreset raw = Ok preset ->
  (forall r, r ∈ dbRules d -> rrBotID r <> id) -> (forall i j, newID i = newID j -> i = j) -> (forall i, newID i ∉ rrID <$> dbRules d) ->
  (ApplyPreset d newID botID createdBy raw).2 = None /\
  forall ownerOnly req scope, OwnerOnlyChannel ownerOnly (erChannelType req) = false ->
    normalizeSourceScope (erSourceScope req) = Ok scope -> ParseUUID (erBotID req) = Ok id ->
    Evaluate ownerOnly (ApplyPreset d newID botID createdBy raw).1 req = Ok (opensTo (psKey preset) (ssConversationType scope)).
Proof.
  intros Hd Hid Hb Hp Hr Hinj Hn. split; [by rewrite (preset_state _ _ _ _ _ _ _ _ Hid Hb Hp Hr Hinj Hn)|].
  intros. by eapply preset_opens_types.
Qed.
(** C34: a link code redeemed was issued, unexpired and unused, and binds the
    identity to the user who asked for it and changes no other binding; from
    then on, whatever happens, the code is refused as used. *)
Theorem link_code_binds_once upper d token identity now clock user d' :
  ConsumeLinkCode upper d token identity now clock = Ok (user, d') ->
  (exists code id, dbCodes d !! normalizeToken upper token = Some code /\ cdUserID code = user /\ cdConsumedAt code = None /\ now < cdExpiresAt code /\
     ParseUUID identity = Ok id /\ forall b, b ∈ dbBindings d' <-> b ∈ dbBindings d \/ b = (user, id)) /\
  forall later again other id now' clock', AccessReaches upper d' later -> normalizeToken upper again = normalizeToken upper token ->
    ParseUUID other = Ok id -> ConsumeLinkCode upper later again other now' clock' = Err ErrCodeConsumed.
Proof.
  intros H. split.
  - apply consume_Ok in H as (id & Hid & (c & Hc & Hno & Hex & _ & [= -> ->])%redeem_Ok). exists c, id. split_and!; [done..|].
    intros b. cbn. case_bool_decide as E; [|rewrite elem_of_app, list_elem_of_singleton]; naive_solver.
  - intros later again other id now' clock' Hl He Hid. eapply spent_refused; [|rewrite He; by eapply consume_token|done].
    rewrite He. eapply spent_reaches; [exact Hl|]. by apply consume_spends in H.
Qed.
End access.

(** ** A small workspace *)
Module Demo.
Definition ids : list str := lit <$> ["u1"; "u2"; "b1"; "i1"; "i2"; "g1"; "r1"; "r2"]%string.
(** As [uuid.Parse], it reads more spellings than the canonical one. *)
Definition parse (s : str) : option str := if bool_decide (s ∈ ids) then Some s else if str_eqb s (lit "U1") then Some (lit "u1") else None.
#[export] Instance uuids : UUIDs := {| uuid_parse := parse |}.
#[export] Instance tables : Unicode := ascii_unicode.
Lemma parse_id s u : parse s = Some u -> u ∈ ids.
Proof. unfold parse. case_bool_decide as E; [by intros [= <-]|]. destruct (str_eqb s (lit "U1")); [|done]. intros [= <-]. by apply (bool_decide_unpack _). Qed.
Lemma ids_text : Forall (fun u => trim_space u = u /\ u <> []) ids.
Proof. repeat constructor; done. Qed.
#[export] Instance uuid_laws : UUIDLaws.
Proof.
  constructor.
  - intros s u H%parse_id. cbn. unfold parse. by rewrite bool_decide_true.
  - reflexivity.
  - intros s u H%parse_id. by apply (proj1 (Forall_forall _ _) ids_text).
Qed.
Definition upper : Z -> Z := fun r => r.
Definition user1 : str := lit "u1".
Definition user2 : str := lit "u2".
Definition bot1 : str := lit "b1".
Definition person1 : str := lit "i1".
Definition helper : BotRow := mkBot (lit "helper") user1 EffectAllow.
Definition start : Db :=
  mkDb {[user1; user2]} {[bot1 := helper]} [] [] {[person1 := mkIdentity (lit "telegram") (lit "42") (lit "Ada") []]} ∅ [] ∅.
Lemma start_ok : DbOk start.
Proof.
  constructor.
  - change (map_Forall botOk ({[bot1 := helper]} : gmap str BotRow)). apply map_Forall_singleton. split_and!; [reflexivity..|by left].
  - split; constructor.
  - split_and!; constructor.
  - split; constructor.
  - exact (map_Forall_empty _).
  - exact (map_Forall_empty _).
Qed.
Definition freshID (n : nat) : str := replicate (S n) "x"%char.
Definition message (type : string) : EvaluateRequest := mkRequest bot1 person1 (lit "telegram") (mkScope (lit type) [] []).
Definition open_grant : GrantRow := mkGrant (lit "g1") bot1 GrantSubjectEveryone None [PermissionWorkspaceRead; PermissionWorkspaceWrite].
Definition shared : Db := set_grants (fun _ => [open_grant]) start.
Definition bytes : list Z := [3; 141; 59; 26; 53; 58; 97; 93].
Definition issued : Db := Eval vm_compute in match IssueLinkCode start user2 [] bytes 0 with Ok r => r.2 | Err _ => start end.
Definition code : str := Eval vm_compute in generateToken bytes.
Definition linked : Db := Eval vm_compute in match ConsumeLinkCode upper issued code person1 1 1 with Ok r => r.2 | Err _ => issued end.
End Demo.

Section witnesses.
Import Demo.
Lemma permissions_are_the_granted_witness :
  exists perms, ResolveUserPermissions shared bot1 user2 false = Ok perms /\
    (hasPermission perms PermissionWorkspaceRead = true <->
     asked PermissionWorkspaceRead ∈ allPermissions /\
     (false = true \/ botOwnerUserID helper = trim_space user2 \/
      exists g held, g ∈ dbGrants shared /\ speaksFor g bot1 user2 /\ held ∈ grPermissions g /\ permissionKey held ∈ allPermissions /\
        implies (permissionKey held) (asked PermissionWorkspaceRead))).
Proof. apply permissions_are_the_granted; reflexivity. Defined.
Lemma access_rows_stay_wellformed_witness : DbOk issued.
Proof.
  apply (access_rows_stay_wellformed upper start issued); [apply start_ok|]. apply rtc_once.
  exact (Step_IssueLinkCode upper start user2 [] bytes 0 (code, issued) eq_refl).
Defined.
Lemma chat_rules_follow_the_mode_witness :
  exists allowed, Evaluate None start (message "group") = Ok allowed /\
    (allowed = true <-> if str_eqb (botAclDefaultEffect helper) EffectAllow
       then ~ speaks start bot1 EffectDeny (queryOf (message "group") (mkScope (lit "group") [] []))
       else speaks start bot1 EffectAllow (queryOf (message "group") (mkScope (lit "group") [] []))).
Proof. apply chat_rules_follow_the_mode; [apply start_ok|reflexivity..]. Defined.
Lemma rule_order_is_irrelevant_witness :
  Evaluate None (set_rules (fun _ => []) start) (message "private") = Evaluate None start (message "private").
Proof. apply rule_order_is_irrelevant; [apply start_ok|reflexivity]. Defined.
Lemma preset_opens_its_conversations_witness :
  (ApplyPreset start freshID bot1 user1 (lit "Group_Only")).2 = None /\
  forall ownerOnly req scope, OwnerOnlyChannel ownerOnly (erChannelType req) = false ->
    normalizeSourceScope (erSourceScope req) = Ok scope -> ParseUUID (erBotID req) = Ok bot1 ->
    Evaluate ownerOnly (ApplyPreset start freshID bot1 user1 (lit "Group_Only")).1 req = Ok (opensTo (lit "group_only") (ssConversationType scope)).
Proof.
  apply (preset_opens_its_conversations start freshID bot1 bot1 helper user1 (lit "Group_Only")
           (mkPreset (lit "group_only") EffectDeny [conversationRule (lit "group")])).
  - apply start_ok.
  - reflexivity.
  - reflexivity.
  - reflexivity.
  - intros r H. by apply elem_of_nil in H.
  - intros i j H. apply (f_equal length) in H. unfold freshID in H. rewrite !length_replicate in H. lia.
  - intros i H. by apply elem_of_nil in H.
Defined.
Lemma link_code_binds_once_witness :
  (exists c id, dbCodes issued !! normalizeToken upper code = Some c /\ cdUserID c = user2 /\ cdConsumedAt c = None /\ 1 < cdExpiresAt c /\
     ParseUUID person1 = Ok id /\ forall b, b ∈ dbBindings linked <-> b ∈ dbBindings issued \/ b = (user2, id)) /\
  forall later again other id now' clock', AccessReaches upper linked later -> normalizeToken upper again = normalizeToken upper code ->
    ParseUUID other = Ok id -> ConsumeLinkCode upper later again other now' clock' = Err ErrCodeConsumed.
Proof. apply (link_code_binds_once upper issued code person1 1 1 user2 linked). reflexivity. Defined.
(** the owner is refused a grant under their canonical id only: another
    spelling of it passes the comparison, and the owner gets a grant. *)
Lemma owner_grant_bypass :
  CreateUserGrant start (lit "g1") bot1 (lit "user") (lit "u1") [lit "chat"] = Err ErrGrantOwnerConflict /\
  CreateUserGrant start (lit "g1") bot1 (lit "user") (lit "U1") [lit "chat"] =
    Ok (set_grants (fun _ => [mkGrant (lit "g1") bot1 (lit "user") (Some user1) [lit "chat"]]) start).
Proof. split; reflexivity. Qed.
(** an effect with white space around it is valid for the service, which
    stores it as it came: the table refuses it. *)
Lemma padded_effect_refused :
  validEffect (lit " allow ") = true /\
  CreateRule start (lit "r1") bot1 user1 (mkRuleRequest true [] (lit " allow ") [] [] None) = Err ConstraintViolation /\
  is_ok (CreateRule start (lit "r1") bot1 user1 (mkRuleRequest true [] (lit "allow") [] [] None)) = true.
Proof. split_and!; reflexivity. Qed.
End witnesses.
