(* ===== verification/ManagersCorrect.v ===== *)
(** * Who manages a bot from a channel

    The managers a bot lists are those its commands obey: the list is built
    from grants, bindings and overrides in one pass, the check of one identity
    asks them one by one. *)
From S2P Require Import Prelude GoStr GoTrim BotAccess BotAccessCorrect.
#[local] Open Scope Z_scope.

Section managers.
Context {U : Unicode} {I : UUIDs} {L : UUIDLaws}.

(** ** Who manages *)
Definition holdsManage (g : GrantRow) : bool := hasPermission (decodePermissions (grPermissions g)) PermissionManage.
Lemma holds_decode g : holdsManage g = true <-> PermissionManage ∈ decodePermissions (grPermissions g).
Proof. unfold holdsManage, decodePermissions, expandPermissions at 1. apply (hasPermission_expanded _ PermissionManage). Qed.
Lemma implies_manage q : implies q PermissionManage <-> q = PermissionManage.
Proof. unfold implies. split; [by intros [?|[?|[_ ?]]]|by left]. Qed.
Lemma manage_resolved d id bot u : canonical u ->
  hasPermission (ResolveUserPermissionsForBot d id bot u false) PermissionManage = true <->
  botOwnerUserID bot = u \/
  exists g, g ∈ dbGrants d /\ grBotID g = id /\ holdsManage g = true /\
    (grSubjectType g = GrantSubjectEveryone \/ grSubjectType g = GrantSubjectUser /\ grUserID g = Some u).
Proof.
  intros Hu. rewrite resolved_spec. change (asked PermissionManage) with PermissionManage. unfold speaksFor.
  rewrite (canonical_trim u) by done. split.
  - intros (_ & [?|[Ho|(g & h & Hg & (Hb & Hs) & Hh & Hk & Hi)]]); [done|by left|]. right. exists g. split_and!; [done..| |].
    + apply holds_decode, decode_elem. split; [by apply isKnown_spec|by exists h].
    + destruct Hs as [Hs|(Hs & u' & _ & Hp & Hg')]; [by left|right]. rewrite (ParseUUID_canonical u) in Hp by done. by injection Hp as ->.
  - intros H. split; [by apply isKnown_spec|]. right. destruct H as [H|(g & Hg & Hb & Hm & Hs)]; [by left|right].
    apply holds_decode, decode_elem in Hm as (_ & h & Hh & Hk & Hi). exists g, h. split_and!; [done..| |done|done|done].
    destruct Hs as [Hs|[Hs Hgu]]; [by left|right]. split; [done|]. exists u. rewrite ParseUUID_canonical by done. split_and!; [by apply canonical_filled|done..].
Qed.
Definition userManages (d : Db) (id : str) (bot : BotRow) (u : str) : Prop :=
  botOwnerUserID bot = u \/
  exists g, g ∈ dbGrants d /\ grBotID g = id /\ holdsManage g = true /\
    (grSubjectType g = GrantSubjectEveryone \/ grSubjectType g = GrantSubjectUser /\ grUserID g = Some u).
(** An override decides; without one, any bound user does. *)
Definition manages (d : Db) (id : str) (bot : BotRow) (identity : str) : Prop :=
  match dbOverrides d !! (id, identity) with
  | Some granted => granted = true
  | None => exists u, (u, identity) ∈ dbBindings d /\ userManages d id bot u
  end.
Lemma any_manage d botID id bot users : ParseUUID botID = Ok id -> dbBots d !! id = Some bot -> Forall canonical users ->
  exists b, anyManage d botID users = Ok b /\ (b = true <-> exists u, u ∈ users /\ userManages d id bot u).
Proof.
  intros Hid Hb. induction 1 as [|u users Hu _ IH]; cbn [anyManage].
  - exists false. split; [done|]. split; [done|]. by intros (u & Hu%elem_of_nil & _).
  - unfold blank. rewrite (canonical_trim u), (proj2 (is_empty_false _) (canonical_filled u Hu)) by done.
    unfold userHasManage, ResolveUserPermissions. rewrite Hid. cbn [rbind]. rewrite Hb. cbn [found rbind].
    destruct (hasPermission _ PermissionManage) eqn:E.
    + exists true. split; [done|]. apply manage_resolved in E; [|done]. split; [|done]. intros _. exists u. split; [by left|done].
    + destruct IH as (b & -> & Hb'). exists b. split; [done|]. rewrite Hb'. apply not_true_iff_false in E. rewrite manage_resolved in E by done.
      split; [intros (w & Hw & Hm); exists w; split; [by right|done]|].
      intros (w & [->|Hw]%elem_of_cons & Hm); [done|by exists w].
Qed.
Lemma users_of_identity d identity u : u ∈ ListUserIDsByChannelIdentity d identity <-> (u, identity) ∈ dbBindings d.
Proof.
  unfold ListUserIDsByChannelIdentity. rewrite list_elem_of_fmap. setoid_rewrite elem_of_filter_bool. setoid_rewrite str_eqb_true. split.
  - by intros ([u' i] & -> & Hin & <-).
  - intros H. by exists (u, identity).
Qed.
Lemma has_manage_spec d botID id bot identity : DbOk d -> ParseUUID botID = Ok id -> dbBots d !! id = Some bot -> canonical identity ->
  exists b, HasManageGrant d botID identity = Ok b /\ (b = true <-> manages d id bot identity).
Proof.
  intros Hd Hid Hb Hc. unfold HasManageGrant. rewrite (canonical_trim identity), (proj2 (is_empty_false _) (canonical_filled _ Hc)) by done.
  unfold GetManageOverride. rewrite !ParseUUID_trim, Hid. cbn [rbind]. rewrite (ParseUUID_canonical identity) by done. cbn [rbind].
  unfold manages. destruct (dbOverrides d !! (id, identity)) as [b|]; [by exists b|]. unfold inheritedManage.
  rewrite (ParseUUID_canonical identity) by done. cbn [rbind].
  destruct (any_manage d botID id bot (ListUserIDsByChannelIdentity d identity) Hid Hb) as (b & -> & E).
  - apply Forall_forall. intros u Hu%users_of_identity. destruct (ok_bindings _ Hd) as [B _]. rewrite Forall_forall in B. by apply B in Hu as [? _].
  - exists b. split; [done|]. rewrite E. by setoid_rewrite users_of_identity.
Qed.

(** ** What a map of managers says *)
Record Says (m : gmap str ManagerRow) (listed managing : str -> Prop) : Prop := mkSays {
  says_listed id : is_Some (m !! id) <-> listed id;
  says_manage id : (exists r, m !! id = Some r /\ mgManage r = true) <-> managing id;
  says_identity id r : m !! id = Some r -> mgIdentity r = id;
}.
Lemma says_proper m L1 L2 M1 M2 : (forall x, L1 x <-> L2 x) -> (forall x, M1 x <-> M2 x) -> Says m L1 M1 -> Says m L2 M2.
Proof. intros HL HM []. constructor; intros; rewrite <- ?HL, <- ?HM; auto. Qed.
Lemma says_insert m L1 M1 id r (b : bool) : Says m L1 M1 -> mgIdentity r = id -> mgManage r = b ->
  Says (<[id := r]> m) (fun x => L1 x \/ x = id) (fun x => x = id /\ b = true \/ x <> id /\ M1 x).
Proof.
  intros [] Hi Hb. constructor; intros x.
  - destruct (decide (x = id)) as [->|Hx]; [rewrite lookup_insert_eq; split; [by right|by eexists]|].
    rewrite lookup_insert_ne, says_listed0 by done. tauto.
  - destruct (decide (x = id)) as [->|Hx].
    + rewrite lookup_insert_eq. split; [intros (r' & [= <-] & Hr'); left; by rewrite <- Hb|intros [[_ ?]|[? _]]; [|done]; exists r; by rewrite Hb].
    + rewrite lookup_insert_ne, says_manage0 by done. tauto.
  - intros r' [[<- <-]|[_ H]]%lookup_insert_Some; eauto.
Qed.
Lemma says_binding d c m L1 M1 id : Says m L1 M1 ->
  Says (mergeManagerBinding d c m id) (fun x => L1 x \/ x = id) (fun x => M1 x \/ x = id /\ c = true).
Proof.
  intros Hs. unfold mergeManagerBinding. eapply says_proper; [| |eapply says_insert; [exact Hs|done|reflexivity]]; [done|].
  intros x. cbn. rewrite orb_true_iff. destruct Hs as [_ Hm _]. specialize (Hm x).
  destruct (decide (x = id)) as [->|Hx]; [|tauto]. rewrite <- Hm. destruct (m !! id) as [r|] eqn:E; cbn.
  - split; [intros [[_ [?|?]]|[? _]]; [by left; exists r|by right|done]|intros [(r' & [= <-] & ?)|?]; [by left; split; [|left]|tauto]].
  - split; [intros [[_ [?|?]]|[? _]]; [done|by right|done]|intros [(r' & ? & _)|?]; [done|tauto]].
Qed.
Lemma says_bindings d c ids : forall m L1 M1, Says m L1 M1 ->
  Says (foldl (mergeManagerBinding d c) m ids) (fun x => L1 x \/ x ∈ ids) (fun x => M1 x \/ x ∈ ids /\ c = true).
Proof.
  induction ids as [|id ids IH]; intros m L1 M1 Hs; cbn [foldl].
  - eapply says_proper; [| |exact Hs]; intros x; rewrite elem_of_nil; tauto.
  - eapply says_proper; [| |apply IH, says_binding, Hs]; intros x; cbn; rewrite elem_of_cons; tauto.
Qed.

(** The members a grant names. *)
Definition member (d : Db) (g : UserGrant) (x : str) : Prop :=
  ugSubjectType g = GrantSubjectUser /\ (ugUserID g, x) ∈ dbBindings d.
Definition namesUser (g : UserGrant) : Prop := ugSubjectType g = GrantSubjectEveryone \/ ugSubjectType g = GrantSubjectUser /\ canonical (ugUserID g).
Lemma identities_of_user d u x : x ∈ identitiesOfUser d u <-> (u, x) ∈ dbBindings d.
Proof.
  unfold identitiesOfUser. rewrite list_elem_of_fmap. setoid_rewrite elem_of_filter_bool. setoid_rewrite str_eqb_true. split.
  - by intros ([u' i] & -> & Hin & <-).
  - intros H. by exists (u, x).
Qed.
Lemma everyone_not_user : GrantSubjectEveryone <> GrantSubjectUser.
Proof. done. Qed.
Lemma says_grant d m ev g L1 M1 : Says m L1 M1 -> namesUser g ->
  Says (mergeGrant d (m, ev) g).1 (fun x => L1 x \/ member d g x) (fun x => M1 x \/ member d g x /\ carriesManage g = true) /\
  (mergeGrant d (m, ev) g).2 = ev || str_eqb (ugSubjectType g) GrantSubjectEveryone && carriesManage g.
Proof.
  intros Hs Hn. unfold mergeGrant, member. destruct (str_eqb (ugSubjectType g) GrantSubjectEveryone) eqn:E; cbn [andb].
  - apply str_eqb_true in E. split; [|done]. eapply says_proper; [| |exact Hs]; intros x; rewrite E; split; try tauto.
    + intros [?|[Hf _]]; [done|]. by apply everyone_not_user in Hf.
    + intros [?|[[Hf _] _]]; [done|]. by apply everyone_not_user in Hf.
  - apply str_eqb_false in E. destruct Hn as [?|[Hu Hc]]; [done|]. unfold blank.
    rewrite (canonical_trim _ Hc), (proj2 (is_empty_false _) (canonical_filled _ Hc)), (ParseUUID_canonical _ Hc), Hu, str_eqb_refl. cbn [negb orb fst snd].
    rewrite orb_false_r. split; [|done]. eapply says_proper; [| |apply says_bindings, Hs]; intros x; cbn; rewrite identities_of_user; tauto.
Qed.
Lemma says_grants d gs : forall m ev L1 M1, Says m L1 M1 -> Forall namesUser gs ->
  Says (foldl (mergeGrant d) (m, ev) gs).1 (fun x => L1 x \/ exists g, g ∈ gs /\ member d g x)
       (fun x => M1 x \/ exists g, g ∈ gs /\ member d g x /\ carriesManage g = true) /\
  ((foldl (mergeGrant d) (m, ev) gs).2 = true <->
   ev = true \/ exists g, g ∈ gs /\ ugSubjectType g = GrantSubjectEveryone /\ carriesManage g = true).
Proof.
  induction gs as [|g gs IH]; intros m ev L1 M1 Hs Hn; cbn [foldl].
  - split; [|split; [by left|intros [?|(g & Hg%elem_of_nil & _)]; done]].
    eapply says_proper; [| |exact Hs]; intros x; cbn; (split; [by left|intros [?|(g & Hg%elem_of_nil & _)]; done]).
  - apply Forall_cons in Hn as [Hg Hn]. destruct (says_grant d m ev g L1 M1 Hs Hg) as [Hs' Hev].
    destruct (mergeGrant d (m, ev) g) as [m' ev']. cbn [fst snd] in *. destruct (IH m' ev' _ _ Hs' Hn) as [Hs'' Hev'']. split.
    + eapply says_proper; [| |exact Hs'']; intros x; cbn; setoid_rewrite elem_of_cons; split.
      * intros [[?|?]|(h & ? & ?)]; [by left|right; exists g; auto|right; exists h; auto].
      * intros [?|(h & [->|?] & ?)]; [by left; left|by left; right|right; eauto].
      * intros [[?|?]|(h & ? & ?)]; [by left|right; exists g; auto|right; exists h; auto].
      * intros [?|(h & [->|?] & ?)]; [by left; left|by left; right|right; eauto].
    + rewrite Hev'', Hev, orb_true_iff, andb_true_iff, str_eqb_true. setoid_rewrite elem_of_cons. split.
      * intros [[?|[? ?]]|(h & ? & ?)]; [by left|right; exists g; auto|right; exists h; auto].
      * intros [?|(h & [->|?] & ?)]; [by left; left|by left; right|right; eauto].
Qed.
Lemma says_override d m o L1 M1 : Says m L1 M1 ->
  Says (mergeOverride d m o) (fun x => L1 x \/ x = o.1) (fun x => x = o.1 /\ o.2 = true \/ x <> o.1 /\ M1 x).
Proof.
  destruct o as [id granted]. intros Hs. unfold mergeOverride. apply says_insert; [done| |done]. cbn.
  destruct (m !! id) as [r|] eqn:E; [|done]. cbn. by eapply says_identity in E.
Qed.
Lemma says_overrides d os : forall m L1 M1, Says m L1 M1 -> NoDup os.*1 ->
  Says (foldl (mergeOverride d) m os) (fun x => L1 x \/ x ∈ os.*1) (fun x => (x, true) ∈ os \/ x ∉ os.*1 /\ M1 x).
Proof.
  induction os as [|o os IH]; intros m L1 M1 Hs Hn; cbn [foldl].
  - eapply says_proper; [| |exact Hs]; intros x; cbn; rewrite !elem_of_nil; tauto.
  - rewrite fmap_cons in Hn. apply NoDup_cons in Hn as [Ho Hn]. eapply says_proper; [| |apply IH; [apply says_override, Hs|exact Hn]]; intros x; cbn [fmap list_fmap].
    + rewrite elem_of_cons. tauto.
    + rewrite !elem_of_cons. destruct o as [k g]. cbn in *. split.
      * intros [?|[? [[-> ->]|[? ?]]]]; [by left; right|by left; left|right; split; [|done]; by intros [?|?]].
      * intros [[[= -> <-]|?]|[H ?]]; [right; split; [done|by left]|by left|]. right. split; [by intros ?; apply H; right|]. right. split; [by intros ?; apply H; left|done].
Qed.
Lemma overrides_of_bot d id x g : (x, g) ∈ overridesOfBot d id <-> dbOverrides d !! (id, x) = Some g.
Proof.
  unfold overridesOfBot. rewrite list_elem_of_fmap. setoid_rewrite elem_of_filter_bool. setoid_rewrite str_eqb_true. split.
  - intros ([[b y] h] & [= -> ->] & Hin & Hb). cbn in *. subst. by apply elem_of_map_to_list in Hin.
  - intros H. exists ((id, x), g). split_and!; [done| |done]. by apply elem_of_map_to_list.
Qed.
Lemma overrides_unique d id : NoDup (overridesOfBot d id).*1.
Proof.
  unfold overridesOfBot. rewrite <- list_fmap_compose. assert (H := NoDup_fst_map_to_list (dbOverrides d)).
  induction (map_to_list (dbOverrides d)) as [|[[b x] g] l IH]; [constructor|]. cbn in H. apply NoDup_cons in H as [Hx Hl]. cbn.
  destruct (str_eqb b id) eqn:E; [|by apply IH]. apply str_eqb_true in E as ->. rewrite fmap_cons. apply NoDup_cons. split; [|by apply IH].
  rewrite list_elem_of_fmap. intros ([[b' x'] g'] & [= ->] & [Hin Hb%str_eqb_true]%elem_of_filter_bool). cbn in Hb. subst. apply Hx.
  apply list_elem_of_fmap. by exists ((id, x'), g').
Qed.

(** ** The list against the check *)
(** A bound user of the bot's own members. *)
Definition boundMember (d : Db) (id : str) (bot : BotRow) (x : str) : Prop :=
  exists u, (u, x) ∈ dbBindings d /\
    (botOwnerUserID bot = u \/ exists g, g ∈ dbGrants d /\ grBotID g = id /\ grSubjectType g = GrantSubjectUser /\ grUserID g = Some u).
Lemma list_grants d id g : g ∈ ListBotUserGrants d id <-> g ∈ dbGrants d /\ grBotID g = id.
Proof.
  unfold ListBotUserGrants. rewrite elem_of_app, !elem_of_filter_bool, str_eqb_true, negb_true_iff.
  destruct (str_eqb (grSubjectType g) GrantSubjectUser); intuition congruence.
Qed.
Definition grantsOf (d : Db) (id : str) (bot : BotRow) : list UserGrant :=
  mkUserGrant GrantSubjectUser (botOwnerUserID bot) allPermissions true :: (grantOfRow <$> ListBotUserGrants d id).
Lemma grants_name_users d id bot : DbOk d -> dbBots d !! id = Some bot -> Forall namesUser (grantsOf d id bot).
Proof.
  intros Hd Hb. unfold grantsOf. constructor; [right; split; [done|]; by destruct (ok_bots _ Hd _ _ Hb) as (_ & ? & _)|].
  apply Forall_fmap, Forall_forall. intros g [Hg _]%list_grants. destruct (ok_grants _ Hd) as [G _]. rewrite Forall_forall in G.
  destruct (G _ Hg) as (_ & _ & [[? _]|(? & u & Hu & Hc)]); [by left|right]. cbn. by rewrite Hu.
Qed.
Lemma members_of d id bot x : DbOk d -> (exists g, g ∈ grantsOf d id bot /\ member d g x) <-> boundMember d id bot x.
Proof.
  intros Hd. unfold grantsOf, member, boundMember. setoid_rewrite elem_of_cons. setoid_rewrite list_elem_of_fmap. setoid_rewrite list_grants.
  destruct (ok_grants _ Hd) as [G _]. rewrite Forall_forall in G. split.
  - intros (g & [->|(r & -> & Hr & Hid)] & Hu & Hm); cbn in *; [exists (botOwnerUserID bot); split; [done|by left]|].
    destruct (G _ Hr) as (_ & _ & [[Hev _]|(_ & u & Hgu & _)]); [rewrite Hev in Hu; by apply everyone_not_user in Hu|].
    rewrite Hgu in Hm. cbn in Hm. exists u. split; [done|right]. by exists r.
  - intros (u & Hm & [<-|(r & Hr & Hid & Hu & Hgu)]); [eexists; split; [by left|done]|].
    exists (grantOfRow r). split; [right; by exists r|]. cbn. by rewrite Hgu.
Qed.
Lemma carries_row g : carriesManage (grantOfRow g) = holdsManage g.
Proof. unfold carriesManage, grantOfRow, holdsManage. cbn [ugIsOwner ugPermissions orb]. reflexivity. Qed.
Lemma managing_members d id bot x : DbOk d -> (exists g, g ∈ grantsOf d id bot /\ member d g x /\ carriesManage g = true) <->
  exists u, (u, x) ∈ dbBindings d /\ (botOwnerUserID bot = u \/
    exists g, g ∈ dbGrants d /\ grBotID g = id /\ holdsManage g = true /\ grSubjectType g = GrantSubjectUser /\ grUserID g = Some u).
Proof.
  intros Hd. unfold grantsOf, member. setoid_rewrite elem_of_cons. setoid_rewrite list_elem_of_fmap. setoid_rewrite list_grants.
  destruct (ok_grants _ Hd) as [G _]. rewrite Forall_forall in G. split.
  - intros (g & [->|(r & -> & Hr & Hid)] & [Hu Hm] & Hc); cbn [grantOfRow ugSubjectType ugUserID] in *; [exists (botOwnerUserID bot); split; [done|by left]|].
    destruct (G _ Hr) as (_ & _ & [[Hev _]|(_ & u & Hgu & _)]); [rewrite Hev in Hu; by apply everyone_not_user in Hu|].
    rewrite Hgu in Hm. cbn in Hm. exists u. split; [done|right]. rewrite carries_row in Hc. by exists r.
  - intros (u & Hm & [<-|(r & Hr & Hid & Hh & Hu & Hgu)]); [eexists; split; [by left|done]|].
    exists (grantOfRow r). split; [right; by exists r|]. rewrite carries_row. split; [|exact Hh]. cbn [grantOfRow ugSubjectType ugUserID]. by rewrite Hgu.
Qed.
Lemma managing_everyone d id bot : (exists g, g ∈ grantsOf d id bot /\ ugSubjectType g = GrantSubjectEveryone /\ carriesManage g = true) <->
  exists g, g ∈ dbGrants d /\ grBotID g = id /\ holdsManage g = true /\ grSubjectType g = GrantSubjectEveryone.
Proof.
  unfold grantsOf. setoid_rewrite elem_of_cons. setoid_rewrite list_elem_of_fmap. setoid_rewrite list_grants. split.
  - intros (g & [->|(r & -> & Hr & Hid)] & Hu & Hc); cbn [grantOfRow ugSubjectType ugUserID] in *; [by symmetry in Hu; apply everyone_not_user in Hu|].
    rewrite carries_row in Hc. by exists r.
  - intros (r & Hr & Hid & Hh & Hu). exists (grantOfRow r). rewrite carries_row. split; [right; by exists r|]. by split.
Qed.
Lemma identities_of_bot d id x : x ∈ identitiesOfBot d (Some id) <->
  exists u g, (u, x) ∈ dbBindings d /\ g ∈ dbGrants d /\ grBotID g = id /\ grSubjectType g = GrantSubjectUser /\ grUserID g = Some u.
Proof.
  unfold identitiesOfBot. rewrite list_elem_of_fmap. split.
  - intros ([u y] & -> & [Hin (g & Hg & H)%existsb_exists]%elem_of_filter_bool). apply list_elem_of_In in Hg. bool_hyps.
    match goal with E : str_eqb _ _ = true |- _ => apply str_eqb_true in E end. exists u, g. split_and!; [done|done|congruence|done|done].
  - intros (u & g & Hin & Hg & Hb & Hs & Hu). exists (u, x). split; [done|]. apply elem_of_filter_bool. split; [done|].
    apply existsb_exists. exists g. rewrite <- list_elem_of_In. split; [done|]. rewrite Hs, str_eqb_refl.
    rewrite !andb_true_iff, !bool_decide_eq_true. split_and!; [by rewrite Hb|done|exact Hu].
Qed.
Lemma says_empty : Says ∅ (fun _ => False) (fun _ => False).
Proof. constructor; intros x; rewrite lookup_empty; [split; [by intros [? ?]|done]|split; [by intros (? & ? & _)|done]|done]. Qed.
Lemma managers_map d botID id bot : DbOk d -> ParseUUID botID = Ok id -> dbBots d !! id = Some bot ->
  exists m, managersByIdentity d botID = Ok m /\
    Says m (fun x => boundMember d id bot x \/ is_Some (dbOverrides d !! (id, x)))
           (fun x => (boundMember d id bot x \/ is_Some (dbOverrides d !! (id, x))) /\ manages d id bot x).
Proof.
  intros Hd Hid Hb. unfold managersByIdentity, ListUserGrants. rewrite Hid. cbn [rbind]. rewrite Hb. cbn [found rbind]. fold (grantsOf d id bot).
  destruct (says_grants d (grantsOf d id bot) ∅ false _ _ says_empty (grants_name_users _ _ _ Hd Hb)) as [Hs Hev].
  destruct (foldl _ _ _) as [m ev]. cbn [fst snd] in *. rewrite ParseUUID_trim, Hid. cbn [rbind].
  rewrite (proj2 (uuid_ParseUUID (trim_space botID) id)) by (by rewrite ParseUUID_trim). eexists. split; [done|].
  assert (He : Says (if ev then foldl (mergeManagerBinding d true) m (identitiesOfBot d (Some id)) else m)
      (boundMember d id bot)
      (fun x => (exists g, g ∈ grantsOf d id bot /\ member d g x /\ carriesManage g = true) \/ ev = true /\ x ∈ identitiesOfBot d (Some id))).
  { destruct ev.
    - eapply says_proper; [| |apply says_bindings, Hs]; intros x; cbn; [|tauto]. rewrite <- (members_of d id bot x Hd). split; [|tauto].
      intros [[[]|?]|H]; [done|]. apply members_of; [done|]. apply identities_of_bot in H as (u & g & H & ? & ? & ? & ?).
      exists u. split; [done|right]. by exists g.
    - eapply says_proper; [| |exact Hs]; intros x; cbn; rewrite <- ?(members_of d id bot x Hd); split; try tauto.
      intros [?|[? _]]; [by right|done]. }
  eapply says_proper; [| |apply says_overrides, overrides_unique; exact He]; intros x.
  - cbn. rewrite list_elem_of_fmap. split; (intros [?|H]; [by left|right]).
    + destruct H as ([y g] & -> & H%overrides_of_bot). by exists g.
    + destruct H as [g H]. exists (x, g). split; [done|]. by apply overrides_of_bot.
  - cbn. rewrite overrides_of_bot, managing_members by done. unfold manages. destruct (dbOverrides d !! (id, x)) as [g|] eqn:E.
    + split; [intros [[= ->]|[H _]]; [by split; [right|]|]|intros [_ ->]; by left].
      exfalso. apply H, list_elem_of_fmap. exists (x, g). split; [done|]. by apply overrides_of_bot.
    + assert (Hno : x ∉ (overridesOfBot d id).*1).
      { rewrite list_elem_of_fmap. intros ([y g] & -> & H%overrides_of_bot). cbn in E. congruence. }
      rewrite Hev, managing_everyone, identities_of_bot. unfold boundMember, userManages. split.
      * intros [?|[_ [(u & Hu & [Ho|(g & Hg & Hb' & Hh & Hs' & Hgu)])|[[?|(g & Hg & Hb' & Hh & Hs')] (u & g' & Hu & Hg' & Hb'' & Hs'' & Hgu)]]]]; [done| | |done|].
        -- split; [left; exists u; by auto|]. exists u. by auto.
        -- split; [left; exists u; split; [done|right]; by exists g|]. exists u. split; [done|right]. exists g. by auto 10.
        -- split; [left; exists u; split; [done|right]; by exists g'|]. exists u. split; [done|right]. exists g. by auto 10.
      * intros [[(w & Hw & Hm)|[? ?]] (u & Hu & Hman)]; [|done]. right. split; [done|].
        destruct Hman as [Ho|(g & Hg & Hb' & Hh & [Hs'|[Hs' Hgu]])]; [left; exists u; by auto| |left; exists u; split; [done|right]; by exists g].
        destruct Hm as [Ho|(g' & Hg' & Hb'' & Hs'' & Hgu)]; [left; exists w; by auto|].
        right. split; [right; by exists g|]. by exists w, g'.
Qed.
Lemma list_managers d botID id bot : DbOk d -> ParseUUID botID = Ok id -> dbBots d !! id = Some bot ->
  exists rows, ListManagers d botID = Ok rows /\
    (forall x, x ∈ mgIdentity <$> rows <-> boundMember d id bot x \/ is_Some (dbOverrides d !! (id, x))) /\
    NoDup (mgIdentity <$> rows) /\
    forall r, r ∈ rows -> mgManage r = true <-> manages d id bot (mgIdentity r).
Proof.
  intros Hd Hid Hb. destruct (managers_map d botID id bot Hd Hid Hb) as (m & Hm & Hs). unfold ListManagers. rewrite Hm. cbn [rbind].
  eexists. split; [done|]. assert (Hin : forall r, r ∈ stable_sort managerLess (snd <$> map_to_list m) <-> m !! mgIdentity r = Some r).
  { intros r. rewrite stable_sort_perm, list_elem_of_fmap. split.
    - intros ([k r'] & -> & H%elem_of_map_to_list). cbn. by rewrite (says_identity _ _ _ Hs _ _ H).
    - intros H. exists (mgIdentity r, r). split; [done|]. by apply elem_of_map_to_list. }
  split_and!.
  - intros x. rewrite <- (says_listed _ _ _ Hs x), list_elem_of_fmap. setoid_rewrite Hin. split; [intros (r & -> & H); by exists r|].
    intros [r H]. exists r. by rewrite (says_identity _ _ _ Hs _ _ H).
  - rewrite stable_sort_perm, <- list_fmap_compose.
    assert (E : (mgIdentity ∘ snd) <$> map_to_list m = (map_to_list m).*1); [|rewrite E; apply NoDup_fst_map_to_list].
    apply list_fmap_ext. intros i [k r] H. apply list_elem_of_lookup_2, elem_of_map_to_list in H. cbn. by eapply says_identity in H.
  - intros r H%Hin. assert (Hm' := says_manage _ _ _ Hs (mgIdentity r)). assert (Hl := says_listed _ _ _ Hs (mgIdentity r)). split.
    + intros Hr. apply Hm'. by exists r.
    + intros Hr. destruct (proj2 Hm') as (r' & Hr' & Ht); [split; [apply Hl; by exists r|done]|]. congruence.
Qed.

(** ** The theorems *)
Lemma issue_Ok d user channel buf now r : IssueLinkCode d user channel buf now = Ok r ->
  exists u, ParseUUID user = Ok u /\ u ∈ dbUsers d /\
    r = (generateToken buf, set_links (dbBindings d) (<[generateToken buf := mkCode u (trim_space channel) (now + defaultCodeTTL) None None]> (dbCodes d)) d).
Proof. intros H. unfold IssueLinkCode in H. steps. rewrite ParseUUID_trim in H1. bool_hyps. by eexists. Qed.
Lemma user_manages_links d bindings codes id bot u : userManages (set_links bindings codes d) id bot u <-> userManages d id bot u.
Proof. done. Qed.

Lemma listed_canonical d id bot x : DbOk d -> boundMember d id bot x \/ is_Some (dbOverrides d !! (id, x)) -> canonical x.
Proof.
  intros Hd [(u & Hu & _)|[g Hg]].
  - destruct (ok_bindings _ Hd) as [B _]. rewrite Forall_forall in B. by destruct (B _ Hu).
  - by destruct (ok_overrides _ Hd _ _ Hg).
Qed.

(** C35: every row of the list of managers tells the truth about its identity,
    once: the commands obey it ([HasManageGrant]) exactly when its row says
    so; and the list has every identity with an override and every identity
    bound to the owner or to a user with a grant of their own. *)
Theorem listed_managers_are_effective d botID id bot :
  DbOk d -> ParseUUID botID = Ok id -> dbBots d !! id = Some bot ->
  exists rows, ListManagers d botID = Ok rows /\ NoDup (mgIdentity <$> rows) /\
    (forall r, r ∈ rows -> HasManageGrant d botID (mgIdentity r) = Ok (mgManage r)) /\
    forall x, x ∈ mgIdentity <$> rows <-> boundMember d id bot x \/ is_Some (dbOverrides d !! (id, x)).
Proof.
  intros Hd Hid Hb. destruct (list_managers d botID id bot Hd Hid Hb) as (rows & Hr & Hl & Hn & Hm). exists rows. split_and!; [done..| |done].
  intros r Hin. assert (Hc : canonical (mgIdentity r)).
  { eapply listed_canonical; [done|]. apply Hl. by apply list_elem_of_fmap_2. }
  destruct (has_manage_spec d botID id bot (mgIdentity r) Hd Hid Hb Hc) as (b & -> & Hb'). f_equal.
  apply eq_bool_prop_intro. rewrite !Is_true_true, Hb'. symmetry. by apply Hm.
Qed.
(** C36: a code just issued can be redeemed for ten minutes, as it was shown,
    by an identity the channel knows; from then on the identity manages every
    bot its user manages, unless an override of that bot says otherwise. *)
Theorem fresh_code_links_the_account upper d user channel buf issued token d1 identity id now clock :
  DbOk d -> buf <> [] -> IssueLinkCode d user channel buf issued = Ok (token, d1) -> now < issued + defaultCodeTTL ->
  ParseUUID identity = Ok id -> is_Some (dbIdentities d !! id) ->
  exists u d2, ParseUUID user = Ok u /\ ConsumeLinkCode upper d1 token identity now clock = Ok (u, d2) /\
    forall botID bid bot, ParseUUID botID = Ok bid -> dbBots d !! bid = Some bot -> userManages d bid bot u ->
      dbOverrides d !! (bid, id) = None -> HasManageGrant d2 botID identity = Ok true.
Proof.
  intros Hd Hbuf Hi Hnow Hid Hex. assert (Hd1 := issue_ok _ _ _ _ _ _ Hd Hi). apply issue_Ok in Hi as (u & Hu & Hin & [= -> ->]). cbn [snd] in Hd1.
  assert (Hc : canonical id) by (by eapply ParseUUID_Ok).
  assert (Hcon : exists d2, ConsumeLinkCode upper (set_links (dbBindings d) (<[generateToken buf := mkCode u (trim_space channel) (issued + defaultCodeTTL) None None]> (dbCodes d)) d)
             (generateToken buf) identity now clock = Ok (u, d2) /\ (u, id) ∈ dbBindings d2 /\ dbBots d2 = dbBots d /\ dbGrants d2 = dbGrants d /\ dbOverrides d2 = dbOverrides d).
  { unfold ConsumeLinkCode. rewrite normalize_code by apply token_chars.
    assert (Hg : is_empty (generateToken buf) = false) by (by destruct buf).
    assert (Hi : is_empty (trim_space identity) = false).
    { apply is_empty_false. intros E. unfold ParseUUID in Hid. by rewrite E, uuid_filled in Hid. }
    rewrite Hg, Hi, ParseUUID_trim, Hid. cbn [orb negb check rbind]. unfold RedeemChannelLinkCode. cbn [set_links dbCodes dbIdentities dbBindings].
    rewrite lookup_insert_eq. cbn [found rbind cdConsumedAt cdExpiresAt cdUserID cdChannelType].
    rewrite (bool_decide_true (None = None)), (proj2 (Z.ltb_lt _ _)), bool_decide_true by done. cbn [andb check rbind].
    eexists. split; [done|]. split; [|done]. cbn [set_links dbBindings]. case_bool_decide; [done|]. apply elem_of_app. right. by apply list_elem_of_singleton. }
  destruct Hcon as (d2 & Hcon & Hbind & Hbots & Hgrants & Hov). exists u, d2. split_and!; [done..|].
  intros botID bid bot Hbid Hb Hm Hno. assert (Hd2 := consume_ok _ _ _ _ _ _ _ Hd1 Hcon). cbn [snd] in Hd2.
  assert (Hsame : HasManageGrant d2 botID identity = HasManageGrant d2 botID id).
  { unfold HasManageGrant, GetManageOverride, inheritedManage. rewrite !ParseUUID_trim.
    assert (Hi : is_empty (trim_space identity) = false).
    { apply is_empty_false. intros E. unfold ParseUUID in Hid. by rewrite E, uuid_filled in Hid. }
    rewrite Hi, (canonical_trim id), (proj2 (is_empty_false _) (canonical_filled _ Hc)), Hid, (ParseUUID_canonical id) by done. done. }
  rewrite Hsame. rewrite <- Hbots in Hb. destruct (has_manage_spec d2 botID bid bot id Hd2 Hbid Hb Hc) as (b & -> & E). f_equal. apply E.
  unfold manages. rewrite Hov, Hno. exists u. split; [done|]. unfold userManages in *. by rewrite Hgrants.
Qed.
(** an override decides alone, on or off; without it the identity falls
    back to the users it is bound to. *)
Theorem override_decides d botID identity granted d' :
  SetManageOverride d botID identity granted = Ok d' ->
  HasManageGrant d' botID identity = Ok granted /\
  forall d'', DeleteManageOverride d' botID identity = Ok d'' -> HasManageGrant d'' botID identity = inheritedManage d'' botID (trim_space identity).
Proof.
  intros H. unfold SetManageOverride in H. apply rbind_Ok in H as (? & Hblank & H). apply check_Ok, negb_true_iff in Hblank. steps.
  rewrite !ParseUUID_trim in *. unfold HasManageGrant, GetManageOverride, DeleteManageOverride. unfold blank in Hblank.
  rewrite !Hblank, !ParseUUID_trim. repeat match goal with E : ParseUUID _ = Ok _ |- _ => rewrite !E; clear E end. cbn [rbind]. split.
  - unfold set_overrides. cbn [dbOverrides]. by rewrite lookup_insert_eq.
  - intros d'' [= <-]. unfold set_overrides. cbn [dbOverrides]. by rewrite lookup_delete_eq.
Qed.
End managers.

Section witnesses.
Import Demo.
Definition managed : Db := Eval vm_compute in match SetManageOverride linked bot1 person1 true with Ok d => d | Err _ => linked end.
Lemma linked_ok : DbOk linked.
Proof. apply (consume_ok upper issued code person1 1 1 (user2, linked)); [|reflexivity]. apply (issue_ok start user2 [] bytes 0 (code, issued)); [apply start_ok|reflexivity]. Qed.
Lemma listed_managers_are_effective_witness :
  exists rows, ListManagers linked bot1 = Ok rows /\ NoDup (mgIdentity <$> rows) /\
    (forall r, r ∈ rows -> HasManageGrant linked bot1 (mgIdentity r) = Ok (mgManage r)) /\
    forall x, x ∈ mgIdentity <$> rows <-> boundMember linked bot1 helper x \/ is_Some (dbOverrides linked !! (bot1, x)).
Proof. apply listed_managers_are_effective; [apply linked_ok|reflexivity..]. Defined.
Lemma fresh_code_links_the_account_witness :
  exists u d2, ParseUUID user2 = Ok u /\ ConsumeLinkCode upper issued code person1 1 1 = Ok (u, d2) /\
    forall botID bid bot, ParseUUID botID = Ok bid -> dbBots start !! bid = Some bot -> userManages start bid bot u ->
      dbOverrides start !! (bid, person1) = None -> HasManageGrant d2 botID person1 = Ok true.
Proof. apply (fresh_code_links_the_account upper start user2 [] bytes 0); [apply start_ok|done|reflexivity..|by eexists]. Defined.
Lemma override_decides_witness :
  HasManageGrant managed bot1 person1 = Ok true /\
  forall d'', DeleteManageOverride managed bot1 person1 = Ok d'' -> HasManageGrant d'' bot1 person1 = inheritedManage d'' bot1 (trim_space person1).
Proof. apply (override_decides linked bot1 person1 true managed). reflexivity. Defined.
(** a user who manages a bot only because everyone does is obeyed from
    their channel, but their identity is not in the list of managers. *)
Lemma everyone_manager_unlisted :
  let d := set_grants (fun _ => [mkGrant (lit "g1") bot1 GrantSubjectEveryone None [PermissionManage]]) linked in
  HasManageGrant d bot1 person1 = Ok true /\ ListManagers d bot1 = Ok [].
Proof. vm_compute. split; reflexivity. Qed.
End witnesses.
