(* ===== verification/CommandGate.v ===== *)
(** * Running a slash command

    [internal/command/handler.go] with the table of commands of its registry
    ([registry.go], [build*Group]) and the [/link] command ([link.go]): who may
    run what. The texts of replies are their kind and what they name; the
    handlers of the other commands are a parameter that may change the world
    [W] or fail. *)
From S2P Require Import Prelude GoStr CommandSyntax BotAccess.
#[local] Open Scope Z_scope.

(** What the handler asks of the chat rules, and what it relies on. *)
Record AccessEvaluator (W : Type) : Type := mkEvaluator {
  OwnerOnly : str -> bool;
  evaluate : W -> EvaluateRequest -> result AccessError bool;
}.
Arguments OwnerOnly {W} a channelType.
Arguments evaluate {W} a w req.
Class EvaluatorLaws {W} (a : AccessEvaluator W) : Prop := {
  owner_only_passes w req : OwnerOnly a (erChannelType req) = true -> evaluate a w req = Ok true;
  owner_only_trims channelType : OwnerOnly a (trim_space channelType) = OwnerOnly a channelType;
}.

(** ** The data of a command *)
Record ExecuteInput : Type := mkExecute {
  exBotID : str; exChannelIdentityID : str; exUserID : str; exText : str; exInvocation : option Invocation;
  exChannelType : str; exConversationType : str; exConversationID : str; exThreadID : str; exRouteID : str; exSessionID : str;
  exSessionRuntime : str; exCommandTarget : str;
}.
Record CommandContext : Type := mkContext {
  ccBotID : str; ccRole : str; ccWriteAccess : bool; ccArgs : list str; ccChannelIdentityID : str; ccUserID : str;
  ccChannelType : str; ccConversationType : str; ccConversationID : str; ccThreadID : str; ccRouteID : str; ccSessionID : str;
  ccSessionRuntime : str; ccPage : Z; ccProv : Z; ccSelectID : str; ccRange : str;
}.
(** The answers of [/link]. *)
Inductive LinkReply : Type :=
  | LinkUnavailable | LinkNoIdentity | LinkMissingCode | LinkNotFound | LinkExpired | LinkConsumed | LinkFailed | LinkSuccess.
Definition owner_role : str := lit "owner".
Definition manager_role : str := lit "manager".
Definition topLevelCommands : list str := lit <$> ["start"; "new"; "stop"; "approve"; "reject"; "respond"]%string.
Definition resourceAliases : list (str * str) :=
  prod_map lit lit <$> [("setting", "settings"); ("commands", "help"); ("cmds", "help"); ("model", "model"); ("models", "model");
                        ("reason", "reasoning"); ("reasoning", "reasoning"); ("effort", "reasoning"); ("think", "reasoning")]%string.
Definition canonicalResource (resource : str) : str :=
  match find_idx (fun kv => str_eqb kv.1 resource) resourceAliases with Some (_, kv) => kv.2 | None => resource end.
(** [/language zh] is [/language set zh]. *)
Definition normalizeLanguageShorthand (resource : str) (p : ParsedCommand) : ParsedCommand :=
  if str_eqb resource (lit "language") && negb (is_empty (pcAction p)) && negb (str_eqb (pcAction p) (lit "show")) && negb (str_eqb (pcAction p) (lit "set"))
  then mkParsed (pcResource p) (lit "set") (pcAction p :: pcArgs p) (pcPage p) (pcProv p) (pcSelectID p) (pcRange p)
  else p.
Definition normalizeLinkShorthand (resource : str) (p : ParsedCommand) : ParsedCommand :=
  if str_eqb resource (lit "link") && negb (is_empty (pcAction p)) && negb (str_eqb (pcAction p) (lit "consume"))
  then mkParsed (pcResource p) (lit "consume") (pcAction p :: pcArgs p) (pcPage p) (pcProv p) (pcSelectID p) (pcRange p)
  else p.

(** ** The registry: each group with its default action, and each action with
    whether it writes and whether it answers with a structured result *)
Definition commandTable : list (string * string * list (string * bool * bool)) := [
  ("schedule", "list", [("list", false, true); ("get", false, true); ("create", true, false); ("update", true, false);
                        ("delete", true, false); ("enable", true, false); ("disable", true, false)]);
  ("mcp", "list", [("list", false, true); ("get", false, true); ("delete", true, false)]);
  ("settings", "get", [("get", false, true); ("update", true, true); ("language", false, true)]);
  ("language", "show", [("show", false, true); ("set", false, true)]);
  ("model", "list", [("list", false, true); ("current", false, false); ("set", true, false)]);
  ("reasoning", "show", [("show", false, true); ("set", true, true)]);
  ("memory", "status", [("status", false, true); ("on", true, false); ("off", true, false)]);
  ("search", "list", [("list", false, true); ("current", false, false); ("set", true, false)]);
  ("usage", "summary", [("summary", false, true); ("by-model", false, true)]);
  ("skill", "list", [("list", false, true)]);
  ("fs", "list", [("list", false, false); ("read", false, false)]);
  ("status", "show", [("show", false, false); ("latest", false, false)]);
  ("context", "show", [("show", false, false)]);
  ("access", "show", [("show", false, false)]);
  ("link", "consume", [("consume", false, false)])
]%string.

Section handler.
Context {U : Unicode} {W E R : Type}.

Inductive Answer : Type := AnswerOther (r : R) | AnswerLink (l : LinkReply).
Inductive Reply : Type :=
  | GlobalHelp (target : str)
  | GroupHelp (group : str)
  | ActionHelp (group action : str)
  | NoAccess
  | TopLevelUsage (resource : str)
  | UnknownCommand (resource : str)
  | GroupUsage (group : str)
  | UnknownAction (resource action : str)
  | OwnerOnlyReply (resource : str)
  | Answered (answer : option Answer)
  | Failure (resource : str) (e : E).
Definition HandlerFn : Type := CommandContext -> W -> W * result E (option Answer).
Record SubCommand : Type := mkSub { scName : str; scIsWrite : bool; scHandler : option HandlerFn; scResultHandler : option HandlerFn }.
Record CommandGroup : Type := mkGroup { cgName : str; cgDefaultAction : str; cgCommands : gmap str SubCommand; cgOrder : list str }.
Record Registry : Type := mkRegistry { rgGroups : gmap str CommandGroup; rgOrder : list str }.
Definition newCommandGroup (name : str) : CommandGroup := mkGroup name [] ∅ [].
Definition Register (sub : SubCommand) (g : CommandGroup) : CommandGroup :=
  mkGroup (cgName g) (cgDefaultAction g) (<[scName sub := sub]> (cgCommands g)) (cgOrder g ++ [scName sub]).
Definition newRegistry : Registry := mkRegistry ∅ [].
Definition RegisterGroup (r : Registry) (g : CommandGroup) : Registry := mkRegistry (<[cgName g := g]> (rgGroups r)) (rgOrder r ++ [cgName g]).

(** [ConsumeLinkCode] of the link consumer, when one is set. *)
Context (linkConsumer : option (str -> str -> W -> result AccessError W)).
Definition linkReplyOf (e : AccessError) : LinkReply :=
  match e with ErrCodeNotFound => LinkNotFound | ErrCodeExpired => LinkExpired | ErrCodeConsumed => LinkConsumed | _ => LinkFailed end.
Definition linkConsume (cc : CommandContext) (w : W) : W * LinkReply :=
  match linkConsumer with
  | None => (w, LinkUnavailable)
  | Some consume =>
      if blank (ccChannelIdentityID cc) then (w, LinkNoIdentity)
      else
        let token := trim_space (default [] (head (ccArgs cc))) in
        if is_empty token then (w, LinkMissingCode)
        else match consume token (ccChannelIdentityID cc) w with
             | Ok w => (w, LinkSuccess)
             | Err e => (w, linkReplyOf e)
             end
  end.
(** The handlers of the other commands. *)
Context (runCommand : str -> str -> CommandContext -> W -> W * result E (option R)).
Definition handlerOf (group action : str) : HandlerFn := fun cc w =>
  if str_eqb group (lit "link") then let '(w, l) := linkConsume cc w in (w, Ok (Some (AnswerLink l)))
  else let '(w, r) := runCommand group action cc w in (w, match r with Ok r => Ok (AnswerOther <$> r) | Err e => Err e end).
Definition subOf (group : string) (entry : string * bool * bool) : SubCommand :=
  let '(action, isWrite, structured) := entry in
  let h := handlerOf (lit group) (lit action) in
  mkSub (lit action) isWrite (if structured then None else Some h) (if structured then Some h else None).
Definition groupOf (entry : string * string * list (string * bool * bool)) : CommandGroup :=
  let '(name, defaultAction, actions) := entry in
  let g := newCommandGroup (lit name) in
  foldl (fun g a => Register (subOf name a) g) (mkGroup (cgName g) (lit defaultAction) (cgCommands g) (cgOrder g)) actions.
Definition buildRegistry : Registry := foldl RegisterGroup newRegistry (groupOf <$> commandTable).

(** ** The handler *)
Context (roleResolver : option (W -> str -> str -> result AccessError str)) (aclEvaluator : option (AccessEvaluator W)).
Context (registry : Registry) (panicked : E).

Definition HasCommandResource (resource : str) : bool :=
  let resource := canonicalResource (to_lower (trim_space resource)) in
  str_eqb resource (lit "help") || bool_decide (resource ∈ topLevelCommands) || bool_decide (is_Some (rgGroups registry !! resource)).
Definition IsCommand (text : str) : bool :=
  let cmdText := ExtractCommandText text in
  if is_empty cmdText || (slen cmdText <? 2) then false
  else match Parse cmdText with Ok parsed => HasCommandResource (pcResource parsed) | Err _ => false end.
Definition parsedCommandFromInput (input : ExecuteInput) : option ParsedCommand :=
  match exInvocation input with
  | Some inv => Some (ivParsed inv)
  | None =>
      let cmdText := ExtractCommandText (exText input) in
      if is_empty cmdText then None else match Parse cmdText with Ok parsed => Some parsed | Err _ => None end
  end.
(** A role that cannot be resolved is none. *)
Definition roleOf (input : ExecuteInput) (w : W) : str :=
  let identity := trim_space (exChannelIdentityID input) in
  match roleResolver with
  | Some GetMemberRole => if is_empty identity then [] else match GetMemberRole w (exBotID input) identity with Ok role => role | Err _ => [] end
  | None => []
  end.
Definition operates (role : str) : bool := str_eqb role owner_role || str_eqb role manager_role.
Definition writeAccessOf (input : ExecuteInput) (w : W) : bool :=
  operates (roleOf input w) || match aclEvaluator with Some a => OwnerOnly a (exChannelType input) | None => false end.
Definition contextOf (input : ExecuteInput) (parsed : ParsedCommand) (w : W) : CommandContext :=
  mkContext (exBotID input) (roleOf input w) (writeAccessOf input w) (pcArgs parsed) (trim_space (exChannelIdentityID input)) (trim_space (exUserID input))
    (trim_space (exChannelType input)) (trim_space (exConversationType input)) (trim_space (exConversationID input)) (trim_space (exThreadID input))
    (trim_space (exRouteID input)) (trim_space (exSessionID input)) (trim_space (exSessionRuntime input))
    (pcPage parsed) (pcProv parsed) (pcSelectID parsed) (pcRange parsed).
Definition chatACLAllows (cc : CommandContext) (w : W) : result AccessError bool :=
  match aclEvaluator with
  | None => Ok true
  | Some a => evaluate a w (mkRequest (ccBotID cc) (ccChannelIdentityID cc) (ccChannelType cc)
                              (mkScope (ccConversationType cc) (ccConversationID cc) (ccThreadID cc)))
  end.
(** Neither refused nor failed. *)
Definition granted (r : result AccessError bool) : bool := match r with Ok b => b | Err _ => false end.
Definition safeExecute (h : option HandlerFn) (cc : CommandContext) (w : W) : W * result E (option Answer) :=
  match h with Some h => h cc w | None => (w, Err panicked) end.
Definition answerOf (resource : str) (r : W * result E (option Answer)) : W * Reply :=
  let '(w, r) := r in (w, match r with Ok a => Answered a | Err e => Failure (trim_space resource) e end).
(** From the registry on. *)
Definition dispatch (cc : CommandContext) (resource : str) (parsed : ParsedCommand) (w : W) : W * Reply :=
  match rgGroups registry !! resource with
  | None => (w, UnknownCommand (pcResource parsed))
  | Some group =>
      let action := if is_empty (pcAction parsed) then cgDefaultAction group else pcAction parsed in
      if is_empty action then (w, GroupUsage (cgName group))
      else match cgCommands group !! action with
           | None => (w, UnknownAction (pcResource parsed) action)
           | Some sub =>
               if scIsWrite sub && negb (ccWriteAccess cc) then (w, OwnerOnlyReply (pcResource parsed))
               else match scResultHandler sub with
                    | Some h => answerOf (pcResource parsed) (safeExecute (Some h) cc w)
                    | None => answerOf (pcResource parsed) (safeExecute (scHandler sub) cc w)
                    end
           end
  end.
Definition helpReply (input : ExecuteInput) (parsed : ParsedCommand) : Reply :=
  if is_empty (pcAction parsed) then GlobalHelp (exCommandTarget input)
  else match pcArgs parsed with
       | [] => match rgGroups registry !! pcAction parsed with Some g => GroupHelp (cgName g) | None => UnknownCommand (pcAction parsed) end
       | arg :: _ =>
           match rgGroups registry !! pcAction parsed with
           | None => UnknownCommand (pcAction parsed)
           | Some g => if bool_decide (is_Some (cgCommands g !! arg)) then ActionHelp (cgName g) arg else UnknownAction (cgName g) arg
           end
       end.
Definition ExecuteResult (input : ExecuteInput) (w : W) : W * Reply :=
  match parsedCommandFromInput input with
  | None => (w, GlobalHelp (exCommandTarget input))
  | Some parsed =>
      let resource := canonicalResource (pcResource parsed) in
      let parsed := normalizeLinkShorthand resource (normalizeLanguageShorthand resource parsed) in
      let cc := contextOf input parsed w in
      if negb (str_eqb resource (lit "link")) && negb (writeAccessOf input w) && negb (granted (chatACLAllows cc w)) then (w, NoAccess)
      else if str_eqb resource (lit "help") then (w, helpReply input parsed)
      else if bool_decide (resource ∈ topLevelCommands) then (w, TopLevelUsage resource)
      else dispatch cc resource parsed w
  end.
Definition CommandAccess (input : ExecuteInput) (w : W) : result AccessError bool :=
  if match parsedCommandFromInput input with Some parsed => str_eqb (canonicalResource (pcResource parsed)) (lit "link") | None => false end then Ok true
  else if operates (roleOf input w) then Ok true
  else match aclEvaluator with
       | None => Ok true
       | Some a => evaluate a w (mkRequest (exBotID input) (trim_space (exChannelIdentityID input)) (trim_space (exChannelType input))
                     (mkScope (trim_space (exConversationType input)) (trim_space (exConversationID input)) (trim_space (exThreadID input))))
       end.
End handler.
Arguments Reply : clear implicits.
Arguments Answer : clear implicits.
Arguments SubCommand : clear implicits.
Arguments CommandGroup : clear implicits.
Arguments Registry : clear implicits.
