(* ===== verification/GateCorrect.v ===== *)
(** * Who may run what

    A sender whom the chat rules refuse and who does not operate the bot can
    only link an account; a command that writes runs only for those who operate the bot; the check the channel makes
    before its own commands is the gate of the handler; and a code shown on the
    web links the account that sends it. *)
From S2P Require Import Prelude GoStr GoTrim CommandSyntax CommandSyntaxCorrect BotAccess BotAccessCorrect CommandGate.
#[local] Open Scope Z_scope.

(** The chat rules are an evaluator the handler can rely on. *)
Section bot_acl.
Context {U : Unicode} {I : UUIDs}.
Definition botACL (ownerOnly : option (str -> bool)) : AccessEvaluator Db :=
  mkEvaluator Db (OwnerOnlyChannel ownerOnly) (fun d req => Evaluate ownerOnly d req).
#[export] Instance botACL_laws ownerOnly : EvaluatorLaws (botACL ownerOnly).
Proof.
  constructor; intros; cbn in *.
  - unfold Evaluate. by rewrite H.
  - unfold OwnerOnlyChannel. destruct ownerOnly; [|done]. by rewrite trim_space_idem.
Qed.
End bot_acl.

Section gate.
Context {U : Unicode} {W E R : Type}.
Context (roleResolver : option (W -> str -> str -> result AccessError str)) (aclEvaluator : option (AccessEvaluator W)) (panicked : E).
Implicit Types (registry : Registry W E R) (input : ExecuteInput) (w : W).
Notation writes := (writeAccessOf roleResolver aclEvaluator).
Notation context := (contextOf roleResolver aclEvaluator).
Notation execute := (ExecuteResult roleResolver aclEvaluator).
Notation allowed := (chatACLAllows aclEvaluator).

Definition shorthands (parsed : ParsedCommand) : ParsedCommand :=
  let resource := canonicalResource (pcResource parsed) in normalizeLinkShorthand resource (normalizeLanguageShorthand resource parsed).
(** What the gate lets in. *)
Definition passes input (parsed : ParsedCommand) w : Prop :=
  canonicalResource (pcResource parsed) = lit "link" \/ writes input w = true \/ allowed (context input (shorthands parsed) w) w = Ok true.
Lemma granted_true r : granted r = true <-> r = Ok true.
Proof. destruct r as [[]|]; simpl; split; congruence. Qed.
Lemma shorthand_resource parsed : pcResource (shorthands parsed) = pcResource parsed.
Proof. unfold shorthands, normalizeLinkShorthand, normalizeLanguageShorthand. by repeat case_if. Qed.
Lemma gate_closed input parsed w :
  negb (str_eqb (canonicalResource (pcResource parsed)) (lit "link")) && negb (writes input w) && negb (granted (allowed (context input (shorthands parsed) w) w)) = true <->
  ~ passes input parsed w.
Proof.
  unfold passes. rewrite !andb_true_iff, !negb_true_iff, str_eqb_false, <- !not_true_iff_false, granted_true. tauto.
Qed.
Lemma execute_parsed registry input parsed w : parsedCommandFromInput input = Some parsed ->
  execute registry panicked input w =
    let resource := canonicalResource (pcResource parsed) in
    let cc := context input (shorthands parsed) w in
    if negb (str_eqb resource (lit "link")) && negb (writes input w) && negb (granted (allowed cc w)) then (w, NoAccess)
    else if str_eqb resource (lit "help") then (w, helpReply registry input (shorthands parsed))
    else if bool_decide (resource ∈ topLevelCommands) then (w, TopLevelUsage resource)
    else dispatch registry panicked cc resource (shorthands parsed) w.
Proof. intros H. unfold ExecuteResult. by rewrite H. Qed.
Lemma help_replies registry input parsed : helpReply registry input parsed <> NoAccess.
Proof. unfold helpReply. by repeat case_match. Qed.
Lemma dispatch_replies registry cc resource parsed w : (dispatch registry panicked cc resource parsed w).2 <> NoAccess.
Proof. unfold dispatch, answerOf. by repeat case_match. Qed.
Lemma no_access_iff registry input parsed w : parsedCommandFromInput input = Some parsed ->
  (execute registry panicked input w).2 = NoAccess <-> ~ passes input parsed w.
Proof.
  intros H. rewrite (execute_parsed _ _ _ _ H), <- gate_closed. cbv zeta. destruct (negb _ && _ && _); [done|]. split; [|done].
  destruct (str_eqb _ _); cbn [snd]; [by intros ?%help_replies|]. case_bool_decide; [done|]. by intros ?%dispatch_replies.
Qed.

(** C37: a sender is refused exactly when the chat rules do not let him in (or
    their check fails), he neither operates the bot as an owner or manager nor
    writes on a channel of the owner alone, and the command is not [/link]; a
    refused sender runs nothing and changes nothing. An owner or manager whom
    the chat rules refuse still reaches every command. *)
Theorem refused_sender_runs_nothing registry input parsed w : parsedCommandFromInput input = Some parsed ->
  let refused := canonicalResource (pcResource parsed) <> lit "link" /\ writeAccessOf roleResolver aclEvaluator input w = false /\
    chatACLAllows aclEvaluator (contextOf roleResolver aclEvaluator input (shorthands parsed) w) w <> Ok true in
  ((ExecuteResult roleResolver aclEvaluator registry panicked input w).2 = NoAccess <-> refused) /\
  (refused -> ExecuteResult roleResolver aclEvaluator registry panicked input w = (w, NoAccess)).
Proof.
  intros H. cbv zeta. assert (Hr : ~ passes input parsed w <-> canonicalResource (pcResource parsed) <> lit "link" /\ writes input w = false /\
    allowed (context input (shorthands parsed) w) w <> Ok true) by (unfold passes; rewrite <- (not_true_iff_false (writes input w)); tauto).
  rewrite <- Hr. split; [by apply no_access_iff|]. intros Hp. rewrite (execute_parsed _ _ _ _ H). cbv zeta.
  by rewrite (proj2 (gate_closed input parsed w) Hp).
Qed.
(** C39: the check the channel makes before it runs its own commands agrees
    with the gate of the handler: it says yes exactly when the handler would
    not refuse the same message. *)
Theorem command_access_is_the_gate registry input parsed w :
  (forall a, aclEvaluator = Some a -> EvaluatorLaws a) -> parsedCommandFromInput input = Some parsed ->
  CommandAccess roleResolver aclEvaluator input w = Ok true <-> (ExecuteResult roleResolver aclEvaluator registry panicked input w).2 <> NoAccess.
Proof.
  intros HL H. rewrite (no_access_iff registry input parsed w H). unfold CommandAccess. rewrite H. unfold passes.
  destruct (str_eqb (canonicalResource (pcResource parsed)) (lit "link")) eqn:El; [apply str_eqb_true in El; tauto|apply str_eqb_false in El].
  unfold writeAccessOf, chatACLAllows. destruct (operates (roleOf roleResolver input w)) eqn:Eo; [cbn [orb]; tauto|]. cbn [orb].
  destruct aclEvaluator as [a|] eqn:Ea; [|tauto]. cbn [contextOf ccBotID ccChannelIdentityID ccChannelType ccConversationType ccConversationID ccThreadID].
  destruct (OwnerOnly a (exChannelType input)) eqn:Eown.
  - assert (Hp := HL a eq_refl). rewrite (owner_only_passes (a := a)); [tauto|]. cbn [erChannelType]. by rewrite owner_only_trims.
  - destruct (evaluate _ _ _) as [[]|]; split; try done; try tauto. all: intros Hn; exfalso; apply Hn; by intros [?|[?|?]].
Qed.

(** ** What writes *)
Context (linkConsumer : option (str -> str -> W -> result AccessError W)).
Notation build := (buildRegistry (E := E) (R := R) linkConsumer).
(** Two registries that differ only in what their writing commands do. *)
Definition sameSub (s t : SubCommand W E R) : Prop :=
  scName s = scName t /\ scIsWrite s = scIsWrite t /\ (scIsWrite s = false -> s = t).
Definition sameGroup (g h : CommandGroup W E R) : Prop :=
  cgName g = cgName h /\ cgDefaultAction g = cgDefaultAction h /\ cgOrder g = cgOrder h /\ map_Forall2 (fun _ => sameSub) (cgCommands g) (cgCommands h).
Definition sameRegistry (r s : Registry W E R) : Prop := map_Forall2 (fun _ => sameGroup) (rgGroups r) (rgGroups s).
Lemma same_lookup {A B} (P : A -> B -> Prop) (m : gmap str A) (n : gmap str B) k : map_Forall2 (fun _ => P) m n ->
  match m !! k, n !! k with Some x, Some y => P x y | None, None => True | _, _ => False end.
Proof. intros H. specialize (H k). destruct (m !! k), (n !! k); inversion H; done. Qed.
Lemma same_dispatch r s cc resource parsed w : sameRegistry r s -> ccWriteAccess cc = false ->
  dispatch r panicked cc resource parsed w = dispatch s panicked cc resource parsed w.
Proof.
  intros Hrs Hw. unfold dispatch. assert (H := same_lookup _ _ _ resource Hrs).
  destruct (rgGroups r !! resource) as [g|], (rgGroups s !! resource) as [h|]; try done. destruct H as (Hn & Hd & _ & Hc). rewrite Hd.
  destruct (is_empty (if is_empty (pcAction parsed) then cgDefaultAction h else pcAction parsed)); [by rewrite Hn|].
  assert (H := same_lookup _ _ _ (if is_empty (pcAction parsed) then cgDefaultAction h else pcAction parsed) Hc).
  destruct (cgCommands g !! _) as [x|], (cgCommands h !! _) as [y|]; try done. destruct H as (_ & Hwr & Hsame). rewrite Hw. rewrite Hwr in *.
  destruct (scIsWrite y); [done|]. by rewrite (Hsame eq_refl).
Qed.
Lemma same_help r s input parsed : sameRegistry r s -> helpReply r input parsed = helpReply s input parsed.
Proof.
  intros Hrs. unfold helpReply. assert (H := same_lookup _ _ _ (pcAction parsed) Hrs).
  destruct (is_empty (pcAction parsed)); [done|]. destruct (rgGroups r !! _) as [g|], (rgGroups s !! _) as [h|]; try done.
  destruct H as (Hn & _ & _ & Hc). rewrite Hn. destruct (pcArgs parsed) as [|a l]; [done|]. assert (H := same_lookup _ _ _ a Hc).
  destruct (cgCommands g !! a), (cgCommands h !! a); done.
Qed.
(** The entries of the table that write. *)
Definition writing (group action : str) : bool :=
  existsb (fun g => str_eqb (lit g.1.1) group && existsb (fun a => str_eqb (lit a.1.1) action && a.1.2) g.2) commandTable.
Lemma not_writing entry action structured : entry ∈ commandTable -> (action, false, structured) ∈ entry.2 -> writing (lit entry.1.1) (lit action) = false.
Proof.
  assert (H : forallb (fun e => forallb (fun a => a.1.2 || negb (writing (lit e.1.1) (lit a.1.1))) e.2) commandTable = true) by (vm_compute; reflexivity).
  rewrite forallb_forall in H. intros He Ha. apply list_elem_of_In, H in He. rewrite forallb_forall in He. apply list_elem_of_In, He in Ha.
  by apply negb_true_iff in Ha.
Qed.
Lemma same_register g h x y : sameGroup g h -> sameSub x y -> sameGroup (Register x g) (Register y h).
Proof.
  intros (Hn & Hd & Ho & Hc) Hs. destruct Hs as (Hx & Hrest). unfold sameGroup, Register. cbn. rewrite Hx, Ho. split_and!; [done..|].
  apply map_Forall2_insert_2; [|done]. by split.
Qed.
Section two.
Context (run1 run2 : str -> str -> CommandContext -> W -> W * result E (option R)).
Context (agree : forall group action, writing group action = false -> run1 group action = run2 group action).
Lemma same_sub_of (entry : string * string * list (string * bool * bool)) a : entry ∈ commandTable -> a ∈ entry.2 ->
  sameSub (subOf linkConsumer run1 entry.1.1 a) (subOf linkConsumer run2 entry.1.1 a).
Proof.
  intros He Ha. destruct a as [[action isWrite] structured]. unfold subOf, sameSub. cbn [scName scIsWrite]. split_and!; [done..|]. intros ->.
  assert (Hh : handlerOf linkConsumer run1 (lit entry.1.1) (lit action) = handlerOf linkConsumer run2 (lit entry.1.1) (lit action)); [|by rewrite Hh].
  unfold handlerOf. rewrite agree; [done|]. by eapply not_writing.
Qed.
Lemma same_group_of entry : entry ∈ commandTable -> sameGroup (groupOf linkConsumer run1 entry) (groupOf linkConsumer run2 entry).
Proof.
  intros He. assert (Hsub := fun a => same_sub_of entry a He). destruct entry as [[name def] actions]. cbn [fst snd] in Hsub. unfold groupOf.
  assert (Hg : forall l g h, (forall a, a ∈ l -> a ∈ actions) -> sameGroup g h ->
    sameGroup (foldl (fun g a => Register (subOf linkConsumer run1 name a) g) g l) (foldl (fun g a => Register (subOf linkConsumer run2 name a) g) h l)).
  { induction l as [|a l IH]; intros g h Hl Hgh; [done|]. cbn [foldl]. apply IH; [intros b Hb; apply Hl; by right|].
    apply same_register; [done|]. apply Hsub, Hl. by left. }
  apply Hg; [done|]. split_and!; [done..|]. apply map_Forall2_empty.
Qed.
Lemma same_build : sameRegistry (build run1) (build run2).
Proof.
  unfold buildRegistry. assert (Hl : forall l r s, (forall e, e ∈ l -> e ∈ commandTable) -> sameRegistry r s ->
    sameRegistry (foldl RegisterGroup r (groupOf linkConsumer run1 <$> l)) (foldl RegisterGroup s (groupOf linkConsumer run2 <$> l))).
  { induction l as [|e l IH]; intros r s Hl Hrs; [done|]. rewrite !fmap_cons. cbn [foldl]. apply IH; [intros b Hb; apply Hl; by right|].
    assert (He : e ∈ commandTable) by (apply Hl; by left). assert (Hg := same_group_of e He). unfold sameRegistry, RegisterGroup. cbn [rgGroups].
    destruct Hg as (Hn & Hrest). rewrite Hn. apply map_Forall2_insert_2; [by split|done]. }
  apply Hl; [done|]. apply map_Forall2_empty.
Qed.
(** C38: what the writing commands do cannot matter to a sender who does not
    operate the bot: whatever the message, the reply and the state after it
    are those of any other handlers of the writing commands, so none of them
    ran. *)
Theorem writes_need_write_access input w : writeAccessOf roleResolver aclEvaluator input w = false ->
  ExecuteResult roleResolver aclEvaluator (buildRegistry linkConsumer run1) panicked input w = ExecuteResult roleResolver aclEvaluator (buildRegistry linkConsumer run2) panicked input w.
Proof.
  intros Hw. destruct (parsedCommandFromInput input) as [parsed|] eqn:H; [|unfold ExecuteResult; by rewrite H].
  rewrite !(execute_parsed _ _ _ _ H). cbv zeta. destruct (negb _ && _ && _); [done|].
  rewrite (same_help _ _ _ _ same_build). by rewrite (same_dispatch _ _ _ _ _ _ same_build).
Qed.
End two.

(** ** What is a command *)
Lemma dispatch_unknown registry cc resource parsed w name :
  (dispatch registry panicked cc resource parsed w).2 = UnknownCommand name -> rgGroups registry !! resource = None.
Proof. unfold dispatch, answerOf. repeat case_match; try done; cbn [snd]; congruence. Qed.
(** of the messages the gate lets in, the handler answers "unknown
    command" exactly to those the channel does not take for a command; help
    about an unknown command aside. *)
Theorem unknown_means_unregistered registry input parsed w : parsedCommandFromInput input = Some parsed -> passes input parsed w ->
  to_lower (trim_space (pcResource parsed)) = pcResource parsed -> canonicalResource (pcResource parsed) <> lit "help" ->
  HasCommandResource registry (pcResource parsed) = false <-> exists name, (ExecuteResult roleResolver aclEvaluator registry panicked input w).2 = UnknownCommand name.
Proof.
  intros H Hp Hlow Hh. rewrite (execute_parsed _ _ _ _ H). cbv zeta. destruct (negb _ && _ && _) eqn:Eg; [by apply gate_closed in Eg|].
  unfold HasCommandResource. rewrite Hlow. rewrite (proj2 (str_eqb_false _ _) Hh). cbn [orb].
  case_bool_decide as Et; cbn [orb snd]; [split; [done|by intros [? ?]]|]. rewrite bool_decide_eq_false, <- eq_None_not_Some. split.
  - intros Hn. unfold dispatch. rewrite Hn. by eexists.
  - intros [name Hn]. by eapply dispatch_unknown.
Qed.
End gate.

(** ** Linking an account from a channel *)
Section linking.
Context {U : Unicode}.
Definition alphabetChar (c : ascii) : bool := existsb (Ascii.eqb c) tokenAlphabet.
Definition lowerChar (c : ascii) : ascii := if in_range 65 90 (byte_val c) then byte_of (byte_val c + 32) else c.
Lemma token_alphabet buf : Forall (fun c => alphabetChar c = true) (generateToken buf).
Proof.
  assert (H : forallb alphabetChar tokenAlphabet = true) by reflexivity. rewrite forallb_forall in H.
  unfold generateToken. apply Forall_fmap, Forall_true. intros b. unfold compose. apply H.
  destruct (nth_in_or_default (Z.to_nat (b mod slen tokenAlphabet)) tokenAlphabet "2"%char) as [Hin| ->]; [done|by left].
Qed.
Lemma alphabet_lower c : alphabetChar c = true -> encode_rune (to_lower_rune (byte_val c)) = [lowerChar c].
Proof. destruct c as [[] [] [] [] [] [] [] []]; intros H; (discriminate H || reflexivity). Qed.
Lemma alphabet_upper upper c : alphabetChar c = true -> encode_rune (to_upper_rune upper (byte_val (lowerChar c))) = [c].
Proof. destruct c as [[] [] [] [] [] [] [] []]; intros H; (discriminate H || reflexivity). Qed.
Definition wordByte (c : ascii) : bool :=
  (byte_val c <? 128) && negb (is_space (byte_val c)) && negb (bool_decide (c ∈ [dquote; squote; " "%char; tab; at_sign; "-"%char])).
Lemma word_byte c : wordByte c = true -> word_char c /\ c <> "-"%char.
Proof.
  unfold wordByte, word_char, plain. intros H. bool_hyps. rewrite !not_elem_of_cons in *. destruct_and!. by split_and!.
Qed.
Lemma alphabet_word c : alphabetChar c = true -> wordByte c = true /\ wordByte (lowerChar c) = true.
Proof. destruct c as [[] [] [] [] [] [] [] []]; intros H; (discriminate H || by split). Qed.
Lemma token_word buf : length buf = tokenLength -> word (generateToken buf) /\ word (lowerChar <$> generateToken buf) /\ length (generateToken buf) = tokenLength.
Proof.
  intros Hl. assert (Hn : length (generateToken buf) = tokenLength) by (unfold generateToken; rewrite length_fmap, length_take; lia).
  assert (H := token_alphabet buf). split_and!; [..|done].
  - split; [by destruct (generateToken buf)|]. eapply Forall_impl; [exact H|]. intros c Hc. by apply word_byte, alphabet_word.
  - split; [by destruct (generateToken buf)|]. apply Forall_fmap. eapply Forall_impl; [exact H|]. intros c Hc. by apply word_byte, alphabet_word.
Qed.
Lemma encode_each (f : Z -> Z) (g : ascii -> ascii) s : Forall word_char s -> Forall (fun c => encode_rune (f (byte_val c)) = [g c]) s ->
  encode (f <$> runes s) = g <$> s.
Proof.
  intros Hw Hf. unfold runes. rewrite (word_units _ Hw). clear Hw. induction Hf as [|c s Hc _ IH]; [done|].
  rewrite !fmap_cons. unfold encode. cbn [flat_map]. cbn [fst]. rewrite Hc. cbn [app]. by f_equal.
Qed.
Lemma lower_token buf : length buf = tokenLength -> to_lower (generateToken buf) = lowerChar <$> generateToken buf.
Proof.
  intros Hl. destruct (token_word buf Hl) as ([_ Hw] & _ & _). apply encode_each; [done|]. eapply Forall_impl; [apply token_alphabet|]. apply alphabet_lower.
Qed.
(** The parser lowers the code, the service raises it again. *)
Lemma token_again upper buf : length buf = tokenLength -> normalizeToken upper (to_lower (generateToken buf)) = generateToken buf.
Proof.
  intros Hl. rewrite lower_token by done. destruct (token_word buf Hl) as (_ & Hw & _). unfold normalizeToken. rewrite trim_word by done.
  destruct Hw as [_ Hw]. unfold to_upper, runes. rewrite (word_units _ Hw). assert (H := token_alphabet buf).
  induction H as [|c s Hc _ IH]; [done|]. rewrite !fmap_cons in *. inversion Hw; subst. unfold encode. cbn [flat_map]. cbn [fst].
  rewrite alphabet_upper by done. cbn [app]. f_equal. by apply IH.
Qed.
Lemma link_text_trim code : word code -> trim_space (lit "/link " ++ code) = lit "/link " ++ code.
Proof.
  intros [Hne Hw]. destruct code as [|d s _] using rev_ind; [done|]. apply Forall_app in Hw as [_ Hw]. inversion Hw as [|? ? (H1 & H2 & _) _]; subst.
  change (lit "/link " ++ s ++ [d]) with ("/"%char :: (lit "link " ++ s ++ [d])). rewrite app_assoc. by apply trim_space_ends.
Qed.
Lemma parse_link code : word code -> Forall (fun c => c <> "-"%char) code ->
  Parse (lit "/link " ++ code) = Ok (mkParsed (lit "link") (to_lower code) [] 0 (-1) [] []).
Proof.
  intros Hw Hd.
  unfold Parse. rewrite (link_text_trim _ Hw). change (has_prefix (lit "/link " ++ code) (lit "/")) with true. cbn [negb]. cbv iota.
  assert (Htok : Tokenize (drop 1 (lit "/link " ++ code)) = [lit "link"; code]).
  { change (drop 1 (lit "/link " ++ code)) with (join (lit " ") [lit "link"; code]). unfold Tokenize.
    apply (tokenize_pieces _ [lit "link"; code]). constructor; [|constructor; [|constructor]].
    - constructor; [done|]. apply Forall_forall. intros c Hc. unfold plain. set_unfold in Hc. naive_solver.
    - destruct Hw as [Hne Hw]. constructor; [done|]. eapply Forall_impl; [exact Hw|]. by intros c (_ & _ & ? & _). }
  rewrite Htok. assert (Hr : resourceOf [lit "link"; code] = lit "link").
  { rewrite resource_word; [done|]. apply Forall_forall. intros c Hc. apply word_byte. set_unfold in Hc. naive_solver. }
  rewrite Hr. change (actionOf [lit "link"; code]) with (to_lower code). change (shouldExtractGlobalFlags (lit "link") (to_lower code)) with true. cbv iota.
  assert (Hf : intFlag code = false).
  { destruct Hw as [Hne _]. destruct code as [|c code]; [done|]. inversion Hd; subst. unfold intFlag. apply not_true_iff_false. rewrite ?orb_true_iff, ?str_eqb_true. naive_solver. }
  assert (Hx : extractFlags [lit "link"; code] = ([lit "link"; code], noFlags)).
  { unfold extractFlags. rewrite extractFrom_step. change (str_eqb (lit "link") (lit "--range")) with false. change (str_eqb (lit "link") (lit "--id")) with false.
    change (intFlag (lit "link")) with false. cbv iota. cbn [extractFrom]. by rewrite Hf. }
  rewrite Hx. rewrite !bool_decide_false by done. by rewrite Hr.
Qed.
Lemma link_message_parsed input buf : length buf = tokenLength -> exInvocation input = None -> exText input = lit "/link " ++ generateToken buf ->
  parsedCommandFromInput input = Some (mkParsed (lit "link") (to_lower (generateToken buf)) [] 0 (-1) [] []).
Proof.
  intros Hl Hinv Htext. destruct (token_word buf Hl) as (Hw & _ & _). unfold parsedCommandFromInput, ExtractCommandText.
  rewrite Hinv, Htext, (link_text_trim _ Hw). change (has_prefix (lit "/link " ++ generateToken buf) (lit "/")) with true. cbv iota.
  change (is_empty (lit "/link " ++ generateToken buf)) with false. cbv iota. rewrite parse_link; [done|done|].
  eapply Forall_impl; [apply token_alphabet|]. intros c Hc. by apply word_byte, alphabet_word.
Qed.
Lemma link_shorthand buf : length buf = tokenLength ->
  shorthands (mkParsed (lit "link") (to_lower (generateToken buf)) [] 0 (-1) [] []) =
  mkParsed (lit "link") (lit "consume") [to_lower (generateToken buf)] 0 (-1) [] [].
Proof.
  intros Hl. destruct (token_word buf Hl) as (_ & Hlw & Hlen). unfold shorthands, normalizeLinkShorthand, normalizeLanguageShorthand. cbn [pcResource].
  change (canonicalResource (lit "link")) with (lit "link"). change (str_eqb (lit "link") (lit "language")) with false. cbn [andb pcAction pcArgs pcResource].
  change (str_eqb (lit "link") (lit "link")) with true. cbn [andb]. rewrite lower_token by done.
  rewrite (proj2 (is_empty_false _)) by (by destruct Hlw). rewrite (proj2 (str_eqb_false _ _)); [done|].
  intros Hx. apply (f_equal length) in Hx. by rewrite length_fmap, Hlen in Hx.
Qed.
End linking.

Section link_command.
Context {U : Unicode} {I : UUIDs} {E R : Type}.
Context (upper : Z -> Z) (now clock : Z) (runCommand : str -> str -> CommandContext -> Db -> Db * result E (option R)).
(** The channel access service behind the command. *)
Definition accessConsumer (token identity : str) (d : Db) : result AccessError Db :=
  r <-? ConsumeLinkCode upper d token identity now clock ;; Ok r.2.
Notation registry := (buildRegistry (Some accessConsumer) runCommand).
Definition linkEntry : string * string * list (string * bool * bool) := ("link", "consume", [("consume", false, false)])%string.
Definition linkSub : SubCommand Db E R := mkSub (lit "consume") false (Some (handlerOf (Some accessConsumer) runCommand (lit "link") (lit "consume"))) None.
Lemma link_group : exists g, rgGroups registry !! lit "link" = Some g /\ cgCommands g !! lit "consume" = Some linkSub.
Proof using Type.
  exists (groupOf (Some accessConsumer) runCommand linkEntry). split; [|exact (lookup_insert_eq ∅ (lit "consume") linkSub)].
  unfold buildRegistry. change commandTable with (take 14 commandTable ++ [linkEntry]). rewrite fmap_app, foldl_app.
  generalize (foldl RegisterGroup newRegistry (groupOf (Some accessConsumer) runCommand <$> take 14 commandTable)). intros r.
  exact (lookup_insert_eq (rgGroups r) (lit "link") (groupOf (Some accessConsumer) runCommand linkEntry)).
Qed.
(** C40: a code shown on the web and sent to the bot as [/link] with the code
    redeems it for the sender, whoever the sender is and whatever the rules of
    the bot say of them: the lower case of the parser is undone, and the short
    form is the command. *)
Theorem link_command_redeems roleResolver aclEvaluator panicked input d buf user d' :
  length buf = tokenLength -> exInvocation input = None -> exText input = lit "/link " ++ generateToken buf ->
  ConsumeLinkCode upper d (generateToken buf) (exChannelIdentityID input) now clock = Ok (user, d') ->
  ExecuteResult roleResolver aclEvaluator registry panicked input d = (d', Answered (Some (AnswerLink LinkSuccess))).
Proof using Type.
  intros Hl Hinv Htext Hcon. destruct (token_word buf Hl) as (Hw & Hlw & Hlen).
  assert (Hp := link_message_parsed _ _ Hl Hinv Htext). rewrite (execute_parsed _ _ _ _ _ _ _ Hp). cbn [pcResource]. cbv zeta. change (canonicalResource (lit "link")) with (lit "link").
  change (str_eqb (lit "link") (lit "link")) with true. cbn [negb andb]. change (str_eqb (lit "link") (lit "help")) with false. cbv iota.
  rewrite bool_decide_false by (by apply (bool_decide_unpack _)).
  rewrite link_shorthand by done. destruct link_group as (g & Hg & Hc). unfold dispatch. rewrite Hg. cbn [pcAction]. change (is_empty (lit "consume")) with false. cbv iota.
  rewrite Hc. cbn [linkSub scIsWrite andb scResultHandler scHandler safeExecute]. unfold handlerOf. change (str_eqb (lit "link") (lit "link")) with true. cbv iota.
  unfold linkConsume. cbn [contextOf ccChannelIdentityID ccArgs pcArgs head default]. unfold blank. rewrite trim_space_idem.
  assert (Hi : is_empty (trim_space (exChannelIdentityID input)) = false).
  { unfold ConsumeLinkCode in Hcon. apply rbind_Ok in Hcon as (? & Hx%check_Ok & _). by apply negb_true_iff, orb_false_iff in Hx as [_ Hx]. }
  rewrite Hi. cbn [from_option id].
  assert (Ht : trim_space (to_lower (generateToken buf)) = to_lower (generateToken buf)) by (rewrite lower_token by done; by apply trim_word).
  rewrite Ht, (proj2 (is_empty_false (to_lower (generateToken buf)))) by (rewrite lower_token by done; by destruct Hlw).
  assert (Hsame : ConsumeLinkCode upper d (to_lower (generateToken buf)) (trim_space (exChannelIdentityID input)) now clock = Ok (user, d')).
  { rewrite <- Hcon. unfold ConsumeLinkCode. rewrite token_again by done. rewrite (normalize_code upper) by apply token_chars. by rewrite trim_space_idem. }
  unfold accessConsumer. rewrite Hsame. reflexivity.
Qed.
End link_command.

(** ** Concrete messages *)
Section witnesses.
Import Demo.
Definition stranger (text : string) : ExecuteInput :=
  mkExecute bot1 person1 [] (lit text) None (lit "telegram") (lit "private") [] [] [] [] [] [].
Definition closed : Db := Eval vm_compute in match SetDefaultEffect start bot1 (lit "deny") with Ok d => d | Err _ => start end.
Definition echo (group action : str) (cc : CommandContext) (d : Db) : Db * result unit (option str) := (d, Ok (Some action)).
Definition wipe (group action : str) (cc : CommandContext) (d : Db) : Db * result unit (option str) :=
  if writing group action then (set_rules (fun _ => []) (set_grants (fun _ => []) d), Ok None) else echo group action cc d.
Definition roles (d : Db) (bot identity : str) : result AccessError str := GetMemberRole d bot identity.
Definition commands (run : str -> str -> CommandContext -> Db -> Db * result unit (option str)) : Registry Db unit str :=
  buildRegistry (Some (accessConsumer upper 1 1)) run.
Definition model_set : ParsedCommand := mkParsed (lit "model") (lit "set") [lit "x"] 0 (-1) [] [].
Lemma refused_sender_runs_nothing_witness :
  ExecuteResult (Some roles) (Some (botACL None)) (commands echo) tt (stranger "/model set x") closed = (closed, NoAccess).
Proof.
  refine (proj2 (refused_sender_runs_nothing (Some roles) (Some (botACL None)) tt (commands echo) (stranger "/model set x") model_set closed _) _).
  - vm_compute. reflexivity.
  - split; [by apply (bool_decide_unpack _)|]. split; [vm_compute; reflexivity|vm_compute; discriminate].
Defined.
Lemma command_access_is_the_gate_witness :
  CommandAccess (Some roles) (Some (botACL None)) (stranger "/model set x") closed = Ok true <->
  (ExecuteResult (Some roles) (Some (botACL None)) (commands echo) tt (stranger "/model set x") closed).2 <> NoAccess.
Proof.
  apply (command_access_is_the_gate (Some roles) (Some (botACL None)) tt (commands echo) (stranger "/model set x") model_set closed).
  - intros a [= <-]. apply botACL_laws.
  - vm_compute. reflexivity.
Defined.
Lemma writes_need_write_access_witness :
  ExecuteResult (Some roles) (Some (botACL None)) (commands echo) tt (stranger "/model set x") start =
  ExecuteResult (Some roles) (Some (botACL None)) (commands wipe) tt (stranger "/model set x") start.
Proof.
  unfold commands. apply (writes_need_write_access (Some roles) (Some (botACL None)) tt (Some (accessConsumer upper 1 1)) echo wipe).
  - intros group action H. unfold wipe. by rewrite H.
  - vm_compute. reflexivity.
Defined.
Lemma unknown_means_unregistered_witness :
  HasCommandResource (commands echo) (lit "model") = false <->
  exists name, (ExecuteResult (Some roles) (Some (botACL None)) (commands echo) tt (stranger "/model set x") start).2 = UnknownCommand name.
Proof.
  apply (unknown_means_unregistered (Some roles) (Some (botACL None)) tt (commands echo) (stranger "/model set x") model_set start).
  - vm_compute. reflexivity.
  - right; right. vm_compute. reflexivity.
  - vm_compute. reflexivity.
  - by apply (bool_decide_unpack _).
Defined.
Definition link_message : ExecuteInput := stranger (String.append "/link " (string_of_list_ascii code)).
Lemma link_command_redeems_witness :
  ExecuteResult (Some roles) (Some (botACL None)) (commands echo) tt link_message issued = (linked, Answered (Some (AnswerLink LinkSuccess))).
Proof.
  unfold commands. apply (link_command_redeems upper 1 1 echo (Some roles) (Some (botACL None)) tt link_message issued bytes user2 linked); reflexivity.
Defined.
End witnesses.
